(* ===== verification/_CoqProject ===== *)
-Q . S2P
Prelude.v
Constants.v
Encoding.v
Amounts.v
Emission.v
FeeMarket.v
Difficulty.v
ForkSignal.v
Block.v
Utxo.v
ForkChoice.v
Chain.v
ChainDemo.v
ChainLedger.v
ChainCoins.v
ChainSafety.v
ChainRestart.v
ChainNode.v
ChainReorg.v
ChainFaults.v
ChainWork.v
Phase2.v
Phase2Rules.v
Phase2Safety.v
AuxPow.v
Frost.v
FrostRules.v
Coordinator.v
Caches.v
CachesRules.v
Orphan.v
Peers.v
PeersRules.v
PeersSafety.v
Sync.v
SyncRules.v
SyncSafety.v
SyncTargets.v
Dandelion.v
DandelionRules.v
Pow.v
PowRules.v
RollingFinality.v
TxValidation.v
BlockValidation.v
BlockRules.v
ChainMoney.v
Mempool.v
MempoolRules.v
MempoolSafety.v
Mining.v
MiningRules.v
MiningDemo.v
MiningSafety.v
MiningSearch.v
Stealth.v
Wallet.v
StealthRules.v
WalletRules.v
WalletScan.v
WalletDemo.v
WalletFollow.v
WalletResume.v
WalletSafety.v
Swap.v
Handshake.v
SwapSafety.v
