(* ===== verification/Prelude.v ===== *)
(** * CoinCync: a verification library for the node, its wallet and its swaps

    CoinCync is a proof-of-work cryptocurrency with ring-signature privacy.
    This library models the deterministic core of the node (what two honest
    nodes must compute identically), the parts around it that keep state of
    their own (pool, miner, peers, block download, transaction relay, wallet)
    and the protocols beside it (atomic swaps, threshold signing, merge mining)
    as executable Rocq functions translated from the Rust sources, and proves
    the properties that make each part correct.  Paths below are relative to
    the repository root.

    ** The program and its parts

    A block arrives from the network or the miner and [Blockchain::add_block]
    ([src/chain.rs]) validates it, extends the tip or weighs it as a fork.
    Validation asks the emission curve ([src/emission]) for the reward, the fee
    market ([src/consensus/fee_market.rs]) for the burn, the retarget
    ([src/consensus/difficulty.rs]) for the expected target, the soft-fork
    signaller ([src/consensus/fork_signal.rs]) for what is active, and the
    UTXO set ([src/storage/utxos.rs]) for spent key images and ring members.
    An accepted block feeds the rolling-finality tracker
    ([crates/coincync-rolling-finality], [src/consensus/rolling_finality.rs]),
    which the fork decision consults before a reorganisation.  Transactions
    wait in the pool ([src/mempool.rs]), which admits them against the chain,
    drops what a block confirms or contradicts and builds block templates.
    The miner ([src/mining]) turns a template into a candidate and searches a
    nonce with the proof-of-work engine ([src/consensus/pow.rs]).  The network
    side ([src/network]) admits and evicts peers, asks them for headers and
    blocks, parks blocks without a parent, and routes transactions along the
    stem before it announces them.  The wallet ([src/wallet], the scan command
    of [src/bin/wallet_support]) asks a node for blocks, recognises the outputs
    paid to it, keeps them through reorganisations and restarts, and reserves
    what it spends.

    ** Files

    - [Prelude]: machine integers ([is_u64], [wrap64], [sat_add], ...), the
      [result] monad, byte strings, tactics ([word_lia], [split_if]) and the
      hint database [word].  A Rust integer is a [Z] with its range; plain
      operators wrap (the release profile has no overflow checks), saturating
      and checked methods have definitions of their own.
    - [Constants]: [src/constants.rs]; constants selected by a crate feature
      take the feature as a [bool].
    - [Encoding]: the class [SelfDelim] of self-delimiting encoders and the
      tactic [peel], used for every hash preimage.
    - [Amounts] ([src/primitives/amount.rs]): arithmetic, printing, parsing.
    - [Emission] ([src/emission/curve.rs], [supply.rs]): reward from supply,
      the height-based estimate with its stepping loop.
    - [FeeMarket] ([src/consensus/fee_market.rs]): fee floor, congestion,
      miner/burn split.
    - [Difficulty] ([src/consensus/difficulty.rs]): the dual-anchor ASERT
      retarget in fixed point, bit shifts and saturation included.
    - [ForkSignal] ([src/consensus/fork_signal.rs] and the window count of
      [src/chain.rs]): the deployment state machine; the class [SignalCount] is
      what the signaller expects of the chain's counter and the chain's counter
      is shown to satisfy it.
    - [Block] ([src/primitives/hash.rs], [src/transaction/types.rs],
      [src/consensus/header.rs], [block.rs]): data types, preimages, Merkle
      root.  The hash function is an argument.
    - [Utxo] ([src/storage/utxos.rs], [src/db/output_index.rs]): the UTXO set,
      its indices and the connect/disconnect batches.
    - [ForkChoice] ([src/chain.rs]): block lookup, parent walks, cumulative
      work, median time past, the reorg rule and the fork decision.  The class
      [FinalityGate] is what it expects of rolling finality.
    - [RollingFinality] (the crate and its adapter): active set, tracker, wire
      codec, adapter; it provides the [FinalityGate] instance.  Signature
      verification is the class [AttestationVerifier], as the trait in the
      source; Borsh is an argument.
    - [Chain] ([src/chain.rs] with [src/db], [src/mainnet.rs] and
      [src/emission/mod.rs]): the whole [add_block] with its extension, fork
      and reorganisation paths, rollbacks included, start from genesis, restart
      from the database and rebuild of the UTXO set.  State passing with the
      outcome monad [M] (value, early return or panic); the class
      [BlockValidator] is what the chain expects of block validation.
      [ChainDemo] holds a small concrete chain for the witnesses.
    - [ChainLedger], [ChainCoins], [ChainSafety], [ChainRestart]: the invariants
      of the chain state and the lemmas on its operations; [ChainNode],
      [ChainReorg], [ChainFaults], [ChainWork]: the theorems on reachable nodes.
      [ChainNode.reachable] is indexed by the incidents of the history (below);
      the validator may differ from call to call, since it reads the clock.
    - [TxValidation] ([src/consensus/validation.rs],
      [src/consensus/privacy_policy.rs], [src/crypto/cache.rs]): every check of
      a transaction and the cache of verified signatures.  Curve operations are
      the class [Crypto]; the answers of the cached verifiers are the class
      [Verdicts].
    - [BlockValidation] (the block driver of the same file) provides the
      [BlockValidator] instance; [BlockRules] has its theorems and [ChainMoney]
      composes it with the chain.
    - [Mempool] ([src/mempool.rs] and the generation counter of
      [src/chain.rs]): the pool and its operations; [MempoolRules]: the
      invariant and the lemmas; [MempoolSafety]: the theorems.
    - [Swap] ([crates/coincync-swap]: [src/protocol.rs], [src/state.rs] and the
      commands of [src/bin/cyncswap.rs] that move a swap); [Handshake]
      ([src/coordinator.rs]): the negotiation session and its drivers over an
      abstract transport, in the state-and-error monad [Co]; [SwapSafety]: the
      theorems on both.  The answers of disk and chains are arguments.
    - [Phase2] ([src/storage/kernels.rs], [spark.rs], [shielded.rs]): the three
      privacy stores with their checkpoints and trees on disk; the bridge tree
      is the class [BridgeTree].  [Phase2Rules]: the refinement of a journal;
      [Phase2Safety]: reorganisations, restarts, the stores inside the chain.
    - [AuxPow] ([crates/auxpow]): Merkle branches, the merge-mining tag and the
      verification of a commitment; the node hash is the class
      [CommitmentHasher].
    - [Frost] ([crates/coincync-frost-coordinator]: [src/session.rs],
      [src/invitations.rs]) and [Coordinator] ([src/persistence.rs],
      [src/bin/coord.rs]): signing sessions, tokens, the server and its file;
      [FrostRules]: their theorems.
    - [Caches], [CachesRules] ([src/storage/lru_cache.rs], [bloom.rs]): bounded
      caches and filters over the classes [LruMap] and [BloomInner].
    - [Orphan] ([src/network/orphan.rs]): the orphan pool, its queue and the
      refinement between them.
    - [Peers] ([src/network/connection_tracker.rs], [relay_score.rs],
      [eviction.rs], [peer.rs] and the accept, connect and disconnect paths of
      [src/network/node]), [PeersRules], [PeersSafety].  The iteration order of
      the hash maps is the class [MapOrder].
    - [Sync] ([src/network/sync.rs]): headers, queue, requests, orphans and
      recovery of [ChainSync]; [SyncRules]: the invariant; [SyncSafety],
      [SyncTargets]: what is never lost and what is asked for next.
    - [Dandelion] ([src/network/dandelion.rs] and the two places of the node
      that act on its answers), [DandelionRules].
    - [Pow] ([src/consensus/pow.rs]): anchors, epoch keys, the RandomX engine
      with its datasets, machines and back-off; RandomX is the class
      [RandomXLib] with the laws [RandomXLaws].  [PowRules]: the theorems.
    - [Mining] ([src/mining/template.rs], [block_builder.rs]): template,
      coinbase, candidate, nonce search, submission; the classes [Wire] and
      [Curve] stand for hex, Borsh and the curve.  [MiningRules]: lemmas,
      [MiningDemo]: a node for the witnesses, [MiningSafety]: candidates against
      the validator and the chain, [MiningSearch]: the search and the submission.
    - [Stealth] ([src/crypto/stealth.rs], [src/transaction/builder.rs],
      [src/wallet/subaddress.rs] and the scanning of one output): the outputs
      the sender builds and the receiver recognises, over the class
      [WalletCurve] with the group laws [CurveLaws].  [StealthRules]: the
      round trip.
    - [Wallet] ([src/wallet/balance.rs], [history.rs], [scanner.rs],
      [wallet.rs], [spend/submission.rs], the scan command of
      [src/bin/wallet_support/legacy.rs] and the RPC answer it reads): outputs,
      reservations, history, journal, rewind, save and load, scan, reserved
      submission.  [WalletRules], [WalletScan]: the reference ledger and the
      lemmas; [WalletDemo]: chains and wallets for the witnesses;
      [WalletFollow], [WalletResume], [WalletSafety]: the theorems.

    ** What the theorems show

    Chain: as long as a node has had no incident, [add_block] refines the
    abstract operation on a list of blocks (append, replace a suffix, leave
    alone); supply, burn and counters depend on the main chain only; a restart
    gives back chain, tip and totals and computes work and coins afresh; a
    refused block leaves tip, statistics and, for fresh blocks, coins as they
    were, with the exceptions proved in [ChainReorg] and [ChainFaults]; and over
    [add_block] calls the work of the main chain only climbs, so a tip that was
    left never comes back ([fork_choice_climbs]).  An incident is a failed
    reorganisation onto a fork that had outgrown the tip, or a restart with a
    burn total above 64 bits; the first kind breaks the node for good
    ([incident_breaks_chain]).

    Validation: an accepted transaction is characterised exactly; a valid block
    spends every key image once, its coinbase conserves money, and the two
    difficulty rules agree; over a reachable node the money of the main chain
    adds up ([main_chain_money], without incidents).  The signature cache is justified but its key
    is too coarse ([cached_signature_covers_other_inputs]) and the key image
    inside the signature is never compared, so that an output can be spent again
    ([spent_output_respendable]).

    Pool: every reachable pool satisfies the invariant; an admission is
    characterised on success and on error; the eviction loop follows its
    simulation, except that it gives up when it needs its whole budget
    ([rejected_admission_effect]); a block clears exactly what it confirms or
    contradicts; a template is the greedy choice by fee rate; an admitted
    transaction was valid in the state of the chain at the commit.

    Swaps: the machine ends within four transitions; one party sends at most a
    lock and then a claim or a refund, as long as no answer of a node is lost
    ([lost_answer_sends_both] otherwise); the state file round-trips; two honest
    parties complete the negotiation and a driver that succeeds has seen
    exactly the messages of the protocol; but a cancelled swap can no longer be
    refunded ([cancel_strands_lock]) and Bob accepts unsafe timeouts
    ([bob_accepts_unsafe_timeouts]).

    Fork choice: the fork point is the highest common ancestor and the walks always
    end; the work walked from a fork agrees with the recomputed work; the reorg
    rule is characterised exactly and is monotone; a performed reorg rewinds at
    most 143 blocks; median time past never goes backwards.  A competing block
    at a checkpoint height can never be adopted ([checkpoint_race_never_heals]).

    UTXO set: the indices stay consistent in every reachable state and
    disconnecting a block undoes connecting it, except that reused stealth
    addresses are forgotten ([reorg_forgets_reused_address]) and that evicted
    entries with an expired lock vanish ([eviction_visible_iff]).

    Rolling finality: the soft-final height only grows, finalising needs as many
    signers as two thirds of the active miners, rejected attestations change
    nothing in the tracker, and activity is never invented; but the signers need
    not be active any more ([finalized_by_a_minority]), long-lived miners are never counted
    ([veteran_miner_never_counts]) and a forged attestation still registers its
    key ([forged_attestation_mutates]).

    Hashing: block hash and ring-signature message bind every field, the Merkle
    root binds lists of equal length, up to an explicit collision; repeating
    the last transaction of an odd block is not detected by the root
    ([merkle_duplicate_tail]).

    Monetary policy: reward bounds, termination and safety of the height-based
    estimate, conservation of the fee split, monotone fee floor, parsing
    inverse to printing.  Retarget: bounds, floor, fixed point, direction, and
    the lost high bits of [checked_shl] ([late_block_can_harden]).
    Signalling: legal life cycle, persistence of lock-in, threshold.

    Phase-2 stores: under the discipline of their callers they behave as a journal
    of appends with marks, in memory always and on disk as long as no tree
    removal fails (rows left behind come back, [unremoved_rows_return]); a rewind
    restores what they showed; a restart keeps the contents and loses the marks.

    Merge mining: through branches of one length a parent commits to one child,
    up to a collision; through branches of two lengths one tag serves two
    children ([one_tag_two_children]).

    Threshold signing: an aggregated session has threshold many shares of
    invited participants, an honest group finishes, and what the server accepted
    survives its restart.

    Network: the orphan pool is a bounded queue; the memory budget holds under
    every interleaving; the collections of the block download agree and a
    wanted block stays wanted until it is settled; but a dropped peer is
    untracked twice ([dropped_peers_uncap_address]) and headers that are put back
    into the queue count for nobody ([requeued_headers_escape_quota]).  Relay: a transaction is
    passed on and broadcast once per stay in the stempool, its embargo always
    ends and as long as it waits nobody but its relay hears of it; but the relay
    may be where it came from ([stem_returns_to_origin]).

    Proof of work and mining: caches, datasets and threads never change a verdict
    of [verify_pow], which otherwise refuses with an error of the engine; the
    search reports only solutions and finds one that lies in a slice it gets to
    (all but the last nonce, if the offset is zero); the candidate of a node is valid exactly under conditions the
    template does not look at, and then extends the chain; transactions that
    share an address break it ([shared_address_poisons]).

    Wallet: a payment is found with its amount and lock and a key that opens
    it; a scan follows the chain of the node through reorganisations, as the
    reference ledger of a chain it showed, if the tip advances by one block at most
    per answer; it completes on a quiet node whose outputs can be opened, and can be
    resumed on a chain that has only grown; save and load are inverse; an input handed to the node stays
    reserved over restarts.  But blocks orphaned between two scans are never
    taken back ([scan_never_revises]) and one output with a bad key stops every
    scan ([poisoned_coinbase_stops_scan]).

    ** Fuel

    [Emission.estimate_fuel] is 20,000 iterations; the estimate is shown to
    terminate within it for every [u64] height.  [ForkChoice.walk_fuel] is one
    more than the number of stored hashes; both walks are shown never to
    exhaust it.  [Mempool.evict_loop] and [Mempool.retry_stable_admission] have
    the source's own budgets of 100 and 4.  [Block.merkle_loop] has the number of leaves as fuel, also
    shown sufficient.  [ForkChoice.work_loop] uses the source's own step bound.
    In [Sync] the release of orphans has the pool size plus one, their eviction
    the pool size and the locator the tip height: each turn removes an entry or
    goes down.  [Dandelion.Dan.enforce_loop] removes one entry per turn and has
    the pool size.  The workers of [Mining.search_nonce] get the number of
    batches they complete before the stop flag, and [Wallet.scan_loop] one step
    per answer of the node: both are inputs, and the theorems that promise a
    result say how many are enough.

    ** Not modelled

    Cryptography (BLAKE3, ed25519, ring signatures, range proofs, RandomX, HMAC)
    and Borsh are third-party and appear as arguments or classes.  Floating-point
    helpers, logging and metrics are left out, and so are the storage engine,
    sockets, message framing, peer scoring, the RPC surface, configuration,
    snapshots, the pool and stratum servers, and the operator tools.  Of the
    wallet the encryption of its file, key derivation from a seed, the choice of
    inputs and decoys and the parallel scanner are not modelled; of the swaps the
    Bitcoin scripts and the proofs of equal discrete logarithms.  The pruner is
    not called outside tests, and the bridge and tick crates wrap libraries that
    are not part of the repository.  Threads appear where the code depends on
    them: interleaved commits ([ChainFaults]), the generation counter
    ([MempoolSafety]), the memory budget ([PeersRules]), the hashing engine
    ([PowRules]) and the nonce search ([MiningSearch]).  I/O failures are modelled
    where the code handles them: the files of swaps, signing sessions and wallet,
    the removals of the phase-2 trees; those of the block database are not.  Where
    [MapOrder] is not used, hash maps are iterated in the order of [map_to_list]. *)

From stdpp Require Import prelude gmap sorting.
From Stdlib Require Import ZArith Lia.

Local Open Scope Z_scope.

(** ** Machine-width integers

    A Rust integer of width [w] is a [Z] together with the range predicate of
    its type.  The crate is built with the default release profile (no
    overflow checks), so the plain operators [+], [-], [*] and [<<] wrap: they
    are written below with an explicit [wrap64]/[wrap128].  The saturating and
    checked methods of the standard library have definitions of their own. *)

Definition u32_max : Z := 4294967295.
Definition u64_max : Z := 18446744073709551615.
Definition u128_max : Z := 340282366920938463463374607431768211455.
Definition i32_max : Z := 2147483647.
Definition i32_min : Z := -2147483648.
Definition i128_max : Z := 170141183460469231731687303715884105727.
Definition i128_min : Z := -170141183460469231731687303715884105728.

Definition is_u8 (x : Z) : Prop := 0 <= x <= 255.
Definition is_u32 (x : Z) : Prop := 0 <= x <= u32_max.
Definition is_u64 (x : Z) : Prop := 0 <= x <= u64_max.
Definition is_u128 (x : Z) : Prop := 0 <= x <= u128_max.

(** [x as uW] for a non-negative or negative mathematical integer: reduction
    modulo [2^W]. *)
Definition wrap32 (x : Z) : Z := x mod 4294967296.
Definition wrap64 (x : Z) : Z := x mod 18446744073709551616.
Definition wrap128 (x : Z) : Z :=
  x mod 340282366920938463463374607431768211456.

Definition sat_add (m a b : Z) : Z := Z.min m (a + b).
Definition sat_sub (a b : Z) : Z := Z.max 0 (a - b).
Definition sat_mul (m a b : Z) : Z := Z.min m (a * b).

Definition checked_add (m a b : Z) : option Z :=
  if a + b <=? m then Some (a + b) else None.
Definition checked_sub (a b : Z) : option Z :=
  if b <=? a then Some (a - b) else None.
Definition checked_mul (m a b : Z) : option Z :=
  if a * b <=? m then Some (a * b) else None.

(** [Ord::clamp]; the source only calls it with [lo <= hi]. *)
Definition clamp (lo hi x : Z) : Z :=
  if x <? lo then lo else if hi <? x then hi else x.

(** ** Results

    [std::result::Result]: the error type comes first so that [result E] is a
    monad, with stdpp's [x <- c; k] notation for the [?] operator. *)

Inductive result (E A : Type) : Type :=
| Ok (a : A)
| Err (e : E).
Arguments Ok {E A} a.
Arguments Err {E A} e.

#[export] Instance result_ret E : MRet (result E) := fun A a => Ok a.
#[export] Instance result_bind E : MBind (result E) := fun A B k c =>
  match c with Ok a => k a | Err e => Err e end.
#[export] Instance result_fmap E : FMap (result E) := fun A B f c =>
  match c with Ok a => Ok (f a) | Err e => Err e end.
#[export] Instance result_eq_dec E A `{EqDecision E, EqDecision A} :
  EqDecision (result E A).
Proof. solve_decision. Defined.

(** [Option::ok_or]. *)
Definition ok_or {E A} (e : E) (o : option A) : result E A :=
  match o with Some a => Ok a | None => Err e end.

Definition is_ok {E A} (r : result E A) : bool :=
  match r with Ok _ => true | Err _ => false end.

(** [if !b { return Err(e) }] *)
Definition guard_or {E} (b : bool) (e : E) : result E unit :=
  if b then Ok tt else Err e.

(** [for x in l { f(i, x)?; }], with the position. *)
Fixpoint try_each_from {E A} (f : nat -> A -> result E unit) (i : nat) (l : list A)
  : result E unit :=
  match l with
  | [] => Ok tt
  | x :: l => match f i x with Ok _ => try_each_from f (S i) l | Err e => Err e end
  end.

Definition try_each {E A} (f : nat -> A -> result E unit) (l : list A) : result E unit :=
  try_each_from f 0 l.

(** ** Automation *)

Create HintDb word.
#[export] Hint Unfold u32_max u64_max u128_max i32_max i32_min i128_max
  i128_min is_u8 is_u32 is_u64 is_u128 sat_add sat_sub sat_mul wrap32 wrap64
  wrap128 clamp : word.

(** Unfold the word operations everywhere and split every boolean comparison
    the goal or a hypothesis branches on. *)
Ltac word_unfold := autounfold with word in *.

Ltac split_if :=
  repeat match goal with
  | |- context [if ?b then _ else _] =>
      lazymatch type of b with bool => destruct b eqn:? end
  | H : context [if ?b then _ else _] |- _ =>
      lazymatch type of b with bool => destruct b eqn:? end
  end.

Ltac word_lia := word_unfold; split_if; lia.

(** Invert a computation of the result monad that is known to succeed. *)
Ltac res_inv :=
  repeat match goal with
  | H : Ok _ = Ok _ |- _ => injection H as H; try subst
  | H : Err _ = Err _ |- _ => injection H as H; try subst
  | H : Ok _ = Err _ |- _ => discriminate H
  | H : Err _ = Ok _ |- _ => discriminate H
  end.

(** ** Generic lemmas on results *)

Section results.
Context {E : Type}.

Lemma guard_or_ok (b : bool) (e : E) : guard_or b e = Ok tt <-> b = true.
Proof. by destruct b. Qed.

Lemma bind_ok {A B} (c : result E A) (k : A -> result E B) y :
  (c ≫= k) = Ok y <-> exists x, c = Ok x /\ k x = Ok y.
Proof. destruct c as [a|e]; cbn; [|naive_solver]. split; [eauto|]. by intros (?&[= ->]&?). Qed.

Lemma try_each_from_ok {A} (f : nat -> A -> result E unit) l : forall i,
  try_each_from f i l = Ok tt <->
  forall j x, l !! j = Some x -> f (i + j)%nat x = Ok tt.
Proof.
  induction l as [|x l IH]; intros i; cbn; [done|].
  destruct (f i x) as [[]|e] eqn:Ef.
  - rewrite IH. split; intros H j y Hj.
    + destruct j as [|j]; cbn in Hj; [injection Hj as <-; by rewrite Nat.add_0_r|].
      specialize (H j y Hj). by replace (i + S j)%nat with (S i + j)%nat by lia.
    + specialize (H (S j) y Hj). by replace (S i + j)%nat with (i + S j)%nat by lia.
  - split; [done|]. intros H. specialize (H O x eq_refl). rewrite Nat.add_0_r in H. congruence.
Qed.

Lemma try_each_ok {A} (f : nat -> A -> result E unit) l :
  try_each f l = Ok tt <-> forall j x, l !! j = Some x -> f j x = Ok tt.
Proof. apply try_each_from_ok. Qed.
End results.

(** ** Generic lemmas on words *)

Section words.
Implicit Types a b m x lo hi : Z.

Lemma sat_add_le m a b : sat_add m a b <= m.
Proof. word_lia. Qed.
Lemma sat_add_exact m a b : a + b <= m -> sat_add m a b = a + b.
Proof. word_lia. Qed.
Lemma sat_sub_nonneg a b : 0 <= sat_sub a b.
Proof. word_lia. Qed.
Lemma sat_sub_exact a b : b <= a -> sat_sub a b = a - b.
Proof. word_lia. Qed.
Lemma sat_mul_le m a b : sat_mul m a b <= m.
Proof. word_lia. Qed.
Lemma sat_mul_exact m a b : a * b <= m -> sat_mul m a b = a * b.
Proof. word_unfold; lia. Qed.
Lemma sat_mul_nonneg m a b : 0 <= m -> 0 <= a -> 0 <= b -> 0 <= sat_mul m a b.
Proof. word_unfold; nia. Qed.

Lemma wrap64_small x : is_u64 x -> wrap64 x = x.
Proof. intros H. apply Z.mod_small. word_lia. Qed.
Lemma wrap128_small x : is_u128 x -> wrap128 x = x.
Proof. intros H. apply Z.mod_small. word_lia. Qed.
Lemma wrap64_range x : is_u64 (wrap64 x).
Proof.
  unfold wrap64. pose proof (Z.mod_pos_bound x 18446744073709551616).
  word_lia.
Qed.
Lemma wrap128_range x : is_u128 (wrap128 x).
Proof.
  unfold wrap128.
  pose proof (Z.mod_pos_bound x 340282366920938463463374607431768211456).
  word_lia.
Qed.

Lemma clamp_bounds lo hi x : lo <= hi -> lo <= clamp lo hi x <= hi.
Proof. word_lia. Qed.
Lemma clamp_id lo hi x : lo <= x <= hi -> clamp lo hi x = x.
Proof. word_lia. Qed.
Lemma clamp_mono lo hi x y : lo <= hi -> x <= y -> clamp lo hi x <= clamp lo hi y.
Proof. word_lia. Qed.
End words.

#[export] Hint Resolve sat_add_le sat_sub_nonneg sat_mul_le wrap64_range
  wrap128_range : word.

(** ** Byte strings

    A byte is a [Z] in [0..256); [le_bytes n z] is [to_le_bytes] of an
    [8n]-bit integer and [le_val] is [from_le_bytes]; the big-endian versions
    are their reversals. *)

Fixpoint le_bytes (n : nat) (z : Z) : list Z :=
  match n with
  | O => []
  | S n => z mod 256 :: le_bytes n (z / 256)
  end.

Fixpoint le_val (bs : list Z) : Z :=
  match bs with
  | [] => 0
  | b :: bs => b + 256 * le_val bs
  end.

Definition be_bytes (n : nat) (z : Z) : list Z := reverse (le_bytes n z).
Definition be_val (bs : list Z) : Z := le_val (reverse bs).

Section bytes.
Lemma le_bytes_length n z : length (le_bytes n z) = n.
Proof. revert z. induction n; intros; simpl; auto. Qed.

Lemma be_bytes_length n z : length (be_bytes n z) = n.
Proof. unfold be_bytes. by rewrite length_reverse, le_bytes_length. Qed.

Lemma le_bytes_are_bytes n z : Forall is_u8 (le_bytes n z).
Proof.
  revert z. induction n as [|n IH]; intros z; simpl; constructor; auto.
  pose proof (Z.mod_pos_bound z 256). word_lia.
Qed.

Lemma le_val_le_bytes n z :
  0 <= z < 256 ^ Z.of_nat n -> le_val (le_bytes n z) = z.
Proof.
  revert z. induction n as [|n IH]; intros z Hz; simpl.
  - simpl in Hz. lia.
  - rewrite IH.
    + pose proof (Z.div_mod z 256). lia.
    + split; [apply Z.div_pos; lia|].
      apply Z.div_lt_upper_bound; [lia|].
      rewrite Nat2Z.inj_succ, Z.pow_succ_r in Hz; lia.
Qed.

Lemma le_val_bound bs :
  Forall is_u8 bs -> 0 <= le_val bs < 256 ^ Z.of_nat (length bs).
Proof.
  induction 1 as [|b bs Hb _ IH]; cbn [le_val length]; [lia|].
  rewrite Nat2Z.inj_succ, Z.pow_succ_r by lia. word_lia.
Qed.

Lemma le_bytes_le_val bs :
  Forall is_u8 bs -> le_bytes (length bs) (le_val bs) = bs.
Proof.
  induction 1 as [|b bs Hb _ IH]; cbn [le_val le_bytes length]; [done|].
  word_unfold. f_equal.
  - rewrite Z.mul_comm, Z.mod_add, Z.mod_small; lia.
  - rewrite Z.mul_comm, Z.div_add, Z.div_small, Z.add_0_l by lia. done.
Qed.

Lemma be_val_be_bytes n z :
  0 <= z < 256 ^ Z.of_nat n -> be_val (be_bytes n z) = z.
Proof.
  intros H. unfold be_val, be_bytes.
  by rewrite reverse_involutive, le_val_le_bytes.
Qed.

Lemma be_val_bound bs :
  Forall is_u8 bs -> 0 <= be_val bs < 256 ^ Z.of_nat (length bs).
Proof.
  intros H. unfold be_val.
  rewrite <- (length_reverse bs). apply le_val_bound.
  by apply Forall_reverse.
Qed.

Lemma be_bytes_be_val bs :
  Forall is_u8 bs -> be_bytes (length bs) (be_val bs) = bs.
Proof.
  intros H. unfold be_bytes, be_val.
  rewrite <- (length_reverse bs), le_bytes_le_val by by apply Forall_reverse.
  apply reverse_involutive.
Qed.
End bytes.

(** ** Maps in key order

    The rows of a tree or of a [BTreeMap] by increasing key. *)

Definition row_le {V} (a b : Z * V) : Prop := a.1 <= b.1.
#[export] Instance row_le_dec {V} (a b : Z * V) : Decision (row_le a b) := Z_le_dec a.1 b.1.
#[export] Instance row_le_trans {V} : Transitive (@row_le V).
Proof. intros a b c. unfold row_le. lia. Qed.
#[export] Instance row_le_total {V} : Total (@row_le V).
Proof. intros a b. unfold row_le. lia. Qed.

Definition tree_rows {V} (d : gmap Z V) : list (Z * V) := merge_sort row_le (map_to_list d).

(** [BTreeMap::pop_first]. *)
Definition pop_first {V} (d : gmap Z V) : option ((Z * V) * gmap Z V) :=
  match tree_rows d with [] => None | e :: _ => Some (e, delete e.1 d) end.

Section rows.
Context {V : Type}.
Implicit Types l : list (Z * V).

Lemma sorted_rows_le l : StronglySorted Z.lt l.*1 -> StronglySorted row_le l.
Proof.
  induction l as [|e l IH]; cbn; [constructor|]. intros Hs.
  apply StronglySorted_inv in Hs as [Hs He]. constructor; [by apply IH|].
  rewrite Forall_fmap in He. eapply Forall_impl; [exact He|]. unfold row_le. cbn. lia.
Qed.

Lemma sorted_keys_NoDup l : StronglySorted Z.lt l.*1 -> NoDup l.*1.
Proof.
  generalize l.*1. intros ks Hs. induction Hs as [|k ks _ IH Hk]; constructor; [|done].
  intros Hin. eapply Forall_forall in Hk; [|done]. lia.
Qed.

(** A map built from rows with increasing keys gives the rows back. *)
Lemma tree_rows_of l : StronglySorted Z.lt l.*1 -> tree_rows (list_to_map l) = l.
Proof.
  intros Hs. pose proof (sorted_keys_NoDup l Hs) as Hd.
  pose proof (map_to_list_to_map (M := gmap Z) l Hd) as Hp. unfold tree_rows.
  apply (StronglySorted_unique_strong row_le).
  - intros [i v] [j w] H1 H2 L1 L2. unfold row_le in *; cbn in *.
    assert (i = j) as -> by lia. rewrite merge_sort_Permutation, Hp in H1.
    apply (elem_of_list_to_map (M := gmap Z)) in H1, H2; [congruence|done|done].
  - apply (StronglySorted_merge_sort row_le).
  - by apply sorted_rows_le.
  - rewrite merge_sort_Permutation. exact Hp.
Qed.

Lemma pop_first_of e l :
  StronglySorted Z.lt (e :: l).*1 ->
  pop_first (list_to_map (e :: l)) = Some (e, list_to_map l).
Proof.
  intros Hs. unfold pop_first. rewrite tree_rows_of by done. do 2 f_equal.
  pose proof (sorted_keys_NoDup _ Hs) as [He _]%NoDup_cons.
  cbn. apply delete_insert_id. by apply not_elem_of_list_to_map_1.
Qed.
End rows.

(** ** Filters and maxima *)

Lemma filter_all {A} (P : A -> Prop) `{!forall x, Decision (P x)} (l : list A) :
  (forall x, x ∈ l -> P x) -> filter P l = l.
Proof.
  induction l as [|x l IH]; intros Hl; [done|]. rewrite filter_cons_True by (apply Hl; by left).
  f_equal. apply IH. intros y Hy. apply Hl. by right.
Qed.

Lemma filter_none {A} (P : A -> Prop) `{!forall x, Decision (P x)} (l : list A) :
  (forall x, x ∈ l -> ~ P x) -> filter P l = [].
Proof.
  induction l as [|x l IH]; [done|]. intros Hl. rewrite filter_cons_False by (apply Hl; by left).
  apply IH. intros y Hy. apply Hl. by right.
Qed.

Lemma sorted_filter {A} (R : A -> A -> Prop) (P : A -> Prop) `{!forall x, Decision (P x)} (l : list A) :
  StronglySorted R l -> StronglySorted R (filter P l).
Proof.
  intros Hs. induction Hs as [|x l Hs IH Hx]; [constructor|]. rewrite filter_cons.
  destruct (decide (P x)); [|done]. constructor; [done|].
  rewrite Forall_forall in Hx |- *. intros y [_ Hy]%list_elem_of_filter. by apply Hx.
Qed.

Lemma sublist_concat {A B} (f : A -> list B) l l' :
  sublist l' l -> sublist (concat (f <$> l')) (concat (f <$> l)).
Proof.
  induction 1 as [|x l' l _ IH|x l' l _ IH]; cbn; [done|by apply sublist_app|].
  by apply sublist_inserts_l.
Qed.

(** [Iterator::max_by]: the last of the maximal elements. *)
Definition max_by {A} (cmp : A -> A -> comparison) (l : list A) : option A :=
  match l with
  | [] => None
  | x :: l => Some (foldl (fun x y => match cmp x y with Gt => x | _ => y end) x l)
  end.

Lemma max_by_spec {A} (cmp : A -> A -> comparison) (l : list A) x :
  (forall y z w, cmp y z <> Gt -> cmp z w <> Gt -> cmp y w <> Gt) ->
  (forall y z, cmp y z = Gt -> cmp z y <> Gt) ->
  max_by cmp l = Some x -> x ∈ l /\ forall y, y ∈ l -> cmp y x <> Gt.
Proof.
  intros Ht Ha. destruct l as [|y l]; [done|]. cbn. intros [= <-].
  assert (forall z, cmp z z <> Gt) as Hr.
  { intros z Hz. by apply (Ha z z Hz). }
  revert y. induction l as [|z l IH]; intros y; cbn.
  - split; [by left|]. intros w ->%list_elem_of_singleton. apply Hr.
  - destruct (IH (match cmp y z with Gt => y | _ => z end)) as [Hin Hmax]. split.
    + set_unfold. destruct (cmp y z); naive_solver.
    + assert (cmp y (match cmp y z with Gt => y | _ => z end) <> Gt /\
              cmp z (match cmp y z with Gt => y | _ => z end) <> Gt) as [H1 H2].
      { destruct (cmp y z) eqn:E; split; try apply Hr; try congruence.
        by apply Ha. }
      intros w Hw. set_unfold. destruct Hw as [->|[->|Hw]].
      * eapply Ht; [exact H1|]. apply Hmax. by left.
      * eapply Ht; [exact H2|]. apply Hmax. by left.
      * apply Hmax. by right.
Qed.

Lemma max_by_some {A} (cmp : A -> A -> comparison) (l : list A) : l <> [] -> is_Some (max_by cmp l).
Proof. by destruct l. Qed.

(** ** Addresses

    [std::net::IpAddr]: four octets or eight 16-bit segments. *)

Inductive IpAddr := V4 (octets : list Z) | V6 (segments : list Z).
#[export] Instance IpAddr_eq_dec : EqDecision IpAddr.
Proof. solve_decision. Defined.
#[export] Program Instance IpAddr_countable : Countable IpAddr :=
  inj_countable' (fun ip => match ip with V4 l => inl l | V6 l => inr l end)
    (fun x => match x with inl l => V4 l | inr l => V6 l end) _.
Next Obligation. by intros []. Qed.

Record SocketAddr := mkSocketAddr { sa_ip : IpAddr; sa_port : Z }.
#[export] Instance SocketAddr_eq_dec : EqDecision SocketAddr.
Proof. solve_decision. Defined.
