(* ===== verification/Constants.v ===== *)
(** * Protocol constants ([src/constants.rs])

    The constants the modelled components read, with the value of the source,
    and the pure functions of that file (maturity age, ring size, burn rates,
    checkpoint lookup).  Values chosen by [#[cfg(feature = "testnet")]] are
    functions of the build's feature flag. *)

From stdpp Require Import prelude strings.
From S2P Require Import Prelude.

Local Open Scope Z_scope.

Definition TARGET_BLOCK_TIME : Z := 120.
Definition MAX_BLOCK_SIZE : Z := 2 * 1024 * 1024.

(** Difficulty *)
Definition ASERT_HALFLIFE : Z := 3600.
Definition DIFFICULTY_SHORT_WINDOW : Z := 8.
Definition DIFFICULTY_LONG_WINDOW : Z := 144.
Definition DIFFICULTY_SHORT_WEIGHT : Z := 70.
Definition DIFFICULTY_LONG_WEIGHT : Z := 30.
Definition DIFFICULTY_WEIGHT_SCALE : Z := 100.
Definition EMERGENCY_DIFFICULTY_BLOCKS : Z := 12.
Definition EMERGENCY_TIME_MULTIPLIER : Z := 10.
Definition EMERGENCY_DROP_FACTOR : Z := 4.
Definition MAX_DIFFICULTY_ADJ_NUM : Z := 2.
Definition MAX_DIFFICULTY_ADJ_DEN : Z := 1.
Definition MIN_DIFFICULTY_ADJ_NUM : Z := 1.
Definition MIN_DIFFICULTY_ADJ_DEN : Z := 2.

(** Soft-fork signalling *)
Definition SIGNAL_WINDOW : Z := 2016.
Definition SIGNAL_THRESHOLD : Z := 1814.

(** Units and supply *)
Definition COIN : Z := 1000000000000.
Definition ATOMIC_UNITS : Z := 1000000000000.
Definition MILLICYNC : Z := 1000000000.
Definition MICROCYNC : Z := 1000000.
Definition NANOCYNC : Z := 1000.
Definition BLOCKS_PER_YEAR : Z := 365 * 24 * 60 * 60 / TARGET_BLOCK_TIME.
Definition TAIL_EMISSION : Z := 600000000000.
Definition TOTAL_SUPPLY_TARGET : Z := 100000000.
Definition EMISSION_DIVISOR : Z := 2000000.

(** Fees *)
Definition MIN_FEE_PER_BYTE : Z := 1000.
Definition FEE_MINER_NORMAL_PERCENT : Z := 70.
Definition FEE_BURN_NORMAL_PERCENT : Z := 30.
Definition FEE_MINER_CONGESTED_PERCENT : Z := 50.
Definition FEE_BURN_CONGESTED_PERCENT : Z := 50.
Definition CONGESTION_THRESHOLD : Z := 80.

Definition FEE_DISTRIBUTION_HEIGHT (testnet : bool) : Z :=
  if testnet then 525 else 0.

(** Output maturity *)
Definition MIN_OUTPUT_AGE : Z := 10.
Definition MIN_OUTPUT_AGE_POST_FORK : Z := 100.
Definition MIN_OUTPUT_AGE_HARDFORK_HEIGHT (testnet : bool) : Z :=
  if testnet then u64_max else 0.

Definition min_output_age_at_height (testnet : bool) (height : Z) : Z :=
  if height <? MIN_OUTPUT_AGE_HARDFORK_HEIGHT testnet then MIN_OUTPUT_AGE
  else MIN_OUTPUT_AGE_POST_FORK.

(** Ring sizes *)
Definition BOOTSTRAP_MIN_RING_SIZE : Z := 11.
Definition DEFAULT_RING_SIZE : Z := 16.

Definition ring_size_at_height (height : Z) : Z :=
  if height <? 10000 then BOOTSTRAP_MIN_RING_SIZE else DEFAULT_RING_SIZE.

Definition effective_ring_size (height available_outputs : Z) : Z :=
  let target := ring_size_at_height height in
  if target <=? available_outputs then target
  else if 10000 <=? height then target
  else Z.min (Z.max available_outputs 2) target.

(** Blocks and transactions *)
Definition MAX_TXS_PER_BLOCK : Z := 5000.
Definition MIN_TX_SIZE : Z := 100.
Definition MAX_TX_SIZE : Z := 500000.
Definition MAX_TX_INPUTS : Z := 256.
Definition MAX_TX_OUTPUTS : Z := 16.
Definition MIN_OUTPUT_AMOUNT : Z := 1000000.
Definition MAX_OUTPUT_MEMO_SIZE : Z := 256.
Definition MAX_TIMESTAMP_DRIFT : Z := 600.

Definition MAINNET_MAGIC : list Z := [0x43; 0x59; 0x4E; 0x43].
Definition TESTNET_MAGIC : list Z := [0x74; 0x43; 0x59; 0x4E].
Definition REGTEST_MAGIC : list Z := [0x72; 0x43; 0x59; 0x4E].

(** Activation heights *)
Definition V2_TX_ACTIVATION_HEIGHT : Z := 50000.
Definition HARD_FORK_V1_0_12_HEIGHT : Z := 13000.
Definition BULLETPROOFS_PLUS_HEIGHT : Z := 0.
Definition UNIFORM_TX_SHAPE_HEIGHT : Z := BULLETPROOFS_PLUS_HEIGHT.
Definition STRICT_RING_MEMBER_HEIGHT : Z := 100.
Definition STANDARD_INPUT_COUNT : Z := 2.
Definition STANDARD_OUTPUT_COUNT : Z := 2.

Definition block_version_at_height (height : Z) : Z :=
  if V2_TX_ACTIVATION_HEIGHT <=? height then 2 else 1.

(** The table is empty in both builds. *)
Definition CONSENSUS_CHECKPOINTS : list (Z * list Z) := [].

(** A lookup in a table sorted by height. *)
Definition expected_checkpoint_hash (height : Z) : option (list Z) :=
  snd <$> head (filter (fun cp => cp.1 = height) CONSENSUS_CHECKPOINTS).

(** Burn-rate tables *)
Definition PHASE_BURN_RATES : list (Z * Z) :=
  [ (BLOCKS_PER_YEAR, 0); (BLOCKS_PER_YEAR * 2, 500);
    (BLOCKS_PER_YEAR * 5, 1000); (u64_max, 2000) ].

Fixpoint burn_rate_scan (rates : list (Z * Z)) (height : Z) : option Z :=
  match rates with
  | [] => None
  | (end_height, rate) :: rates =>
      if height <? end_height then Some rate else burn_rate_scan rates height
  end.

Definition burn_rate_at_height (height : Z) : Z :=
  match burn_rate_scan PHASE_BURN_RATES height with
  | Some r => r
  | None => default 0 (snd <$> last PHASE_BURN_RATES)
  end.

Definition supply_cap_burn_rate (current_supply : Z) : Z :=
  let cap := TOTAL_SUPPLY_TARGET in
  if current_supply <? cap * 40 / 100 then 0
  else if current_supply <? cap * 60 / 100 then 200
  else if current_supply <? cap * 80 / 100 then 500
  else if current_supply <? cap * 95 / 100 then 1000
  else 2000.

(** Rolling finality activation *)
Definition ROLLING_FINALITY_ENABLE_HEIGHT (testnet : bool) : Z :=
  if testnet then 50000 else 25000.
Definition ROLLING_FINALITY_ENFORCE_HEIGHT (testnet : bool) : Z :=
  if testnet then 75000 else 50000.

Create HintDb consts.
#[export] Hint Unfold TARGET_BLOCK_TIME MAX_BLOCK_SIZE ASERT_HALFLIFE
  DIFFICULTY_SHORT_WINDOW DIFFICULTY_LONG_WINDOW DIFFICULTY_SHORT_WEIGHT
  DIFFICULTY_LONG_WEIGHT DIFFICULTY_WEIGHT_SCALE EMERGENCY_DIFFICULTY_BLOCKS
  EMERGENCY_TIME_MULTIPLIER EMERGENCY_DROP_FACTOR MAX_DIFFICULTY_ADJ_NUM
  MAX_DIFFICULTY_ADJ_DEN MIN_DIFFICULTY_ADJ_NUM MIN_DIFFICULTY_ADJ_DEN
  SIGNAL_WINDOW SIGNAL_THRESHOLD COIN ATOMIC_UNITS MILLICYNC MICROCYNC
  NANOCYNC TAIL_EMISSION TOTAL_SUPPLY_TARGET EMISSION_DIVISOR
  MIN_FEE_PER_BYTE FEE_MINER_NORMAL_PERCENT FEE_BURN_NORMAL_PERCENT
  FEE_MINER_CONGESTED_PERCENT FEE_BURN_CONGESTED_PERCENT CONGESTION_THRESHOLD
  MIN_OUTPUT_AGE MIN_OUTPUT_AGE_POST_FORK BOOTSTRAP_MIN_RING_SIZE
  DEFAULT_RING_SIZE MAX_TXS_PER_BLOCK MIN_TX_SIZE MAX_TX_SIZE MAX_TX_INPUTS
  MAX_TX_OUTPUTS MIN_OUTPUT_AMOUNT MAX_OUTPUT_MEMO_SIZE MAX_TIMESTAMP_DRIFT
  STRICT_RING_MEMBER_HEIGHT STANDARD_INPUT_COUNT STANDARD_OUTPUT_COUNT : consts.

Ltac const_lia := autounfold with consts in *; word_lia.

(** Every ring the chain asks for hides the real spend among at least one
    decoy and never exceeds the full ring size; from height 10,000 on it is
    exactly 16, whatever the number of available outputs. *)
Lemma effective_ring_size_bounds height available :
  2 <= effective_ring_size height available <= DEFAULT_RING_SIZE.
Proof.
  unfold effective_ring_size, ring_size_at_height. const_lia.
Qed.

Lemma effective_ring_size_mature height available :
  10000 <= height -> effective_ring_size height available = DEFAULT_RING_SIZE.
Proof.
  intros H. unfold effective_ring_size, ring_size_at_height. const_lia.
Qed.
