(* ===== verification/Encoding.v ===== *)
(** * Self-delimiting byte encodings

    The hash preimages and wire formats of the program are built by appending
    fields to a byte vector: fixed-length arrays, little-endian integers,
    length-prefixed vectors and tagged options.  An encoder is self-delimiting
    when a concatenation starting with an encoded value determines both the
    value and the rest; the class [SelfDelim] states it and its instances
    compose, so that injectivity of a whole preimage is proved field by field
    with the tactic [peel]. *)

From stdpp Require Import prelude.
From Stdlib Require Import ZArith Lia.
From S2P Require Import Prelude.

Local Open Scope Z_scope.

(** [P] is the domain: the values the Rust type admits. *)
Class SelfDelim {A} (P : A -> Prop) (enc : A -> list Z) : Prop :=
  self_delim : forall a b x y,
    P a -> P b -> enc a ++ x = enc b ++ y -> a = b /\ x = y.

(** A fixed-size array [[u8; n]]. *)
Definition enc_fixed (bs : list Z) : list Z := bs.

(** A single byte pushed on the vector. *)
Definition enc_u8 (b : Z) : list Z := [b].

(** [to_le_bytes] of an [8n]-bit integer. *)
Definition enc_le (n : nat) (z : Z) : list Z := le_bytes n z.

(** [(v.len() as u32).to_le_bytes()] followed by the elements. *)
Definition enc_vec {A} (enc : A -> list Z) (l : list A) : list Z :=
  le_bytes 4 (Z.of_nat (length l)) ++ concat (enc <$> l).

(** A byte vector with its length prefix. *)
Definition enc_bytes (bs : list Z) : list Z :=
  le_bytes 4 (Z.of_nat (length bs)) ++ bs.

(** [1] followed by the value, or [0]. *)
Definition enc_option {A} (enc : A -> list Z) (o : option A) : list Z :=
  match o with Some a => 1 :: enc a | None => [0] end.

Arguments enc_fixed : simpl never.
Arguments enc_u8 : simpl never.
Arguments enc_le : simpl never.
Arguments enc_vec : simpl never.
Arguments enc_bytes : simpl never.
Arguments enc_option : simpl never.

Definition fits_u32 {A} (l : list A) : Prop := Z.of_nat (length l) <= u32_max.

Section instances.
Context {A : Type} (P : A -> Prop) (enc : A -> list Z) `{HA : !SelfDelim P enc}.

Lemma fixed_self_delim n : SelfDelim (fun bs => length bs = n) enc_fixed.
Proof. intros a b x y Ha Hb H. apply app_inj_1 in H; [done|]. unfold enc_fixed. congruence. Qed.

Lemma u8_self_delim : SelfDelim (fun _ => True) enc_u8.
Proof. intros a b x y _ _ H. by injection H. Qed.

Lemma le_self_delim n :
  SelfDelim (fun z => 0 <= z < 256 ^ Z.of_nat n) (enc_le n).
Proof.
  intros a b x y Ha Hb H. unfold enc_le in H.
  apply app_inj_1 in H as [H ->]; [|by rewrite !le_bytes_length].
  apply (f_equal le_val) in H. by rewrite !le_val_le_bytes in H.
Qed.

Lemma u64_self_delim : SelfDelim is_u64 (enc_le 8).
Proof.
  intros a b x y Ha Hb. apply (le_self_delim 8); word_unfold; cbn; lia.
Qed.

Lemma concat_self_delim l1 l2 x y :
  Forall P l1 -> Forall P l2 -> length l1 = length l2 ->
  concat (enc <$> l1) ++ x = concat (enc <$> l2) ++ y -> l1 = l2 /\ x = y.
Proof.
  intros H1; revert l2. induction H1 as [|a l1 Ha _ IH]; intros [|b l2] H2 Hl H;
    try discriminate Hl; [done|].
  apply Forall_cons in H2 as [Hb H2]. injection Hl as Hl. cbn in H.
  rewrite <- !app_assoc in H.
  apply (self_delim _ _ _ _ Ha Hb) in H as [-> H].
  by apply IH in H as [-> ->].
Qed.

Lemma length_prefix_inj (n m : nat) x y :
  Z.of_nat n <= u32_max -> Z.of_nat m <= u32_max ->
  le_bytes 4 (Z.of_nat n) ++ x = le_bytes 4 (Z.of_nat m) ++ y -> n = m /\ x = y.
Proof.
  intros Hn Hm H.
  apply (le_self_delim 4) in H as [H ->]; [|word_unfold; cbn; lia..].
  split; [lia|done].
Qed.

Lemma vec_self_delim :
  SelfDelim (fun l => fits_u32 l /\ Forall P l) (enc_vec enc).
Proof.
  intros a b x y [Ha Pa] [Hb Pb] H. unfold enc_vec in H.
  rewrite <- !app_assoc in H. apply length_prefix_inj in H as [Hl H]; [|done..].
  by apply concat_self_delim in H.
Qed.

Lemma bytes_self_delim : SelfDelim fits_u32 enc_bytes.
Proof.
  intros a b x y Ha Hb H. unfold enc_bytes in H. rewrite <- !app_assoc in H.
  apply length_prefix_inj in H as [Hl H]; [|done..].
  by apply app_inj_1 in H.
Qed.

Lemma option_self_delim :
  SelfDelim (fun o => match o with Some a => P a | None => True end)
    (enc_option enc).
Proof.
  intros [a|] [b|] x y Ha Hb H; unfold enc_option in H; cbn in H; try discriminate H.
  - injection H as H. by apply (self_delim _ _ _ _ Ha Hb) in H as [-> ->].
  - by injection H.
Qed.
End instances.

Lemma self_delim_inj {A} (P : A -> Prop) enc `{!SelfDelim P enc} a b :
  P a -> P b -> enc a = enc b -> a = b.
Proof.
  intros Ha Hb H. apply (self_delim a b [] []); [done..|].
  by rewrite !app_nil_r.
Qed.

#[export] Existing Instances fixed_self_delim u8_self_delim le_self_delim
  u64_self_delim vec_self_delim bytes_self_delim option_self_delim.

(** Peel the first field off an equation between two concatenations; the
    domain side conditions are left to [eauto]. *)
Ltac peel H E :=
  rewrite <- ?app_assoc in H;
  lazymatch type of H with
  | ?enc ?a ++ ?x = ?enc ?b ++ ?y =>
      let K := fresh in
      assert (a = b /\ x = y) as K by
        (refine (self_delim (enc := enc) a b x y _ _ H); eauto);
      clear H; destruct K as [E H]
  end.
