(* ===== verification/Amounts.v ===== *)
(** * Amounts ([src/primitives/amount.rs])

    [Amount(u64)] is a [Z] in the range of [u64]: checked, saturating and
    percentage arithmetic, and the exact decimal printer and parser.  Strings
    are byte lists; inputs are ASCII (the Unicode part of [str::trim] is not
    modelled).  The [f64] conversions of the file are not modelled. *)

From stdpp Require Import prelude strings.
From Stdlib Require Import ZArith Lia Ascii.
From S2P Require Import Prelude Constants.

Local Open Scope Z_scope.

(** The part of [crate::error::Error] this file raises. *)
Inductive amount_error :=
| AmountOverflow
| AmountUnderflow
| InvalidAddress (msg : list Z).

#[export] Instance amount_error_eq_dec : EqDecision amount_error.
Proof. solve_decision. Defined.

Inductive Denomination := Cync | MilliCync | MicroCync | NanoCync | Sync.

#[export] Instance Denomination_eq_dec : EqDecision Denomination.
Proof. solve_decision. Defined.

Definition bytes_of_string (s : string) : list Z :=
  map (fun a => Z.of_nat (nat_of_ascii a)) (String.list_ascii_of_string s).

Module Denom.
Definition multiplier (d : Denomination) : Z :=
  match d with
  | Cync => ATOMIC_UNITS
  | MilliCync => MILLICYNC
  | MicroCync => MICROCYNC
  | NanoCync => NANOCYNC
  | Sync => 1
  end.

Definition symbol (d : Denomination) : list Z :=
  bytes_of_string
    match d with
    | Cync => "CYNC"
    | MilliCync => "mCYNC"
    | MicroCync => "μCYNC"
    | NanoCync => "nCYNC"
    | Sync => "sync"
    end.

Definition decimals (d : Denomination) : Z :=
  match d with
  | Cync => 12
  | MilliCync => 9
  | MicroCync => 6
  | NanoCync => 3
  | Sync => 0
  end.
End Denom.

(** ** Decimal text of the standard library *)

Module Decimal.
Definition ch_zero : Z := 48.
Definition is_digit (c : Z) : bool := (48 <=? c) && (c <=? 57).

(** The last [w] decimal digits of [n], most significant first:
    [format!("{:0w$}", n)] when [n < 10^w]. *)
Fixpoint pad_rev (w : nat) (n : Z) : list Z :=
  match w with
  | O => []
  | S w => 48 + n mod 10 :: pad_rev w (n / 10)
  end.
Definition pad (w : nat) (n : Z) : list Z := reverse (pad_rev w n).

Fixpoint strip_zeros (s : list Z) : list Z :=
  match s with
  | c :: s' => if c =? 48 then strip_zeros s' else s
  | [] => []
  end.

(** [u64::to_string] (at most 20 digits). *)
Definition to_string (n : Z) : list Z :=
  match strip_zeros (pad 20 n) with [] => [48] | s => s end.

(** [str::trim_end_matches('0')]. *)
Definition trim_end_zeros (s : list Z) : list Z :=
  reverse (strip_zeros (reverse s)).

Definition dec_val (s : list Z) : Z :=
  fold_left (fun acc c => acc * 10 + (c - 48)) s 0.

(** [str::parse::<u128>]: an optional plus sign, at least one digit, only
    digits, and a value that fits. *)
Definition parse_u128 (s : list Z) : option Z :=
  let s := match s with 43 :: s' => s' | _ => s end in
  match s with
  | [] => None
  | _ => if forallb is_digit s then
           if dec_val s <=? u128_max then Some (dec_val s) else None
         else None
  end.

(** ASCII white space, as [char::is_whitespace] has it. *)
Definition is_space (c : Z) : bool := (c =? 32) || ((9 <=? c) && (c <=? 13)).
Fixpoint trim_start (s : list Z) : list Z :=
  match s with
  | c :: s' => if is_space c then trim_start s' else s
  | [] => []
  end.
Definition trim (s : list Z) : list Z :=
  reverse (trim_start (reverse (trim_start s))).

(** [s.find('.')] and the two slices around it. *)
Fixpoint split_dot (s : list Z) : list Z * option (list Z) :=
  match s with
  | [] => ([], None)
  | c :: s' =>
      if c =? 46 then ([], Some s')
      else let '(a, b) := split_dot s' in (c :: a, b)
  end.
End Decimal.
Import Decimal.

(** ** Operations of [impl Amount] *)

Module Amount.
Definition ZERO : Z := 0.
Definition MAX : Z := u64_max.
Definition ONE_CYNC : Z := ATOMIC_UNITS.

Definition from_cync (cync : Z) : result amount_error Z :=
  ok_or AmountOverflow (checked_mul u64_max cync ATOMIC_UNITS).

Definition as_cync (a : Z) : Z := a / ATOMIC_UNITS.
Definition is_zero (a : Z) : bool := a =? 0.

Definition checked_add (a b : Z) : result amount_error Z :=
  ok_or AmountOverflow (Prelude.checked_add u64_max a b).
Definition checked_sub (a b : Z) : result amount_error Z :=
  ok_or AmountUnderflow (Prelude.checked_sub a b).
Definition checked_mul (a f : Z) : result amount_error Z :=
  ok_or AmountOverflow (Prelude.checked_mul u64_max a f).
Definition checked_div (a d : Z) : result amount_error Z :=
  if d =? 0 then Err AmountOverflow else Ok (a / d).

Definition saturating_add (a b : Z) : Z := sat_add u64_max a b.
Definition saturating_sub (a b : Z) : Z := sat_sub a b.

(** Basis points, rounding half up; the product and the sum are [u128]. *)
Definition percentage (a basis_points : Z) : Z :=
  let numerator := wrap128 (a * basis_points) in
  let rounded := wrap128 (numerator + 5000) / 10000 in
  wrap64 (Z.min rounded u64_max).

Definition percentage_truncate (a basis_points : Z) : Z :=
  let result := wrap128 (a * basis_points) / 10000 in
  wrap64 (Z.min result u64_max).

Definition format (a : Z) (decimals : nat) : list Z :=
  let whole := a / ATOMIC_UNITS in
  let frac := a mod ATOMIC_UNITS in
  match decimals with
  | O => to_string whole
  | _ =>
      let frac_str := pad 12 frac in
      let trimmed := trim_end_zeros (take (Nat.min decimals 12) frac_str) in
      match trimmed with
      | [] => to_string whole
      | _ => to_string whole ++ [46] ++ trimmed
      end
  end.

Definition format_in (a : Z) (d : Denomination) : list Z :=
  let multiplier := Denom.multiplier d in
  let whole := a / multiplier in
  let frac := a mod multiplier in
  let decimals := Denom.decimals d in
  if (decimals =? 0) || (frac =? 0) then
    to_string whole ++ [32] ++ Denom.symbol d
  else
    let frac_str := pad (Z.to_nat decimals) frac in
    let trimmed := trim_end_zeros frac_str in
    to_string whole ++ [46] ++ trimmed ++ [32] ++ Denom.symbol d.

Definition format_auto (a : Z) : list Z :=
  if ATOMIC_UNITS <=? a then format_in a Cync
  else if MILLICYNC <=? a then format_in a MilliCync
  else if MICROCYNC <=? a then format_in a MicroCync
  else if NANOCYNC <=? a then format_in a NanoCync
  else format_in a Sync.

(** [impl FromStr for Amount]. *)
Definition invalid_amount (s : list Z) : amount_error :=
  InvalidAddress (bytes_of_string "invalid amount: " ++ s).

Definition parse_frac (s frac_str : list Z) : result amount_error Z :=
  match frac_str with
  | [] => Ok 0
  | _ =>
      if negb (forallb is_digit frac_str) then Err (invalid_amount s)
      else
        let kept := take (Nat.min (length frac_str) 12) frac_str in
        let padded := kept ++ replicate (12 - length kept) 48 in
        ok_or (invalid_amount s) (parse_u128 padded)
  end.

Definition from_str (s : list Z) : result amount_error Z :=
  let s := trim s in
  match s with
  | [] => Err (InvalidAddress (bytes_of_string "empty amount"))
  | c :: _ =>
      if c =? 45 then Err AmountUnderflow
      else
        let '(int_str, frac_opt) := split_dot s in
        int_part ← ok_or (invalid_amount s) (parse_u128 int_str);
        let max_int := u64_max / ATOMIC_UNITS in
        if max_int <? int_part then Err AmountOverflow
        else
          let int_syncs := wrap128 (int_part * ATOMIC_UNITS) in
          frac_syncs ← match frac_opt with
                       | Some frac_str => parse_frac s frac_str
                       | None => Ok 0
                       end;
          total ← ok_or AmountOverflow
                    (Prelude.checked_add u128_max int_syncs frac_syncs);
          if u64_max <? total then Err AmountOverflow else Ok (wrap64 total)
  end.

(** The operators [+ - * /] and [Sum] have saturating semantics. *)
Definition add (a b : Z) : Z := saturating_add a b.
Definition sub (a b : Z) : Z := saturating_sub a b.
Definition mul (a f : Z) : Z := sat_mul u64_max a f.
Definition div (a d : Z) : Z := if d =? 0 then ZERO else a / d.
Definition sum (l : list Z) : Z := fold_left saturating_add l ZERO.
End Amount.

(** ** Lemmas on decimal text *)

Section decimal.
Lemma dec_val_snoc a c : dec_val (a ++ [c]) = dec_val a * 10 + (c - 48).
Proof. unfold dec_val. by rewrite fold_left_app. Qed.

Lemma dec_val_app a b :
  dec_val (a ++ b) = dec_val a * 10 ^ Z.of_nat (length b) + dec_val b.
Proof.
  induction b as [|c b IH] using rev_ind.
  - rewrite app_nil_r. cbn. lia.
  - rewrite app_assoc, !dec_val_snoc, IH, length_app, Nat.add_1_r,
      Nat2Z.inj_succ, Z.pow_succ_r by lia. lia.
Qed.

Lemma dec_val_replicate_zero k : dec_val (replicate k 48) = 0.
Proof.
  induction k as [|k IH]; [done|].
  change (replicate (S k) 48) with ([48] ++ replicate k 48).
  rewrite dec_val_app, IH. cbn. lia.
Qed.

Lemma pad_S w n : pad (S w) n = pad w (n / 10) ++ [48 + n mod 10].
Proof. unfold pad. cbn [pad_rev]. by rewrite reverse_cons. Qed.

Lemma pad_length w n : length (pad w n) = w.
Proof.
  revert n. induction w as [|w IH]; intros n; [done|].
  rewrite pad_S, length_app, IH. cbn. lia.
Qed.

Lemma pad_app w v n : pad (w + v) n = pad w (n / 10 ^ Z.of_nat v) ++ pad v n.
Proof.
  revert n. induction v as [|v IH]; intros n.
  - rewrite Nat.add_0_r. cbn. by rewrite Z.div_1_r, app_nil_r.
  - rewrite Nat.add_succ_r, !pad_S, IH, <- app_assoc.
    rewrite Nat2Z.inj_succ, Z.pow_succ_r, Z.div_div by lia. done.
Qed.

Lemma dec_val_pad w n : 0 <= n -> dec_val (pad w n) = n mod 10 ^ Z.of_nat w.
Proof.
  revert n. induction w as [|w IH]; intros n Hn.
  - cbn. by rewrite Z.mod_1_r.
  - rewrite pad_S, dec_val_app, IH by (apply Z.div_pos; lia).
    rewrite Nat2Z.inj_succ, Z.pow_succ_r by lia.
    rewrite (Z.rem_mul_r n 10) by lia. cbn. lia.
Qed.

Definition digits (s : list Z) : Prop := Forall (fun c => 48 <= c <= 57) s.

Lemma digits_forallb s : digits s -> forallb is_digit s = true.
Proof.
  unfold digits. induction 1 as [|c s Hc _ IH]; cbn [forallb]; [done|].
  rewrite IH. unfold is_digit. lia.
Qed.

Lemma pad_digits w n : digits (pad w n).
Proof.
  revert n. induction w as [|w IH]; intros n; [constructor|].
  rewrite pad_S. apply Forall_app; split; [apply IH|].
  constructor; [|constructor]. pose proof (Z.mod_pos_bound n 10). lia.
Qed.

Lemma strip_zeros_spec s : exists k, s = replicate k 48 ++ strip_zeros s.
Proof.
  induction s as [|c s [k IH]]; [by exists 0%nat|]. cbn.
  destruct (Z.eqb_spec c 48) as [->|].
  - exists (S k). cbn. by rewrite <- IH.
  - by exists 0%nat.
Qed.

Lemma trim_end_zeros_spec s :
  exists k, s = trim_end_zeros s ++ replicate k 48.
Proof.
  destruct (strip_zeros_spec (reverse s)) as [k Hk]. exists k.
  unfold trim_end_zeros.
  rewrite <- (reverse_involutive s) at 1. rewrite Hk at 1.
  by rewrite reverse_app, reverse_replicate.
Qed.

Lemma dec_val_strip_zeros s : dec_val (strip_zeros s) = dec_val s.
Proof.
  destruct (strip_zeros_spec s) as [k Hk]. rewrite Hk at 2.
  rewrite dec_val_app, dec_val_replicate_zero. lia.
Qed.

Lemma strip_zeros_digits s : digits s -> digits (strip_zeros s).
Proof.
  destruct (strip_zeros_spec s) as [k Hk]. rewrite Hk at 1.
  unfold digits. rewrite Forall_app. tauto.
Qed.

Lemma trim_end_zeros_digits s : digits s -> digits (trim_end_zeros s).
Proof.
  destruct (trim_end_zeros_spec s) as [k Hk]. rewrite Hk at 1.
  unfold digits. rewrite Forall_app. tauto.
Qed.

(** [to_string] prints digits, at least one, whose value is the number. *)
Lemma to_string_spec n :
  is_u64 n ->
  digits (to_string n) /\ to_string n <> [] /\ dec_val (to_string n) = n.
Proof.
  intros Hn. unfold to_string.
  assert (Hv : dec_val (strip_zeros (pad 20 n)) = n).
  { rewrite dec_val_strip_zeros, dec_val_pad, Z.mod_small by word_lia. done. }
  pose proof (strip_zeros_digits _ (pad_digits 20 n)) as Hd.
  destruct (strip_zeros (pad 20 n)) as [|c s] eqn:E.
  - split; [|split; [done|]].
    + constructor; [lia|constructor].
    + cbn in Hv |- *. lia.
  - done.
Qed.

Lemma parse_u128_digits s :
  digits s -> s <> [] -> dec_val s <= u128_max -> parse_u128 s = Some (dec_val s).
Proof.
  intros Hd Hne Hv. unfold parse_u128.
  pose proof (digits_forallb _ Hd) as Hf.
  destruct s as [|c s]; [done|].
  assert (48 <= c <= 57) as Hc by by inversion Hd.
  assert ((match c with 43 => s | _ => c :: s end) = c :: s) as ->.
  { destruct c as [|c|]; try lia.
    do 6 (destruct c as [c|c|]; try done; try lia). }
  rewrite Hf. destruct (Z.leb_spec (dec_val (c :: s)) u128_max); [done|lia].
Qed.

Lemma trim_id s :
  Forall (fun c => is_space c = false) s -> trim s = s.
Proof.
  intros H.
  assert (Hts : forall t, Forall (fun c => is_space c = false) t -> trim_start t = t).
  { intros t Ht. destruct Ht as [|c t Hc Ht]; cbn; [done|]. by rewrite Hc. }
  unfold trim. rewrite (Hts s H), Hts, reverse_involutive; [done|].
  by apply Forall_reverse.
Qed.

Lemma split_dot_digits a : digits a -> split_dot a = (a, None).
Proof.
  induction 1 as [|c a Hc _ IH]; cbn; [done|].
  destruct (Z.eqb_spec c 46); [lia|]. by rewrite IH.
Qed.

Lemma split_dot_app a b : digits a -> split_dot (a ++ 46 :: b) = (a, Some b).
Proof.
  induction 1 as [|c a Hc _ IH]; cbn; [done|].
  destruct (Z.eqb_spec c 46); [lia|]. by rewrite IH.
Qed.

Lemma digits_no_space s : digits s -> Forall (fun c => is_space c = false) s.
Proof.
  intros H. eapply Forall_impl; [exact H|]. intros c Hc. cbn in Hc. unfold is_space. lia.
Qed.
End decimal.

(** ** Lemmas on the printer and the parser *)

Section text.
(** What [format] keeps of the fractional part. *)
Definition kept_frac (a : Z) (d : nat) : Z :=
  (a mod ATOMIC_UNITS) / 10 ^ Z.of_nat (12 - Nat.min d 12)
    * 10 ^ Z.of_nat (12 - Nat.min d 12).

Lemma take_pad d frac :
  (d <= 12)%nat ->
  take d (pad 12 frac) = pad d (frac / 10 ^ Z.of_nat (12 - d)).
Proof.
  intros Hd. replace 12%nat with (d + (12 - d))%nat at 1 by lia.
  rewrite pad_app. apply take_app_length'. by rewrite pad_length.
Qed.

(** The parser reads a printed fraction back as the digits that were kept. *)
Lemma parse_frac_format s a d :
  is_u64 a ->
  let t := trim_end_zeros (take (Nat.min d 12) (pad 12 (a mod ATOMIC_UNITS))) in
  t <> [] ->
  Amount.parse_frac s t = Ok (kept_frac a d).
Proof.
  intros Ha t Ht. unfold kept_frac. set (f := a mod ATOMIC_UNITS) in *.
  assert (0 <= f < ATOMIC_UNITS) as Hf by (apply Z.mod_pos_bound; const_lia).
  set (m := Nat.min d 12) in *.
  assert (Hm : (m <= 12)%nat) by lia.
  unfold t in *. rewrite take_pad in * by done.
  set (q := f / 10 ^ Z.of_nat (12 - m)) in *.
  destruct (trim_end_zeros_spec (pad m q)) as [k Hk].
  set (u := trim_end_zeros (pad m q)) in *.
  assert (length u + k = m)%nat as Hlen.
  { pose proof (pad_length m q) as Hl. rewrite Hk in Hl.
    rewrite length_app, length_replicate in Hl. done. }
  assert (Hq : 0 <= q < 10 ^ Z.of_nat m).
  { unfold q. split; [apply Z.div_pos; lia|].
    apply Z.div_lt_upper_bound; [lia|].
    rewrite <- Z.pow_add_r by lia.
    replace (Z.of_nat (12 - m) + Z.of_nat m) with 12 by lia. const_lia. }
  assert (Hdu : digits u) by apply trim_end_zeros_digits, pad_digits.
  unfold Amount.parse_frac. destruct u as [|c u'] eqn:Eu; [done|]. rewrite <- Eu in *.
  rewrite (digits_forallb _ Hdu). cbn [negb].
  rewrite Nat.min_l, take_ge by lia.
  replace (12 - length u)%nat with (k + (12 - m))%nat by lia.
  rewrite replicate_add, app_assoc, <- Hk.
  assert (Hv : dec_val (pad m q ++ replicate (12 - m) 48)
               = q * 10 ^ Z.of_nat (12 - m)).
  { rewrite dec_val_app, dec_val_replicate_zero, dec_val_pad,
      length_replicate, Z.mod_small by lia. lia. }
  rewrite parse_u128_digits, Hv; [done| | |].
  - apply Forall_app; split; [apply pad_digits|].
    apply Forall_replicate. lia.
  - rewrite Hk, Eu. done.
  - rewrite Hv. unfold q.
    pose proof (Z.mul_div_le f (10 ^ Z.of_nat (12 - m))). const_lia.
Qed.

(** The end of the parser, after the two parts have been read. *)
Lemma from_str_parts s n c r frac_opt f :
  trim s = c :: r -> c <> 45 ->
  split_dot (c :: r) = (to_string n, frac_opt) ->
  0 <= n <= u64_max / ATOMIC_UNITS -> 0 <= f < ATOMIC_UNITS ->
  n * ATOMIC_UNITS + f <= u64_max ->
  match frac_opt with
  | Some fs => Amount.parse_frac (c :: r) fs
  | None => Ok 0
  end = Ok f ->
  Amount.from_str s = Ok (n * ATOMIC_UNITS + f).
Proof.
  intros Ht Hc Hs Hn Hf Htot Hfrac. unfold Amount.from_str. rewrite Ht, Hs.
  destruct (Z.eqb_spec c 45); [done|].
  assert (u64_max / ATOMIC_UNITS = 18446744) as Hmax by reflexivity.
  destruct (to_string_spec n) as (Hd & Hne & Hv); [word_lia|].
  rewrite parse_u128_digits, Hv by (done || word_lia). cbn -[u64_max ATOMIC_UNITS].
  destruct (Z.ltb_spec (u64_max / ATOMIC_UNITS) n); [lia|].
  rewrite wrap128_small by const_lia. rewrite Hfrac. cbn -[u64_max ATOMIC_UNITS].
  unfold Prelude.checked_add.
  destruct (Z.leb_spec (n * ATOMIC_UNITS + f) u128_max); [|const_lia].
  cbn -[u64_max ATOMIC_UNITS].
  destruct (Z.ltb_spec u64_max (n * ATOMIC_UNITS + f)); [lia|].
  rewrite wrap64_small; [done|const_lia].
Qed.

(** A printed whole number. *)
Lemma from_str_whole n :
  0 <= n <= u64_max / ATOMIC_UNITS -> n * ATOMIC_UNITS <= u64_max ->
  Amount.from_str (to_string n) = Ok (n * ATOMIC_UNITS + 0).
Proof.
  intros Hn Htot. assert (Hmax : u64_max / ATOMIC_UNITS = 18446744) by reflexivity.
  destruct (to_string_spec n) as (Hd & Hne & Hv); [word_lia|].
  destruct (to_string n) as [|c r] eqn:E; [done|].
  assert (48 <= c <= 57) by by inversion Hd.
  apply (from_str_parts _ n c r None); [|lia| |done|const_lia|lia|done].
  - apply trim_id, digits_no_space, Hd.
  - rewrite <- E in *. by apply split_dot_digits.
Qed.

Lemma kept_frac_bounds a d :
  0 <= a -> 0 <= kept_frac a d <= a mod ATOMIC_UNITS.
Proof.
  intros Ha. unfold kept_frac.
  pose proof (Z.mod_pos_bound a ATOMIC_UNITS ltac:(const_lia)) as Hb.
  set (P := 10 ^ Z.of_nat (12 - Nat.min d 12)).
  assert (0 < P) by (apply Z.pow_pos_nonneg; lia).
  pose proof (Z.mul_div_le (a mod ATOMIC_UNITS) P).
  pose proof (Z.div_pos (a mod ATOMIC_UNITS) P). nia.
Qed.

Lemma kept_frac_none a d :
  is_u64 a ->
  trim_end_zeros (take (Nat.min d 12) (pad 12 (a mod ATOMIC_UNITS))) = [] ->
  kept_frac a d = 0.
Proof.
  intros Ha Ht. unfold kept_frac.
  set (f := a mod ATOMIC_UNITS) in *. set (m := Nat.min d 12) in *.
  assert (0 <= f < ATOMIC_UNITS) as Hf by (apply Z.mod_pos_bound; const_lia).
  rewrite take_pad in Ht by lia.
  set (q := f / 10 ^ Z.of_nat (12 - m)) in *.
  destruct (trim_end_zeros_spec (pad m q)) as [k Hk]. rewrite Ht in Hk.
  assert (0 <= q < 10 ^ Z.of_nat m) as Hq.
  { unfold q. split; [apply Z.div_pos; lia|].
    apply Z.div_lt_upper_bound; [lia|].
    rewrite <- Z.pow_add_r by lia.
    replace (Z.of_nat (12 - m) + Z.of_nat m) with 12 by lia. const_lia. }
  pose proof (dec_val_pad m q) as Hv. rewrite Hk, Z.mod_small in Hv by lia.
  rewrite app_nil_l, dec_val_replicate_zero in Hv. lia.
Qed.
End text.

(** ** Properties *)

(** print then parse.  For every amount and every number of decimals,
    parsing the printed text succeeds and gives the amount truncated to the
    decimals that were printed; with 12 decimals it is the amount itself. *)
Theorem from_str_format (a : Z) (d : nat) :
  is_u64 a ->
  Amount.from_str (Amount.format a d)
  = Ok (a / ATOMIC_UNITS * ATOMIC_UNITS
        + if (d =? 0)%nat then 0 else kept_frac a d).
Proof.
  intros Ha.
  assert (HA : 0 < ATOMIC_UNITS) by const_lia.
  pose proof (Z.mod_pos_bound a ATOMIC_UNITS HA) as Hmod.
  pose proof (Z.div_mod a ATOMIC_UNITS ltac:(lia)) as Hdm.
  assert (Hn : 0 <= a / ATOMIC_UNITS <= u64_max / ATOMIC_UNITS).
  { split; [apply Z.div_pos|apply Z.div_le_mono]; word_lia. }
  assert (Hmax : u64_max / ATOMIC_UNITS = 18446744) by reflexivity.
  set (n := a / ATOMIC_UNITS) in *.
  destruct (to_string_spec n) as (Hd & Hne & Hv); [word_lia|].
  unfold Amount.format. fold n.
  destruct d as [|d']; cbn [Nat.eqb].
  { apply from_str_whole; [done|]. unfold is_u64 in Ha. lia. }
  set (d := S d') in *.
  pose proof (kept_frac_bounds a d ltac:(word_lia)) as Hk.
  destruct (trim_end_zeros (take (Nat.min d 12) (pad 12 (a mod ATOMIC_UNITS))))
    as [|t ts] eqn:Et.
  { rewrite (kept_frac_none a d Ha Et). apply from_str_whole; [done|].
    unfold is_u64 in Ha. lia. }
  assert (Hdt : digits (t :: ts)).
  { rewrite <- Et. apply trim_end_zeros_digits, Forall_take, pad_digits. }
  destruct (to_string n) as [|c r] eqn:E; [done|].
  assert (48 <= c <= 57) by by inversion Hd.
  eapply from_str_parts with (frac_opt := Some (t :: ts)).
  - apply (trim_id ((c :: r) ++ 46 :: t :: ts)), Forall_app.
    split; [by apply digits_no_space|].
    constructor; [done|]. by apply digits_no_space.
  - lia.
  - change (split_dot ((c :: r) ++ 46 :: t :: ts) = (to_string n, Some (t :: ts))).
    rewrite E. by apply split_dot_app.
  - done.
  - lia.
  - unfold is_u64 in Ha. lia.
  - rewrite <- Et. apply parse_frac_format; [done|]. by rewrite Et.
Qed.

Lemma from_str_format_witness :
  is_u64 1500000000001
  /\ Amount.from_str (Amount.format 1500000000001 12) = Ok 1500000000001
  /\ Amount.from_str (Amount.format 1500000000001 4) = Ok 1500000000000.
Proof.
  assert (H : is_u64 1500000000001) by word_lia.
  split; [exact H|]. split.
  - exact (from_str_format 1500000000001 12 H).
  - exact (from_str_format 1500000000001 4 H).
Defined.

Lemma sum_spec_from acc l :
  is_u64 acc -> Forall is_u64 l ->
  fold_left Amount.saturating_add l acc = Z.min u64_max (acc + foldr Z.add 0 l).
Proof.
  intros Hacc Hl. revert acc Hacc.
  induction Hl as [|x l Hx Hl IH]; intros acc Hacc; cbn [fold_left foldr].
  - word_lia.
  - assert (0 <= foldr Z.add 0 l).
    { clear IH. induction Hl; cbn; [lia|]. word_lia. }
    rewrite IH; unfold Amount.saturating_add; word_lia.
Qed.

(** [Sum for Amount] is the mathematical sum, capped at [u64::MAX]: the
    order in which the terms saturate does not matter. *)
Theorem sum_is_capped_sum (l : list Z) :
  Forall is_u64 l -> Amount.sum l = Z.min u64_max (foldr Z.add 0 l).
Proof.
  intros Hl. unfold Amount.sum, Amount.ZERO.
  rewrite sum_spec_from by (done || word_lia). by rewrite Z.add_0_l.
Qed.

Lemma percentage_exact a bp :
  is_u64 a -> is_u64 bp ->
  Amount.percentage a bp = Z.min ((a * bp + 5000) / 10000) u64_max.
Proof.
  intros Ha Hb. unfold Amount.percentage.
  assert (0 <= a * bp <= u64_max * u64_max) by (word_unfold; nia).
  rewrite (wrap128_small (a * bp)) by word_lia.
  rewrite wrap128_small by word_lia.
  pose proof (Z.div_pos (a * bp + 5000) 10000).
  rewrite wrap64_small; [done|]. word_lia.
Qed.

Lemma percentage_truncate_exact a bp :
  is_u64 a -> is_u64 bp ->
  Amount.percentage_truncate a bp = Z.min (a * bp / 10000) u64_max.
Proof.
  intros Ha Hb. unfold Amount.percentage_truncate.
  assert (0 <= a * bp <= u64_max * u64_max) by (word_unfold; nia).
  rewrite (wrap128_small (a * bp)) by word_lia.
  pose proof (Z.div_pos (a * bp) 10000).
  rewrite wrap64_small; [done|]. word_lia.
Qed.

(** a share of at most 100% is never larger than the amount, is within half
    a unit of the exact value, and is the truncated share or one more. *)
Theorem percentage_rounds (a bp : Z) :
  is_u64 a -> 0 <= bp <= 10000 ->
  let p := Amount.percentage a bp in
  p <= a /\ -5000 < 10000 * p - a * bp <= 5000
  /\ Amount.percentage_truncate a bp <= p <= Amount.percentage_truncate a bp + 1.
Proof.
  intros Ha Hb p. unfold p.
  rewrite percentage_exact, percentage_truncate_exact by word_lia.
  assert (0 <= a * bp <= a * 10000) by (word_unfold; nia).
  unfold is_u64 in Ha.
  pose proof (Z.div_mod (a * bp + 5000) 10000 ltac:(lia)).
  pose proof (Z.mod_pos_bound (a * bp + 5000) 10000 ltac:(lia)).
  pose proof (Z.div_mod (a * bp) 10000 ltac:(lia)).
  pose proof (Z.mod_pos_bound (a * bp) 10000 ltac:(lia)).
  lia.
Qed.

Example format_1_2345 : Amount.format 1234500000000 4 = bytes_of_string "1.2345".
Proof. vm_compute. reflexivity. Qed.
Example parse_1_2345 :
  Amount.from_str (bytes_of_string " 1.2345 ") = Ok 1234500000000.
Proof. vm_compute. reflexivity. Qed.
