(* ===== verification/Emission.v ===== *)
(** * Emission curve ([src/emission/curve.rs], [supply.rs])

    The consensus reward as a function of the cumulative supply, the
    height-based estimate with its integration loop, and the supply the chain
    emits when every block pays the consensus reward. *)

From stdpp Require Import prelude.
From Stdlib Require Import ZArith Lia.
From S2P Require Import Prelude Constants Amounts.

Local Open Scope Z_scope.

Inductive EmissionPhase := Distribution | Mature | Tail.

#[export] Instance EmissionPhase_eq_dec : EqDecision EmissionPhase.
Proof. solve_decision. Defined.

(** [TOTAL_SUPPLY_TARGET as u128 * COIN as u128]. *)
Definition cap_atomic : Z := wrap128 (TOTAL_SUPPLY_TARGET * COIN).

Definition base_reward_from_supply (cumulative_supply_atomic : Z) : Z :=
  let remaining := sat_sub cap_atomic cumulative_supply_atomic in
  let reward := remaining / EMISSION_DIVISOR in
  let reward := Z.max reward TAIL_EMISSION in
  wrap64 reward.

(** The step size chosen before the loop. *)
Definition estimate_step (height : Z) : Z :=
  if 1000000 <? height then 10000
  else if 100000 <? height then 1000
  else if 10000 <? height then 100
  else 10.

(** [while h < height { .. }]; [None] is running out of fuel. *)
Fixpoint estimate_loop (fuel : nat) (step height h supply : Z) : option Z :=
  if negb (h <? height) then Some supply
  else match fuel with
  | O => None
  | S fuel =>
      let remaining := sat_sub cap_atomic supply in
      let asymptotic_reward := remaining / EMISSION_DIVISOR in
      let reward := Z.max asymptotic_reward TAIL_EMISSION in
      if asymptotic_reward <? TAIL_EMISSION then
        let remaining_blocks := height - h in
        Some (sat_add u128_max supply
                (sat_mul u128_max TAIL_EMISSION remaining_blocks))
      else
        let blocks_in_step := Z.min (height - h) step in
        estimate_loop fuel step height
          (wrap64 (h + blocks_in_step))
          (wrap128 (supply + wrap128 (reward * blocks_in_step)))
  end.

(** Iterations any height needs at most (see [estimate_terminates]). *)
Definition estimate_fuel : nat := Z.to_nat 20000.

Definition estimate_supply_at_height (height : Z) : option Z :=
  if height =? 0 then Some 0
  else s ← estimate_loop estimate_fuel (estimate_step height) height 0 0;
       Some (Z.min s cap_atomic).

Definition base_reward (height : Z) : option Z :=
  base_reward_from_supply <$> estimate_supply_at_height height.

Definition block_reward (height : Z) : option Z := base_reward height.

Definition estimate_reward_at_height (height : Z) : option Z :=
  supply ← estimate_supply_at_height height;
  let remaining := sat_sub cap_atomic supply in
  let reward := remaining / EMISSION_DIVISOR in
  Some (wrap64 (Z.max reward TAIL_EMISSION)).

Definition emission_phase (height : Z) : option EmissionPhase :=
  estimated_reward ← estimate_reward_at_height height;
  Some (if estimated_reward <=? TAIL_EMISSION then Tail
        else if estimated_reward <=? 10 * COIN then Mature
        else Distribution).

Record SupplyStats := mkSupplyStats {
  total_emitted : Z;
  total_burned : Z;
  circulating : Z;
  emission_remaining : Z;
  in_tail : bool;
}.

Definition SupplyStats_new (emitted burned remaining : Z) (in_tail : bool) : SupplyStats :=
  mkSupplyStats emitted burned (Amount.saturating_sub emitted burned) remaining in_tail.

(** The supply after [n] blocks that each pay the consensus reward. *)
Fixpoint emitted (n : nat) : Z :=
  match n with
  | O => 0
  | S n => emitted n + base_reward_from_supply (emitted n)
  end.

(** ** Lemmas on the reward *)

Definition raw_reward (s : Z) : Z :=
  Z.max (sat_sub cap_atomic s / EMISSION_DIVISOR) TAIL_EMISSION.

Section reward.
Implicit Types s h k : Z.

Lemma cap_atomic_eq : cap_atomic = 100000000000000000000.
Proof. reflexivity. Qed.

Lemma raw_reward_bounds s : 0 <= s -> TAIL_EMISSION <= raw_reward s <= 50 * COIN.
Proof.
  intros Hs. unfold raw_reward. rewrite cap_atomic_eq.
  assert (sat_sub 100000000000000000000 s / EMISSION_DIVISOR <= 50 * COIN).
  { apply Z.div_le_upper_bound; const_lia. }
  const_lia.
Qed.

Lemma base_reward_raw s : 0 <= s -> base_reward_from_supply s = raw_reward s.
Proof.
  intros Hs. unfold base_reward_from_supply. fold (raw_reward s).
  apply wrap64_small. pose proof (raw_reward_bounds s Hs). const_lia.
Qed.

Lemma raw_reward_antitone s1 s2 : s1 <= s2 -> raw_reward s2 <= raw_reward s1.
Proof.
  intros H. unfold raw_reward.
  assert (sat_sub cap_atomic s2 / EMISSION_DIVISOR
          <= sat_sub cap_atomic s1 / EMISSION_DIVISOR).
  { apply Z.div_le_mono; const_lia. }
  lia.
Qed.

(** More supply before a block means at least as much after it. *)
Lemma pay_mono s1 s2 : s1 <= s2 -> s1 + raw_reward s1 <= s2 + raw_reward s2.
Proof.
  intros H. unfold raw_reward. rewrite cap_atomic_eq.
  unfold sat_sub. autounfold with consts.
  set (r1 := Z.max 0 (100000000000000000000 - s1)).
  set (r2 := Z.max 0 (100000000000000000000 - s2)).
  assert (0 <= r1 - r2 <= s2 - s1) by lia.
  pose proof (Z.div_mod r1 2000000 ltac:(lia)).
  pose proof (Z.mod_pos_bound r1 2000000 ltac:(lia)).
  pose proof (Z.div_mod r2 2000000 ltac:(lia)).
  pose proof (Z.mod_pos_bound r2 2000000 ltac:(lia)).
  lia.
Qed.

(** While the curve pays at least the tail, a block stays below the cap. *)
Lemma curve_below_cap s :
  TAIL_EMISSION <= sat_sub cap_atomic s / EMISSION_DIVISOR ->
  s + TAIL_EMISSION * EMISSION_DIVISOR <= cap_atomic.
Proof.
  intros H. rewrite cap_atomic_eq in *. unfold sat_sub in *.
  autounfold with consts in *.
  pose proof (Z.mul_div_le (Z.max 0 (100000000000000000000 - s)) 2000000). lia.
Qed.

Lemma tail_forever s1 s2 :
  s1 <= s2 -> sat_sub cap_atomic s1 / EMISSION_DIVISOR < TAIL_EMISSION ->
  raw_reward s2 = TAIL_EMISSION.
Proof.
  intros H Ht. unfold raw_reward.
  assert (sat_sub cap_atomic s2 / EMISSION_DIVISOR
          <= sat_sub cap_atomic s1 / EMISSION_DIVISOR).
  { apply Z.div_le_mono; const_lia. }
  lia.
Qed.
End reward.

(** ** The true emission from a given supply *)

Fixpoint emit_from (k : nat) (s : Z) : Z :=
  match k with
  | O => s
  | S k => emit_from k (s + raw_reward s)
  end.

Section emit.
Lemma emit_from_ge k s : 0 <= s -> s + TAIL_EMISSION * Z.of_nat k <= emit_from k s.
Proof.
  revert s. induction k as [|k IH]; intros s Hs; cbn [emit_from]; [lia|].
  pose proof (raw_reward_bounds s Hs). autounfold with consts in *.
  specialize (IH (s + raw_reward s) ltac:(lia)). lia.
Qed.

Lemma emit_from_mono k s1 s2 : s1 <= s2 -> emit_from k s1 <= emit_from k s2.
Proof.
  revert s1 s2. induction k as [|k IH]; intros s1 s2 H; cbn; [done|].
  apply IH, pay_mono, H.
Qed.

(** Paying the first reward [k] times bounds the true emission from above. *)
Lemma emit_from_le k s : 0 <= s -> emit_from k s <= s + Z.of_nat k * raw_reward s.
Proof.
  revert s. induction k as [|k IH]; intros s Hs; cbn [emit_from]; [lia|].
  pose proof (raw_reward_bounds s Hs) as Hb. autounfold with consts in *.
  specialize (IH (s + raw_reward s) ltac:(lia)).
  pose proof (raw_reward_antitone s (s + raw_reward s) ltac:(lia)). nia.
Qed.

Lemma emit_from_add j k s : emit_from (j + k) s = emit_from k (emit_from j s).
Proof. revert s. induction j as [|j IH]; intros s; cbn; [done|]. apply IH. Qed.

Lemma emit_from_tail k s :
  0 <= s -> sat_sub cap_atomic s / EMISSION_DIVISOR < TAIL_EMISSION ->
  emit_from k s = s + TAIL_EMISSION * Z.of_nat k.
Proof.
  intros Hs Ht.
  enough (forall t, s <= t -> emit_from k t = t + TAIL_EMISSION * Z.of_nat k)
    by eauto with lia.
  induction k as [|k IH]; intros t Hst; cbn [emit_from]; [lia|].
  rewrite (tail_forever s t Hst Ht), IH by const_lia. lia.
Qed.

Lemma emit_from_S_end k s :
  emit_from (S k) s = emit_from k s + raw_reward (emit_from k s).
Proof. revert s. induction k as [|k IH]; intros s; [done|]. apply IH. Qed.

Lemma emitted_emit_from n : emitted n = emit_from n 0.
Proof.
  induction n as [|n IH]; [done|]. rewrite emit_from_S_end, <- IH. cbn [emitted].
  rewrite base_reward_raw; [done|]. rewrite IH.
  pose proof (emit_from_ge n 0). const_lia.
Qed.
End emit.

(** ** The estimation loop *)

Section estimate.
Variables (height step : Z).
Hypothesis Hheight : is_u64 height.
Hypothesis Hstep : 0 < step <= 10000.

(** One iteration that does not take the tail exit. *)
Lemma estimate_loop_step fuel h s :
  0 <= h < height -> 0 <= s ->
  TAIL_EMISSION <= sat_sub cap_atomic s / EMISSION_DIVISOR ->
  let b := Z.min (height - h) step in
  estimate_loop (S fuel) step height h s
  = estimate_loop fuel step height (h + b) (s + raw_reward s * b)
  /\ s + raw_reward s * b <= cap_atomic.
Proof.
  intros Hh Hs Hc b. pose proof (curve_below_cap s Hc) as Hcap.
  pose proof (raw_reward_bounds s Hs) as Hr.
  assert (Hb : 0 < b <= 10000) by (unfold b; lia).
  assert (Hrb : 0 <= raw_reward s * b <= 50 * COIN * 10000)
    by (autounfold with consts in Hr |- *; nia).
  assert (Hs' : s + raw_reward s * b <= cap_atomic)
    by (rewrite cap_atomic_eq in *; const_lia).
  split; [|done]. cbn [estimate_loop].
  rewrite (proj2 (Z.ltb_lt h height)), (proj2 (Z.ltb_ge _ TAIL_EMISSION)) by lia.
  cbn [negb]. fold (raw_reward s) b.
  rewrite (wrap64_small (h + b)) by (unfold b; word_lia).
  rewrite cap_atomic_eq in Hs'.
  rewrite (wrap128_small (raw_reward s * b)) by const_lia.
  rewrite wrap128_small by const_lia. done.
Qed.

Lemma estimate_loop_tail fuel h s :
  0 <= h < height -> 0 <= s <= cap_atomic ->
  sat_sub cap_atomic s / EMISSION_DIVISOR < TAIL_EMISSION ->
  estimate_loop (S fuel) step height h s = Some (s + TAIL_EMISSION * (height - h)).
Proof.
  intros Hh Hs Hc. rewrite cap_atomic_eq in Hs. cbn [estimate_loop].
  rewrite (proj2 (Z.ltb_lt h height)), (proj2 (Z.ltb_lt _ TAIL_EMISSION)) by lia.
  cbn [negb].
  rewrite sat_mul_exact, sat_add_exact; [done| |]; const_lia.
Qed.

Lemma estimate_loop_done fuel s : estimate_loop fuel step height height s = Some s.
Proof. destruct fuel; cbn; by rewrite Z.ltb_irrefl. Qed.

(** Enough fuel by distance to the height. *)
Lemma estimate_loop_fuel_height fuel h s :
  0 <= h <= height -> 0 <= s <= cap_atomic ->
  height - h <= Z.of_nat fuel * step ->
  is_Some (estimate_loop fuel step height h s).
Proof.
  revert h s. induction fuel as [|fuel IH]; intros h s Hh Hs Hf.
  - assert (h = height) as -> by lia. rewrite estimate_loop_done. eauto.
  - destruct (decide (h = height)) as [->|]; [rewrite estimate_loop_done; eauto|].
    destruct (Z.lt_ge_cases (sat_sub cap_atomic s / EMISSION_DIVISOR) TAIL_EMISSION).
    + rewrite estimate_loop_tail by lia. eauto.
    + destruct (estimate_loop_step fuel h s) as [-> Hc]; [lia..|].
      pose proof (raw_reward_bounds s ltac:(lia)). autounfold with consts in *.
      apply IH; [lia| |nia]. split; [nia|lia].
Qed.

(** Enough fuel by distance of the supply to the cap. *)
Lemma estimate_loop_fuel_supply fuel h s :
  0 <= h <= height -> 0 <= s <= cap_atomic ->
  cap_atomic - s <= (Z.of_nat fuel - 1) * (TAIL_EMISSION * step) ->
  is_Some (estimate_loop fuel step height h s).
Proof.
  revert h s. induction fuel as [|fuel IH]; intros h s Hh Hs Hf.
  - autounfold with consts in *. nia.
  - destruct (decide (h = height)) as [->|]; [rewrite estimate_loop_done; eauto|].
    destruct (Z.lt_ge_cases (sat_sub cap_atomic s / EMISSION_DIVISOR) TAIL_EMISSION).
    + rewrite estimate_loop_tail by lia. eauto.
    + destruct (estimate_loop_step fuel h s) as [-> Hc]; [lia..|].
      pose proof (raw_reward_bounds s ltac:(lia)). autounfold with consts in *.
      destruct (Z.le_gt_cases (height - h) step).
      * rewrite Z.min_l by lia. replace (h + (height - h)) with height by lia.
        rewrite estimate_loop_done. eauto.
      * rewrite Z.min_r in * by lia. apply IH; [lia| |nia]. split; [nia|lia].
Qed.

(** The loop never underestimates the supply. *)
Lemma estimate_loop_ge fuel h s r :
  0 <= h <= height -> 0 <= s <= cap_atomic ->
  estimate_loop fuel step height h s = Some r ->
  emit_from (Z.to_nat (height - h)) s <= r.
Proof.
  revert h s. induction fuel as [|fuel IH]; intros h s Hh Hs Hr.
  - cbn in Hr. destruct (Z.ltb_spec h height); [done|].
    injection Hr as <-. replace (height - h) with 0 by lia. done.
  - destruct (decide (h = height)) as [->|].
    { rewrite estimate_loop_done in Hr. injection Hr as <-.
      by rewrite Z.sub_diag. }
    destruct (Z.lt_ge_cases (sat_sub cap_atomic s / EMISSION_DIVISOR) TAIL_EMISSION).
    + rewrite estimate_loop_tail in Hr by lia. injection Hr as <-.
      rewrite emit_from_tail by lia. lia.
    + destruct (estimate_loop_step fuel h s) as [E Hc]; [lia..|].
      rewrite E in Hr. set (b := Z.min (height - h) step) in *.
      pose proof (raw_reward_bounds s ltac:(lia)) as Hb.
      assert (0 <= raw_reward s * b) by (autounfold with consts in *; nia).
      apply IH in Hr; [|lia..].
      replace (Z.to_nat (height - h))
        with (Z.to_nat b + Z.to_nat (height - (h + b)))%nat by lia.
      rewrite emit_from_add. etrans; [|exact Hr]. apply emit_from_mono.
      etrans; [apply emit_from_le; lia|]. rewrite Z2Nat.id by lia. lia.
Qed.
End estimate.

Lemma estimate_step_bounds height : 0 < estimate_step height <= 10000.
Proof. unfold estimate_step. split_if; lia. Qed.

(** The loop always finishes within [estimate_fuel] iterations. *)
Lemma estimate_terminates height :
  is_u64 height ->
  is_Some (estimate_loop estimate_fuel (estimate_step height) height 0 0).
Proof.
  intros Hh. unfold estimate_fuel, estimate_step.
  assert (H0 : 0 <= 0 <= cap_atomic) by (rewrite cap_atomic_eq; lia).
  split_if.
  - apply estimate_loop_fuel_supply; [done|lia|word_lia|done|].
    rewrite cap_atomic_eq, Z2Nat.id by lia. const_lia.
  - apply estimate_loop_fuel_height; [done|lia|word_lia|done|].
    rewrite Z2Nat.id by lia. lia.
  - apply estimate_loop_fuel_height; [done|lia|word_lia|done|].
    rewrite Z2Nat.id by lia. lia.
  - apply estimate_loop_fuel_height; [done|lia|word_lia|done|].
    rewrite Z2Nat.id by lia. lia.
Qed.

Lemma emitted_nonneg n : 0 <= emitted n.
Proof.
  rewrite emitted_emit_from. pose proof (emit_from_ge n 0). const_lia.
Qed.

Lemma estimate_supply_spec height :
  is_u64 height ->
  exists s, estimate_supply_at_height height = Some s
            /\ Z.min cap_atomic (emitted (Z.to_nat height)) <= s <= cap_atomic.
Proof.
  intros Hh. unfold estimate_supply_at_height.
  destruct (Z.eqb_spec height 0) as [->|Hne].
  { exists 0. rewrite cap_atomic_eq. split; [done|]. change (emitted (Z.to_nat 0)) with 0. lia. }
  destruct (estimate_terminates height Hh) as [r Hr]. rewrite Hr. cbn.
  eexists; split; [done|].
  assert (Hge : emit_from (Z.to_nat (height - 0)) 0 <= r).
  { eapply (estimate_loop_ge height (estimate_step height)); try exact Hr;
      [done|apply estimate_step_bounds|word_lia|rewrite cap_atomic_eq; lia]. }
  rewrite Z.sub_0_r in Hge. rewrite emitted_emit_from. lia.
Qed.

(** ** Properties *)

(** the consensus reward is the curve of the constitution, without a wrap
    for any [u128] supply: never below the 0.6 CYNC tail, never above the 50
    CYNC of genesis, and never larger when more has been mined. *)
Theorem reward_bounded_and_decreasing (s1 s2 : Z) :
  is_u128 s1 -> is_u128 s2 -> s1 <= s2 ->
  base_reward_from_supply s1
    = Z.max ((cap_atomic - s1) / EMISSION_DIVISOR) TAIL_EMISSION
  /\ TAIL_EMISSION <= base_reward_from_supply s2
  /\ base_reward_from_supply s2 <= base_reward_from_supply s1
  /\ base_reward_from_supply s1 <= base_reward_from_supply 0
  /\ base_reward_from_supply 0 = 50 * COIN.
Proof.
  intros [H1 _] [H2 _] H. rewrite !base_reward_raw by lia. split; [|split; [|split; [|split]]].
  - unfold raw_reward, sat_sub. destruct (Z.le_gt_cases s1 cap_atomic).
    + by rewrite (Z.max_r 0) by lia.
    + rewrite (Z.max_l 0) by lia.
      assert ((cap_atomic - s1) / EMISSION_DIVISOR <= 0).
      { apply Z.div_le_upper_bound; const_lia. }
      change (0 / EMISSION_DIVISOR) with 0.
      assert (0 < TAIL_EMISSION) by const_lia. lia.
  - by apply raw_reward_bounds.
  - by apply raw_reward_antitone.
  - by apply raw_reward_antitone.
  - reflexivity.
Qed.

Lemma reward_bounded_and_decreasing_witness :
  base_reward_from_supply (99000000 * COIN) = TAIL_EMISSION
  /\ base_reward_from_supply (99000000 * COIN) <= base_reward_from_supply (50000000 * COIN).
Proof.
  split; [reflexivity|].
  apply (reward_bounded_and_decreasing (50000000 * COIN) (99000000 * COIN)); const_lia.
Defined.

(** C18: for every [u64] height the integration loop terminates (at most 20,000
    iterations), and the reward it leads to is at least the tail and at most
    the consensus reward at the supply the chain has truly emitted by then:
    the height-based estimate never promises a miner more than consensus
    pays. *)
Theorem block_reward_never_overpays (height : Z) :
  is_u64 height ->
  exists r, block_reward height = Some r
            /\ TAIL_EMISSION <= r
            /\ r <= base_reward_from_supply (emitted (Z.to_nat height)).
Proof.
  intros Hh. destruct (estimate_supply_spec height Hh) as (s & Hs & Hlo & Hhi).
  pose proof (emitted_nonneg (Z.to_nat height)) as He.
  rewrite cap_atomic_eq in *.
  unfold block_reward, base_reward. rewrite Hs. cbn. eexists; split; [done|].
  rewrite !base_reward_raw by lia. split; [apply raw_reward_bounds; lia|].
  destruct (Z.le_gt_cases (emitted (Z.to_nat height)) 100000000000000000000).
  - apply raw_reward_antitone. lia.
  - assert (s = 100000000000000000000) as -> by lia.
    etrans; [|apply raw_reward_bounds; lia]. vm_compute. discriminate.
Qed.

Lemma block_reward_never_overpays_witness :
  is_u64 25
  /\ exists r, block_reward 25 = Some r /\ TAIL_EMISSION <= r
               /\ r <= base_reward_from_supply (emitted (Z.to_nat 25)).
Proof.
  assert (H : is_u64 25) by word_lia.
  split; [exact H|]. exact (block_reward_never_overpays 25 H).
Defined.

(** the 100M target is an asymptote of the curve, not a cap on the supply.
    As long as the curve pays the tail or more, a block cannot carry the
    supply past the target; but the tail alone carries it past the target
    after at most [cap / TAIL_EMISSION + 1] blocks, and from then on the
    supply stays above it. *)
Theorem supply_crosses_target (n : nat) :
  (TAIL_EMISSION <= (cap_atomic - emitted n) / EMISSION_DIVISOR ->
   emitted (S n) <= cap_atomic)
  /\ (cap_atomic / TAIL_EMISSION < Z.of_nat n -> cap_atomic < emitted n).
Proof.
  pose proof (emitted_nonneg n) as Hn. split.
  - intros Hc. cbn [emitted]. rewrite base_reward_raw by done.
    pose proof (raw_reward_bounds (emitted n) Hn) as [_ Hr].
    assert (Hle : emitted n <= cap_atomic).
    { destruct (Z.le_gt_cases (emitted n) cap_atomic); [done|].
      assert ((cap_atomic - emitted n) / EMISSION_DIVISOR < 0)
        by (apply Z.div_lt_upper_bound; const_lia).
      const_lia. }
    pose proof (curve_below_cap (emitted n)) as Hb.
    rewrite sat_sub_exact in Hb by done. specialize (Hb Hc). const_lia.
  - intros Hlt. rewrite emitted_emit_from.
    pose proof (emit_from_ge n 0 ltac:(lia)) as Hge.
    pose proof (Z.mul_succ_div_gt cap_atomic TAIL_EMISSION ltac:(const_lia)).
    autounfold with consts in *. nia.
Qed.
