(* ===== verification/FeeMarket.v ===== *)
(** * Fee market ([src/consensus/fee_market.rs])

    Fee floor with its congestion multiplier, the miner/burn split of the fees
    of a block, and the audit statistics.  The [f64] helpers of the file
    ([calculate_priority_fee], [FeeTier::multiplier], [FeeCalculator::estimate])
    are not modelled. *)

From stdpp Require Import prelude.
From Stdlib Require Import ZArith Lia.
From S2P Require Import Prelude Constants Amounts.

Local Open Scope Z_scope.

Definition congestion_multiplier (congestion_pct : Z) : Z :=
  if congestion_pct <? 50 then 100
  else if congestion_pct <? 75 then 150
  else if congestion_pct <? 90 then 200
  else 300.

Definition calculate_fee (tx_size congestion_pct : Z) : Z :=
  let multiplier := congestion_multiplier congestion_pct in
  let base_fee := sat_mul u64_max tx_size MIN_FEE_PER_BYTE in
  sat_mul u64_max base_fee multiplier / 100.

Definition calculate_congestion (recent_block_sizes : list Z) : Z :=
  match recent_block_sizes with
  | [] => 0
  | _ =>
      let total := fold_left (sat_add u64_max) recent_block_sizes 0 in
      let avg := total / Z.of_nat (length recent_block_sizes) in
      Z.min (wrap64 (avg * 100) / MAX_BLOCK_SIZE) 100
  end.

Definition is_congested (congestion_pct : Z) : bool :=
  CONGESTION_THRESHOLD <=? congestion_pct.

Record FeeDistribution := mkFeeDistribution {
  total : Z;
  to_miner : Z;
  burned : Z;
  to_protocol : Z;
}.

#[export] Instance FeeDistribution_eq_dec : EqDecision FeeDistribution.
Proof. solve_decision. Defined.

Definition distribute_fee (total : Z) (congested : bool) : FeeDistribution :=
  let fee := total in
  let miner_pct :=
    if congested then FEE_MINER_CONGESTED_PERCENT else FEE_MINER_NORMAL_PERCENT in
  let to_miner := Z.min (wrap64 (wrap128 (fee * miner_pct) / 100)) fee in
  let burned := wrap64 (fee - to_miner) in
  let to_protocol := 0 in
  mkFeeDistribution total to_miner burned to_protocol.

Definition is_valid (d : FeeDistribution) : bool :=
  wrap128 (wrap128 (to_miner d + burned d) + to_protocol d) =? total d.

Record BlockFeeStats := mkBlockFeeStats {
  bfs_height : Z;
  bfs_tx_count : Z;
  bfs_total_fees : Z;
  bfs_total_burned : Z;
  bfs_avg_fee_per_byte : Z;
  bfs_was_congested : bool;
}.

Definition block_fee_stats (height : Z) (tx_fees : list (Z * Z)) (congested : bool)
  : BlockFeeStats :=
  match tx_fees with
  | [] => mkBlockFeeStats height 0 0 0 0 false
  | _ =>
      let total := fold_left (fun acc fs => sat_add u64_max acc (fst fs)) tx_fees 0 in
      let total_size :=
        fold_left (fun acc fs => sat_add u64_max acc (snd fs)) tx_fees 0 in
      let burn_pct :=
        if congested then FEE_BURN_CONGESTED_PERCENT else FEE_BURN_NORMAL_PERCENT in
      let total_burned := wrap64 (wrap128 (total * burn_pct) / 100) in
      mkBlockFeeStats height (Z.of_nat (length tx_fees)) total total_burned
        (if 0 <? total_size then total / total_size else 0) congested
  end.

(** [FeeCalculator] caches a congestion value for the wallet. *)
Record FeeCalculator := mkFeeCalculator { fc_congestion_pct : Z }.

Definition FeeCalculator_distribute (c : FeeCalculator) (total : Z) : FeeDistribution :=
  distribute_fee total (is_congested (fc_congestion_pct c)).

(** ** Lemmas *)

Definition miner_pct (congested : bool) : Z :=
  if congested then FEE_MINER_CONGESTED_PERCENT else FEE_MINER_NORMAL_PERCENT.

Lemma distribute_fee_eq fee congested :
  is_u64 fee ->
  distribute_fee fee congested
  = mkFeeDistribution fee (fee * miner_pct congested / 100)
      (fee - fee * miner_pct congested / 100) 0.
Proof.
  intros Hf. unfold distribute_fee. fold (miner_pct congested).
  assert (Hp : miner_pct congested = 70 \/ miner_pct congested = 50)
    by (destruct congested; auto).
  rewrite (wrap128_small (fee * miner_pct congested)) by (word_unfold; nia).
  assert (0 <= fee * miner_pct congested / 100 <= fee).
  { split; [apply Z.div_pos; word_unfold; nia|].
    apply Z.div_le_upper_bound; word_unfold; nia. }
  rewrite (wrap64_small (fee * miner_pct congested / 100)) by word_lia.
  rewrite Z.min_l by lia. rewrite wrap64_small by word_lia. done.
Qed.

Lemma congestion_multiplier_bounds c : 100 <= congestion_multiplier c <= 300.
Proof. unfold congestion_multiplier. split_if; lia. Qed.

Lemma congestion_multiplier_mono c1 c2 :
  c1 <= c2 -> congestion_multiplier c1 <= congestion_multiplier c2.
Proof. unfold congestion_multiplier. intros. split_if; lia. Qed.

Lemma calculate_fee_eq size c :
  0 <= size -> size * 300000 <= u64_max ->
  calculate_fee size c = size * 10 * congestion_multiplier c.
Proof.
  intros Hs Hb. unfold calculate_fee.
  pose proof (congestion_multiplier_bounds c).
  rewrite (sat_mul_exact u64_max size) by const_lia.
  rewrite sat_mul_exact by (autounfold with consts word in *; nia).
  unfold MIN_FEE_PER_BYTE.
  replace (size * 1000 * congestion_multiplier c)
    with (size * 10 * congestion_multiplier c * 100) by lia.
  apply Z.div_mul. lia.
Qed.

Lemma sat_fold_bounds (f : Z * Z -> Z) l acc :
  0 <= acc <= u64_max -> Forall (fun x => 0 <= f x) l ->
  0 <= fold_left (fun a x => sat_add u64_max a (f x)) l acc <= u64_max.
Proof.
  intros Ha Hl. revert acc Ha. induction Hl as [|x l Hx _ IH]; intros acc Ha; cbn;
    [done|]. apply IH. word_lia.
Qed.

Lemma congestion_total l acc :
  0 <= acc -> Forall (fun s => 0 <= s <= MAX_BLOCK_SIZE) l ->
  acc + Z.of_nat (length l) * MAX_BLOCK_SIZE <= u64_max ->
  acc <= fold_left (sat_add u64_max) l acc
    <= acc + Z.of_nat (length l) * MAX_BLOCK_SIZE.
Proof.
  intros Ha Hl. revert acc Ha.
  induction Hl as [|s l Hs _ IH]; intros acc Ha Hb;
    cbn [fold_left length] in *; [lia|].
  rewrite Nat2Z.inj_succ in *. rewrite sat_add_exact by const_lia.
  specialize (IH (acc + s) ltac:(const_lia) ltac:(const_lia)). const_lia.
Qed.

(** ** Properties *)

(** the fee split conserves every atomic unit, for every [u64] fee and both
    regimes: the miner gets the truncated percentage, the burn gets all the
    rest (so at least its own percentage), nothing goes to the protocol, and
    the record passes its own validity check. *)
Theorem distribute_fee_conserves (fee : Z) (congested : bool) :
  is_u64 fee ->
  let d := distribute_fee fee congested in
  to_miner d + burned d = fee /\ to_protocol d = 0 /\ is_valid d = true
  /\ to_miner d = fee * miner_pct congested / 100
  /\ fee * (100 - miner_pct congested) <= 100 * burned d
  /\ is_u64 (to_miner d) /\ is_u64 (burned d).
Proof.
  intros Hf d. unfold d. rewrite (distribute_fee_eq fee congested Hf). cbn.
  assert (Hp : miner_pct congested = 70 \/ miner_pct congested = 50)
    by (destruct congested; auto).
  assert (Hq : 0 <= fee * miner_pct congested / 100 <= fee).
  { split; [apply Z.div_pos; word_unfold; nia|].
    apply Z.div_le_upper_bound; word_unfold; nia. }
  pose proof (Z.mul_div_le (fee * miner_pct congested) 100 ltac:(lia)).
  unfold is_valid. cbn. set (q := fee * miner_pct congested / 100) in *.
  rewrite (wrap128_small (q + (fee - q))) by word_lia.
  rewrite wrap128_small by word_lia. word_unfold. repeat split; lia.
Qed.

Lemma distribute_fee_conserves_witness :
  is_u64 101
  /\ distribute_fee 101 false = mkFeeDistribution 101 70 31 0
  /\ to_miner (distribute_fee 101 false) + burned (distribute_fee 101 false) = 101.
Proof.
  assert (H : is_u64 101) by word_lia. split; [exact H|]. split; [reflexivity|].
  exact (proj1 (distribute_fee_conserves 101 false H)).
Defined.

(** the fee floor grows with the size and with the congestion of the chain
    and is never below the base rate; for every size below 61 TB nothing
    saturates. *)
Theorem calculate_fee_monotone (s1 s2 c1 c2 : Z) :
  0 <= s1 <= s2 -> c1 <= c2 -> s2 * 300000 <= u64_max ->
  s1 * MIN_FEE_PER_BYTE <= calculate_fee s1 c1
  /\ calculate_fee s1 c1 <= calculate_fee s2 c2
  /\ calculate_fee s2 c2 <= 3 * s2 * MIN_FEE_PER_BYTE.
Proof.
  intros Hs Hc Hb.
  rewrite !calculate_fee_eq by lia. unfold MIN_FEE_PER_BYTE.
  pose proof (congestion_multiplier_bounds c1).
  pose proof (congestion_multiplier_bounds c2).
  pose proof (congestion_multiplier_mono c1 c2 Hc). nia.
Qed.

Lemma calculate_fee_monotone_witness :
  calculate_fee 500 10 = 500000 /\ calculate_fee 500 10 <= calculate_fee 1000 95.
Proof.
  split; [reflexivity|].
  apply (calculate_fee_monotone 500 1000 10 95); const_lia.
Defined.

(** with blocks that respect the size limit, the congestion level is a
    percentage and is the floor of the average fullness (no wrap, no cap). *)
Theorem calculate_congestion_exact (l : list Z) :
  l <> [] -> Forall (fun s => 0 <= s <= MAX_BLOCK_SIZE) l ->
  Z.of_nat (length l) * MAX_BLOCK_SIZE <= u64_max ->
  let total := fold_left (sat_add u64_max) l 0 in
  calculate_congestion l
    = total / Z.of_nat (length l) * 100 / MAX_BLOCK_SIZE
  /\ 0 <= calculate_congestion l <= 100.
Proof.
  intros Hne Hl Hb total.
  pose proof (congestion_total l 0 ltac:(lia) Hl ltac:(lia)) as Ht. fold total in Ht.
  assert (Hlen : 0 < Z.of_nat (length l)) by (destruct l; [done|cbn; lia]).
  assert (Havg : 0 <= total / Z.of_nat (length l) <= MAX_BLOCK_SIZE).
  { split; [apply Z.div_pos; lia|]. apply Z.div_le_upper_bound; lia. }
  assert (Hq : 0 <= total / Z.of_nat (length l) * 100 / MAX_BLOCK_SIZE <= 100).
  { split; [apply Z.div_pos; const_lia|]. apply Z.div_le_upper_bound; const_lia. }
  assert (calculate_congestion l = total / Z.of_nat (length l) * 100 / MAX_BLOCK_SIZE)
    as ->; [|done].
  unfold calculate_congestion. destruct l as [|s l]; [done|].
  fold total. rewrite wrap64_small by const_lia. rewrite Z.min_l by lia. done.
Qed.

Lemma calculate_congestion_exact_witness :
  calculate_congestion [MAX_BLOCK_SIZE; MAX_BLOCK_SIZE / 2] = 75
  /\ 0 <= calculate_congestion [MAX_BLOCK_SIZE; MAX_BLOCK_SIZE / 2] <= 100.
Proof.
  split; [reflexivity|].
  apply (calculate_congestion_exact [MAX_BLOCK_SIZE; MAX_BLOCK_SIZE / 2]).
  - discriminate.
  - repeat constructor; vm_compute; discriminate.
  - vm_compute. discriminate.
Defined.

(** the audit statistic of a block understates the burn that consensus
    takes from the same fees by at most one atomic unit. *)
Theorem block_fee_stats_burn (height : Z) (tx_fees : list (Z * Z)) (congested : bool) :
  Forall (fun fs => 0 <= fst fs) tx_fees ->
  let st := block_fee_stats height tx_fees congested in
  let d := distribute_fee (bfs_total_fees st) congested in
  bfs_total_burned st <= burned d <= bfs_total_burned st + 1.
Proof.
  intros Hl. cbv zeta.
  destruct tx_fees as [|fs l]; [destruct congested; vm_compute; split; discriminate|].
  set (st := block_fee_stats height (fs :: l) congested).
  set (t := fold_left (fun acc fs => sat_add u64_max acc (fst fs)) (fs :: l) 0).
  assert (Ht : is_u64 t) by (apply (sat_fold_bounds fst); [word_lia|done]).
  change (bfs_total_fees st) with t.
  set (bp := if congested then FEE_BURN_CONGESTED_PERCENT else FEE_BURN_NORMAL_PERCENT).
  change (bfs_total_burned st) with (wrap64 (wrap128 (t * bp) / 100)).
  assert (Hp : bp = 30 /\ miner_pct congested = 70 \/ bp = 50 /\ miner_pct congested = 50)
    by (unfold bp; destruct congested; auto).
  rewrite (distribute_fee_eq t congested Ht). cbn [burned].
  rewrite (wrap128_small (t * bp)) by (word_unfold; nia).
  pose proof (Z.div_mod (t * bp) 100 ltac:(lia)).
  pose proof (Z.mod_pos_bound (t * bp) 100 ltac:(lia)).
  rewrite wrap64_small by (word_unfold; nia).
  pose proof (Z.div_mod (t * miner_pct congested) 100 ltac:(lia)).
  pose proof (Z.mod_pos_bound (t * miner_pct congested) 100 ltac:(lia)).
  clearbody bp. destruct Hp as [[-> E]|[-> E]]; rewrite E in *; lia.
Qed.
