(* ===== verification/Difficulty.v ===== *)
(** * Dual-anchor ASERT difficulty ([src/consensus/difficulty.rs])

    The retarget in its [u128]/[i128] fixed-point arithmetic: the power of two
    by Horner's rule, the two weighted windows, the clamps and the emergency
    drop.  A target is a 32-byte big-endian string of which the first 16 bytes
    carry the value.  [None] is an index out of bounds.  The informational
    [estimate_hashrate] ([f64]) is not modelled. *)

From stdpp Require Import prelude.
From Stdlib Require Import ZArith Lia.
From S2P Require Import Prelude Constants.

Local Open Scope Z_scope.

Definition MIN_DIFFICULTY : Z := 500.
Definition RBITS : Z := 16.
Definition RADIX : Z := Z.shiftl 1 RBITS.
Definition COEFF_1 : Z := 45426.
Definition COEFF_2 : Z := 15743.
Definition COEFF_3 : Z := 3638.
Definition COEFF_4 : Z := 630.
Definition MAX_INT_EXPONENT : Z := 64.

(** A 32-byte hash. *)
Definition Hash : Type := list Z.

Record DifficultyBlock := mkDifficultyBlock {
  height : Z;
  timestamp : Z;
  target : Hash;
}.

Definition assert_weight_invariant : bool :=
  DIFFICULTY_SHORT_WEIGHT + DIFFICULTY_LONG_WEIGHT =? DIFFICULTY_WEIGHT_SCALE.

Definition max_target : Hash := replicate 32 255.
Definition min_target : Hash := [0; 0; 1] ++ replicate 29 0.

Definition target_to_u128 (t : Hash) : Z := Z.max (be_val (take 16 t)) 1.

Definition u128_to_target (value : Z) : Hash :=
  be_bytes 16 (clamp 1 u128_max value) ++ replicate 16 0.

Definition u128_max_target : Z := u128_max.

Definition safe_mul_u128 (a b : Z) : Z :=
  default u128_max (checked_mul u128_max a b).

Definition pow2_frac (x : Z) : Z :=
  let t := COEFF_3 + Z.shiftr (COEFF_4 * x) RBITS in
  let t := COEFF_2 + Z.shiftr (t * x) RBITS in
  let t := COEFF_1 + Z.shiftr (t * x) RBITS in
  RADIX + Z.shiftr (t * x) RBITS.

Definition safe_mul_shift (target frac_pow2 : Z) : Z :=
  let extra := sat_sub frac_pow2 RADIX in
  if extra =? 0 then target
  else
    let adjustment :=
      if target <=? u128_max / extra then Z.shiftr (target * extra) RBITS
      else wrap128 (Z.shiftr target RBITS * extra) in
    sat_add u128_max target adjustment.

(** [i128] exponent to integer part ([i32]) and fraction ([0..RADIX)). *)
Definition decompose_fixed_point (exponent_fp : Z) : Z * Z :=
  if 0 <=? exponent_fp then
    (clamp i32_min i32_max (Z.shiftr exponent_fp RBITS),
     Z.land exponent_fp (RADIX - 1))
  else
    let safe_exp := Z.max exponent_fp (i128_min + 1) in
    let abs_exp := - safe_exp in
    let abs_int := Z.shiftr abs_exp RBITS in
    let abs_frac := Z.land abs_exp (RADIX - 1) in
    let clamped_abs := Z.min abs_int i32_max in
    if abs_frac =? 0 then (- clamped_abs, 0)
    else
      let clamped_sub := Z.min abs_int (i32_max - 1) in
      (- clamped_sub - 1, RADIX - abs_frac).

(** [i128::checked_mul]. *)
Definition checked_mul_i128 (a b : Z) : option Z :=
  if (i128_min <=? a * b) && (a * b <=? i128_max) then Some (a * b) else None.

(** [u128::checked_shl]: [None] only when the shift amount is 128 or more;
    bits shifted out are lost. *)
Definition checked_shl_u128 (a n : Z) : option Z :=
  if n <? 128 then Some (wrap128 (Z.shiftl a n)) else None.

Definition asert_exponent (time_error halflife : Z) : Z :=
  Z.quot
    (default (if 0 <=? time_error then i128_max else i128_min)
       (checked_mul_i128 time_error RADIX))
    halflife.

(** The final shift by the integer part. *)
Definition shift_target (adjusted clamped_int : Z) : Z :=
  Z.max
    (if 0 <=? clamped_int then default u128_max (checked_shl_u128 adjusted clamped_int)
     else
       let neg := - clamped_int in
       if 128 <=? neg then 1 else Z.shiftr adjusted neg)
    1.

Definition asert_scale (current_target exponent_fp : Z) : Z :=
  let '(int_part, frac_part) := decompose_fixed_point exponent_fp in
  let clamped_int := clamp (- MAX_INT_EXPONENT) MAX_INT_EXPONENT int_part in
  let adjusted := safe_mul_shift current_target (pow2_frac frac_part) in
  shift_target adjusted clamped_int.

Definition apply_asert (current_target : Z) (anchor tip : DifficultyBlock)
    (target_time halflife : Z) : Z :=
  let height_diff := sat_sub (height tip) (height anchor) in
  if height_diff =? 0 then current_target
  else
    let time_diff := timestamp tip - timestamp anchor in
    let expected_time := height_diff * target_time in
    let time_error := time_diff - expected_time in
    let denominator := halflife in
    if denominator =? 0 then current_target
    else asert_scale current_target (asert_exponent time_error denominator).

Definition get_anchor (blocks : list DifficultyBlock) (depth : nat)
  : option DifficultyBlock :=
  blocks !! (length blocks - Nat.min depth (length blocks))%nat.

Definition needs_emergency_drop (blocks : list DifficultyBlock) (current_height : Z)
  : bool :=
  let min_history_height := EMERGENCY_DIFFICULTY_BLOCKS * 2 in
  if current_height <? min_history_height then false
  else if (length blocks <? Z.to_nat EMERGENCY_DIFFICULTY_BLOCKS)%nat then false
  else match last blocks with
  | None => false
  | Some tip =>
      let check_idx := (length blocks - Z.to_nat EMERGENCY_DIFFICULTY_BLOCKS)%nat in
      match blocks !! check_idx with
      | None => false
      | Some check_block =>
          let time_diff := sat_sub (timestamp tip) (timestamp check_block) in
          let expected := EMERGENCY_DIFFICULTY_BLOCKS * TARGET_BLOCK_TIME in
          expected * EMERGENCY_TIME_MULTIPLIER <? time_diff
      end
  end.

(** The weighted average of the two windows. *)
Definition combine_windows (short_target long_target : Z) : Z :=
  let short_weighted := safe_mul_u128 short_target DIFFICULTY_SHORT_WEIGHT in
  let long_weighted := safe_mul_u128 long_target DIFFICULTY_LONG_WEIGHT in
  sat_add u128_max short_weighted long_weighted / DIFFICULTY_WEIGHT_SCALE.

(** The clamps and the emergency drop, on the [u128] values. *)
Definition bound_target (tip_target combined : Z) (emergency : bool) : Z :=
  let max_val :=
    safe_mul_u128 tip_target MAX_DIFFICULTY_ADJ_NUM / MAX_DIFFICULTY_ADJ_DEN in
  let min_val :=
    safe_mul_u128 tip_target MIN_DIFFICULTY_ADJ_NUM / MIN_DIFFICULTY_ADJ_DEN in
  let max_t := u128_max_target / MIN_DIFFICULTY in
  let min_bound := Z.max min_val 1 in
  let max_bound := Z.max (Z.min max_val max_t) min_bound in
  let clamped := clamp min_bound max_bound combined in
  if emergency then
    let emergency_max :=
      safe_mul_u128 tip_target (MAX_DIFFICULTY_ADJ_NUM * EMERGENCY_DROP_FACTOR)
        / MAX_DIFFICULTY_ADJ_DEN in
    let emergency_target := safe_mul_u128 clamped EMERGENCY_DROP_FACTOR in
    let emer_min := Z.max min_val 1 in
    let emer_max := Z.max (Z.min emergency_max max_t) emer_min in
    clamp emer_min emer_max emergency_target
  else clamped.

Definition calculate_difficulty (blocks : list DifficultyBlock) (current_height : Z)
  : option Hash :=
  if (length blocks <? 2)%nat then Some max_target
  else match last blocks with
  | None => Some max_target
  | Some tip =>
      let tip_target := target_to_u128 (target tip) in
      short_anchor ← get_anchor blocks (Z.to_nat DIFFICULTY_SHORT_WINDOW);
      let short_target :=
        apply_asert tip_target short_anchor tip TARGET_BLOCK_TIME ASERT_HALFLIFE in
      long_anchor ← get_anchor blocks (Z.to_nat DIFFICULTY_LONG_WINDOW);
      let long_target :=
        apply_asert tip_target long_anchor tip TARGET_BLOCK_TIME ASERT_HALFLIFE in
      let combined := combine_windows short_target long_target in
      Some (u128_to_target
              (bound_target tip_target combined
                 (needs_emergency_drop blocks current_height)))
  end.

Definition target_to_difficulty (t : Hash) : Z :=
  u128_max_target / target_to_u128 t.

Definition calculate_difficulty_from_target (t : Hash) : Z := target_to_difficulty t.

(** ** Lemmas on the fixed-point arithmetic *)

Section fixed_point.
Implicit Types t x e : Z.

Lemma RADIX_eq : RADIX = 65536.
Proof. reflexivity. Qed.

Lemma shiftr_RBITS x : Z.shiftr x RBITS = x / 65536.
Proof. unfold RBITS. by rewrite Z.shiftr_div_pow2. Qed.

Lemma land_RADIX x : Z.land x (RADIX - 1) = x mod 65536.
Proof. change (RADIX - 1) with (Z.ones 16). by rewrite Z.land_ones. Qed.

(** One Horner level. *)
Lemma horner_bounds t hi x :
  0 <= t <= hi -> 0 <= x < 65536 -> 0 <= t * x / 65536 <= hi.
Proof.
  intros Ht Hx. split; [apply Z.div_pos; nia|].
  apply Z.div_le_upper_bound; nia.
Qed.

Lemma pow2_frac_range x :
  0 <= x < RADIX -> RADIX <= pow2_frac x < 2 * RADIX.
Proof.
  rewrite RADIX_eq. intros Hx. unfold pow2_frac.
  rewrite RADIX_eq, !shiftr_RBITS.
  unfold COEFF_1, COEFF_2, COEFF_3, COEFF_4.
  pose proof (horner_bounds 630 630 x ltac:(lia) Hx) as H4.
  set (a := 630 * x / 65536) in *.
  pose proof (horner_bounds (3638 + a) 4268 x ltac:(lia) Hx) as H3.
  set (b := (3638 + a) * x / 65536) in *.
  pose proof (horner_bounds (15743 + b) 20011 x ltac:(lia) Hx) as H2.
  set (c := (15743 + b) * x / 65536) in *.
  pose proof (horner_bounds (45426 + c) 65437 x ltac:(lia) Hx). lia.
Qed.

Lemma pow2_frac_mono x y :
  0 <= x -> x <= y -> pow2_frac x <= pow2_frac y.
Proof.
  intros Hx Hxy. unfold pow2_frac. rewrite !shiftr_RBITS.
  assert (step : forall s t, 0 <= s <= t -> 0 <= s * x / 65536 <= t * y / 65536).
  { intros s t Hst. split; [apply Z.div_pos; nia|apply Z.div_le_mono; nia]. }
  pose proof (step COEFF_4 COEFF_4 ltac:(unfold COEFF_4; lia)) as H4.
  pose proof (step (COEFF_3 + COEFF_4 * x / 65536) (COEFF_3 + COEFF_4 * y / 65536)
                ltac:(unfold COEFF_3; lia)) as H3.
  pose proof (step (COEFF_2 + (COEFF_3 + COEFF_4 * x / 65536) * x / 65536)
                (COEFF_2 + (COEFF_3 + COEFF_4 * y / 65536) * y / 65536)
                ltac:(unfold COEFF_2; lia)) as H2.
  apply Zplus_le_compat_l, step. unfold COEFF_1. lia.
Qed.

Lemma safe_mul_shift_bounds t p :
  is_u128 t -> RADIX <= p < 2 * RADIX ->
  t <= safe_mul_shift t p <= Z.min (2 * t) u128_max.
Proof.
  rewrite RADIX_eq. intros Ht Hp. unfold safe_mul_shift.
  rewrite RADIX_eq, !shiftr_RBITS, sat_sub_exact by lia.
  destruct (Z.eqb_spec (p - 65536) 0); [word_lia|].
  assert (Hadj : 0 <= (if t <=? u128_max / (p - 65536) then t * (p - 65536) / 65536
                  else wrap128 (t / 65536 * (p - 65536))) <= t).
  { assert (0 <= t / 65536 * (p - 65536) <= t).
    { pose proof (Z.mul_div_le t 65536 ltac:(lia)).
      pose proof (Z.div_pos t 65536). word_unfold. nia. }
    destruct (t <=? u128_max / (p - 65536)).
    - split; [apply Z.div_pos; word_unfold; nia|].
      apply Z.div_le_upper_bound; word_unfold; nia.
    - rewrite wrap128_small by word_lia. done. }
  unfold sat_add. unfold is_u128 in Ht. lia.
Qed.

Lemma decompose_frac e : 0 <= snd (decompose_fixed_point e) < RADIX.
Proof.
  unfold decompose_fixed_point. rewrite !land_RADIX, RADIX_eq.
  pose proof (Z.mod_pos_bound e 65536 ltac:(lia)).
  pose proof (Z.mod_pos_bound (- Z.max e (i128_min + 1)) 65536 ltac:(lia)).
  destruct (0 <=? e); cbn; [lia|].
  destruct (Z.eqb_spec ((- Z.max e (i128_min + 1)) mod 65536) 0); cbn; lia.
Qed.

Lemma decompose_nonneg e : 0 <= e -> 0 <= fst (decompose_fixed_point e) <= e / 65536.
Proof.
  intros He. unfold decompose_fixed_point.
  destruct (Z.leb_spec 0 e); [cbn|lia]. rewrite shiftr_RBITS.
  pose proof (Z.div_pos e 65536). word_lia.
Qed.

Lemma decompose_neg e :
  e < 0 ->
  decompose_fixed_point e = (fst (decompose_fixed_point e), 0)
    /\ fst (decompose_fixed_point e) <= 0
  \/ fst (decompose_fixed_point e) <= -1.
Proof.
  intros He. unfold decompose_fixed_point.
  destruct (Z.leb_spec 0 e); [lia|].
  rewrite shiftr_RBITS.
  set (a := - Z.max e (i128_min + 1)).
  assert (0 <= a / 65536) by (apply Z.div_pos; unfold a; word_lia).
  destruct (Z.eqb_spec (Z.land a (RADIX - 1)) 0); cbn;
    [left; split; [done|word_lia]|right; word_lia].
Qed.

(** Rounding towards zero keeps the sign of the time error. *)
Lemma asert_exponent_sign err half :
  0 < half -> (0 <= err -> 0 <= asert_exponent err half)
  /\ (err <= 0 -> asert_exponent err half <= 0).
Proof.
  intros Hh. unfold asert_exponent, checked_mul_i128. rewrite RADIX_eq.
  split; intros He.
  - apply Z.quot_pos; [|lia].
    destruct ((i128_min <=? err * 65536) && _); cbn; [lia|].
    destruct (Z.leb_spec 0 err); word_lia.
  - rewrite <- (Z.opp_involutive (Z.quot _ half)), <- Z.quot_opp_l by lia.
    enough (0 <= Z.quot (- default (if 0 <=? err then i128_max else i128_min)
      (if (i128_min <=? err * 65536) && (err * 65536 <=? i128_max)
       then Some (err * 65536) else None)) half) by lia.
    apply Z.quot_pos; [|lia].
    destruct ((i128_min <=? err * 65536) && (err * 65536 <=? i128_max)) eqn:E;
      cbn; [lia|].
    destruct (Z.leb_spec 0 err); [|word_lia].
    assert (err = 0) as -> by lia. vm_compute in E. discriminate.
Qed.

Lemma shift_target_range a c : is_u128 a -> 1 <= shift_target a c <= u128_max.
Proof.
  intros Ha. unfold shift_target. cbv zeta.
  assert (H1 : 1 <= u128_max) by (vm_compute; discriminate).
  destruct (Z.leb_spec 0 c); [|destruct (Z.leb_spec 128 (- c)); [lia|]].
  - unfold checked_shl_u128. destruct (c <? 128); cbn [from_option id]; [|lia].
    pose proof (wrap128_range (Z.shiftl a c)) as Hw. unfold is_u128 in Hw. lia.
  - rewrite Z.shiftr_div_pow2 by lia.
    assert (a / 2 ^ (- c) <= a).
    { apply Z.div_le_upper_bound; [lia|].
      assert (1 <= 2 ^ (- c)) by (apply (Z.pow_le_mono_r 2 0); lia).
      unfold is_u128 in Ha. nia. }
    unfold is_u128 in Ha. lia.
Qed.

Lemma shift_target_0 a : 1 <= a <= u128_max -> shift_target a 0 = a.
Proof.
  intros Ha. unfold shift_target, checked_shl_u128. cbn [Z.leb Z.ltb Z.compare from_option id].
  rewrite Z.shiftl_0_r, wrap128_small by (unfold is_u128; lia).
  change (0 ?= 0) with Eq. cbn. lia.
Qed.

Lemma shift_target_neg a c :
  0 <= a -> c <= -1 -> shift_target a c <= Z.max (a / 2) 1.
Proof.
  intros Ha Hc. unfold shift_target. cbv zeta.
  destruct (Z.leb_spec 0 c); [lia|]. destruct (Z.leb_spec 128 (- c)); [lia|].
  rewrite Z.shiftr_div_pow2 by lia.
  assert (a / 2 ^ (- c) <= a / 2); [|lia].
  apply Z.div_le_compat_l; [lia|]. split; [lia|].
  apply (Z.pow_le_mono_r 2 1); lia.
Qed.

(** A left shift that stays within 128 bits is exact. *)
Lemma shift_target_pos a c :
  1 <= a -> 0 <= c <= 64 -> a * 2 ^ c <= u128_max -> shift_target a c = a * 2 ^ c.
Proof.
  intros Ha Hc Hfit. unfold shift_target, checked_shl_u128.
  destruct (Z.leb_spec 0 c); [|lia]. destruct (Z.ltb_spec c 128); [|lia].
  cbn [from_option id]. rewrite Z.shiftl_mul_pow2 by lia.
  assert (1 <= 2 ^ c) by (apply (Z.pow_le_mono_r 2 0); lia).
  rewrite wrap128_small by (unfold is_u128; nia). nia.
Qed.

Lemma asert_scale_range t e : is_u128 t -> 1 <= asert_scale t e <= u128_max.
Proof.
  intros Ht. unfold asert_scale. pose proof (decompose_frac e) as Hf.
  destruct (decompose_fixed_point e) as [i f]; cbn in Hf.
  apply shift_target_range.
  pose proof (safe_mul_shift_bounds t _ Ht (pow2_frac_range f Hf)).
  unfold is_u128 in *. lia.
Qed.

Lemma asert_scale_0 t : 1 <= t <= u128_max -> asert_scale t 0 = t.
Proof.
  intros Ht. unfold asert_scale. change (decompose_fixed_point 0) with (0, 0).
  change (safe_mul_shift t (pow2_frac 0)) with t. by apply shift_target_0.
Qed.

(** A chain that is on time or ahead never gets an easier target. *)
Lemma asert_scale_nonpos t e : 1 <= t <= u128_max -> e <= 0 -> asert_scale t e <= t.
Proof.
  intros Ht He. destruct (Z.eq_dec e 0) as [->|Hne].
  { by rewrite asert_scale_0. }
  unfold asert_scale. pose proof (decompose_frac e) as Hf.
  destruct (decompose_neg e ltac:(lia)) as [[E Hi]|Hi];
    destruct (decompose_fixed_point e) as [i f]; cbn [fst snd] in *.
  - injection E as ->. change (safe_mul_shift t (pow2_frac 0)) with t.
    destruct (Z.eq_dec i 0) as [->|].
    + by rewrite shift_target_0.
    + etrans; [apply shift_target_neg; [lia|unfold MAX_INT_EXPONENT; word_lia]|].
      pose proof (Z.div_le_upper_bound t 2 t). lia.
  - pose proof (safe_mul_shift_bounds t _ ltac:(unfold is_u128; lia) (pow2_frac_range f Hf)) as Ha.
    etrans; [apply shift_target_neg; [lia|unfold MAX_INT_EXPONENT; word_lia]|].
    pose proof (Z.div_le_upper_bound (safe_mul_shift t (pow2_frac f)) 2 t). lia.
Qed.

(** A chain that is behind never gets a harder target, as long as the shifted
    target still fits in 128 bits. *)
Lemma asert_scale_nonneg t e :
  1 <= t <= u128_max -> 0 <= e < 65 * 65536 ->
  2 * t * 2 ^ (e / 65536) <= u128_max -> t <= asert_scale t e.
Proof.
  intros Ht He Hfit. unfold asert_scale.
  pose proof (decompose_frac e) as Hf. pose proof (decompose_nonneg e ltac:(lia)) as Hi.
  assert (Hd : e / 65536 <= 64) by (apply Z.lt_succ_r, Z.div_lt_upper_bound; lia).
  destruct (decompose_fixed_point e) as [i f]; cbn [fst snd] in *.
  pose proof (safe_mul_shift_bounds t _ ltac:(unfold is_u128; lia) (pow2_frac_range f Hf)) as Ha.
  rewrite clamp_id by (unfold MAX_INT_EXPONENT; lia).
  assert (1 <= 2 ^ i) by (apply (Z.pow_le_mono_r 2 0); lia).
  assert (2 ^ i <= 2 ^ (e / 65536)) by (apply Z.pow_le_mono_r; lia).
  rewrite shift_target_pos by nia. nia.
Qed.
End fixed_point.

(** ** Lemmas on the retarget *)

(** The easiest target the floor [MIN_DIFFICULTY] allows. *)
Definition target_ceiling : Z := u128_max_target / MIN_DIFFICULTY.

Section retarget.
Implicit Types t r : Z.

Lemma target_roundtrip v : 1 <= v <= u128_max -> target_to_u128 (u128_to_target v) = v.
Proof.
  intros Hv. unfold target_to_u128, u128_to_target.
  rewrite take_app_length' by by rewrite be_bytes_length.
  rewrite clamp_id, be_val_be_bytes; [lia| |done].
  change (256 ^ Z.of_nat 16) with (u128_max + 1). lia.
Qed.

Lemma u128_to_target_bytes v : Forall is_u8 (u128_to_target v).
Proof.
  unfold u128_to_target, be_bytes. apply Forall_app; split.
  - apply Forall_reverse, le_bytes_are_bytes.
  - apply Forall_replicate. word_lia.
Qed.

Lemma target_to_u128_range h : Forall is_u8 h -> 1 <= target_to_u128 h <= u128_max.
Proof.
  intros Hh. unfold target_to_u128.
  pose proof (be_val_bound (take 16 h) (Forall_take _ _ _ Hh)) as Hb.
  assert (256 ^ Z.of_nat (length (take 16 h)) <= 256 ^ 16).
  { apply Z.pow_le_mono_r; [lia|]. rewrite length_take. lia. }
  change (256 ^ 16) with (u128_max + 1) in *.
  assert (1 <= u128_max) by (vm_compute; discriminate). lia.
Qed.

Lemma safe_mul_min a b : safe_mul_u128 a b = Z.min u128_max (a * b).
Proof. unfold safe_mul_u128, checked_mul. split_if; cbn; lia. Qed.

Lemma bound_target_spec t comb em :
  1 <= t <= u128_max ->
  let lo := Z.max (t / 2) 1 in
  let r := bound_target t comb em in
  lo <= r <= Z.max (Z.min ((if em then 8 else 2) * t) target_ceiling) lo.
Proof.
  intros Ht lo r. unfold r, bound_target. rewrite !safe_mul_min.
  unfold MAX_DIFFICULTY_ADJ_NUM, MAX_DIFFICULTY_ADJ_DEN, MIN_DIFFICULTY_ADJ_NUM,
    MIN_DIFFICULTY_ADJ_DEN, EMERGENCY_DROP_FACTOR.
  rewrite !Z.div_1_r, Z.mul_1_r, (Z.min_r u128_max t) by lia. fold lo target_ceiling.
  assert (target_ceiling <= u128_max) by (vm_compute; discriminate).
  set (c := clamp lo (Z.max (Z.min (Z.min u128_max (t * 2)) target_ceiling) lo) comb).
  pose proof (clamp_bounds lo (Z.max (Z.min (Z.min u128_max (t * 2)) target_ceiling) lo)
    comb ltac:(lia)) as Hc. fold c in Hc.
  destruct em; [|lia].
  pose proof (clamp_bounds lo
    (Z.max (Z.min (Z.min u128_max (t * (2 * 4))) target_ceiling) lo)
    (Z.min u128_max (c * 4)) ltac:(lia)). lia.
Qed.

Lemma get_anchor_some blocks depth :
  blocks <> [] -> (1 <= depth)%nat -> is_Some (get_anchor blocks depth).
Proof.
  intros Hne Hd. unfold get_anchor. apply lookup_lt_is_Some_2.
  destruct blocks; [done|]. cbn [length]. lia.
Qed.

(** The retarget never indexes out of bounds; its value is [bound_target]. *)
Lemma calculate_difficulty_some blocks h tip :
  (2 <= length blocks)%nat -> last blocks = Some tip ->
  exists comb, calculate_difficulty blocks h
    = Some (u128_to_target (bound_target (target_to_u128 (target tip)) comb
              (needs_emergency_drop blocks h))).
Proof.
  intros Hl Hlast. unfold calculate_difficulty.
  destruct (Nat.ltb_spec (length blocks) 2); [lia|]. rewrite Hlast.
  assert (blocks <> []) by by destruct blocks.
  destruct (get_anchor_some blocks (Z.to_nat DIFFICULTY_SHORT_WINDOW)) as [a Ha];
    [done|vm_compute; lia|].
  destruct (get_anchor_some blocks (Z.to_nat DIFFICULTY_LONG_WINDOW)) as [b Hb];
    [done|vm_compute; lia|].
  rewrite Ha, Hb. cbn. eauto.
Qed.

Lemma combine_windows_same t :
  1 <= t <= target_ceiling -> combine_windows t t = t.
Proof.
  intros Ht. unfold combine_windows. rewrite !safe_mul_min.
  unfold DIFFICULTY_SHORT_WEIGHT, DIFFICULTY_LONG_WEIGHT, DIFFICULTY_WEIGHT_SCALE.
  assert (target_ceiling * 100 <= u128_max) by (vm_compute; discriminate).
  rewrite !Z.min_r, sat_add_exact by lia.
  replace (t * 70 + t * 30) with (t * 100) by lia. apply Z.div_mul. lia.
Qed.

Lemma bound_target_id t : 1 <= t <= target_ceiling -> bound_target t t false = t.
Proof.
  intros Ht. unfold bound_target. rewrite !safe_mul_min.
  unfold MAX_DIFFICULTY_ADJ_NUM, MAX_DIFFICULTY_ADJ_DEN, MIN_DIFFICULTY_ADJ_NUM,
    MIN_DIFFICULTY_ADJ_DEN.
  assert (target_ceiling <= u128_max) by (vm_compute; discriminate).
  rewrite !Z.div_1_r, Z.mul_1_r, (Z.min_r u128_max t) by lia. fold target_ceiling.
  pose proof (Z.div_le_upper_bound t 2 t). rewrite clamp_id; lia.
Qed.

(** A chain whose blocks are exactly [TARGET_BLOCK_TIME] apart. *)
Definition on_schedule (blocks : list DifficultyBlock) (h0 t0 : Z) : Prop :=
  forall i b, blocks !! i = Some b ->
    height b = h0 + Z.of_nat i /\ timestamp b = t0 + TARGET_BLOCK_TIME * Z.of_nat i.

Lemma apply_asert_on_schedule blocks h0 t0 i j a tip t :
  on_schedule blocks h0 t0 -> blocks !! i = Some a -> blocks !! j = Some tip ->
  (i <= j)%nat -> 1 <= t <= u128_max ->
  apply_asert t a tip TARGET_BLOCK_TIME ASERT_HALFLIFE = t.
Proof.
  intros Hs Ha Hj Hij Ht. destruct (Hs i a Ha) as [Hha Hta].
  destruct (Hs j tip Hj) as [Hhj Htj]. unfold apply_asert.
  rewrite Hha, Hta, Hhj, Htj, sat_sub_exact by lia.
  destruct (_ =? 0); [done|].
  destruct (Z.eqb_spec ASERT_HALFLIFE 0); [done|].
  replace (t0 + TARGET_BLOCK_TIME * Z.of_nat j - (t0 + TARGET_BLOCK_TIME * Z.of_nat i)
    - (h0 + Z.of_nat j - (h0 + Z.of_nat i)) * TARGET_BLOCK_TIME) with 0 by lia.
  change (asert_exponent 0 ASERT_HALFLIFE) with 0. by apply asert_scale_0.
Qed.

Lemma no_emergency_on_schedule blocks h0 t0 h :
  on_schedule blocks h0 t0 -> needs_emergency_drop blocks h = false.
Proof.
  intros Hs. unfold needs_emergency_drop.
  destruct (h <? EMERGENCY_DIFFICULTY_BLOCKS * 2); [done|].
  destruct (length blocks <? _)%nat eqn:El; [done|].
  destruct (last blocks) as [tip|] eqn:Hl; [|done].
  destruct (blocks !! (length blocks - Z.to_nat EMERGENCY_DIFFICULTY_BLOCKS)%nat)
    as [b|] eqn:Hb; [|done].
  rewrite last_lookup in Hl.
  destruct (Hs _ _ Hl) as [_ Ht]. destruct (Hs _ _ Hb) as [_ Htb].
  rewrite Ht, Htb. unfold EMERGENCY_DIFFICULTY_BLOCKS in *.
  apply Nat.ltb_ge in El. apply Z.ltb_ge.
  unfold sat_sub, TARGET_BLOCK_TIME, EMERGENCY_TIME_MULTIPLIER. lia.
Qed.

Lemma asert_exponent_exact err half :
  0 < half -> 0 <= err <= u64_max -> asert_exponent err half / 65536 = err / half.
Proof.
  intros Hh He. unfold asert_exponent, checked_mul_i128. rewrite RADIX_eq.
  assert ((i128_min <=? err * 65536) && (err * 65536 <=? i128_max) = true) as ->
    by word_lia.
  cbn [from_option id]. rewrite Z.quot_div_nonneg by lia.
  rewrite Z.div_div, Z.div_mul_cancel_r by lia. done.
Qed.
End retarget.

(** ** Properties *)

(** every retarget of a chain with at least two blocks succeeds and is a
    bounded step: the new target is at least half the old one, at most twice
    (eight times in an emergency), and a valid [u128] target. *)
Theorem retarget_bounded (blocks : list DifficultyBlock) (h : Z) (tip : DifficultyBlock) :
  (2 <= length blocks)%nat -> last blocks = Some tip -> Forall is_u8 (target tip) ->
  let t := target_to_u128 (target tip) in
  exists tgt, calculate_difficulty blocks h = Some tgt
    /\ length tgt = 32%nat
    /\ Z.max (t / 2) 1 <= target_to_u128 tgt
    /\ target_to_u128 tgt <= (if needs_emergency_drop blocks h then 8 else 2) * t
    /\ target_to_u128 tgt <= u128_max.
Proof.
  intros Hl Hlast Hb t.
  destruct (calculate_difficulty_some blocks h tip Hl Hlast) as [comb Hc].
  pose proof (target_to_u128_range _ Hb) as Ht. fold t in Hc, Ht.
  eexists; split; [exact Hc|].
  pose proof (bound_target_spec t comb (needs_emergency_drop blocks h) Ht) as Hs.
  cbv zeta in Hs.
  set (r := bound_target t comb (needs_emergency_drop blocks h)) in *.
  assert (target_ceiling <= u128_max) by (vm_compute; discriminate).
  pose proof (Z.div_le_upper_bound t 2 t).
  assert (Hr : 1 <= r <= u128_max) by (destruct (needs_emergency_drop blocks h); lia).
  rewrite target_roundtrip by done. split.
  - unfold u128_to_target. rewrite length_app, be_bytes_length. done.
  - destruct (needs_emergency_drop blocks h); lia.
Qed.

Definition two_blocks (dt : Z) : list DifficultyBlock :=
  [ mkDifficultyBlock 0 0 (u128_to_target (2 ^ 118));
    mkDifficultyBlock 1 dt (u128_to_target (2 ^ 118)) ].

Lemma retarget_bounded_witness :
  exists tgt, calculate_difficulty (two_blocks 1) 1 = Some tgt
    /\ length tgt = 32%nat /\ 2 ^ 117 <= target_to_u128 tgt.
Proof.
  destruct (retarget_bounded (two_blocks 1) 1
    (mkDifficultyBlock 1 1 (u128_to_target (2 ^ 118)))) as (tgt & H1 & H2 & H3 & _).
  - cbn; lia.
  - reflexivity.
  - apply u128_to_target_bytes.
  - exists tgt. split; [exact H1|]. split; [exact H2|].
    etransitivity; [|exact H3]. vm_compute. discriminate.
Defined.

(** the difficulty floor.  The new target respects the ceiling
    [u128::MAX / 500] exactly when the previous one was at most (about) twice
    the ceiling; in particular a chain at or below the ceiling stays there in
    both regimes, while a chain that starts above twice the ceiling is not
    brought under it in one step. *)
Theorem difficulty_floor (blocks : list DifficultyBlock) (h : Z) (tip : DifficultyBlock)
    (tgt : Hash) :
  (2 <= length blocks)%nat -> last blocks = Some tip -> Forall is_u8 (target tip) ->
  calculate_difficulty blocks h = Some tgt ->
  target_to_u128 tgt <= target_ceiling
  <-> target_to_u128 (target tip) <= 2 * target_ceiling + 1.
Proof.
  intros Hl Hlast Hb Hc.
  destruct (calculate_difficulty_some blocks h tip Hl Hlast) as [comb Hc'].
  rewrite Hc in Hc'. injection Hc' as ->.
  pose proof (target_to_u128_range _ Hb) as Ht.
  set (t := target_to_u128 (target tip)) in *.
  pose proof (bound_target_spec t comb (needs_emergency_drop blocks h) Ht) as Hs.
  cbv zeta in Hs.
  set (r := bound_target t comb (needs_emergency_drop blocks h)) in *.
  assert (1 <= target_ceiling <= u128_max) by (vm_compute; split; discriminate).
  pose proof (Z.div_mod t 2 ltac:(lia)). pose proof (Z.mod_pos_bound t 2 ltac:(lia)).
  rewrite target_roundtrip by (destruct (needs_emergency_drop blocks h); lia). lia.
Qed.

Lemma difficulty_floor_witness :
  target_to_u128 (u128_to_target (2 ^ 117)) <= target_ceiling
  <-> target_to_u128 (target (mkDifficultyBlock 1 36120 (u128_to_target (2 ^ 118))))
      <= 2 * target_ceiling + 1.
Proof.
  apply (difficulty_floor (two_blocks 36120) 1).
  - cbn; lia.
  - reflexivity.
  - apply u128_to_target_bytes.
  - vm_compute. reflexivity.
Defined.

(** stability.  When the blocks of both windows are exactly on schedule and
    the target respects the floor, the retarget returns the same target. *)
Theorem on_schedule_fixed_point (blocks : list DifficultyBlock) (h0 t0 h : Z)
    (tip : DifficultyBlock) :
  (2 <= length blocks)%nat -> last blocks = Some tip -> on_schedule blocks h0 t0 ->
  let t := target_to_u128 (target tip) in
  1 <= t <= target_ceiling ->
  calculate_difficulty blocks h = Some (u128_to_target t).
Proof.
  intros Hl Hlast Hs t Ht. unfold calculate_difficulty.
  destruct (Nat.ltb_spec (length blocks) 2); [lia|]. rewrite Hlast. fold t.
  assert (Hne : blocks <> []) by by destruct blocks.
  assert (Htu : 1 <= t <= u128_max).
  { assert (target_ceiling <= u128_max) by (vm_compute; discriminate). lia. }
  rewrite last_lookup in Hlast.
  destruct (get_anchor_some blocks (Z.to_nat DIFFICULTY_SHORT_WINDOW)) as [a Ha];
    [done|vm_compute; lia|].
  destruct (get_anchor_some blocks (Z.to_nat DIFFICULTY_LONG_WINDOW)) as [b Hb];
    [done|vm_compute; lia|].
  rewrite Ha, Hb. cbn [mbind option_bind]. unfold get_anchor in Ha, Hb.
  rewrite (no_emergency_on_schedule _ _ _ h Hs).
  pose proof (lookup_lt_Some _ _ _ Ha). pose proof (lookup_lt_Some _ _ _ Hb).
  rewrite (apply_asert_on_schedule _ _ _ _ _ a tip t Hs Ha Hlast) by (lia || done).
  rewrite (apply_asert_on_schedule _ _ _ _ _ b tip t Hs Hb Hlast) by (lia || done).
  by rewrite combine_windows_same, bound_target_id by done.
Qed.

Lemma on_schedule_fixed_point_witness :
  calculate_difficulty (two_blocks 120) 1 = Some (u128_to_target (2 ^ 118)).
Proof.
  refine (on_schedule_fixed_point (two_blocks 120) 0 0 1
    (mkDifficultyBlock 1 120 (u128_to_target (2 ^ 118))) _ _ _ _).
  - cbn; lia.
  - reflexivity.
  - intros [|[|i]] b Hb; cbn in Hb; try injection Hb as <-; try discriminate;
      split; reflexivity.
  - vm_compute. split; discriminate.
Defined.

(** direction.  A window that is on time or early never eases the target;
    a window that is late never tightens it, as long as the scaled target
    stays within 128 bits. *)
Theorem asert_direction (t : Z) (anchor tip : DifficultyBlock) :
  1 <= t <= u128_max -> height anchor < height tip ->
  let late := timestamp tip - timestamp anchor
              - (height tip - height anchor) * TARGET_BLOCK_TIME in
  let t' := apply_asert t anchor tip TARGET_BLOCK_TIME ASERT_HALFLIFE in
  1 <= t' <= u128_max
  /\ (late <= 0 -> t' <= t)
  /\ (0 <= late < 65 * ASERT_HALFLIFE ->
      2 * t * 2 ^ (late / ASERT_HALFLIFE) <= u128_max -> t <= t').
Proof.
  intros Ht Hh late t'. unfold t', apply_asert.
  rewrite sat_sub_exact by lia.
  destruct (Z.eqb_spec (height tip - height anchor) 0); [lia|].
  destruct (Z.eqb_spec ASERT_HALFLIFE 0); [done|]. fold late.
  assert (Hp : 0 < ASERT_HALFLIFE) by const_lia.
  destruct (asert_exponent_sign late ASERT_HALFLIFE Hp) as [Hpos Hneg].
  split; [apply asert_scale_range; unfold is_u128; lia|]. split.
  - intros He. apply asert_scale_nonpos; [done|auto].
  - intros He Hfit.
    assert (He64 : 0 <= late <= u64_max) by const_lia.
    pose proof (asert_exponent_exact late ASERT_HALFLIFE Hp He64) as Hx.
    apply asert_scale_nonneg; [done| |by rewrite Hx].
    specialize (Hpos ltac:(lia)).
    assert (late / ASERT_HALFLIFE <= 64) by (apply Z.lt_succ_r, Z.div_lt_upper_bound; lia).
    pose proof (Z.mul_succ_div_gt (asert_exponent late ASERT_HALFLIFE) 65536). lia.
Qed.

Lemma asert_direction_witness :
  let anchor := mkDifficultyBlock 0 0 (u128_to_target (2 ^ 100)) in
  let tip := mkDifficultyBlock 1 7320 (u128_to_target (2 ^ 100)) in
  2 ^ 100 <= apply_asert (2 ^ 100) anchor tip TARGET_BLOCK_TIME ASERT_HALFLIFE.
Proof.
  intros anchor tip.
  apply (asert_direction (2 ^ 100) anchor tip).
  - vm_compute. split; discriminate.
  - reflexivity.
  - vm_compute. split; [discriminate|reflexivity].
  - vm_compute. discriminate.
Defined.

(** the shift in [apply_asert] loses the high bits instead of saturating
    ([u128::checked_shl] only checks the shift amount).  A two-block chain
    whose tip came ten hours late gets a target of half the old one: the
    difficulty doubles where it should have eased. *)
Theorem late_block_can_harden :
  calculate_difficulty (two_blocks (120 + 10 * 3600)) 1
    = Some (u128_to_target (2 ^ 117))
  /\ apply_asert (2 ^ 118) (mkDifficultyBlock 0 0 max_target)
       (mkDifficultyBlock 1 (120 + 10 * 3600) max_target)
       TARGET_BLOCK_TIME ASERT_HALFLIFE = 1
  /\ calculate_difficulty (two_blocks (120 + 3600)) 1
    = Some (u128_to_target (2 ^ 119)).
Proof. vm_compute. repeat split; reflexivity. Qed.
