(* ===== verification/ForkSignal.v ===== *)
(** * Soft-fork signalling ([src/consensus/fork_signal.rs])

    Signal bits in the coinbase [extra] field with their codec, the deployment
    table, the [ForkSignaler] state machine, and the window count the chain
    provides ([Blockchain::count_signaling_blocks_in_window], [src/chain.rs]).
    The two components meet in the class [SignalCount]. *)

From stdpp Require Import prelude gmap strings.
From Stdlib Require Import ZArith Lia Sorted.
From S2P Require Import Prelude Constants.

Local Open Scope Z_scope.

(** ** Bits *)

Module bits.
Definition VIEW_TAGS : Z := Z.shiftl 1 0.
Definition RING_SIZE_16 : Z := Z.shiftl 1 1.
Definition FEE_MARKET_V2 : Z := Z.shiftl 1 2.
Definition HALO2_SHIELDED : Z := Z.shiftl 1 3.
Definition LELANTUS_SPARK : Z := Z.shiftl 1 4.
Definition MW_CUTTHROUGH : Z := Z.shiftl 1 5.
Definition V1_0_12_BUNDLE : Z := Z.shiftl 1 6.
Definition MUST_SET : Z := Z.shiftl 1 31.
End bits.

(** [SignalBits(pub u32)]. *)
Definition SignalBits : Type := Z.
Definition SignalBits_new (raw : Z) : SignalBits := Z.lor raw bits.MUST_SET.
Definition signals (b : SignalBits) (bit : Z) : bool := negb (Z.land b bit =? 0).
Definition raw (b : SignalBits) : Z := b.

Definition encode_coinbase_extra (height : Z) (signal_bits : SignalBits) : list Z :=
  le_bytes 8 height
  ++ (if negb (raw signal_bits =? 0) then le_bytes 4 (raw signal_bits) else []).

Definition decode_signal_bits (extra : list Z) : SignalBits :=
  if (length extra <? 12)%nat then 0
  else le_val (take 4 (drop 8 extra)).

(** ** Deployments *)

Record Deployment := mkDeployment {
  name : string;
  bit : Z;
  start_height : Z;
  timeout_height : Z;
  min_activation_height : Z;
}.

Definition DEPLOYMENTS : list Deployment := [
  mkDeployment "view-tags" bits.VIEW_TAGS 0 1000000 2016;
  mkDeployment "halo2-shielded" bits.HALO2_SHIELDED u64_max u64_max u64_max;
  mkDeployment "lelantus-spark" bits.LELANTUS_SPARK u64_max u64_max u64_max;
  mkDeployment "mw-cutthrough" bits.MW_CUTTHROUGH u64_max u64_max u64_max;
  mkDeployment "v1.0.12-bundle" bits.V1_0_12_BUNDLE u64_max u64_max u64_max
].

Inductive DeploymentState :=
| Defined
| Started (signaling_pct : Z)
| LockedIn (at_height : Z)
| Active
| Failed.

#[export] Instance DeploymentState_eq_dec : EqDecision DeploymentState.
Proof. solve_decision. Defined.

(** ** The signaler *)

Record ForkSignaler := mkForkSignaler { locked_in : gmap Z Z }.

Definition ForkSignaler_new : ForkSignaler := mkForkSignaler ∅.

Definition window_start (height : Z) : Z := height / SIGNAL_WINDOW * SIGNAL_WINDOW.
Definition next_window_start (height : Z) : Z :=
  wrap64 (window_start height + SIGNAL_WINDOW).

Section signaler.
(** [signal_count_fn(window_start, window_end, bit)]. *)
Variable signal_count_fn : Z -> Z -> Z -> Z.

Definition state (self : ForkSignaler) (deployment : Deployment) (current_height : Z)
  : DeploymentState :=
  if current_height <? start_height deployment then Defined
  else if (timeout_height deployment <=? current_height)
          && negb (bool_decide (is_Some (locked_in self !! bit deployment)))
  then Failed
  else match locked_in self !! bit deployment with
  | Some locked_at =>
      let activation := next_window_start locked_at in
      if Z.max activation (min_activation_height deployment) <=? current_height
      then Active else LockedIn activation
  | None =>
      let ws := window_start current_height in
      let count := signal_count_fn ws current_height (bit deployment) in
      let total := Z.max (sat_sub current_height ws) 1 in
      let pct := Z.min (wrap32 (wrap64 (count * 100) / total)) 100 in
      if SIGNAL_THRESHOLD <=? count then LockedIn (next_window_start current_height)
      else Started pct
  end.

Definition record_lock_in (self : ForkSignaler) (bit height : Z) : ForkSignaler :=
  mkForkSignaler (<[bit := height]> (locked_in self)).

Definition is_locked_in (s : DeploymentState) : bool :=
  match s with LockedIn _ => true | _ => false end.

Definition state_and_record (self : ForkSignaler) (deployment : Deployment)
    (current_height : Z) : ForkSignaler * DeploymentState :=
  let st := state self deployment current_height in
  if is_locked_in st
     && negb (bool_decide (is_Some (locked_in self !! bit deployment)))
  then (record_lock_in self (bit deployment) current_height, st)
  else (self, st).

(** Block processing: one query per height, in order. *)
Fixpoint drive (self : ForkSignaler) (deployment : Deployment) (heights : list Z)
  : list DeploymentState :=
  match heights with
  | [] => []
  | h :: hs =>
      let '(self', st) := state_and_record self deployment h in
      st :: drive self' deployment hs
  end.
End signaler.

(** ** The count the chain provides *)

(** What the signaler relies on: a count of blocks of the window. *)
Class SignalCount (f : Z -> Z -> Z -> Z) : Prop := {
  signal_count_nonneg s e b : 0 <= f s e b;
  signal_count_le s e b : s <= e -> f s e b <= e - s;
}.

Section chain_count.
(** [get_block_by_height(h)] then [coinbase()] then [extra]. *)
Variable coinbase_extra : Z -> option (list Z).

Fixpoint count_loop (n : nat) (h count bit : Z) : Z :=
  match n with
  | O => count
  | S n =>
      let count :=
        match coinbase_extra h with
        | None => count
        | Some extra =>
            if signals (decode_signal_bits extra) bit then sat_add u64_max count 1
            else count
        end in
      count_loop n (h + 1) count bit
  end.

Definition count_signaling_blocks_in_window (window_start window_end bit : Z) : Z :=
  if sat_sub window_end window_start =? 0 then 0
  else count_loop (Z.to_nat (window_end - window_start)) window_start 0 bit.

Lemma count_loop_bounds n h c bit :
  0 <= c -> 0 <= count_loop n h c bit <= c + Z.of_nat n.
Proof.
  revert h c. induction n as [|n IH]; intros h c Hc; cbn [count_loop]; [lia|].
  assert (u64_max = 18446744073709551615) by done.
  destruct (coinbase_extra h) as [extra|].
  - destruct (signals _ _).
    + specialize (IH (h + 1) (sat_add u64_max c 1) ltac:(word_lia)). word_lia.
    + specialize (IH (h + 1) c Hc). lia.
  - specialize (IH (h + 1) c Hc). lia.
Qed.

#[export] Instance chain_signal_count : SignalCount count_signaling_blocks_in_window.
Proof.
  split; intros; unfold count_signaling_blocks_in_window.
  - destruct (_ =? 0); [lia|]. apply count_loop_bounds. lia.
  - destruct (_ =? 0); [lia|].
    pose proof (count_loop_bounds (Z.to_nat (e - s)) s 0 b). lia.
Qed.
End chain_count.

(** ** Lemmas on the state machine *)

(** The transitions of the life cycle of a deployment. *)
Inductive legal : DeploymentState -> DeploymentState -> Prop :=
| legal_defined : legal Defined Defined
| legal_start p : legal Defined (Started p)
| legal_define_lock a : legal Defined (LockedIn a)
| legal_define_fail : legal Defined Failed
| legal_count p q : legal (Started p) (Started q)
| legal_lock p a : legal (Started p) (LockedIn a)
| legal_timeout p : legal (Started p) Failed
| legal_wait a : legal (LockedIn a) (LockedIn a)
| legal_activate a : legal (LockedIn a) Active
| legal_active : legal Active Active
| legal_failed : legal Failed Failed.

#[export] Hint Constructors legal : core.

(** What the signaler remembers when [st] was reported at height [h]. *)
Definition remembers (d : Deployment) (sg : ForkSignaler) (st : DeploymentState) (h : Z)
  : Prop :=
  match st with
  | Defined => locked_in sg !! bit d = None
  | Started _ => locked_in sg !! bit d = None /\ start_height d <= h
  | Failed => locked_in sg !! bit d = None /\ start_height d <= h /\ timeout_height d <= h
  | LockedIn a =>
      exists l, locked_in sg !! bit d = Some l /\ a = next_window_start l
                /\ start_height d <= h
  | Active =>
      exists l, locked_in sg !! bit d = Some l /\ start_height d <= h
                /\ Z.max (next_window_start l) (min_activation_height d) <= h
  end.

Section machine.
Variable f : Z -> Z -> Z -> Z.
Variable d : Deployment.

Lemma state_unlocked sg h :
  locked_in sg !! bit d = None ->
  state f sg d h =
    if h <? start_height d then Defined
    else if timeout_height d <=? h then Failed
    else if SIGNAL_THRESHOLD <=? f (window_start h) h (bit d)
    then LockedIn (next_window_start h)
    else Started (Z.min (wrap32 (wrap64 (f (window_start h) h (bit d) * 100)
                   / Z.max (sat_sub h (window_start h)) 1)) 100).
Proof.
  intros H. unfold state. rewrite H. rewrite bool_decide_eq_false_2 by by intros [].
  by rewrite andb_true_r.
Qed.

Lemma state_locked sg h l :
  locked_in sg !! bit d = Some l ->
  state f sg d h =
    if h <? start_height d then Defined
    else if Z.max (next_window_start l) (min_activation_height d) <=? h
    then Active else LockedIn (next_window_start l).
Proof.
  intros H. unfold state. rewrite H. rewrite bool_decide_eq_true_2 by eauto.
  by rewrite andb_false_r.
Qed.

Lemma step_unlocked sg h :
  locked_in sg !! bit d = None ->
  let '(sg', st) := state_and_record f sg d h in
  remembers d sg' st h /\ st <> Active
  /\ (st = Defined -> h < start_height d)
  /\ (st <> Failed -> st <> Defined -> h < timeout_height d).
Proof.
  intros H. unfold state_and_record. rewrite (state_unlocked sg h H).
  rewrite bool_decide_eq_false_2 by (rewrite H; by intros []).
  destruct (Z.ltb_spec h (start_height d)); cbn; [done|].
  destruct (Z.leb_spec (timeout_height d) h); cbn; [done|].
  destruct (SIGNAL_THRESHOLD <=? _); cbn; [|done].
  split; [|done]. exists h. rewrite lookup_insert_eq. done.
Qed.

Lemma step_locked sg h l :
  locked_in sg !! bit d = Some l -> start_height d <= h ->
  let '(sg', st) := state_and_record f sg d h in
  sg' = sg /\ remembers d sg st h
  /\ (st = LockedIn (next_window_start l) \/ st = Active)
  /\ (Z.max (next_window_start l) (min_activation_height d) <= h -> st = Active).
Proof.
  intros H Hs. unfold state_and_record. rewrite (state_locked sg h l H).
  rewrite bool_decide_eq_true_2 by (rewrite H; eauto).
  rewrite andb_false_r.
  destruct (Z.ltb_spec h (start_height d)); [lia|].
  destruct (Z.leb_spec (Z.max (next_window_start l) (min_activation_height d)) h);
    cbn; eauto 10 with lia.
Qed.

Lemma step_legal sg st h h' :
  remembers d sg st h -> h <= h' ->
  let '(sg', st') := state_and_record f sg d h' in
  legal st st' /\ remembers d sg' st' h'.
Proof.
  intros Hr Hh. destruct st as [|p|a| |]; cbn in Hr.
  - pose proof (step_unlocked sg h' Hr) as Hs.
    destruct (state_and_record f sg d h') as [sg' st'].
    destruct Hs as (Hr' & Hna & _). split; [|done]. by destruct st'; auto.
  - destruct Hr as [Hr Hst]. pose proof (step_unlocked sg h' Hr) as Hs.
    destruct (state_and_record f sg d h') as [sg' st'].
    destruct Hs as (Hr' & Hna & Hd & _). split; [|done].
    destruct st'; auto; [|done]. specialize (Hd eq_refl). lia.
  - destruct Hr as (l & Hl & -> & Hst).
    pose proof (step_locked sg h' l Hl ltac:(lia)) as Hs.
    destruct (state_and_record f sg d h') as [sg' st'].
    destruct Hs as (-> & Hr' & [->| ->] & _); auto.
  - destruct Hr as (l & Hl & Hst & Hact).
    pose proof (step_locked sg h' l Hl ltac:(lia)) as Hs.
    destruct (state_and_record f sg d h') as [sg' st'].
    destruct Hs as (-> & Hr' & _ & Ha). rewrite Ha in * by lia. auto.
  - destruct Hr as (Hr & Hst & Hto). pose proof (step_unlocked sg h' Hr) as Hs.
    destruct (state_and_record f sg d h') as [sg' st'].
    destruct Hs as (Hr' & Hna & Hd & Ht).
    destruct (decide (st' = Failed)) as [->|]; [auto|].
    destruct (decide (st' = Defined)) as [->|]; [specialize (Hd eq_refl); lia|].
    specialize (Ht ltac:(done) ltac:(done)). lia.
Qed.

Lemma drive_legal hs sg st h :
  remembers d sg st h -> Sorted Z.le (h :: hs) ->
  Sorted legal (st :: drive f sg d hs).
Proof.
  revert sg st h. induction hs as [|h' hs IH]; intros sg st h Hr Hs; cbn [drive].
  { repeat constructor. }
  inversion Hs as [|? ? Hs' Hh]; subst. inversion Hh; subst.
  pose proof (step_legal sg st h h' Hr ltac:(done)) as Hst.
  destruct (state_and_record f sg d h') as [sg' st'].
  destruct Hst as [Hleg Hr']. constructor; [by eapply IH|]. by constructor.
Qed.
End machine.

Lemma window_bounds h : 0 <= h -> window_start h <= h < window_start h + SIGNAL_WINDOW.
Proof.
  intros Hh. unfold window_start.
  pose proof (Z.div_mod h SIGNAL_WINDOW ltac:(const_lia)).
  pose proof (Z.mod_pos_bound h SIGNAL_WINDOW ltac:(const_lia)). lia.
Qed.

(** ** Properties *)

(** the coinbase codec.  Every 32-bit signal survives encoding, the height
    prefix is intact, and a zero signal gives the legacy 8-byte field. *)
Theorem coinbase_extra_roundtrip (height b : Z) :
  is_u64 height -> is_u32 b ->
  let extra := encode_coinbase_extra height b in
  decode_signal_bits extra = b
  /\ le_val (take 8 extra) = height
  /\ length extra = (if b =? 0 then 8%nat else 12%nat).
Proof.
  intros Hh Hb extra. unfold extra, encode_coinbase_extra, raw.
  assert (Hle : le_val (le_bytes 8 height) = height)
    by (apply le_val_le_bytes; word_unfold; lia).
  split; [|split].
  - unfold decode_signal_bits. rewrite length_app, le_bytes_length.
    destruct (Z.eqb_spec b 0) as [->|Hne]; cbn [negb]; [done|].
    rewrite le_bytes_length. cbn [Nat.add Nat.ltb Nat.leb].
    rewrite drop_app_length' by by rewrite le_bytes_length.
    rewrite take_ge by by rewrite le_bytes_length.
    apply le_val_le_bytes. word_unfold. lia.
  - by rewrite take_app_length' by by rewrite le_bytes_length.
  - rewrite length_app, le_bytes_length.
    destruct (Z.eqb_spec b 0); cbn [negb]; [done|]. by rewrite le_bytes_length.
Qed.

Lemma coinbase_extra_roundtrip_witness :
  let b := SignalBits_new bits.V1_0_12_BUNDLE in
  b = 0x80000040 /\ decode_signal_bits (encode_coinbase_extra 13000 b) = b.
Proof.
  split; [reflexivity|].
  apply (coinbase_extra_roundtrip 13000); word_unfold; vm_compute; split; discriminate.
Defined.

(** the life cycle.  Driving a deployment through any non-decreasing
    sequence of block heights from a fresh signaler, with any signal counts,
    only makes legal transitions: Defined, Started, LockedIn, Active in this
    order, [LockedIn] keeps its activation height, and [Active] and [Failed]
    are final. *)
Theorem deployment_life_cycle (f : Z -> Z -> Z -> Z) (d : Deployment) (hs : list Z) :
  Sorted Z.le hs -> Sorted legal (Defined :: drive f ForkSignaler_new d hs).
Proof.
  intros Hs. destruct hs as [|h hs]; [repeat constructor|].
  apply (drive_legal f d (h :: hs) ForkSignaler_new Defined h).
  - apply lookup_empty.
  - constructor; [done|]. constructor. lia.
Qed.

Lemma deployment_life_cycle_witness :
  let d := mkDeployment "view-tags" bits.VIEW_TAGS 0 1000000 2016 in
  let f := fun s e _ => e - s in
  drive f ForkSignaler_new d [100; 1900; 2015; 2016]
    = [Started 100; LockedIn 2016; LockedIn 2016; Active]
  /\ Sorted legal (Defined :: drive f ForkSignaler_new d [100; 1900; 2015; 2016]).
Proof.
  split; [vm_compute; reflexivity|].
  apply deployment_life_cycle. repeat constructor; lia.
Defined.

(** lock-in is persistent and activation is exact.  Once [state_and_record]
    has locked a deployment in at height [h], every later query, whatever the
    signal counts are then, reports [LockedIn] until the first height that is
    both in the next window and at the minimum activation height, and [Active]
    from that height on. *)
Theorem lock_in_persists (f : Z -> Z -> Z -> Z) (sg : ForkSignaler) (d : Deployment)
    (h a : Z) :
  locked_in sg !! bit d = None ->
  snd (state_and_record f sg d h) = LockedIn a ->
  forall (g : Z -> Z -> Z -> Z) (h' : Z), h <= h' ->
  state g (fst (state_and_record f sg d h)) d h'
  = if Z.max (next_window_start h) (min_activation_height d) <=? h'
    then Active else LockedIn (next_window_start h).
Proof.
  intros Hn Hs g h' Hh. unfold state_and_record in *. rewrite (state_unlocked f d sg h Hn) in *.
  rewrite bool_decide_eq_false_2 in * by (rewrite Hn; by intros []).
  destruct (Z.ltb_spec h (start_height d)); [done|].
  destruct (timeout_height d <=? h); [done|].
  destruct (SIGNAL_THRESHOLD <=? _); [|done]. cbn.
  rewrite (state_locked g d _ h' h) by apply lookup_insert_eq.
  by rewrite (proj2 (Z.ltb_ge h' (start_height d))) by lia.
Qed.

Lemma lock_in_persists_witness :
  let d := mkDeployment "view-tags" bits.VIEW_TAGS 0 1000000 2016 in
  let f := fun s e _ => e - s in
  state (fun _ _ _ => 0) (fst (state_and_record f ForkSignaler_new d 1900)) d 2000
  = LockedIn 2016.
Proof.
  intros d f. refine (lock_in_persists f ForkSignaler_new d 1900 2016 _ _ _ 2000 _).
  - reflexivity.
  - vm_compute. reflexivity.
  - lia.
Defined.

(** a fresh lock-in needs the threshold of signalling blocks in the current
    window, so it can only happen in the last 202 blocks of a window, and the
    reported percentage is never above 100.  This holds for every counting
    function that keeps the promise of [SignalCount], the chain's among them. *)
Theorem lock_in_needs_threshold (f : Z -> Z -> Z -> Z) `{SignalCount f}
    (sg : ForkSignaler) (d : Deployment) (h a : Z) :
  0 <= h -> locked_in sg !! bit d = None -> state f sg d h = LockedIn a ->
  SIGNAL_THRESHOLD <= f (window_start h) h (bit d) <= h - window_start h
  /\ h - window_start h < SIGNAL_WINDOW
  /\ a = next_window_start h.
Proof.
  intros Hh Hn Hs. rewrite (state_unlocked f d sg h Hn) in Hs.
  pose proof (window_bounds h Hh) as Hw.
  pose proof (signal_count_le (window_start h) h (bit d) ltac:(lia)).
  destruct (h <? start_height d); [done|].
  destruct (timeout_height d <=? h); [done|].
  destruct (Z.leb_spec SIGNAL_THRESHOLD (f (window_start h) h (bit d))); [|done].
  injection Hs as <-. lia.
Qed.

Lemma lock_in_needs_threshold_witness :
  let extra := fun h : Z => Some (encode_coinbase_extra h (SignalBits_new bits.VIEW_TAGS)) in
  let d := mkDeployment "view-tags" bits.VIEW_TAGS 0 1000000 2016 in
  SIGNAL_THRESHOLD
    <= count_signaling_blocks_in_window extra (window_start 1815) 1815 (bit d)
    <= 1815 - window_start 1815.
Proof.
  intros extra d.
  refine (proj1 (lock_in_needs_threshold (count_signaling_blocks_in_window extra)
    ForkSignaler_new d 1815 2016 _ _ _)).
  - lia.
  - reflexivity.
  - vm_compute. reflexivity.
Defined.

(** The deployments with [start_height = u64::MAX] are dormant: whatever is
    signalled, they stay [Defined] at every height below [u64::MAX]. *)
Theorem dormant_deployments (f : Z -> Z -> Z -> Z) (sg : ForkSignaler) (d : Deployment) (h : Z) :
  d ∈ DEPLOYMENTS -> name d <> "view-tags"%string -> h < u64_max ->
  state f sg d h = Defined.
Proof.
  intros Hd Hn Hh.
  assert (start_height d = u64_max) as Hs.
  { unfold DEPLOYMENTS in Hd. rewrite !elem_of_cons in Hd.
    destruct Hd as [->|[->|[->|[->|[->|Hd]]]]]; try done.
    by apply not_elem_of_nil in Hd. }
  unfold state. by rewrite Hs, (proj2 (Z.ltb_lt h u64_max)).
Qed.
