(* ===== verification/Block.v ===== *)
(** * Hashes, transactions, headers and blocks

    [src/primitives/hash.rs], [src/transaction/types.rs],
    [src/consensus/header.rs] and [src/consensus/block.rs]: the data every
    other component handles, the preimages fed to the hash function and the
    Merkle root.  BLAKE3 is third-party code: it is the argument [blake3] of
    the definitions below, from byte strings to byte strings, of which only
    the output length is assumed.  Cryptographic statements are collision
    reductions: equal hashes give equal values or two explicit colliding
    strings. *)

From stdpp Require Import prelude strings.
From Stdlib Require Import ZArith Lia.
From S2P Require Import Prelude Encoding Difficulty.

Local Open Scope Z_scope.

(** ** Data *)

Definition PublicKey : Type := list Z.
Definition KeyImage : Type := list Z.

Inductive TxType := Coinbase | Transfer | Churn.

#[export] Instance TxType_eq_dec : EqDecision TxType.
Proof. solve_decision. Defined.

Record RingMemberRef := mkRingMemberRef {
  rm_public_key : PublicKey;
  rm_commitment : list Z;
}.

Record ClsagSignature := mkClsagSignature {
  sig_key_image : KeyImage;
  commitment_image : list Z;
  c1 : list Z;
  responses : list (list Z);
}.

Record TxInput := mkTxInput {
  key_image : KeyImage;
  ring_members : list RingMemberRef;
  signature : ClsagSignature;
  pseudo_output_commitment : list Z;
}.

Record TxOutput := mkTxOutput {
  stealth_address : PublicKey;
  tx_public_key : PublicKey;
  commitment : list Z;
  encrypted_amount : list Z;
  view_tag : Z;
  lock_height : option Z;
  encrypted_memo : list Z;
}.

Record Transaction := mkTransaction {
  tx_version : Z;
  tx_type : TxType;
  inputs : list TxInput;
  outputs : list TxOutput;
  fee : Z;
  range_proof : list Z;
  extra : list Z;
}.

Record BlockHeader := mkBlockHeader {
  network_magic : list Z;
  version : Z;
  h_height : Z;
  h_timestamp : Z;
  prev_hash : Hash;
  tx_root : Hash;
  anchor : Hash;
  algorithm : Z;
  nonce : Z;
  h_target : Hash;
  miner_pubkey : PublicKey;
  supply_commitment : list Z;
  checkpoint_vote : option (Z * Hash);
  spark_set_root : list Z;
  mw_kernel_root : list Z;
}.

Record Block := mkBlock {
  header : BlockHeader;
  transactions : list Transaction;
}.

(** ** Transactions *)

Definition is_coinbase (tx : Transaction) : bool := bool_decide (tx_type tx = Coinbase).
Definition key_images (tx : Transaction) : list KeyImage := key_image <$> inputs tx.

Definition tx_type_u8 (t : TxType) : Z :=
  match t with Coinbase => 0 | Transfer => 1 | Churn => 2 end.

(** ASCII codes of a byte-string literal. *)
Definition ascii_bytes (s : string) : list Z :=
  (fun c => Z.of_N (Ascii.N_of_ascii c)) <$> String.list_ascii_of_string s.

Definition TX_SIGN_DOMAIN_TAG : list Z := ascii_bytes "coincync/tx-sign/v1".
Definition HEADER_HASH_DOMAIN_TAG : list Z := ascii_bytes "coincync/header/v1".

Record SigningInputView := mkSigningInputView {
  v_key_image : KeyImage;
  v_pseudo_output_commitment : list Z;
  v_ring_members : list RingMemberRef;
}.

Definition from_txinput (i : TxInput) : SigningInputView :=
  mkSigningInputView (key_image i) (pseudo_output_commitment i) (ring_members i).

Definition ring_member_bytes (m : RingMemberRef) : list Z :=
  enc_fixed (rm_public_key m) ++ enc_fixed (rm_commitment m).

Definition input_bytes (i : SigningInputView) : list Z :=
  enc_fixed (v_key_image i) ++ enc_fixed (v_pseudo_output_commitment i)
  ++ enc_vec ring_member_bytes (v_ring_members i).

Definition output_bytes (o : TxOutput) : list Z :=
  enc_fixed (stealth_address o) ++ enc_fixed (tx_public_key o)
  ++ enc_fixed (commitment o) ++ enc_bytes (encrypted_amount o)
  ++ enc_u8 (view_tag o) ++ enc_option (enc_le 8) (lock_height o)
  ++ enc_bytes (encrypted_memo o).

Definition signing_preimage (version : Z) (tx_type : TxType) (fee : Z)
    (inputs : list SigningInputView) (outputs : list TxOutput)
    (range_proof extra : list Z) : list Z :=
  TX_SIGN_DOMAIN_TAG ++ enc_u8 version ++ enc_u8 (tx_type_u8 tx_type)
  ++ enc_le 8 fee ++ enc_vec input_bytes inputs ++ enc_vec output_bytes outputs
  ++ enc_bytes range_proof ++ enc_bytes extra.

(** ** Headers *)

Definition vote_bytes (v : Z * Hash) : list Z := enc_le 8 v.1 ++ enc_fixed v.2.

Definition header_preimage (h : BlockHeader) : list Z :=
  HEADER_HASH_DOMAIN_TAG ++ enc_fixed (network_magic h) ++ enc_u8 (version h)
  ++ enc_le 8 (h_height h) ++ enc_le 8 (h_timestamp h)
  ++ enc_fixed (prev_hash h) ++ enc_fixed (tx_root h) ++ enc_fixed (anchor h)
  ++ enc_u8 (algorithm h) ++ enc_le 8 (nonce h) ++ enc_fixed (h_target h)
  ++ enc_fixed (miner_pubkey h) ++ enc_fixed (supply_commitment h)
  ++ enc_option vote_bytes (checkpoint_vote h)
  ++ enc_fixed (spark_set_root h) ++ enc_fixed (mw_kernel_root h).

(** ** Hashing *)

Definition zero_hash : Hash := replicate 32 0.

(** [Hash::meets_difficulty]: byte-wise comparison from the most significant
    byte; equality meets the target. *)
Fixpoint meets_difficulty (h target : Hash) : bool :=
  match h, target with
  | b :: h, t :: target =>
      if b <? t then true else if t <? b then false else meets_difficulty h target
  | _, _ => true
  end.

Section hashing.
Context (blake3 : list Z -> Hash).

Definition hash_concat (parts : list (list Z)) : Hash := blake3 (concat parts).

Definition compute_signing_hash version tx_type fee inputs outputs range_proof extra
  : Hash :=
  hash_concat [signing_preimage version tx_type fee inputs outputs range_proof extra].

Definition signing_hash (tx : Transaction) : Hash :=
  compute_signing_hash (tx_version tx) (tx_type tx) (fee tx)
    (from_txinput <$> inputs tx) (outputs tx) (range_proof tx) (extra tx).

Definition header_hash (h : BlockHeader) : Hash := hash_concat [header_preimage h].

Definition block_hash (b : Block) : Hash := header_hash (header b).

Definition leaf_hash (h : Hash) : Hash := hash_concat [[0]; h].
Definition node_hash (l r : Hash) : Hash := hash_concat [[1]; l; r].

(** One pass over [level.chunks(2)]; an odd last node is paired with itself. *)
Fixpoint next_level (level : list Hash) : list Hash :=
  match level with
  | [] => []
  | [a] => [node_hash a a]
  | a :: b :: rest => node_hash a b :: next_level rest
  end.

(** [while level.len() > 1]; [None] is an iteration count above the fuel. *)
Fixpoint merkle_loop (fuel : nat) (level : list Hash) : option (list Hash) :=
  if (1 <? length level)%nat then
    match fuel with
    | O => None
    | S fuel => merkle_loop fuel (next_level level)
    end
  else Some level.

Definition merkle_root (hashes : list Hash) : option Hash :=
  match hashes with
  | [] => Some zero_hash
  | [h] => Some (leaf_hash h)
  | _ =>
      level ← merkle_loop (length hashes) (leaf_hash <$> hashes);
      Some (default zero_hash (head level))
  end.

(** [Block::verify_merkle_root]; [tx_hash] is the hash of the serialised
    transaction. *)
Definition verify_merkle_root (tx_hash : Transaction -> Hash) (b : Block)
  : option bool :=
  match transactions b with
  | [] => Some (bool_decide (tx_root (header b) = zero_hash))
  | txs =>
      root ← merkle_root (tx_hash <$> txs);
      Some (bool_decide (root = tx_root (header b)))
  end.
End hashing.

(** ** Blocks *)

Definition block_height (b : Block) : Z := h_height (header b).
Definition is_genesis (b : Block) : bool := h_height (header b) =? 0.
Definition coinbase (b : Block) : option Transaction := head (transactions b).
Definition non_coinbase_transactions (b : Block) : list Transaction :=
  drop 1 (transactions b).

Definition total_fees (b : Block) : Z :=
  foldl (fun acc f => sat_add u64_max acc f) 0 (fee <$> non_coinbase_transactions b).

Definition all_key_images (b : Block) : list KeyImage :=
  concat (key_images <$> non_coinbase_transactions b).

(** [tx_size] is the length of the serialised transaction. *)
Definition block_size (tx_size : Transaction -> Z) (b : Block) : Z :=
  sat_add u64_max 200
    (foldl (fun acc s => sat_add u64_max acc s) 0 (tx_size <$> transactions b)).

(** ** Well-formed values: the array lengths and integer ranges of the types *)

Definition wf_ring_member (m : RingMemberRef) : Prop :=
  length (rm_public_key m) = 32%nat /\ length (rm_commitment m) = 32%nat.

Definition wf_view (i : SigningInputView) : Prop :=
  length (v_key_image i) = 32%nat /\ length (v_pseudo_output_commitment i) = 32%nat
  /\ fits_u32 (v_ring_members i) /\ Forall wf_ring_member (v_ring_members i).

Definition wf_output (o : TxOutput) : Prop :=
  length (stealth_address o) = 32%nat /\ length (tx_public_key o) = 32%nat
  /\ length (commitment o) = 32%nat /\ fits_u32 (encrypted_amount o)
  /\ match lock_height o with Some h => is_u64 h | None => True end
  /\ fits_u32 (encrypted_memo o).

Definition wf_transaction (tx : Transaction) : Prop :=
  is_u64 (fee tx)
  /\ fits_u32 (inputs tx) /\ Forall (fun i => wf_view (from_txinput i)) (inputs tx)
  /\ fits_u32 (outputs tx) /\ Forall wf_output (outputs tx)
  /\ fits_u32 (range_proof tx) /\ fits_u32 (extra tx).

Definition wf_header (h : BlockHeader) : Prop :=
  length (network_magic h) = 4%nat /\ is_u64 (h_height h) /\ is_u64 (h_timestamp h)
  /\ length (prev_hash h) = 32%nat /\ length (tx_root h) = 32%nat
  /\ length (anchor h) = 32%nat /\ is_u64 (nonce h) /\ length (h_target h) = 32%nat
  /\ length (miner_pubkey h) = 32%nat /\ length (supply_commitment h) = 32%nat
  /\ match checkpoint_vote h with
     | Some v => is_u64 v.1 /\ length v.2 = 32%nat | None => True end
  /\ length (spark_set_root h) = 32%nat /\ length (mw_kernel_root h) = 32%nat.

(** Two distinct strings with the same hash. *)
Definition collision (f : list Z -> Hash) : Prop := exists x y, x <> y /\ f x = f y.

(** ** Lemmas on the preimages *)

Lemma tx_type_u8_inj a b : tx_type_u8 a = tx_type_u8 b -> a = b.
Proof. by destruct a, b. Qed.

#[local] Instance ring_member_self_delim : SelfDelim wf_ring_member ring_member_bytes.
Proof.
  intros [p1 k1] [p2 k2] x y [Hp1 Hk1] [Hp2 Hk2] Heq. cbn in *.
  unfold ring_member_bytes in Heq; cbn in Heq.
  peel Heq E1. peel Heq E2. by subst.
Qed.

#[local] Instance input_self_delim : SelfDelim wf_view input_bytes.
Proof.
  intros [k1 p1 m1] [k2 p2 m2] x y (?&?&?&?) (?&?&?&?) Heq. cbn in *.
  unfold input_bytes in Heq; cbn in Heq.
  peel Heq E1. peel Heq E2. peel Heq E3. by subst.
Qed.

#[local] Instance output_self_delim : SelfDelim wf_output output_bytes.
Proof.
  intros [s1 t1 k1 a1 v1 l1 e1] [s2 t2 k2 a2 v2 l2 e2] x y
    (?&?&?&?&?&?) (?&?&?&?&?&?) Heq. cbn in *.
  unfold output_bytes in Heq; cbn in Heq.
  peel Heq E1. peel Heq E2. peel Heq E3. peel Heq E4. peel Heq E5.
  peel Heq E6. peel Heq E7. by subst.
Qed.

#[local] Instance vote_self_delim :
  SelfDelim (fun v => is_u64 v.1 /\ length v.2 = 32%nat) vote_bytes.
Proof.
  intros [h1 v1] [h2 v2] x y [? ?] [? ?] Heq. cbn in *.
  unfold vote_bytes in Heq; cbn in Heq. peel Heq E1. peel Heq E2. by subst.
Qed.

Lemma header_preimage_inj h1 h2 :
  wf_header h1 -> wf_header h2 -> header_preimage h1 = header_preimage h2 -> h1 = h2.
Proof.
  destruct h1, h2. intros (?&?&?&?&?&?&?&?&?&?&?&?&?) (?&?&?&?&?&?&?&?&?&?&?&?&?) Heq.
  unfold header_preimage in Heq. apply app_inv_head in Heq. cbn in *.
  peel Heq E1. peel Heq E2. peel Heq E3. peel Heq E4. peel Heq E5. peel Heq E6.
  peel Heq E7. peel Heq E8. peel Heq E9. peel Heq E10. peel Heq E11. peel Heq E12.
  peel Heq E13. peel Heq E14. unfold enc_fixed in Heq. by subst.
Qed.

Lemma signing_preimage_inj v1 t1 f1 i1 o1 r1 e1 v2 t2 f2 i2 o2 r2 e2 :
  is_u64 f1 -> is_u64 f2 ->
  fits_u32 i1 -> Forall wf_view i1 -> fits_u32 i2 -> Forall wf_view i2 ->
  fits_u32 o1 -> Forall wf_output o1 -> fits_u32 o2 -> Forall wf_output o2 ->
  fits_u32 r1 -> fits_u32 r2 -> fits_u32 e1 -> fits_u32 e2 ->
  signing_preimage v1 t1 f1 i1 o1 r1 e1 = signing_preimage v2 t2 f2 i2 o2 r2 e2 ->
  v1 = v2 /\ t1 = t2 /\ f1 = f2 /\ i1 = i2 /\ o1 = o2 /\ r1 = r2 /\ e1 = e2.
Proof.
  intros ?????????????? Heq. unfold signing_preimage in Heq.
  apply app_inv_head in Heq.
  peel Heq E1. peel Heq E2. apply tx_type_u8_inj in E2.
  peel Heq E3. peel Heq E4. peel Heq E5. peel Heq E6.
  apply self_delim_inj with (P := fits_u32) in Heq; [|apply _|done..].
  by subst.
Qed.

(** ** Lemmas on the Merkle tree *)

Section merkle.
Context (blake3 : list Z -> Hash).

(** Induction two elements at a time. *)
Lemma list_pair_ind {A} (P : list A -> Prop) :
  P [] -> (forall a, P [a]) -> (forall a b l, P l -> P (a :: b :: l)) -> forall l, P l.
Proof.
  intros H0 H1 H2 l. assert (P l /\ forall a, P (a :: l)) as [? _]; [|done].
  induction l as [|b l [IH1 IH2]]; split; auto.
Qed.

Lemma next_level_length l : length (next_level blake3 l) = Nat.div2 (S (length l)).
Proof. induction l as [| |a b l IH] using list_pair_ind; cbn; auto. Qed.

Lemma next_level_shorter fuel l :
  (1 < length l)%nat -> (length l <= S (S fuel))%nat ->
  (1 <= length (next_level blake3 l) <= S fuel)%nat.
Proof.
  rewrite next_level_length, Nat.div2_div.
  pose proof (Nat.div_mod_eq (S (length l)) 2).
  pose proof (Nat.mod_upper_bound (S (length l)) 2). lia.
Qed.

Lemma merkle_loop_total fuel l :
  (1 <= length l <= S fuel)%nat -> exists r, merkle_loop blake3 fuel l = Some [r].
Proof.
  revert l. induction fuel as [|fuel IH]; intros l Hl; cbn [merkle_loop];
    destruct (Nat.ltb_spec 1 (length l)); try lia;
    try (destruct l as [|a [|b l]]; cbn in *; [lia|by exists a|lia]).
  apply IH, next_level_shorter; lia.
Qed.

Lemma merkle_loop_fuel fuel fuel' l :
  (length l <= S fuel)%nat -> (fuel <= fuel')%nat ->
  merkle_loop blake3 fuel' l = merkle_loop blake3 fuel l.
Proof.
  revert fuel' l. induction fuel as [|fuel IH]; intros [|fuel'] l Hl Hf;
    cbn [merkle_loop]; destruct (Nat.ltb_spec 1 (length l)); try lia; try done.
  apply IH; [|lia]. by apply next_level_shorter.
Qed.

Lemma next_level_odd_tail l x :
  Nat.even (length l) = true ->
  next_level blake3 (l ++ [x]) = next_level blake3 (l ++ [x; x]).
Proof.
  induction l as [| |a b l IH] using list_pair_ind; intros Hl; cbn in *;
    [done|done|]. by rewrite IH.
Qed.

Lemma hash_inj x y : blake3 x = blake3 y -> x = y \/ collision blake3.
Proof. intros H. destruct (decide (x = y)); [by left|right; by exists x, y]. Qed.

Lemma leaf_hash_inj a b :
  leaf_hash blake3 a = leaf_hash blake3 b -> a = b \/ collision blake3.
Proof.
  intros H. apply hash_inj in H as [H|]; [left|by right].
  cbn in H. rewrite !app_nil_r in H. by injection H.
Qed.

Lemma leaves_inj (l1 l2 : list Hash) :
  leaf_hash blake3 <$> l1 = leaf_hash blake3 <$> l2 -> l1 = l2 \/ collision blake3.
Proof.
  revert l2. induction l1 as [|a l1 IH]; intros [|b l2] H; try discriminate H; [by left|].
  injection H as Ha Hl. apply leaf_hash_inj in Ha as [->|]; [|by right].
  apply IH in Hl as [->|]; auto.
Qed.

Context (blake3_length : forall x, length (blake3 x) = 32%nat).
Let len32 (h : Hash) : Prop := length h = 32%nat.

Lemma node_hash_inj a b c d :
  len32 a -> len32 c -> node_hash blake3 a b = node_hash blake3 c d ->
  (a = c /\ b = d) \/ collision blake3.
Proof.
  intros Ha Hc H. apply hash_inj in H as [H|]; [left|by right].
  cbn in H. rewrite !app_nil_r in H. injection H as H.
  apply app_inj_1 in H; [done|congruence].
Qed.

Lemma next_level_len32 l : Forall len32 (next_level blake3 l).
Proof.
  induction l as [| |a b l IH] using list_pair_ind; cbn; repeat constructor;
    try apply blake3_length; done.
Qed.

Lemma next_level_inj l1 l2 :
  length l1 = length l2 -> Forall len32 l1 -> Forall len32 l2 ->
  next_level blake3 l1 = next_level blake3 l2 -> l1 = l2 \/ collision blake3.
Proof.
  revert l2. induction l1 as [|a|a b l1 IH] using list_pair_ind;
    intros [|c [|d l2]] Hl H1 H2 H; try discriminate Hl; cbn in H; [by left| |].
  - injection H as H. decompose_Forall.
    apply node_hash_inj in H as [[-> _]|]; [by left|by right|done..].
  - injection H as Hn H. injection Hl as Hl. decompose_Forall.
    apply node_hash_inj in Hn as [[-> ->]|]; [|by right|done..].
    apply IH in H as [->|]; [by left|by right|done..].
Qed.

Lemma merkle_loop_inj fuel l1 l2 :
  length l1 = length l2 -> Forall len32 l1 -> Forall len32 l2 ->
  (length l1 <= S fuel)%nat ->
  merkle_loop blake3 fuel l1 = merkle_loop blake3 fuel l2 ->
  l1 = l2 \/ collision blake3.
Proof.
  revert l1 l2. induction fuel as [|fuel IH]; intros l1 l2 Hl H1 H2 Hf;
    cbn [merkle_loop]; rewrite <- Hl; destruct (Nat.ltb_spec 1 (length l1));
    try lia; intros H'; try (by left; injection H').
  apply IH in H' as [H'|]; [|by right|by rewrite !next_level_length, Hl
    |by apply next_level_len32..|by apply next_level_shorter].
  by apply next_level_inj.
Qed.
End merkle.

Lemma merkle_root_many blake3 l :
  (2 <= length l)%nat ->
  merkle_root blake3 l =
    level ← merkle_loop blake3 (length l) (leaf_hash blake3 <$> l);
    Some (default zero_hash (head level)).
Proof. destruct l as [|a [|b l]]; cbn [length]; intros; [lia|lia|done]. Qed.

Lemma merkle_loop_leaves blake3 l :
  (2 <= length l)%nat ->
  exists r, merkle_loop blake3 (length l) (leaf_hash blake3 <$> l) = Some [r].
Proof. intros Hl. apply merkle_loop_total. rewrite length_fmap. lia. Qed.

Lemma merkle_loop_step blake3 fuel l :
  (1 < length l)%nat ->
  merkle_loop blake3 (S fuel) l = merkle_loop blake3 fuel (next_level blake3 l).
Proof.
  intros Hl. cbn [merkle_loop]. destruct (Nat.ltb_spec 1 (length l)); [done|lia].
Qed.

Lemma merkle_root_odd_tail blake3 l x :
  (2 <= length l)%nat -> Nat.even (length l) = true ->
  merkle_root blake3 (l ++ [x; x]) = merkle_root blake3 (l ++ [x]).
Proof.
  intros Hl He. rewrite !merkle_root_many by (rewrite length_app; cbn; lia).
  rewrite !length_app, !fmap_app; cbn [length fmap list_fmap].
  rewrite (Nat.add_comm _ 2), (Nat.add_comm _ 1). cbn [Nat.add].
  rewrite (merkle_loop_step _ (S (length l))),
    (merkle_loop_step _ (length l) (_ ++ _))
    by (rewrite length_app, length_fmap; cbn; lia).
  change (leaf_hash blake3 <$> [x; x]) with [leaf_hash blake3 x; leaf_hash blake3 x].
  rewrite <- next_level_odd_tail by (by rewrite length_fmap).
  rewrite (merkle_loop_fuel blake3 (length l) (S (length l))); [done| |lia].
  rewrite next_level_length, length_app, !length_fmap, Nat.div2_div; cbn [length].
  pose proof (Nat.div_mod_eq (S (length l + 1)) 2). lia.
Qed.

(** ** Theorems *)

(** The block hash binds the whole header: two well-formed headers with the
    same hash are equal, field by field, or the hash function has an explicit
    collision.  No field can be changed after the proof of work is found. *)
Theorem header_hash_binds blake3 h1 h2 :
  wf_header h1 -> wf_header h2 ->
  header_hash blake3 h1 = header_hash blake3 h2 -> h1 = h2 \/ collision blake3.
Proof.
  intros H1 H2 H. unfold header_hash, hash_concat in H. cbn [concat] in H.
  rewrite !app_nil_r in H. apply hash_inj in H as [H|]; [|by right].
  left. by apply header_preimage_inj.
Qed.

(** C17: The ring-signature message binds every field of a transaction except
    the signatures: two well-formed transactions with the same signing hash
    agree on version, type, fee, key images, rings, pseudo-outputs, outputs,
    range proof and extra, or the hash function has an explicit collision. *)
Theorem signing_hash_binds blake3 tx1 tx2 :
  wf_transaction tx1 -> wf_transaction tx2 ->
  signing_hash blake3 tx1 = signing_hash blake3 tx2 ->
  (tx_version tx1 = tx_version tx2 /\ tx_type tx1 = tx_type tx2 /\ fee tx1 = fee tx2
   /\ from_txinput <$> inputs tx1 = from_txinput <$> inputs tx2
   /\ outputs tx1 = outputs tx2 /\ range_proof tx1 = range_proof tx2
   /\ extra tx1 = extra tx2)
  \/ collision blake3.
Proof.
  intros (?&?&?&?&?&?&?) (?&?&?&?&?&?&?) Heq.
  unfold signing_hash, compute_signing_hash, hash_concat in Heq.
  cbn [concat] in Heq. rewrite !app_nil_r in Heq.
  apply hash_inj in Heq as [Heq|]; [|by right]. left.
  apply signing_preimage_inj in Heq; try done; unfold fits_u32;
    rewrite ?length_fmap, ?Forall_fmap; done.
Qed.

(** The Merkle root is always computed (the pairing loop ends within
    [length hashes] passes) and binds lists of equal length: two such lists
    with the same root are equal or the hash function has an explicit
    collision. *)
Theorem merkle_root_binds blake3 l1 l2 :
  (forall x, length (blake3 x) = 32%nat) ->
  length l1 = length l2 ->
  (exists r, merkle_root blake3 l1 = Some r)
  /\ (merkle_root blake3 l1 = merkle_root blake3 l2 -> l1 = l2 \/ collision blake3).
Proof.
  intros Hb Hl. destruct (decide (length l1 <= 1)%nat) as [H1|H1].
  { destruct l1 as [|a [|]], l2 as [|b [|]]; cbn in *; try lia;
      (split; [by eexists|]); intros H; [by left|].
    injection H as H. apply leaf_hash_inj in H as [->|]; [by left|by right]. }
  rewrite !merkle_root_many by lia.
  destruct (merkle_loop_leaves blake3 l1) as [r1 E1]; [lia|].
  destruct (merkle_loop_leaves blake3 l2) as [r2 E2]; [lia|].
  rewrite E1, E2; cbn. split; [by eexists|]. intros [= ->].
  rewrite <- E2, <- Hl in E1. apply merkle_loop_inj in E1 as [E1|]; [|by right|..].
  - by apply leaves_inj in E1.
  - done.
  - by rewrite !length_fmap.
  - apply Forall_fmap, Forall_true. intros; apply Hb.
  - apply Forall_fmap, Forall_true. intros; apply Hb.
  - rewrite length_fmap. lia.
Qed.

(** Pairing an odd last node with itself leaves the Merkle root malleable
    (CVE-2012-2459): a block with an odd number, at least three, of
    transactions and the block with its last transaction repeated have the
    same Merkle check and the same block hash, for every hash function.  The
    leaf/node prefixes do not prevent it. *)
Theorem merkle_duplicate_tail blake3 tx_hash hd txs tx :
  (2 <= length txs)%nat -> Nat.even (length txs) = true ->
  let b := mkBlock hd (txs ++ [tx]) in
  let b' := mkBlock hd (txs ++ [tx; tx]) in
  verify_merkle_root blake3 tx_hash b' = verify_merkle_root blake3 tx_hash b
  /\ block_hash blake3 b' = block_hash blake3 b.
Proof.
  intros Hl He b b'. split; [|done].
  unfold verify_merkle_root; cbn [transactions b b'].
  pose proof (merkle_root_odd_tail blake3 (tx_hash <$> txs) (tx_hash tx)) as E.
  rewrite length_fmap in E. specialize (E Hl He).
  change [tx_hash tx; tx_hash tx] with (tx_hash <$> [tx; tx]) in E.
  change [tx_hash tx] with (tx_hash <$> [tx]) in E. rewrite <- !fmap_app in E.
  destruct txs as [|t0 txs]; [cbn in Hl; lia|]. cbn [app] in *. by rewrite E.
Qed.

(** ** Witnesses *)

Definition sample_header (n : Z) : BlockHeader :=
  mkBlockHeader [1; 2; 3; 4] 1 n 1000 zero_hash zero_hash zero_hash 0 7
    (replicate 32 255) (replicate 32 1) zero_hash (Some (5, zero_hash))
    zero_hash zero_hash.

(** A degenerate hash function: every string collides. *)
Definition constant_hash (_ : list Z) : Hash := zero_hash.

Lemma sample_header_wf n : is_u64 n -> wf_header (sample_header n).
Proof.
  intros Hn. unfold sample_header, wf_header; cbn.
  repeat split; try apply length_replicate; word_unfold; lia.
Qed.

Lemma header_hash_binds_witness :
  sample_header 1 = sample_header 2 \/ collision constant_hash.
Proof.
  apply header_hash_binds;
    [apply sample_header_wf; word_lia|apply sample_header_wf; word_lia|reflexivity].
Defined.

Definition sample_tx (f : Z) : Transaction :=
  mkTransaction 1 Transfer
    [mkTxInput zero_hash [mkRingMemberRef zero_hash zero_hash]
       (mkClsagSignature zero_hash zero_hash zero_hash []) zero_hash]
    [mkTxOutput zero_hash zero_hash zero_hash [1; 2] 3 (Some 9) []]
    f [] [4].

Lemma sample_tx_wf f : is_u64 f -> wf_transaction (sample_tx f).
Proof.
  assert (Hz : length zero_hash = 32%nat) by apply length_replicate.
  intros Hf. unfold wf_transaction, fits_u32. cbn.
  rewrite !Forall_singleton. unfold wf_view, wf_output, fits_u32. cbn.
  rewrite Forall_singleton. unfold wf_ring_member. cbn. word_unfold.
  repeat (split; [first [done | lia]|]); lia.
Qed.

Lemma signing_hash_binds_witness :
  (fee (sample_tx 5) = fee (sample_tx 6)) \/ collision constant_hash.
Proof.
  destruct (signing_hash_binds constant_hash (sample_tx 5) (sample_tx 6)) as [H|H];
    [apply sample_tx_wf; word_lia|apply sample_tx_wf; word_lia|reflexivity| |].
  - left. apply H.
  - right. exact H.
Defined.

Lemma merkle_root_binds_witness :
  (exists r, merkle_root constant_hash [zero_hash; zero_hash; zero_hash] = Some r).
Proof.
  apply (merkle_root_binds constant_hash
    [zero_hash; zero_hash; zero_hash] [zero_hash; zero_hash; replicate 32 1]);
    reflexivity.
Defined.

Lemma merkle_duplicate_tail_witness :
  verify_merkle_root constant_hash (fun _ => zero_hash)
    (mkBlock (sample_header 1) [sample_tx 1; sample_tx 2; sample_tx 3; sample_tx 3])
  = verify_merkle_root constant_hash (fun _ => zero_hash)
    (mkBlock (sample_header 1) [sample_tx 1; sample_tx 2; sample_tx 3]).
Proof.
  apply (merkle_duplicate_tail constant_hash (fun _ => zero_hash) (sample_header 1)
    [sample_tx 1; sample_tx 2] (sample_tx 3)); [cbn; lia|reflexivity].
Defined.
