(* ===== verification/Utxo.v ===== *)
(** * The UTXO set ([src/storage/utxos.rs])

    The in-memory state behind validation: unspent outputs, spent key images,
    the height and locator indices, the stealth-address indices and the
    lifetime counters, with the batches a block connect or disconnect applies.
    A [HashMap]/[BTreeMap] is a [gmap], a set a [gset]; the order of a
    [BTreeSet] of output keys is the lexicographic order on (hash, index).
    The on-disk output index is the finite map it stores ([db]); I/O failures
    are not modelled.  [tx_hash] (hash of the serialised transaction) is an
    argument. *)

From stdpp Require Import prelude gmap sorting.
From Stdlib Require Import ZArith Lia.
From S2P Require Import Prelude Difficulty Block.

Local Open Scope Z_scope.

(** [(tx_hash, index)] *)
Notation OutputKey := (Hash * Z)%type.

Record OutputRef := mkOutputRef {
  r_tx_hash : Hash;
  r_index : Z;
  r_output : TxOutput;
  r_height : Z;
  r_is_coinbase : bool;
}.

Record LocatorOutput := mkLocatorOutput {
  l_public_key : PublicKey;
  l_commitment : list Z;
  l_height : Z;
  l_is_coinbase : bool;
  l_lock_height : option Z;
}.

Record OutputIndexEntry := mkOutputIndexEntry {
  e_commitment : list Z;
  e_height : Z;
  e_is_coinbase : bool;
  e_lock_height : option Z;
}.

Record UtxoSet := mkUtxoSet {
  u_outputs : gmap OutputKey OutputRef;
  u_key_images : gset KeyImage;
  height_index : gmap Z (gset OutputKey);
  locator_index : gmap Z (gset OutputKey);
  locator_outputs : gmap OutputKey LocatorOutput;
  stealth_index : gmap PublicKey OutputKey;
  output_index : gmap PublicKey OutputIndexEntry;
  db : option (gmap PublicKey OutputIndexEntry);
  total_outputs_ever : Z;
  reorg_disconnects_total : Z;
}.

Definition UtxoSet_new : UtxoSet :=
  mkUtxoSet ∅ ∅ ∅ ∅ ∅ ∅ ∅ None 0 0.

(** [map.entry(h).or_insert_with(BTreeSet::new).insert(k)] *)
Definition index_insert (h : Z) (k : OutputKey) (m : gmap Z (gset OutputKey))
  : gmap Z (gset OutputKey) :=
  <[h := {[k]} ∪ default ∅ (m !! h)]> m.

(** Remove [k] from the bucket of [h], and the bucket when it becomes empty. *)
Definition index_remove (h : Z) (k : OutputKey) (m : gmap Z (gset OutputKey))
  : gmap Z (gset OutputKey) :=
  match m !! h with
  | Some s =>
      let s' := s ∖ {[k]} in
      if bool_decide (s' = ∅) then delete h m else <[h := s']> m
  | None => m
  end.

(** [map.entry(k).or_insert(v)] *)
Definition or_insert {V} (k : PublicKey) (v : V) (m : gmap PublicKey V)
  : gmap PublicKey V :=
  match m !! k with Some _ => m | None => <[k := v]> m end.

Definition add_output_ext (u : UtxoSet) (tx_hash : Hash) (index : Z)
    (output : TxOutput) (height : Z) (is_coinbase : bool) : UtxoSet :=
  let key := (tx_hash, index) in
  let addr := stealth_address output in
  mkUtxoSet
    (<[key := mkOutputRef tx_hash index output height is_coinbase]> (u_outputs u))
    (u_key_images u)
    (index_insert height key (height_index u))
    (index_insert height key (locator_index u))
    (<[key := mkLocatorOutput addr (commitment output) height is_coinbase
                (lock_height output)]> (locator_outputs u))
    (or_insert addr key (stealth_index u))
    (or_insert addr
       (mkOutputIndexEntry (commitment output) height is_coinbase (lock_height output))
       (output_index u))
    (db u)
    (wrap64 (total_outputs_ever u + 1))
    (reorg_disconnects_total u).

Definition add_output (u : UtxoSet) tx_hash index output height : UtxoSet :=
  add_output_ext u tx_hash index output height false.

Definition set_key_images (u : UtxoSet) (kis : gset KeyImage) : UtxoSet :=
  mkUtxoSet (u_outputs u) kis (height_index u) (locator_index u) (locator_outputs u)
    (stealth_index u) (output_index u) (db u) (total_outputs_ever u)
    (reorg_disconnects_total u).

Definition spend_output (u : UtxoSet) (tx_hash : Hash) (index : Z) (ki : KeyImage)
  : UtxoSet * bool :=
  if bool_decide (ki ∈ u_key_images u) then (u, false)
  else
    let kis := {[ki]} ∪ u_key_images u in
    let key := (tx_hash, index) in
    match u_outputs u !! key with
    | Some r =>
        (mkUtxoSet (delete key (u_outputs u)) kis
           (index_remove (r_height r) key (height_index u))
           (locator_index u) (locator_outputs u)
           (delete (stealth_address (r_output r)) (stealth_index u))
           (output_index u) (db u) (total_outputs_ever u)
           (reorg_disconnects_total u), true)
    | None => (set_key_images u kis, false)
    end.

Definition mark_key_image_spent (u : UtxoSet) (ki : KeyImage) : UtxoSet * bool :=
  if bool_decide (ki ∈ u_key_images u) then (u, false)
  else (set_key_images u ({[ki]} ∪ u_key_images u), true).

Definition contains_key_image (u : UtxoSet) (ki : KeyImage) : bool :=
  bool_decide (ki ∈ u_key_images u).

Definition get_output (u : UtxoSet) (tx_hash : Hash) (index : Z) : option OutputRef :=
  u_outputs u !! (tx_hash, index).

Definition get_output_by_stealth (u : UtxoSet) (addr : PublicKey) : option OutputRef :=
  key ← stealth_index u !! addr; u_outputs u !! key.

(** [OutputIndexEntry::validate] *)
Definition entry_validate (e : OutputIndexEntry) : bool :=
  match e_lock_height e with Some lh => negb (lh <? e_height e) | None => true end.

(** [OutputIndexDb::get] followed by [.ok().flatten()]: a corrupt entry reads
    as absent. *)
Definition db_get (d : gmap PublicKey OutputIndexEntry) (addr : PublicKey)
  : option OutputIndexEntry :=
  e ← d !! addr; if entry_validate e then Some e else None.

Definition get_output_index_entry (u : UtxoSet) (addr : PublicKey)
  : option OutputIndexEntry :=
  match output_index u !! addr with
  | Some e => Some e
  | None => d ← db u; db_get d addr
  end.

Definition evict_old_outputs (u : UtxoSet) (current_height keep_depth : Z) : UtxoSet :=
  if current_height <=? keep_depth then u
  else
    let cutoff := current_height - keep_depth in
    mkUtxoSet (u_outputs u) (u_key_images u) (height_index u) (locator_index u)
      (locator_outputs u) (stealth_index u)
      (filter (fun kv => cutoff <= e_height kv.2) (output_index u))
      (db u) (total_outputs_ever u) (reorg_disconnects_total u).

Definition output_count (u : UtxoSet) : nat := size (u_outputs u).

Definition remove_output (u : UtxoSet) (tx_hash : Hash) (index : Z)
  : UtxoSet * option OutputRef :=
  let key := (tx_hash, index) in
  let loc := locator_outputs u !! key in
  let out := u_outputs u !! key in
  let locator_index' :=
    match loc with
    | Some l => index_remove (l_height l) key (locator_index u)
    | None => locator_index u
    end in
  let height_index' :=
    match out with
    | Some r => index_remove (r_height r) key (height_index u)
    | None => height_index u
    end in
  let addr :=
    match out with
    | Some r => Some (stealth_address (r_output r))
    | None => l_public_key <$> loc
    end in
  let u' si oi d n :=
    mkUtxoSet (delete key (u_outputs u)) (u_key_images u) height_index'
      locator_index' (delete key (locator_outputs u)) si oi d
      (total_outputs_ever u) n in
  (match addr with
   | Some a =>
       u' (delete a (stealth_index u)) (delete a (output_index u))
         (delete a <$> db u) (sat_add u64_max (reorg_disconnects_total u) 1)
   | None =>
       u' (stealth_index u) (output_index u) (db u) (reorg_disconnects_total u)
   end, out).

Definition remove_key_image (u : UtxoSet) (ki : KeyImage) : UtxoSet * bool :=
  (set_key_images u (u_key_images u ∖ {[ki]}), bool_decide (ki ∈ u_key_images u)).

(** The availability metric the validator feeds to [effective_ring_size]. *)
Definition available_outputs (u : UtxoSet) : Z :=
  sat_sub (total_outputs_ever u) (reorg_disconnects_total u).

(** ** Batches *)

Record UtxoBatch := mkUtxoBatch {
  adds : list (Hash * Z * TxOutput * Z * bool);
  b_key_images : list KeyImage;
  removes : list (Hash * Z);
  key_image_removals : list KeyImage;
}.

Definition apply_add (u : UtxoSet) (a : Hash * Z * TxOutput * Z * bool) : UtxoSet :=
  let '(tx_hash, index, output, height, is_coinbase) := a in
  add_output_ext u tx_hash index output height is_coinbase.

Definition bump (b : bool) (n : Z) : Z := if b then n + 1 else n.

Definition apply_batch (u : UtxoSet) (b : UtxoBatch) : UtxoSet * Z :=
  let s := foldl (fun '(u, n) a => (apply_add u a, n + 1)) (u, 0) (adds b) in
  let s := foldl (fun '(u, n) ki =>
    let '(u, ok) := mark_key_image_spent u ki in (u, bump ok n)) s (b_key_images b) in
  let s := foldl (fun '(u, n) '(h, i) =>
    let '(u, o) := remove_output u h i in
    (u, bump (bool_decide (is_Some o)) n)) s (removes b) in
  foldl (fun '(u, n) ki =>
    let '(u, ok) := remove_key_image u ki in (u, bump ok n)) s (key_image_removals b).

Section blocks.
Context (tx_hash : Transaction -> Hash).

(** [idx as u8] *)
Definition as_u8 (i : nat) : Z := Z.of_nat i mod 256.

Definition tx_adds (block_height : Z) (tx : Transaction)
  : list (Hash * Z * TxOutput * Z * bool) :=
  imap (fun i o => (tx_hash tx, as_u8 i, o, block_height, is_coinbase tx)) (outputs tx).

Definition tx_spends (tx : Transaction) : list KeyImage :=
  if is_coinbase tx then [] else key_image <$> inputs tx.

Definition tx_removes (tx : Transaction) : list (Hash * Z) :=
  (fun i => (tx_hash tx, as_u8 i)) <$> seq 0 (length (outputs tx)).

Definition batch_from_block (block_height : Z) (txs : list Transaction) : UtxoBatch :=
  mkUtxoBatch (concat (tx_adds block_height <$> txs)) (concat (tx_spends <$> txs)) [] [].

Definition batch_disconnect_block (txs : list Transaction) : UtxoBatch :=
  mkUtxoBatch [] [] (concat (tx_removes <$> txs)) (concat (tx_spends <$> txs)).

(** [inner.utxos.apply_batch(batch)] with the two batches. *)
Definition connect (u : UtxoSet) (height : Z) (txs : list Transaction) : UtxoSet :=
  (apply_batch u (batch_from_block height txs)).1.

Definition disconnect (u : UtxoSet) (txs : list Transaction) : UtxoSet :=
  (apply_batch u (batch_disconnect_block txs)).1.
End blocks.

(** ** Locators *)

Fixpoint bytes_compare (a b : list Z) : comparison :=
  match a, b with
  | [], [] => Eq
  | [], _ => Lt
  | _, [] => Gt
  | x :: a, y :: b => match x ?= y with Eq => bytes_compare a b | c => c end
  end.

Definition key_le (a b : OutputKey) : Prop :=
  match bytes_compare a.1 b.1 with Lt => True | Eq => a.2 <= b.2 | Gt => False end.

#[export] Instance key_le_dec : RelDecision key_le.
Proof. intros a b. unfold key_le. destruct (bytes_compare a.1 b.1); apply _. Defined.

(** Iteration order of a [BTreeSet<OutputKey>]. *)
Definition key_list (s : gset OutputKey) : list OutputKey :=
  merge_sort key_le (elements s).

Record OutputLocator := mkOutputLocator { loc_height : Z; loc_ordinal : Z }.

#[export] Instance OutputLocator_eq_dec : EqDecision OutputLocator.
Proof. solve_decision. Defined.

Record ResolvedDecoyOutput := mkResolved {
  res_locator : OutputLocator;
  res_public_key : PublicKey;
  res_commitment : list Z;
  res_height : Z;
  res_is_coinbase : bool;
  res_lock_height : option Z;
}.

Inductive locator_error :=
| DuplicateLocator | UnknownHeight | OrdinalOutOfRange | NoCanonicalOutput.

Definition resolve_one (u : UtxoSet) (l : OutputLocator)
  : result locator_error ResolvedDecoyOutput :=
  keys ← ok_or UnknownHeight (locator_index u !! loc_height l);
  key ← ok_or OrdinalOutOfRange (key_list keys !! Z.to_nat (loc_ordinal l));
  o ← ok_or NoCanonicalOutput (locator_outputs u !! key);
  Ok (mkResolved l (l_public_key o) (l_commitment o) (l_height o)
        (l_is_coinbase o) (l_lock_height o)).

Fixpoint resolve_loop (u : UtxoSet) (seen : list OutputLocator)
    (ls : list OutputLocator) : result locator_error (list ResolvedDecoyOutput) :=
  match ls with
  | [] => Ok []
  | l :: ls =>
      if bool_decide (l ∈ seen) then Err DuplicateLocator
      else
        r ← resolve_one u l;
        rs ← resolve_loop u (l :: seen) ls;
        Ok (r :: rs)
  end.

Definition resolve_output_locators (u : UtxoSet) (ls : list OutputLocator)
  : result locator_error (list ResolvedDecoyOutput) :=
  resolve_loop u [] ls.

(** ** Index consistency *)

(** [m] is the inverse image of [o] under the height [ht], without empty
    buckets. *)
Definition idx_ok {R} (ht : R -> Z) (m : gmap Z (gset OutputKey))
    (o : gmap OutputKey R) : Prop :=
  (forall h k, k ∈ default ∅ (m !! h) <-> exists r, o !! k = Some r /\ ht r = h)
  /\ (forall h, m !! h <> Some ∅).

Record utxo_wf (u : UtxoSet) : Prop := {
  wf_heights : idx_ok r_height (height_index u) (u_outputs u);
  wf_locators : idx_ok l_height (locator_index u) (locator_outputs u);
  wf_stealth : forall a k, stealth_index u !! a = Some k ->
    exists r, u_outputs u !! k = Some r /\ stealth_address (r_output r) = a;
  wf_located : forall k r, u_outputs u !! k = Some r ->
    exists l, locator_outputs u !! k = Some l
      /\ l_height l = r_height r /\ l_public_key l = stealth_address (r_output r);
}.

Section index.
Context {R : Type} (ht : R -> Z).
Implicit Types (m : gmap Z (gset OutputKey)) (o : gmap OutputKey R).

Lemma idx_ok_unique m1 m2 o : idx_ok ht m1 o -> idx_ok ht m2 o -> m1 = m2.
Proof.
  intros [H1 E1] [H2 E2]. apply map_eq. intros h.
  assert (Hb : default ∅ (m1 !! h) = default ∅ (m2 !! h)).
  { apply set_eq. intros k. by rewrite H1, H2. }
  specialize (E1 h). specialize (E2 h).
  destruct (m1 !! h), (m2 !! h); cbn in Hb; congruence.
Qed.

Lemma bucket_insert m h k h' :
  default ∅ (index_insert h k m !! h') =
    if decide (h = h') then {[k]} ∪ default ∅ (m !! h) else default ∅ (m !! h').
Proof.
  unfold index_insert. case_decide; subst;
    by rewrite ?lookup_insert_eq, ?lookup_insert_ne.
Qed.

Lemma bucket_remove m h k h' :
  default ∅ (index_remove h k m !! h') =
    if decide (h = h') then default ∅ (m !! h) ∖ {[k]} else default ∅ (m !! h').
Proof.
  unfold index_remove. destruct (m !! h) as [s|] eqn:E.
  - cbv zeta. case_bool_decide as Hs; case_decide; subst;
      rewrite ?lookup_delete_eq, ?lookup_delete_ne, ?lookup_insert_eq,
        ?lookup_insert_ne by done; cbn; by rewrite ?Hs.
  - case_decide; subst; rewrite ?E; cbn; [set_solver|done].
Qed.

Lemma idx_ok_insert m o h k r :
  idx_ok ht m o -> o !! k = None -> ht r = h ->
  idx_ok ht (index_insert h k m) (<[k := r]> o).
Proof.
  intros [H E] Hk Hr. split.
  - intros h' k'. rewrite bucket_insert.
    destruct (decide (k = k')) as [<-|Hne].
    + rewrite lookup_insert_eq. case_decide; subst; [set_solver|].
      rewrite H, Hk. naive_solver.
    + rewrite lookup_insert_ne by done. case_decide; subst; [|apply H].
      rewrite elem_of_union, elem_of_singleton, H. naive_solver.
  - intros h'. unfold index_insert. destruct (decide (h = h')) as [<-|].
    + rewrite lookup_insert_eq. intros [=]. set_solver.
    + by rewrite lookup_insert_ne.
Qed.

Lemma idx_ok_remove m o h k r :
  idx_ok ht m o -> o !! k = Some r -> ht r = h ->
  idx_ok ht (index_remove h k m) (delete k o).
Proof.
  intros [H E] Hk Hr. split.
  - intros h' k'. rewrite bucket_remove.
    destruct (decide (k = k')) as [<-|Hne].
    + rewrite lookup_delete_eq. case_decide; subst; [set_solver|].
      rewrite H, Hk. naive_solver.
    + rewrite lookup_delete_ne by done. case_decide; subst; [|apply H].
      rewrite elem_of_difference, elem_of_singleton, H. naive_solver.
  - intros h'. unfold index_remove. destruct (m !! h) as [s|] eqn:Es; [|apply E].
    cbv zeta. case_bool_decide; destruct (decide (h = h')) as [<-|];
      rewrite ?lookup_delete_eq, ?lookup_delete_ne, ?lookup_insert_eq,
        ?lookup_insert_ne by done; try apply E; congruence.
Qed.
End index.

(** ** Every operation keeps the indices consistent *)

Lemma or_insert_lookup {V} a (v : V) m b w :
  or_insert a v m !! b = Some w ->
  m !! b = Some w \/ (m !! a = None /\ a = b /\ v = w).
Proof.
  unfold or_insert. destruct (m !! a) eqn:E; [by left|].
  destruct (decide (a = b)) as [<-|]; rewrite ?lookup_insert_eq, ?lookup_insert_ne by done;
    naive_solver.
Qed.

Lemma add_output_wf u t i o h cb :
  utxo_wf u -> locator_outputs u !! (t, i) = None ->
  utxo_wf (add_output_ext u t i o h cb).
Proof.
  intros [Hh Hl Hs Hd] Hk.
  assert (Ho : u_outputs u !! (t, i) = None).
  { destruct (u_outputs u !! (t, i)) eqn:E; [|done]. apply Hd in E as (l&El&_).
    congruence. }
  split; cbn.
  - by apply idx_ok_insert.
  - by apply idx_ok_insert.
  - intros a k Ha. apply or_insert_lookup in Ha as [Ha|(_&<-&<-)].
    + apply Hs in Ha as (r&Hr&?). exists r. by rewrite lookup_insert_ne by congruence.
    + rewrite lookup_insert_eq. by eexists.
  - intros k r. destruct (decide ((t, i) = k)) as [<-|];
      rewrite ?lookup_insert_eq, ?lookup_insert_ne by done; [|apply Hd].
    intros [= <-]. by eexists.
Qed.

Lemma set_key_images_wf u kis : utxo_wf u -> utxo_wf (set_key_images u kis).
Proof. by intros []. Qed.

Lemma mark_wf u ki : utxo_wf u -> utxo_wf (mark_key_image_spent u ki).1.
Proof. unfold mark_key_image_spent. case_bool_decide; cbn; auto using set_key_images_wf. Qed.

Lemma delete_stealth_wf u k r :
  utxo_wf u -> u_outputs u !! k = Some r ->
  forall a k', delete (stealth_address (r_output r)) (stealth_index u) !! a = Some k' ->
    exists r', delete k (u_outputs u) !! k' = Some r'
      /\ stealth_address (r_output r') = a.
Proof.
  intros [_ _ Hs _] Hk a k' Ha. apply lookup_delete_Some in Ha as [Hne Ha].
  apply Hs in Ha as (r'&Hr'&?). exists r'. rewrite lookup_delete_ne; [done|].
  congruence.
Qed.

Lemma spend_output_wf u t i ki : utxo_wf u -> utxo_wf (spend_output u t i ki).1.
Proof.
  intros H. unfold spend_output. case_bool_decide; [done|]. cbv zeta.
  destruct (u_outputs u !! (t, i)) as [r|] eqn:E; cbn; [|by apply set_key_images_wf].
  split; cbn.
  - by eapply idx_ok_remove; [apply H| |].
  - apply H.
  - by apply delete_stealth_wf.
  - intros k r' [_ Hr]%lookup_delete_Some. by apply H.
Qed.

Lemma remove_output_wf u t i : utxo_wf u -> utxo_wf (remove_output u t i).1.
Proof.
  intros H. unfold remove_output; cbv zeta; cbn [fst].
  destruct (u_outputs u !! (t, i)) as [r|] eqn:Eo.
  - destruct (wf_located _ H _ _ Eo) as (l&El&Hlh&Hlp). rewrite El. split; cbn.
    + by eapply idx_ok_remove; [apply H| |].
    + by eapply idx_ok_remove; [apply H| |].
    + by apply delete_stealth_wf.
    + intros k r' [Hne Hr]%lookup_delete_Some. rewrite lookup_delete_ne by done.
      by apply H.
  - assert (Hno : delete (t, i) (u_outputs u) = u_outputs u) by by apply delete_id.
    assert (Hs : forall a k, stealth_index u !! a = Some k ->
      exists r, u_outputs u !! k = Some r /\ stealth_address (r_output r) = a)
      by apply H.
    assert (Hd : forall k r, u_outputs u !! k = Some r -> (t, i) <> k) by congruence.
    destruct (locator_outputs u !! (t, i)) as [l|] eqn:El; cbn [fmap option_fmap option_map];
      split; cbn; rewrite ?Hno; try apply H.
    + by eapply idx_ok_remove; [apply H| |].
    + intros a k [_ Ha]%lookup_delete_Some. by apply Hs.
    + intros k r Hr. rewrite lookup_delete_ne by eauto. by apply H.
    + rewrite delete_id by done. apply H.
    + intros k r Hr. rewrite lookup_delete_ne by eauto. by apply H.
Qed.

Lemma evict_wf u c d : utxo_wf u -> utxo_wf (evict_old_outputs u c d).
Proof. intros []. unfold evict_old_outputs. by destruct (c <=? d). Qed.

Lemma new_wf : utxo_wf UtxoSet_new.
Proof.
  split; cbn; try (split; intros h); setoid_rewrite lookup_empty; cbn;
    try setoid_rewrite elem_of_empty; naive_solver.
Qed.

(** ** Folding a block's operations over the set *)

Notation add_item := (Hash * Z * TxOutput * Z * bool)%type.

Definition add_key (a : add_item) : OutputKey := (a.1.1.1.1, a.1.1.1.2).
Definition add_addr (a : add_item) : PublicKey := stealth_address a.1.1.2.
Definition add_ref (a : add_item) : OutputRef :=
  mkOutputRef a.1.1.1.1 a.1.1.1.2 a.1.1.2 a.1.2 a.2.

Definition add_all (u : UtxoSet) (l : list add_item) : UtxoSet := foldl apply_add u l.
Definition mark_all (u : UtxoSet) (l : list KeyImage) : UtxoSet :=
  foldl (fun u ki => (mark_key_image_spent u ki).1) u l.
Definition remove_all (u : UtxoSet) (l : list OutputKey) : UtxoSet :=
  foldl (fun u k => (remove_output u k.1 k.2).1) u l.
Definition unmark_all (u : UtxoSet) (l : list KeyImage) : UtxoSet :=
  foldl (fun u ki => (remove_key_image u ki).1) u l.

Lemma foldl_pair_fst {S N A} (f : S * N -> A -> S * N) (g : S -> A -> S) l s :
  (forall s a, (f s a).1 = g s.1 a) -> (foldl f s l).1 = foldl g s.1 l.
Proof.
  intros H. revert s. induction l as [|a l IH]; intros s; cbn; [done|].
  by rewrite IH, H.
Qed.

Lemma apply_batch_fst u b :
  (apply_batch u b).1 =
    unmark_all (remove_all (mark_all (add_all u (adds b)) (b_key_images b)) (removes b))
      (key_image_removals b).
Proof.
  unfold apply_batch. cbv zeta.
  rewrite (foldl_pair_fst _ (fun u ki => (remove_key_image u ki).1)) by
    by intros [] ?.
  rewrite (foldl_pair_fst _ (fun u k => (remove_output u k.1 k.2).1)) by
    by intros [] [].
  rewrite (foldl_pair_fst _ (fun u ki => (mark_key_image_spent u ki).1)) by
    (intros [] ?; cbn; by destruct (mark_key_image_spent _ _)).
  by rewrite (foldl_pair_fst _ apply_add) by by intros [] ?.
Qed.

(** The fields other than the key images; the key-image operations keep them. *)
Definition same_outputs (u u' : UtxoSet) : Prop := exists kis, u' = set_key_images u kis.

Lemma mark_all_spec u l :
  mark_all u l = set_key_images u (u_key_images u ∪ list_to_set l).
Proof.
  revert u. induction l as [|ki l IH]; intros u; cbn.
  - destruct u; unfold set_key_images; cbn. f_equal. set_solver.
  - change (mark_all (mark_key_image_spent u ki).1 l =
      set_key_images u (u_key_images u ∪ ({[ki]} ∪ list_to_set l))).
    rewrite IH. unfold mark_key_image_spent. case_bool_decide; cbn;
      unfold set_key_images; cbn; f_equal; set_solver.
Qed.

Lemma unmark_all_spec u l :
  unmark_all u l = set_key_images u (u_key_images u ∖ list_to_set l).
Proof.
  revert u. induction l as [|ki l IH]; intros u; cbn.
  - destruct u; unfold set_key_images; cbn. f_equal. set_solver.
  - change (unmark_all (remove_key_image u ki).1 l =
      set_key_images u (u_key_images u ∖ ({[ki]} ∪ list_to_set l))).
    rewrite IH. cbn. unfold set_key_images; cbn. f_equal. set_solver.
Qed.

Lemma apply_add_eq u a :
  apply_add u a = add_output_ext u (add_key a).1 (add_key a).2 a.1.1.2 a.1.2 a.2.
Proof. by destruct a as [[[[]]]]. Qed.

Lemma apply_add_outputs u a :
  u_outputs (apply_add u a) = <[add_key a := add_ref a]> (u_outputs u).
Proof. by destruct a as [[[[]]]]. Qed.

Lemma apply_add_locators u a :
  exists l, locator_outputs (apply_add u a) = <[add_key a := l]> (locator_outputs u).
Proof. destruct a as [[[[]]]]. by eexists. Qed.

(** *** Adding *)

Lemma add_all_key_images u l : u_key_images (add_all u l) = u_key_images u.
Proof.
  revert u. induction l as [|a l IH]; intros u; cbn; [done|].
  etrans; [apply IH|]. by rewrite apply_add_eq.
Qed.

Lemma add_all_wf u l :
  utxo_wf u -> NoDup (add_key <$> l) ->
  (forall a, a ∈ l -> locator_outputs u !! add_key a = None) ->
  utxo_wf (add_all u l).
Proof.
  revert u. induction l as [|a l IH]; intros u Hu Hnd Hf; cbn; [done|].
  apply NoDup_cons in Hnd as [Hn Hnd]. apply IH; [| done|].
  - rewrite apply_add_eq. apply add_output_wf; [done|].
    destruct (add_key a) eqn:E. rewrite <- E. apply Hf. set_solver.
  - intros b Hb. destruct (apply_add_locators u a) as [x ->].
    rewrite lookup_insert_ne; [apply Hf; set_solver|].
    intros Heq. apply Hn. rewrite Heq. by apply list_elem_of_fmap_2.
Qed.

(** Lookups after adding: untouched outside the keys, the added reference at
    a key. *)
Lemma add_all_outputs_ne u l k :
  k ∉ add_key <$> l -> u_outputs (add_all u l) !! k = u_outputs u !! k.
Proof.
  revert u. induction l as [|a l IH]; intros u Hk; cbn; [done|].
  apply not_elem_of_cons in Hk as [Hk1 Hk]. etrans; [by apply IH|].
  by rewrite apply_add_outputs, lookup_insert_ne.
Qed.

Lemma add_all_locators_ne u l k :
  k ∉ add_key <$> l -> locator_outputs (add_all u l) !! k = locator_outputs u !! k.
Proof.
  revert u. induction l as [|a l IH]; intros u Hk; cbn; [done|].
  apply not_elem_of_cons in Hk as [Hk1 Hk]. etrans; [by apply IH|].
  destruct (apply_add_locators u a) as [x ->]. by rewrite lookup_insert_ne.
Qed.

Lemma add_all_outputs_eq u l a :
  NoDup (add_key <$> l) -> a ∈ l -> u_outputs (add_all u l) !! add_key a = Some (add_ref a).
Proof.
  revert u. induction l as [|b l IH]; intros u Hnd Ha; [set_solver|]; cbn.
  apply NoDup_cons in Hnd as [Hn Hnd].
  apply elem_of_cons in Ha as [->|Ha]; [|by apply IH].
  etrans; [by apply add_all_outputs_ne|].
  by rewrite apply_add_outputs, lookup_insert_eq.
Qed.

Lemma add_all_counters u l :
  0 <= total_outputs_ever u -> total_outputs_ever u + Z.of_nat (length l) <= u64_max ->
  total_outputs_ever (add_all u l) = total_outputs_ever u + Z.of_nat (length l)
  /\ reorg_disconnects_total (add_all u l) = reorg_disconnects_total u
  /\ db (add_all u l) = db u.
Proof.
  revert u. induction l as [|a l IH]; intros u H0 Hm; cbn [length foldl add_all] in *;
    [repeat split; lia|].
  change (foldl apply_add (apply_add u a) l) with (add_all (apply_add u a) l).
  assert (E : total_outputs_ever (apply_add u a) = total_outputs_ever u + 1).
  { rewrite apply_add_eq; cbn. apply wrap64_small. word_unfold; lia. }
  destruct (IH (apply_add u a)) as (E1&E2&E3); rewrite ?E; [lia..|].
  rewrite E1, E2, E3, E. rewrite apply_add_eq; cbn. repeat split. lia.
Qed.

Lemma add_all_indices_ne u l a :
  a ∉ add_addr <$> l ->
  stealth_index (add_all u l) !! a = stealth_index u !! a
  /\ output_index (add_all u l) !! a = output_index u !! a.
Proof.
  revert u. induction l as [|b l IH]; intros u Ha; cbn; [done|].
  apply not_elem_of_cons in Ha as [Hb Ha].
  change (foldl apply_add (apply_add u b) l) with (add_all (apply_add u b) l).
  destruct (IH (apply_add u b)) as [-> ->]; [done|].
  rewrite apply_add_eq; cbn. unfold or_insert.
  split; repeat case_match; rewrite ?lookup_insert_ne by done; done.
Qed.

(** *** Removing *)

Lemma remove_output_core u (k : OutputKey) :
  let u' := (remove_output u k.1 k.2).1 in
  u_outputs u' = delete k (u_outputs u)
  /\ locator_outputs u' = delete k (locator_outputs u)
  /\ u_key_images u' = u_key_images u
  /\ total_outputs_ever u' = total_outputs_ever u.
Proof.
  destruct k as [t i]; unfold remove_output; cbv zeta; cbn.
  destruct (u_outputs u !! (t, i)); [done|]; by destruct (locator_outputs u !! (t, i)).
Qed.

Lemma remove_output_indices u (k : OutputKey) r :
  u_outputs u !! k = Some r ->
  let u' := (remove_output u k.1 k.2).1 in
  let a := stealth_address (r_output r) in
  stealth_index u' = delete a (stealth_index u)
  /\ output_index u' = delete a (output_index u)
  /\ db u' = delete a <$> db u
  /\ reorg_disconnects_total u' = sat_add u64_max (reorg_disconnects_total u) 1.
Proof.
  destruct k as [t i]; intros H; unfold remove_output; cbv zeta; cbn.
  by rewrite H.
Qed.

Lemma remove_output_keeps u b l :
  add_key b ∉ add_key <$> l ->
  (forall c, c ∈ b :: l -> u_outputs u !! add_key c = Some (add_ref c)) ->
  forall c, c ∈ l ->
    u_outputs (remove_output u (add_key b).1 (add_key b).2).1 !! add_key c
      = Some (add_ref c).
Proof.
  intros Hn Hl c Hc. destruct (remove_output_core u (add_key b)) as [F _].
  rewrite F, lookup_delete_ne; [apply Hl; set_solver|].
  intros Heq. apply Hn. rewrite Heq. by apply list_elem_of_fmap_2.
Qed.

Lemma remove_all_cons u k l :
  remove_all u (k :: l) = remove_all (remove_output u k.1 k.2).1 l.
Proof. done. Qed.

Lemma remove_all_wf u l : utxo_wf u -> utxo_wf (remove_all u l).
Proof.
  revert u. induction l as [|k l IH]; intros u Hu; [done|].
  apply IH. by apply remove_output_wf.
Qed.

Lemma remove_all_core u l k :
  u_outputs (remove_all u l) !! k =
    (if bool_decide (k ∈ l) then None else u_outputs u !! k)
  /\ locator_outputs (remove_all u l) !! k =
    (if bool_decide (k ∈ l) then None else locator_outputs u !! k)
  /\ u_key_images (remove_all u l) = u_key_images u
  /\ total_outputs_ever (remove_all u l) = total_outputs_ever u.
Proof.
  revert u. induction l as [|k' l IH]; intros u; [done|].
  rewrite remove_all_cons.
  destruct (IH (remove_output u k'.1 k'.2).1) as (E1&E2&E3&E4).
  destruct (remove_output_core u k') as (F1&F2&F3&F4).
  rewrite E1, E2, E3, E4, F1, F2, F3, F4. clear.
  destruct (decide (k = k')) as [->|Hne].
  - rewrite !lookup_delete_eq. repeat case_bool_decide; set_solver.
  - rewrite !lookup_delete_ne by done. repeat case_bool_decide; set_solver.
Qed.

Lemma remove_all_indices u l a :
  NoDup (add_key <$> l) ->
  (forall b, b ∈ l -> u_outputs u !! add_key b = Some (add_ref b)) ->
  let u' := remove_all u (add_key <$> l) in
  let out {V} (x : option V) := if bool_decide (a ∈ add_addr <$> l) then None else x in
  stealth_index u' !! a = out (stealth_index u !! a)
  /\ output_index u' !! a = out (output_index u !! a)
  /\ (d ← db u'; d !! a) = out (d ← db u; d !! a)
  /\ (is_Some (db u') <-> is_Some (db u)).
Proof.
  revert u. induction l as [|b l IH]; intros u Hnd Hl; [done|].
  apply NoDup_cons in Hnd as [Hn Hnd]. cbv zeta. cbn [fmap list_fmap].
  rewrite remove_all_cons.
  destruct (remove_output_indices u (add_key b) (add_ref b)) as (F1&F2&F3&_);
    [apply Hl; set_solver|].
  set (u1 := (remove_output u (add_key b).1 (add_key b).2).1) in *.
  destruct (IH u1) as (E1&E2&E3&E4); [done|by apply remove_output_keeps|].
  rewrite E1, E2, E3, E4, F1, F2, F3. change (stealth_address (r_output (add_ref b)))
    with (add_addr b). clear.
  destruct (decide (a = add_addr b)) as [->|Hne].
  - rewrite !lookup_delete_eq.
    rewrite (bool_decide_eq_true_2 (add_addr b ∈ add_addr b :: _)) by set_solver.
    destruct (db u); cbn; rewrite ?lookup_delete_eq; repeat split;
      repeat case_bool_decide; try done; intros []; done.
  - rewrite !lookup_delete_ne by done.
    rewrite (bool_decide_ext (a ∈ add_addr b :: _) (a ∈ add_addr <$> l)) by set_solver.
    destruct (db u); cbn; rewrite ?lookup_delete_ne by done; repeat split;
      try done; intros []; done.
Qed.

Lemma remove_all_counter u l :
  NoDup (add_key <$> l) ->
  (forall b, b ∈ l -> u_outputs u !! add_key b = Some (add_ref b)) ->
  0 <= reorg_disconnects_total u ->
  reorg_disconnects_total u + Z.of_nat (length l) <= u64_max ->
  reorg_disconnects_total (remove_all u (add_key <$> l)) =
    reorg_disconnects_total u + Z.of_nat (length l).
Proof.
  revert u. induction l as [|b l IH]; intros u Hnd Hl H0 Hm; cbn [length] in *;
    [cbn; lia|].
  apply NoDup_cons in Hnd as [Hn Hnd]. cbn [fmap list_fmap]. rewrite remove_all_cons.
  destruct (remove_output_indices u (add_key b) (add_ref b)) as (_&_&_&F);
    [apply Hl; set_solver|]. rewrite sat_add_exact in F by lia.
  rewrite IH; [rewrite F; lia|done|by apply remove_output_keeps|rewrite F; lia..].
Qed.

(** ** Connecting and disconnecting a block *)

Section reorg.
Context (tx_hash : Transaction -> Hash).
Implicit Types (u : UtxoSet) (h : Z) (txs : list Transaction).

Definition block_adds h txs : list add_item := concat (tx_adds tx_hash h <$> txs).
Definition block_spends txs : list KeyImage := concat (tx_spends <$> txs).
Definition block_addrs h txs : list PublicKey := add_addr <$> block_adds h txs.

(** What validation has checked of a block about to be connected: its outputs
    have fresh, distinct keys and its key images are unspent; the lifetime
    counters do not reach [u64::MAX]. *)
Record fresh_block u h txs : Prop := {
  fresh_keys : NoDup (add_key <$> block_adds h txs);
  fresh_locators : forall a, a ∈ block_adds h txs -> locator_outputs u !! add_key a = None;
  fresh_spends : forall ki, ki ∈ block_spends txs -> ki ∉ u_key_images u;
  fresh_counters : 0 <= reorg_disconnects_total u <= total_outputs_ever u;
  fresh_room : total_outputs_ever u + Z.of_nat (length (block_adds h txs)) <= u64_max;
}.

Lemma tx_removes_keys h tx : tx_removes tx_hash tx = add_key <$> tx_adds tx_hash h tx.
Proof.
  unfold tx_removes, tx_adds. apply list_eq. intros i.
  rewrite !list_lookup_fmap, list_lookup_imap.
  destruct (decide (i < length (outputs tx))%nat) as [Hi|Hi].
  - rewrite lookup_seq_lt by done.
    destruct (lookup_lt_is_Some_2 (outputs tx) i Hi) as [o ->]. done.
  - rewrite lookup_seq_ge, (lookup_ge_None_2 (outputs tx)) by lia. done.
Qed.

Lemma block_removes_keys h txs :
  concat (tx_removes tx_hash <$> txs) = add_key <$> block_adds h txs.
Proof.
  unfold block_adds. induction txs as [|tx txs IH]; cbn; [done|].
  by rewrite fmap_app, <- tx_removes_keys, IH.
Qed.

Lemma connect_eq u h txs :
  connect tx_hash u h txs =
    let u1 := add_all u (block_adds h txs) in
    set_key_images u1 (u_key_images u ∪ list_to_set (block_spends txs)).
Proof.
  unfold connect. rewrite apply_batch_fst; cbn.
  by rewrite mark_all_spec, add_all_key_images.
Qed.

Lemma disconnect_eq u h txs :
  disconnect tx_hash u txs =
    let u1 := remove_all u (add_key <$> block_adds h txs) in
    set_key_images u1 (u_key_images u1 ∖ list_to_set (block_spends txs)).
Proof.
  unfold disconnect. rewrite apply_batch_fst; cbn.
  by rewrite unmark_all_spec, (block_removes_keys h).
Qed.

Lemma connect_wf u h txs :
  utxo_wf u -> fresh_block u h txs -> utxo_wf (connect tx_hash u h txs).
Proof.
  intros Hu [Hk Hl _ _ _]. rewrite connect_eq. apply set_key_images_wf.
  by apply add_all_wf.
Qed.

Lemma disconnect_wf u txs : utxo_wf u -> utxo_wf (disconnect tx_hash u txs).
Proof.
  intros Hu. rewrite (disconnect_eq u 0). by apply set_key_images_wf, remove_all_wf.
Qed.

(** The state after a connect and a disconnect, before the key images. *)
Lemma connected_outputs u h txs a :
  fresh_block u h txs -> a ∈ block_adds h txs ->
  u_outputs (connect tx_hash u h txs) !! add_key a = Some (add_ref a).
Proof. intros [Hk _ _ _ _] Ha. rewrite connect_eq. by apply add_all_outputs_eq. Qed.

Lemma reorg_outputs u h txs :
  utxo_wf u -> fresh_block u h txs ->
  let u' := disconnect tx_hash (connect tx_hash u h txs) txs in
  u_outputs u' = u_outputs u /\ locator_outputs u' = locator_outputs u
  /\ u_key_images u' = u_key_images u.
Proof.
  intros Hu [Hk Hl Hs _ _]. cbv zeta. rewrite (disconnect_eq _ h), connect_eq.
  cbv zeta. cbn [u_outputs locator_outputs u_key_images set_key_images].
  split; [|split].
  - apply map_eq. intros k.
    destruct (remove_all_core (set_key_images (add_all u (block_adds h txs))
      (u_key_images u ∪ list_to_set (block_spends txs))) (add_key <$> block_adds h txs) k)
      as [-> _]. cbn. case_bool_decide as Hin.
    + apply list_elem_of_fmap in Hin as (a&->&Ha).
      destruct (u_outputs u !! add_key a) eqn:E; [|done].
      apply (wf_located _ Hu) in E as (l&El&_). by rewrite Hl in El.
    + by apply add_all_outputs_ne.
  - apply map_eq. intros k.
    destruct (remove_all_core (set_key_images (add_all u (block_adds h txs))
      (u_key_images u ∪ list_to_set (block_spends txs))) (add_key <$> block_adds h txs) k)
      as (_&->&_). cbn. case_bool_decide as Hin.
    + apply list_elem_of_fmap in Hin as (a&->&Ha). by rewrite Hl.
    + by apply add_all_locators_ne.
  - match goal with |- u_key_images (remove_all ?v ?l) ∖ _ = _ =>
      destruct (remove_all_core v l (inhabitant, 0)) as (_&_&->&_) end. cbn. set_solver.
Qed.

Lemma reorg_indices u h txs a :
  fresh_block u h txs ->
  let u' := disconnect tx_hash (connect tx_hash u h txs) txs in
  let out {V} (x : option V) := if bool_decide (a ∈ block_addrs h txs) then None else x in
  stealth_index u' !! a = out (stealth_index u !! a)
  /\ output_index u' !! a = out (output_index u !! a)
  /\ (d ← db u'; d !! a) = out (d ← db u; d !! a).
Proof.
  intros Hf. pose proof (fresh_room _ _ _ Hf). pose proof (fresh_counters _ _ _ Hf).
  cbv zeta. rewrite (disconnect_eq _ h). cbv zeta.
  destruct (remove_all_indices (connect tx_hash u h txs) (block_adds h txs) a)
    as (E1&E2&E3&_); [apply Hf|intros; by apply connected_outputs|].
  cbn [stealth_index output_index db set_key_images].
  rewrite E1, E2, E3, connect_eq. cbv zeta.
  cbn [stealth_index output_index db set_key_images]. unfold block_addrs.
  destruct (add_all_counters u (block_adds h txs)) as (_&_&->); [lia..|].
  case_bool_decide as Ha; [done|].
  by destruct (add_all_indices_ne u (block_adds h txs) a Ha) as [-> ->].
Qed.

Lemma reorg_counters u h txs :
  fresh_block u h txs ->
  let u' := disconnect tx_hash (connect tx_hash u h txs) txs in
  let n := Z.of_nat (length (block_adds h txs)) in
  total_outputs_ever u' = total_outputs_ever u + n
  /\ reorg_disconnects_total u' = reorg_disconnects_total u + n.
Proof.
  intros Hf. pose proof (fresh_room _ _ _ Hf). pose proof (fresh_counters _ _ _ Hf).
  cbv zeta. rewrite (disconnect_eq _ h). cbv zeta. cbn.
  destruct (remove_all_core (connect tx_hash u h txs) (add_key <$> block_adds h txs)
    (inhabitant, 0)) as (_&_&_&->).
  destruct (add_all_counters u (block_adds h txs)) as (E1&E2&_); [lia..|].
  assert (E3 : reorg_disconnects_total (connect tx_hash u h txs)
    = reorg_disconnects_total u) by by rewrite connect_eq.
  rewrite remove_all_counter; rewrite ?E3; [|apply Hf|
    intros; by apply connected_outputs|lia..].
  by rewrite connect_eq.
Qed.
End reorg.

(** ** Reachable states *)

(** Every operation that changes the set, with what its callers guarantee. *)
Inductive reachable (tx_hash : Transaction -> Hash) : UtxoSet -> Prop :=
| reach_new : reachable tx_hash UtxoSet_new
| reach_add u t i o h cb :
    reachable tx_hash u -> locator_outputs u !! (t, i) = None ->
    reachable tx_hash (add_output_ext u t i o h cb)
| reach_spend u t i ki :
    reachable tx_hash u -> reachable tx_hash (spend_output u t i ki).1
| reach_mark u ki :
    reachable tx_hash u -> reachable tx_hash (mark_key_image_spent u ki).1
| reach_remove u t i :
    reachable tx_hash u -> reachable tx_hash (remove_output u t i).1
| reach_unmark u ki :
    reachable tx_hash u -> reachable tx_hash (remove_key_image u ki).1
| reach_evict u c d :
    reachable tx_hash u -> reachable tx_hash (evict_old_outputs u c d)
| reach_connect u h txs :
    reachable tx_hash u -> fresh_block tx_hash u h txs ->
    reachable tx_hash (connect tx_hash u h txs)
| reach_disconnect u txs :
    reachable tx_hash u -> reachable tx_hash (disconnect tx_hash u txs).

Create HintDb utxo.
#[local] Hint Resolve new_wf add_output_wf spend_output_wf mark_wf remove_output_wf
  set_key_images_wf evict_wf connect_wf disconnect_wf : utxo.

Lemma reachable_wf tx_hash u : reachable tx_hash u -> utxo_wf u.
Proof. induction 1; unfold remove_key_image; cbn [fst]; eauto with utxo. Qed.

Lemma db_get_bind (o : option (gmap PublicKey OutputIndexEntry)) a :
  (d ← o; db_get d a) =
    e ← (d ← o; d !! a); if entry_validate e then Some e else None.
Proof. by destruct o. Qed.

(** ** Theorems *)

(** In every reachable UTXO set the indices agree with the primary maps:
    the height index is exactly the inverse of the outputs' heights (with no
    empty bucket), the locator index the inverse of the canonical catalogue,
    every stealth-index entry points to a live output with that address, and
    every live output is in the catalogue at the same height. *)
Theorem utxo_indices_consistent tx_hash u :
  reachable tx_hash u ->
  (forall h k, k ∈ default ∅ (height_index u !! h) <->
    exists r, u_outputs u !! k = Some r /\ r_height r = h)
  /\ (forall h k, k ∈ default ∅ (locator_index u !! h) <->
    exists l, locator_outputs u !! k = Some l /\ l_height l = h)
  /\ (forall h, height_index u !! h <> Some ∅ /\ locator_index u !! h <> Some ∅)
  /\ (forall a k, stealth_index u !! a = Some k ->
    exists r, get_output_by_stealth u a = Some r /\ stealth_address (r_output r) = a)
  /\ (forall k r, u_outputs u !! k = Some r ->
    exists l, locator_outputs u !! k = Some l /\ l_height l = r_height r).
Proof.
  intros H%reachable_wf. destruct H as [[H1 H2] [H3 H4] H5 H6].
  repeat split; try apply H1; try apply H3; auto.
  - intros a k Ha. destruct (H5 a k Ha) as (r&Hr&?). exists r.
    unfold get_output_by_stealth. by rewrite Ha.
  - intros k r Hr. destruct (H6 k r Hr) as (l&?&?&_). by exists l.
Qed.

(** Disconnecting a block undoes connecting it: outputs, key images, the
    height index, the locator catalogue and its index are restored exactly,
    the availability metric behind the ring-size rule is unchanged, and every
    address the block does not pay keeps its stealth-index and output-index
    entries. *)
Theorem connect_disconnect_restores tx_hash u h txs :
  utxo_wf u -> fresh_block tx_hash u h txs ->
  let u' := disconnect tx_hash (connect tx_hash u h txs) txs in
  u_outputs u' = u_outputs u /\ u_key_images u' = u_key_images u
  /\ height_index u' = height_index u /\ locator_index u' = locator_index u
  /\ locator_outputs u' = locator_outputs u
  /\ available_outputs u' = available_outputs u
  /\ (forall a, a ∉ block_addrs tx_hash h txs ->
      stealth_index u' !! a = stealth_index u !! a
      /\ get_output_index_entry u' a = get_output_index_entry u a).
Proof.
  intros Hu Hf u'. destruct (reorg_outputs tx_hash u h txs Hu Hf) as (E1&E2&E3).
  destruct (reorg_counters tx_hash u h txs Hf) as [E4 E5].
  assert (Hu' : utxo_wf u') by (unfold u'; auto with utxo). fold u' in E1, E2, E3, E4, E5.
  split_and!; try done.
  - eapply idx_ok_unique; [apply Hu'|]. rewrite E1. apply Hu.
  - eapply idx_ok_unique; [apply Hu'|]. rewrite E2. apply Hu.
  - unfold available_outputs. rewrite E4, E5. word_lia.
  - intros a Ha. destruct (reorg_indices tx_hash u h txs a Hf) as (F1&F2&F3).
    fold u' in F1, F2, F3. rewrite bool_decide_eq_false_2 in F1, F2, F3 by done.
    split; [done|]. unfold get_output_index_entry. rewrite F2.
    destruct (output_index u !! a); [done|]. by rewrite !db_get_bind, F3.
Qed.

(** A reorg forgets every address the disconnected block paid, also one
    that an older, still canonical output uses: both lookups by stealth
    address return nothing although the older output is still in the set.
    The [or_insert] of the connect keeps the oldest entry, but the removal of
    the disconnect is unconditional, so a node that went through the reorg and
    a node that did not disagree on ring members. *)
Theorem reorg_forgets_reused_address tx_hash u h txs a :
  utxo_wf u -> fresh_block tx_hash u h txs -> a ∈ block_addrs tx_hash h txs ->
  let u' := disconnect tx_hash (connect tx_hash u h txs) txs in
  get_output_by_stealth u' a = None /\ get_output_index_entry u' a = None
  /\ u_outputs u' = u_outputs u.
Proof.
  intros Hu Hf Ha u'. destruct (reorg_indices tx_hash u h txs a Hf) as (F1&F2&F3).
  fold u' in F1, F2, F3. rewrite bool_decide_eq_true_2 in F1, F2, F3 by done.
  split_and!; [| |by apply reorg_outputs].
  - unfold get_output_by_stealth. by rewrite F1.
  - unfold get_output_index_entry. by rewrite F2, db_get_bind, F3.
Qed.

(** Evicting the in-memory output index is invisible exactly for entries
    that are still recent or that pass the on-disk sanity check: with a disk
    copy of the cache, a cached entry [e] is still found after eviction iff
    its height is within [keep_depth] of the tip or its lock height is not
    below its creation height.  An output created with an already expired lock
    height is a valid ring member until its entry is evicted and unknown
    afterwards. *)
Theorem eviction_visible_iff u d current keep a e :
  db u = Some d -> output_index u !! a = Some e -> d !! a = Some e ->
  keep < current ->
  get_output_index_entry u a = Some e
  /\ (get_output_index_entry (evict_old_outputs u current keep) a = Some e <->
      current - keep <= e_height e \/ entry_validate e = true)
  /\ (get_output_index_entry (evict_old_outputs u current keep) a <> Some e ->
      get_output_index_entry (evict_old_outputs u current keep) a = None).
Proof.
  intros Hd Ho Hda Hk. unfold get_output_index_entry, evict_old_outputs.
  destruct (Z.leb_spec current keep); [lia|]. rewrite Ho. cbn [output_index db].
  rewrite Hd. cbn [mbind option_bind]. unfold db_get. rewrite Hda. cbn [mbind option_bind].
  destruct (decide (current - keep <= e_height e)) as [Hc|Hc].
  - rewrite (map_lookup_filter_Some_2 _ _ _ _ Ho Hc). naive_solver.
  - rewrite (map_lookup_filter_None_2 _ _ a) by
      (right; intros ? ?; simplify_eq; done).
    destruct (entry_validate e) eqn:E; naive_solver.
Qed.

(** ** Witnesses

    Two coinbase transactions that pay the same miner address, as old
    coinbases do; the transaction hash is the fee. *)

Definition miner_tx (id : Z) : Transaction :=
  mkTransaction 1 Coinbase []
    [mkTxOutput [7] [7] [7] [] 0 None []] id [] [].

Definition sample_hash (tx : Transaction) : Hash := [fee tx].

Definition one_block : UtxoSet := connect sample_hash UtxoSet_new 1 [miner_tx 1].

Lemma miner_block_fresh u h id :
  locator_outputs u !! ([id], 0) = None ->
  0 <= reorg_disconnects_total u <= total_outputs_ever u ->
  total_outputs_ever u + 1 <= u64_max ->
  fresh_block sample_hash u h [miner_tx id].
Proof.
  intros Hk Hc Hm. split; cbn; try done.
  - apply NoDup_singleton.
  - intros a ->%list_elem_of_singleton. done.
  - intros ki Hki. by apply not_elem_of_nil in Hki.
Qed.

Lemma one_block_fresh : fresh_block sample_hash UtxoSet_new 1 [miner_tx 1].
Proof. apply miner_block_fresh; [done|cbn; lia|cbn; word_lia]. Qed.

Lemma one_block_wf : utxo_wf one_block.
Proof. apply connect_wf; [apply new_wf|apply one_block_fresh]. Qed.

Lemma second_block_fresh : fresh_block sample_hash one_block 2 [miner_tx 2].
Proof. apply miner_block_fresh; [reflexivity|split; discriminate|discriminate]. Qed.

Lemma utxo_indices_consistent_witness :
  ([1], 0) ∈ default ∅ (height_index one_block !! 1).
Proof.
  destruct (utxo_indices_consistent sample_hash one_block) as [H _].
  - apply reach_connect; [apply reach_new|apply one_block_fresh].
  - apply H. eexists. split; reflexivity.
Defined.

Lemma connect_disconnect_restores_witness :
  u_outputs (disconnect sample_hash
    (connect sample_hash one_block 2 [miner_tx 2]) [miner_tx 2]) = u_outputs one_block.
Proof.
  apply (connect_disconnect_restores sample_hash one_block 2 [miner_tx 2]
    one_block_wf second_block_fresh).
Defined.

(** The first miner output is found before the second block and lost after
    that block is reorganised away. *)
Lemma reorg_forgets_reused_address_witness :
  is_Some (get_output_by_stealth one_block [7])
  /\ get_output_by_stealth (disconnect sample_hash
       (connect sample_hash one_block 2 [miner_tx 2]) [miner_tx 2]) [7] = None.
Proof.
  split; [eexists; reflexivity|].
  apply (reorg_forgets_reused_address sample_hash one_block 2 [miner_tx 2] [7]
    one_block_wf second_block_fresh). left.
Defined.

(** An output created at height 5000 with lock height 1. *)
Definition expired_entry : OutputIndexEntry := mkOutputIndexEntry [7] 5000 false (Some 1).

Definition cached_set : UtxoSet :=
  mkUtxoSet ∅ ∅ ∅ ∅ ∅ ∅ {[ [7] := expired_entry ]} (Some {[ [7] := expired_entry ]}) 1 0.

Lemma eviction_visible_iff_witness :
  get_output_index_entry cached_set [7] = Some expired_entry
  /\ get_output_index_entry (evict_old_outputs cached_set 6001 1000) [7] = None.
Proof.
  destruct (eviction_visible_iff cached_set {[ [7] := expired_entry ]} 6001 1000 [7]
    expired_entry) as (H1&_&H3); [reflexivity..|lia|].
  split; [exact H1|apply H3; vm_compute; discriminate].
Defined.
