(* ===== verification/ForkChoice.v ===== *)
(** * Fork choice and the reorganisation rule ([src/chain.rs])

    The block store as the fork-choice code reads it (memory cache first, then
    the database), the walks over [prev_hash] (cumulative work, fork point,
    fork chain, median time past), the three-tier reorg rule and the decision
    [add_block] takes for a block that does not extend the tip.  The walks
    that the source bounds only by a visited set carry fuel; [None] is lack of
    fuel, and they are shown never to run out of [S (store size)].  The
    rolling-finality adapter is seen through the interface [FinalityGate]. *)

From stdpp Require Import prelude gmap sorting.
From Stdlib Require Import ZArith Lia.
From S2P Require Import Prelude Constants Difficulty Block.

Local Open Scope Z_scope.

Inductive NetworkType := Mainnet | Testnet | Regtest.

Definition max_reorg_depth_for (network : NetworkType) : Z :=
  match network with Testnet | Regtest => 1000 | Mainnet => 100 end.

Definition REORG_UNCONDITIONAL_DEPTH : Z := 10.
Definition MESS_EXPONENT_DIVISOR : Z := 20.
Definition BOOTSTRAP_MESS_HEIGHT : Z := 1000.
Definition CHECKPOINT_INTERVAL : Z := 144.
Definition MTP_WINDOW : nat := 11.

Inductive reorg_error := HardFinality | LessWork | LessWorkBootstrap | MessRejection.

#[export] Instance reorg_error_eq_dec : EqDecision reorg_error.
Proof. solve_decision. Defined.

(** [honest_work.saturating_mul(1 << min(exponent, 40))] *)
Definition mess_required (depth honest_work : Z) : Z :=
  let exponent := (depth - REORG_UNCONDITIONAL_DEPTH) / MESS_EXPONENT_DIVISOR in
  let capped_exponent := Z.min exponent 40 in
  sat_mul u128_max honest_work (Z.shiftl 1 capped_exponent).

Definition evaluate_reorg_acceptability
    (depth fork_work honest_work current_height max_depth : Z)
  : result reorg_error unit :=
  if max_depth <? depth then Err HardFinality
  else if depth <=? REORG_UNCONDITIONAL_DEPTH then
    if honest_work <=? fork_work then Ok tt else Err LessWork
  else if current_height <? BOOTSTRAP_MESS_HEIGHT then
    if honest_work <=? fork_work then Ok tt else Err LessWorkBootstrap
  else if mess_required depth honest_work <? fork_work then Ok tt
  else Err MessRejection.

(** Work of a target: [u128::MAX / (first 16 bytes)], [u128::MAX] for zero. *)
Definition calculate_difficulty_from_target (target : Hash) : Z :=
  let target_value := be_val (take 16 target) in
  if target_value =? 0 then u128_max else u128_max / target_value.

(** ** The block store *)

Record DbView := mkDbView {
  db_blocks : gmap Hash Block;
  db_heights : gmap Z Hash;
}.

Record ChainTip := mkChainTip {
  tip_hash : Hash;
  tip_height : Z;
  tip_difficulty : Z;
  tip_timestamp : Z;
}.

(** The part of [BlockchainInner] (with [self.db]) that fork choice reads. *)
Record ChainView := mkChainView {
  blocks : gmap Hash Block;
  height_to_hash : gmap Z Hash;
  tip : ChainTip;
  total_difficulty : Z;
  db : option DbView;
}.

Definition get_block (v : ChainView) (h : Hash) : option Block :=
  match blocks v !! h with
  | Some b => Some b
  | None => d ← db v; db_blocks d !! h
  end.

Definition get_block_hash (v : ChainView) (height : Z) : option Hash :=
  match height_to_hash v !! height with
  | Some h => Some h
  | None => d ← db v; db_heights d !! height
  end.

Definition get_block_by_height (v : ChainView) (height : Z) : option Block :=
  h ← get_block_hash v height; get_block v h.

(** [loop { steps += 1; if steps > max_steps { break } ... }] *)
Fixpoint work_loop (v : ChainView) (fuel : nat) (current : Hash) (total : Z) : Z :=
  match fuel with
  | O => total
  | S fuel =>
      match get_block v current with
      | None => total
      | Some parent =>
          if block_height parent =? 0 then sat_add u128_max total 1
          else work_loop v fuel (prev_hash (header parent))
                 (sat_add u128_max total
                    (calculate_difficulty_from_target (h_target (header parent))))
      end
  end.

Definition calculate_fork_cumulative_work (v : ChainView) (b : Block) : Z :=
  let max_steps := sat_add u64_max (block_height b) 100 in
  work_loop v (Z.to_nat max_steps) (prev_hash (header b))
    (calculate_difficulty_from_target (h_target (header b))).

(** [for h in 1..=height], from [1] up. *)
Fixpoint recompute_loop (v : ChainView) (n : nat) (h total : Z) : option Z :=
  match n with
  | O => Some total
  | S n =>
      b ← get_block_by_height v h;
      recompute_loop v n (h + 1)
        (sat_add u128_max total (calculate_difficulty_from_target (h_target (header b))))
  end.

Definition recompute_total_difficulty (v : ChainView) (height : Z) : option Z :=
  recompute_loop v (Z.to_nat height) 1 1.

Definition on_main_chain (v : ChainView) (height : Z) (h : Hash) : bool :=
  match get_block_hash v height with
  | Some main_hash => bool_decide (main_hash = h)
  | None => false
  end.

(** Outcome of the fork-point search: an ancestor, or corruption. *)
Fixpoint fork_point_loop (v : ChainView) (fuel : nat) (visited : gset Hash)
    (current : Hash) : option (option Z) :=
  match fuel with
  | O => None
  | S fuel =>
      if bool_decide (current ∈ visited) then Some None
      else match get_block v current with
      | None => Some None
      | Some parent =>
          let height := block_height parent in
          if on_main_chain v height current then Some (Some height)
          else if height =? 0 then Some (Some 0)
          else fork_point_loop v fuel ({[current]} ∪ visited) (prev_hash (header parent))
      end
  end.

(** Every hash in the store. *)
Definition known (v : ChainView) : gset Hash :=
  dom (blocks v) ∪ match db v with Some d => dom (db_blocks d) | None => ∅ end.

Definition walk_fuel (v : ChainView) : nat := S (size (known v)).

Definition find_fork_point (v : ChainView) (fork_block : Block) : option (option Z) :=
  fork_point_loop v (walk_fuel v) ∅ (prev_hash (header fork_block)).

Fixpoint collect_loop (v : ChainView) (fuel : nat) (visited : gset Hash)
    (current : Hash) (fork_point : Z) (chain : list Block) : option (list Block) :=
  match fuel with
  | O => None
  | S fuel =>
      if bool_decide (current ∈ visited) then Some chain
      else match get_block v current with
      | None => Some chain
      | Some b =>
          if block_height b <=? fork_point then Some chain
          else collect_loop v fuel ({[current]} ∪ visited) (prev_hash (header b))
                 fork_point (chain ++ [b])
      end
  end.

Definition collect_fork_chain (v : ChainView) (fork_tip : Block) (fork_point : Z)
  : option (list Block) :=
  reverse <$> collect_loop v (walk_fuel v) ∅ (prev_hash (header fork_tip)) fork_point [].

(** Timestamps of up to [n] ancestors, newest first. *)
Fixpoint lineage_timestamps (v : ChainView) (n : nat) (cursor : Hash) : list Z :=
  match n with
  | O => []
  | S n =>
      match get_block v cursor with
      | Some a => h_timestamp (header a) :: lineage_timestamps v n (prev_hash (header a))
      | None => []
      end
  end.

Definition median_time_past_of_lineage (v : ChainView) (prev : Hash) : option Z :=
  let timestamps := lineage_timestamps v MTP_WINDOW prev in
  if (MTP_WINDOW <=? length timestamps)%nat then
    merge_sort Z.le timestamps !! (length timestamps / 2)%nat
  else None.

(** Recent main-chain blocks from the in-memory cache, heights
    [start..up_to). *)
Definition get_difficulty_blocks (v : ChainView) (up_to_height : Z)
  : list DifficultyBlock :=
  let start := sat_sub up_to_height 144 in
  omap (fun i =>
    let h := start + Z.of_nat i in
    hash ← height_to_hash v !! h;
    b ← blocks v !! hash;
    Some (mkDifficultyBlock h (h_timestamp (header b)) (h_target (header b))))
    (seq 0 (Z.to_nat (up_to_height - start))).

(** ** The decision on a fork block *)

(** What the reorg code asks of the rolling-finality adapter. *)
Class FinalityGate (RF : Type) := {
  would_reorg_violate : RF -> Z -> bool;
  current_soft_final : RF -> option Z;
  violate_spec : forall rf fp,
    would_reorg_violate rf fp = true <->
    exists s, current_soft_final rf = Some s /\ fp <= s;
}.

(** [<] on byte arrays. *)
Fixpoint bytes_ltb (a b : list Z) : bool :=
  match a, b with
  | x :: a, y :: b => if x <? y then true else if y <? x then false else bytes_ltb a b
  | [], _ :: _ => true
  | _, [] => false
  end.

Inductive fork_decision :=
| KeepTip                    (** stored as a side branch *)
| Corruption
| ReorgTooDeep (depth max : Z)
| BelowFinalityFloor (fork_point floor : Z)
| PerformReorg (fork_point depth : Z).

Section decision.
Context {RF : Type} `{!FinalityGate RF}.
Context (header_hash : BlockHeader -> Hash).
(** The crate feature that selects the activation heights. *)
Context (testnet : bool).

Definition take_fork (v : ChainView) (b : Block) : bool :=
  let fork_cumulative := calculate_fork_cumulative_work v b in
  if total_difficulty v <? fork_cumulative then true
  else if fork_cumulative =? total_difficulty v then
    bytes_ltb (header_hash (header b)) (tip_hash (tip v))
  else false.

Definition finality_floor (v : ChainView) : Z :=
  tip_height (tip v) - tip_height (tip v) mod CHECKPOINT_INTERVAL.

Definition evaluate_fork (network : NetworkType) (rf : option RF) (v : ChainView)
    (b : Block) : option fork_decision :=
  if take_fork v b then
    fp ← find_fork_point v b;
    match fp with
    | None => Some Corruption
    | Some fork_point =>
        let reorg_depth := sat_sub (block_height b) fork_point in
        let net_max := max_reorg_depth_for network in
        match evaluate_reorg_acceptability reorg_depth
                (calculate_fork_cumulative_work v b) (total_difficulty v)
                (tip_height (tip v)) net_max with
        | Err _ => Some (ReorgTooDeep reorg_depth net_max)
        | Ok _ =>
            let soft_blocked :=
              match rf with
              | Some rf =>
                  (ROLLING_FINALITY_ENFORCE_HEIGHT testnet <=? block_height b)
                  && would_reorg_violate rf fork_point
              | None => false
              end in
            let soft_final :=
              match rf with
              | Some rf => default 0 (current_soft_final rf)
              | None => 0
              end in
            if soft_blocked then
              Some (ReorgTooDeep reorg_depth
                      (sat_sub (sat_sub (block_height b) soft_final) 1))
            else
              let floor := finality_floor v in
              if (0 <? floor) && (fork_point <? floor) then
                Some (BelowFinalityFloor fork_point floor)
              else Some (PerformReorg fork_point reorg_depth)
        end
    end
  else Some KeepTip.
End decision.

(** ** The reorg rule *)

Section reorg_rule.
Implicit Types (d f w h m : Z).

Lemma mess_required_eq d w :
  REORG_UNCONDITIONAL_DEPTH < d ->
  mess_required d w = Z.min u128_max (w * 2 ^ Z.min ((d - 10) / 20) 40).
Proof.
  unfold mess_required, sat_mul, REORG_UNCONDITIONAL_DEPTH, MESS_EXPONENT_DIVISOR.
  intros Hd. by rewrite Z.shiftl_1_l.
Qed.

Lemma mess_required_mono d d' w :
  REORG_UNCONDITIONAL_DEPTH < d <= d' -> 0 <= w -> mess_required d w <= mess_required d' w.
Proof.
  intros Hd Hw. rewrite !mess_required_eq by lia.
  apply Z.min_le_compat_l, Z.mul_le_mono_nonneg_l; [done|].
  apply Z.pow_le_mono_r; [lia|]. apply Z.min_le_compat_r.
  apply Z.div_le_mono; unfold REORG_UNCONDITIONAL_DEPTH in Hd; lia.
Qed.

Lemma mess_required_ge d w :
  REORG_UNCONDITIONAL_DEPTH < d -> 0 <= w <= u128_max -> w <= mess_required d w.
Proof.
  intros Hd Hw. rewrite mess_required_eq by done.
  apply Z.min_glb; [lia|].
  assert (0 < 2 ^ Z.min ((d - 10) / 20) 40); [|nia].
  apply Z.pow_pos_nonneg; [lia|]. apply Z.min_glb; [|lia].
  apply Z.div_pos; unfold REORG_UNCONDITIONAL_DEPTH in Hd; lia.
Qed.

Lemma reorg_accepted_iff d f w h m :
  evaluate_reorg_acceptability d f w h m = Ok tt <->
  d <= m /\
  (if (d <=? REORG_UNCONDITIONAL_DEPTH) || (h <? BOOTSTRAP_MESS_HEIGHT)
   then w <= f else mess_required d w < f).
Proof.
  unfold evaluate_reorg_acceptability.
  destruct (Z.ltb_spec m d); [split; [done|lia]|].
  destruct (d <=? REORG_UNCONDITIONAL_DEPTH), (h <? BOOTSTRAP_MESS_HEIGHT); cbn;
    repeat match goal with |- context [if ?b then _ else _] => destruct b eqn:? end;
    split; intros; try done; lia.
Qed.
End reorg_rule.

(** The three-tier reorg rule, exactly: a reorg is accepted iff its depth is
    within the network cap and its work is at least the current work (depth at
    most 10, or tip below height 1000) or exceeds it by the factor
    [2^((depth-10)/20)], capped at [2^40] and [u128::MAX]. *)
Theorem reorg_rule_exact d f w h m :
  0 <= d -> 0 <= w <= u128_max ->
  (evaluate_reorg_acceptability d f w h m = Ok tt <->
   d <= m /\
   (if decide (d <= 10 \/ h < 1000) then w <= f
    else Z.min u128_max (w * 2 ^ Z.min ((d - 10) / 20) 40) < f)).
Proof.
  intros Hd Hw. rewrite reorg_accepted_iff.
  unfold REORG_UNCONDITIONAL_DEPTH, BOOTSTRAP_MESS_HEIGHT.
  destruct (Z.leb_spec d 10), (Z.ltb_spec h 1000); cbn; case_decide; try lia.
  by rewrite mess_required_eq by (unfold REORG_UNCONDITIONAL_DEPTH; lia).
Qed.

(** The rule is monotone: more fork work never hurts, a shallower fork
    point never hurts, less honest work never hurts; past the bootstrap
    height a fork deeper than 10 blocks that merely ties is rejected. *)
Theorem reorg_rule_monotone d d' f f' w w' h m :
  0 <= d' <= d -> f <= f' -> 0 <= w' <= w -> w <= u128_max ->
  evaluate_reorg_acceptability d f w h m = Ok tt ->
  evaluate_reorg_acceptability d' f' w' h m = Ok tt
  /\ (10 < d -> 1000 <= h -> w < f).
Proof.
  intros Hd Hf Hw Hm. rewrite !reorg_accepted_iff.
  intros [Hle H]. unfold REORG_UNCONDITIONAL_DEPTH, BOOTSTRAP_MESS_HEIGHT in *.
  assert (Hge : 10 < d -> w <= mess_required d w) by
    (intros; apply mess_required_ge; unfold REORG_UNCONDITIONAL_DEPTH; lia).
  assert (Hmono : 10 < d' -> mess_required d' w' <= mess_required d w).
  { intros. etrans; [apply (mess_required_mono d' d); unfold REORG_UNCONDITIONAL_DEPTH; lia|].
    rewrite !mess_required_eq by (unfold REORG_UNCONDITIONAL_DEPTH; lia).
    apply Z.min_le_compat_l, Z.mul_le_mono_nonneg_r; [|lia]. apply Z.pow_nonneg; lia. }
  destruct (Z.leb_spec d 10), (Z.leb_spec d' 10), (Z.ltb_spec h 1000); cbn in *;
    repeat split; lia.
Qed.

(** ** Walking the parent links *)

(** The parents of stored blocks are stored, one height below, down to
    genesis. *)
Record store_wf (v : ChainView) : Prop := {
  wf_height_nonneg : forall h b, get_block v h = Some b -> 0 <= block_height b;
  wf_parent : forall h b, get_block v h = Some b -> block_height b <> 0 ->
    exists p, get_block v (prev_hash (header b)) = Some p
      /\ block_height p = block_height b - 1;
}.

(** [ancestor v h h']: [h'] is reached from [h] by [prev_hash] links. *)
Inductive ancestor (v : ChainView) : Hash -> Hash -> Prop :=
| ancestor_refl h : ancestor v h h
| ancestor_step h b h' :
    get_block v h = Some b -> block_height b <> 0 ->
    ancestor v (prev_hash (header b)) h' -> ancestor v h h'.

(** The first block on the way down that is on the main chain (or genesis). *)
Inductive first_main (v : ChainView) : Hash -> Z -> Prop :=
| first_here h b :
    get_block v h = Some b ->
    on_main_chain v (block_height b) h = true \/ block_height b = 0 ->
    first_main v h (block_height b)
| first_below h b n :
    get_block v h = Some b -> on_main_chain v (block_height b) h = false ->
    block_height b <> 0 -> first_main v (prev_hash (header b)) n -> first_main v h n.

(** The blocks from [h] down to (excluding) height [fp]. *)
Inductive chain_down (v : ChainView) (fp : Z) : Hash -> list Block -> Prop :=
| down_stop h b : get_block v h = Some b -> block_height b <= fp -> chain_down v fp h []
| down_step h b l :
    get_block v h = Some b -> fp < block_height b ->
    chain_down v fp (prev_hash (header b)) l -> chain_down v fp h (b :: l).

Section walks.
Implicit Types v : ChainView.

Lemma get_block_known v h b : get_block v h = Some b -> h ∈ known v.
Proof.
  unfold get_block, known. destruct (blocks v !! h) eqn:E.
  - intros _. apply elem_of_union_l, elem_of_dom. by eexists.
  - destruct (db v); cbn; [|done]. intros Hd. apply elem_of_union_r, elem_of_dom.
    by eexists.
Qed.

Lemma remaining_shrinks v (visited : gset Hash) h b :
  get_block v h = Some b -> h ∉ visited ->
  (size (known v ∖ ({[h]} ∪ visited)) < size (known v ∖ visited))%nat.
Proof.
  intros Hb Hv. apply subset_size. apply get_block_known in Hb. set_solver.
Qed.

Lemma fork_point_fuel v fuel visited h :
  (size (known v ∖ visited) < fuel)%nat -> is_Some (fork_point_loop v fuel visited h).
Proof.
  revert visited h. induction fuel as [|fuel IH]; intros visited h Hf; [lia|].
  cbn. case_bool_decide as Hv; [by eexists|].
  destruct (get_block v h) as [b|] eqn:Hb; [|by eexists].
  destruct (on_main_chain v (block_height b) h); [by eexists|].
  destruct (block_height b =? 0); [by eexists|].
  apply IH. pose proof (remaining_shrinks v visited h b Hb Hv). lia.
Qed.

Lemma collect_fuel v fuel visited h fp acc :
  (size (known v ∖ visited) < fuel)%nat ->
  is_Some (collect_loop v fuel visited h fp acc).
Proof.
  revert visited h acc. induction fuel as [|fuel IH]; intros visited h acc Hf; [lia|].
  cbn. case_bool_decide as Hv; [by eexists|].
  destruct (get_block v h) as [b|] eqn:Hb; [|by eexists].
  destruct (block_height b <=? fp); [by eexists|].
  apply IH. pose proof (remaining_shrinks v visited h b Hb Hv). lia.
Qed.

(** Hashes already visited are above the current one. *)
Definition above v (visited : gset Hash) (n : Z) : Prop :=
  forall h b, h ∈ visited -> get_block v h = Some b -> n < block_height b.

Lemma above_fresh v visited h b :
  above v visited (block_height b) -> get_block v h = Some b -> h ∉ visited.
Proof. intros Ha Hb Hv. specialize (Ha _ _ Hv Hb). lia. Qed.

Lemma above_push v visited h b :
  above v visited (block_height b) -> get_block v h = Some b ->
  above v ({[h]} ∪ visited) (block_height b - 1).
Proof.
  intros Ha Hb h' b' [->%elem_of_singleton|Hv]%elem_of_union Hb'; simplify_eq; [lia|].
  specialize (Ha _ _ Hv Hb'). lia.
Qed.

Lemma fork_point_sound v fuel visited h b r :
  store_wf v -> get_block v h = Some b -> above v visited (block_height b) ->
  fork_point_loop v fuel visited h = Some r ->
  exists n, r = Some n /\ first_main v h n.
Proof.
  intros Hv. revert visited h b r.
  induction fuel as [|fuel IH]; intros visited h b r Hb Ha; [done|]. cbn.
  rewrite bool_decide_eq_false_2 by (by eapply above_fresh). rewrite Hb.
  destruct (on_main_chain v (block_height b) h) eqn:Hm.
  { intros [= <-]. eexists. split; [done|]. constructor; auto. }
  destruct (Z.eqb_spec (block_height b) 0) as [E|E].
  { intros [= <-]. eexists. split; [done|]. rewrite <- E. constructor; auto. }
  intros Hr. destruct (wf_parent _ Hv _ _ Hb E) as (p&Hp&Hh).
  apply (IH _ _ _ _ Hp) in Hr as (n&->&Hn); [|rewrite Hh; by eapply above_push].
  exists n. split; [done|]. by eapply first_below.
Qed.

Lemma collect_sound v fuel visited h b fp acc r :
  store_wf v -> 0 <= fp -> get_block v h = Some b ->
  above v visited (block_height b) ->
  collect_loop v fuel visited h fp acc = Some r ->
  exists l, r = acc ++ l /\ chain_down v fp h l.
Proof.
  intros Hv Hfp. revert visited h b acc r.
  induction fuel as [|fuel IH]; intros visited h b acc r Hb Ha; [done|]. cbn.
  rewrite bool_decide_eq_false_2 by (by eapply above_fresh). rewrite Hb.
  destruct (Z.leb_spec (block_height b) fp) as [E|E].
  { intros [= <-]. exists []. rewrite app_nil_r. split; [done|]. by eapply down_stop. }
  intros Hr. destruct (wf_parent _ Hv _ _ Hb) as (p&Hp&Hh); [lia|].
  apply (IH _ _ _ _ _ Hp) in Hr as (l&->&Hl); [|rewrite Hh; by eapply above_push].
  exists (b :: l). rewrite <- app_assoc. split; [done|]. by eapply down_step.
Qed.

Lemma chain_down_spec v fp h b l :
  store_wf v -> get_block v h = Some b -> 0 <= fp <= block_height b ->
  chain_down v fp h l ->
  Z.of_nat (length l) = block_height b - fp
  /\ (forall i c, l !! i = Some c -> block_height c = block_height b - Z.of_nat i)
  /\ head l = (if fp <? block_height b then Some b else None)
  /\ (forall i c d, l !! i = Some c -> l !! S i = Some d ->
      get_block v (prev_hash (header c)) = Some d).
Proof.
  intros Hv Hb Hfp H. revert b Hb Hfp.
  induction H as [h b' Hb' Hle|h b' l Hb' Hlt _ IH]; intros b Hb Hfp;
    assert (b' = b) as -> by congruence.
  { destruct (Z.ltb_spec fp (block_height b)); [lia|]. cbn. repeat split; try done. lia. }
  destruct (wf_parent _ Hv _ _ Hb) as (p&Hp&Hh); [lia|].
  destruct (IH p Hp) as (E1&E2&E3&E4); [lia|].
  destruct (Z.ltb_spec fp (block_height b)); [|lia]. split_and!.
  - cbn [length]. lia.
  - intros [|i] c Hc; cbn in Hc; [simplify_eq; lia|]. apply E2 in Hc. lia.
  - done.
  - intros [|i] c d Hc Hd; cbn in Hc, Hd; [|by eapply E4].
    simplify_eq. rewrite Hp. destruct l as [|e l]; [done|]. cbn in Hd, E3.
    destruct (fp <? block_height p); congruence.
Qed.

Lemma ancestor_lower v h h' b c :
  store_wf v -> ancestor v h h' -> get_block v h = Some b -> get_block v h' = Some c ->
  block_height c <= block_height b.
Proof.
  intros Hv Ha. revert b. induction Ha as [h|h b0 h' Hb0 Hne _ IH]; intros b Hb Hc.
  - simplify_eq. done.
  - assert (b0 = b) as -> by congruence.
    destruct (wf_parent _ Hv _ _ Hb) as (p&Hp&Hh); [done|].
    specialize (IH p Hp Hc). lia.
Qed.

Lemma first_main_spec v h b n :
  store_wf v -> get_block v h = Some b -> first_main v h n ->
  0 <= n <= block_height b
  /\ (exists h' b', ancestor v h h' /\ get_block v h' = Some b' /\ block_height b' = n
      /\ (on_main_chain v n h' = true \/ n = 0))
  /\ (forall h' b', ancestor v h h' -> get_block v h' = Some b' ->
      n < block_height b' -> on_main_chain v (block_height b') h' = false).
Proof.
  intros Hv Hb H. revert b Hb.
  induction H as [h b' Hb' Hm|h b' n Hb' Hm H0 _ IH]; intros b Hb;
    assert (b' = b) as -> by congruence.
  - pose proof (wf_height_nonneg _ Hv _ _ Hb). split; [lia|]. split.
    { exists h, b. split; [constructor|auto]. }
    intros h' c Ha Hc Hlt. pose proof (ancestor_lower v h h' b c Hv Ha Hb Hc). lia.
  - destruct (wf_parent _ Hv _ _ Hb) as (p&Hp&Hh); [done|].
    destruct (IH p Hp) as (E1&(h'&b'&Ha&Hb2&Hn)&E3). split; [lia|]. split.
    { exists h', b'. split; [by eapply ancestor_step|done]. }
    intros h2 b2 Ha2 Hb2' Hlt. inversion Ha2 as [|h0 b0 h0' Hb0 Hne Ha3]; subst.
    + congruence.
    + assert (b0 = b) as -> by congruence. by eapply E3.
Qed.
End walks.

Lemma find_fork_point_wf v b p :
  store_wf v -> get_block v (prev_hash (header b)) = Some p ->
  exists n, find_fork_point v b = Some (Some n) /\ first_main v (prev_hash (header b)) n.
Proof.
  intros Hv Hp. unfold find_fork_point.
  destruct (fork_point_fuel v (walk_fuel v) ∅ (prev_hash (header b))) as [r Hr].
  { unfold walk_fuel. rewrite difference_empty_L. lia. }
  pose proof Hr as Hr'.
  eapply fork_point_sound in Hr' as (n&->&Hn); [|done|done|intros ???; set_solver].
  exists n. by rewrite Hr.
Qed.

Lemma collect_fork_chain_wf v b p fp :
  store_wf v -> get_block v (prev_hash (header b)) = Some p -> 0 <= fp ->
  exists l, collect_fork_chain v b fp = Some (reverse l)
    /\ chain_down v fp (prev_hash (header b)) l.
Proof.
  intros Hv Hp Hfp. unfold collect_fork_chain.
  destruct (collect_fuel v (walk_fuel v) ∅ (prev_hash (header b)) fp []) as [r Hr].
  { unfold walk_fuel. rewrite difference_empty_L. lia. }
  pose proof Hr as Hr'.
  eapply collect_sound in Hr' as (l&->&Hl); [|done|done|done|intros ???; set_solver].
  exists l. by rewrite Hr.
Qed.

(** Both searches end without exhausting the store, whatever the
    [prev_hash] links contain: [S (number of stored hashes)] steps are enough,
    cycles and missing parents included. *)
Theorem fork_walks_terminate v b fp :
  is_Some (find_fork_point v b) /\ is_Some (collect_fork_chain v b fp).
Proof.
  split.
  - apply fork_point_fuel. unfold walk_fuel. rewrite difference_empty_L. lia.
  - unfold collect_fork_chain. apply fmap_is_Some, collect_fuel.
    unfold walk_fuel. rewrite difference_empty_L. lia.
Qed.

(** On a store closed under parents, the fork-point search finds the highest
    common ancestor: the result is the height of an ancestor on the main chain
    (or genesis), no ancestor above it is on the main chain, and
    [collect_fork_chain] returns exactly the blocks between the fork point and
    the fork block, in ascending height order. *)
Theorem fork_point_is_common_ancestor v b p :
  store_wf v -> get_block v (prev_hash (header b)) = Some p ->
  block_height p = block_height b - 1 ->
  exists n chain,
    find_fork_point v b = Some (Some n) /\ 0 <= n < block_height b
    /\ (exists h a, ancestor v (prev_hash (header b)) h /\ get_block v h = Some a
        /\ block_height a = n /\ (on_main_chain v n h = true \/ n = 0))
    /\ (forall h a, ancestor v (prev_hash (header b)) h -> get_block v h = Some a ->
        n < block_height a -> on_main_chain v (block_height a) h = false)
    /\ collect_fork_chain v b n = Some chain
    /\ Z.of_nat (length chain) = block_height b - 1 - n
    /\ (forall i c, chain !! i = Some c -> block_height c = n + 1 + Z.of_nat i).
Proof.
  intros Hv Hp Hh. destruct (find_fork_point_wf v b p Hv Hp) as (n&E&Hn).
  destruct (first_main_spec v _ p n Hv Hp Hn) as (Hb&Hex&Hall).
  destruct (collect_fork_chain_wf v b p n Hv Hp) as (l&El&Hl); [lia|].
  destruct (chain_down_spec v n _ p l Hv Hp Hb Hl) as (L1&L2&_&_).
  exists n, (reverse l). split_and!; try done; try lia.
  - rewrite length_reverse. lia.
  - intros i c Hc. pose proof Hc as Hi. apply lookup_lt_Some in Hi.
    rewrite length_reverse in Hi. rewrite reverse_lookup in Hc by done.
    apply L2 in Hc. lia.
Qed.

(** ** Cumulative work *)

Definition block_work (b : Block) : Z :=
  calculate_difficulty_from_target (h_target (header b)).

Fixpoint work_sum (l : list Block) : Z :=
  match l with [] => 0 | b :: l => block_work b + work_sum l end.

(** Targets are byte arrays. *)
Definition targets_wf (v : ChainView) : Prop :=
  forall h b, get_block v h = Some b -> Forall is_u8 (h_target (header b)).

(** The main chain up to height [n]: indexed, stored and linked; nothing is
    indexed above. *)
Record main_wf (v : ChainView) (n : Z) : Prop := {
  main_blocks : forall h, 0 <= h <= n -> exists hash b,
    get_block_hash v h = Some hash /\ get_block v hash = Some b /\ block_height b = h
    /\ (0 < h -> get_block_hash v (h - 1) = Some (prev_hash (header b)));
  main_top : forall h, n < h -> get_block_hash v h = None;
}.

(** Work of the main-chain blocks at heights [1..n]. *)
Fixpoint main_sum (v : ChainView) (n : nat) : Z :=
  match n with
  | O => 0
  | S m =>
      main_sum v m
      + match get_block_by_height v (Z.of_nat (S m)) with
        | Some b => block_work b
        | None => 0
        end
  end.

Section work.
Context (v : ChainView) (Ht : targets_wf v).

Lemma block_work_bounds b : Forall is_u8 (h_target (header b)) -> 1 <= block_work b <= u128_max.
Proof.
  intros Hb. unfold block_work, calculate_difficulty_from_target.
  assert (H : 0 <= be_val (take 16 (h_target (header b))) <= u128_max).
  { pose proof (be_val_bound _ (Forall_take _ 16 _ Hb)) as B.
    assert (256 ^ Z.of_nat (length (take 16 (h_target (header b)))) <= 256 ^ 16)
      by (apply Z.pow_le_mono_r; [lia|]; rewrite length_take; lia).
    change (256 ^ 16) with (u128_max + 1) in *. lia. }
  destruct (Z.eqb_spec (be_val (take 16 (h_target (header b)))) 0); [word_lia|].
  split; [apply Z.div_le_lower_bound; lia|]. apply Z.div_le_upper_bound; nia.
Qed.

Lemma main_sum_nonneg n : 0 <= main_sum v n.
Proof.
  induction n as [|n IH]; cbn [main_sum]; [lia|].
  destruct (get_block_by_height v (Z.of_nat (S n))) as [b|] eqn:E; [|lia].
  unfold get_block_by_height in E. apply bind_Some in E as (h&_&E).
  pose proof (block_work_bounds b (Ht _ _ E)). lia.
Qed.

Lemma work_sum_nonneg n h l : chain_down v n h l -> 0 <= work_sum l.
Proof.
  induction 1 as [|h b l Hb _ _ IH]; cbn [work_sum]; [lia|].
  pose proof (block_work_bounds b (Ht _ _ Hb)). lia.
Qed.

Lemma work_sum_app l l' : work_sum (l ++ l') = work_sum l + work_sum l'.
Proof. induction l as [|b l IH]; cbn [work_sum app]; [done|]. rewrite IH. lia. Qed.

Lemma work_sum_reverse l : work_sum (reverse l) = work_sum l.
Proof.
  induction l as [|b l IH]; [done|]. rewrite reverse_cons, work_sum_app, IH. cbn [work_sum]. lia.
Qed.

Lemma main_block n h : main_wf v n -> 0 <= h <= n ->
  exists b, get_block_by_height v h = Some b /\ Forall is_u8 (h_target (header b)).
Proof.
  intros [Hm _] Hh. destruct (Hm h Hh) as (hash&b&E1&E2&_). exists b.
  unfold get_block_by_height. rewrite E1. split; [done|]. by eapply Ht.
Qed.

Lemma recompute_loop_spec n k m t :
  main_wf v m -> Z.of_nat (k + n) <= m -> t <= u128_max ->
  recompute_loop v n (Z.of_nat (S k)) t =
    Some (Z.min u128_max (t + (main_sum v (k + n) - main_sum v k))).
Proof.
  intros Hm. revert k t. induction n as [|n IH]; intros k t Hn Htt; cbn [recompute_loop].
  { rewrite Nat.add_0_r. f_equal. lia. }
  destruct (main_block m (Z.of_nat (S k)) Hm) as (b&Eb&Hb); [lia|]. rewrite Eb. cbn [mbind option_bind].
  replace (Z.of_nat (S k) + 1) with (Z.of_nat (S (S k))) by lia.
  fold (block_work b). rewrite IH; [|lia|apply sat_add_le].
  replace (S k + n)%nat with (k + S n)%nat by lia. cbn [main_sum]. rewrite Eb.
  assert (main_sum v (S k) <= main_sum v (k + S n)).
  { clear -Ht. induction n as [|n IHn]; [by rewrite Nat.add_1_r|].
    replace (k + S (S n))%nat with (S (k + S n)) by lia.
    etrans; [exact IHn|]. cbn [main_sum].
    destruct (get_block_by_height v _) as [c|] eqn:E; [|lia].
    unfold get_block_by_height in E. apply bind_Some in E as (h&_&E).
    pose proof (block_work_bounds c (Ht _ _ E)). lia. }
  cbn [main_sum] in *. rewrite Eb in *.
  f_equal. unfold sat_add. lia.
Qed.

Lemma recompute_spec n m :
  main_wf v m -> 0 <= n <= m ->
  recompute_total_difficulty v n = Some (Z.min u128_max (1 + main_sum v (Z.to_nat n))).
Proof.
  intros Hm Hn. unfold recompute_total_difficulty.
  change 1 with (Z.of_nat 1) at 1. rewrite (recompute_loop_spec _ 0 m); [|done|lia|word_lia].
  f_equal. cbn [Nat.add main_sum]. lia.
Qed.

(** The walk over main-chain blocks. *)
Lemma work_loop_main n m fuel hash t :
  main_wf v m -> Z.of_nat n <= m -> get_block_hash v (Z.of_nat n) = Some hash ->
  (n < fuel)%nat -> t <= u128_max ->
  work_loop v fuel hash t = Z.min u128_max (t + main_sum v n + 1).
Proof.
  intros Hm. revert fuel hash t. induction n as [|n IH]; intros fuel hash t Hn Hh Hf Htt;
    (destruct fuel as [|fuel]; [lia|]);
    destruct (main_blocks _ _ Hm _ (conj (Zle_0_nat _) Hn)) as (hash'&b&E1&E2&E3&E4);
    rewrite E1 in Hh; injection Hh as ->; cbn [work_loop]; rewrite E2, E3.
  - cbn. unfold sat_add. f_equal. lia.
  - destruct (Z.eqb_spec (Z.of_nat (S n)) 0); [lia|].
    replace (Z.of_nat (S n) - 1) with (Z.of_nat n) in E4 by lia.
    rewrite IH; [|lia|by apply E4; lia|lia|apply sat_add_le].
    pose proof (main_sum_nonneg n). fold (block_work b). cbn [main_sum].
    unfold get_block_by_height. rewrite E1. cbn [mbind option_bind]. rewrite E2.
    unfold sat_add. lia.
Qed.

(** The walk over the fork down to the fork point. *)
Lemma work_loop_fork h b n l :
  store_wf v -> get_block v h = Some b -> first_main v h n -> chain_down v n h l ->
  exists h' a, get_block v h' = Some a /\ block_height a = n
    /\ (on_main_chain v n h' = true \/ n = 0)
    /\ forall fuel t, (length l <= fuel)%nat -> t <= u128_max ->
       work_loop v fuel h t =
       work_loop v (fuel - length l) h' (Z.min u128_max (t + work_sum l)).
Proof.
  intros Hv Hb Hf. revert b l Hb.
  induction Hf as [h b' Hb' Hm|h b' n Hb' Hm H0 Hf IH]; intros b l Hb Hl;
    assert (b' = b) as -> by congruence.
  - inversion Hl as [h0 c Hc Hle|h0 c l' Hc Hlt]; subst;
      assert (c = b) as -> by congruence; [|lia].
    exists h, b. split_and!; try done. intros fuel t _ Htt.
    cbn [work_sum length]. rewrite Nat.sub_0_r. f_equal. lia.
  - destruct (wf_parent _ Hv _ _ Hb) as (p&Hp&Hh); [done|].
    destruct (first_main_spec v _ p n Hv Hp Hf) as (Hn&_).
    inversion Hl as [h0 c Hc Hle|h0 c l' Hc Hlt Hl']; subst;
      assert (c = b) as -> by congruence; [lia|].
    destruct (IH p l' Hp Hl') as (h'&a&Ha&Han&Hmn&Hw). exists h', a. split_and!; try done.
    intros [|fuel] t Hfu Htt; cbn [length] in *; [lia|]. cbn [work_loop Nat.sub].
    rewrite Hb. destruct (Z.eqb_spec (block_height b) 0); [done|].
    rewrite Hw; [|lia|apply sat_add_le]. f_equal. cbn [work_sum].
    fold (block_work b). pose proof (work_sum_nonneg _ _ _ Hl').
    unfold sat_add. lia.
Qed.
End work.

(** The three definitions of cumulative work agree: on a well-formed store
    the work of a fork block found by walking to genesis is the recomputed
    work of the main chain up to the fork point, plus the work of the blocks
    between the fork point and the block, plus its own, capped at
    [u128::MAX]; for a block on the tip this is exactly what the extend path
    adds. *)
Theorem fork_work_decomposes v m b p :
  store_wf v -> targets_wf v -> main_wf v m -> 0 <= m -> is_u64 (block_height b) ->
  Forall is_u8 (h_target (header b)) ->
  get_block v (prev_hash (header b)) = Some p -> block_height p = block_height b - 1 ->
  exists n chain t,
    find_fork_point v b = Some (Some n) /\ collect_fork_chain v b n = Some chain
    /\ recompute_total_difficulty v n = Some t
    /\ calculate_fork_cumulative_work v b =
         Z.min u128_max (t + work_sum chain + block_work b).
Proof.
  intros Hv Ht Hm Hm0 Hu Hb8 Hp Hh. destruct (find_fork_point_wf v b p Hv Hp) as (n&E&Hn).
  destruct (first_main_spec v _ p n Hv Hp Hn) as (Hb&_&_).
  destruct (collect_fork_chain_wf v b p n Hv Hp) as (l&El&Hl); [lia|].
  destruct (chain_down_spec v n _ p l Hv Hp Hb Hl) as (L1&_).
  destruct (work_loop_fork v Ht _ p n l Hv Hp Hn Hl) as (h'&a&Ha&Han&Hmn&Hw).
  assert (Hnm : 0 <= n <= m).
  { destruct Hmn as [Hmn| ->]; [|lia]. unfold on_main_chain in Hmn.
    destruct (decide (n <= m)); [lia|]. by rewrite (main_top _ _ Hm) in Hmn by lia. }
  exists n, (reverse l), (Z.min u128_max (1 + main_sum v (Z.to_nat n))).
  split_and!; [done|done|by eapply recompute_spec|].
  pose proof (block_work_bounds b Hb8). pose proof (main_sum_nonneg v Ht (Z.to_nat n)).
  pose proof (work_sum_nonneg v Ht _ _ _ Hl). rewrite work_sum_reverse.
  unfold calculate_fork_cumulative_work. cbv zeta. fold (block_work b).
  assert (Hfu : Z.of_nat (length l) + n < sat_add u64_max (block_height b) 100)
    by (word_unfold; lia).
  rewrite Hw by lia. set (fuel := (_ - _)%nat). assert (Hfuel : (Z.to_nat n < fuel)%nat) by lia.
  destruct Hmn as [Hmn|Hn0].
  - unfold on_main_chain in Hmn. destruct (get_block_hash v n) as [mh|] eqn:Emh; [|done].
    apply bool_decide_eq_true in Hmn as ->.
    rewrite (work_loop_main v Ht (Z.to_nat n) m); rewrite ?Z2Nat.id by lia;
      [lia|done|lia|done|done|lia].
  - destruct fuel as [|fuel]; [lia|]. cbn [work_loop]. rewrite Ha, Han, Hn0.
    change (main_sum v (Z.to_nat 0)) with 0. cbn [Z.eqb].
    assert (1 <= u128_max) by word_lia. unfold sat_add. lia.
Qed.

(** ** Median time past *)

Section median.
Implicit Types (l s : list Z) (m x : Z).

Definition count_ge m l : nat := length (filter (fun x => m <= x) l).

Lemma count_ge_perm m l l' : l ≡ₚ l' -> count_ge m l = count_ge m l'.
Proof. intros H. unfold count_ge. by rewrite H. Qed.

Lemma count_ge_app m l l' : count_ge m (l ++ l') = (count_ge m l + count_ge m l')%nat.
Proof. unfold count_ge. by rewrite filter_app, length_app. Qed.

Lemma count_ge_all m l : Forall (fun x => m <= x) l -> count_ge m l = length l.
Proof.
  unfold count_ge. induction 1 as [|x l Hx _ IH]; [done|].
  rewrite filter_cons_True by done. cbn. lia.
Qed.

Lemma count_ge_none m l : Forall (fun x => x < m) l -> count_ge m l = 0%nat.
Proof.
  unfold count_ge. induction 1 as [|x l Hx _ IH]; [done|].
  by rewrite filter_cons_False by lia.
Qed.

Lemma count_ge_le m l : (count_ge m l <= length l)%nat.
Proof. apply length_filter. Qed.

(** Elements after (before) position [i] of a sorted list are at least (at
    most) the element there. *)
Lemma sorted_split s i m :
  StronglySorted Z.le s -> s !! i = Some m ->
  Forall (fun x => m <= x) (drop i s) /\ Forall (fun x => x <= m) (take (S i) s).
Proof.
  intros Hs. revert i. induction Hs as [|x s Hs IH Hx]; intros [|i] Hi; cbn in *; try done.
  - simplify_eq. split; repeat constructor; [lia|done|lia].
  - destruct (IH i Hi) as [H1 H2]. split; [done|]. constructor; [|done].
    rewrite Forall_forall in Hx. apply Hx. by eapply list_elem_of_lookup_2.
Qed.

Lemma sorted_count_ge s i m :
  StronglySorted Z.le s -> s !! i = Some m -> (length s - i <= count_ge m s)%nat.
Proof.
  intros Hs Hi. destruct (sorted_split s i m Hs Hi) as [H _].
  rewrite <- (take_drop i s) at 2. rewrite count_ge_app, (count_ge_all _ _ H), length_drop.
  lia.
Qed.

Lemma sorted_count_lt s i x m :
  StronglySorted Z.le s -> s !! i = Some x -> x < m -> (count_ge m s < length s - i)%nat.
Proof.
  intros Hs Hi Hlt. destruct (sorted_split s i x Hs Hi) as [_ H].
  rewrite <- (take_drop (S i) s) at 1. rewrite count_ge_app, count_ge_none.
  - pose proof (count_ge_le m (drop (S i) s)) as Hle. rewrite length_drop in Hle.
    apply lookup_lt_Some in Hi. lia.
  - eapply Forall_impl; [exact H|]. cbn. lia.
Qed.

Definition median11 l : option Z := merge_sort Z.le l !! 5%nat.

Lemma median_slides l t m :
  length l = 11%nat -> median11 l = Some m -> m <= t ->
  exists m', median11 (t :: take 10 l) = Some m' /\ m <= m'.
Proof.
  unfold median11. intros Hl Hm Ht.
  pose proof (sorted_count_ge _ _ _ (StronglySorted_merge_sort Z.le l) Hm) as Hc.
  rewrite (count_ge_perm _ _ _ (merge_sort_Permutation Z.le l)),
    (Permutation_length (merge_sort_Permutation Z.le l)), Hl in Hc.
  set (l' := t :: take 10 l).
  assert (Hl' : length l' = 11%nat) by (unfold l'; cbn; rewrite length_take; lia).
  destruct (lookup_lt_is_Some_2 (merge_sort Z.le l') 5) as [m' Hm'].
  { rewrite (Permutation_length (merge_sort_Permutation Z.le l')). lia. }
  exists m'. split; [done|]. destruct (decide (m <= m')); [done|].
  pose proof (sorted_count_lt _ _ _ m (StronglySorted_merge_sort Z.le l') Hm') as Hlt.
  rewrite (count_ge_perm _ _ _ (merge_sort_Permutation Z.le l')),
    (Permutation_length (merge_sort_Permutation Z.le l')), Hl' in Hlt.
  rewrite <- (take_drop 10 l), count_ge_app in Hc.
  pose proof (count_ge_le m (drop 10 l)) as Hd. rewrite length_drop in Hd.
  change l' with ([t] ++ take 10 l) in Hlt. rewrite count_ge_app in Hlt.
  rewrite (count_ge_all m [t]) in Hlt by (by repeat constructor). cbn in Hlt. lia.
Qed.
End median.

Lemma lineage_take v n h : lineage_timestamps v n h = take n (lineage_timestamps v (S n) h).
Proof.
  revert h. induction n as [|n IH]; intros h; [done|].
  cbn [lineage_timestamps]. destruct (get_block v h) as [b|]; [|done].
  cbn [take]. f_equal. rewrite IH at 1. done.
Qed.

Lemma mtp_some v h m :
  median_time_past_of_lineage v h = Some m ->
  length (lineage_timestamps v 11 h) = 11%nat /\ median11 (lineage_timestamps v 11 h) = Some m.
Proof.
  unfold median_time_past_of_lineage, MTP_WINDOW. cbv zeta.
  assert (Hle : (length (lineage_timestamps v 11 h) <= 11)%nat).
  { generalize 11%nat. intros n. revert h. induction n as [|n IH]; intros h; cbn; [lia|].
    destruct (get_block v h) as [b|]; cbn; [|lia]. specialize (IH (prev_hash (header b))). lia. }
  destruct (Nat.leb_spec 11 (length (lineage_timestamps v 11 h))) as [H|H]; [|done].
  assert (E : length (lineage_timestamps v 11 h) = 11%nat) by lia. rewrite E. done.
Qed.

(** Median time past never goes backwards along a lineage: when a block's
    timestamp passes the rule (greater than the median of its 11 ancestors),
    the median its children are held to is defined and at least as large, for
    every store and every fork. *)
Theorem mtp_never_decreases v h b m :
  get_block v h = Some b ->
  median_time_past_of_lineage v (prev_hash (header b)) = Some m ->
  m < h_timestamp (header b) ->
  exists m', median_time_past_of_lineage v h = Some m' /\ m <= m'.
Proof.
  intros Hb Hm Ht. apply mtp_some in Hm as [Hl Hm].
  destruct (median_slides _ (h_timestamp (header b)) m Hl Hm) as (m'&Hm'&Hle); [lia|].
  exists m'. split; [|done]. rewrite <- lineage_take in Hm'.
  unfold median_time_past_of_lineage, MTP_WINDOW. cbv zeta.
  assert (E : lineage_timestamps v 11 h = h_timestamp (header b)
    :: lineage_timestamps v 10 (prev_hash (header b))).
  { cbn [lineage_timestamps]. by rewrite Hb. }
  rewrite E. assert (El : length (h_timestamp (header b)
    :: lineage_timestamps v 10 (prev_hash (header b))) = 11%nat).
  { cbn [length]. rewrite lineage_take, length_take. lia. }
  rewrite El. exact Hm'.
Qed.

(** ** The fork decision *)

Lemma bytes_ltb_irrefl a : bytes_ltb a a = false.
Proof. induction a as [|x a IH]; cbn; [done|]. by rewrite Z.ltb_irrefl. Qed.

Lemma bytes_ltb_trans a b c :
  bytes_ltb a b = true -> bytes_ltb b c = true -> bytes_ltb a c = true.
Proof.
  revert b c. induction a as [|x a IH]; intros [|y b] [|z c]; cbn; try done.
  destruct (Z.ltb_spec x y), (Z.ltb_spec y x), (Z.ltb_spec y z), (Z.ltb_spec z y),
    (Z.ltb_spec x z), (Z.ltb_spec z x); try lia; try done. apply IH.
Qed.

(** The order fork choice climbs: more work first, then the smaller hash. *)
Definition better (r1 r2 : Z * Hash) : Prop :=
  r1.1 < r2.1 \/ (r1.1 = r2.1 /\ bytes_ltb r2.2 r1.2 = true).

Lemma better_trans r1 r2 r3 : better r1 r2 -> better r2 r3 -> better r1 r3.
Proof.
  unfold better. intros [H1|[H1 B1]] [H2|[H2 B2]]; try (left; lia).
  right. split; [lia|]. by eapply bytes_ltb_trans.
Qed.

Lemma better_irrefl r : ~ better r r.
Proof. intros [H|[_ H]]; [lia|]. by rewrite bytes_ltb_irrefl in H. Qed.

Lemma fork_point_nonneg v fuel visited h n :
  store_wf v -> fork_point_loop v fuel visited h = Some (Some n) -> 0 <= n.
Proof.
  intros Hv. revert visited h. induction fuel as [|fuel IH]; intros visited h; [done|].
  cbn. case_bool_decide; [done|]. destruct (get_block v h) as [b|] eqn:Hb; [|done].
  destruct (on_main_chain v (block_height b) h).
  { intros [= <-]. by eapply wf_height_nonneg. }
  destruct (block_height b =? 0); [intros [= <-]; lia|apply IH].
Qed.

Section decisions.
Context {RF : Type} `{!FinalityGate RF}.
Context (header_hash : BlockHeader -> Hash) (testnet : bool).

(** Everything a performed reorg has passed. *)
Lemma perform_reorg_inv net (rf : option RF) v b fp d :
  evaluate_fork header_hash testnet net rf v b = Some (PerformReorg fp d) ->
  take_fork header_hash v b = true
  /\ find_fork_point v b = Some (Some fp)
  /\ d = sat_sub (block_height b) fp
  /\ evaluate_reorg_acceptability d (calculate_fork_cumulative_work v b)
       (total_difficulty v) (tip_height (tip v)) (max_reorg_depth_for net) = Ok tt
  /\ (forall r s, rf = Some r -> ROLLING_FINALITY_ENFORCE_HEIGHT testnet <= block_height b ->
      current_soft_final r = Some s -> s < fp)
  /\ (finality_floor v <= 0 \/ finality_floor v <= fp).
Proof.
  unfold evaluate_fork. destruct (take_fork header_hash v b); [|done].
  destruct (find_fork_point v b) as [[n|]|]; cbn [mbind option_bind]; try done.
  cbv zeta. destruct (evaluate_reorg_acceptability _ _ _ _ _) as [[]|] eqn:E; [|done].
  destruct rf as [r|].
  - destruct (Z.leb_spec (ROLLING_FINALITY_ENFORCE_HEIGHT testnet) (block_height b)) as [Hh|Hh];
      destruct (would_reorg_violate r n) eqn:W; cbn [andb];
      destruct (Z.ltb_spec 0 (finality_floor v)), (Z.ltb_spec n (finality_floor v));
      cbn [andb]; try done; intros [= <- <-]; split_and!; try done; try lia.
    all: intros r' s [= <-] Hr Hs; try lia.
    all: destruct (decide (s < n)) as [|Hn]; [done|].
    all: enough (would_reorg_violate r n = true) by congruence.
    all: apply violate_spec; exists s; split; [done|lia].
  - destruct (Z.ltb_spec 0 (finality_floor v)), (Z.ltb_spec n (finality_floor v));
      cbn [andb]; try done; intros [= <- <-]; split_and!; try done; try lia.
Qed.
End decisions.

(** A performed reorg respects every finality rule: it stays within the
    network's depth cap, it is above the miner-attested soft-final height once
    that rule is enforced, and it rewinds at most 143 blocks of the current
    chain on every network, whatever its work: the checkpoint floor makes the
    1000-block cap of the test networks unreachable. *)
Theorem performed_reorg_is_bounded {RF} `{!FinalityGate RF} header_hash testnet net
    (rf : option RF) v b fp d :
  store_wf v -> 0 <= tip_height (tip v) ->
  evaluate_fork header_hash testnet net rf v b = Some (PerformReorg fp d) ->
  tip_height (tip v) - fp <= 143
  /\ d <= max_reorg_depth_for net
  /\ (forall r s, rf = Some r -> ROLLING_FINALITY_ENFORCE_HEIGHT testnet <= block_height b ->
      current_soft_final r = Some s -> s < fp).
Proof.
  intros Hv Ht H. apply perform_reorg_inv in H as (_&Hfp&Hd&Hr&Hs&Hf).
  apply reorg_accepted_iff in Hr as [Hr _]. split_and!; [|done|done].
  assert (0 <= fp) by (by eapply fork_point_nonneg).
  unfold finality_floor, CHECKPOINT_INTERVAL in Hf.
  pose proof (Z.mod_pos_bound (tip_height (tip v)) 144). lia.
Qed.

(** Two nodes that saw different blocks at a checkpoint height never
    converge.  Once the tip is at or above a positive multiple [c] of 144, no
    branch whose fork point is below [c] is ever adopted, on any network and
    with any amount of work, so a node that accepted one of two competing
    blocks at height [c] keeps it although the other branch is heavier. *)
Theorem checkpoint_race_never_heals {RF} `{!FinalityGate RF} header_hash testnet net
    (rf : option RF) v b n c :
  0 < c -> c mod 144 = 0 -> c <= tip_height (tip v) ->
  find_fork_point v b = Some (Some n) -> n < c ->
  forall fp d, evaluate_fork header_hash testnet net rf v b <> Some (PerformReorg fp d).
Proof.
  intros Hc Hm Ht Hn Hlt fp d H. apply perform_reorg_inv in H as (_&Hfp&_&_&_&Hf).
  rewrite Hn in Hfp. injection Hfp as <-.
  assert (c <= finality_floor v); [|lia].
  unfold finality_floor, CHECKPOINT_INTERVAL.
  pose proof (Z.div_mod (tip_height (tip v)) 144). pose proof (Z.div_mod c 144).
  assert (c / 144 <= tip_height (tip v) / 144) by (apply Z.div_le_mono; lia). lia.
Qed.

(** ** Witnesses *)

(** A gate with nothing finalised. *)
#[local] Instance open_gate : FinalityGate unit.
Proof.
  refine {| would_reorg_violate := fun _ _ => false; current_soft_final := fun _ => None |}.
  intros. split; [done|]. by intros (?&?&?).
Defined.

(** Blocks identified by their nonce. *)
Definition demo_block (n h t p : Z) : Block :=
  mkBlock (mkBlockHeader [] 1 h t [p] [] [] 0 n (replicate 32 1) [] [] None [] []) [].

Definition demo_hash (hd : BlockHeader) : Hash := [nonce hd].

Definition demo_store (l : list Block) : gmap Hash Block :=
  list_to_map ((fun b => (demo_hash (header b), b)) <$> l).

(** Main chain 0-1-2; a fork 3-4 on genesis and its tip 5. *)
Definition demo_view : ChainView :=
  mkChainView
    (demo_store [demo_block 0 0 10 0; demo_block 1 1 20 0; demo_block 2 2 30 1;
                 demo_block 3 1 20 0; demo_block 4 2 30 3])
    (list_to_map [(0, [0]); (1, [1]); (2, [2])])
    (mkChainTip [2] 2 255 30) (1 + 255 + 255) None.

Definition demo_fork_tip : Block := demo_block 5 3 40 4.

Definition store_check (v : ChainView) (b : Block) : bool :=
  (0 <=? block_height b)
  && ((block_height b =? 0)
      || match get_block v (prev_hash (header b)) with
         | Some p => block_height p =? block_height b - 1
         | None => false
         end).

Lemma store_wf_check v :
  db v = None -> map_Forall (fun _ b => store_check v b = true) (blocks v) -> store_wf v.
Proof.
  intros Hd Hc.
  assert (Hb : forall h b, get_block v h = Some b -> store_check v b = true).
  { intros h b. unfold get_block. destruct (blocks v !! h) eqn:E; [|by rewrite Hd].
    intros [= <-]. by apply (Hc h). }
  split; intros h b H; apply Hb in H; unfold store_check in H;
    apply andb_true_iff in H as [H1 H2]; [lia|].
  intros Hn. destruct (Z.eqb_spec (block_height b) 0); [done|]. cbn in H2.
  destruct (get_block v (prev_hash (header b))) as [p|]; [|done]. exists p. split; [done|lia].
Qed.

Lemma demo_store_wf : store_wf demo_view.
Proof. apply store_wf_check; [done|]. by apply (bool_decide_unpack _). Qed.

Lemma demo_targets_wf : targets_wf demo_view.
Proof.
  intros h b. unfold get_block. destruct (blocks demo_view !! h) as [c|] eqn:E; [|done].
  intros [= <-].
  assert (H : map_Forall (fun _ c => h_target (header c) = replicate 32 1) (blocks demo_view))
    by (by apply (bool_decide_unpack _)).
  rewrite (H _ _ E). apply Forall_replicate. word_lia.
Qed.

Lemma demo_main_wf : main_wf demo_view 2.
Proof.
  split.
  - intros h Hh. assert (h = 0 \/ h = 1 \/ h = 2) as [->|[->| ->]] by lia;
      do 2 eexists; (split; [reflexivity|]); (split; [reflexivity|]);
      (split; [reflexivity|]); [lia|by intros..].
  - intros h Hh. unfold get_block_hash; cbn [height_to_hash db demo_view].
    rewrite !list_to_map_cons, !lookup_insert_ne by lia. done.
Qed.

Lemma reorg_rule_exact_witness :
  evaluate_reorg_acceptability 50 401 100 2000 1000 = Ok tt.
Proof. apply reorg_rule_exact; [lia|word_lia|]. split; [lia|]. vm_compute. reflexivity. Defined.

Lemma reorg_rule_monotone_witness :
  evaluate_reorg_acceptability 49 402 99 2000 1000 = Ok tt.
Proof.
  apply (reorg_rule_monotone 50 49 401 402 100 99); try lia; [word_lia|reflexivity].
Defined.

Lemma fork_point_is_common_ancestor_witness :
  exists chain, collect_fork_chain demo_view demo_fork_tip 0 = Some chain
    /\ length chain = 2%nat.
Proof.
  destruct (fork_point_is_common_ancestor demo_view demo_fork_tip (demo_block 4 2 30 3))
    as (n&chain&E&_&_&_&Hc&Hl&_); [apply demo_store_wf|reflexivity|reflexivity|].
  assert (n = 0) as -> by (vm_compute in E; congruence).
  exists chain. split; [exact Hc|]. cbn in Hl. lia.
Defined.

Lemma fork_work_decomposes_witness :
  calculate_fork_cumulative_work demo_view demo_fork_tip =
    Z.min u128_max (1 + (block_work (demo_block 3 1 20 0) + (block_work (demo_block 4 2 30 3) + 0))
      + block_work demo_fork_tip).
Proof.
  destruct (fork_work_decomposes demo_view 2 demo_fork_tip (demo_block 4 2 30 3))
    as (n&chain&t&E&Hc&Ht&Hw);
    [apply demo_store_wf|apply demo_targets_wf|apply demo_main_wf|lia|split; vm_compute; discriminate
    |apply Forall_replicate; word_lia|reflexivity|reflexivity|].
  vm_compute in E. injection E as <-. vm_compute in Hc. injection Hc as <-.
  vm_compute in Ht. injection Ht as <-. exact Hw.
Defined.

Lemma performed_reorg_is_bounded_witness : tip_height (tip demo_view) - 0 <= 143.
Proof.
  apply (performed_reorg_is_bounded (RF := unit) demo_hash true Testnet None demo_view
    demo_fork_tip 0 3); [apply demo_store_wf|cbn; lia|vm_compute; reflexivity].
Defined.

(** Tip at height 144; a competing block at height 144 on the same parent. *)
Definition race_view : ChainView :=
  mkChainView (demo_store [demo_block 7 143 10 6; demo_block 8 144 20 7])
    (list_to_map [(143, [7]); (144, [8])]) (mkChainTip [8] 144 1 20) 100 None.

Lemma checkpoint_race_never_heals_witness :
  evaluate_fork (RF := unit) demo_hash true Testnet None race_view
    (demo_block 9 144 21 7) <> Some (PerformReorg 143 1).
Proof.
  apply (checkpoint_race_never_heals demo_hash true Testnet None race_view
    (demo_block 9 144 21 7) 143 144); try (cbn; lia); vm_compute; reflexivity.
Defined.

Definition clock_view : ChainView :=
  mkChainView (demo_store ((fun i => demo_block i i (100 * i) (i - 1)) <$> seqZ 0 12))
    ∅ (mkChainTip [11] 11 1 1100) 100 None.

Lemma mtp_never_decreases_witness :
  exists m', median_time_past_of_lineage clock_view [11] = Some m' /\ 500 <= m'.
Proof.
  apply (mtp_never_decreases clock_view [11] (demo_block 11 11 1100 10) 500);
    [vm_compute; reflexivity..|cbn; lia].
Defined.
