(* ===== verification/Chain.v ===== *)
(** * The chain state machine ([src/chain.rs])

    [Blockchain] with its mutable state: [add_block] from the known-block check
    to the commit of an extension or a reorganisation, [init_genesis], the
    cache eviction, [rollback_to_height] and the restart ([load_from_database]).  The on-disk output index is the
    one the UTXO set holds ([Utxo.db]; the source shares one [Database] through
    two [Arc]s).  Block validation, the phase-2 stores and the finality adapter
    are seen through the classes [BlockValidator], [Phase2Stores], [FinalityGate]
    and [FinalityFeed], the hard-coded checkpoint lists are an argument; a [panic!] is the outcome
    [Panic] and lack of fuel the outcome [OutOfFuel]. *)

From stdpp Require Import prelude gmap sorting.
From Stdlib Require Import ZArith Lia.
From S2P Require Import Prelude Constants Emission FeeMarket Difficulty Block Utxo ForkChoice.

Local Open Scope Z_scope.

(** ** Outcomes *)

Inductive exec (A : Type) : Type :=
| Ret (a : A)
| Panic
| OutOfFuel.
Arguments Ret {A} a.
Arguments Panic {A}.
Arguments OutOfFuel {A}.

#[export] Instance exec_ret : MRet exec := fun A a => Ret a.
#[export] Instance exec_bind : MBind exec := fun A B k m =>
  match m with Ret a => k a | Panic => Panic | OutOfFuel => OutOfFuel end.

Definition or_panic {A} (o : option A) : exec A :=
  match o with Some a => Ret a | None => Panic end.
Definition or_fuel {A} (o : option A) : exec A :=
  match o with Some a => Ret a | None => OutOfFuel end.

(** ** Data *)

Inductive invalid_reason :=
| InvalidHeight
| CheckpointMismatch
| ValidationFailed
| NotAboveMedianTimePast
| TargetMismatch
| ReorgBelowFloor
| ForkBlockError
| ForkBlockInvalid
| ForkBlockTarget
| ReorgTipInvalid
| ReorgTipError
| ReorgTipTarget.

#[export] Instance invalid_reason_eq_dec : EqDecision invalid_reason.
Proof. solve_decision. Defined.

Inductive BlockStatus :=
| Accepted
| AcceptedFork
| AcceptedReorg (orphaned_txs : list Transaction)
| AlreadyKnown
| Orphan
| Invalid (reason : invalid_reason).

(** [Error], as far as the chain returns it. *)
Inductive chain_error :=
| CorruptionError
| ReorgTooDeepError (depth max : Z)
| InvalidStateError
| DatabaseError.

Record ChainStats := mkChainStats {
  s_height : Z;
  total_blocks : Z;
  total_transactions : Z;
  total_supply : Z;
  total_burned : Z;
  s_difficulty : Z;
  s_tip_hash : Hash;
  s_total_difficulty : Z;
}.

Definition ChainStats_default : ChainStats :=
  mkChainStats 0 0 0 0 0 0 zero_hash 0.

Inductive ChainEventType :=
  BlockAccepted | ForkDetected | Reorg | OrphanReceived | BlockRejected
| CheckpointRecorded.

(** Event type, height, hash and time; the JSON details are for display. *)
Record ChainEvent := mkChainEvent {
  event_type : ChainEventType;
  ev_height : Z;
  ev_hash : Hash;
  ev_timestamp : Z;
}.

Definition MAX_CHAIN_EVENTS : nat := 500.
Definition MAX_BLOCK_CACHE : nat := 500.

Record ChainStateData := mkChainStateData {
  cs_tip_hash : Hash;
  cs_height : Z;
  cs_total_difficulty : Z;
  cs_total_supply : Z;
  cs_total_burned : Z;
  cs_last_checkpoint : Z;
}.

(** The trees of the database the chain uses ([db.blocks], [db.state],
    [tx_index]); the output index is in the UTXO set. *)
Record Database := mkDatabase {
  d_blocks : DbView;
  d_state : option ChainStateData;
  d_checkpoints : gmap Z Hash;
  d_genesis : option Hash;
  d_tx_index : gmap Hash (Z * Z);
}.

(** [validate_block_with_checkpoint_for_network]: an error, or whether the
    block is valid, from its parent, the UTXO set and the assume-valid height.
    The law is the one the chain relies on: only genesis is valid without its
    parent ([check_header_vs_prev]). *)
Class BlockValidator := {
  validate : Block -> option Block -> UtxoSet -> option Z -> NetworkType ->
    result unit bool;
  validate_needs_parent : forall b u cp net,
    validate b None u cp net = Ok true -> block_height b = 0;
}.

(** The finality adapter as a consumer of accepted blocks. *)
Class FinalityFeed (RF : Type) := on_accepted : RF -> Z -> list Z -> RF.

(** The three phase-2 stores, checkpointed and rewound together. *)
Class Phase2Stores (P : Type) := {
  checkpoint_phase2_stores : P -> Z -> P;
  rewind_phase2_stores : P -> Z -> P;
}.

Record Chain {RF P2 : Type} := mkChain {
  c_blocks : gmap Hash Block;
  c_heights : gmap Z Hash;
  c_tip : ChainTip;
  c_stats : ChainStats;
  c_genesis : option Hash;
  c_utxos : UtxoSet;
  c_events : list ChainEvent;
  c_db : option Database;
  c_network : NetworkType;
  c_finality : option RF;
  c_phase2 : P2;
}.
Arguments Chain : clear implicits.
Arguments mkChain {RF P2}.

Section setters.
Context {RF P2 : Type}.
Implicit Types c : Chain RF P2.

Definition set_blocks c x := mkChain x (c_heights c) (c_tip c) (c_stats c) (c_genesis c)
  (c_utxos c) (c_events c) (c_db c) (c_network c) (c_finality c) (c_phase2 c).
Definition set_heights c x := mkChain (c_blocks c) x (c_tip c) (c_stats c) (c_genesis c)
  (c_utxos c) (c_events c) (c_db c) (c_network c) (c_finality c) (c_phase2 c).
Definition set_tip c x := mkChain (c_blocks c) (c_heights c) x (c_stats c) (c_genesis c)
  (c_utxos c) (c_events c) (c_db c) (c_network c) (c_finality c) (c_phase2 c).
Definition set_stats c x := mkChain (c_blocks c) (c_heights c) (c_tip c) x (c_genesis c)
  (c_utxos c) (c_events c) (c_db c) (c_network c) (c_finality c) (c_phase2 c).
Definition set_genesis c x := mkChain (c_blocks c) (c_heights c) (c_tip c) (c_stats c) x
  (c_utxos c) (c_events c) (c_db c) (c_network c) (c_finality c) (c_phase2 c).
Definition set_utxos c x := mkChain (c_blocks c) (c_heights c) (c_tip c) (c_stats c)
  (c_genesis c) x (c_events c) (c_db c) (c_network c) (c_finality c) (c_phase2 c).
Definition set_events c x := mkChain (c_blocks c) (c_heights c) (c_tip c) (c_stats c)
  (c_genesis c) (c_utxos c) x (c_db c) (c_network c) (c_finality c) (c_phase2 c).
Definition set_db c x := mkChain (c_blocks c) (c_heights c) (c_tip c) (c_stats c)
  (c_genesis c) (c_utxos c) (c_events c) x (c_network c) (c_finality c) (c_phase2 c).
Definition set_finality c (x : option RF) := mkChain (c_blocks c) (c_heights c) (c_tip c) (c_stats c)
  (c_genesis c) (c_utxos c) (c_events c) (c_db c) (c_network c) x (c_phase2 c).
Definition set_phase2 c (x : P2) := mkChain (c_blocks c) (c_heights c) (c_tip c) (c_stats c)
  (c_genesis c) (c_utxos c) (c_events c) (c_db c) (c_network c) (c_finality c) x.

(** What the fork-choice code reads. *)
Definition view c : ChainView :=
  mkChainView (c_blocks c) (c_heights c) (c_tip c) (s_total_difficulty (c_stats c))
    (d_blocks <$> c_db c).
End setters.

Definition set_supply (s : ChainStats) (supply burned : Z) : ChainStats :=
  mkChainStats (s_height s) (total_blocks s) (total_transactions s) supply burned
    (s_difficulty s) (s_tip_hash s) (s_total_difficulty s).

(** ** Supply and burn *)

(** [calculate_block_reward] *)
Definition calculate_block_reward (height : Z) : exec Z := or_fuel (base_reward height).

Definition add_supply (s : ChainStats) (emission fee_burn : Z) : exec ChainStats :=
  supply ← or_panic (checked_add u128_max (total_supply s) emission);
  burned ← or_panic (checked_add u128_max (total_burned s) fee_burn);
  Ret (set_supply s supply burned).

Definition sub_supply (s : ChainStats) (emission fee_burn : Z) : exec ChainStats :=
  supply ← or_panic (checked_sub (total_supply s) emission);
  burned ← or_panic (checked_sub (total_burned s) fee_burn);
  Ret (set_supply s supply burned).

(** ** The block cache *)

(** The body of the eviction loop, on the entries in height order. *)
Fixpoint evict_loop (tip_height : Z) (to_evict evicted : nat)
    (entries : list (Z * Hash)) (bs : gmap Hash Block) (hs : gmap Z Hash)
  : gmap Hash Block * gmap Z Hash :=
  match entries with
  | [] => (bs, hs)
  | (height, hash) :: entries =>
      if (to_evict <=? evicted)%nat then (bs, hs)
      else if height =? 0 then evict_loop tip_height to_evict evicted entries bs hs
      else if tip_height <=? wrap64 (height + 200) then
        evict_loop tip_height to_evict evicted entries bs hs
      else evict_loop tip_height to_evict (S evicted) entries (delete hash bs)
             (delete height hs)
  end.

Definition entry_le (a b : Z * Hash) : Prop := a.1 <= b.1.
#[export] Instance entry_le_dec a b : Decision (entry_le a b).
Proof. apply Z_le_dec. Defined.

Definition evict_block_cache {RF P2} (c : Chain RF P2) : Chain RF P2 :=
  if (size (c_blocks c) <=? MAX_BLOCK_CACHE)%nat then c
  else
    let entries := merge_sort entry_le (map_to_list (c_heights c)) in
    let to_evict := (size (c_blocks c) - MAX_BLOCK_CACHE)%nat in
    let '(bs, hs) := evict_loop (tip_height (c_tip c)) to_evict 0 entries
                       (c_blocks c) (c_heights c) in
    set_heights (set_blocks c bs) hs.

(** Push at the back of the bounded ring buffer. *)
Definition record_event {RF P2} (c : Chain RF P2) (ty : ChainEventType) (height : Z)
    (hash : Hash) (now : Z) : Chain RF P2 :=
  let events :=
    if (MAX_CHAIN_EVENTS <=? length (c_events c))%nat then drop 1 (c_events c)
    else c_events c in
  set_events c (events ++ [mkChainEvent ty height hash now]).

(** ** [add_block] *)

Section chain.
Context {RF P2 : Type} `{!FinalityGate RF} `{!FinalityFeed RF} `{!Phase2Stores P2}.
Context {BV : BlockValidator}.
(** Hash of a header, hash and serialised size of a transaction. *)
Context (header_hash : BlockHeader -> Hash) (tx_hash : Transaction -> Hash).
Context (tx_size : Transaction -> Z).
(** The hard-coded checkpoints of each network. *)
Context (checkpoints : NetworkType -> list (Z * Hash)).
(** The crate feature that selects the activation heights. *)
Context (testnet : bool).

Implicit Types (c : Chain RF P2) (b : Block).

Definition hash_of b : Hash := header_hash (header b).

Definition block_fee_burn b : Z :=
  let total_fees :=
    foldl (fun acc f => sat_add u64_max acc f) 0
      (fee <$> filter (fun tx => is_coinbase tx = false) (transactions b)) in
  if (block_height b <? FEE_DISTRIBUTION_HEIGHT testnet) || (total_fees =? 0) then 0
  else
    let congestion_pct := wrap64 (block_size tx_size b * 100 / MAX_BLOCK_SIZE) in
    let congested := CONGESTION_THRESHOLD <=? congestion_pct in
    burned (distribute_fee total_fees congested).

Definition verify_checkpoint (net : NetworkType) (height : Z) (hash : Hash)
  : option bool :=
  (fun cp => bool_decide (cp.2 = hash)) <$>
    head (filter (fun cp => cp.1 = height) (checkpoints net)).

(** The difficulty window of a block on a fork: heights [start..height), from
    the main chain up to the fork point, from [above] after it. *)
Definition fork_window c (height fork_point : Z) (above : list DifficultyBlock)
  : list DifficultyBlock :=
  let start := sat_sub height 144 in
  omap (fun i =>
    let h := start + Z.of_nat i in
    if h <=? fork_point then
      hash ← c_heights c !! h;
      b ← c_blocks c !! hash;
      Some (mkDifficultyBlock h (h_timestamp (header b)) (h_target (header b)))
    else above !! Z.to_nat (h - fork_point - 1))
    (seq 0 (Z.to_nat (height - start))).

Definition to_difficulty_block b : DifficultyBlock :=
  mkDifficultyBlock (block_height b) (h_timestamp (header b)) (h_target (header b)).

(** Is the target of [b] the one the window demands? *)
Definition target_ok (window : list DifficultyBlock) b : bool :=
  if (2 <=? length window)%nat then
    bool_decide (calculate_difficulty window (block_height b) = Some (h_target (header b)))
  else true.

(** The walk of the admission check back to the main chain, over the cache. *)
Fixpoint trace_fork c (fuel : nat) (cursor : Hash) (fork_chain : list DifficultyBlock)
  : option (Z * list DifficultyBlock) :=
  match fuel with
  | O => None
  | S fuel =>
      match c_blocks c !! cursor with
      | None => Some (0, fork_chain)
      | Some blk =>
          let h := block_height blk in
          if bool_decide (c_heights c !! h = Some cursor) then Some (h, fork_chain)
          else
            let fork_chain := fork_chain ++ [to_difficulty_block blk] in
            if h =? 0 then Some (0, fork_chain)
            else trace_fork c fuel (prev_hash (header blk)) fork_chain
      end
  end.

Definition admission_window c b (is_main_chain : bool) : exec (list DifficultyBlock) :=
  if is_main_chain then Ret (get_difficulty_blocks (view c) (block_height b))
  else
    '(fork_point, fork_chain) ←
      or_fuel (trace_fork c (S (size (c_blocks c))) (prev_hash (header b)) []);
    Ret (fork_window c (block_height b) fork_point (reverse fork_chain)).

Definition db_contains (d : option Database) (h : Hash) : bool :=
  match d with
  | Some d => bool_decide (is_Some (db_blocks (d_blocks d) !! h))
  | None => false
  end.

Definition db_insert_block (d : Database) (h : Hash) b : Database :=
  mkDatabase (mkDbView (<[h := b]> (db_blocks (d_blocks d))) (db_heights (d_blocks d)))
    (d_state d) (d_checkpoints d) (d_genesis d) (d_tx_index d).

(** The block data goes to the cache and to the database, without a height. *)
Definition store_block c b : Chain RF P2 :=
  let c := set_blocks c (<[hash_of b := b]> (c_blocks c)) in
  set_db c ((fun d => db_insert_block d (hash_of b) b) <$> c_db c).

(** [last_checkpoint] of the persisted state, if positive. *)
Definition assume_valid c : option Z :=
  d ← c_db c; s ← d_state d;
  if 0 <? cs_last_checkpoint s then Some (cs_last_checkpoint s) else None.

(** The outcome of the checks before the block is stored: an early return, or
    the snapshot of the tip hash the main-chain decision was taken on. *)
Inductive admission :=
| Returned (r : result chain_error BlockStatus)
| Stored (tip_snapshot : Hash) (is_main_chain : bool).

Definition is_main b (tip_snapshot : Hash) : bool :=
  bool_decide (prev_hash (header b) = tip_snapshot) || (block_height b =? 0).

(** Everything of [add_block] up to the storing of the block. *)
Definition admit_block c (now : Z) b : exec (Chain RF P2 * admission) :=
  let hash := hash_of b in
  if bool_decide (is_Some (c_blocks c !! hash)) || db_contains (c_db c) hash then
    Ret (c, Returned (Ok AlreadyKnown))
  else
  let parent := get_block (view c) (prev_hash (header b)) in
  if bool_decide (parent = None) && (0 <? block_height b) then
    Ret (record_event c OrphanReceived (block_height b) hash now, Returned (Ok Orphan))
  else
  let expected_height :=
    if block_height b =? 0 then 0
    else match parent with Some p => wrap64 (block_height p + 1) | None => 0 end in
  if negb (block_height b =? expected_height) then
    Ret (c, Returned (Ok (Invalid InvalidHeight)))
  else
  let tip_snapshot := tip_hash (c_tip c) in
  let is_main_chain := is_main b tip_snapshot in
  match verify_checkpoint (c_network c) (block_height b) hash with
  | Some false => Ret (c, Returned (Ok (Invalid CheckpointMismatch)))
  | _ =>
  match validate b parent (c_utxos c) (assume_valid c) (c_network c) with
  | Err _ => Ret (c, Returned (Err InvalidStateError))
  | Ok false =>
      Ret (record_event c BlockRejected (block_height b) hash now,
           Returned (Ok (Invalid ValidationFailed)))
  | Ok true =>
  let mtp_ok :=
    if 11 <=? block_height b then
      match median_time_past_of_lineage (view c) (prev_hash (header b)) with
      | Some mtp => negb (h_timestamp (header b) <=? mtp)
      | None => true
      end
    else true in
  if negb mtp_ok then Ret (c, Returned (Ok (Invalid NotAboveMedianTimePast)))
  else
  diff_ok ←
    (if 1 <=? block_height b then
       window ← admission_window c b is_main_chain; Ret (target_ok window b)
     else Ret true);
  if negb diff_ok then Ret (c, Returned (Ok (Invalid TargetMismatch)))
  else
    Ret (store_block c b, Stored tip_snapshot is_main_chain)
  end
  end.

(** ** Extending the tip *)

(** [persist_output_index]: oldest entry wins. *)
Definition entry_of (height : Z) (tx : Transaction) (o : TxOutput) : OutputIndexEntry :=
  mkOutputIndexEntry (commitment o) height (is_coinbase tx) (lock_height o).

Definition block_entries (height : Z) (txs : list Transaction)
  : list (PublicKey * OutputIndexEntry) :=
  concat ((fun tx => (fun o => (stealth_address o, entry_of height tx o)) <$> outputs tx)
    <$> txs).

Definition set_output_db (u : UtxoSet) (d : option (gmap PublicKey OutputIndexEntry))
  : UtxoSet :=
  mkUtxoSet (u_outputs u) (u_key_images u) (height_index u) (locator_index u)
    (locator_outputs u) (stealth_index u) (output_index u) d (total_outputs_ever u)
    (reorg_disconnects_total u).

Definition persist_output_index c (txs : list Transaction) (height : Z) : Chain RF P2 :=
  let insert d := foldl (fun d e => or_insert e.1 e.2 d) d (block_entries height txs) in
  set_utxos c (set_output_db (c_utxos c) (insert <$> Utxo.db (c_utxos c))).

(** [index_tx] for every transaction, by position. *)
Definition tx_locations (height : Z) (txs : list Transaction) : list (Hash * (Z * Z)) :=
  imap (fun i tx => (tx_hash tx, (height, wrap32 (Z.of_nat i)))) txs.

Definition index_txs (m : gmap Hash (Z * Z)) (l : list (Hash * (Z * Z)))
  : gmap Hash (Z * Z) :=
  foldl (fun m e => <[e.1 := e.2]> m) m l.

(** The section under the write lock, after the race check. *)
Definition extend_tip c b : exec (Chain RF P2) :=
  let hash := hash_of b in
  let height := block_height b in
  let difficulty := ForkChoice.calculate_difficulty_from_target (h_target (header b)) in
  let c := set_heights c (<[height := hash]> (c_heights c)) in
  let c := set_tip c (mkChainTip hash height difficulty (h_timestamp (header b))) in
  let s := c_stats c in
  let s := mkChainStats height (wrap64 (total_blocks s + 1))
    (wrap64 (total_transactions s + Z.of_nat (length (transactions b))))
    (total_supply s) (total_burned s) difficulty hash
    (wrap128 (s_total_difficulty s + difficulty)) in
  emission ← calculate_block_reward height;
  s ← add_supply s emission (block_fee_burn b);
  let c := set_stats c s in
  let c := set_phase2 c (checkpoint_phase2_stores (c_phase2 c) height) in
  let c := set_utxos c (connect tx_hash (c_utxos c) height (transactions b)) in
  let c := set_utxos c (evict_old_outputs (c_utxos c) height 1000) in
  Ret (evict_block_cache c).

(** The database part after the lock is released, with the event of an
    automatic checkpoint. *)
Definition persist_extension c (now : Z) b : Chain RF P2 :=
  let hash := hash_of b in
  let height := block_height b in
  match c_db c with
  | None => c
  | Some d =>
      let at_checkpoint := (0 <? height) && (height mod CHECKPOINT_INTERVAL =? 0) in
      let last_checkpoint :=
        if at_checkpoint then height
        else match d_state d with Some s => cs_last_checkpoint s | None => 0 end in
      let s := c_stats c in
      let d := mkDatabase
        (mkDbView (db_blocks (d_blocks d)) (<[height := hash]> (db_heights (d_blocks d))))
        (Some (mkChainStateData hash height (s_total_difficulty s) (total_supply s)
                 (wrap64 (total_burned s)) last_checkpoint))
        (if at_checkpoint then <[height := hash]> (d_checkpoints d) else d_checkpoints d)
        (d_genesis d)
        (index_txs (d_tx_index d) (tx_locations height (transactions b))) in
      let c := set_db c (Some d) in
      if at_checkpoint then record_event c CheckpointRecorded height hash now else c
  end.

(** The [extra] field of the coinbase, if the first transaction is one. *)
Definition coinbase_extra b : list Z :=
  match transactions b with
  | tx :: _ => if is_coinbase tx then extra tx else []
  | [] => []
  end.

Definition feed_finality c b : Chain RF P2 :=
  if ROLLING_FINALITY_ENABLE_HEIGHT testnet <=? block_height b then
    set_finality c
      ((fun rf => on_accepted rf (block_height b) (coinbase_extra b)) <$> c_finality c)
  else c.

Definition accept_extension c (now : Z) b : exec (Chain RF P2) :=
  c ← extend_tip c b;
  let c := persist_output_index c (transactions b) (block_height b) in
  let c := persist_extension c now b in
  let c := feed_finality c b in
  Ret (record_event c BlockAccepted (block_height b) (hash_of b) now).

(** ** Reorganisation *)

(** What the disconnect loop collects; heights and transaction lists newest
    first. *)
Record Disconnected := mkDisconnected {
  disconnected_blocks : Z;
  disconnected_txs : Z;
  disconnected_tx_lists : list (list Transaction);
  disconnected_heights : list (Z * Hash);
}.

Definition no_disconnected : Disconnected := mkDisconnected 0 0 [] [].

(** Undo the effect of a block on the UTXO set, the phase-2 stores and the
    supply counters. *)
Definition unapply_block c (height : Z) b : exec (Chain RF P2) :=
  let c := set_utxos c (disconnect tx_hash (c_utxos c) (transactions b)) in
  let c := set_phase2 c (rewind_phase2_stores (c_phase2 c) height) in
  emission ← calculate_block_reward height;
  s ← sub_supply (c_stats c) emission (block_fee_burn b);
  Ret (set_stats c s).

Definition disconnect_height c (d : Disconnected) (h : Z)
  : exec (Chain RF P2 * Disconnected) :=
  match c_heights c !! h with
  | None => Ret (c, d)
  | Some oh =>
      '(c, d) ←
        match c_blocks c !! oh with
        | None => Ret (c, d)
        | Some ob =>
            c ← unapply_block c h ob;
            Ret (c, mkDisconnected (wrap64 (disconnected_blocks d + 1))
              (wrap64 (disconnected_txs d + Z.of_nat (length (transactions ob))))
              (disconnected_tx_lists d ++ [transactions ob]) (disconnected_heights d))
        end;
      Ret (set_heights c (delete h (c_heights c)),
           mkDisconnected (disconnected_blocks d) (disconnected_txs d)
             (disconnected_tx_lists d) (disconnected_heights d ++ [(h, oh)]))
  end.

(** [for h in (low + 1..=low + n).rev()] *)
Fixpoint disconnect_loop c (d : Disconnected) (low : Z) (n : nat)
  : exec (Chain RF P2 * Disconnected) :=
  match n with
  | O => Ret (c, d)
  | S m =>
      '(c, d) ← disconnect_height c d (low + Z.of_nat n);
      disconnect_loop c d low m
  end.

(** Connect one validated fork block. *)
Definition connect_fork_block c b : exec (Chain RF P2) :=
  let height := block_height b in
  let c := set_heights c (<[height := hash_of b]> (c_heights c)) in
  let c := set_phase2 c (checkpoint_phase2_stores (c_phase2 c) height) in
  let c := set_utxos c (connect tx_hash (c_utxos c) height (transactions b)) in
  emission ← calculate_block_reward height;
  s ← add_supply (c_stats c) emission (block_fee_burn b);
  Ret (set_stats c s).

(** Validation of a block of the fork against the reorganised state. *)
Definition fork_block_error c (fork_point : Z) (below : list Block) b
  : option invalid_reason :=
  let parent := c_blocks c !! prev_hash (header b) in
  match validate b parent (c_utxos c) None (c_network c) with
  | Err _ => Some ForkBlockError
  | Ok false => Some ForkBlockInvalid
  | Ok true =>
      if 1 <=? block_height b then
        if target_ok (fork_window c (block_height b) fork_point
                        (to_difficulty_block <$> below)) b
        then None else Some ForkBlockTarget
      else None
  end.

(** The loop over [fork_blocks]; [below] are the ones connected so far. *)
Fixpoint connect_loop c (fork_point : Z) (below rest : list Block)
  : exec (Chain RF P2 * option invalid_reason) :=
  match rest with
  | [] => Ret (c, None)
  | b :: rest =>
      match fork_block_error c fork_point below b with
      | Some e => Ret (c, Some e)
      | None =>
          c ← connect_fork_block c b;
          connect_loop c fork_point (below ++ [b]) rest
      end
  end.

Definition reorg_tip_error c b : option invalid_reason :=
  match validate b (c_blocks c !! prev_hash (header b)) (c_utxos c) None (c_network c) with
  | Err _ => Some ReorgTipError
  | Ok false => Some ReorgTipInvalid
  | Ok true => None
  end.

Definition reorg_tip_target_error c (fork_point : Z) (fork_blocks : list Block) b
  : option invalid_reason :=
  if 1 <=? block_height b then
    if target_ok (fork_window c (block_height b) fork_point
                    (to_difficulty_block <$> fork_blocks)) b
    then None else Some ReorgTipTarget
  else None.

(** Undo the connected fork blocks, newest first; [guarded] is the check of
    the height map that the first rollback path makes. *)
Fixpoint undo_fork_blocks (guarded : bool) c (rev_blocks : list Block)
  : exec (Chain RF P2) :=
  match rev_blocks with
  | [] => Ret c
  | b :: rest =>
      if negb guarded || bool_decide (c_heights c !! block_height b = Some (hash_of b)) then
        c ← unapply_block c (block_height b) b;
        undo_fork_blocks guarded c rest
      else undo_fork_blocks guarded c rest
  end.

(** [for h in low + 1..=high { height_to_hash.remove(&h) }] *)
Definition remove_heights (hs : gmap Z Hash) (low high : Z) : gmap Z Hash :=
  filter (fun kv => ~ (low < kv.1 <= high)) hs.

Definition reapply_block c (e : Z * Hash) : Chain RF P2 :=
  let c := set_heights c (<[e.1 := e.2]> (c_heights c)) in
  match c_blocks c !! e.2 with
  | None => c
  | Some ob =>
      let c := set_phase2 c (checkpoint_phase2_stores (c_phase2 c) e.1) in
      set_utxos c (connect tx_hash (c_utxos c) e.1 (transactions ob))
  end.

(** Either rollback path: undo the fork, clear its height mappings up to
    [high], re-apply the disconnected blocks, restore tip and statistics. *)
Definition roll_back (guarded : bool) c (pre_tip : ChainTip) (pre_stats : ChainStats)
    (fork_point high : Z) (fork_blocks : list Block) (d : Disconnected)
  : exec (Chain RF P2) :=
  c ← undo_fork_blocks guarded c (reverse fork_blocks);
  let c := set_heights c (remove_heights (c_heights c) fork_point high) in
  let c := foldl reapply_block c (reverse (disconnected_heights d)) in
  Ret (set_stats (set_tip c pre_tip) pre_stats).

(** Counters after a reorg: the checked subtraction falls back to the
    reconnected amount. *)
Definition recount (n disconnected reconnected : Z) : Z :=
  match checked_sub n disconnected with
  | Some v => sat_add u64_max v reconnected
  | None => reconnected
  end.

(** Apply the triggering block and move the tip to it. *)
Definition commit_tip c (fork_cumulative : Z) (fork_blocks : list Block) (d : Disconnected) b
  : exec (Chain RF P2) :=
  let hash := hash_of b in
  let height := block_height b in
  let difficulty := ForkChoice.calculate_difficulty_from_target (h_target (header b)) in
  let c := set_utxos c (connect tx_hash (c_utxos c) height (transactions b)) in
  emission ← calculate_block_reward height;
  s ← add_supply (c_stats c) emission (block_fee_burn b);
  let c := set_tip c (mkChainTip hash height difficulty (h_timestamp (header b))) in
  let reconnected_blocks := Z.of_nat (length fork_blocks) + 1 in
  let reconnected_txs :=
    foldr (fun b n => Z.of_nat (length (transactions b)) + n) 0 fork_blocks
    + Z.of_nat (length (transactions b)) in
  let s := mkChainStats height
    (recount (total_blocks s) (disconnected_blocks d) reconnected_blocks)
    (recount (total_transactions s) (disconnected_txs d) reconnected_txs)
    (total_supply s) (total_burned s) difficulty hash fork_cumulative in
  Ret (set_heights (set_stats c s) (<[height := hash]> (c_heights c))).

(** [apply_reorg_atomic] with the lists the caller collects. *)
Definition persist_reorg c (pre_tip : ChainTip) (fork_cumulative : Z)
    (fork_blocks : list Block) (d : Disconnected) b : Chain RF P2 :=
  match c_db c with
  | None => c
  | Some db =>
      let new_blocks := fork_blocks ++ [b] in
      let gone := concat (disconnected_tx_lists d) in
      let oi_removals := stealth_address <$> concat (outputs <$> gone) in
      let oi_additions :=
        concat ((fun b => block_entries (block_height b) (transactions b)) <$> new_blocks) in
      let apply_oi (m : gmap PublicKey OutputIndexEntry) :=
        let to_insert := filter (fun e => m !! e.1 = None) oi_additions in
        foldl (fun m e => <[e.1 := e.2]> m)
          (foldl (fun m a => delete a m) m oi_removals) to_insert in
      let heights :=
        remove_heights
          (foldl (fun m b => <[block_height b := hash_of b]> m) (db_heights (d_blocks db))
             new_blocks)
          (block_height b) (tip_height pre_tip) in
      let last_checkpoint :=
        match d_state db with Some s => cs_last_checkpoint s | None => 0 end in
      let s := c_stats c in
      let state := mkChainStateData (hash_of b) (block_height b) fork_cumulative
        (total_supply s) (wrap64 (total_burned s)) last_checkpoint in
      let tx_index :=
        index_txs (foldl (fun m tx => delete (tx_hash tx) m) (d_tx_index db) gone)
          (concat ((fun b => tx_locations (block_height b) (transactions b))
             <$> new_blocks)) in
      let c := set_utxos c (set_output_db (c_utxos c) (apply_oi <$> Utxo.db (c_utxos c))) in
      set_db c (Some (mkDatabase (mkDbView (db_blocks (d_blocks db)) heights) (Some state)
        (d_checkpoints db) (d_genesis db) tx_index))
  end.

(** The reorganisation proper: disconnect to the fork point, connect the fork,
    and commit or roll back. *)
Definition perform_reorg c (now : Z) b (fork_point fork_cumulative : Z)
  : exec (Chain RF P2 * BlockStatus) :=
  let pre_tip := c_tip c in
  let pre_stats := c_stats c in
  '(c, d) ← disconnect_loop c no_disconnected fork_point
              (Z.to_nat (tip_height (c_tip c) - fork_point));
  fork_blocks ← or_fuel (collect_fork_chain (view c) b fork_point);
  '(c, err) ← connect_loop c fork_point [] fork_blocks;
  let err := match err with None => reorg_tip_error c b | Some _ => err end in
  match err with
  | Some e =>
      c ← roll_back true c pre_tip pre_stats fork_point
            (Z.max (tip_height (c_tip c)) (tip_height pre_tip)) fork_blocks d;
      Ret (c, Invalid e)
  | None =>
      match reorg_tip_target_error c fork_point fork_blocks b with
      | Some e =>
          c ← roll_back false c pre_tip pre_stats fork_point
                (Z.max (tip_height pre_tip) (block_height b)) fork_blocks d;
          Ret (c, Invalid e)
      | None =>
          c ← commit_tip c fork_cumulative fork_blocks d b;
          let c := persist_reorg c pre_tip fork_cumulative fork_blocks d b in
          let orphaned_txs :=
            filter (fun tx => is_coinbase tx = false) (concat (disconnected_tx_lists d)) in
          let c := record_event c Reorg (block_height b) (hash_of b) now in
          Ret (c, AcceptedReorg orphaned_txs)
      end
  end.

(** The fork-evaluation path. *)
Definition resolve_fork c (now : Z) b : exec (Chain RF P2 * result chain_error BlockStatus) :=
  decision ← or_fuel (evaluate_fork header_hash testnet (c_network c) (c_finality c)
    (view c) b);
  match decision with
  | KeepTip =>
      Ret (record_event c ForkDetected (block_height b) (hash_of b) now, Ok AcceptedFork)
  | Corruption => Ret (c, Err CorruptionError)
  | ReorgTooDeep depth max => Ret (c, Err (ReorgTooDeepError depth max))
  | BelowFinalityFloor _ _ => Ret (c, Ok (Invalid ReorgBelowFloor))
  | PerformReorg fork_point _ =>
      '(c, s) ← perform_reorg c now b fork_point
                  (calculate_fork_cumulative_work (view c) b);
      Ret (c, Ok s)
  end.

(** Everything after the block is stored; [tip_snapshot] was read before, other
    threads may have moved the tip since. *)
Definition commit_block c (now : Z) b (tip_snapshot : Hash) (is_main_chain : bool)
  : exec (Chain RF P2 * result chain_error BlockStatus) :=
  if is_main_chain then
    let race_detected :=
      negb (bool_decide (tip_hash (c_tip c) = tip_snapshot)) && (0 <? block_height b) in
    if race_detected then resolve_fork c now b
    else c ← accept_extension c now b; Ret (c, Ok Accepted)
  else resolve_fork c now b.

(** [add_block] on one thread. *)
Definition add_block c (now : Z) b : exec (Chain RF P2 * result chain_error BlockStatus) :=
  '(c, a) ← admit_block c now b;
  match a with
  | Returned r => Ret (c, r)
  | Stored tip_snapshot is_main_chain => commit_block c now b tip_snapshot is_main_chain
  end.

(** ** Genesis and deep rollback *)

(** The genesis block and its expected hash, per network. *)
Context (create_genesis_block_for : NetworkType -> Block).
Context (expected_genesis_hash : NetworkType -> Hash).

Definition init_genesis c : exec (Chain RF P2 * result chain_error Hash) :=
  let genesis := create_genesis_block_for (c_network c) in
  let hash := hash_of genesis in
  if negb (bool_decide (hash = expected_genesis_hash (c_network c))) then
    Ret (c, Err InvalidStateError)
  else
    emission ← calculate_block_reward 0;
    let c := set_blocks c (<[hash := genesis]> (c_blocks c)) in
    let c := set_heights c (<[0 := hash]> (c_heights c)) in
    let c := set_genesis c (Some hash) in
    let c := set_tip c (mkChainTip hash 0 1 (h_timestamp (header genesis))) in
    let s := c_stats c in
    let c := set_stats c (mkChainStats 0 1 (Z.of_nat (length (transactions genesis)))
      emission 0 (s_difficulty s) hash (s_total_difficulty s)) in
    let c := set_utxos c (connect tx_hash (c_utxos c) 0 (transactions genesis)) in
    let c := persist_output_index c (transactions genesis) 0 in
    let save d :=
      mkDatabase
        (mkDbView (<[hash := genesis]> (db_blocks (d_blocks d)))
           (<[0 := hash]> (db_heights (d_blocks d))))
        (Some (mkChainStateData hash 0 1 emission 0 0))
        (<[0 := hash]> (d_checkpoints d)) (Some hash) (d_tx_index d) in
    Ret (set_db c (save <$> c_db c), Ok hash).

(** The tip of [rollback_to_height]: cache, then database, then genesis. *)
Definition retarget_tip c (target_height : Z) : Chain RF P2 :=
  let s := c_stats c in
  let at_height hash h :=
    mkChainStats h (total_blocks s) (total_transactions s) (total_supply s)
      (total_burned s) (s_difficulty s) hash (s_total_difficulty s) in
  match get_block_hash (view c) target_height with
  | Some new_tip_hash =>
      let tip :=
        match get_block (view c) new_tip_hash with
        | Some tip_block =>
            mkChainTip new_tip_hash target_height
              (ForkChoice.calculate_difficulty_from_target (h_target (header tip_block)))
              (h_timestamp (header tip_block))
        | None =>
            mkChainTip new_tip_hash target_height (tip_difficulty (c_tip c))
              (tip_timestamp (c_tip c))
        end in
      set_stats (set_tip c tip) (at_height new_tip_hash target_height)
  | None =>
      match c_genesis c with
      | Some genesis =>
          if target_height =? 0 then
            set_stats
              (set_tip c (mkChainTip genesis 0 (tip_difficulty (c_tip c))
                            (tip_timestamp (c_tip c))))
              (at_height genesis 0)
          else c
      | None => c
      end
  end.

Definition persist_rollback c (target_height : Z) : Chain RF P2 :=
  match c_db c with
  | None => c
  | Some d =>
      let s := c_stats c in
      let last_checkpoint :=
        match d_state d with Some s => cs_last_checkpoint s | None => 0 end in
      set_db c (Some (mkDatabase
        (mkDbView (db_blocks (d_blocks d))
           (filter (fun kv => kv.1 <= target_height) (db_heights (d_blocks d))))
        (Some (mkChainStateData (s_tip_hash s) (s_height s) (s_total_difficulty s)
                 (total_supply s) (wrap64 (total_burned s)) last_checkpoint))
        (d_checkpoints d) (d_genesis d) (d_tx_index d)))
  end.

Definition rollback_to_height c (target_height : Z)
  : exec (Chain RF P2 * result chain_error (list Transaction)) :=
  let current_height := tip_height (c_tip c) in
  if current_height <=? target_height then Ret (c, Ok [])
  else
    let below_checkpoint :=
      match c_db c with
      | Some d =>
          match d_state d with
          | Some s => target_height <? cs_last_checkpoint s
          | None => false
          end
      | None => false
      end in
    if below_checkpoint then Ret (c, Err InvalidStateError)
    else
      '(c, d) ← disconnect_loop c no_disconnected target_height
                  (Z.to_nat (current_height - target_height));
      let orphaned :=
        filter (fun tx => is_coinbase tx = false) (concat (disconnected_tx_lists d)) in
      let c := retarget_tip c target_height in
      Ret (persist_rollback c target_height, Ok orphaned).
(** ** Restart *)

Inductive ChainLoadOutcome := Fresh | Loaded.

(** [has_any_chain_data], on the trees of the model. *)
Definition has_any_chain_data (d : Database) : bool :=
  negb (bool_decide (db_blocks (d_blocks d) = ∅))
  || negb (bool_decide (db_heights (d_blocks d) = ∅)).

(** The variables of the replay loop. *)
Record Replay := mkReplay {
  rp_chain : Chain RF P2;
  rp_prev_hash : Hash;
  rp_blocks : Z;
  rp_txs : Z;
}.

(** A broken link at [height]: the chain is cut below it. *)
Definition truncate_chain c (height tip_height : Z) (good_hash : Hash) : Chain RF P2 :=
  let good_height := height - 1 in
  let s := c_stats c in
  let t := c_tip c in
  let c := set_stats c (mkChainStats good_height (total_blocks s) (total_transactions s)
    (total_supply s) (total_burned s) (s_difficulty s) good_hash (s_total_difficulty s)) in
  let c := set_tip c (mkChainTip good_hash good_height (tip_difficulty t)
    (tip_timestamp t)) in
  let save d :=
    let last_checkpoint :=
      match d_state d with Some s => cs_last_checkpoint s | None => 0 end in
    mkDatabase
      (mkDbView (db_blocks (d_blocks d))
         (remove_heights (db_heights (d_blocks d)) good_height tip_height))
      (Some (mkChainStateData good_hash good_height (s_total_difficulty s)
               (total_supply s) (wrap64 (total_burned s)) last_checkpoint))
      (d_checkpoints d) (d_genesis d) (d_tx_index d) in
  set_db c (save <$> c_db c).

(** [for height in h..h + n]; the replay of one stored block. *)
Fixpoint replay_loop (d : Database) (tip_height cache_start : Z) (n : nat) (h : Z)
    (r : Replay) : Replay :=
  match n with
  | O => r
  | S n =>
      match (x ← db_heights (d_blocks d) !! h; db_blocks (d_blocks d) !! x) with
      | None => replay_loop d tip_height cache_start n (h + 1) r
      | Some b =>
          let c := rp_chain r in
          if (0 <? h) && negb (bool_decide (prev_hash (header b) = rp_prev_hash r)) then
            mkReplay (truncate_chain c h tip_height (rp_prev_hash r)) (rp_prev_hash r)
              (rp_blocks r) (rp_txs r)
          else
            let hash := hash_of b in
            let c := set_utxos c (connect tx_hash (c_utxos c) h (transactions b)) in
            let c :=
              if cache_start <=? h then
                set_blocks (set_heights c (<[h := hash]> (c_heights c)))
                  (<[hash := b]> (c_blocks c))
              else c in
            replay_loop d tip_height cache_start n (h + 1)
              (mkReplay c hash (wrap64 (rp_blocks r + 1))
                 (wrap64 (rp_txs r + Z.of_nat (length (transactions b)))))
      end
  end.

Definition rebuild_utxo_set c (tip_height : Z) : Chain RF P2 :=
  match c_db c with
  | None => c
  | Some d =>
      let c := set_utxos c (set_output_db UtxoSet_new (Utxo.db (c_utxos c))) in
      let cache_start := sat_sub tip_height 200 in
      let r := replay_loop d tip_height cache_start (Z.to_nat (tip_height + 1)) 0
                 (mkReplay c zero_hash 0 0) in
      let c := rp_chain r in
      let s := c_stats c in
      let c := set_stats c (mkChainStats (s_height s) (rp_blocks r) (rp_txs r)
        (total_supply s) (total_burned s) (s_difficulty s) (s_tip_hash s)
        (s_total_difficulty s)) in
      let u := c_utxos c in
      let migrate (oi : gmap PublicKey OutputIndexEntry) :=
        if bool_decide (oi = ∅) && (0 <? tip_height) then output_index u else oi in
      let u := set_output_db u (migrate <$> Utxo.db u) in
      set_utxos c (evict_old_outputs u tip_height 1000)
  end.

(** The transaction index is rebuilt when it is empty. *)
Definition rebuild_tx_index c (height : Z) : Chain RF P2 :=
  match c_db c with
  | None => c
  | Some d =>
      if bool_decide (d_tx_index d = ∅) && (0 <? height) then
        let locations :=
          concat ((fun i =>
            let h := Z.of_nat i in
            match get_block_by_height (view c) h with
            | Some b => tx_locations h (transactions b)
            | None => []
            end) <$> seq 0 (Z.to_nat (height + 1))) in
        set_db c (Some (mkDatabase (d_blocks d) (d_state d) (d_checkpoints d) (d_genesis d)
          (index_txs (d_tx_index d) locations)))
      else c
  end.

Definition set_work (s : ChainStats) (w : Z) : ChainStats :=
  mkChainStats (s_height s) (total_blocks s) (total_transactions s) (total_supply s)
    (total_burned s) (s_difficulty s) (s_tip_hash s) w.

(** [load_from_database_with_outcome]; [verify_tip_integrity] loads again when
    memory and database still disagree on the tip. *)
Fixpoint load_from_database (fuel : nat) c
  : exec (Chain RF P2 * result chain_error ChainLoadOutcome) :=
  match fuel with
  | O => OutOfFuel
  | S fuel =>
  match c_db c with
  | None => Ret (c, Ok Fresh)
  | Some d =>
  match d_state d with
  | None =>
      Ret (c, if has_any_chain_data d then Err DatabaseError else Ok Fresh)
  | Some st =>
  match db_heights (d_blocks d) !! 0 with
  | None => Ret (c, Err DatabaseError)
  | Some actual_genesis =>
  if negb (bool_decide (actual_genesis = expected_genesis_hash (c_network c))) then
    Ret (c, Err DatabaseError)
  else
  match db_blocks (d_blocks d) !! cs_tip_hash st with
  | None => Ret (c, Err DatabaseError)
  | Some tip_block =>
  if negb (block_height tip_block =? cs_height st) then Ret (c, Err DatabaseError)
  else
    let difficulty :=
      ForkChoice.calculate_difficulty_from_target (h_target (header tip_block)) in
    let s := c_stats c in
    let c := set_tip c (mkChainTip (cs_tip_hash st) (cs_height st) difficulty
      (h_timestamp (header tip_block))) in
    let c := set_stats c (mkChainStats (cs_height st) (total_blocks s)
      (total_transactions s) (cs_total_supply st) (cs_total_burned st) difficulty
      (cs_tip_hash st) (cs_total_difficulty st)) in
    let c :=
      match recompute_total_difficulty (view c) (cs_height st) with
      | Some recomputed => set_stats c (set_work (c_stats c) recomputed)
      | None => c
      end in
    let c := rebuild_utxo_set c (cs_height st) in
    let c := rebuild_tx_index c (cs_height st) in
    let mismatch :=
      match (d ← c_db c; d_state d) with
      | Some st =>
          negb (bool_decide (tip_hash (c_tip c) = cs_tip_hash st))
          && (0 <? tip_height (c_tip c))
      | None => false
      end in
    if mismatch then
      '(c, r) ← load_from_database fuel c;
      Ret (c, match r with Ok _ => Ok Loaded | Err e => Err e end)
    else Ret (c, Ok Loaded)
  end
  end
  end
  end
  end.

End chain.

(** [Blockchain::new_with_network] and [with_database] on an empty database. *)
Definition new_with_network {RF P2 : Type} (net : NetworkType) (p2 : P2) : Chain RF P2 :=
  mkChain ∅ ∅ (mkChainTip zero_hash 0 1 0) ChainStats_default None UtxoSet_new [] None
    net None p2.

Definition empty_database : Database := mkDatabase (mkDbView ∅ ∅) None ∅ None ∅.

Definition with_database {RF P2 : Type} (d : Database)
    (oi : gmap PublicKey OutputIndexEntry) (net : NetworkType) (p2 : P2) : Chain RF P2 :=
  mkChain ∅ ∅ (mkChainTip zero_hash 0 1 0) ChainStats_default None
    (set_output_db UtxoSet_new (Some oi)) [] (Some d) net None p2.
