(* ===== verification/ChainDemo.v ===== *)
(** * A small node for the witnesses

    Blocks are identified by their nonce and transactions by their [extra]
    field; the validator asks for the parent and rejects a spent key image; the
    finality gate is open and the phase-2 stores are counters.  [demo_node]
    feeds a list of blocks to a fresh node, so that the theorems about
    [add_block] can be applied to nodes that evaluate. *)

From stdpp Require Import prelude gmap sorting.
From Stdlib Require Import ZArith Lia.
From S2P Require Import Prelude Constants Emission FeeMarket Difficulty Block Utxo ForkChoice.
From S2P Require Import Chain.

Local Open Scope Z_scope.

(** ** Parameters *)

Definition demo_header_hash (h : BlockHeader) : Hash := [nonce h].
Definition demo_tx_hash (tx : Transaction) : Hash := extra tx.
Definition demo_tx_size (tx : Transaction) : Z := 100.

#[export] Instance demo_gate : FinalityGate unit.
Proof.
  refine {| would_reorg_violate := fun _ _ => false; current_soft_final := fun _ => None |}.
  intros. split; [done|]. by intros (?&?&?).
Defined.

#[export] Instance demo_feed : FinalityFeed unit := fun _ _ _ => tt.

#[export] Instance demo_phase2 : Phase2Stores (list Z) :=
  {| checkpoint_phase2_stores := fun s h => s ++ [h];
     rewind_phase2_stores := fun s h => filter (fun x => x < h) s |}.

(** Every key image the block spends is unspent in the set it is given. *)
Definition demo_valid (b : Block) (parent : option Block) (u : UtxoSet) : bool :=
  match parent with
  | Some _ =>
      bool_decide (Forall (fun ki => ki ∉ u_key_images u)
                     (concat (key_images <$> transactions b)))
  | None => block_height b =? 0
  end.

#[export] Instance demo_validator : BlockValidator.
Proof.
  refine {| validate := fun b parent u _ _ => Ok (demo_valid b parent u) |}.
  intros b u cp net [= H]. cbn in H. lia.
Defined.

(** ** Blocks *)

(** A target with [65536 / t] expected hashes, roughly. *)
Definition demo_target (t : Z) : Hash := [0; t] ++ replicate 30 0.

Definition demo_coinbase (n : Z) : Transaction :=
  mkTransaction 1 Coinbase [] [mkTxOutput [n] [n] [n] [] 0 None []] 0 [] [n].

Definition demo_spend (n k : Z) : Transaction :=
  mkTransaction 1 Transfer [mkTxInput [k] [] (mkClsagSignature [k] [] [] []) []] [] 0 []
    [n; k].

(** Nonce, height, parent, target, transactions. *)
Definition demo_mined (n h p : Z) (t : Hash) (txs : list Transaction) : Block :=
  mkBlock (mkBlockHeader [] 1 h (120 * h) [p] [] [] 0 n t [] [] None [] []) txs.

Definition demo_genesis (net : NetworkType) : Block :=
  demo_mined 0 0 255 max_target [].

Definition demo_checkpoints (net : NetworkType) : list (Z * Hash) := [(0, [0])].

(** ** The node *)

Abbreviation demo_add := (add_block (RF := unit) (P2 := list Z) demo_header_hash
  demo_tx_hash demo_tx_size demo_checkpoints true).
Abbreviation demo_init := (init_genesis (RF := unit) (P2 := list Z) demo_header_hash
  demo_tx_hash demo_genesis (fun _ => [0])).

Definition demo_empty : Chain unit (list Z) :=
  set_finality (with_database empty_database ∅ Testnet []) None.

Definition demo_start : Chain unit (list Z) :=
  match demo_init demo_empty with Ret (c, _) => c | _ => demo_empty end.

Definition demo_next (c : Chain unit (list Z)) (b : Block) : Chain unit (list Z) :=
  match demo_add c 0 b with Ret (c, _) => c | _ => c end.

Definition demo_answer (c : Chain unit (list Z)) (b : Block)
  : option (result chain_error BlockStatus) :=
  match demo_add c 0 b with Ret (_, r) => Some r | _ => None end.

Definition demo_node (l : list Block) : Chain unit (list Z) := foldl demo_next demo_start l.

(** The answers to a list of blocks. *)
Fixpoint demo_answers (c : Chain unit (list Z)) (l : list Block)
  : list (option (result chain_error BlockStatus)) :=
  match l with
  | [] => []
  | b :: l => demo_answer c b :: demo_answers (demo_next c b) l
  end.

(** ** Scenarios *)

(** The first main-chain block; it pays address [1]. *)
Definition demo_a1 : Block := demo_mined 1 1 0 (demo_target 9) [demo_coinbase 1].
Definition demo_a2 : Block := demo_mined 2 2 1 (demo_target 9) [demo_coinbase 2].

(** A heavier fork of two blocks on genesis. *)
Definition demo_f1 : Block := demo_mined 11 1 0 (demo_target 10) [demo_coinbase 11].
Definition demo_f2 : Block := demo_mined 12 2 11 (demo_target 10) [demo_coinbase 12].

(** The same fork with a double spend: its tip spends what [demo_e1] spent. *)
Definition demo_e1 : Block :=
  demo_mined 21 1 0 (demo_target 10) [demo_coinbase 21; demo_spend 21 5].
Definition demo_e2 : Block :=
  demo_mined 22 2 21 (demo_target 10) [demo_coinbase 22; demo_spend 22 5].

(** A hard main-chain block, and a fork of easier blocks that outgrows it and
    ends in a double spend. *)
Definition demo_h1 : Block := demo_mined 31 1 0 (demo_target 3) [demo_coinbase 31].
Definition demo_o1 : Block :=
  demo_mined 41 1 0 (demo_target 10) [demo_coinbase 41; demo_spend 41 5].
Definition demo_o2 : Block := demo_mined 42 2 41 (demo_target 10) [demo_coinbase 42].
Definition demo_o3 : Block := demo_mined 43 3 42 (demo_target 10) [demo_coinbase 43].
Definition demo_o4 : Block :=
  demo_mined 44 4 43 (demo_target 10) [demo_coinbase 44; demo_spend 44 5].
