(* ===== verification/ChainLedger.v ===== *)
(** * Supply, burn and the main chain across reorganisations

    The accumulators [total_supply] and [total_burned] of [src/chain.rs] are
    updated block by block on six sites (extend, disconnect, connect, two
    rollbacks, tip commit).  This file gives the effect of each loop of a
    reorganisation on the height map, the ledger and the UTXO set. *)

From stdpp Require Import prelude gmap sorting.
From Stdlib Require Import ZArith Lia.
From S2P Require Import Prelude Constants Emission FeeMarket Difficulty Block Utxo ForkChoice.
From S2P Require Import Chain.

Local Open Scope Z_scope.

(** ** Sums *)

Definition zsum {A} (f : A -> Z) (l : list A) : Z := foldr (fun x n => f x + n) 0 l.

Section sums.
Context {A : Type} (f : A -> Z).

Lemma zsum_app l l' : zsum f (l ++ l') = zsum f l + zsum f l'.
Proof. induction l as [|x l IH]; cbn; [done|]. fold (zsum f (l ++ l')) (zsum f l). lia. Qed.

Lemma zsum_bounds l m :
  (forall x, x ∈ l -> 0 <= f x <= m) -> 0 <= zsum f l <= m * Z.of_nat (length l).
Proof.
  induction l as [|x l IH]; intros H; cbn [zsum foldr length]; [lia|].
  fold (zsum f l). pose proof (H x ltac:(set_solver)).
  specialize (IH ltac:(intros; apply H; set_solver)). lia.
Qed.
End sums.

(** ** Rewards and burns *)

Definition reward (height : Z) : Z := default 0 (base_reward height).

(** Ranges of the Rust types, with heights that cannot wrap. *)
Definition typed_block (b : Block) : Prop :=
  0 <= block_height b <= 2 ^ 62 /\ Forall (fun tx => is_u64 (fee tx)) (transactions b).

Lemma reward_spec h : is_u64 h -> base_reward h = Some (reward h) /\ 0 <= reward h <= u64_max.
Proof.
  intros Hh. unfold reward, base_reward.
  destruct (estimate_supply_spec h Hh) as (s&Hs&Hlo&Hhi).
  rewrite Hs. cbn. split; [done|].
  assert (0 <= s). { pose proof (emitted_nonneg (Z.to_nat h)). rewrite cap_atomic_eq in *. lia. }
  rewrite base_reward_raw by done. pose proof (raw_reward_bounds s). const_lia.
Qed.

Lemma sat_fold_range l acc :
  0 <= acc <= u64_max -> Forall is_u64 l ->
  0 <= foldl (fun acc f => sat_add u64_max acc f) acc l <= u64_max.
Proof.
  intros Ha Hl. revert acc Ha. induction Hl as [|x l Hx _ IH]; intros acc Ha; cbn; [done|].
  apply IH. word_lia.
Qed.

Lemma calculate_block_reward_eq h : is_u64 h -> calculate_block_reward h = Ret (reward h).
Proof. intros Hh. unfold calculate_block_reward. by destruct (reward_spec h Hh) as [-> _]. Qed.

Section ledger.
Context {RF P2 : Type} `{!FinalityGate RF} `{!FinalityFeed RF} `{!Phase2Stores P2}.
Context {BV : BlockValidator}.
Context (header_hash : BlockHeader -> Hash) (tx_hash : Transaction -> Hash).
Context (tx_size : Transaction -> Z).
Context (testnet : bool).

Implicit Types (c : Chain RF P2) (b : Block) (l m : list Block).

Abbreviation hash_of := (hash_of header_hash).
Abbreviation burn := (block_fee_burn tx_size testnet).

Lemma burn_range b : typed_block b -> 0 <= burn b <= u64_max.
Proof.
  intros [_ Hf]. unfold block_fee_burn.
  set (fees := fee <$> filter _ _).
  assert (Hu : Forall is_u64 fees).
  { unfold fees. rewrite Forall_fmap. apply Forall_forall.
    intros tx [_ Ht]%list_elem_of_filter. by eapply Forall_forall in Hf. }
  pose proof (sat_fold_range fees 0 ltac:(word_lia) Hu) as R.
  set (t := foldl _ 0 fees) in *.
  destruct (_ || _); [word_lia|]. rewrite distribute_fee_eq by (word_unfold; lia). cbn.
  match goal with |- context [miner_pct ?x] => assert (0 <= miner_pct x <= 100)
    by (destruct x; cbn; const_lia) end.
  split; [|pose proof (Z.div_pos (t * miner_pct (CONGESTION_THRESHOLD <=?
    wrap64 (block_size tx_size b * 100 / MAX_BLOCK_SIZE))) 100); nia].
  match goal with |- context [?x / 100] => assert (x / 100 <= t);
    [apply Z.div_le_upper_bound; nia|lia] end.
Qed.

(** The accumulators account for exactly the blocks of [l]. *)
Definition ledger (s : ChainStats) l : Prop :=
  total_supply s = zsum (fun b => reward (block_height b)) l
  /\ total_burned s = zsum burn l.

Definition room l : Prop := Z.of_nat (length l) <= 2 ^ 63.

Lemma typed_height b : typed_block b -> is_u64 (block_height b).
Proof. intros [H _]. word_lia. Qed.

Lemma add_supply_spec s l b :
  ledger s l -> Forall typed_block (l ++ [b]) -> room (l ++ [b]) ->
  exists s', add_supply s (reward (block_height b)) (burn b) = Ret s'
    /\ s' = set_supply s (total_supply s') (total_burned s') /\ ledger s' (l ++ [b]).
Proof.
  intros [H1 H2] Hl Hr. unfold room in Hr.
  assert (T : forall x, x ∈ l ++ [b] -> typed_block x) by by apply Forall_forall.
  pose proof (zsum_bounds (fun b => reward (block_height b)) (l ++ [b]) u64_max
    ltac:(intros; apply reward_spec, typed_height; auto)) as B1.
  pose proof (zsum_bounds burn (l ++ [b]) u64_max
    ltac:(intros; apply burn_range; auto)) as B2.
  rewrite zsum_app in B1, B2. cbn in B1, B2.
  assert (u64_max * Z.of_nat (length (l ++ [b])) <= u128_max).
  { etrans; [apply Z.mul_le_mono_nonneg_l; [word_lia|exact Hr]|]. vm_compute. discriminate. }
  unfold add_supply, checked_add. rewrite H1, H2.
  destruct (Z.leb_spec (zsum (fun b => reward (block_height b)) l + reward (block_height b))
    u128_max); [|lia]. cbn.
  destruct (Z.leb_spec (zsum burn l + burn b) u128_max); [|lia]. cbn.
  eexists. split; [done|]. split; [done|]. split; cbn; rewrite zsum_app; cbn; lia.
Qed.

Lemma add_supply_fields s e f s' :
  add_supply s e f = Ret s' -> s' = set_supply s (total_supply s') (total_burned s').
Proof.
  unfold add_supply, or_panic. destruct (checked_add _ (total_supply s) e); [|done]. cbn.
  destruct (checked_add _ (total_burned s) f); [|done]. cbn. by intros [= <-].
Qed.

Lemma sub_supply_spec s l b :
  ledger s (l ++ [b]) -> Forall typed_block l ->
  exists s', sub_supply s (reward (block_height b)) (burn b) = Ret s'
    /\ s' = set_supply s (total_supply s') (total_burned s') /\ ledger s' l.
Proof.
  intros [H1 H2] Hl. rewrite zsum_app in H1, H2. cbn in H1, H2.
  assert (T : forall x, x ∈ l -> typed_block x) by by apply Forall_forall.
  pose proof (zsum_bounds (fun b => reward (block_height b)) l u64_max
    ltac:(intros; apply reward_spec, typed_height; auto)) as B1.
  pose proof (zsum_bounds burn l u64_max ltac:(intros; apply burn_range; auto)) as B2.
  unfold sub_supply, checked_sub.
  destruct (Z.leb_spec (reward (block_height b)) (total_supply s)); [|lia]. cbn.
  destruct (Z.leb_spec (burn b) (total_burned s)); [|lia]. cbn.
  eexists. split; [done|]. split; [done|]. split; cbn; lia.
Qed.

(** ** What the loops leave alone *)

Record frame c c' : Prop := {
  frame_blocks : c_blocks c' = c_blocks c;
  frame_tip : c_tip c' = c_tip c;
  frame_genesis : c_genesis c' = c_genesis c;
  frame_events : c_events c' = c_events c;
  frame_db : c_db c' = c_db c;
  frame_network : c_network c' = c_network c;
  frame_finality : c_finality c' = c_finality c;
  frame_stats : c_stats c' = set_supply (c_stats c) (total_supply (c_stats c'))
    (total_burned (c_stats c'));
}.

#[local] Instance frame_preorder : PreOrder frame.
Proof.
  split.
  - intros c. split; try done. by destruct (c_stats c).
  - intros c1 c2 c3 [] []. split; try congruence.
    rewrite frame_stats1, frame_stats0. done.
Qed.

Lemma frame_heights c hs : frame c (set_heights c hs).
Proof. split; try done. cbn. by destruct (c_stats c). Qed.

Lemma unapply_spec c b l :
  ledger (c_stats c) (l ++ [b]) -> Forall typed_block (l ++ [b]) ->
  exists c', unapply_block tx_hash tx_size testnet c (block_height b) b = Ret c'
    /\ frame c c' /\ ledger (c_stats c') l /\ c_heights c' = c_heights c
    /\ c_utxos c' = disconnect tx_hash (c_utxos c) (transactions b)
    /\ c_phase2 c' = rewind_phase2_stores (c_phase2 c) (block_height b).
Proof.
  intros Hl Ht. apply Forall_app in Ht as [Ht Hb]. inversion_clear Hb.
  unfold unapply_block. rewrite calculate_block_reward_eq by by apply typed_height. cbn.
  destruct (sub_supply_spec (c_stats c) l b Hl Ht) as (s'&E&Es&Hs). rewrite E. cbn.
  eexists; split; [done|]. split; [by split|done].
Qed.

Lemma connect_fork_spec c b l :
  ledger (c_stats c) l -> Forall typed_block (l ++ [b]) -> room (l ++ [b]) ->
  exists c', connect_fork_block header_hash tx_hash tx_size testnet c b = Ret c'
    /\ frame c c' /\ ledger (c_stats c') (l ++ [b])
    /\ c_heights c' = <[block_height b := hash_of b]> (c_heights c)
    /\ c_utxos c' = connect tx_hash (c_utxos c) (block_height b) (transactions b)
    /\ c_phase2 c' = checkpoint_phase2_stores (c_phase2 c) (block_height b).
Proof.
  intros Hl Ht Hr. pose proof Ht as Ht'. apply Forall_app in Ht' as [_ Hb]. inversion_clear Hb.
  unfold connect_fork_block. rewrite calculate_block_reward_eq by by apply typed_height. cbn.
  destruct (add_supply_spec (c_stats c) l b Hl Ht Hr) as (s'&E&Es&Hs). rewrite E. cbn.
  eexists; split; [done|]. split; [by split|done].
Qed.

(** ** Segments of a chain *)

(** Consecutive heights from [s]. *)
Definition seg (s : Z) l : Prop :=
  forall i b, l !! i = Some b -> block_height b = s + Z.of_nat i.

Definition entry b : Z * Hash := (block_height b, hash_of b).

Definition disconnect_all (u : UtxoSet) l : UtxoSet :=
  foldr (fun b u => disconnect tx_hash u (transactions b)) u l.
Definition connect_all (u : UtxoSet) l : UtxoSet :=
  foldl (fun u b => connect tx_hash u (block_height b) (transactions b)) u l.
Definition rewind_all (p : P2) l : P2 :=
  foldr (fun b p => rewind_phase2_stores p (block_height b)) p l.
Definition checkpoint_all (p : P2) l : P2 :=
  foldl (fun p b => checkpoint_phase2_stores p (block_height b)) p l.

Lemma seg_app s l l' : seg s (l ++ l') <-> seg s l /\ seg (s + Z.of_nat (length l)) l'.
Proof.
  split.
  - intros H. split; intros i b Hi.
    + apply H. by apply lookup_app_l_Some.
    + rewrite (H (length l + i)%nat b); [lia|].
      rewrite lookup_app_r by lia. by replace (length l + i - length l)%nat with i by lia.
  - intros [H1 H2] i b [Hi|[Hi Hb]]%lookup_app_Some; [by apply H1|].
    apply H2 in Hb. lia.
Qed.

Lemma seg_one s b : seg s [b] <-> block_height b = s.
Proof.
  split; [intros H; rewrite (H 0%nat b) by done; lia|].
  intros H [|i] b' Hi; cbn in Hi; simplify_eq; lia.
Qed.

Lemma seg_elem s l b : seg s l -> b ∈ l -> s <= block_height b < s + Z.of_nat (length l).
Proof.
  intros H [i Hi]%list_elem_of_lookup. pose proof (lookup_lt_Some _ _ _ Hi).
  apply H in Hi. lia.
Qed.

(** ** Disconnecting *)

Definition indexed c l : Prop :=
  forall b, b ∈ l ->
    c_heights c !! block_height b = Some (hash_of b) /\ c_blocks c !! hash_of b = Some b.

Lemma remove_heights_lookup hs low high h :
  remove_heights hs low high !! h
  = if bool_decide (low < h <= high) then None else hs !! h.
Proof.
  unfold remove_heights. case_bool_decide.
  - apply map_lookup_filter_None_2. right. cbn. intros x _ Hn. by apply Hn.
  - destruct (hs !! h) eqn:E.
    + by apply map_lookup_filter_Some_2.
    + apply map_lookup_filter_None_2. by left.
Qed.

Lemma remove_heights_snoc hs low n :
  remove_heights (delete (low + Z.of_nat (S n)) hs) low (low + Z.of_nat n)
  = remove_heights hs low (low + Z.of_nat (S n)).
Proof.
  apply map_eq. intros h. rewrite !remove_heights_lookup.
  destruct (decide (h = low + Z.of_nat (S n))) as [->|].
  - rewrite lookup_delete_eq. repeat case_bool_decide; try done; lia.
  - rewrite lookup_delete_ne by done. repeat case_bool_decide; try done; lia.
Qed.

Lemma disconnect_loop_spec m : forall c d a low,
  seg (low + 1) m -> indexed c m -> ledger (c_stats c) (a ++ m) ->
  Forall typed_block (a ++ m) ->
  0 <= disconnected_blocks d -> disconnected_blocks d + Z.of_nat (length m) <= 2 ^ 63 ->
  exists c' d', disconnect_loop tx_hash tx_size testnet c d low (length m) = Ret (c', d')
    /\ frame c c' /\ ledger (c_stats c') a
    /\ c_heights c' = remove_heights (c_heights c) low (low + Z.of_nat (length m))
    /\ c_utxos c' = disconnect_all (c_utxos c) m
    /\ c_phase2 c' = rewind_all (c_phase2 c) m
    /\ disconnected_heights d' = disconnected_heights d ++ reverse (entry <$> m)
    /\ disconnected_tx_lists d' = disconnected_tx_lists d ++ reverse (transactions <$> m)
    /\ disconnected_blocks d' = disconnected_blocks d + Z.of_nat (length m).
Proof.
  induction m as [|b m IH] using rev_ind; intros c d a low Hs Hi Hl Ht D0 Dm.
  { exists c, d. cbn. rewrite !app_nil_r in *. split_and!; try done; [|lia].
    apply map_eq. intros h. rewrite remove_heights_lookup. case_bool_decide; [|done]. lia. }
  apply seg_app in Hs as [Hs Hb]. apply seg_one in Hb.
  rewrite length_app, Nat.add_1_r in *. cbn [disconnect_loop].
  destruct (Hi b) as [Eh Eb]; [set_solver|].
  assert (Ez : low + Z.of_nat (S (length m)) = block_height b) by lia. rewrite Ez.
  unfold disconnect_height at 1. rewrite Eh, Eb.
  rewrite app_assoc in Hl, Ht.
  destruct (unapply_spec c b (a ++ m) Hl Ht) as (c1&E1&F1&L1&H1&U1&P1).
  rewrite E1. cbn [mbind exec_bind].
  apply Forall_app in Ht as [Ht _].
  set (c2 := set_heights c1 (delete (block_height b) (c_heights c1))).
  match goal with |- context [disconnect_loop _ _ _ _ ?d2 _ _] =>
    destruct (IH c2 d2 a low) as (c'&d'&E&F&L&Hh&U&P&D1&D2&D3); try done end.
  { intros x Hx. destruct (Hi x) as [Ex Ebx]; [set_solver|]. cbn. rewrite H1.
    pose proof (seg_elem _ _ _ Hs Hx).
    rewrite lookup_delete_ne by lia. by rewrite (frame_blocks _ _ F1). }
  { cbn [disconnected_blocks]. apply wrap64_range. }
  { cbn [disconnected_blocks]. rewrite wrap64_small by word_lia. lia. }
  exists c', d'. rewrite E. split; [done|].
  split; [etrans; [exact F1|etrans; [apply frame_heights|exact F]]|].
  split; [done|]. split.
  { rewrite Hh. cbn [c_heights c2 set_heights]. rewrite H1.
    rewrite <- Ez. apply remove_heights_snoc. }
  cbn in U, P, D1, D2. rewrite U1 in U. rewrite P1 in P.
  unfold disconnect_all, rewind_all. rewrite !foldr_app. cbn.
  rewrite !fmap_app, !reverse_app. cbn. rewrite D1, D2, <- !app_assoc.
  split_and!; try done.
  rewrite D3; cbn [disconnected_blocks]; rewrite wrap64_small by word_lia; lia.
Qed.

(** ** Connecting *)

Definition index_all (hs : gmap Z Hash) l : gmap Z Hash :=
  foldl (fun hs b => <[block_height b := hash_of b]> hs) hs l.

Lemma index_all_lookup l : forall hs s h,
  seg s l ->
  index_all hs l !! h =
    if bool_decide (s <= h < s + Z.of_nat (length l))
    then hash_of <$> l !! Z.to_nat (h - s) else hs !! h.
Proof.
  induction l as [|b l IH] using rev_ind; intros hs s h Hs.
  { cbn. case_bool_decide; [lia|done]. }
  apply seg_app in Hs as [Hs Hb]. apply seg_one in Hb.
  unfold index_all. rewrite foldl_app. cbn [foldl]. fold (index_all hs l).
  rewrite length_app. cbn [length].
  destruct (decide (h = block_height b)) as [->|Hne].
  - rewrite lookup_insert_eq, bool_decide_eq_true_2 by lia.
    rewrite lookup_app_r by lia.
    by replace (Z.to_nat (block_height b - s) - length l)%nat with 0%nat by lia.
  - rewrite lookup_insert_ne by done. rewrite (IH hs s h Hs).
    repeat case_bool_decide; try lia; try done.
    by rewrite lookup_app_l by lia.
Qed.

(** The failures found in a fork block, and those found before the target
    check of the fork tip. *)
Definition connect_reasons : list invalid_reason :=
  [ForkBlockError; ForkBlockInvalid; ForkBlockTarget].
Definition early_reasons : list invalid_reason :=
  connect_reasons ++ [ReorgTipInvalid; ReorgTipError].

Lemma fork_block_error_early c fp below b e :
  fork_block_error c fp below b = Some e -> e ∈ connect_reasons.
Proof.
  unfold fork_block_error, connect_reasons.
  destruct (validate _ _ _ _ _) as [[]|]; [destruct (1 <=? _); [destruct (target_ok _ _)|]|..];
    intros [= <-]; set_solver.
Qed.

(** The validator accepted the blocks of [l], each on the set the ones before it
    had left. *)
Fixpoint accepted_run c u l : Prop :=
  match l with
  | [] => True
  | b :: l =>
      validate b (c_blocks c !! prev_hash (header b)) u None (c_network c) = Ok true
      /\ accepted_run c (connect tx_hash u (block_height b) (transactions b)) l
  end.

Lemma fork_block_accepted c fp below b :
  fork_block_error c fp below b = None ->
  validate b (c_blocks c !! prev_hash (header b)) (c_utxos c) None (c_network c) = Ok true.
Proof. unfold fork_block_error. by destruct (validate _ _ _ _ _) as [[]|]. Qed.

Lemma accepted_frame c c' u l : frame c c' -> accepted_run c u l <-> accepted_run c' u l.
Proof.
  intros F. revert u. induction l as [|b l IH]; intros u; [done|]. cbn [accepted_run].
  by rewrite (frame_blocks _ _ F), (frame_network _ _ F), IH.
Qed.

Lemma connect_loop_spec rest : forall c fp a below,
  ledger (c_stats c) a -> Forall typed_block (a ++ rest) -> room (a ++ rest) ->
  exists c' err k,
    connect_loop header_hash tx_hash tx_size testnet c fp below rest = Ret (c', err)
    /\ (k <= length rest)%nat /\ frame c c' /\ ledger (c_stats c') (a ++ take k rest)
    /\ c_heights c' = index_all (c_heights c) (take k rest)
    /\ c_utxos c' = connect_all (c_utxos c) (take k rest)
    /\ c_phase2 c' = checkpoint_all (c_phase2 c) (take k rest)
    /\ (err = None -> k = length rest
        /\ forall x, x ∈ rest -> block_height x <> 0 ->
           is_Some (c_blocks c !! prev_hash (header x)))
    /\ (forall e, err = Some e -> e ∈ connect_reasons)
    /\ accepted_run c (c_utxos c) (take k rest).
Proof.
  induction rest as [|b rest IH]; intros c fp a below Hl Ht Hr; cbn [connect_loop].
  { exists c, None, 0%nat. rewrite app_nil_r. split_and!; try done. intros _.
    split; [done|]. intros x Hx. set_solver. }
  destruct (fork_block_error c fp below b) as [e|] eqn:E.
  { exists c, (Some e), 0%nat. rewrite app_nil_r. cbn. split_and!; try done; [lia|].
    intros e' [= <-]. by eapply fork_block_error_early. }
  pose proof (fork_block_accepted _ _ _ _ E) as Hacc.
  rewrite (cons_middle b a rest), app_assoc in Ht, Hr.
  destruct (connect_fork_spec c b a) as (c1&E1&F1&L1&H1&U1&P1); [done| |..].
  { apply Forall_app in Ht. apply Ht. }
  { unfold room in *. rewrite length_app in Hr. lia. }
  rewrite E1. cbn [mbind exec_bind].
  destruct (IH c1 fp (a ++ [b]) (below ++ [b]) L1 Ht Hr)
    as (c'&err&k&E'&Hk&F&L&Hh&U&P&N&Ne&Ha).
  exists c', err, (S k). rewrite E'. cbn [take length]. split; [done|]. split; [lia|].
  split; [by etrans|]. rewrite <- app_assoc in L. split; [done|].
  rewrite Hh, U, P, H1, U1, P1. split; [done|]. split; [done|]. split; [done|].
  split; [|split; [done|]].
  2:{ cbn [accepted_run]. split; [done|]. rewrite <- U1. by rewrite (accepted_frame c c1). }
  intros Herr. destruct (N Herr) as [-> Hin]. split; [done|].
  intros x [->|Hx]%elem_of_cons Hx0.
  - unfold fork_block_error in E.
    destruct (validate b (c_blocks c !! prev_hash (header b)) _ _ _) as [[]|] eqn:V; try done.
    destruct (c_blocks c !! prev_hash (header b)) eqn:Eb; [done|].
    by apply validate_needs_parent in V.
  - rewrite <- (frame_blocks _ _ F1). by apply Hin.
Qed.

(** ** Rolling back *)

Lemma undo_spec guarded p : forall c a,
  ledger (c_stats c) (a ++ p) -> Forall typed_block (a ++ p) ->
  (forall b, b ∈ p -> c_heights c !! block_height b = Some (hash_of b)) ->
  exists c', undo_fork_blocks header_hash tx_hash tx_size testnet guarded c (reverse p)
      = Ret c'
    /\ frame c c' /\ ledger (c_stats c') a /\ c_heights c' = c_heights c
    /\ c_utxos c' = disconnect_all (c_utxos c) p
    /\ c_phase2 c' = rewind_all (c_phase2 c) p.
Proof.
  induction p as [|b p IH] using rev_ind; intros c a Hl Ht Hp.
  { rewrite app_nil_r in *. by exists c. }
  rewrite reverse_snoc. cbn [undo_fork_blocks].
  rewrite (bool_decide_eq_true_2 (_ !! _ = _)), orb_true_r by (apply Hp; set_solver).
  rewrite app_assoc in Hl, Ht.
  destruct (unapply_spec c b (a ++ p) Hl Ht) as (c1&E1&F1&L1&H1&U1&P1).
  rewrite E1. cbn [mbind exec_bind]. apply Forall_app in Ht as [Ht _].
  destruct (IH c1 a L1 Ht) as (c'&E&F&L&Hh&U&P).
  { intros x Hx. rewrite H1. apply Hp. set_solver. }
  exists c'. rewrite E. split; [done|]. split; [by etrans|]. split; [done|].
  unfold disconnect_all, rewind_all. rewrite !foldr_app. cbn.
  rewrite Hh, U, P, H1, U1, P1. done.
Qed.

(** The guard skips the fork blocks that were never connected. *)
Lemma undo_skip q : forall c p,
  (forall b, b ∈ q -> c_heights c !! block_height b <> Some (hash_of b)) ->
  undo_fork_blocks header_hash tx_hash tx_size testnet true c (reverse (p ++ q))
  = undo_fork_blocks header_hash tx_hash tx_size testnet true c (reverse p).
Proof.
  induction q as [|b q IH] using rev_ind; intros c p Hq; [by rewrite app_nil_r|].
  rewrite app_assoc, reverse_snoc. cbn [undo_fork_blocks negb orb].
  rewrite bool_decide_eq_false_2 by (apply Hq; set_solver).
  apply IH. intros x Hx. apply Hq. set_solver.
Qed.

Lemma reapply_spec m : forall c,
  (forall b, b ∈ m -> c_blocks c !! hash_of b = Some b) ->
  let c' := foldl (reapply_block tx_hash) c (entry <$> m) in
  frame c c' /\ c_stats c' = c_stats c /\ c_heights c' = index_all (c_heights c) m
  /\ c_utxos c' = connect_all (c_utxos c) m
  /\ c_phase2 c' = checkpoint_all (c_phase2 c) m.
Proof.
  induction m as [|b m IH]; intros c Hm; cbn [fmap list_fmap foldl]; [done|].
  unfold reapply_block at 2 4 6 8 10. cbn [entry fst snd c_blocks set_heights].
  rewrite (Hm b) by set_solver.
  match goal with |- context [foldl _ ?c1 _] => destruct (IH c1) as (F&S&Hh&U&P) end.
  { intros x Hx. cbn. apply Hm. set_solver. }
  split_and!; [etrans; [|exact F]| | | |]; try done.
  split; try done. cbn. by destruct (c_stats c).
Qed.

Lemma seg_take s l k : seg s l -> seg s (take k l).
Proof. intros H i b [Hi _]%lookup_take_Some. by apply H. Qed.

Lemma seg_drop s l k : seg s l -> seg (s + Z.of_nat k) (drop k l).
Proof. intros H i b Hi. rewrite lookup_drop in Hi. apply H in Hi. lia. Qed.

(** Both rollback paths restore everything but the UTXO set and the phase-2
    stores, except that fork blocks above [high] keep their height mapping. *)
Lemma roll_back_spec guarded c0 c d a m f k fp high :
  frame c0 c -> ledger (c_stats c) (a ++ take k f) -> Forall typed_block (a ++ f) ->
  c_heights c
    = index_all (remove_heights (c_heights c0) fp (fp + Z.of_nat (length m))) (take k f) ->
  seg (fp + 1) m -> indexed c0 m -> seg (fp + 1) f -> (k <= length f)%nat ->
  disconnected_heights d = reverse (entry <$> m) ->
  (forall h, fp + Z.of_nat (length m) < h -> c_heights c0 !! h = None) ->
  fp + Z.of_nat (length m) <= high -> guarded = true \/ k = length f ->
  exists c', roll_back header_hash tx_hash tx_size testnet guarded c (c_tip c0) (c_stats c0)
      fp high f d = Ret c'
    /\ frame c0 c' /\ c_stats c' = c_stats c0
    /\ (forall h, c_heights c' !! h =
        if bool_decide (high < h <= fp + Z.of_nat k)
        then hash_of <$> f !! Z.to_nat (h - (fp + 1)) else c_heights c0 !! h)
    /\ c_utxos c' = connect_all (disconnect_all (c_utxos c) (take k f)) m
    /\ c_phase2 c' = checkpoint_all (rewind_all (c_phase2 c) (take k f)) m.
Proof.
  intros F0 Hl Ht Hh Sm Im Sf Hk Hd Hnone Hhigh Hg.
  pose proof (seg_take _ _ k Sf) as Sk.
  assert (Lk : length (take k f) = k) by (rewrite length_take; lia).
  assert (Hc : forall h, c_heights c !! h =
    if bool_decide (fp < h <= fp + Z.of_nat k)
    then hash_of <$> f !! Z.to_nat (h - (fp + 1))
    else if bool_decide (fp < h) then None else c_heights c0 !! h).
  { intros h. rewrite Hh, (index_all_lookup _ _ _ _ Sk), Lk, remove_heights_lookup.
    repeat case_bool_decide; try lia; try done.
    - by rewrite lookup_take_lt by lia.
    - apply Hnone. lia. }
  assert (Happ : forall b, b ∈ take k f -> c_heights c !! block_height b = Some (hash_of b)).
  { intros b Hb. apply list_elem_of_lookup in Hb as [i Hi]. pose proof (Sk i b Hi) as Eb.
    pose proof (lookup_lt_Some _ _ _ Hi). rewrite Hc, bool_decide_eq_true_2 by lia.
    replace (Z.to_nat (block_height b - (fp + 1))) with i by lia.
    apply lookup_take_Some in Hi as [-> _]. done. }
  destruct (undo_spec guarded (take k f) c a) as (c1&E1&F1&L1&H1&U1&P1); [done| |done|].
  { apply Forall_app in Ht as [? ?]. apply Forall_app. split; [done|]. by apply Forall_take. }
  assert (E : undo_fork_blocks header_hash tx_hash tx_size testnet guarded c (reverse f)
    = Ret c1).
  { destruct Hg as [->| ->]; [|by rewrite take_ge in E1 by lia].
    rewrite <- (take_drop k f), undo_skip; [done|]. intros b Hb.
    apply list_elem_of_lookup in Hb as [i Hi].
    pose proof (seg_drop _ _ k Sf i b Hi) as Eb.
    rewrite Hc, bool_decide_eq_false_2, bool_decide_eq_true_2 by lia. done. }
  unfold roll_back. rewrite E. cbn [mbind exec_bind]. rewrite Hd, reverse_involutive.
  set (c2 := set_heights c1 _).
  destruct (reapply_spec m c2) as (F2&S2&H2&U2&P2').
  { intros b Hb. cbn. rewrite (frame_blocks _ _ F1), (frame_blocks _ _ F0). by apply Im. }
  eexists. split; [done|].
  assert (F3 : frame c0 c2) by (do 2 (etrans; [eassumption|]); apply frame_heights).
  split; [|split; [done|]].
  { destruct F2, F3. split; cbn; try congruence. by destruct (c_stats c0). }
  cbn. rewrite U2, P2'. cbn. rewrite U1, P1. split_and!; try done.
  intros h. rewrite H2, (index_all_lookup _ _ _ _ Sm). cbn.
  rewrite remove_heights_lookup, H1, Hc.
  repeat case_bool_decide; try lia; try done.
  - destruct (m !! Z.to_nat (h - (fp + 1))) as [b|] eqn:Eb; cbn.
    + pose proof (Sm _ _ Eb). destruct (Im b) as [<- _]; [by eapply list_elem_of_lookup_2|].
      f_equal. lia.
    + apply lookup_ge_None_1 in Eb. lia.
  - symmetry. apply Hnone. lia.
  - symmetry. apply Hnone. lia.
Qed.

(** ** The whole reorganisation *)

(** The persisted state is that of the tip and of the accumulators. *)
Definition durable c (d : Database) : Prop :=
  exists st, d_state d = Some st
    /\ cs_tip_hash st = tip_hash (c_tip c) /\ cs_height st = tip_height (c_tip c)
    /\ cs_total_supply st = total_supply (c_stats c)
    /\ cs_total_burned st = wrap64 (total_burned (c_stats c)).

(** The state after a successful reorganisation from the main-chain segment
    [m] above [fp] to the fork [f ++ [b]]; [a] is the chain up to [fp]. *)
Record reorged c c' (a m f : list Block) b (fp w : Z) : Prop := {
  ro_blocks : c_blocks c' = c_blocks c;
  ro_genesis : c_genesis c' = c_genesis c;
  ro_network : c_network c' = c_network c;
  ro_finality : c_finality c' = c_finality c;
  ro_tip : c_tip c' = mkChainTip (hash_of b) (block_height b)
    (ForkChoice.calculate_difficulty_from_target (h_target (header b)))
    (h_timestamp (header b));
  ro_ledger : ledger (c_stats c') (a ++ f ++ [b]);
  ro_work : s_total_difficulty (c_stats c') = w;
  ro_height : s_height (c_stats c') = block_height b;
  ro_tip_hash : s_tip_hash (c_stats c') = hash_of b;
  ro_count : total_blocks (c_stats c) = Z.of_nat (length (a ++ m)) ->
    total_blocks (c_stats c') = Z.of_nat (length (a ++ f ++ [b]));
  ro_heights : forall h, c_heights c' !! h =
    if bool_decide (fp < h <= block_height b)
    then hash_of <$> (f ++ [b]) !! Z.to_nat (h - (fp + 1))
    else if bool_decide (fp < h) then None else c_heights c !! h;
  ro_db_heights : forall d, c_db c = Some d -> exists d', c_db c' = Some d'
    /\ db_blocks (d_blocks d') = db_blocks (d_blocks d)
    /\ (forall h, db_heights (d_blocks d') !! h =
      if bool_decide (fp < h <= block_height b)
      then hash_of <$> (f ++ [b]) !! Z.to_nat (h - (fp + 1))
      else if bool_decide (block_height b < h <= tip_height (c_tip c)) then None
      else db_heights (d_blocks d) !! h)
    /\ durable c' d';
  ro_db : c_db c = None -> c_db c' = None;
  ro_utxos : exists oi, c_utxos c'
    = set_output_db (connect_all (disconnect_all (c_utxos c) m) (f ++ [b])) oi;
  ro_phase2 : c_phase2 c' = checkpoint_all (rewind_all (c_phase2 c) m) f;
  ro_parents : forall x, x ∈ f ++ [b] -> block_height x <> 0 ->
    is_Some (c_blocks c !! prev_hash (header x));
}.

(** The state after a failed one: [k] fork blocks had been connected. *)
Record rolled c c' (m f : list Block) (k : nat) (fp high : Z) : Prop := {
  rb_frame : frame c c';
  rb_stats : c_stats c' = c_stats c;
  rb_heights : forall h, c_heights c' !! h =
    if bool_decide (high < h <= fp + Z.of_nat k)
    then hash_of <$> f !! Z.to_nat (h - (fp + 1)) else c_heights c !! h;
  rb_utxos : c_utxos c' = connect_all (disconnect_all
    (connect_all (disconnect_all (c_utxos c) m) (take k f)) (take k f)) m;
  rb_phase2 : c_phase2 c' = checkpoint_all (rewind_all
    (checkpoint_all (rewind_all (c_phase2 c) m) (take k f)) (take k f)) m;
  rb_accepted : accepted_run c (disconnect_all (c_utxos c) m) (take k f);
}.

Lemma collect_loop_ext v v' fuel : forall visited h fp acc,
  (forall h, get_block v h = get_block v' h) ->
  collect_loop v fuel visited h fp acc = collect_loop v' fuel visited h fp acc.
Proof.
  induction fuel as [|fuel IH]; intros visited h fp acc Hv; cbn [collect_loop]; [done|].
  rewrite Hv. case_bool_decide; [done|]. destruct (get_block v' h) as [x|]; [|done].
  destruct (block_height x <=? fp); [done|]. by apply IH.
Qed.

Lemma frame_collect c c' b fp :
  frame c c' -> collect_fork_chain (view c') b fp = collect_fork_chain (view c) b fp.
Proof.
  intros F. unfold collect_fork_chain, walk_fuel, known. cbn [blocks db view].
  rewrite (frame_blocks _ _ F), (frame_db _ _ F). f_equal.
  apply collect_loop_ext. intros h. unfold get_block. cbn.
  by rewrite (frame_blocks _ _ F), (frame_db _ _ F).
Qed.

Lemma recount_spec n p q :
  0 <= p -> 0 <= q -> n + p <= 2 ^ 63 -> n + q <= 2 ^ 63 -> 0 <= n ->
  recount (n + p) p q = n + q.
Proof.
  intros. unfold recount, checked_sub. destruct (Z.leb_spec p (n + p)); [|lia].
  rewrite sat_add_exact; [lia|]. word_lia.
Qed.

Lemma commit_spec c c1 d a m f b fp w now :
  frame c c1 -> ledger (c_stats c1) (a ++ f) ->
  Forall typed_block ((a ++ f) ++ [b]) -> room ((a ++ f) ++ [b]) -> room (a ++ m) ->
  seg (fp + 1) (f ++ [b]) ->
  (forall h, c_heights c1 !! h =
    if bool_decide (fp < h <= fp + Z.of_nat (length f))
    then hash_of <$> f !! Z.to_nat (h - (fp + 1))
    else if bool_decide (fp < h) then None else c_heights c !! h) ->
  c_utxos c1 = connect_all (disconnect_all (c_utxos c) m) f ->
  c_phase2 c1 = checkpoint_all (rewind_all (c_phase2 c) m) f ->
  disconnected_blocks d = Z.of_nat (length m) ->
  (forall x, x ∈ f ++ [b] -> block_height x <> 0 ->
    is_Some (c_blocks c !! prev_hash (header x))) ->
  exists c2, commit_tip header_hash tx_hash tx_size testnet c1 w f d b = Ret c2
    /\ reorged c (record_event (persist_reorg header_hash tx_hash c2 (c_tip c) w f d b)
         Reorg (block_height b) (hash_of b) now) a m f b fp w.
Proof.
  intros F Hl Ht Hr Hr' Hs Hh Hu Hp Hd Hpar.
  destruct (add_supply_spec (c_stats c1) (a ++ f) b Hl Ht Hr) as (s'&E&Es&Hs').
  pose proof Hs as Hsb. apply seg_app in Hsb as [Sf Sb]. apply seg_one in Sb.
  assert (Hb : is_u64 (block_height b)).
  { apply typed_height. apply Forall_app in Ht as [_ Ht]. by inversion Ht. }
  unfold commit_tip. rewrite calculate_block_reward_eq by done. cbn [mbind exec_bind].
  cbn [c_stats set_utxos]. rewrite E. cbn [mbind exec_bind].
  eexists. split; [done|].
  assert (Hcount : total_blocks s' = total_blocks (c_stats c)).
  { rewrite Es. cbn. by rewrite (frame_stats _ _ F). }
  unfold room in Hr, Hr'. rewrite !length_app in Hr. rewrite length_app in Hr'.
  cbn [length] in Hr.
  unfold persist_reorg. cbn [c_db set_heights set_stats set_tip set_utxos].
  rewrite (frame_db _ _ F).
  split; try (destruct (c_db c); cbn; try apply F; done).
  - destruct (c_db c); cbn; rewrite app_assoc; apply Hs'.
  - intros Hn. destruct (c_db c); cbn; rewrite Hcount, Hn, Hd, !length_app, !Nat2Z.inj_add;
      rewrite recount_spec by lia; cbn; lia.
  - intros h. assert (Hhb : <[block_height b := hash_of b]> (c_heights c1) !! h =
      if bool_decide (fp < h <= block_height b)
      then hash_of <$> (f ++ [b]) !! Z.to_nat (h - (fp + 1))
      else if bool_decide (fp < h) then None else c_heights c !! h).
    { destruct (decide (h = block_height b)) as [->|Hne].
      - rewrite lookup_insert_eq, bool_decide_eq_true_2 by lia.
        rewrite lookup_app_r by lia.
        by replace (Z.to_nat _ - length f)%nat with 0%nat by lia.
      - rewrite lookup_insert_ne, Hh by done.
        repeat case_bool_decide; try lia; try done. by rewrite lookup_app_l by lia. }
    by destruct (c_db c).
  - intros db Hdb. rewrite Hdb. cbn. eexists; split; [done|]. split; [done|].
    split; [|by eexists]. intros h. cbn. rewrite remove_heights_lookup.
    fold (index_all (db_heights (d_blocks db)) (f ++ [b])).
    rewrite (index_all_lookup _ _ _ _ Hs), length_app. cbn [length].
    repeat case_bool_decide; try lia; done.
  - intros Hdb. rewrite Hdb. cbn. by rewrite (frame_db _ _ F).
  - unfold connect_all. rewrite foldl_app. cbn. fold (connect_all (disconnect_all (c_utxos c) m) f).
    rewrite <- Hu. destruct (c_db c); cbn; [by eexists|].
    exists (Utxo.db (connect tx_hash (c_utxos c1) (block_height b) (transactions b))).
    by destruct (connect tx_hash _ _ _).
Qed.

(** What a reorganisation starts from: the main chain is [a ++ m] with [m]
    above the fork point, in memory; the fork is [f ++ [b]]. *)
Record reorg_pre c (a m f : list Block) b (fp : Z) : Prop := {
  pre_main : seg (fp + 1) m;
  pre_indexed : indexed c m;
  pre_tip : tip_height (c_tip c) = fp + Z.of_nat (length m);
  pre_top : forall h, tip_height (c_tip c) < h -> c_heights c !! h = None;
  pre_ledger : ledger (c_stats c) (a ++ m);
  pre_typed : Forall typed_block (a ++ m);
  pre_typed' : Forall typed_block ((a ++ f) ++ [b]);
  pre_room : room (a ++ m);
  pre_room' : room ((a ++ f) ++ [b]);
  pre_fork : seg (fp + 1) (f ++ [b]);
  pre_collect : collect_fork_chain (view c) b fp = Some f;
}.

Definition reorg_done c c' a m f b fp w (r : BlockStatus) : Prop :=
  (exists txs, r = AcceptedReorg txs /\ reorged c c' a m f b fp w)
  \/ (exists e k high, r = Invalid e /\ (k <= length f)%nat /\ rolled c c' m f k fp high
      /\ (e ∈ early_reasons /\ (e ∈ connect_reasons \/ k = length f)
             /\ high = tip_height (c_tip c)
          \/ e = ReorgTipTarget /\ high = Z.max (tip_height (c_tip c)) (block_height b))).

Lemma reorg_tip_error_early c b e : reorg_tip_error c b = Some e -> e ∈ early_reasons.
Proof.
  unfold reorg_tip_error, early_reasons, connect_reasons.
  destruct (validate _ _ _ _ _) as [[]|]; intros [= <-]; set_solver.
Qed.

Lemma perform_reorg_spec c now a m f b fp w :
  reorg_pre c a m f b fp ->
  exists c' r,
    perform_reorg header_hash tx_hash tx_size testnet c now b fp w = Ret (c', r)
    /\ reorg_done c c' a m f b fp w r.
Proof.
  intros [Sm Im Et Htop Hl Ht Ht' Hr Hr' Sf Hcol].
  pose proof Sf as Sf0. apply seg_app in Sf0 as [Sf' Sb].
  assert (Hm : Z.of_nat (length m) <= 2 ^ 63).
  { unfold room in Hr. rewrite length_app in Hr. lia. }
  unfold perform_reorg.
  replace (Z.to_nat (tip_height (c_tip c) - fp)) with (length m) by lia.
  destruct (disconnect_loop_spec m c no_disconnected a fp)
    as (c1&d&E1&F1&L1&H1&U1&P1&D1&_&D3); try done; try (cbn; lia).
  rewrite E1. cbn [mbind exec_bind].
  rewrite (frame_collect c c1), Hcol by done. cbn [or_fuel mbind exec_bind].
  assert (Haf : Forall typed_block (a ++ f)) by (apply Forall_app in Ht' as [? _]; done).
  assert (Hrf : room (a ++ f)).
  { unfold room in *. rewrite length_app in Hr'. lia. }
  destruct (connect_loop_spec f c1 fp a [] L1 Haf Hrf)
    as (c2&err&k&E2&Hk&F2&L2&H2&U2&P2'&N&Ne&Ha). rewrite E2. cbn [mbind exec_bind].
  assert (F : frame c c2) by by etrans.
  assert (RB : forall guarded high, fp + Z.of_nat (length m) <= high ->
    guarded = true \/ k = length f ->
    exists c', roll_back header_hash tx_hash tx_size testnet guarded c2 (c_tip c)
      (c_stats c) fp high f d = Ret c' /\ rolled c c' m f k fp high).
  { intros guarded high Hh Hg.
    destruct (roll_back_spec guarded c c2 d a m f k fp high)
      as (c'&E&G1&G2&G3&G4&G5); try done.
    - by rewrite H2, H1.
    - intros h ?. apply Htop. lia.
    - exists c'. split; [done|]. split; try done.
      + by rewrite G4, U2, U1.
      + by rewrite G5, P2', P1.
      + rewrite U1 in Ha. by apply (accepted_frame c c1 _ _ F1). }
  set (err' := match err with None => reorg_tip_error c2 b | Some _ => err end).
  destruct err' as [e|] eqn:Ee.
  { destruct (RB true (Z.max (tip_height (c_tip c2)) (tip_height (c_tip c))))
      as (c'&E&R); [rewrite <- Et; lia|by left|].
    rewrite E. cbn [mbind exec_bind]. eexists _, _. split; [done|].
    right. exists e, k, (tip_height (c_tip c)).
    rewrite (frame_tip _ _ F), Z.max_id in R. split_and!; try done. left.
    unfold err' in Ee. destruct err as [e'|].
    - injection Ee as ->. pose proof (Ne e eq_refl). unfold early_reasons. set_solver.
    - destruct (N eq_refl) as [-> _]. by apply reorg_tip_error_early in Ee; auto. }
  assert (Herr : err = None /\ reorg_tip_error c2 b = None).
  { unfold err' in Ee. by destruct err. }
  destruct Herr as [-> Htip]. destruct (N eq_refl) as [-> Hpar].
  destruct (reorg_tip_target_error c2 fp f b) as [e|] eqn:Eq.
  { destruct (RB false (Z.max (tip_height (c_tip c)) (block_height b)))
      as (c'&E&R); [rewrite <- Et; lia|by right|].
    rewrite E. cbn [mbind exec_bind]. eexists _, _. split; [done|]. right.
    exists e, (length f), (Z.max (tip_height (c_tip c)) (block_height b)).
    unfold reorg_tip_target_error in Eq. split_and!; try done. right. split; [|done].
    destruct (1 <=? block_height b); [|done]. by destruct (target_ok _ _); simplify_eq. }
  rewrite take_ge in * by done.
  destruct (commit_spec c c2 d a m f b fp w now) as (c3&E3&R); try done.
  - intros h. rewrite H2, H1, (index_all_lookup _ _ _ _ Sf'), remove_heights_lookup.
    repeat case_bool_decide; try lia; try done. apply Htop. lia.
  - by rewrite U2, U1.
  - by rewrite P2', P1.
  - intros x [Hx|Hx]%elem_of_app Hx0.
    + rewrite <- (frame_blocks _ _ F1). by apply Hpar.
    + apply list_elem_of_singleton in Hx as ->. unfold reorg_tip_error in Htip.
      rewrite (frame_blocks _ _ F) in Htip.
      destruct (c_blocks c !! prev_hash (header b)); [done|].
      destruct (validate b None _ _ _) as [[]|] eqn:V; try done.
      by apply validate_needs_parent in V.
  - rewrite E3. cbn [mbind exec_bind]. eexists _, _. split; [done|]. left. eauto.
Qed.
End ledger.
