(* ===== verification/ChainCoins.v ===== *)
(** * The UTXO set across blocks

    The UTXO set of [src/storage/utxos.rs] over the disconnect and connect
    loops of [src/chain.rs], up to the equivalence that forgets the derived
    indices, and the on-disk output index over the same loops. *)

From stdpp Require Import prelude gmap sorting.
From Stdlib Require Import ZArith Lia.
From S2P Require Import Prelude Constants Emission FeeMarket Difficulty Block Utxo ForkChoice.
From S2P Require Import Chain ChainLedger.

Local Open Scope Z_scope.

(** ** UTXO sets up to their indices *)

(** Same outputs, canonical catalogue and spent key images. *)
Definition same_coins (u u' : UtxoSet) : Prop :=
  u_outputs u = u_outputs u' /\ locator_outputs u = locator_outputs u'
  /\ u_key_images u = u_key_images u'.

#[export] Instance same_coins_equiv : Equivalence same_coins.
Proof.
  split; [done| |].
  - intros u u' (?&?&?). by split_and!.
  - intros u1 u2 u3 (?&?&?) (?&?&?). split_and!; congruence.
Qed.

Section coins.
Context (tx_hash : Transaction -> Hash).

Lemma add_all_coins l : forall u u', same_coins u u' -> same_coins (add_all u l) (add_all u' l).
Proof.
  induction l as [|a l IH]; intros u u' H; [done|]. apply IH. destruct H as (H1&H2&H3).
  rewrite !apply_add_eq. unfold same_coins. cbn. by rewrite H1, H2, H3.
Qed.

#[export] Instance connect_proper :
  Proper (same_coins ==> eq ==> eq ==> same_coins) (connect tx_hash).
Proof.
  intros u u' H h ? <- txs ? <-. rewrite !connect_eq. cbv zeta.
  destruct (add_all_coins (block_adds tx_hash h txs) u u' H) as (E1&E2&_).
  destruct H as (_&_&H3). unfold same_coins. cbn. by rewrite E1, E2, H3.
Qed.

#[export] Instance disconnect_proper :
  Proper (same_coins ==> eq ==> same_coins) (disconnect tx_hash).
Proof.
  intros u u' (H1&H2&H3) txs ? <-. rewrite !(disconnect_eq tx_hash _ 0). cbv zeta.
  set (ks := add_key <$> block_adds tx_hash 0 txs).
  pose proof (remove_all_core u ks) as R. pose proof (remove_all_core u' ks) as R'.
  unfold same_coins. cbn. split_and!.
  - apply map_eq. intros k. destruct (R k) as (->&_), (R' k) as (->&_). by rewrite H1.
  - apply map_eq. intros k. destruct (R k) as (_&->&_), (R' k) as (_&->&_). by rewrite H2.
  - destruct (R (inhabitant, 0)) as (_&_&->&_), (R' (inhabitant, 0)) as (_&_&->&_).
    by rewrite H3.
Qed.

#[export] Instance connect_all_proper :
  Proper (same_coins ==> eq ==> same_coins) (connect_all tx_hash).
Proof.
  intros u u' H l ? <-. revert u u' H.
  induction l as [|b l IH]; intros u u' H; cbn; [done|]. apply IH. by rewrite H.
Qed.

#[export] Instance disconnect_all_proper :
  Proper (same_coins ==> eq ==> same_coins) (disconnect_all tx_hash).
Proof.
  intros u u' H l ? <-. induction l as [|b l IH]; cbn; [done|]. by rewrite IH.
Qed.

Lemma connect_all_app u l l' :
  connect_all tx_hash u (l ++ l') = connect_all tx_hash (connect_all tx_hash u l) l'.
Proof. unfold connect_all. apply foldl_app. Qed.

Lemma disconnect_all_app u l l' :
  disconnect_all tx_hash u (l ++ l') = disconnect_all tx_hash (disconnect_all tx_hash u l') l.
Proof. unfold disconnect_all. apply foldr_app. Qed.

(** Each block is fresh when its turn comes. *)
Fixpoint fresh_chain (u : UtxoSet) (l : list Block) : Prop :=
  match l with
  | [] => True
  | b :: l =>
      fresh_block tx_hash u (block_height b) (transactions b)
      /\ fresh_chain (connect tx_hash u (block_height b) (transactions b)) l
  end.

Lemma disconnect_connect u h txs :
  utxo_wf u -> fresh_block tx_hash u h txs ->
  same_coins (disconnect tx_hash (connect tx_hash u h txs) txs) u.
Proof. intros Hu Hf. by destruct (reorg_outputs tx_hash u h txs Hu Hf) as (?&?&?). Qed.

Lemma chain_undo l : forall u,
  utxo_wf u -> fresh_chain u l ->
  same_coins (disconnect_all tx_hash (connect_all tx_hash u l) l) u.
Proof.
  induction l as [|b l IH]; intros u Hu Hf; [done|]. destruct Hf as [Hb Hf].
  unfold connect_all, disconnect_all. cbn.
  pose proof (connect_wf tx_hash _ _ _ Hu Hb) as Hw. specialize (IH _ Hw Hf).
  unfold connect_all, disconnect_all in IH. rewrite IH. by apply disconnect_connect.
Qed.

Lemma connect_all_wf l : forall u,
  utxo_wf u -> fresh_chain u l -> utxo_wf (connect_all tx_hash u l).
Proof.
  induction l as [|b l IH]; intros u Hu Hf; [done|]. destruct Hf as [Hb Hf].
  apply IH; [by apply connect_wf|done].
Qed.

Lemma disconnect_all_wf l u : utxo_wf u -> utxo_wf (disconnect_all tx_hash u l).
Proof. intros Hu. induction l as [|b l IH]; cbn; [done|]. by apply disconnect_wf. Qed.

Lemma fresh_chain_app u l l' :
  fresh_chain u (l ++ l') <-> fresh_chain u l /\ fresh_chain (connect_all tx_hash u l) l'.
Proof.
  revert u. induction l as [|b l IH]; intros u; cbn; [tauto|]. rewrite IH. tauto.
Qed.

(** Undoing part of a fork and putting the old branch back. *)
Lemma swap_back u u0 m f k :
  utxo_wf u -> utxo_wf u0 -> fresh_chain u0 m -> same_coins u (connect_all tx_hash u0 m) ->
  fresh_chain (disconnect_all tx_hash u m) f ->
  same_coins (connect_all tx_hash (disconnect_all tx_hash (connect_all tx_hash
    (disconnect_all tx_hash u m) (take k f)) (take k f)) m) u.
Proof.
  intros Hu H0 Hm Heq Hf. rewrite <- (take_drop k f) in Hf.
  apply fresh_chain_app in Hf as [Hf _].
  rewrite (chain_undo (take k f)) by (done || by apply disconnect_all_wf).
  rewrite Heq at 1. rewrite chain_undo by done. by symmetry.
Qed.
End coins.

(** ** The on-disk output index *)

Definition on_disk (u : UtxoSet) (a : PublicKey) : option OutputIndexEntry :=
  d ← Utxo.db u; d !! a.

Section disk.
Context (tx_hash : Transaction -> Hash).

Lemma add_all_db l : forall u, Utxo.db (add_all u l) = Utxo.db u.
Proof. induction l as [|a l IH]; intros u; [done|]. etrans; [apply IH|]. by rewrite apply_add_eq. Qed.

Lemma connect_all_db l : forall u, Utxo.db (connect_all tx_hash u l) = Utxo.db u.
Proof.
  induction l as [|b l IH]; intros u; [done|].
  transitivity (Utxo.db (connect tx_hash u (block_height b) (transactions b))); [apply IH|].
  rewrite connect_eq. cbn. apply add_all_db.
Qed.

Lemma remove_output_absent u k a : on_disk u a = None -> on_disk (remove_output u k.1 k.2).1 a = None.
Proof.
  unfold on_disk. destruct k as [t i]. unfold remove_output. cbv zeta. cbn.
  set (o := match u_outputs u !! (t, i) with Some r => _ | None => _ end).
  destruct o as [x|]; [|done]. cbn. destruct (Utxo.db u) as [d|]; [cbn|done].
  intros Ha. destruct (decide (a = x)) as [->|]; [apply lookup_delete_eq|].
  by rewrite lookup_delete_ne.
Qed.

Lemma remove_all_absent ks : forall u a, on_disk u a = None -> on_disk (remove_all u ks) a = None.
Proof.
  induction ks as [|k ks IH]; intros u a Ha; [done|]. rewrite remove_all_cons.
  apply IH. by apply remove_output_absent.
Qed.

Lemma disconnect_absent u txs a : on_disk u a = None -> on_disk (disconnect tx_hash u txs) a = None.
Proof. intros Ha. rewrite (disconnect_eq tx_hash _ 0). cbv zeta. by apply remove_all_absent. Qed.

Lemma disconnect_all_absent l u a :
  on_disk u a = None -> on_disk (disconnect_all tx_hash u l) a = None.
Proof. intros Ha. induction l as [|b l IH]; cbn; [done|]. by apply disconnect_absent. Qed.

(** Disconnecting a block takes its addresses off the disk. *)
Lemma disconnect_paid u u0 b a :
  fresh_block tx_hash u0 (block_height b) (transactions b) ->
  same_coins u (connect tx_hash u0 (block_height b) (transactions b)) ->
  a ∈ block_addrs tx_hash (block_height b) (transactions b) ->
  on_disk (disconnect tx_hash u (transactions b)) a = None.
Proof.
  intros Hf (Ho&_&_) Ha. rewrite (disconnect_eq tx_hash _ (block_height b)). cbv zeta.
  destruct (remove_all_indices u (block_adds tx_hash (block_height b) (transactions b)) a)
    as (_&_&E&_).
  - apply Hf.
  - intros x Hx. rewrite Ho. by apply connected_outputs.
  - unfold on_disk. cbn. rewrite E. by rewrite bool_decide_eq_true_2.
Qed.

Lemma disconnect_all_paid m b u u0 a :
  utxo_wf u0 -> fresh_chain tx_hash u0 m -> same_coins u (connect_all tx_hash u0 m) ->
  b ∈ m -> a ∈ block_addrs tx_hash (block_height b) (transactions b) ->
  on_disk (disconnect_all tx_hash u m) a = None.
Proof.
  intros H0 Hf Hu (m1&m2&->)%list_elem_of_split Ha.
  apply fresh_chain_app in Hf as [Hf1 [Hb Hf2]].
  rewrite disconnect_all_app. apply disconnect_all_absent.
  apply (disconnect_paid (disconnect_all tx_hash u m2) _ _ _ Hb); [|done].
  rewrite connect_all_app in Hu. rewrite Hu.
  apply (chain_undo tx_hash m2); [|done]. apply connect_wf; [|done]. by apply connect_all_wf.
Qed.
End disk.
