(* ===== verification/ChainSafety.v ===== *)
(** * The chain invariant and its preservation by [add_block]

    The main chain as a list of blocks behind the height maps, the caches and
    the accumulators of [src/chain.rs], for a node with a database (the mode
    the node binary runs in), and the proof that [add_block] never panics and
    keeps the invariant on every path. *)

From stdpp Require Import prelude gmap sorting.
From Stdlib Require Import ZArith Lia.
From S2P Require Import Prelude Constants Emission FeeMarket Difficulty Block Utxo ForkChoice.
From S2P Require Import Chain ChainLedger.

Local Open Scope Z_scope.

(** ** The block cache *)

Section evict.
Implicit Types (bs : gmap Hash Block) (hs : gmap Z Hash).

Definition evictable (tip h : Z) : Prop := h <> 0 /\ wrap64 (h + 200) < tip.

Lemma evict_loop_spec tip n entries : forall k bs hs bs' hs',
  evict_loop tip n k entries bs hs = (bs', hs') ->
  bs' ⊆ bs /\ hs' ⊆ hs
  /\ (forall h, ~ evictable tip h -> hs' !! h = hs !! h)
  /\ (forall x, (forall h, (h, x) ∈ entries -> ~ evictable tip h) -> bs' !! x = bs !! x).
Proof.
  unfold evictable.
  induction entries as [|[h x] entries IH]; intros k bs hs bs' hs' E; cbn in E.
  { by simplify_eq. }
  destruct (Nat.leb_spec n k); [by simplify_eq|].
  destruct (Z.eqb_spec h 0) as [->|Hh].
  { apply IH in E as (?&?&?&H4). split_and!; try done. intros y Hy. apply H4. set_solver. }
  destruct (Z.leb_spec tip (wrap64 (h + 200))).
  { apply IH in E as (?&?&?&H4). split_and!; try done. intros y Hy. apply H4. set_solver. }
  apply IH in E as (H1&H2&H3&H4). split_and!.
  - etrans; [exact H1|apply delete_subseteq].
  - etrans; [exact H2|apply delete_subseteq].
  - intros h' Hh'. rewrite H3 by done. apply lookup_delete_ne. naive_solver lia.
  - intros y Hy. rewrite H4 by (intros; apply Hy; set_solver).
    apply lookup_delete_ne. intros ->. by destruct (Hy h); [set_solver|].
Qed.

Lemma evict_spec {RF P2} (c : Chain RF P2) :
  let c' := evict_block_cache c in
  c' = set_heights (set_blocks c (c_blocks c')) (c_heights c')
  /\ c_blocks c' ⊆ c_blocks c /\ c_heights c' ⊆ c_heights c
  /\ (forall h, ~ evictable (tip_height (c_tip c)) h -> c_heights c' !! h = c_heights c !! h)
  /\ (forall x, (forall h, c_heights c !! h = Some x -> ~ evictable (tip_height (c_tip c)) h) ->
      c_blocks c' !! x = c_blocks c !! x).
Proof.
  cbv zeta. unfold evict_block_cache.
  destruct (size (c_blocks c) <=? MAX_BLOCK_CACHE)%nat; [by destruct c|].
  destruct (evict_loop _ _ _ _ _ _) as [bs hs] eqn:E.
  apply evict_loop_spec in E as (H1&H2&H3&H4). cbn. split_and!; try done.
  intros x Hx. apply H4. intros h Hin. apply Hx.
  rewrite merge_sort_Permutation in Hin. by apply elem_of_map_to_list in Hin.
Qed.
End evict.

(** ** The invariant *)

Section safety.
Context {RF P2 : Type} `{!FinalityGate RF} `{!FinalityFeed RF} `{!Phase2Stores P2}.
Context {BV : BlockValidator}.
Context (header_hash : BlockHeader -> Hash) (tx_hash : Transaction -> Hash).
Context (tx_size : Transaction -> Z).
Context (checkpoints : NetworkType -> list (Z * Hash)).
Context (testnet : bool).

Implicit Types (c : Chain RF P2) (b : Block) (l m : list Block).

Abbreviation hash_of := (hash_of header_hash).
Abbreviation ledger := (ledger tx_size testnet).

(** The hash the main chain [l] has at a height. *)
Definition main_hash l (h : Z) : option Hash :=
  if 0 <=? h then hash_of <$> l !! Z.to_nat h else None.

Definition linked l : Prop :=
  forall i x y, l !! i = Some x -> l !! S i = Some y -> prev_hash (header y) = hash_of x.

Definition has_store c (s : gmap Hash Block) l : Prop :=
  exists d, c_db c = Some d /\ db_blocks (d_blocks d) = s
    /\ forall h, db_heights (d_blocks d) !! h = main_hash l h.

(** [l] is the main chain, from genesis; [s] is the block store. *)
Record chain_inv c (s : gmap Hash Block) l : Prop := {
  inv_db : has_store c s l;
  inv_cache : c_blocks c ⊆ s;
  inv_heights : forall h x, c_heights c !! h = Some x -> main_hash l h = Some x;
  inv_seg : seg 0 l;
  inv_linked : linked l;
  inv_tip_height : tip_height (c_tip c) + 1 = Z.of_nat (length l);
  inv_tip_hash : Some (tip_hash (c_tip c)) = hash_of <$> last l;
  inv_stored : forall b, b ∈ l -> s !! hash_of b = Some b;
  inv_recent : forall b, b ∈ l -> finality_floor (view c) <= block_height b ->
    indexed header_hash c [b];
  inv_parent : forall h b, s !! h = Some b -> block_height b <> 0 ->
    exists p, s !! prev_hash (header b) = Some p /\ block_height p = block_height b - 1;
  inv_keyed : forall h b, s !! h = Some b -> hash_of b = h /\ typed_block b;
  inv_genesis : forall h b, s !! h = Some b -> block_height b = 0 -> head l = Some b;
  inv_pinned : exists g, head l = Some g
    /\ head (filter (fun cp => cp.1 = 0) (checkpoints (c_network c))) = Some (0, hash_of g);
  inv_ledger : ledger (c_stats c) l;
  inv_count : total_blocks (c_stats c) = Z.of_nat (length l);
  inv_durable : forall d, c_db c = Some d -> durable c d;
  inv_tip_time : Some (tip_timestamp (c_tip c)) = h_timestamp ∘ header <$> last l;
}.

(** *** Reading the store *)

Lemma get_block_store c s l h : chain_inv c s l -> get_block (view c) h = s !! h.
Proof.
  intros [(d&Ed&Es&_) Hc _ _ _ _ _ _ _ _ _ _ _ _ _ _ _]. unfold get_block. cbn. rewrite Ed. cbn.
  rewrite Es. destruct (c_blocks c !! h) eqn:E; [|done].
  by rewrite (lookup_weaken _ _ _ _ E Hc).
Qed.

Lemma inv_store_wf c s l : chain_inv c s l -> store_wf (view c).
Proof.
  intros Hi. split; intros h b; rewrite (get_block_store c s l) by done; intros Hb.
  - apply Hi in Hb as [_ [Hb _]]. lia.
  - intros H0. destruct (inv_parent _ _ _ Hi _ _ Hb H0) as (p&Hp&?).
    exists p. by rewrite (get_block_store c s l).
Qed.

Lemma get_hash_main c s l h : chain_inv c s l -> get_block_hash (view c) h = main_hash l h.
Proof.
  intros Hi. pose proof Hi as [(d&Ed&_&Hd) _ Hh _ _ _ _ _ _ _ _ _ _ _ _ _ _].
  unfold get_block_hash. cbn. destruct (c_heights c !! h) eqn:E.
  - by rewrite (Hh _ _ E).
  - rewrite Ed. apply Hd.
Qed.

Lemma main_hash_some l h x :
  main_hash l h = Some x -> exists b, l !! Z.to_nat h = Some b /\ hash_of b = x /\ 0 <= h.
Proof.
  unfold main_hash. destruct (Z.leb_spec 0 h); [|done].
  intros (b&?&?)%fmap_Some. by eauto.
Qed.

Lemma main_hash_elem l b : seg 0 l -> b ∈ l -> main_hash l (block_height b) = Some (hash_of b).
Proof.
  intros Hs [i Hi]%list_elem_of_lookup. pose proof (Hs _ _ Hi). unfold main_hash.
  destruct (Z.leb_spec 0 (block_height b)); [|lia].
  replace (Z.to_nat (block_height b)) with i by lia. by rewrite Hi.
Qed.

(** Main-chain blocks are told apart by their hashes. *)
Lemma main_hash_inj (s : gmap Hash Block) l h h' x :
  seg 0 l -> (forall b, b ∈ l -> s !! hash_of b = Some b) ->
  main_hash l h = Some x -> main_hash l h' = Some x -> h = h'.
Proof.
  intros Hs Hst (b&Hb&Eb&H0)%main_hash_some (b'&Hb'&Eb'&H0')%main_hash_some.
  pose proof (Hst b ltac:(by eapply list_elem_of_lookup_2)) as S1.
  pose proof (Hst b' ltac:(by eapply list_elem_of_lookup_2)) as S2.
  assert (b = b') as <- by congruence.
  apply Hs in Hb, Hb'. lia.
Qed.

Lemma inv_room c s l : chain_inv c s l -> Z.of_nat (length l) <= 2 ^ 62 + 1.
Proof.
  intros Hi. destruct (last l) as [t|] eqn:E.
  - pose proof E as E'. rewrite last_lookup in E.
    pose proof (inv_seg _ _ _ Hi _ _ E).
    assert (s !! hash_of t = Some t) as Ht.
    { apply Hi. by eapply list_elem_of_lookup_2. }
    apply Hi in Ht as [_ [Ht _]]. lia.
  - apply last_None in E as ->. cbn. lia.
Qed.

Lemma inv_typed c s l : chain_inv c s l -> Forall typed_block l.
Proof.
  intros Hi. apply Forall_forall. intros b Hb%(inv_stored _ _ _ Hi).
  apply (inv_keyed _ _ _ Hi _ _ Hb).
Qed.

(** *** Storing a block *)

Lemma store_inv c s l b :
  chain_inv c s l -> s !! hash_of b = None -> typed_block b -> block_height b <> 0 ->
  (exists p, s !! prev_hash (header b) = Some p /\ block_height p = block_height b - 1) ->
  chain_inv (store_block header_hash c b) (<[hash_of b := b]> s) l.
Proof.
  intros Hi Hnew Ht H0 (p&Hp&Hph). pose proof Hi as [(d&Ed&Es&Hd) ? ? ? ? ? ? ? Hrec ? ? ? ? ? ? Hdur ?].
  split; try done.
  - eexists. cbn. rewrite Ed. cbn. split; [done|]. cbn. by rewrite Es.
  - cbn. by apply insert_mono.
  - intros b' Hb'. rewrite lookup_insert_ne; [by apply Hi|].
    intros Heq. apply (inv_stored _ _ _ Hi) in Hb'. congruence.
  - intros b' Hb' Hf x Hx. destruct (Hrec b' Hb' Hf x Hx) as [H1 H2]. split; [done|]. cbn.
    rewrite lookup_insert_ne; [done|]. intros Heq.
    eapply lookup_weaken in H2; [|by apply Hi]. congruence.
  - intros h b' [[<- <-]|[Hne Hb']]%lookup_insert_Some Hz.
    + exists p. split; [|done]. rewrite lookup_insert_ne; [done|congruence].
    + destruct (inv_parent _ _ _ Hi _ _ Hb' Hz) as (q&Hq&?). exists q. split; [|done].
      rewrite lookup_insert_ne; [done|congruence].
  - intros h b' [[<- <-]|[Hne Hb']]%lookup_insert_Some; [done|]. by apply Hi.
  - intros h b' [[<- <-]|[Hne Hb']]%lookup_insert_Some Hz; [done|]. by eapply Hi.
  - cbn. rewrite Ed. intros d' [= <-]. exact (Hdur d Ed).
Qed.

(** *** Extending the tip *)

Lemma main_hash_app l l' h :
  main_hash (l ++ l') h =
    if bool_decide (Z.of_nat (length l) <= h)
    then hash_of <$> l' !! Z.to_nat (h - Z.of_nat (length l)) else main_hash l h.
Proof.
  unfold main_hash. destruct (Z.leb_spec 0 h); case_bool_decide; try lia; try done.
  - rewrite lookup_app_r by lia. do 2 f_equal. lia.
  - by rewrite lookup_app_l by lia.
Qed.

Lemma main_hash_above l h : Z.of_nat (length l) <= h -> main_hash l h = None.
Proof.
  intros. unfold main_hash. destruct (Z.leb_spec 0 h); [|done].
  by rewrite lookup_ge_None_2 by lia.
Qed.

Lemma floor_bounds h : 0 <= h -> h - 143 <= h - h mod CHECKPOINT_INTERVAL <= h.
Proof. intros. unfold CHECKPOINT_INTERVAL. pose proof (Z.mod_pos_bound h 144). lia. Qed.

Lemma floor_mono h h' :
  0 <= h -> h - h mod CHECKPOINT_INTERVAL <= h' ->
  h - h mod CHECKPOINT_INTERVAL <= h' - h' mod CHECKPOINT_INTERVAL.
Proof.
  intros Hh Hle. unfold CHECKPOINT_INTERVAL in *.
  pose proof (Z.div_mod h 144 ltac:(lia)). pose proof (Z.div_mod h' 144 ltac:(lia)).
  assert (h / 144 <= h' / 144); [|lia]. apply Z.div_le_lower_bound; lia.
Qed.

Lemma linked_snoc l b :
  linked l -> (forall t, last l = Some t -> prev_hash (header b) = hash_of t) ->
  linked (l ++ [b]).
Proof.
  intros Hl Hb i x y Hx Hy.
  apply lookup_app_Some in Hy as [Hy|[Hle Hy]].
  - apply (Hl i); [|done]. rewrite lookup_app_l in Hx; [done|].
    apply lookup_lt_Some in Hy. lia.
  - apply list_lookup_singleton_Some in Hy as [Hi <-].
    rewrite lookup_app_l in Hx by (apply lookup_lt_Some in Hx; rewrite length_app in Hx; cbn in Hx; lia).
    apply Hb. rewrite last_lookup. replace (pred (length l)) with i by lia. done.
Qed.

(** What an accepted extension changes, the eviction aside. *)
Record extended c c' b : Prop := {
  ex_evicted : exists c1, c_blocks c' = c_blocks (evict_block_cache c1)
    /\ c_heights c' = c_heights (evict_block_cache c1)
    /\ c_blocks c1 = c_blocks c /\ c_tip c1 = c_tip c'
    /\ c_heights c1 = <[block_height b := hash_of b]> (c_heights c);
  ex_network : c_network c' = c_network c;
  ex_genesis : c_genesis c' = c_genesis c;
  ex_tip : c_tip c' = mkChainTip (hash_of b) (block_height b)
    (ForkChoice.calculate_difficulty_from_target (h_target (header b)))
    (h_timestamp (header b));
  ex_stats : exists s e, calculate_block_reward (block_height b) = Ret e
    /\ add_supply s e (block_fee_burn tx_size testnet b) = Ret (c_stats c')
    /\ total_supply s = total_supply (c_stats c) /\ total_burned s = total_burned (c_stats c)
    /\ total_blocks s = wrap64 (total_blocks (c_stats c) + 1)
    /\ s_total_difficulty s = wrap128 (s_total_difficulty (c_stats c)
        + ForkChoice.calculate_difficulty_from_target (h_target (header b)));
  ex_db : forall d, c_db c = Some d -> exists d', c_db c' = Some d'
    /\ db_blocks (d_blocks d') = db_blocks (d_blocks d)
    /\ db_heights (d_blocks d') = <[block_height b := hash_of b]> (db_heights (d_blocks d))
    /\ durable c' d';
}.

Lemma evict_fields c :
  c_tip (evict_block_cache c) = c_tip c /\ c_stats (evict_block_cache c) = c_stats c
  /\ c_db (evict_block_cache c) = c_db c /\ c_network (evict_block_cache c) = c_network c
  /\ c_genesis (evict_block_cache c) = c_genesis c
  /\ c_utxos (evict_block_cache c) = c_utxos c.
Proof. destruct (evict_spec c) as [-> _]. done. Qed.

(** Past the block cache, an extension only persists, feeds and logs. *)
Lemma finish_fields c now b :
  let c' := record_event (feed_finality testnet (persist_extension header_hash tx_hash
    (persist_output_index c (transactions b) (block_height b)) now b) b)
    BlockAccepted (block_height b) (hash_of b) now in
  c_blocks c' = c_blocks c /\ c_heights c' = c_heights c /\ c_tip c' = c_tip c
  /\ c_stats c' = c_stats c /\ c_network c' = c_network c /\ c_genesis c' = c_genesis c
  /\ (forall d, c_db c = Some d -> exists d', c_db c' = Some d'
    /\ db_blocks (d_blocks d') = db_blocks (d_blocks d)
    /\ db_heights (d_blocks d') = <[block_height b := hash_of b]> (db_heights (d_blocks d))
    /\ (c_tip c = mkChainTip (hash_of b) (block_height b) (tip_difficulty (c_tip c))
          (tip_timestamp (c_tip c)) -> durable c' d')).
Proof.
  cbv zeta. unfold feed_finality, persist_extension. cbn [c_db persist_output_index set_utxos].
  destruct (c_db c) as [d|] eqn:Ed; destruct (_ <=? _); try destruct (_ && _); cbn;
    split_and!; try done.
  all: intros ? [= <-]; eexists; split; [done|]; split; [done|]; split; [done|].
  all: intros Et; eexists; split; [done|]; cbn; rewrite Et; done.
Qed.

Lemma extension_spec c now b c' :
  accept_extension header_hash tx_hash tx_size testnet c now b = Ret c' -> extended c c' b.
Proof.
  unfold accept_extension, extend_tip.
  destruct (calculate_block_reward (block_height b)) as [e| |] eqn:Er; cbn [mbind exec_bind];
    try done.
  destruct (add_supply _ e _) as [s| |] eqn:Es; cbn [mbind exec_bind]; try done.
  match goal with |- context [evict_block_cache ?x] => set (c1 := x) end.
  intros [= <-].
  destruct (finish_fields (evict_block_cache c1) now b) as (E1&E2&E3&E4&E5&E6&E7).
  destruct (evict_fields c1) as (V1&V2&V3&V4&V5&_).
  split.
  - exists c1. rewrite E1, E2, E3, V1. done.
  - by rewrite E5, V4.
  - by rewrite E6, V5.
  - by rewrite E3, V1.
  - eexists _, e. rewrite E4, V2. split; [done|]. split; [exact Es|done].
  - intros d Hd. destruct (E7 d) as (d'&D1&D2&D3&D4); [by rewrite V3|].
    exists d'. split_and!; try done. apply D4. by rewrite V1.
Qed.

Lemma extension_total c l now b :
  ledger (c_stats c) l -> Forall typed_block (l ++ [b]) -> room (l ++ [b]) ->
  exists c', accept_extension header_hash tx_hash tx_size testnet c now b = Ret c'.
Proof.
  intros Hl Ht Hr. unfold accept_extension, extend_tip.
  rewrite calculate_block_reward_eq.
  2:{ apply typed_height. apply Forall_app in Ht as [_ Ht]. by inversion Ht. }
  cbn [mbind exec_bind].
  match goal with |- context [add_supply ?s _ _] =>
    destruct (add_supply_spec tx_size testnet s l b) as (s'&->&_); [apply Hl|done..|] end.
  cbn [mbind exec_bind]. eauto.
Qed.

Lemma recent_not_evictable tip h :
  0 <= h <= tip -> tip <= 2 ^ 62 -> tip - tip mod CHECKPOINT_INTERVAL <= h ->
  ~ evictable tip h.
Proof.
  intros Hh Ht Hf [_ Hw]. pose proof (floor_bounds tip). rewrite wrap64_small in Hw; [lia|].
  word_lia.
Qed.

(** Recent main-chain blocks survive the eviction of the cache. *)
Lemma evict_recent c (s : gmap Hash Block) l b :
  seg 0 l -> (forall b, b ∈ l -> s !! hash_of b = Some b) ->
  (forall h x, c_heights c !! h = Some x -> main_hash l h = Some x) ->
  b ∈ l -> tip_height (c_tip c) <= 2 ^ 62 -> block_height b <= tip_height (c_tip c) ->
  tip_height (c_tip c) - tip_height (c_tip c) mod CHECKPOINT_INTERVAL <= block_height b ->
  indexed header_hash c [b] -> indexed header_hash (evict_block_cache c) [b].
Proof.
  intros Hs Hst Hh Hb Ht Hle Hf Hi x ->%list_elem_of_singleton.
  destruct (Hi b) as [E1 E2]; [set_solver|].
  destruct (evict_spec c) as (_&_&_&H3&H4).
  assert (Hn : ~ evictable (tip_height (c_tip c)) (block_height b)).
  { apply recent_not_evictable; try done. pose proof (seg_elem _ _ _ Hs Hb). lia. }
  rewrite H3, H4; try done. intros h Hh'%Hh. enough (h = block_height b) as -> by done.
  eapply (main_hash_inj s l); try done. by apply main_hash_elem.
Qed.

Lemma accept_inv c s l b now c' :
  chain_inv c s l -> s !! hash_of b = Some b -> c_blocks c !! hash_of b = Some b ->
  block_height b = Z.of_nat (length l) -> prev_hash (header b) = tip_hash (c_tip c) ->
  accept_extension header_hash tx_hash tx_size testnet c now b = Ret c' ->
  chain_inv c' s (l ++ [b]).
Proof.
  intros Hi Hsb Hcb Hb Hp E. apply extension_spec in E.
  destruct E as [(c1&Eb&Eh&Eb1&Et1&Eh1) Enet _ Etip (st&e&Er&Es&Es1&Es2&Es3&_) Edb].
  pose proof Hi as [(d&Ed&Ebs&Hd) Hca Hhe Hse Hli Hth Htx Hst Hre Hpa Hke Hge Hpi Hle Hco _ _].
  destruct (evict_spec c1) as (_&V1&V2&_).
  assert (Hse' : seg 0 (l ++ [b])) by (apply seg_app; split; [done|]; apply seg_one; lia).
  assert (Hst' : forall x, x ∈ l ++ [b] -> s !! hash_of x = Some x) by set_solver.
  assert (Hh1 : forall h x, c_heights c1 !! h = Some x -> main_hash (l ++ [b]) h = Some x).
  { intros h x. rewrite Eh1, main_hash_app.
    intros [[<- <-]|[Hne Hx]]%lookup_insert_Some.
    - rewrite bool_decide_eq_true_2 by lia. by rewrite Hb, Z.sub_diag.
    - apply Hhe in Hx. case_bool_decide; [|done]. by rewrite main_hash_above in Hx by lia. }
  assert (Htb : typed_block b) by by apply (inv_keyed _ _ _ Hi _ _ Hsb).
  destruct Htb as [Hb62 Htf].
  split; try done.
  - destruct (Edb d Ed) as (d'&E0&E1&E2&_). exists d'. split; [done|]. split; [congruence|].
    intros h. rewrite E2, main_hash_app. destruct (decide (h = block_height b)) as [->|Hne].
    + rewrite lookup_insert_eq, bool_decide_eq_true_2 by lia. by rewrite Hb, Z.sub_diag.
    + rewrite lookup_insert_ne, Hd by done. case_bool_decide; [|done].
      rewrite main_hash_above by lia. by rewrite lookup_ge_None_2 by (cbn; lia).
  - rewrite Eb. etrans; [exact V1|]. by rewrite Eb1.
  - intros h x. rewrite Eh. intros Hx. apply Hh1. by eapply lookup_weaken.
  - apply linked_snoc; [done|]. intros t Ht. rewrite Ht in Htx. cbn in Htx. congruence.
  - rewrite Etip, length_app. cbn. lia.
  - by rewrite Etip, last_snoc.
  - intros x Hx Hf. unfold finality_floor in Hf. cbn in Hf. rewrite Etip in Hf. cbn in Hf.
    intros y ->%list_elem_of_singleton. rewrite Eb, Eh.
    apply (evict_recent c1 s (l ++ [b]) x); try done; try (rewrite Et1, Etip; cbn); try lia.
    + pose proof (seg_elem _ _ _ Hse' Hx) as Hlt. rewrite length_app in Hlt. cbn in Hlt. lia.
    + intros z ->%list_elem_of_singleton. rewrite Eh1, Eb1.
      apply elem_of_app in Hx as [Hx|Hx].
      * destruct (Hre x Hx) with x as [G1 G2]; [|set_solver|].
        { unfold finality_floor. cbn. etrans; [|exact Hf].
          pose proof (seg_elem _ _ _ Hse Hx). pose proof (floor_bounds (tip_height (c_tip c))).
          apply floor_mono; lia. }
        pose proof (seg_elem _ _ _ Hse Hx). by rewrite lookup_insert_ne by lia.
      * apply list_elem_of_singleton in Hx as ->. by rewrite lookup_insert_eq.
    + set_solver.
  - intros h x Hx Hz. rewrite head_app. by rewrite (Hge h x Hx Hz).
  - destruct Hpi as (g&Hg&Hcp). exists g. by rewrite head_app, Hg, Enet.
  - pose proof (inv_typed _ _ _ Hi). pose proof (inv_room _ _ _ Hi).
    rewrite calculate_block_reward_eq in Er by (apply typed_height; by split).
    injection Er as <-.
    destruct (add_supply_spec tx_size testnet st l b) as (s'&Hs'&_&Hl').
    + destruct Hle. split; congruence.
    + apply Forall_app. split; [done|]. apply Forall_singleton. by split.
    + unfold room. rewrite length_app. cbn. lia.
    + rewrite Hs' in Es. injection Es as <-. done.
  - apply add_supply_fields in Es as ->. cbn.
    pose proof (inv_room _ _ _ Hi). rewrite Es3, Hco, length_app. cbn.
    rewrite wrap64_small by word_lia. lia.
  - intros d' Hd'. destruct (Edb d Ed) as (d2&E0&_&_&E3). congruence.
  - by rewrite Etip, last_snoc.
Qed.

(** *** The fork and the main chain *)

(** Where the descent over [ld] (highest block first) from [h] ends. *)
Definition path_end (h : Hash) (ld : list Block) : Hash :=
  match last ld with Some x => prev_hash (header x) | None => h end.

Lemma path_end_cons h b ld : path_end h (b :: ld) = path_end (prev_hash (header b)) ld.
Proof. unfold path_end. rewrite last_cons. by destruct (last ld). Qed.

Lemma fork_meets_main v h n b ld :
  store_wf v -> get_block v h = Some b -> first_main v h n -> chain_down v n h ld ->
  exists b', get_block v (path_end h ld) = Some b' /\ block_height b' = n
    /\ (on_main_chain v n (path_end h ld) = true \/ n = 0).
Proof.
  intros Hv Hb H. revert b Hb ld.
  induction H as [h b' Hb' Hm|h b' n Hb' Hm H0 H IH]; intros b Hb ld Hd;
    assert (b' = b) as -> by congruence.
  - inversion Hd as [? b1 Hb1 Hle|? b1 ld' Hb1 Hlt Hd']; subst.
    + exists b. by cbn.
    + assert (b1 = b) as -> by congruence. lia.
  - destruct (wf_parent _ Hv _ _ Hb H0) as (p&Hp&Hph).
    pose proof (first_main_spec v _ p n Hv Hp H) as (?&_).
    inversion Hd as [? b1 Hb1 Hle|? b1 ld' Hb1 Hlt Hd']; subst;
      assert (b1 = b) as -> by congruence; [lia|].
    rewrite path_end_cons. by eapply IH.
Qed.

Lemma linked_down v fp h ld a e :
  (forall x y, get_block v x = Some y -> hash_of y = x) ->
  chain_down v fp h ld -> last a = Some e -> hash_of e = path_end h ld -> linked a ->
  linked (a ++ reverse ld) /\ hash_of <$> last (a ++ reverse ld) = Some h.
Proof.
  intros Hk Hd Ha He Hl. induction Hd as [h b Hb Hle|h b ld Hb Hlt Hd IH].
  - cbn in *. rewrite app_nil_r, Ha. cbn. by rewrite He.
  - rewrite path_end_cons in He. destruct (IH He) as [L1 L2].
    rewrite reverse_cons, app_assoc, last_snoc. cbn.
    rewrite (Hk _ _ Hb). split; [|done]. apply linked_snoc; [done|].
    intros t Ht. rewrite Ht in L2. cbn in L2. congruence.
Qed.

Lemma down_stored v fp h ld x :
  (forall x y, get_block v x = Some y -> hash_of y = x) ->
  chain_down v fp h ld -> x ∈ ld -> get_block v (hash_of x) = Some x.
Proof.
  intros Hk. induction 1 as [|h b ld Hb Hlt Hd IH]; [set_solver|].
  intros [->|Hx]%elem_of_cons; [|by apply IH]. by rewrite (Hk _ _ Hb).
Qed.

Lemma down_seg v fp h p ld b :
  store_wf v -> get_block v h = Some p -> 0 <= fp <= block_height p ->
  block_height p = block_height b - 1 -> chain_down v fp h ld ->
  seg (fp + 1) (reverse ld ++ [b]).
Proof.
  intros Hv Hp Hfp Hph Hd. destruct (chain_down_spec _ _ _ _ _ Hv Hp Hfp Hd) as (L1&L2&_).
  apply seg_app. split; [|apply seg_one; rewrite length_reverse; lia].
  intros i x Hx. pose proof Hx as Hi. apply lookup_lt_Some in Hi. rewrite length_reverse in Hi.
  rewrite reverse_lookup in Hx by done. apply L2 in Hx. lia.
Qed.

(** The block the fork branches from is the main-chain block at [fp]. *)
Lemma fork_base c s l h p fp ld :
  chain_inv c s l -> s !! h = Some p -> first_main (view c) h fp ->
  chain_down (view c) fp h ld ->
  exists e, l !! Z.to_nat fp = Some e /\ hash_of e = path_end h ld.
Proof.
  intros Hi Hp Hn Hd. pose proof (inv_store_wf _ _ _ Hi) as Hv.
  rewrite <- (get_block_store c s l) in Hp by done.
  destruct (fork_meets_main _ _ _ _ _ Hv Hp Hn Hd) as (e&He&Heh&Hm).
  rewrite (get_block_store c s l) in He by done.
  destruct (inv_keyed _ _ _ Hi _ _ He) as [Hke _].
  exists e. split; [|done]. destruct Hm as [Hm| ->].
  - unfold on_main_chain in Hm. rewrite (get_hash_main c s l) in Hm by done.
    destruct (main_hash l fp) as [x|] eqn:Ex; [|done]. apply bool_decide_eq_true in Hm as ->.
    apply main_hash_some in Ex as (e'&He'&Ee'&_).
    enough (e' = e) by congruence.
    pose proof (inv_stored _ _ _ Hi e' ltac:(by eapply list_elem_of_lookup_2)). congruence.
  - pose proof (inv_genesis _ _ _ Hi _ _ He Heh) as Hg. by rewrite head_lookup in Hg.
Qed.

(** Nothing is indexed above the tip, and what a reorg disconnects is cached. *)
Lemma main_above c s l n :
  chain_inv c s l -> (n < length l)%nat ->
  finality_floor (view c) <= 0 \/ finality_floor (view c) <= Z.of_nat n ->
  seg (Z.of_nat n + 1) (drop (S n) l) /\ indexed header_hash c (drop (S n) l)
  /\ tip_height (c_tip c) = Z.of_nat n + Z.of_nat (length (drop (S n) l))
  /\ (forall h, tip_height (c_tip c) < h -> c_heights c !! h = None).
Proof.
  intros Hi Hn Hfl. pose proof (inv_seg _ _ _ Hi) as Hs.
  pose proof (inv_tip_height _ _ _ Hi) as Ht. split_and!.
  - apply (seg_drop _ _ (S n)) in Hs.
    by replace (Z.of_nat n + 1) with (0 + Z.of_nat (S n)) by lia.
  - intros x Hx. pose proof Hx as Hx'. apply list_elem_of_lookup in Hx' as [i Hi'].
    rewrite lookup_drop in Hi'. pose proof (Hs _ _ Hi').
    apply (inv_recent _ _ _ Hi x); [by eapply list_elem_of_lookup_2|lia|set_solver].
  - rewrite length_drop. lia.
  - intros h Hh. destruct (c_heights c !! h) eqn:Ex; [|done].
    apply (inv_heights _ _ _ Hi) in Ex. by rewrite main_hash_above in Ex by lia.
Qed.

(** The data of a reorganisation that the fork choice has accepted. *)
Lemma reorg_data c s l b p fp :
  chain_inv c s l -> typed_block b -> s !! prev_hash (header b) = Some p ->
  block_height p = block_height b - 1 ->
  find_fork_point (view c) b = Some (Some fp) ->
  finality_floor (view c) <= 0 \/ finality_floor (view c) <= fp ->
  exists n f, fp = Z.of_nat n /\ length (take (S n) l) = S n
    /\ reorg_pre header_hash tx_size testnet c (take (S n) l) (drop (S n) l) f b fp
    /\ linked ((take (S n) l ++ f) ++ [b])
    /\ (forall x, x ∈ f -> s !! hash_of x = Some x).
Proof.
  intros Hi [Hb62 Hbf] Hp Hph Hfp Hfl. pose proof (inv_store_wf _ _ _ Hi) as Hv.
  assert (Hgp : get_block (view c) (prev_hash (header b)) = Some p)
    by by rewrite (get_block_store c s l).
  destruct (find_fork_point_wf (view c) b p Hv Hgp) as (n&E&Hn).
  assert (n = fp) as -> by congruence. clear E.
  destruct (first_main_spec _ _ _ _ Hv Hgp Hn) as (Hb&_).
  destruct (collect_fork_chain_wf (view c) b p fp Hv Hgp) as (ld&El&Hld); [lia|].
  destruct (fork_base c s l _ p fp ld Hi Hp Hn Hld) as (e&Hle&Hee).
  pose proof (lookup_lt_Some _ _ _ Hle) as Hlt.
  assert (Hk : forall x y, get_block (view c) x = Some y -> hash_of y = x).
  { intros x y. rewrite (get_block_store c s l) by done. apply Hi. }
  assert (Hin : forall x, x ∈ reverse ld -> s !! hash_of x = Some x).
  { intros x Hx. rewrite elem_of_reverse in Hx. rewrite <- (get_block_store c s l) by done.
    by eapply down_stored. }
  destruct (main_above c s l (Z.to_nat fp)) as (M1&M2&M3&M4); [done..|lia|].
  pose proof (inv_typed _ _ _ Hi) as Htl. pose proof (inv_room _ _ _ Hi) as Hroom.
  pose proof (down_seg _ _ _ _ _ b Hv Hgp Hb Hph Hld) as Hsf.
  assert (Hlen : length (take (S (Z.to_nat fp)) l) = S (Z.to_nat fp))
    by (rewrite length_take; lia).
  exists (Z.to_nat fp), (reverse ld). rewrite Z2Nat.id in * by lia.
  split; [done|]. split; [done|]. split; [|split; [|done]].
  - split; rewrite ?take_drop; try done.
    + apply Hi.
    + apply Forall_app. split; [apply Forall_app; split; [by apply Forall_take|]|].
      * apply Forall_forall. intros x Hx%Hin. apply (inv_keyed _ _ _ Hi _ _ Hx).
      * apply Forall_singleton. by split.
    + unfold room. lia.
    + apply seg_app in Hsf as [_ Hsb]. apply seg_one in Hsb.
      unfold room. rewrite !length_app, Hlen. cbn [length]. lia.
  - destruct (linked_down (view c) fp (prev_hash (header b)) ld (take (S (Z.to_nat fp)) l) e)
      as [K1 K2]; try done.
    + rewrite last_lookup, Hlen. cbn. by rewrite lookup_take_lt by lia.
    + intros i x y Hx Hy. apply lookup_take_Some in Hx as [Hx _], Hy as [Hy _].
      by apply (inv_linked _ _ _ Hi i).
    + apply linked_snoc; [done|]. intros t Ht. rewrite Ht in K2. cbn in K2. congruence.
Qed.

(** *** Failed and successful reorganisations *)

(** The invariant reads these fields only. *)
Lemma inv_transfer c c' s l :
  chain_inv c s l -> c_blocks c' = c_blocks c -> c_heights c' = c_heights c ->
  c_tip c' = c_tip c -> c_db c' = c_db c -> c_network c' = c_network c ->
  c_stats c' = c_stats c -> chain_inv c' s l.
Proof.
  intros Hi Eb Eh Et Ed En Es. destruct Hi as [Hd ? ? ? ? ? ? ? Hr ? ? ? ? ? ? Hdur ?].
  split; rewrite ?Eb, ?Eh, ?Et, ?En, ?Es; try done.
  - unfold has_store in *. by rewrite Ed.
  - intros b Hb Hf x Hx. rewrite Eb, Eh. apply (Hr b Hb); [|done].
    unfold finality_floor in *. cbn in *. by rewrite <- Et.
  - unfold durable in *. by rewrite Ed, Et, Es.
Qed.

Lemma rolled_inv c c' s l m f k fp high :
  chain_inv c s l -> rolled header_hash tx_hash c c' m f k fp high ->
  fp + Z.of_nat k <= high -> chain_inv c' s l.
Proof.
  intros Hi [[F1 F2 F3 F4 F5 F6 F7 _] Hs Hh _ _ _] Hk.
  apply (inv_transfer c); try done. apply map_eq. intros h. rewrite Hh.
  case_bool_decide; [lia|done].
Qed.

(** The height maps after a reorganisation are those of the new chain. *)
Lemma main_hash_reorg l n f b h :
  length (take (S n) l) = S n -> seg (Z.of_nat n + 1) (f ++ [b]) ->
  main_hash ((take (S n) l ++ f) ++ [b]) h =
    if bool_decide (Z.of_nat n < h <= block_height b)
    then hash_of <$> (f ++ [b]) !! Z.to_nat (h - (Z.of_nat n + 1))
    else if bool_decide (block_height b < h) then None else main_hash l h.
Proof.
  intros Hlen Hs. pose proof Hs as Hsb. apply seg_app in Hsb as [_ Hsb]. apply seg_one in Hsb.
  rewrite <- app_assoc, main_hash_app, Hlen.
  repeat case_bool_decide; try lia.
  - do 2 f_equal. lia.
  - rewrite lookup_ge_None_2; [done|]. rewrite length_app. cbn. lia.
  - rewrite <- (take_drop (S n) l) at 2. rewrite main_hash_app, bool_decide_eq_false_2; [done|lia].
Qed.

(** A reorganisation goes through only when the whole fork is in memory. *)
Lemma reorged_cached c c' s l n f b w x :
  chain_inv c s l -> length (take (S n) l) = S n -> seg (Z.of_nat n + 1) (f ++ [b]) ->
  linked ((take (S n) l ++ f) ++ [b]) -> (forall x, x ∈ f -> s !! hash_of x = Some x) ->
  reorged header_hash tx_hash tx_size testnet c c' (take (S n) l) (drop (S n) l) f b
    (Z.of_nat n) w ->
  x ∈ f -> c_blocks c !! hash_of x = Some x.
Proof.
  intros Hi Hlen Hsf Hlink Hst R Hx. pose proof Hx as Hif.
  apply list_elem_of_lookup in Hif as [i Hif].
  destruct ((f ++ [b]) !! S i) as [z|] eqn:Ez.
  2:{ apply lookup_ge_None_1 in Ez. rewrite length_app in Ez. cbn in Ez.
      apply lookup_lt_Some in Hif. lia. }
  assert (prev_hash (header z) = hash_of x) as Ezx.
  { apply (Hlink (S n + i)%nat); rewrite <- app_assoc, lookup_app_r, Hlen by lia.
    - replace (S n + i - S n)%nat with i by lia. by apply lookup_app_l_Some.
    - by replace (S (S n + i) - S n)%nat with (S i) by lia. }
  destruct (ro_parents _ _ _ _ _ _ _ _ _ _ _ _ R z) as [q Hq].
  - by eapply list_elem_of_lookup_2.
  - apply Hsf in Ez. lia.
  - rewrite Ezx in Hq. rewrite Hq. f_equal.
    pose proof (lookup_weaken _ _ _ _ Hq (inv_cache _ _ _ Hi)) as Hq'.
    rewrite Hst in Hq' by done. congruence.
Qed.

Lemma reorged_recent c c' s l n f b w x :
  chain_inv c s l -> length (take (S n) l) = S n ->
  reorg_pre header_hash tx_size testnet c (take (S n) l) (drop (S n) l) f b (Z.of_nat n) ->
  linked ((take (S n) l ++ f) ++ [b]) -> (forall x, x ∈ f -> s !! hash_of x = Some x) ->
  c_blocks c !! hash_of b = Some b ->
  finality_floor (view c) <= 0 \/ finality_floor (view c) <= Z.of_nat n ->
  reorged header_hash tx_hash tx_size testnet c c' (take (S n) l) (drop (S n) l) f b
    (Z.of_nat n) w ->
  x ∈ (take (S n) l ++ f) ++ [b] -> finality_floor (view c') <= block_height x ->
  indexed header_hash c' [x].
Proof.
  intros Hi Hlen [_ _ Ht _ _ _ _ _ _ Hsf _] Hlink Hst Hcb Hfl R Hx Hfx y ->%list_elem_of_singleton.
  pose proof Hsf as Hsb. apply seg_app in Hsb as [_ Hsb]. apply seg_one in Hsb.
  rewrite (ro_blocks _ _ _ _ _ _ _ _ _ _ _ _ R), (ro_heights _ _ _ _ _ _ _ _ _ _ _ _ R).
  unfold finality_floor in *. cbn in *. rewrite (ro_tip _ _ _ _ _ _ _ _ _ _ _ _ R) in Hfx.
  cbn in Hfx.
  rewrite <- app_assoc in Hx. apply elem_of_app in Hx as [Hx|Hx].
  - pose proof (seg_take _ _ (S n) (inv_seg _ _ _ Hi)) as Hs.
    pose proof (seg_elem _ _ _ Hs Hx) as Hb. rewrite Hlen in Hb.
    repeat rewrite bool_decide_eq_false_2 by lia.
    apply (inv_recent _ _ _ Hi x); [|unfold finality_floor; cbn; etrans; [|exact Hfx]|set_solver].
    + rewrite <- (take_drop (S n) l). set_solver.
    + apply floor_mono; lia.
  - pose proof (seg_elem _ _ _ Hsf Hx) as Hb. rewrite length_app in Hb. cbn in Hb.
    apply list_elem_of_lookup in Hx as [i Hi']. pose proof (Hsf _ _ Hi') as Hh.
    rewrite bool_decide_eq_true_2 by lia.
    replace (Z.to_nat (block_height x - (Z.of_nat n + 1))) with i by lia. rewrite Hi'.
    split; [done|]. apply lookup_app_Some in Hi' as [Hif|[Hle Hif]].
    + eapply (reorged_cached c c' s l n f b w); try done. by eapply list_elem_of_lookup_2.
    + by apply list_lookup_singleton_Some in Hif as [_ <-].
Qed.

Lemma reorged_inv c c' s l n f b w :
  chain_inv c s l -> length (take (S n) l) = S n ->
  reorg_pre header_hash tx_size testnet c (take (S n) l) (drop (S n) l) f b (Z.of_nat n) ->
  linked ((take (S n) l ++ f) ++ [b]) -> (forall x, x ∈ f -> s !! hash_of x = Some x) ->
  c_blocks c !! hash_of b = Some b ->
  finality_floor (view c) <= 0 \/ finality_floor (view c) <= Z.of_nat n ->
  reorged header_hash tx_hash tx_size testnet c c' (take (S n) l) (drop (S n) l) f b
    (Z.of_nat n) w ->
  chain_inv c' s ((take (S n) l ++ f) ++ [b]).
Proof.
  intros Hi Hlen Hpre Hlink Hst Hcb Hfl R.
  pose proof (fun x => reorged_recent c c' s l n f b w x Hi Hlen Hpre Hlink Hst Hcb Hfl R) as Hrec.
  destruct Hpre as [_ _ Ht _ _ _ _ _ _ Hsf _].
  destruct R as [Eb _ En _ Et Hle _ _ _ Hco Hhe Hdb _ _ _ _].
  pose proof Hi as [(d&Ed&Es&Hd) Hca Hh Hse _ Hth _ Hstl _ Hpa Hke Hge Hpi _ Hcnt _ _].
  pose proof Hsf as Hsb. apply seg_app in Hsb as [_ Hsb]. apply seg_one in Hsb.
  pose proof (main_hash_reorg l n f b) as Hmh.
  assert (Hsub : forall x, x ∈ take (S n) l -> x ∈ l).
  { intros x Hx. rewrite <- (take_drop (S n) l). set_solver. }
  assert (Hhd : head ((take (S n) l ++ f) ++ [b]) = head l) by by destruct l.
  split; try done.
  - destruct (Hdb d Ed) as (d'&E0&E1&E2&_). exists d'. split; [done|]. split; [congruence|].
    intros h. rewrite E2, Hmh, Hd by done. repeat case_bool_decide; try lia; try done.
    apply main_hash_above. lia.
  - by rewrite Eb.
  - intros h x. rewrite Hhe, Hmh by done. repeat case_bool_decide; try lia; try done. apply Hh.
  - rewrite <- app_assoc. apply seg_app. split; [by apply seg_take|].
    rewrite Hlen. by replace (0 + Z.of_nat (S n)) with (Z.of_nat n + 1) by lia.
  - rewrite Et, !length_app, Hlen. cbn. lia.
  - by rewrite Et, last_snoc.
  - intros x [[Hx|Hx]%elem_of_app|Hx]%elem_of_app; [by apply Hstl, Hsub|by apply Hst|].
    apply list_elem_of_singleton in Hx as ->. by eapply lookup_weaken.
  - intros h x Hx Hz. rewrite Hhd. by eapply Hge.
  - destruct Hpi as (g&Hg&Hcp). exists g. by rewrite Hhd, Hg, En.
  - by rewrite <- app_assoc.
  - rewrite <- app_assoc. apply Hco. by rewrite take_drop.
  - intros d' Hd'. destruct (Hdb d Ed) as (d2&E0&_&_&E3). congruence.
  - by rewrite Et, last_snoc.
Qed.

(** *** The admission walk *)

(** The cached blocks up to a height; the walk visits one less per step. *)
Definition cached_to c (n : Z) : gmap Hash Block :=
  filter (fun kv => block_height kv.2 <= n) (c_blocks c).

Lemma cached_shrinks c h b :
  c_blocks c !! h = Some b ->
  (size (cached_to c (block_height b - 1)) < size (cached_to c (block_height b)))%nat.
Proof.
  intros Hb. apply map_subset_size. split.
  - apply map_subseteq_spec. intros k x [H1 H2]%map_lookup_filter_Some.
    apply map_lookup_filter_Some. cbn in *. split; [done|lia].
  - intros Hs. assert (Hin : cached_to c (block_height b) !! h = Some b).
    { apply map_lookup_filter_Some. cbn. split; [done|lia]. }
    eapply lookup_weaken in Hin; [|exact Hs].
    apply map_lookup_filter_Some in Hin as [_ Hin]. cbn in Hin. lia.
Qed.

Lemma trace_fuel c s l fuel : forall h b acc,
  chain_inv c s l -> c_blocks c !! h = Some b ->
  (size (cached_to c (block_height b)) < fuel)%nat -> is_Some (trace_fork c fuel h acc).
Proof.
  induction fuel as [|fuel IH]; intros h b acc Hi Hb Hlt; [lia|]. cbn [trace_fork].
  rewrite Hb. case_bool_decide; [done|]. destruct (Z.eqb_spec (block_height b) 0); [done|].
  pose proof (cached_shrinks c h b Hb).
  destruct (c_blocks c !! prev_hash (header b)) as [q|] eqn:Eq.
  - destruct (inv_parent _ _ _ Hi h b) as (p&Hp&Hph); [by eapply lookup_weaken; [|apply Hi]|done|].
    pose proof (lookup_weaken _ _ _ _ Eq (inv_cache _ _ _ Hi)).
    assert (q = p) as -> by congruence.
    eapply (IH _ p); [done|done|]. rewrite Hph. lia.
  - destruct fuel as [|fuel]; [lia|]. cbn [trace_fork]. by rewrite Eq.
Qed.

Lemma admission_total c s l b is_main :
  chain_inv c s l -> exists w, admission_window c b is_main = Ret w.
Proof.
  intros Hi. unfold admission_window. destruct is_main; [eauto|].
  assert (Htr : is_Some (trace_fork c (S (size (c_blocks c))) (prev_hash (header b)) [])).
  { destruct (c_blocks c !! prev_hash (header b)) as [p|] eqn:E.
    - eapply trace_fuel; [done|done|]. apply Nat.lt_succ_r, map_subseteq_size.
      apply map_filter_subseteq.
    - cbn [trace_fork]. by rewrite E. }
  destruct Htr as [[fp ch] ->]. cbn. eauto.
Qed.

(** *** Deciding a fork *)

Lemma find_fork_point_total v b : is_Some (find_fork_point v b).
Proof. apply fork_point_fuel. unfold walk_fuel. rewrite difference_empty_L. lia. Qed.

Lemma evaluate_total net (rf : option RF) v b :
  is_Some (evaluate_fork header_hash testnet net rf v b).
Proof.
  unfold evaluate_fork. destruct (take_fork header_hash v b); [|done].
  destruct (find_fork_point_total v b) as [[fp|] ->]; cbn [mbind option_bind]; [|done].
  cbv zeta. destruct (evaluate_reorg_acceptability _ _ _ _ _); [|done].
  destruct rf as [r|]; repeat match goal with |- context [if ?x then _ else _] => destruct x end;
    done.
Qed.

(** No block of the fork, its tip aside, is higher than the current tip. *)
Definition level_fork c b : Prop :=
  forall fp f x, find_fork_point (view c) b = Some (Some fp) ->
    collect_fork_chain (view c) b fp = Some f -> x ∈ f -> block_height x <= tip_height (c_tip c).

(** A reorganisation undone by the first rollback path. *)
Definition early_failure (r : result chain_error BlockStatus) : Prop :=
  exists e, r = Ok (Invalid e) /\ e ∈ early_reasons.

(** The main chain after [add_block] answered [r] for [b]: extended, switched
    to a fork above some height [n] all of whose blocks are in the cache [bs],
    or unchanged. *)
Definition chain_update (bs : gmap Hash Block) l b (r : result chain_error BlockStatus) l'
  : Prop :=
  match r with
  | Ok Accepted => l' = l ++ [b]
  | Ok (AcceptedReorg _) => exists n f,
      (n < length l)%nat /\ Z.of_nat (length l) - Z.of_nat n <= 144
      /\ l' = (take (S n) l ++ f) ++ [b]
      /\ (forall x, x ∈ f -> bs !! hash_of x = Some x)
  | _ => l' = l
  end.

Lemma record_event_inv c s l ty h x now :
  chain_inv c s l -> chain_inv (record_event c ty h x now) s l.
Proof. intros Hi. by apply (inv_transfer c). Qed.

Lemma resolve_inv c s l b p now :
  chain_inv c s l -> typed_block b -> s !! prev_hash (header b) = Some p ->
  block_height p = block_height b - 1 -> c_blocks c !! hash_of b = Some b ->
  exists c' r, resolve_fork header_hash tx_hash tx_size testnet c now b = Ret (c', r)
    /\ c_blocks c' ⊆ c_blocks c
    /\ ((early_failure r -> level_fork c b) ->
        exists l', chain_inv c' s l' /\ chain_update (c_blocks c) l b r l').
Proof.
  intros Hi Htb Hp Hph Hcb. unfold resolve_fork.
  destruct (evaluate_total (c_network c) (c_finality c) (view c) b) as [dec Hdec].
  rewrite Hdec. cbn [or_fuel mbind exec_bind].
  destruct dec as [| |d mx|x y|fp dp].
  1-4: eexists _, _; split; [done|]; split; [done|]; intros _; exists l; split; [|done].
  1: by apply record_event_inv.
  1-3: done.
  destruct (perform_reorg_inv _ _ _ _ _ _ _ _ Hdec) as (_&Hfp&_&_&_&Hfl).
  destruct (reorg_data c s l b p fp Hi Htb Hp Hph Hfp Hfl)
    as (n&f&->&Hlen&Hpre&Hlink&Hst).
  destruct (perform_reorg_spec header_hash tx_hash tx_size testnet c now _ _ f b _
    (calculate_fork_cumulative_work (view c) b) Hpre) as (c'&r&E&Hdone).
  rewrite E. cbn [mbind exec_bind]. eexists _, _. split; [done|]. split.
  { destruct Hdone as [(txs&_&R)|(e&k&high&_&_&[F _ _ _ _]&_)];
      [by rewrite (ro_blocks _ _ _ _ _ _ _ _ _ _ _ _ R)|by rewrite (frame_blocks _ _ F)]. }
  intros Hlev. assert (Hn : (n < length l)%nat) by (rewrite length_take in Hlen; lia).
  destruct Hdone as [(txs&->&R)|(e&k&high&->&Hk&R&Hcase)].
  - eexists. split; [by eapply reorged_inv|]. exists n, f. split_and!; try done.
    pose proof (inv_tip_height _ _ _ Hi). unfold finality_floor in Hfl. cbn in Hfl.
    { pose proof (floor_bounds (tip_height (c_tip c)) ltac:(lia)). lia. }
    intros x Hx. eapply (reorged_cached c c' s l n f b); try done. apply Hpre.
  - exists l. split; [|done]. eapply rolled_inv; [done|done|].
    pose proof (pre_fork _ _ _ _ _ _ _ _ _ Hpre) as Hsf.
    pose proof Hsf as Hs2. apply seg_app in Hs2 as [Hs2 Hsb]. apply seg_one in Hsb.
    destruct Hcase as [(He&_&->)|[_ ->]]; [|lia].
    destruct k as [|k]; [rewrite (pre_tip _ _ _ _ _ _ _ _ _ Hpre); lia|].
    destruct (lookup_lt_is_Some_2 f k) as [x Hx]; [lia|].
    pose proof (Hs2 _ _ Hx). etrans; [|eapply Hlev].
    + instantiate (1 := x). lia.
    + by exists e.
    + done.
    + apply (pre_collect _ _ _ _ _ _ _ _ _ Hpre).
    + by eapply list_elem_of_lookup_2.
Qed.

(** *** The whole of [add_block] *)

(** A second block of height [0] never passes the checkpoint list. *)
Lemma pinned_genesis c s l b :
  chain_inv c s l -> s !! hash_of b = None -> block_height b = 0 ->
  verify_checkpoint checkpoints (c_network c) (block_height b) (hash_of b) = Some false.
Proof.
  intros Hi Hnew ->. destruct (inv_pinned _ _ _ Hi) as (g&Hg&Hcp).
  unfold verify_checkpoint. rewrite Hcp. cbn. f_equal. apply bool_decide_eq_false.
  intros Heq. rewrite <- Heq, (inv_stored _ _ _ Hi) in Hnew; [done|].
  by apply head_Some_elem_of.
Qed.

(** What admission has checked of a block it stores. *)
Lemma admit_spec c s l b now :
  chain_inv c s l -> typed_block b ->
  exists c' a, admit_block header_hash checkpoints c now b = Ret (c', a)
    /\ match a with
       | Returned r => chain_inv c' s l /\ c_blocks c' = c_blocks c
           /\ (forall bs, chain_update bs l b r l)
       | Stored t main => c' = store_block header_hash c b /\ t = tip_hash (c_tip c)
           /\ main = is_main b t /\ s !! hash_of b = None /\ block_height b <> 0
           /\ exists p, s !! prev_hash (header b) = Some p
                /\ block_height p = block_height b - 1
       end.
Proof.
  intros Hi Htb. unfold admit_block.
  pose proof (inv_db _ _ _ Hi) as (d&Ed&Es&_).
  destruct (bool_decide (is_Some (c_blocks c !! hash_of b)) || db_contains (c_db c) (hash_of b))
    eqn:Ek; [by eexists _, _|].
  apply orb_false_iff in Ek as [Ek1 Ek2].
  assert (Hnew : s !! hash_of b = None).
  { unfold db_contains in Ek2. rewrite Ed, Es in Ek2. apply bool_decide_eq_false in Ek2.
    by apply eq_None_not_Some. }
  rewrite (get_block_store c s l) by done.
  destruct (bool_decide (s !! prev_hash (header b) = None) && (0 <? block_height b)) eqn:Eo.
  { eexists _, _. split; [done|]. split; [by apply record_event_inv|done]. }
  match goal with |- context [if negb (_ =? ?x) then _ else _] => set (eh := x) end.
  destruct (Z.eqb_spec (block_height b) eh) as [Heh|]; cbn [negb]; [|by eexists _, _].
  destruct (verify_checkpoint checkpoints (c_network c) (block_height b) (hash_of b))
    as [[]|] eqn:Ecp; [| by eexists _, _ |].
  all: destruct (validate _ _ _ _ _) as [[]|] eqn:Ev; [| |by eexists _, _].
  2,4: eexists _, _; split; [done|]; split; [by apply record_event_inv|done].
  all: match goal with |- context [if negb ?x then _ else _] => destruct x end; cbn [negb];
    [|by eexists _, _].
  all: destruct (admission_total c s l b (is_main b (tip_hash (c_tip c))) Hi) as [w Hw].
  all: assert (H0 : block_height b <> 0).
  1,3: intros Hz; rewrite (pinned_genesis c s l b) in Ecp; done.
  all: destruct Htb as [[Hb0 Hb1] _]; destruct (Z.leb_spec 1 (block_height b)); [|lia].
  all: rewrite Hw; cbn [mbind exec_bind];
    match goal with |- context [if negb ?x then _ else _] => destruct x end; cbn [negb];
    [|by eexists _, _].
  all: eexists _, _; split; [done|]; split_and!; try done.
  all: unfold eh in Heh; destruct (Z.eqb_spec (block_height b) 0); [lia|];
    destruct (s !! prev_hash (header b)) as [p|] eqn:Ep; [|lia];
    exists p; split; [done|]; destruct (inv_keyed _ _ _ Hi _ _ Ep) as [_ [Hp _]];
    rewrite wrap64_small in Heh by word_lia; lia.
Qed.

(** Whatever other threads did since the snapshot, committing a stored block
    keeps the invariant: a block whose parent lost the tip is weighed as a
    fork. *)
Lemma commit_inv c s l b t now :
  chain_inv c s l -> typed_block b -> block_height b <> 0 ->
  c_blocks c !! hash_of b = Some b ->
  exists c' r, commit_block header_hash tx_hash tx_size testnet c now b t (is_main b t)
      = Ret (c', r)
    /\ c_blocks c' ⊆ c_blocks c
    /\ ((early_failure r -> level_fork c b) ->
        exists l', chain_inv c' s l' /\ chain_update (c_blocks c) l b r l').
Proof.
  intros Hi Htb H0 Hcb.
  assert (Hsb : s !! hash_of b = Some b) by (eapply lookup_weaken; [done|apply Hi]).
  destruct (inv_parent _ _ _ Hi _ _ Hsb H0) as (p&Hp&Hph).
  unfold commit_block. destruct (is_main b t) eqn:Em; [|by eapply resolve_inv].
  destruct (negb _ && _) eqn:Er; [by eapply resolve_inv|].
  assert (Ht : prev_hash (header b) = tip_hash (c_tip c)).
  { unfold is_main in Em. destruct (Z.eqb_spec (block_height b) 0); [lia|].
    rewrite orb_false_r in Em. apply bool_decide_eq_true in Em.
    destruct Htb as [[Hb _] _]. destruct (Z.ltb_spec 0 (block_height b)); [|lia].
    rewrite andb_true_r in Er. apply negb_false_iff, bool_decide_eq_true in Er. congruence. }
  assert (Hh : block_height b = Z.of_nat (length l)).
  { pose proof (inv_tip_hash _ _ _ Hi) as Htx. destruct (last l) as [x|] eqn:El; [|done].
    cbn in Htx. injection Htx as Htx. rewrite last_lookup in El.
    pose proof (inv_seg _ _ _ Hi _ _ El) as Hx. pose proof (lookup_lt_Some _ _ _ El).
    rewrite Ht, Htx, (inv_stored _ _ _ Hi) in Hp by by eapply list_elem_of_lookup_2.
    simplify_eq. lia. }
  pose proof (inv_room _ _ _ Hi).
  destruct (extension_total c l now b) as [c' E].
  - apply Hi.
  - apply Forall_app. split; [by eapply inv_typed|]. by apply Forall_singleton.
  - unfold room. rewrite length_app. cbn. lia.
  - rewrite E. cbn [mbind exec_bind]. eexists _, _. split; [done|]. split.
    { destruct (extension_spec _ _ _ _ E) as [(c1&->&_&<-&_) _ _ _ _ _]. apply evict_spec. }
    intros _. exists (l ++ [b]). split; [|done]. by eapply accept_inv.
Qed.

Lemma add_block_inv c s l b now :
  chain_inv c s l -> typed_block b ->
  exists c' r, add_block header_hash tx_hash tx_size checkpoints testnet c now b = Ret (c', r)
    /\ (forall h x, c_blocks c' !! h = Some x ->
          c_blocks c !! h = Some x \/ x = b /\ h = hash_of b /\ s !! h = None)
    /\ ((early_failure r -> level_fork (store_block header_hash c b) b) ->
        exists s' l', chain_inv c' s' l' /\ s ⊆ s'
          /\ chain_update (<[hash_of b := b]> (c_blocks c)) l b r l').
Proof.
  intros Hi Htb. unfold add_block.
  destruct (admit_spec c s l b now Hi Htb) as (c1&a&E&Ha). rewrite E. cbn [mbind exec_bind].
  destruct a as [r|t main].
  - destruct Ha as (Hi1&Eb&Hu). eexists _, _. split; [done|].
    split; [rewrite Eb; by left|]. intros _. by exists s, l.
  - destruct Ha as (->&->&->&Hnew&H0&Hp).
    pose proof (store_inv c s l b Hi Hnew Htb H0 Hp) as Hi1.
    destruct (commit_inv _ _ _ b (tip_hash (c_tip c)) now Hi1 Htb H0) as (c'&r&Ec&Hs&Hc).
    { cbn. by rewrite lookup_insert_eq. }
    exists c', r. split; [done|]. split.
    { intros h x Hx. eapply lookup_weaken in Hx; [|exact Hs]. cbn in Hx.
      apply lookup_insert_Some in Hx as [[<- <-]|[_ Hx]]; [by right|by left]. }
    intros Hl. destruct (Hc Hl) as (l'&?&?).
    exists (<[hash_of b := b]> s), l'. split_and!; try done. by apply insert_subseteq.
Qed.

(** *** The main chain, read back from the node *)

Lemma seqZ_one x : seqZ x 1 = [x].
Proof. by cbn. Qed.

Definition main_chain c : list Block :=
  omap (get_block_by_height (view c)) (seqZ 0 (tip_height (c_tip c) + 1)).

Lemma inv_by_height c s l h :
  chain_inv c s l -> 0 <= h -> get_block_by_height (view c) h = l !! Z.to_nat h.
Proof.
  intros Hi Hh. unfold get_block_by_height. rewrite (get_hash_main c s l) by done.
  unfold main_hash. destruct (Z.leb_spec 0 h); [|lia].
  destruct (l !! Z.to_nat h) as [b|] eqn:E; cbn; [|done].
  rewrite (get_block_store c s l) by done. apply Hi. by eapply list_elem_of_lookup_2.
Qed.

Lemma main_chain_eq c s l : chain_inv c s l -> main_chain c = l.
Proof.
  intros Hi. unfold main_chain. rewrite (inv_tip_height _ _ _ Hi).
  assert (H : forall n, (n <= length l)%nat ->
    omap (get_block_by_height (view c)) (seqZ 0 (Z.of_nat n)) = take n l).
  { induction n as [|n IH]; intros Hn; [done|].
    rewrite Nat2Z.inj_succ, <- Z.add_1_r, seqZ_app by lia. rewrite omap_app, IH by lia.
    rewrite Z.add_0_l, seqZ_one. cbn [omap list_omap]. rewrite (inv_by_height c s l) by (done || lia). rewrite Nat2Z.id.
    destruct (lookup_lt_is_Some_2 l n) as [b Hb]; [lia|]. rewrite Hb.
    symmetry. by apply take_S_r. }
  rewrite H, firstn_all by done. done.
Qed.

(** *** Failed reorganisations *)

Definition failed_early (r : result chain_error BlockStatus) : bool :=
  match r with Ok (Invalid e) => bool_decide (e ∈ early_reasons) | _ => false end.

Lemma failed_early_spec r : failed_early r = true <-> early_failure r.
Proof.
  unfold early_failure. split.
  - destruct r as [[]|]; try done. intros H%bool_decide_eq_true. by eexists.
  - intros (e&->&He). by apply bool_decide_eq_true.
Qed.

(** Whether a block of the fork below [b] is higher than the tip. *)
Definition outgrown c b : bool :=
  match find_fork_point (view c) b with
  | Some (Some fp) =>
      match collect_fork_chain (view c) b fp with
      | Some f => negb (forallb (fun x => block_height x <=? tip_height (c_tip c)) f)
      | None => false
      end
  | _ => false
  end.

Lemma outgrown_level c b : outgrown c b = false -> level_fork c b.
Proof.
  unfold outgrown, level_fork. intros Ho fp f x Hfp Hf Hx. rewrite Hfp, Hf in Ho.
  apply negb_false_iff in Ho. rewrite List.forallb_forall in Ho.
  apply Z.leb_le, Ho. by apply list_elem_of_In.
Qed.

(** What a reorganisation that fails on the first path went through. *)
Lemma early_rolled c s l b p now c' e :
  chain_inv c s l -> typed_block b -> s !! prev_hash (header b) = Some p ->
  block_height p = block_height b - 1 ->
  resolve_fork header_hash tx_hash tx_size testnet c now b = Ret (c', Ok (Invalid e)) ->
  e ∈ early_reasons ->
  exists n f k, rolled header_hash tx_hash c c' (drop (S n) l) f k (Z.of_nat n)
    (tip_height (c_tip c)).
Proof.
  intros Hi Ht Hp Hph E He. unfold resolve_fork in E.
  destruct (evaluate_fork _ _ _ _ _ b) as [dec|] eqn:Hdec; [|done]. cbn in E.
  destruct dec as [| | | |fp d]; try done.
  { injection E as _ <-. unfold early_reasons, connect_reasons in He. set_solver. }
  destruct (perform_reorg_inv _ _ _ _ _ _ _ _ Hdec) as (_&Hfp&_&_&_&Hfl).
  destruct (reorg_data c s l b p _ Hi Ht Hp Hph Hfp Hfl) as (n&f&->&Hlen&Hpre&_).
  destruct (perform_reorg_spec header_hash tx_hash tx_size testnet c now _ _ f b _
    (calculate_fork_cumulative_work (view c) b) Hpre) as (c1&r&Er&Hd).
  rewrite Er in E. cbn in E. injection E as -> ->.
  destruct Hd as [(txs&?&_)|(e'&k&high&[= <-]&_&R&Hc)]; [done|].
  exists n, f, k. destruct Hc as [(_&_&->)|[-> _]]; [done|].
  unfold early_reasons, connect_reasons in He. set_solver.
Qed.

(** It leaves the chain below the old tip as it was. *)
Lemma rolled_main c c' s l m f k fp :
  chain_inv c s l -> rolled header_hash tx_hash c c' m f k fp (tip_height (c_tip c)) ->
  main_chain c' = l.
Proof.
  intros Hi [[F1 F2 F3 F4 F5 F6 F7 _] Hs Hh _ _ _]. rewrite <- (main_chain_eq c s l Hi).
  unfold main_chain. rewrite F2. apply list_omap_ext, Forall2_same_length_lookup_2; [done|].
  intros i x y Hx Hy. assert (x = y) as <- by congruence.
  apply list_elem_of_lookup_2, elem_of_seqZ in Hx.
  unfold get_block_by_height, get_block_hash, get_block. cbn [blocks db height_to_hash view].
  rewrite F1, F5, Hh, bool_decide_eq_false_2 by lia. done.
Qed.

Lemma add_block_main c s l b now c' r :
  chain_inv c s l -> typed_block b ->
  add_block header_hash tx_hash tx_size checkpoints testnet c now b = Ret (c', r) ->
  chain_update (<[hash_of b := b]> (c_blocks c)) l b r (main_chain c').
Proof.
  intros Hi Ht E. destruct (failed_early r) eqn:Hr.
  2:{ destruct (add_block_inv c s l b now Hi Ht) as (c1&r1&E1&_&Hc).
      rewrite E1 in E. injection E as -> ->.
      destruct Hc as (s'&l'&Hi'&_&Hu); [intros H%failed_early_spec; congruence|].
      by rewrite (main_chain_eq _ _ _ Hi'). }
  apply failed_early_spec in Hr as (e&->&He). cbn [chain_update]. unfold add_block in E.
  destruct (admit_spec c s l b now Hi Ht) as (c1&a&E1&Ha). rewrite E1 in E.
  cbn [mbind exec_bind] in E. destruct a as [r|t m].
  { injection E as -> ->. destruct Ha as (Hi'&_). by apply (main_chain_eq _ s). }
  destruct Ha as (->&_&->&Hn&H0&p&Hp&Hph).
  pose proof (store_inv c s l b Hi Hn Ht H0 (ex_intro _ p (conj Hp Hph))) as Hi1.
  assert (Hp1 : <[hash_of b := b]> s !! prev_hash (header b) = Some p).
  { destruct (decide (hash_of b = prev_hash (header b))) as [Eq|]; [congruence|].
    by rewrite lookup_insert_ne. }
  assert (Hres : resolve_fork header_hash tx_hash tx_size testnet (store_block header_hash c b) now b
    = Ret (c', Ok (Invalid e)) -> main_chain c' = l).
  { intros Er. destruct (early_rolled _ _ _ _ p now c' e Hi1 Ht Hp1 Hph Er He) as (n&f&k&R).
    by apply (rolled_main _ _ _ _ _ _ _ _ Hi1 R). }
  unfold commit_block in E. destruct (is_main b t); [|by apply Hres].
  destruct (negb _ && _); [by apply Hres|].
  by destruct (accept_extension _ _ _ _ _ _ _).
Qed.

Lemma inv_main_wf c s l : chain_inv c s l -> main_wf (view c) (tip_height (c_tip c)).
Proof.
  intros Hi. pose proof (inv_tip_height _ _ _ Hi) as Ht. split.
  - intros h Hh. destruct (lookup_lt_is_Some_2 l (Z.to_nat h)) as [b Hb]; [lia|].
    exists (hash_of b), b. rewrite !(get_hash_main c s l), (get_block_store c s l) by done.
    unfold main_hash. destruct (Z.leb_spec 0 h); [|lia]. rewrite Hb. split; [done|].
    split; [apply Hi; by eapply list_elem_of_lookup_2|].
    pose proof (inv_seg _ _ _ Hi _ _ Hb). split; [lia|]. intros Hpos.
    destruct (Z.leb_spec 0 (h - 1)); [|lia].
    destruct (lookup_lt_is_Some_2 l (Z.to_nat (h - 1))) as [q Hq]; [lia|]. rewrite Hq. cbn.
    f_equal. symmetry. apply (inv_linked _ _ _ Hi (Z.to_nat (h - 1))); [done|].
    by replace (S (Z.to_nat (h - 1))) with (Z.to_nat h) by lia.
  - intros h Hh. rewrite (get_hash_main c s l) by done. apply main_hash_above. lia.
Qed.

Lemma inv_supply c s l :
  chain_inv c s l ->
  total_supply (c_stats c) = zsum reward (seqZ 0 (tip_height (c_tip c) + 1)).
Proof.
  intros Hi. destruct (inv_ledger _ _ _ Hi) as [-> _]. rewrite (inv_tip_height _ _ _ Hi).
  pose proof (inv_seg _ _ _ Hi) as Hs. clear - Hs.
  induction l as [|b l IH] using rev_ind; [done|].
  apply seg_app in Hs as [Hs Hb]. apply seg_one in Hb.
  rewrite length_app. cbn [length]. rewrite Nat2Z.inj_add, seqZ_app by lia.
  change (Z.of_nat 1) with 1. rewrite !zsum_app, IH, seqZ_one by done. cbn. by rewrite Hb.
Qed.

(** *** Genesis *)

Context (create_genesis_block_for : NetworkType -> Block).
Context (expected_genesis_hash : NetworkType -> Hash).

(** A node on an empty database, before [init_genesis]. *)
Definition fresh_node (oi : gmap PublicKey OutputIndexEntry) (net : NetworkType)
    (rf : option RF) (p2 : P2) : Chain RF P2 :=
  set_finality (with_database empty_database oi net p2) rf.

(** The genesis block is typed, at height [0], and heads the checkpoint list. *)
Definition genesis_ok (net : NetworkType) : Prop :=
  let g := create_genesis_block_for net in
  typed_block g /\ block_height g = 0 /\ hash_of g = expected_genesis_hash net
  /\ head (filter (fun cp => cp.1 = 0) (checkpoints net))
     = Some (0, expected_genesis_hash net)
  /\ block_fee_burn tx_size testnet g = 0.

Abbreviation init_genesis := (init_genesis header_hash tx_hash
  create_genesis_block_for expected_genesis_hash).
Abbreviation add_block := (add_block header_hash tx_hash tx_size checkpoints testnet).

Lemma genesis_inv oi net rf p2 :
  genesis_ok net ->
  exists c h, init_genesis (fresh_node oi net rf p2) = Ret (c, Ok h)
    /\ chain_inv c {[hash_of (create_genesis_block_for net) := create_genesis_block_for net]}
         [create_genesis_block_for net].
Proof.
  unfold genesis_ok. set (g := create_genesis_block_for net).
  intros (Ht&H0&Hg&Hcp&Hburn). unfold Chain.init_genesis. cbn [c_network fresh_node set_finality
    with_database]. fold g. rewrite Hg, bool_decide_eq_true_2 by done. cbn [negb].
  rewrite calculate_block_reward_eq by (word_unfold; lia). cbn [mbind exec_bind].
  eexists _, _. split; [done|].
  assert (Hm : forall h, ({[0 := hash_of g]} : gmap Z Hash) !! h = main_hash [g] h).
  { intros h. unfold main_hash. destruct (Z.leb_spec 0 h) as [Hh|Hh].
    - destruct (decide (h = 0)) as [->|]; [done|].
      rewrite lookup_singleton_ne by done. rewrite lookup_ge_None_2; [done|]. cbn. lia.
    - rewrite lookup_singleton_ne by lia. done. }
  split; cbn; rewrite <- ?Hg; try done.
  - eexists. split; [done|]. cbn. split; [apply insert_empty|].
    intros h. rewrite <- Hm. done.
  - intros h x Hx. rewrite <- Hm. done.
  - apply seg_one. done.
  - intros b ->%list_elem_of_singleton. apply lookup_singleton_eq.
  - intros b ->%list_elem_of_singleton _ x ->%list_elem_of_singleton. cbn. rewrite H0.
    split; apply lookup_insert_eq.
  - intros h b [<- <-]%lookup_singleton_Some. done.
  - intros h b [<- <-]%lookup_singleton_Some. done.
  - intros h b [<- <-]%lookup_singleton_Some. done.
  - exists g. rewrite Hcp. by rewrite Hg.
  - split; cbn; by rewrite ?H0, ?Hburn.
  - intros d [= <-]. by eexists.
Qed.
End safety.
