(* ===== verification/ChainRestart.v ===== *)
(** * Restart ([load_from_database] of [src/chain.rs])

    A node that stops and starts again on its own database: the replay of the
    stored blocks rebuilds the height index, the block cache and the UTXO set,
    and the loaded state satisfies the chain invariant for the same main
    chain. *)

From stdpp Require Import prelude gmap sorting.
From Stdlib Require Import ZArith Lia.
From S2P Require Import Prelude Constants Emission FeeMarket Difficulty Block Utxo ForkChoice.
From S2P Require Import Chain ChainLedger ChainSafety.

Local Open Scope Z_scope.

Section restart.
Context {RF P2 : Type} `{!FinalityGate RF} `{!FinalityFeed RF} `{!Phase2Stores P2}.
Context {BV : BlockValidator}.
Context (header_hash : BlockHeader -> Hash) (tx_hash : Transaction -> Hash).
Context (tx_size : Transaction -> Z).
Context (checkpoints : NetworkType -> list (Z * Hash)).
Context (testnet : bool).
Context (expected_genesis_hash : NetworkType -> Hash).

Implicit Types (c : Chain RF P2) (b : Block) (l : list Block) (d : Database).

Abbreviation hash_of := (hash_of header_hash).
Abbreviation main_hash := (main_hash header_hash).
Abbreviation chain_inv := (chain_inv header_hash tx_size checkpoints testnet).
Abbreviation replay_loop := (replay_loop header_hash tx_hash).

(** ** The replay *)

(** The database holds the chain [l] and the store [s]. *)
Record holds_chain d (s : gmap Hash Block) l : Prop := {
  hc_blocks : db_blocks (d_blocks d) = s;
  hc_heights : forall h, db_heights (d_blocks d) !! h = main_hash l h;
  hc_seg : seg 0 l;
  hc_linked : linked header_hash l;
  hc_stored : forall b, b ∈ l -> s !! hash_of b = Some b;
}.

(** What the replay of [l1] has put into the cache. *)
Record cached c (s : gmap Hash Block) l (from : Z) (l1 : list Block) : Prop := {
  ca_heights : forall h x, c_heights c !! h = Some x -> main_hash l h = Some x;
  ca_blocks : c_blocks c ⊆ s;
  ca_main : forall x b, c_blocks c !! x = Some b -> b ∈ l;
  ca_recent : forall b, b ∈ l1 -> from <= block_height b -> indexed header_hash c [b];
}.

(** The replay touches caches and UTXO set only. *)
Definition same_node c c' : Prop :=
  c_tip c' = c_tip c /\ c_stats c' = c_stats c /\ c_db c' = c_db c
  /\ c_network c' = c_network c.

Lemma replayed_block d s l l1 b l2 :
  holds_chain d s l -> l = l1 ++ b :: l2 ->
  (x ← db_heights (d_blocks d) !! Z.of_nat (length l1); db_blocks (d_blocks d) !! x) = Some b
  /\ block_height b = Z.of_nat (length l1)
  /\ (forall t, last l1 = Some t -> prev_hash (header b) = hash_of t).
Proof.
  intros [Hb Hh Hs Hl Hst] ->.
  assert (E : (l1 ++ b :: l2) !! length l1 = Some b) by by apply list_lookup_middle.
  split; [|split].
  - rewrite Hh, Hb. unfold ChainSafety.main_hash.
    destruct (Z.leb_spec 0 (Z.of_nat (length l1))); [|lia].
    rewrite Nat2Z.id, E. cbn. apply Hst. set_solver.
  - apply Hs in E. lia.
  - intros t Ht. rewrite last_lookup in Ht.
    pose proof (lookup_lt_Some _ _ _ Ht).
    apply (Hl (pred (length l1))).
    + by apply lookup_app_l_Some.
    + by replace (S (pred (length l1))) with (length l1) by lia.
Qed.

Lemma cache_block c s l from l1 b l2 :
  seg 0 l -> (forall b, b ∈ l -> s !! hash_of b = Some b) -> l = l1 ++ b :: l2 ->
  cached c s l from l1 ->
  cached (if from <=? block_height b then
            set_blocks (set_heights c (<[block_height b := hash_of b]> (c_heights c)))
              (<[hash_of b := b]> (c_blocks c))
          else c) s l from (l1 ++ [b]).
Proof.
  intros Hs Hst El [C1 C2 C4 C3]. assert (Hb : b ∈ l) by (subst; set_solver).
  assert (H1 : forall x, x ∈ l1 -> x ∈ l) by (subst; set_solver).
  destruct (Z.leb_spec from (block_height b)) as [Hf|Hf].
  - split; cbn.
    + intros h x [[<- <-]|[_ Hx]]%lookup_insert_Some; [by eapply main_hash_elem|by apply C1].
    + apply map_subseteq_spec. intros x y [[<- <-]|[_ Hx]]%lookup_insert_Some; [by apply Hst|].
      by eapply lookup_weaken.
    + intros x y [[_ <-]|[_ Hx]]%lookup_insert_Some; [done|by eapply C4].
    + intros x [Hx|Hx]%elem_of_app Hfx y ->%list_elem_of_singleton; cbn.
      * destruct (C3 x Hx Hfx x) as [E1 E2]; [set_solver|].
        split; apply lookup_insert_Some.
        -- destruct (decide (block_height b = block_height x)) as [E|]; [left|by right].
           split; [done|]. pose proof (main_hash_elem header_hash l b Hs Hb) as Hm.
           rewrite E in Hm. apply C1 in E1. congruence.
        -- destruct (decide (hash_of b = hash_of x)) as [E|]; [left|by right].
           split; [done|]. apply Hst in Hb. apply H1, Hst in Hx. congruence.
      * apply list_elem_of_singleton in Hx as ->. by rewrite !lookup_insert_eq.
  - split; [done..|]. intros x [Hx|Hx]%elem_of_app Hfx; [by apply C3|].
    apply list_elem_of_singleton in Hx as ->. lia.
Qed.

Lemma replay_spec d s l from l2 : forall l1 r,
  holds_chain d s l -> l = l1 ++ l2 -> cached (rp_chain r) s l from l1 ->
  (forall t, last l1 = Some t -> rp_prev_hash r = hash_of t) ->
  rp_blocks r = Z.of_nat (length l1) -> Z.of_nat (length l) <= u64_max ->
  let r' := replay_loop d (Z.of_nat (length l) - 1) from (length l2)
    (Z.of_nat (length l1)) r in
  cached (rp_chain r') s l from l /\ same_node (rp_chain r) (rp_chain r')
  /\ c_utxos (rp_chain r') = connect_all tx_hash (c_utxos (rp_chain r)) l2
  /\ rp_blocks r' = Z.of_nat (length l).
Proof.
  induction l2 as [|b l2 IH]; intros l1 r Hd El Hc Hp Hn Hroom; cbv zeta; cbn [length].
  { rewrite app_nil_r in El. subst l1. split_and!; done. }
  destruct (replayed_block d s l l1 b l2 Hd El) as (E1&E2&E3).
  cbn [Chain.replay_loop]. rewrite E1.
  destruct ((0 <? Z.of_nat (length l1)) && _) eqn:Eb.
  { exfalso. apply andb_true_iff in Eb as [H0 Eb]. apply negb_true_iff in Eb.
    apply bool_decide_eq_false in Eb. apply Eb.
    destruct (last l1) as [t|] eqn:Et; [by rewrite (Hp t), (E3 t)|].
    apply last_None in Et as ->. done. }
  match goal with |- context [Chain.replay_loop _ _ _ _ _ _ _ ?x] => set (r1 := x) end.
  pose proof (cache_block (set_utxos (rp_chain r)
    (connect tx_hash (c_utxos (rp_chain r)) (Z.of_nat (length l1)) (transactions b)))
    s l from l1 b l2 (hc_seg _ _ _ Hd) (hc_stored _ _ _ Hd) El) as Hc1.
  rewrite E2 in Hc1.
  specialize (IH (l1 ++ [b]) r1). rewrite length_app in IH. cbn [length] in IH.
  replace (Z.of_nat (length l1 + 1)) with (Z.of_nat (length l1) + 1) in IH by lia.
  destruct IH as (I1&(S1&S2&S3&S4)&I3&I4); try done.
  - by rewrite <- app_assoc.
  - apply Hc1. destruct Hc as [C1 C2 C4 C3]. by split.
  - intros t. rewrite last_snoc. by intros [= <-].
  - cbn. rewrite Hn. assert (length l1 < length l)%nat by (subst; rewrite length_app; cbn; lia).
    apply wrap64_small. word_lia.
  - split; [done|]. split; [|split; [|done]].
    + unfold same_node. rewrite S1, S2, S3, S4. cbn. by destruct (_ <=? _).
    + rewrite I3. cbn. rewrite E2. by destruct (_ <=? _).
Qed.

Lemma inv_holds c s l d : chain_inv c s l -> c_db c = Some d -> holds_chain d s l.
Proof.
  intros Hi Ed. destruct (inv_db _ _ _ _ _ _ _ Hi) as (d'&Ed'&Es&Hh).
  assert (d' = d) as -> by congruence. split; try done; apply Hi.
Qed.

Lemma inv_nonempty c s l : chain_inv c s l -> exists t, last l = Some t
  /\ tip_hash (c_tip c) = hash_of t /\ s !! hash_of t = Some t
  /\ block_height t = tip_height (c_tip c) /\ 0 <= tip_height (c_tip c).
Proof.
  intros Hi. pose proof (inv_tip_hash _ _ _ _ _ _ _ Hi) as Ht.
  pose proof (inv_tip_height _ _ _ _ _ _ _ Hi) as Hn.
  destruct (last l) as [t|] eqn:El; [|done]. cbn in Ht. injection Ht as Ht.
  exists t. split; [done|]. split; [done|]. rewrite last_lookup in El.
  pose proof (lookup_lt_Some _ _ _ El). split_and!; [| |lia].
  - apply (inv_stored _ _ _ _ _ _ _ Hi). by eapply list_elem_of_lookup_2.
  - apply (inv_seg _ _ _ _ _ _ _ Hi) in El. lia.
Qed.

(** ** Loading *)

(** What [rebuild_utxo_set] leaves, on a database with a sound chain. *)
Lemma rebuild_spec c s l d :
  holds_chain d s l -> c_db c = Some d -> c_heights c = ∅ -> c_blocks c = ∅ ->
  Z.of_nat (length l) <= u64_max ->
  let n := Z.of_nat (length l) - 1 in
  let c' := rebuild_utxo_set header_hash tx_hash c n in
  cached c' s l (sat_sub n 200) l /\ c_tip c' = c_tip c /\ c_db c' = c_db c
  /\ c_network c' = c_network c
  /\ total_blocks (c_stats c') = Z.of_nat (length l)
  /\ c_stats c' = mkChainStats (s_height (c_stats c)) (total_blocks (c_stats c'))
       (total_transactions (c_stats c')) (total_supply (c_stats c)) (total_burned (c_stats c))
       (s_difficulty (c_stats c)) (s_tip_hash (c_stats c)) (s_total_difficulty (c_stats c))
  /\ exists oi, c_utxos c' = evict_old_outputs (set_output_db (connect_all tx_hash
       (set_output_db UtxoSet_new (Utxo.db (c_utxos c))) l) oi) n 1000.
Proof.
  intros Hd Ed Eh Eb Hroom. cbv zeta. unfold rebuild_utxo_set. rewrite Ed.
  set (c0 := set_utxos c _). set (n := Z.of_nat (length l) - 1).
  replace (Z.to_nat (n + 1)) with (length l) by lia.
  destruct (replay_spec d s l (sat_sub n 200) l [] (mkReplay c0 zero_hash 0 0))
    as (I1&(S1&S2&S3&S4)&I3&I4); try done.
  { split; cbn; rewrite ?Eh, ?Eb; try done; [|set_solver].
    apply map_empty_subseteq. }
  cbn [length] in *. change (Z.of_nat 0) with 0 in *. fold n in I1, S1, S2, S3, S4, I3, I4.
  set (r := Chain.replay_loop _ _ _ _ _ _ _ _) in *. cbn.
  rewrite S1, S2, S3, S4, I4. split; [destruct I1 as [C1 C2 C4 C3]; by split|].
  split_and!; try done. eexists. rewrite I3. done.
Qed.

(** The node started on the database [d]. *)
Definition started (d : Database) (oi : gmap PublicKey OutputIndexEntry)
    (net : NetworkType) (rf : option RF) (p2 : P2) : Chain RF P2 :=
  set_finality (with_database d oi net p2) rf.

Lemma tx_index_fields c n :
  let c' := rebuild_tx_index tx_hash c n in
  c_blocks c' = c_blocks c /\ c_heights c' = c_heights c /\ c_tip c' = c_tip c
  /\ c_stats c' = c_stats c /\ c_network c' = c_network c /\ c_utxos c' = c_utxos c
  /\ (forall d, c_db c = Some d -> exists d', c_db c' = Some d'
        /\ d_blocks d' = d_blocks d /\ d_state d' = d_state d).
Proof.
  cbv zeta. unfold rebuild_tx_index. destruct (c_db c) as [d|] eqn:Ed.
  - destruct (_ && _); cbn; rewrite ?Ed; split_and!; try done; intros ? [= <-]; by eexists.
  - rewrite Ed. split_and!; done.
Qed.

(** The parts of the node that [load_from_database] restores. *)
Record loaded c (s : gmap Hash Block) l c' : Prop := {
  ld_cached : cached c' s l (sat_sub (tip_height (c_tip c)) 200) l;
  ld_tip : tip_hash (c_tip c') = tip_hash (c_tip c)
    /\ tip_height (c_tip c') = tip_height (c_tip c)
    /\ tip_timestamp (c_tip c') = tip_timestamp (c_tip c);
  ld_network : c_network c' = c_network c;
  ld_supply : total_supply (c_stats c') = total_supply (c_stats c);
  ld_burned : total_burned (c_stats c') = wrap64 (total_burned (c_stats c));
  ld_blocks : total_blocks (c_stats c') = Z.of_nat (length l);
  ld_db : forall d, c_db c = Some d -> exists d', c_db c' = Some d'
    /\ d_blocks d' = d_blocks d /\ d_state d' = d_state d;
  ld_utxos : exists db oi, c_utxos c' = evict_old_outputs (set_output_db (connect_all tx_hash
    (set_output_db UtxoSet_new db) l) oi) (tip_height (c_tip c)) 1000;
}.

(** Two views that read the same blocks. *)
Definition same_reads (v v' : ChainView) : Prop :=
  (forall h, get_block v h = get_block v' h) /\ (forall h, get_block_hash v h = get_block_hash v' h).

Lemma same_reads_work v v' n :
  same_reads v v' -> main_wf v n -> targets_wf v -> 0 <= n ->
  recompute_total_difficulty v' n = Some (Z.min u128_max (1 + main_sum v (Z.to_nat n))).
Proof.
  intros [Hb Hh] [M1 M2] Ht Hn.
  assert (Hm : forall m, main_sum v' m = main_sum v m).
  { induction m as [|m IH]; [done|]. cbn [main_sum]. rewrite IH.
    unfold get_block_by_height. rewrite <- Hh.
    destruct (get_block_hash v (Z.of_nat (S m))) as [x|]; [|done]. cbn. by rewrite Hb. }
  rewrite <- Hm. apply (recompute_spec v') with n; try lia.
  - intros h b. rewrite <- Hb. apply Ht.
  - split; intros h Hh'; [|rewrite <- Hh; by apply M2].
    destruct (M1 h Hh') as (x&b&E1&E2&E3&E4). exists x, b. by rewrite <- !Hh, <- Hb.
Qed.

Lemma load_spec c s l d oi rf p2 fuel :
  chain_inv c s l -> c_db c = Some d ->
  hash_of <$> head l = Some (expected_genesis_hash (c_network c)) ->
  exists c', load_from_database header_hash tx_hash expected_genesis_hash (S fuel)
      (started d oi (c_network c) rf p2) = Ret (c', Ok Loaded)
    /\ loaded c s l c'
    /\ (targets_wf (view c) -> s_total_difficulty (c_stats c') =
          Z.min u128_max (1 + main_sum (view c) (Z.to_nat (tip_height (c_tip c))))).
Proof.
  intros Hi Ed Hg. pose proof (inv_holds _ _ _ _ Hi Ed) as Hd.
  destruct (inv_nonempty _ _ _ Hi) as (t&Hl&Ht&Hst&Hth&Hpos).
  destruct (inv_durable _ _ _ _ _ _ _ Hi d Ed) as (st&Est&D1&D2&D3&D4).
  pose proof (inv_tip_height _ _ _ _ _ _ _ Hi) as Hn.
  pose proof (inv_room _ _ _ _ _ _ _ Hi) as Hroom.
  assert (H0 : db_heights (d_blocks d) !! 0 = Some (expected_genesis_hash (c_network c))).
  { rewrite (hc_heights _ _ _ Hd). unfold ChainSafety.main_hash. cbn.
    by rewrite <- head_lookup. }
  cbn [load_from_database started with_database set_finality c_db c_network].
  rewrite Est, H0, bool_decide_eq_true_2 by done. cbn [negb].
  rewrite (hc_blocks _ _ _ Hd), D1, Ht, Hst, D2, Hth, Z.eqb_refl. cbn [negb]. cbv zeta.
  match goal with |- context [recompute_total_difficulty (view ?x) ?y] =>
    set (c1 := x); pose (w := recompute_total_difficulty (view x) y) end.
  match goal with |- context [rebuild_utxo_set _ _ ?x _] => set (c2 := x) end.
  assert (E2 : c2 = set_stats c1 (set_work (c_stats c1)
    (default (cs_total_difficulty st) w))).
  { unfold c2, w. by destruct (recompute_total_difficulty _ _). }
  destruct (rebuild_spec c2 s l d) as (R1&R2&R3&R4&R5&R6&u&R7);
    [done|rewrite E2; reflexivity..|word_lia|].
  replace (Z.of_nat (length l) - 1) with (tip_height (c_tip c)) in * by lia.
  set (c3 := rebuild_utxo_set _ _ _ _) in *.
  destruct (tx_index_fields c3 (tip_height (c_tip c))) as (T1&T2&T3&T4&T5&T6&T7).
  set (c4 := rebuild_tx_index _ _ _) in *.
  destruct (T7 d) as (d4&Ed4&Eb4&Es4); [by rewrite R3, E2|].
  rewrite Ed4. cbn [mbind option_bind]. rewrite Es4, Est.
  rewrite T3, R2, E2. cbn [c_tip set_stats set_tip tip_hash c1].
  rewrite D1, Ht, bool_decide_eq_true_2 by done. cbn [negb andb].
  exists c4. split; [done|]. split.
  - split.
    + destruct R1 as [C1 C2 C4 C3]. split; rewrite ?T1, ?T2; try done.
      intros b Hb Hf x Hx. rewrite T1, T2. by apply (C3 b).
    + pose proof (inv_tip_time _ _ _ _ _ _ _ Hi) as Htime. rewrite Hl in Htime.
      injection Htime as Htime. rewrite T3, R2, E2. cbn. by rewrite Ht.
    + by rewrite T5, R4, E2.
    + rewrite T4, R6, E2. cbn. by rewrite D3.
    + rewrite T4, R6, E2. cbn. by rewrite D4.
    + by rewrite T4, R5.
    + intros d' Hd'. assert (d' = d) as -> by congruence. by exists d4.
    + rewrite T6, R7. eexists _, _. done.
  - intros Hw. rewrite T4, R6, E2. cbn.
    assert (Ew : w = Some (Z.min u128_max
      (1 + main_sum (view c) (Z.to_nat (tip_height (c_tip c)))))); [|by rewrite Ew].
    apply same_reads_work; [|by eapply inv_main_wf|done|lia].
    split; intros h.
    + rewrite (get_block_store _ _ _ _ c s l) by done.
      unfold get_block. cbn. rewrite lookup_empty. by rewrite (hc_blocks _ _ _ Hd).
    + rewrite (get_hash_main _ _ _ _ c s l) by done.
      unfold get_block_hash. cbn. rewrite lookup_empty. by rewrite (hc_heights _ _ _ Hd).
Qed.

(** The loaded node satisfies the chain invariant for the same chain, as long
    as the burn total fits the 64 bits it is stored in. *)
Lemma loaded_inv c s l c' :
  chain_inv c s l -> total_burned (c_stats c) <= u64_max -> loaded c s l c' ->
  chain_inv c' s l.
Proof.
  intros Hi Hb [[C1 C2 C4 C3] (T1&T2&T3) N S B K D _].
  pose proof (inv_typed _ _ _ _ _ _ _ Hi) as Hty.
  assert (HB : 0 <= total_burned (c_stats c)).
  { destruct (inv_ledger _ _ _ _ _ _ _ Hi) as [_ ->].
    apply (zsum_bounds _ _ u64_max). intros x Hx. apply burn_range.
    by eapply Forall_forall in Hty. }
  rewrite wrap64_small in B by word_lia.
  destruct (inv_nonempty _ _ _ Hi) as (t&_&_&_&_&H0).
  pose proof Hi as [(d&Ed&Es&Hd) _ _ Hs ? ? ? ? _ ? ? ? ? [L1 L2] ? Hdur Htime].
  destruct (D d Ed) as (d'&Ed'&Eb'&Es').
  split; rewrite ?T1, ?T2, ?T3, ?N, ?K; try done.
  - exists d'. rewrite Eb'. done.
  - intros b Hx Hf. apply C3; [done|]. unfold finality_floor in Hf. cbn in Hf.
    rewrite T2 in Hf. pose proof (floor_bounds (tip_height (c_tip c)) H0).
    pose proof (seg_elem _ _ _ Hs Hx). word_lia.
  - split; congruence.
  - intros d2 Hd2. assert (d2 = d') as -> by congruence.
    destruct (Hdur d Ed) as (st&E1&E2&E3&E4&E5). exists st.
    rewrite Es', T1, T2, S, B. done.
Qed.
End restart.
