(* ===== verification/ChainNode.v ===== *)
(** * Runs of a node

    Every state a node of [src/chain.rs] can reach from genesis: whole calls of
    [add_block], admissions and commits of several threads interleaved (the
    commit is given whatever tip snapshot its thread took), and restarts on
    the node's own database.  A history records the two incidents after which
    the chain state is no longer sound: a failed reorganisation whose fork had
    outgrown the tip, and a restart with a burn total that does not fit its
    field.  The theorems about the nodes without such an incident: [add_block]
    refines the update of a list of blocks, the accumulators are functions of
    the main chain, the reorganisation window stays in memory, a restart is a
    round trip; and [incident_breaks_chain], what the first incident does. *)

From stdpp Require Import prelude gmap sorting.
From Stdlib Require Import ZArith Lia.
From S2P Require Import Prelude Constants Emission FeeMarket Difficulty Block Utxo ForkChoice.
From S2P Require Import Chain ChainDemo ChainLedger ChainCoins ChainSafety ChainRestart.

Local Open Scope Z_scope.

(** ** Reachable nodes *)

(** What leaves a chain state that is not sound: a reorganisation that failed on
    the first rollback path although a block of the fork was higher than the tip
    ([failed_reorg_leaves_heights]), and a restart once the burn total no longer
    fits the 64 bits it is stored in. *)
Inductive incident := OutgrownFailure | BurnOverflow.

Definition add_incident {RF P2} (c : Chain RF P2) (b : Block) (r : result chain_error BlockStatus)
  : list incident :=
  if failed_early r && outgrown c b then [OutgrownFailure] else [].

Definition restart_incident {RF P2} (c : Chain RF P2) : list incident :=
  if u64_max <? total_burned (c_stats c) then [BurnOverflow] else [].

Lemma no_add_incident {RF P2} (c : Chain RF P2) b r :
  add_incident c b r = [] -> early_failure r -> level_fork c b.
Proof.
  unfold add_incident. intros Hn He. apply outgrown_level.
  rewrite (proj2 (failed_early_spec r) He) in Hn. by destruct (outgrown c b).
Qed.

Lemma no_restart_incident {RF P2} (c : Chain RF P2) :
  restart_incident c = [] -> total_burned (c_stats c) <= u64_max.
Proof.
  unfold restart_incident. by destruct (Z.ltb_spec u64_max (total_burned (c_stats c))); [|lia].
Qed.

Section runs.
Context {RF P2 : Type} `{!FinalityGate RF} `{!FinalityFeed RF} `{!Phase2Stores P2}.

(** The validator of a call; it may differ from call to call, since it reads the
    clock. *)
Context {T : Type} (BV : T -> BlockValidator).
Context (header_hash : BlockHeader -> Hash) (tx_hash : Transaction -> Hash).
Context (tx_size : Transaction -> Z).
Context (checkpoints : NetworkType -> list (Z * Hash)).
Context (testnet : bool).
Context (genesis : NetworkType -> Block) (expected : NetworkType -> Hash).

Implicit Types (c : Chain RF P2) (b : Block).

Abbreviation genesis_ok := (genesis_ok header_hash tx_size checkpoints testnet genesis expected).
Abbreviation chain_inv := (chain_inv header_hash tx_size checkpoints testnet).

(** [reachable h c]: a history from genesis to [c], in which the incidents [h]
    happened, the last one first. *)
Inductive reachable : list incident -> Chain RF P2 -> Prop :=
| reach_genesis oi net rf p2 c x :
    genesis_ok net ->
    init_genesis header_hash tx_hash genesis expected (fresh_node oi net rf p2)
      = Ret (c, Ok x) ->
    reachable [] c
| reach_add h c v now b c' r :
    reachable h c -> typed_block b ->
    add_block (BV := BV v) header_hash tx_hash tx_size checkpoints testnet c now b = Ret (c', r) ->
    reachable (add_incident (store_block header_hash c b) b r ++ h) c'
| reach_admit h c v now b c' a :
    reachable h c -> typed_block b ->
    admit_block (BV := BV v) header_hash checkpoints c now b = Ret (c', a) -> reachable h c'
| reach_commit h c v now b t c' r :
    reachable h c -> typed_block b -> block_height b <> 0 ->
    c_blocks c !! hash_of header_hash b = Some b ->
    commit_block (BV := BV v) header_hash tx_hash tx_size testnet c now b t (is_main b t)
      = Ret (c', r) ->
    reachable (add_incident c b r ++ h) c'
| reach_restart h c d oi rf p2 fuel c' :
    reachable h c -> genesis_ok (c_network c) -> c_db c = Some d ->
    load_from_database header_hash tx_hash expected (S fuel)
      (started d oi (c_network c) rf p2) = Ret (c', Ok Loaded) ->
    reachable (restart_incident c ++ h) c'.

(** The genesis entry of the checkpoint list is the expected genesis. *)
Lemma pinned_head c s l :
  chain_inv c s l -> genesis_ok (c_network c) ->
  hash_of header_hash <$> head l = Some (expected (c_network c)).
Proof.
  intros Hi (_&_&_&Hcp&_). destruct (inv_pinned _ _ _ _ _ _ _ Hi) as (g&->&Hg). cbn. congruence.
Qed.

Lemma restart_inv c s l d oi rf p2 fuel :
  chain_inv c s l -> genesis_ok (c_network c) -> c_db c = Some d ->
  total_burned (c_stats c) <= u64_max ->
  exists c' : Chain RF P2,
    load_from_database header_hash tx_hash expected (S fuel)
      (started d oi (c_network c) rf p2) = Ret (c', Ok Loaded)
    /\ chain_inv c' s l /\ loaded header_hash tx_hash c s l c'
    /\ (targets_wf (view c) -> s_total_difficulty (c_stats c') =
          Z.min u128_max (1 + main_sum (view c) (Z.to_nat (tip_height (c_tip c))))).
Proof.
  intros Hi Hg Ed Hb.
  destruct (load_spec header_hash tx_hash tx_size checkpoints testnet expected c s l d oi rf p2
    fuel Hi Ed (pinned_head _ _ _ Hi Hg)) as (c'&E&L&W).
  exists c'. split_and!; try done. by eapply loaded_inv.
Qed.

(** A node without incidents satisfies the chain invariant. *)
Lemma reachable_inv c : reachable [] c -> exists s, chain_inv c s (main_chain c).
Proof.
  enough (H : forall h, reachable h c -> h = [] -> exists s, chain_inv c s (main_chain c)).
  { intros Hc. by apply (H []). }
  induction 1 as [oi net rf p2 c x Hg E|h c v now b c' r _ IH Ht E
    |h c v now b c' a _ IH Ht E|h c v now b t c' r _ IH Ht H0 Hb E
    |h c d oi rf p2 fuel c' _ IH Hg Ed E]; intros Hh;
    try (apply app_eq_nil in Hh as [Hl ->]); try (destruct (IH eq_refl) as [s Hi]).
  - destruct (genesis_inv header_hash tx_hash tx_size checkpoints testnet genesis expected
      oi net rf p2 Hg) as (c1&h1&E1&Hi).
    rewrite E1 in E. injection E as <- _. eexists. erewrite main_chain_eq; done.
  - destruct (add_block_inv (BV := BV v) _ tx_hash _ _ _ c s _ b now Hi Ht) as (c1&r1&E1&_&Hc).
    rewrite E1 in E. injection E as <- <-.
    destruct (Hc (no_add_incident _ _ _ Hl)) as (s'&l'&Hi'&_).
    exists s'. by rewrite (main_chain_eq _ _ _ _ _ _ _ Hi').
  - destruct (IH Hh) as [s Hi].
    destruct (admit_spec (BV := BV v) _ _ _ _ c s _ b now Hi Ht) as (c1&a1&E1&Ha).
    rewrite E1 in E. injection E as <- <-. destruct a1 as [r|t m].
    + destruct Ha as (Hi'&_). exists s. by rewrite (main_chain_eq _ _ _ _ _ _ _ Hi').
    + destruct Ha as (->&_&_&Hn&H0&Hp).
      pose proof (store_inv _ _ _ _ c s _ b Hi Hn Ht H0 Hp) as Hi'.
      eexists. by rewrite (main_chain_eq _ _ _ _ _ _ _ Hi').
  - destruct (commit_inv (BV := BV v) _ tx_hash _ _ _ c s _ b t now Hi Ht H0 Hb)
      as (c1&r1&E1&_&Hc).
    rewrite E1 in E. injection E as <- <-. destruct (Hc (no_add_incident _ _ _ Hl)) as (l'&Hi'&_).
    exists s. by rewrite (main_chain_eq _ _ _ _ _ _ _ Hi').
  - destruct (restart_inv c s _ d oi rf p2 fuel Hi Hg Ed (no_restart_incident c Hl))
      as (c1&E1&Hi'&_).
    rewrite E1 in E. injection E as <-. exists s. by rewrite (main_chain_eq _ _ _ _ _ _ _ Hi').
Qed.
End runs.

(** The disk index and the eviction of index entries do not touch the coins. *)
Lemma replayed_coins tx_hash db oi n k l :
  same_coins (evict_old_outputs (set_output_db (connect_all tx_hash
    (set_output_db UtxoSet_new db) l) oi) n k) (connect_all tx_hash UtxoSet_new l).
Proof.
  assert (H : same_coins (set_output_db UtxoSet_new db) UtxoSet_new) by done.
  destruct (connect_all_proper tx_hash _ _ H l l eq_refl) as (H1&H2&H3).
  unfold evict_old_outputs. by destruct (n <=? k).
Qed.

(** ** Theorems *)

Section theorems.
Context {RF P2 : Type} `{!FinalityGate RF} `{!FinalityFeed RF} `{!Phase2Stores P2}.
Context {T : Type} (BV : T -> BlockValidator).

(** C1: On a node whose history has no incident, [add_block] always returns (no
    panic on an accumulator, no endless walk), and what it does to the main chain
    is exactly what its answer says: [Accepted] appends the block, [AcceptedReorg]
    replaces at most the last 143 blocks by a fork that ends in it and is in
    memory in full, every other answer, a failed reorganisation included, leaves
    the main chain as it was.  An incident is a failed reorganisation whose fork
    had outgrown the tip, or a restart with a burn total above 64 bits; after one
    the statement fails ([incident_breaks_chain]). *)
Theorem add_block_refines_chain header_hash tx_hash tx_size checkpoints testnet genesis
    expected (c : Chain RF P2) v now b :
  reachable BV header_hash tx_hash tx_size checkpoints testnet genesis expected [] c ->
  typed_block b ->
  exists c' r,
    add_block (BV := BV v) header_hash tx_hash tx_size checkpoints testnet c now b = Ret (c', r)
    /\ chain_update header_hash (<[hash_of header_hash b := b]> (c_blocks c)) (main_chain c) b r
         (main_chain c').
Proof.
  intros [s Hi]%reachable_inv Ht.
  destruct (add_block_inv (BV := BV v) _ tx_hash _ _ _ c s _ b now Hi Ht) as (c'&r&E&_).
  exists c', r. split; [done|].
  exact (add_block_main (BV := BV v) _ tx_hash _ _ _ c s _ b now c' r Hi Ht E).
Qed.


(** A reorganisation never needs a block that the cache has evicted: every
    main-chain block from the finality floor up to the tip is in memory under
    its height and hash, so the disconnect loop, which silently skips blocks it
    does not find, finds every block it is allowed to disconnect. *)
Theorem reorg_window_is_cached header_hash tx_hash tx_size checkpoints testnet genesis
    expected (c : Chain RF P2) h :
  reachable BV header_hash tx_hash tx_size checkpoints testnet genesis expected [] c ->
  finality_floor (view c) <= h <= tip_height (c_tip c) -> 0 <= h ->
  exists x b, c_heights c !! h = Some x /\ c_blocks c !! x = Some b
    /\ block_height b = h /\ main_chain c !! Z.to_nat h = Some b.
Proof.
  intros [s Hi]%reachable_inv Hh H0.
  pose proof (inv_tip_height _ _ _ _ _ _ _ Hi).
  destruct (lookup_lt_is_Some_2 (main_chain c) (Z.to_nat h)) as [b Hb]; [lia|].
  pose proof (inv_seg _ _ _ _ _ _ _ Hi _ _ Hb) as Hbh.
  destruct (inv_recent _ _ _ _ _ _ _ Hi b) with b as [E1 E2];
    [by eapply list_elem_of_lookup_2|lia|set_solver|].
  exists (hash_of header_hash b), b. replace h with (block_height b) by lia.
  split_and!; try done. by replace (Z.to_nat (block_height b)) with (Z.to_nat h) by lia.
Qed.

(** C6: A restart is a round trip: a node whose history has no incident, stopped
    while its burn total fits 64 bits and started on its own database, loads it
    without a second pass.  The loaded node has the same main chain and tip, the
    same supply and burn totals and block count.  Its UTXO set is the replay of
    that chain from the empty set, and, if the stored targets are bytes, its work
    the canonical [1 + Σ work] of that chain: both are computed afresh, so they
    need not be the values the node had before ([fresh_node_misses_genesis_work]
    for the work). *)
Theorem restart_restores header_hash tx_hash tx_size checkpoints testnet genesis expected
    (c : Chain RF P2) d oi rf p2 fuel :
  reachable BV header_hash tx_hash tx_size checkpoints testnet genesis expected [] c ->
  genesis_ok header_hash tx_size checkpoints testnet genesis expected (c_network c) ->
  c_db c = Some d -> total_burned (c_stats c) <= u64_max -> targets_wf (view c) ->
  exists c' : Chain RF P2, load_from_database header_hash tx_hash expected (S fuel)
      (started d oi (c_network c) rf p2) = Ret (c', Ok Loaded)
    /\ main_chain c' = main_chain c
    /\ tip_hash (c_tip c') = tip_hash (c_tip c)
    /\ total_supply (c_stats c') = total_supply (c_stats c)
    /\ total_burned (c_stats c') = total_burned (c_stats c)
    /\ total_blocks (c_stats c') = total_blocks (c_stats c)
    /\ s_total_difficulty (c_stats c') =
         Z.min u128_max (1 + main_sum (view c) (Z.to_nat (tip_height (c_tip c))))
    /\ u_outputs (c_utxos c') = u_outputs (connect_all tx_hash UtxoSet_new (main_chain c))
    /\ u_key_images (c_utxos c') = u_key_images (connect_all tx_hash UtxoSet_new (main_chain c)).
Proof.
  intros [s Hi]%reachable_inv Hg Ed Hb Ht.
  destruct (restart_inv header_hash tx_hash tx_size checkpoints testnet genesis expected
    c s _ d oi rf p2 fuel Hi Hg Ed Hb) as (c'&E&Hi'&L&W).
  exists c'. split; [done|]. rewrite (main_chain_eq _ _ _ _ _ _ _ Hi').
  destruct (inv_ledger _ _ _ _ _ _ _ Hi) as [_ B1], (inv_ledger _ _ _ _ _ _ _ Hi') as [_ B2].
  destruct L as [_ [T1 _] _ S _ K _ (db&oi'&U)].
  split_and!; try done; try congruence; [by rewrite K, (inv_count _ _ _ _ _ _ _ Hi)|by apply W|..];
    rewrite U; apply replayed_coins.
Qed.
End theorems.

(** ** Witnesses *)

Abbreviation demo_reachable := (reachable (fun _ : unit => demo_validator) demo_header_hash demo_tx_hash demo_tx_size
  demo_checkpoints true demo_genesis (fun _ => [0]) []).

(** Every block got an answer, and none failed in a reorganisation: no incident. *)
Definition smooth (o : option (result chain_error BlockStatus)) : bool :=
  match o with
  | Some (Ok (Invalid _)) | None => false
  | Some _ => true
  end.

Lemma demo_start_reachable : demo_reachable demo_start.
Proof.
  eapply (reach_genesis _ _ _ _ _ _ _ _ ∅ Testnet None []); [|reflexivity].
  split; [|split_and!; reflexivity]. split; [cbn; lia|constructor].
Qed.

Lemma demo_node_reachable l : forall c,
  demo_reachable c -> Forall typed_block l ->
  forallb smooth (demo_answers c l) = true -> demo_reachable (foldl demo_next c l).
Proof.
  induction l as [|b l IH]; intros c Hc Ht Hs; [done|]. cbn in Hs.
  apply Forall_cons in Ht as [Hb Ht]. apply andb_true_iff in Hs as [H1 Hs].
  cbn [foldl]. apply IH; [|done|done]. unfold demo_next, demo_answer in *.
  destruct (demo_add c 0 b) as [[c' r]| |] eqn:E; try done.
  assert (Hn : add_incident (store_block demo_header_hash c b) b r = [])
    by (by destruct r as [[]|]).
  pose proof (reach_add (fun _ => demo_validator) _ _ _ _ _ _ _ [] c tt 0 b c' r Hc Hb E) as H.
  rewrite Hn in H. exact H.
Qed.

Lemma demo_typed n h p t txs :
  0 <= h <= 2 ^ 62 -> Forall (fun tx => fee tx = 0) txs -> typed_block (demo_mined n h p t txs).
Proof.
  intros Hh Hf. split; [done|]. cbn. eapply Forall_impl; [exact Hf|]. intros tx ->. word_lia.
Qed.

Ltac demo_typed_all :=
  repeat (apply Forall_cons; split); [..|by apply Forall_nil];
  (apply demo_typed; [lia|by repeat constructor]).

Lemma demo_answer_eq c b c' r r' :
  demo_add c 0 b = Ret (c', r) -> demo_answer c b = Some r' -> r = r'.
Proof. unfold demo_answer. intros ->. by intros [= ->]. Qed.

Definition demo_forked : Chain unit (list Z) := demo_node [demo_a1; demo_f1].

Lemma demo_forked_reachable : demo_reachable demo_forked.
Proof.
  apply demo_node_reachable; [apply demo_start_reachable| |vm_compute; reflexivity].
  demo_typed_all.
Qed.

(** The second block of the fork triggers a reorganisation. *)
Lemma add_block_refines_chain_witness :
  exists c' txs, demo_add demo_forked 0 demo_f2 = Ret (c', Ok (AcceptedReorg txs))
    /\ chain_update demo_header_hash (<[[12] := demo_f2]> (c_blocks demo_forked))
         [demo_genesis Testnet; demo_a1] demo_f2 (Ok (AcceptedReorg txs))
         (main_chain c').
Proof.
  destruct (add_block_refines_chain (fun _ : unit => demo_validator) demo_header_hash
    demo_tx_hash demo_tx_size demo_checkpoints true demo_genesis (fun _ => [0]) demo_forked tt 0
    demo_f2) as (c'&r&E&H).
  - apply demo_forked_reachable.
  - apply demo_typed; [lia|by repeat constructor].
  - assert (r = Ok (AcceptedReorg [])) as ->
      by (apply (demo_answer_eq _ _ _ _ _ E); vm_compute; reflexivity).
    replace (main_chain demo_forked) with [demo_genesis Testnet; demo_a1] in H
      by (vm_compute; reflexivity).
    exists c', []. split; [exact E|exact H].
Defined.

(** After that reorganisation the ledger counts the fork's blocks. *)
Definition demo_reorged : Chain unit (list Z) := demo_node [demo_a1; demo_f1; demo_f2].

Lemma demo_reorged_reachable : demo_reachable demo_reorged.
Proof.
  apply demo_node_reachable; [apply demo_start_reachable| |vm_compute; reflexivity].
  demo_typed_all.
Qed.


Lemma reorg_window_is_cached_witness :
  exists x, c_heights demo_reorged !! 1 = Some x /\ c_blocks demo_reorged !! x = Some demo_f1.
Proof.
  destruct (reorg_window_is_cached (fun _ : unit => demo_validator) demo_header_hash demo_tx_hash demo_tx_size
    demo_checkpoints true demo_genesis (fun _ => [0]) demo_reorged 1 demo_reorged_reachable)
    as (x&b&H1&H2&_&H4); [split; vm_compute; discriminate|lia|].
  exists x. split; [exact H1|]. rewrite H2. symmetry. etrans; [|exact H4]. vm_compute. reflexivity.
Defined.

(** The blocks a node has on disk. *)
Definition stored {RF P2} (c : Chain RF P2) : gmap Hash Block :=
  default ∅ (db_blocks ∘ d_blocks <$> c_db c).

Lemma demo_reorged_targets : targets_wf (view demo_reorged).
Proof.
  intros h b Hb.
  assert (H : map_Forall (fun _ b => Forall is_u8 (h_target (header b))) (stored demo_reorged))
    by (apply (bool_decide_unpack _); vm_compute; exact I).
  apply (H h). destruct (reachable_inv _ _ _ _ _ _ _ _ _ demo_reorged_reachable) as [s Hi].
  rewrite (get_block_store _ _ _ _ _ s (main_chain demo_reorged)) in Hb by exact Hi.
  destruct (inv_db _ _ _ _ _ _ _ Hi) as (d&Ed&Es&_). unfold stored. rewrite Ed. cbn.
  by rewrite Es.
Qed.

(** The node that went through a reorganisation, restarted. *)
Lemma restart_restores_witness :
  exists c' : Chain unit (list Z),
    load_from_database demo_header_hash demo_tx_hash (fun _ => [0]) 1
      (started (default empty_database (c_db demo_reorged)) ∅ Testnet None [])
      = Ret (c', Ok Loaded)
    /\ main_chain c' = [demo_genesis Testnet; demo_f1; demo_f2].
Proof.
  destruct (restart_restores (fun _ : unit => demo_validator) demo_header_hash demo_tx_hash demo_tx_size demo_checkpoints true
    demo_genesis (fun _ => [0]) demo_reorged (default empty_database (c_db demo_reorged)) ∅ None
    [] 0) as (c'&E&M&_).
  - apply demo_reorged_reachable.
  - split; [|split_and!; reflexivity]. split; [cbn; lia|constructor].
  - vm_compute. reflexivity.
  - vm_compute. discriminate.
  - apply demo_reorged_targets.
  - exists c'. split; [exact E|]. rewrite M. vm_compute. reflexivity.
Defined.

(** ** After an incident *)




