(* ===== verification/ChainReorg.v ===== *)
(** * Failed reorganisations

    A reorganisation of [src/chain.rs] that fails validation on the way: what
    the rollback restores, and what it leaves behind: stale height mappings
    and lost entries of the on-disk output index. *)

From stdpp Require Import prelude gmap sorting.
From Stdlib Require Import ZArith Lia.
From S2P Require Import Prelude Constants Emission FeeMarket Difficulty Block Utxo ForkChoice.
From S2P Require Import Chain ChainDemo ChainLedger ChainCoins ChainSafety ChainRestart.
From S2P Require Import ChainNode.

Local Open Scope Z_scope.

(** ** Failed reorganisations *)

Section failed.
Context {RF P2 : Type} `{!FinalityGate RF} `{!FinalityFeed RF} `{!Phase2Stores P2}.
Context {BV : BlockValidator}.
Context (header_hash : BlockHeader -> Hash) (tx_hash : Transaction -> Hash).
Context (tx_size : Transaction -> Z) (checkpoints : NetworkType -> list (Z * Hash)).
Context (testnet : bool).
Implicit Types (c : Chain RF P2) (b : Block) (l f : list Block).

(** What a fork that is answered with [Invalid] went through. *)
Lemma failed_cases c s l b p now c' e :
  chain_inv header_hash tx_size checkpoints testnet c s l -> typed_block b ->
  s !! prev_hash (header b) = Some p -> block_height p = block_height b - 1 ->
  resolve_fork header_hash tx_hash tx_size testnet c now b = Ret (c', Ok (Invalid e)) ->
  e = ReorgBelowFloor /\ c' = c
  \/ exists n f k high, (k <= length f)%nat
    /\ find_fork_point (view c) b = Some (Some (Z.of_nat n))
    /\ collect_fork_chain (view c) b (Z.of_nat n) = Some f
    /\ rolled header_hash tx_hash c c' (drop (S n) l) f k (Z.of_nat n) high
    /\ (e ∈ early_reasons /\ (e ∈ connect_reasons \/ k = length f)
          /\ high = tip_height (c_tip c)
        \/ e = ReorgTipTarget /\ high = Z.max (tip_height (c_tip c)) (block_height b))
    /\ seg (Z.of_nat n + 1) (f ++ [b])
    /\ tip_height (c_tip c) = Z.of_nat n + Z.of_nat (length (drop (S n) l)).
Proof.
  intros Hi Ht Hp Hph E. unfold resolve_fork in E.
  destruct (evaluate_fork _ _ _ _ _ b) as [dec|] eqn:Hdec; [|done]. cbn in E.
  destruct dec as [| | | |fp d]; try done; [left; by injection E as <- <-|right].
  destruct (perform_reorg_inv _ _ _ _ _ _ _ _ Hdec) as (_&Hfp&_&_&_&Hfl).
  destruct (reorg_data _ _ _ _ c s l b p _ Hi Ht Hp Hph Hfp Hfl) as (n&f&->&Hlen&Hpre&_).
  destruct (perform_reorg_spec header_hash tx_hash tx_size testnet c now _ _ f b _
    (calculate_fork_cumulative_work (view c) b) Hpre) as (c1&r&Er&Hd).
  rewrite Er in E. cbn in E. injection E as -> ->.
  destruct Hd as [(txs&?&_)|(e'&k&high&[= <-]&Hk&R&Hc)]; [done|].
  exists n, f, k, high. split_and!; try done; apply Hpre.
Qed.

Lemma failed_rolled c s l b p now c' e n f :
  chain_inv header_hash tx_size checkpoints testnet c s l -> typed_block b ->
  s !! prev_hash (header b) = Some p -> block_height p = block_height b - 1 ->
  find_fork_point (view c) b = Some (Some (Z.of_nat n)) ->
  collect_fork_chain (view c) b (Z.of_nat n) = Some f ->
  resolve_fork header_hash tx_hash tx_size testnet c now b = Ret (c', Ok (Invalid e)) ->
  e <> ReorgBelowFloor ->
  exists k high, (k <= length f)%nat
    /\ rolled header_hash tx_hash c c' (drop (S n) l) f k (Z.of_nat n) high
    /\ (e ∈ early_reasons /\ (e ∈ connect_reasons \/ k = length f)
          /\ high = tip_height (c_tip c)
        \/ e = ReorgTipTarget /\ high = Z.max (tip_height (c_tip c)) (block_height b))
    /\ seg (Z.of_nat n + 1) (f ++ [b]).
Proof.
  intros Hi Ht Hp Hph Hfp Hcol E He.
  destruct (failed_cases c s l b p now c' e Hi Ht Hp Hph E)
    as [[? _]|(n'&f'&k&high&Hk&Hfp'&Hcol'&R&Hc&Sf&_)]; [done|].
  assert (n' = n) as -> by (rewrite Hfp in Hfp'; injection Hfp'; lia).
  assert (f' = f) as -> by congruence. by exists k, high.
Qed.

(** Without an incident a failure leaves no height of the fork behind. *)
Lemma failed_heights c b n f k high (c' : Chain RF P2) m e :
  add_incident c b (Ok (Invalid e)) = [] ->
  find_fork_point (view c) b = Some (Some (Z.of_nat n)) ->
  collect_fork_chain (view c) b (Z.of_nat n) = Some f -> (k <= length f)%nat ->
  rolled header_hash tx_hash c c' m f k (Z.of_nat n) high ->
  (e ∈ early_reasons /\ (e ∈ connect_reasons \/ k = length f) /\ high = tip_height (c_tip c)
   \/ e = ReorgTipTarget /\ high = Z.max (tip_height (c_tip c)) (block_height b)) ->
  seg (Z.of_nat n + 1) (f ++ [b]) -> Z.of_nat n <= tip_height (c_tip c) ->
  c_heights c' = c_heights c.
Proof.
  intros Hn Hfp Hcol Hk [_ _ Hh _ _ _] Hc Sf Hnt. apply map_eq. intros h. rewrite Hh.
  case_bool_decide as Hb; [|done]. exfalso.
  apply seg_app in Sf as [Sf Sb]. apply seg_one in Sb.
  destruct Hc as [(He'&_&->)|[_ ->]]; [|lia].
  destruct (lookup_lt_is_Some_2 f (Z.to_nat (h - Z.of_nat n - 1))) as [x Hx]; [lia|].
  pose proof (Sf _ _ Hx).
  pose proof (no_add_incident _ _ _ Hn ltac:(by exists e) _ f x Hfp Hcol
    ltac:(by eapply list_elem_of_lookup_2)). lia.
Qed.

(** An answer given at admission touches nothing but the event log. *)
Lemma admit_returned c now b c' r :
  admit_block header_hash checkpoints c now b = Ret (c', Returned r) ->
  c_tip c' = c_tip c /\ c_stats c' = c_stats c /\ c_heights c' = c_heights c
  /\ c_finality c' = c_finality c /\ c_utxos c' = c_utxos c.
Proof.
  unfold admit_block. destruct (_ || _); [by intros [= <- _]|].
  destruct (_ && _); [by intros [= <- _]|]. destruct (negb _); [by intros [= <- _]|].
  destruct (verify_checkpoint _ _ _ _) as [[]|]; try (by intros [= <- _]).
  all: destruct (validate _ _ _ _ _) as [[]|]; try (by intros [= <- _]).
  all: match goal with |- context [if negb ?x then _ else _] => destruct x end; cbn [negb];
    try (by intros [= <- _]).
  all: intros E; destruct (if 1 <=? block_height b then _ else _) as [ok| |]; try done;
    cbn [mbind exec_bind] in E; by destruct ok; injection E as <- _.
Qed.

(** The set of coins a reorganisation to [b] starts from: the blocks it disconnects
    were connected to a well-formed set [u0], with new outputs and unspent key
    images; and the part of the fork the validator accepts is fresh too.  Nothing is
    asked of the blocks it refuses. *)
Definition coins_stacked c b : Prop :=
  utxo_wf (c_utxos c)
  /\ forall n f, find_fork_point (view c) b = Some (Some (Z.of_nat n)) ->
       collect_fork_chain (view c) b (Z.of_nat n) = Some f ->
       let m := drop (S n) (main_chain c) in
       (exists u0, utxo_wf u0 /\ fresh_chain tx_hash u0 m
          /\ same_coins (c_utxos c) (connect_all tx_hash u0 m))
       /\ forall k, accepted_run tx_hash c (disconnect_all tx_hash (c_utxos c) m) (take k f) ->
            fresh_chain tx_hash (disconnect_all tx_hash (c_utxos c) m) (take k f).

(** The fork path. *)
Lemma failed_fork_restores c s l b p now c' e :
  chain_inv header_hash tx_size checkpoints testnet c s l -> typed_block b ->
  s !! prev_hash (header b) = Some p -> block_height p = block_height b - 1 ->
  resolve_fork header_hash tx_hash tx_size testnet c now b = Ret (c', Ok (Invalid e)) ->
  add_incident c b (Ok (Invalid e)) = [] -> coins_stacked c b ->
  c_tip c' = c_tip c /\ c_stats c' = c_stats c /\ c_heights c' = c_heights c
  /\ c_finality c' = c_finality c /\ same_coins (c_utxos c') (c_utxos c).
Proof.
  intros Hi Ht Hp Hph E Hn [Hu Hs].
  destruct (failed_cases c s l b p now c' e Hi Ht Hp Hph E)
    as [[_ ->]|(n&f&k&high&Hk&Hfp&Hcol&R&Hc&Sf&Et)]; [done|].
  pose proof (failed_heights c b n f k high c' _ e Hn Hfp Hcol Hk R Hc Sf ltac:(lia)) as Hh.
  destruct R as [F Est _ U _ A]. destruct (Hs n f Hfp Hcol) as [(u0&W&Hm&Heq) Hf].
  rewrite (main_chain_eq _ _ _ _ c s l Hi) in *.
  split_and!; try done; [apply F|apply F|]. rewrite U.
  pose proof (swap_back tx_hash (c_utxos c) u0 (drop (S n) l) (take k f) k Hu W Hm Heq (Hf k A)) as H.
  by rewrite take_take, Nat.min_id in H.
Qed.
End failed.

(** ** Theorems *)

Section theorems.
Context {RF P2 : Type} `{!FinalityGate RF} `{!FinalityFeed RF} `{!Phase2Stores P2}.

(** C12: After a block that [add_block] refuses, at admission or after a reorganisation
    that failed on the way, the tip, statistics, height index in memory, finality
    state and main chain are those from before, and so are the outputs, the
    canonical catalogue and the spent key images.  (The fork blocks stay stored; the
    output index on disk is another matter, [failed_reorg_drops_disk_index].)  The node had no
    incident before and the call is none (the fork had not outgrown the tip, or
    only the target of its tip was wrong).  For the coins, the blocks that were
    disconnected had been connected to a well-formed set with new outputs and
    unspent key images, and the part of the fork the validator accepts is fresh in
    the same sense ([coins_stacked]); the block at which the fork fails may well be
    a double spend. *)
Theorem failed_reorg_restores {T} (BV : T -> BlockValidator) header_hash tx_hash tx_size
    checkpoints testnet genesis expected (c : Chain RF P2) v now b c' e :
  reachable BV header_hash tx_hash tx_size checkpoints testnet genesis expected [] c ->
  typed_block b ->
  add_block (BV := BV v) header_hash tx_hash tx_size checkpoints testnet c now b
    = Ret (c', Ok (Invalid e)) ->
  add_incident (store_block header_hash c b) b (Ok (Invalid e)) = [] ->
  coins_stacked (BV := BV v) tx_hash (store_block header_hash c b) b ->
  c_tip c' = c_tip c /\ c_stats c' = c_stats c /\ c_heights c' = c_heights c
  /\ c_finality c' = c_finality c /\ main_chain c' = main_chain c
  /\ same_coins (c_utxos c') (c_utxos c).
Proof.
  intros [s Hi]%reachable_inv Ht E Hn Hs.
  pose proof (add_block_main (BV := BV v) _ tx_hash _ _ _ c s _ b now c' _ Hi Ht E) as Hm.
  cbn in Hm. rewrite Hm.
  enough (H : c_tip c' = c_tip c /\ c_stats c' = c_stats c /\ c_heights c' = c_heights c
    /\ c_finality c' = c_finality c /\ same_coins (c_utxos c') (c_utxos c)) by naive_solver.
  unfold add_block in E.
  destruct (admit_spec (BV := BV v) header_hash tx_size checkpoints testnet c s _ b now Hi Ht)
    as (c1&a&E1&Ha). rewrite E1 in E. cbn [mbind exec_bind] in E. destruct a as [r|t m].
  { injection E as -> ->. destruct (admit_returned (BV := BV v) _ _ _ _ _ _ _ E1)
      as (?&?&?&?&Eu). by rewrite Eu. }
  destruct Ha as (->&_&->&Hnew&H0&p&Hp&Hph).
  pose proof (store_inv _ _ _ _ c s _ b Hi Hnew Ht H0 (ex_intro _ p (conj Hp Hph))) as Hi1.
  assert (Hp1 : <[hash_of header_hash b := b]> s !! prev_hash (header b) = Some p).
  { destruct (decide (hash_of header_hash b = prev_hash (header b))); [congruence|].
    by rewrite lookup_insert_ne. }
  assert (Hres : resolve_fork (BV := BV v) header_hash tx_hash tx_size testnet
      (store_block header_hash c b) now b = Ret (c', Ok (Invalid e)) ->
    c_tip c' = c_tip c /\ c_stats c' = c_stats c /\ c_heights c' = c_heights c
    /\ c_finality c' = c_finality c /\ same_coins (c_utxos c') (c_utxos c)).
  { intros Er. exact (failed_fork_restores (BV := BV v) _ _ _ _ _ _ _ _ b p now c' e
      Hi1 Ht Hp1 Hph Er Hn Hs). }
  unfold commit_block in E. destruct (is_main b t); [|by apply Hres].
  destruct (negb _ && _); [by apply Hres|]. by destruct (accept_extension _ _ _ _ _ _ _).
Qed.

Context {BV : BlockValidator}.

(** A failed reorganisation nevertheless changes the disk: the on-disk
    output index loses every address that a disconnected main-chain block
    pays, although those blocks are back on the main chain.  The disconnect
    removes the entries through the UTXO set and the rollback re-inserts them
    only in memory, so the all-or-nothing comment at the deferred removal does
    not hold. *)
Theorem failed_reorg_drops_disk_index header_hash tx_hash tx_size checkpoints testnet
    (c : Chain RF P2) s l b p now c' e n f u0 x a :
  chain_inv header_hash tx_size checkpoints testnet c s l -> typed_block b ->
  s !! prev_hash (header b) = Some p -> block_height p = block_height b - 1 ->
  find_fork_point (view c) b = Some (Some (Z.of_nat n)) ->
  collect_fork_chain (view c) b (Z.of_nat n) = Some f ->
  resolve_fork header_hash tx_hash tx_size testnet c now b = Ret (c', Ok (Invalid e)) ->
  e <> ReorgBelowFloor ->
  utxo_wf u0 -> fresh_chain tx_hash u0 (drop (S n) l) ->
  same_coins (c_utxos c) (connect_all tx_hash u0 (drop (S n) l)) ->
  x ∈ drop (S n) l -> a ∈ block_addrs tx_hash (block_height x) (transactions x) ->
  on_disk (c_utxos c') a = None.
Proof.
  intros Hi Ht Hp Hph Hfp Hcol E He Hu0 Hm Heq Hx Ha.
  destruct (failed_rolled header_hash tx_hash tx_size checkpoints testnet c s l b p now c' e n f)
    as (k&high&Hk&[_ _ _ U _ _]&_); try done.
  rewrite U. unfold on_disk at 1. rewrite connect_all_db.
  apply disconnect_all_absent. unfold on_disk. rewrite connect_all_db.
  by eapply disconnect_all_paid.
Qed.

(** When the fork had outgrown the tip, the first rollback path leaves the
    fork's blocks above the old tip in the height map: after the failed
    reorganisation [height_to_hash] claims, above the restored tip, blocks that
    are not on the main chain (the second path clears up to the fork's height). *)
Theorem failed_reorg_leaves_heights header_hash tx_hash tx_size checkpoints testnet
    (c : Chain RF P2) s l b p now c' e n f :
  chain_inv header_hash tx_size checkpoints testnet c s l -> typed_block b ->
  s !! prev_hash (header b) = Some p -> block_height p = block_height b - 1 ->
  find_fork_point (view c) b = Some (Some (Z.of_nat n)) ->
  collect_fork_chain (view c) b (Z.of_nat n) = Some f ->
  resolve_fork header_hash tx_hash tx_size testnet c now b = Ret (c', Ok (Invalid e)) ->
  e = ReorgTipInvalid \/ e = ReorgTipError ->
  forall x, x ∈ f -> tip_height (c_tip c) < block_height x ->
  tip_height (c_tip c') = tip_height (c_tip c)
  /\ c_heights c' !! block_height x = Some (hash_of header_hash x).
Proof.
  intros Hi Ht Hp Hph Hfp Hcol E He x Hx Hxt.
  destruct (failed_rolled header_hash tx_hash tx_size checkpoints testnet c s l b p now c' e n f)
    as (k&high&Hk&[F _ Hh _ _ _]&Hc&Sf); try done; [by destruct He as [-> | ->]|].
  apply seg_app in Sf as [Sf _]. pose proof (seg_elem _ _ _ Sf Hx) as Hxs.
  destruct Hc as [(_&[Hc| ->]&->)|[Hc _]];
    [unfold connect_reasons in Hc; destruct He; subst; set_solver| |destruct He; congruence].
  split; [by rewrite (frame_tip _ _ F)|].
  rewrite Hh, bool_decide_eq_true_2 by lia.
  apply list_elem_of_lookup in Hx as [i Hi']. pose proof (Sf _ _ Hi').
  replace (Z.to_nat (block_height x - (Z.of_nat n + 1))) with i by lia. by rewrite Hi'.
Qed.
End theorems.

(** ** Witnesses *)

Section demo.

Abbreviation demo_inv := (chain_inv demo_header_hash demo_tx_size demo_checkpoints true).
Abbreviation demo_store := (store_block demo_header_hash).
Abbreviation demo_resolve := (resolve_fork (RF := unit) (P2 := list Z) demo_header_hash
  demo_tx_hash demo_tx_size true).

(** The node that is about to weigh a fork tip it has just stored. *)
Lemma demo_stored_inv l b :
  Forall typed_block l -> forallb smooth (demo_answers demo_start l) = true ->
  typed_block b -> stored (demo_node l) !! hash_of demo_header_hash b = None ->
  block_height b <> 0 ->
  (exists p, stored (demo_node l) !! prev_hash (header b) = Some p
     /\ block_height p = block_height b - 1) ->
  demo_inv (demo_store (demo_node l) b) (stored (demo_store (demo_node l) b))
    (main_chain (demo_node l)).
Proof.
  intros Hl Hs Hb Hn H0 Hp.
  destruct (reachable_inv (fun _ : unit => demo_validator) demo_header_hash demo_tx_hash demo_tx_size demo_checkpoints true
    demo_genesis (fun _ => [0]) (demo_node l)) as [s Hi].
  { apply demo_node_reachable; [apply demo_start_reachable|done|done]. }
  destruct (inv_db _ _ _ _ _ _ _ Hi) as (d&Ed&Es&_).
  assert (stored (demo_node l) = s) as Est by (unfold stored; rewrite Ed; exact Es).
  rewrite Est in Hn, Hp.
  replace (stored (demo_store (demo_node l) b)) with (<[hash_of demo_header_hash b := b]> s).
  - by apply store_inv.
  - unfold stored, store_block. cbn. rewrite Ed. cbn. by rewrite Es.
Qed.

(** The set before the first main-chain block. *)
Definition demo_coins0 : UtxoSet := c_utxos demo_start.

Lemma demo_coins0_wf : utxo_wf demo_coins0.
Proof.
  replace demo_coins0 with (set_output_db UtxoSet_new (Some ∅)) by (vm_compute; reflexivity).
  destruct new_wf as [W1 W2 W3 W4]. by split.
Qed.

(** A set with the same outputs and indices is well formed too. *)
Lemma utxo_wf_fields u u' :
  utxo_wf u -> u_outputs u' = u_outputs u -> height_index u' = height_index u ->
  locator_index u' = locator_index u -> locator_outputs u' = locator_outputs u ->
  stealth_index u' = stealth_index u -> utxo_wf u'.
Proof. intros [W1 W2 W3 W4] E1 E2 E3 E4 E5. split; by rewrite ?E1, ?E2, ?E3, ?E4, ?E5. Qed.

(** A block with a coinbase of nonce [n] and perhaps one spend is fresh. *)
Definition fresh_check (u : UtxoSet) (h : Z) (txs : list Transaction) : bool :=
  bool_decide (NoDup (add_key <$> block_adds demo_tx_hash h txs))
  && bool_decide (Forall (fun a => locator_outputs u !! add_key a = None)
                    (block_adds demo_tx_hash h txs))
  && bool_decide (Forall (fun ki => ki ∉ u_key_images u) (block_spends txs))
  && (0 <=? reorg_disconnects_total u) && (reorg_disconnects_total u <=? total_outputs_ever u)
  && (total_outputs_ever u + Z.of_nat (length (block_adds demo_tx_hash h txs)) <=? u64_max).

Lemma fresh_check_spec u h txs :
  fresh_check u h txs = true -> fresh_block demo_tx_hash u h txs.
Proof.
  unfold fresh_check. rewrite !andb_true_iff, !bool_decide_eq_true, !Z.leb_le, !Forall_forall.
  intros [[[[[H1 H2] H3] H4] H5] H6]. by split.
Qed.

Lemma demo_fresh u b :
  fresh_check u (block_height b) (transactions b) = true -> fresh_chain demo_tx_hash u [b].
Proof. intros H%fresh_check_spec. by split. Qed.

(** The fork [demo_e1] - [demo_e2] ends in a double spend. *)
Definition demo_failing : Chain unit (list Z) :=
  demo_store (demo_node [demo_a1; demo_e1]) demo_e2.

Definition demo_failed : Chain unit (list Z) :=
  match demo_resolve demo_failing 0 demo_e2 with Ret (c, _) => c | _ => demo_failing end.

Lemma demo_failing_inv :
  demo_inv demo_failing (stored demo_failing) [demo_genesis Testnet; demo_a1].
Proof.
  replace [demo_genesis Testnet; demo_a1] with (main_chain (demo_node [demo_a1; demo_e1]))
    by (vm_compute; reflexivity).
  apply demo_stored_inv.
  - demo_typed_all.
  - vm_compute. reflexivity.
  - apply demo_typed; [lia|by repeat constructor].
  - vm_compute. reflexivity.
  - discriminate.
  - exists demo_e1. split; vm_compute; reflexivity.
Qed.

Lemma demo_failing_coins :
  utxo_wf (c_utxos demo_failing)
  /\ fresh_chain demo_tx_hash demo_coins0 [demo_a1]
  /\ same_coins (c_utxos demo_failing) (connect_all demo_tx_hash demo_coins0 [demo_a1]).
Proof.
  assert (Hf : fresh_chain demo_tx_hash demo_coins0 [demo_a1])
    by (apply demo_fresh; vm_compute; reflexivity).
  split_and!; [|exact Hf|split_and!; vm_compute; reflexivity].
  apply (utxo_wf_fields (connect_all demo_tx_hash demo_coins0 [demo_a1]));
    [|vm_compute; reflexivity..].
  apply connect_all_wf; [apply demo_coins0_wf|exact Hf].
Qed.

Lemma demo_failing_answer :
  demo_resolve demo_failing 0 demo_e2 = Ret (demo_failed, Ok (Invalid ReorgTipInvalid)).
Proof. vm_compute. reflexivity. Qed.

Lemma demo_failing_stacked : coins_stacked demo_tx_hash demo_failing demo_e2.
Proof.
  destruct demo_failing_coins as (C1&C2&C3). split; [exact C1|]. intros n f Hn Hf.
  replace (find_fork_point (view demo_failing) demo_e2) with (Some (Some 0)) in Hn
    by (vm_compute; reflexivity).
  assert (n = 0%nat) as -> by (injection Hn; lia).
  replace (collect_fork_chain (view demo_failing) demo_e2 (Z.of_nat 0)) with (Some [demo_e1]) in Hf
    by (vm_compute; reflexivity).
  injection Hf as <-. cbv zeta.
  replace (drop 1 (main_chain demo_failing)) with [demo_a1] by (vm_compute; reflexivity). split.
  - exists demo_coins0. split; [apply demo_coins0_wf|]. split; [exact C2|exact C3].
  - intros [|k] _; [exact I|]. cbn [take]. rewrite take_nil. apply demo_fresh.
    vm_compute. reflexivity.
Qed.

(** The fork [demo_e1] - [demo_e2] is connected up to the double spend and undone. *)
Lemma failed_reorg_restores_witness :
  exists c', demo_add (demo_node [demo_a1; demo_e1]) 0 demo_e2
      = Ret (c', Ok (Invalid ReorgTipInvalid))
    /\ c_heights c' = c_heights (demo_node [demo_a1; demo_e1])
    /\ same_coins (c_utxos c') (c_utxos (demo_node [demo_a1; demo_e1])).
Proof.
  exists demo_failed.
  assert (E : demo_add (demo_node [demo_a1; demo_e1]) 0 demo_e2
    = Ret (demo_failed, Ok (Invalid ReorgTipInvalid))) by (vm_compute; reflexivity).
  split; [exact E|].
  destruct (failed_reorg_restores (fun _ : unit => demo_validator) demo_header_hash demo_tx_hash
    demo_tx_size demo_checkpoints true demo_genesis (fun _ => [0])
    (demo_node [demo_a1; demo_e1]) tt 0 demo_e2 demo_failed ReorgTipInvalid)
    as (_&_&H1&_&_&H2).
  - apply demo_node_reachable; [apply demo_start_reachable| |vm_compute; reflexivity].
    demo_typed_all.
  - apply demo_typed; [lia|by repeat constructor].
  - exact E.
  - vm_compute. reflexivity.
  - apply demo_failing_stacked.
  - split; [exact H1|exact H2].
Defined.

(** The entry of address [1] was on disk before. *)
Lemma failed_reorg_drops_disk_index_witness :
  is_Some (on_disk (c_utxos demo_failing) [1]) /\ on_disk (c_utxos demo_failed) [1] = None.
Proof.
  destruct demo_failing_coins as (_&C2&C3).
  split; [eexists; vm_compute; reflexivity|].
  apply (failed_reorg_drops_disk_index demo_header_hash demo_tx_hash demo_tx_size
    demo_checkpoints true demo_failing (stored demo_failing) [demo_genesis Testnet; demo_a1]
    demo_e2 demo_e1 0 demo_failed ReorgTipInvalid 0 [demo_e1] demo_coins0 demo_a1 [1]).
  - apply demo_failing_inv.
  - apply demo_typed; [lia|by repeat constructor].
  - vm_compute. reflexivity.
  - reflexivity.
  - vm_compute. reflexivity.
  - vm_compute. reflexivity.
  - apply demo_failing_answer.
  - discriminate.
  - apply demo_coins0_wf.
  - exact C2.
  - exact C3.
  - apply list_elem_of_singleton. reflexivity.
  - vm_compute. left.
Defined.

(** The fork [demo_o1] - [demo_o4] outgrows the one hard block it competes with. *)
Definition demo_outgrown : Chain unit (list Z) :=
  demo_store (demo_node [demo_h1; demo_o1; demo_o2; demo_o3]) demo_o4.

Definition demo_overhang : Chain unit (list Z) :=
  match demo_resolve demo_outgrown 0 demo_o4 with Ret (c, _) => c | _ => demo_outgrown end.

Lemma failed_reorg_leaves_heights_witness :
  tip_height (c_tip demo_overhang) = 1 /\ c_heights demo_overhang !! 3 = Some [43].
Proof.
  destruct (failed_reorg_leaves_heights demo_header_hash demo_tx_hash demo_tx_size
    demo_checkpoints true demo_outgrown (stored demo_outgrown)
    (main_chain (demo_node [demo_h1; demo_o1; demo_o2; demo_o3])) demo_o4 demo_o3 0
    demo_overhang ReorgTipInvalid 0 [demo_o1; demo_o2; demo_o3]) with demo_o3 as [H1 H2].
  - apply demo_stored_inv.
    + demo_typed_all.
    + vm_compute. reflexivity.
    + apply demo_typed; [lia|by repeat constructor].
    + vm_compute. reflexivity.
    + discriminate.
    + exists demo_o3. split; vm_compute; reflexivity.
  - apply demo_typed; [lia|by repeat constructor].
  - vm_compute. reflexivity.
  - reflexivity.
  - vm_compute. reflexivity.
  - vm_compute. reflexivity.
  - vm_compute. reflexivity.
  - left. reflexivity.
  - right. right. left.
  - vm_compute. reflexivity.
  - split; [rewrite H1; vm_compute; reflexivity|exact H2].
Defined.
End demo.
