(* ===== verification/ChainFaults.v ===== *)
(** * Where the chain state machine falls short

    Situations in which [src/chain.rs] does not keep what its comments
    promise: a block that was stored but not connected when the node stopped
    is refused for ever after; the in-memory work of a node that has neither
    reorganised nor restarted misses the unit of genesis; two extensions whose
    database writes are reordered leave a chain state that mixes two tips. *)

From stdpp Require Import prelude gmap sorting.
From Stdlib Require Import ZArith Lia.
From S2P Require Import Prelude Constants Emission FeeMarket Difficulty Block Utxo ForkChoice.
From S2P Require Import Chain ChainDemo ChainLedger ChainCoins ChainSafety ChainRestart.
From S2P Require Import ChainNode.

Local Open Scope Z_scope.

(** ** Stranded blocks *)

Section stranded.
Context {RF P2 : Type} `{!FinalityGate RF} `{!FinalityFeed RF} `{!Phase2Stores P2}.
Context {BV : BlockValidator}.
Context (header_hash : BlockHeader -> Hash) (tx_hash : Transaction -> Hash).
Context (tx_size : Transaction -> Z).
Context (checkpoints : NetworkType -> list (Z * Hash)).
Context (testnet : bool).

Implicit Types (c : Chain RF P2) (b x : Block) (l : list Block).

Abbreviation hash_of := (hash_of header_hash).
Abbreviation chain_inv := (chain_inv header_hash tx_size checkpoints testnet).
Abbreviation add_block := (add_block header_hash tx_hash tx_size checkpoints testnet).

(** One call of [add_block]. *)
Definition node_step c c' : Prop :=
  exists now b r, typed_block b /\ add_block c now b = Ret (c', r)
    /\ (early_failure r -> level_fork (store_block header_hash c b) b).

(** On disk, but neither in memory nor on the main chain. *)
Definition stranded c x : Prop :=
  exists s, chain_inv c s (main_chain c) /\ s !! hash_of x = Some x
    /\ c_blocks c !! hash_of x = None /\ x ∉ main_chain c.

(** A stored block is never looked at again. *)
Lemma known_block c s l b y now :
  chain_inv c s l -> s !! hash_of b = Some y -> add_block c now b = Ret (c, Ok AlreadyKnown).
Proof.
  intros Hi Hb. destruct (inv_db _ _ _ _ _ _ _ Hi) as (d&Ed&Es&_).
  unfold Chain.add_block, admit_block, db_contains. rewrite Ed, Es, Hb.
  rewrite (bool_decide_eq_true_2 (is_Some (Some y))) by done. by rewrite orb_true_r.
Qed.

Lemma stranded_step c c' x : stranded c x -> node_step c c' -> stranded c' x.
Proof.
  intros (s&Hi&Hs&Hc&Hx) (now&b&r&Ht&E&Hl).
  destruct (s !! hash_of b) as [y|] eqn:Eb.
  { rewrite (known_block _ _ _ _ _ now Hi Eb) in E. injection E as <- _. by exists s. }
  assert (Hne : hash_of b <> hash_of x) by congruence.
  destruct (add_block_inv _ tx_hash _ _ _ c s _ b now Hi Ht) as (c1&r1&E1&Hg&H).
  rewrite E1 in E. injection E as -> ->.
  destruct (H Hl) as (s'&l'&Hi'&Hs'&Hu).
  exists s'. rewrite (main_chain_eq _ _ _ _ _ _ _ Hi').
  split; [done|]. split; [by eapply lookup_weaken|]. split.
  { apply eq_None_not_Some. intros [y Hy]. destruct (Hg _ _ Hy) as [|(_&?&_)]; congruence. }
  assert (Hxb : x ∉ [b]) by (intros ->%list_elem_of_singleton; done).
  destruct r as [[| |txs| | |]|]; cbn in Hu; subst; try done; [set_solver|].
  destruct Hu as (n&f&_&_&->&Hf).
  rewrite !elem_of_app. intros [[Hin|Hin%Hf]|Hin]; [| |done].
  - apply Hx. rewrite <- (take_drop (S n) (main_chain c)). set_solver.
  - rewrite lookup_insert_ne in Hin by done. congruence.
Qed.

Lemma stranded_forever c c' x : rtc node_step c c' -> stranded c x -> stranded c' x.
Proof. induction 1 as [|c1 c2 c3 Hs _ IH]; [done|]. intros H. by eapply IH, stranded_step. Qed.

(** After a restart only main-chain blocks are in memory. *)
Lemma restart_strands c s b d c' :
  chain_inv c s (main_chain c) -> c_db c = Some d -> s !! hash_of b = Some b ->
  b ∉ main_chain c -> chain_inv c' s (main_chain c) ->
  loaded header_hash tx_hash c s (main_chain c) c' -> stranded c' b.
Proof.
  intros Hi Ed Hb Hn Hi' L. exists s. rewrite (main_chain_eq _ _ _ _ _ _ _ Hi').
  split_and!; try done. apply eq_None_not_Some. intros [y Hy].
  pose proof (ca_main _ _ _ _ _ _ (ld_cached _ _ _ _ _ _ L) _ _ Hy) as Hm.
  destruct (inv_keyed _ _ _ _ _ _ _ Hi' (hash_of b) y) as [Hk _].
  { eapply lookup_weaken; [done|]. apply Hi'. }
  pose proof (inv_stored _ _ _ _ _ _ _ Hi y Hm). congruence.
Qed.
End stranded.

(** ** The work of genesis *)

Section work.
Context {RF P2 : Type} `{!FinalityGate RF} `{!FinalityFeed RF} `{!Phase2Stores P2}.
Context {BV : BlockValidator}.
Context (header_hash : BlockHeader -> Hash) (tx_hash : Transaction -> Hash).
Context (tx_size : Transaction -> Z).
Context (checkpoints : NetworkType -> list (Z * Hash)).
Context (testnet : bool).
Context (genesis : NetworkType -> Block) (expected : NetworkType -> Hash).

Implicit Types (c : Chain RF P2) (b : Block) (l : list Block).

Abbreviation chain_inv := (chain_inv header_hash tx_size checkpoints testnet).

(** A node that has only ever extended its tip since genesis. *)
Inductive grown : Chain RF P2 -> Prop :=
| grown_genesis oi net rf p2 c h :
    genesis_ok header_hash tx_size checkpoints testnet genesis expected net ->
    init_genesis header_hash tx_hash genesis expected (fresh_node oi net rf p2)
      = Ret (c, Ok h) ->
    grown c
| grown_add c now b c' :
    grown c -> typed_block b ->
    add_block header_hash tx_hash tx_size checkpoints testnet c now b = Ret (c', Ok Accepted) ->
    grown c'.

Lemma bind_ret {A B} (m : exec A) (k : A -> exec B) y :
  (m ≫= k) = Ret y -> exists x, m = Ret x /\ k x = Ret y.
Proof. destruct m; cbn; [eauto|done..]. Qed.

Lemma reorg_not_extension c now b fp w c' :
  perform_reorg header_hash tx_hash tx_size testnet c now b fp w <> Ret (c', Accepted).
Proof.
  unfold perform_reorg. intros ([c1 d]&_&E)%bind_ret.
  apply bind_ret in E as (f&_&E). apply bind_ret in E as ([c2 err]&_&E).
  destruct (match err with None => _ | _ => _ end); [by apply bind_ret in E as (?&_&?)|].
  destruct (reorg_tip_target_error _ _ _ _); by apply bind_ret in E as (?&_&?).
Qed.

Lemma fork_not_extension c now b c' :
  resolve_fork header_hash tx_hash tx_size testnet c now b <> Ret (c', Ok Accepted).
Proof.
  unfold resolve_fork. intros (d&_&E)%bind_ret. destruct d; try done.
  apply bind_ret in E as ([c1 r]&E&Er). injection Er as -> ->.
  by apply reorg_not_extension in E.
Qed.

Lemma accepted_is_extension c s l now b c' :
  chain_inv c s l -> typed_block b ->
  add_block header_hash tx_hash tx_size checkpoints testnet c now b = Ret (c', Ok Accepted) ->
  accept_extension header_hash tx_hash tx_size testnet (store_block header_hash c b) now b
    = Ret c'.
Proof.
  intros Hi Ht. unfold add_block.
  destruct (admit_spec header_hash tx_size checkpoints testnet c s l b now Hi Ht)
    as (c1&a&->&Ha). cbn [mbind exec_bind].
  destruct a as [r|t m]; [intros [= -> ->]|].
  { destruct Ha as (_&_&Hu). specialize (Hu ∅). cbn in Hu.
    apply (f_equal length) in Hu. rewrite length_app in Hu. cbn in Hu. lia. }
  destruct Ha as (->&_&->&_). unfold commit_block.
  destruct (is_main b t); [|intros E; by apply fork_not_extension in E].
  destruct (negb _ && _); [intros E; by apply fork_not_extension in E|].
  by intros (c2&E&[= ->])%bind_ret.
Qed.

Definition chain_work l : Z := work_sum (drop 1 l).

Lemma main_sum_chain c s l n :
  chain_inv c s l -> (S n <= length l)%nat -> main_sum (view c) n = work_sum (take n (drop 1 l)).
Proof.
  intros Hi. induction n as [|n IH]; intros Hn; [done|].
  destruct (lookup_lt_is_Some_2 l (S n)) as [b Hb]; [lia|].
  assert (Hd : drop 1 l !! n = Some b) by (by rewrite lookup_drop).
  rewrite (take_S_r _ _ _ Hd), work_sum_app. cbn [main_sum work_sum].
  rewrite IH by lia. rewrite (inv_by_height _ _ _ _ c s l) by (done || lia).
  rewrite Nat2Z.id, Hb. lia.
Qed.

Lemma full_sum_chain c s l :
  chain_inv c s l -> main_sum (view c) (Z.to_nat (tip_height (c_tip c))) = chain_work l.
Proof.
  intros Hi. pose proof (inv_tip_height _ _ _ _ _ _ _ Hi) as Ht.
  destruct (inv_nonempty _ _ _ _ _ _ _ Hi) as (_&_&_&_&_&H0).
  rewrite (main_sum_chain c s l) by (done || lia). unfold chain_work. f_equal.
  apply take_ge. rewrite length_drop. lia.
Qed.

Lemma chain_work_nonneg c s l :
  chain_inv c s l -> targets_wf (view c) -> 0 <= chain_work l.
Proof.
  intros Hi Ht. rewrite <- (full_sum_chain c s l) by done. by apply main_sum_nonneg.
Qed.

Lemma chain_work_snoc l b : l <> [] -> chain_work (l ++ [b]) = chain_work l + block_work b.
Proof.
  intros Hl. unfold chain_work. destruct l as [|g l]; [done|].
  change (work_sum (l ++ [b]) = work_sum l + block_work b).
  rewrite work_sum_app. cbn [work_sum]. lia.
Qed.

Lemma inv_targets c s l :
  chain_inv c s l ->
  targets_wf (view c) <-> (forall h b, s !! h = Some b -> Forall is_u8 (h_target (header b))).
Proof.
  intros Hi. split; intros H h b Hb; apply (H h).
  - by rewrite (get_block_store header_hash tx_size checkpoints testnet c s l).
  - by rewrite (get_block_store header_hash tx_size checkpoints testnet c s l) in Hb.
Qed.

Lemma extension_work c s l now b c' :
  chain_inv c s l -> typed_block b -> targets_wf (view c') ->
  add_block header_hash tx_hash tx_size checkpoints testnet c now b = Ret (c', Ok Accepted) ->
  exists s', chain_inv c' s' (l ++ [b]) /\ targets_wf (view c) /\ 0 <= chain_work l
    /\ 1 <= block_work b
    /\ s_total_difficulty (c_stats c') = wrap128 (s_total_difficulty (c_stats c) + block_work b).
Proof.
  intros Hi Ht Hw E.
  destruct (add_block_inv _ tx_hash _ _ _ c s _ b now Hi Ht) as (c1&r1&E1&_&H).
  rewrite E1 in E. injection E as -> ->.
  destruct H as (s'&l'&Hi'&Hs'&Hu); [by intros (?&?&_)|]. cbn in Hu. subst l'.
  exists s'. split; [done|].
  pose proof (proj1 (inv_targets _ _ _ Hi') Hw) as Hw'.
  assert (Hwc : targets_wf (view c)).
  { apply (inv_targets _ _ _ Hi). intros h x Hx. eapply Hw'. by eapply lookup_weaken. }
  split; [done|]. split; [by eapply chain_work_nonneg|]. split.
  - apply block_work_bounds. apply (Hw' (hash_of header_hash b)).
    apply (inv_stored _ _ _ _ _ _ _ Hi'). set_solver.
  - apply (accepted_is_extension c s l) in E1; [|done..].
    apply extension_spec in E1 as [_ _ _ _ (st&e&_&Es&_&_&_&Ed) _].
    apply add_supply_fields in Es as ->. cbn. by rewrite Ed.
Qed.

Lemma grown_work c :
  grown c -> exists s, chain_inv c s (main_chain c)
    /\ (targets_wf (view c) -> chain_work (main_chain c) <= u128_max ->
        s_total_difficulty (c_stats c) = chain_work (main_chain c)).
Proof.
  induction 1 as [oi net rf p2 c h Hg E|c now b c' _ (s&Hi&Hc) Ht E].
  - destruct (genesis_inv header_hash tx_hash tx_size checkpoints testnet genesis expected
      oi net rf p2 Hg) as (c1&h1&E1&Hi).
    rewrite E1 in E. injection E as -> ->. eexists.
    erewrite main_chain_eq by done. split; [done|]. intros _ _.
    revert E1. unfold init_genesis.
    destruct (negb _); [done|]. intros (e&_&[= <- _])%bind_ret. done.
  - destruct (add_block_inv _ tx_hash _ _ _ c s _ b now Hi Ht) as (c1&r1&E1&_&H).
    rewrite E1 in E. injection E as -> ->.
    destruct H as (s'&l'&Hi'&Hs'&Hu); [by intros (?&?&_)|]. cbn in Hu. subst l'.
    exists s'. rewrite (main_chain_eq _ _ _ _ _ _ _ Hi'). split; [done|]. intros Hw Hmax.
    destruct (extension_work c s _ now b c' Hi Ht Hw E1) as (_&_&Hwc&H0&H1&->).
    destruct (inv_nonempty _ _ _ _ _ _ _ Hi) as (x&Hx&_).
    rewrite chain_work_snoc in * by (intros Hn; by rewrite Hn in Hx).
    rewrite Hc by (done || lia). apply wrap128_small. word_lia.
Qed.
End work.

(** ** Writes after the lock *)

Section writes.
Context {RF P2 : Type} `{!FinalityGate RF} `{!FinalityFeed RF} `{!Phase2Stores P2}.
Context (header_hash : BlockHeader -> Hash) (tx_hash : Transaction -> Hash).
Context (tx_size : Transaction -> Z) (testnet : bool).
Implicit Types (c : Chain RF P2) (b : Block).

(** The database part of an extension reads the statistics of the moment. *)
Lemma persist_writes c now b d :
  c_db c = Some d ->
  let c' := persist_extension header_hash tx_hash c now b in
  exists d', c_db c' = Some d'
    /\ db_heights (d_blocks d')
        = <[block_height b := hash_of header_hash b]> (db_heights (d_blocks d))
    /\ c_stats c' = c_stats c
    /\ exists cp, d_state d' = Some (mkChainStateData (hash_of header_hash b) (block_height b)
         (s_total_difficulty (c_stats c)) (total_supply (c_stats c))
         (wrap64 (total_burned (c_stats c))) cp).
Proof.
  intros Ed. cbv zeta. unfold persist_extension. rewrite Ed.
  destruct ((0 <? block_height b) && _); cbn; eexists; split_and!; try done; by eexists.
Qed.

Lemma extend_supply c b c' :
  extend_tip header_hash tx_hash tx_size testnet c b = Ret c' ->
  total_supply (c_stats c')
    = total_supply (c_stats c) + default 0 (base_reward (block_height b)).
Proof.
  unfold extend_tip, calculate_block_reward.
  destruct (base_reward (block_height b)) as [e|]; [|done]. cbn [or_fuel mbind exec_bind].
  unfold add_supply, checked_add. cbn.
  destruct (total_supply (c_stats c) + e <=? u128_max); [|done]. cbn.
  destruct (_ <=? _); [|done]. cbn. intros [= <-].
  by rewrite (proj1 (proj2 (evict_fields _))).
Qed.
End writes.

(** ** Theorems *)

Section theorems.
Context {RF P2 : Type} `{!FinalityGate RF} `{!FinalityFeed RF} `{!Phase2Stores P2}.
Context {BV : BlockValidator}.

(** A block that [add_block] had stored but not yet connected when the node
    stopped is lost for good: after the restart the node answers every further
    offer of it with [AlreadyKnown] and never has it on its main chain, whatever
    blocks it receives, although nothing is wrong with the block.  (The panic
    messages of the persistence code promise that a restart fetches the block
    again from peers.) *)
Theorem interrupted_block_is_lost header_hash tx_hash tx_size checkpoints testnet genesis
    expected (c : Chain RF P2) now b c1 t m d oi rf p2 fuel c2 c3 :
  reachable (fun _ : unit => BV) header_hash tx_hash tx_size checkpoints testnet genesis
    expected [] c ->
  genesis_ok header_hash tx_size checkpoints testnet genesis expected (c_network c) ->
  total_burned (c_stats c) <= u64_max -> typed_block b ->
  admit_block header_hash checkpoints c now b = Ret (c1, Stored t m) -> c_db c1 = Some d ->
  load_from_database header_hash tx_hash expected (S fuel)
    (started d oi (c_network c) rf p2) = Ret (c2, Ok Loaded) ->
  rtc (node_step header_hash tx_hash tx_size checkpoints testnet) c2 c3 ->
  (b ∉ main_chain c3)
  /\ forall now, add_block header_hash tx_hash tx_size checkpoints testnet c3 now b
       = Ret (c3, Ok AlreadyKnown).
Proof.
  intros [s Hi]%reachable_inv Hg Hb Ht Ea Ed El Hr.
  destruct (admit_spec header_hash tx_size checkpoints testnet c s _ b now Hi Ht)
    as (c1'&a&Ea'&Ha).
  rewrite Ea' in Ea. injection Ea as -> ->. destruct Ha as (->&_&_&Hn&H0&Hp).
  pose proof (store_inv _ _ _ _ c s _ b Hi Hn Ht H0 Hp) as Hi1.
  pose proof (main_chain_eq _ _ _ _ _ _ _ Hi1) as Em. rewrite <- Em in Hi1.
  destruct (restart_inv header_hash tx_hash tx_size checkpoints testnet genesis expected
    _ _ _ d oi rf p2 fuel Hi1 Hg Ed Hb) as (c2'&El'&Hi2&L&_).
  cbn [c_network store_block set_db set_blocks] in El'. rewrite El in El'. injection El' as ->.
  assert (Hs : stranded header_hash tx_size checkpoints testnet c2' b).
  { eapply restart_strands; [exact Hi1|done|by rewrite lookup_insert_eq| |done|exact L].
    rewrite Em. intros Hin. apply (inv_stored _ _ _ _ _ _ _ Hi) in Hin. congruence. }
  destruct (stranded_forever header_hash tx_hash _ _ _ _ _ b Hr Hs) as (s3&Hi3&Hs3&_&Hx).
  split; [done|]. intros now'. by eapply known_block.
Qed.

(** A node that has only extended its tip since genesis carries one unit of
    work less than the canonical [1 + Σ work] that every fork is weighed with
    and that the node itself computes after a restart.  So any fork of equal
    work displaces its tip, whatever the hashes: the tie-break of the fork
    choice does not apply on such a node. *)
Theorem fresh_node_misses_genesis_work header_hash tx_hash tx_size checkpoints testnet genesis
    expected (c : Chain RF P2) :
  grown header_hash tx_hash tx_size checkpoints testnet genesis expected c ->
  targets_wf (view c) -> 1 + chain_work (main_chain c) <= u128_max ->
  let n := tip_height (c_tip c) in
  recompute_total_difficulty (view c) n = Some (1 + s_total_difficulty (c_stats c))
  /\ forall b, calculate_fork_cumulative_work (view c) b
         = default 0 (recompute_total_difficulty (view c) n) ->
       take_fork header_hash (view c) b = true.
Proof.
  intros (s&Hi&Hc)%grown_work Hw Hmax n. specialize (Hc Hw ltac:(lia)).
  pose proof (chain_work_nonneg _ _ _ _ _ _ _ Hi Hw).
  destruct (inv_nonempty _ _ _ _ _ _ _ Hi) as (_&_&_&_&_&H0).
  assert (Hr : recompute_total_difficulty (view c) n = Some (1 + s_total_difficulty (c_stats c))).
  { unfold n. rewrite (recompute_spec (view c) Hw _ (tip_height (c_tip c))) by
      (by eapply inv_main_wf || lia).
    rewrite (full_sum_chain _ _ _ _ c s _ Hi), Hc. f_equal. lia. }
  split; [done|]. intros b Hb. rewrite Hr in Hb. cbn in Hb.
  unfold take_fork. rewrite Hb. cbn. by destruct (Z.ltb_spec (s_total_difficulty (c_stats c))
    (1 + s_total_difficulty (c_stats c))); [|lia].
Qed.

(** Two threads that extend the tip one after the other write the chain state
    after they have released the lock.  When the writes arrive in the opposite
    order, the persisted state names the older block as the tip, with the
    supply and the burn total of the newer one. *)
Theorem late_write_mixes_tips header_hash tx_hash tx_size testnet (c : Chain RF P2)
    now1 now2 b1 b2 c1 c2 d :
  extend_tip header_hash tx_hash tx_size testnet c b1 = Ret c1 ->
  extend_tip header_hash tx_hash tx_size testnet (store_block header_hash c1 b2) b2 = Ret c2 ->
  c_db c2 = Some d ->
  exists d' st,
    c_db (persist_extension header_hash tx_hash
      (persist_extension header_hash tx_hash c2 now2 b2) now1 b1) = Some d'
    /\ d_state d' = Some st
    /\ cs_tip_hash st = hash_of header_hash b1 /\ cs_height st = block_height b1
    /\ cs_total_supply st
        = total_supply (c_stats c1) + default 0 (base_reward (block_height b2))
    /\ db_heights (d_blocks d') !! block_height b1 = Some (hash_of header_hash b1).
Proof.
  intros _ E2 Ed.
  destruct (persist_writes header_hash tx_hash c2 now2 b2 d Ed) as (d1&Ed1&_&Es1&_).
  destruct (persist_writes header_hash tx_hash _ now1 b1 d1 Ed1) as (d2&Ed2&Eh&_&cp&Est).
  exists d2. eexists. split; [done|]. split; [exact Est|]. rewrite Eh, Es1. cbn.
  split_and!; try done; [|apply lookup_insert_eq].
  by rewrite (extend_supply _ _ _ _ _ _ _ E2).
Qed.
End theorems.

(** ** Witnesses *)

(** The node is stopped after [demo_a2] was stored on top of [demo_a1]; after
    the restart a rival block takes its place. *)
Definition demo_interrupted : Chain unit (list Z) :=
  store_block demo_header_hash (demo_node [demo_a1]) demo_a2.

Definition demo_resumed : Chain unit (list Z) :=
  match load_from_database demo_header_hash demo_tx_hash (fun _ => [0]) 1
    (started (default empty_database (c_db demo_interrupted)) ∅ Testnet None []) with
  | Ret (c, _) => c
  | _ => demo_start
  end.

Definition demo_rival : Block := demo_mined 3 2 1 (demo_target 9) [demo_coinbase 3].

Lemma interrupted_block_is_lost_witness :
  main_chain (demo_next demo_resumed demo_rival)
    = [demo_genesis Testnet; demo_a1; demo_rival]
  /\ demo_answer (demo_next demo_resumed demo_rival) demo_a2 = Some (Ok AlreadyKnown).
Proof.
  split; [vm_compute; reflexivity|].
  destruct (interrupted_block_is_lost demo_header_hash demo_tx_hash demo_tx_size
    demo_checkpoints true demo_genesis (fun _ => [0]) (demo_node [demo_a1]) 0 demo_a2
    demo_interrupted [1] true (default empty_database (c_db demo_interrupted)) ∅ None []
    0 demo_resumed (demo_next demo_resumed demo_rival)) as [_ H].
  - apply demo_node_reachable; [apply demo_start_reachable| |vm_compute; reflexivity].
    demo_typed_all.
  - split; [|split_and!; reflexivity]. split; [cbn; lia|constructor].
  - vm_compute. discriminate.
  - apply demo_typed; [lia|by repeat constructor].
  - vm_compute. reflexivity.
  - vm_compute. reflexivity.
  - vm_compute. reflexivity.
  - apply rtc_once. exists 0, demo_rival, (Ok Accepted). split_and!.
    + apply demo_typed; [lia|by repeat constructor].
    + vm_compute. reflexivity.
    + intros (e&He&_). discriminate He.
  - unfold demo_answer. rewrite (H 0). reflexivity.
Defined.

Lemma demo_a1_grown :
  grown demo_header_hash demo_tx_hash demo_tx_size demo_checkpoints true demo_genesis
    (fun _ => [0]) (demo_node [demo_a1]).
Proof.
  apply (grown_add _ _ _ _ _ _ _ demo_start 0 demo_a1).
  - eapply (grown_genesis _ _ _ _ _ _ _ ∅ Testnet None []); [|reflexivity].
    split; [|split_and!; reflexivity]. split; [cbn; lia|constructor].
  - apply demo_typed; [lia|by repeat constructor].
  - vm_compute. reflexivity.
Qed.

(** A sibling of [demo_a1] with the same target and a larger hash displaces it. *)
Lemma fresh_node_misses_genesis_work_witness :
  take_fork demo_header_hash (view (demo_node [demo_a1]))
    (demo_mined 200 1 0 (demo_target 9) []) = true.
Proof.
  destruct (fresh_node_misses_genesis_work demo_header_hash demo_tx_hash demo_tx_size
    demo_checkpoints true demo_genesis (fun _ => [0]) (demo_node [demo_a1])) as [_ H].
  - apply demo_a1_grown.
  - destruct (grown_work _ _ _ _ _ _ _ _ demo_a1_grown) as (s&Hi&_).
    apply (inv_targets _ _ _ _ _ _ _ Hi). intros h b Hb.
    assert (Hs : map_Forall (fun _ b => Forall is_u8 (h_target (header b)))
      (stored (demo_node [demo_a1]))) by (apply (bool_decide_unpack _); vm_compute; exact I).
    apply (Hs h). destruct (inv_db _ _ _ _ _ _ _ Hi) as (d&Ed&Es&_).
    unfold stored. rewrite Ed. cbn. rewrite Es. exact Hb.
  - vm_compute. discriminate.
  - apply H. vm_compute. reflexivity.
Defined.

Definition demo_extend (c : Chain unit (list Z)) (b : Block) : Chain unit (list Z) :=
  match extend_tip demo_header_hash demo_tx_hash demo_tx_size true c b with
  | Ret c' => c'
  | _ => c
  end.

(** [demo_a1] and [demo_a2] are written in the opposite order. *)
Definition demo_first : Chain unit (list Z) :=
  demo_extend (store_block demo_header_hash demo_start demo_a1) demo_a1.
Definition demo_second : Chain unit (list Z) :=
  demo_extend (store_block demo_header_hash demo_first demo_a2) demo_a2.

Lemma late_write_mixes_tips_witness :
  exists d' st,
    c_db (persist_extension demo_header_hash demo_tx_hash
      (persist_extension demo_header_hash demo_tx_hash demo_second 0 demo_a2) 0 demo_a1)
      = Some d'
    /\ d_state d' = Some st /\ cs_tip_hash st = [1] /\ cs_height st = 1.
Proof.
  destruct (late_write_mixes_tips demo_header_hash demo_tx_hash demo_tx_size true
    (store_block demo_header_hash demo_start demo_a1) 0 0 demo_a1 demo_a2 demo_first
    demo_second (default empty_database (c_db demo_second))) as (d'&st&H1&H2&H3&H4&_);
    [vm_compute; reflexivity..|].
  exists d', st. split; [exact H1|]. split; [exact H2|]. split; [exact H3|exact H4].
Defined.
