(* ===== verification/ChainWork.v ===== *)
(** * The chain a node follows

    The fork choice of [src/chain.rs] inside [add_block]: once the recorded work of
    a node is that of its main chain, which every reorganisation and every restart
    brings about, each change of the tip is a step up in the order of (work, hash),
    so the node never trades its chain for a lighter one and never goes back. *)

From stdpp Require Import prelude gmap sorting.
From Stdlib Require Import ZArith Lia.
From S2P Require Import Prelude Constants Emission FeeMarket Difficulty Block Utxo ForkChoice.
From S2P Require Import Chain ChainDemo ChainLedger ChainCoins ChainSafety ChainRestart.
From S2P Require Import ChainNode ChainReorg ChainFaults.

Local Open Scope Z_scope.

(** The work a node records is one unit for genesis and the sum over its chain. *)
Definition canonical {RF P2} (c : Chain RF P2) : Prop :=
  s_total_difficulty (c_stats c) = 1 + chain_work (main_chain c).

(** What fork choice compares. *)
Definition standing {RF P2} (c : Chain RF P2) : Z * Hash :=
  (chain_work (main_chain c), tip_hash (c_tip c)).

Section steps.
Context {RF P2 : Type} `{!FinalityGate RF} `{!FinalityFeed RF} `{!Phase2Stores P2}.
Context {BV : BlockValidator}.
Context (header_hash : BlockHeader -> Hash) (tx_hash : Transaction -> Hash).
Context (tx_size : Transaction -> Z).
Context (checkpoints : NetworkType -> list (Z * Hash)).
Context (testnet : bool).
Implicit Types (c : Chain RF P2) (b : Block) (l : list Block) (s : gmap Hash Block).

Abbreviation chain_inv := (chain_inv header_hash tx_size checkpoints testnet).
Abbreviation add_block := (add_block header_hash tx_hash tx_size checkpoints testnet).

Lemma chain_work_fork l n f b :
  (S n <= length l)%nat ->
  chain_work ((take (S n) l ++ f) ++ [b])
  = work_sum (take n (drop 1 l)) + work_sum f + block_work b.
Proof.
  intros Hn. unfold chain_work. destruct l as [|g l]; [cbn in Hn; lia|].
  change (drop 1 ((take (S n) (g :: l) ++ f) ++ [b])) with ((take n l ++ f) ++ [b]).
  change (drop 1 (g :: l)) with (drop 0 l). rewrite drop_0, !work_sum_app. cbn [work_sum]. lia.
Qed.

(** A performed reorganisation: what was compared and what is recorded. *)
Lemma reorg_step c s l b p now c' txs :
  chain_inv c s l -> typed_block b -> s !! prev_hash (header b) = Some p ->
  block_height p = block_height b - 1 -> c_blocks c !! hash_of header_hash b = Some b ->
  resolve_fork header_hash tx_hash tx_size testnet c now b = Ret (c', Ok (AcceptedReorg txs)) ->
  exists l', chain_inv c' s l' /\ take_fork header_hash (view c) b = true
    /\ tip_hash (c_tip c') = hash_of header_hash b
    /\ s_total_difficulty (c_stats c') = calculate_fork_cumulative_work (view c) b
    /\ (targets_wf (view c) -> calculate_fork_cumulative_work (view c) b
          = Z.min u128_max (1 + chain_work l')).
Proof.
  intros Hi Ht Hp Hph Hcb E.
  unfold resolve_fork in E.
  destruct (evaluate_fork _ _ _ _ _ b) as [dec|] eqn:Hdec; [|done]. cbn in E.
  destruct dec as [| | | |fp d]; try done.
  destruct (perform_reorg_inv _ _ _ _ _ _ _ _ Hdec) as (Htake&Hfp&_&_&_&Hfl).
  destruct (reorg_data _ _ _ _ c s l b p _ Hi Ht Hp Hph Hfp Hfl)
    as (n&f&->&Hlen&Hpre&Hlink&Hst).
  destruct (perform_reorg_spec header_hash tx_hash tx_size testnet c now _ _ f b _
    (calculate_fork_cumulative_work (view c) b) Hpre) as (c2&r&Er&Hd).
  rewrite Er in E. cbn in E. injection E as -> ->.
  destruct Hd as [(txs'&_&R)|(?&?&?&?&_)]; [|done].
  assert (Hn : (S n <= length l)%nat) by (rewrite length_take in Hlen; lia).
  exists ((take (S n) l ++ f) ++ [b]). split; [by eapply reorged_inv|]. split; [done|].
  split; [by rewrite (ro_tip _ _ _ _ _ _ _ _ _ _ _ _ R)|].
  split; [apply (ro_work _ _ _ _ _ _ _ _ _ _ _ _ R)|].
  intros Htw. pose proof (inv_main_wf _ _ _ _ _ _ _ Hi) as Hm.
  pose proof (inv_tip_height _ _ _ _ _ _ _ Hi) as Hth.
  destruct (fork_work_decomposes (view c) (tip_height (c_tip c)) b p)
    as (n'&f'&t&Hfp'&Hcol&Hrec&->); try done.
  - by eapply inv_store_wf.
  - lia.
  - destruct Ht as [Ht _]. word_lia.
  - apply (Htw (hash_of header_hash b)). unfold get_block. cbn. by rewrite Hcb.
  - by rewrite (get_block_store header_hash tx_size checkpoints testnet c s l).
  - assert (n' = Z.of_nat n) as -> by congruence.
    rewrite (pre_collect _ _ _ _ _ _ _ _ _ Hpre) in Hcol. injection Hcol as <-.
    rewrite (recompute_spec (view c) Htw _ (tip_height (c_tip c))) in Hrec by (done || lia).
    injection Hrec as <-. rewrite Nat2Z.id, chain_work_fork by done.
    rewrite (main_sum_chain header_hash tx_size checkpoints testnet c s l n) by done.
    assert (Hb : 1 <= block_work b).
    { apply block_work_bounds. apply (Htw (hash_of header_hash b)). unfold get_block. cbn.
      by rewrite Hcb. }
    assert (Hf : 0 <= work_sum f).
    { clear - Hst Htw Hi. induction f as [|x f IH]; cbn [work_sum]; [lia|].
      assert (1 <= block_work x).
      { apply block_work_bounds, (Htw (hash_of header_hash x)).
        rewrite (get_block_store header_hash tx_size checkpoints testnet c s l) by done. apply Hst. set_solver. }
      enough (0 <= work_sum f) by lia. apply IH. intros y Hy. apply Hst. set_solver. }
    lia.
Qed.

(** An answer that is neither [Accepted] nor [AcceptedReorg] touches neither the
    recorded work nor the tip. *)
Lemma kept_step c s l b now c' r :
  chain_inv c s l -> typed_block b -> add_block c now b = Ret (c', r) ->
  match r with Ok Accepted | Ok (AcceptedReorg _) => False | _ => True end ->
  s_total_difficulty (c_stats c') = s_total_difficulty (c_stats c) /\ c_tip c' = c_tip c.
Proof.
  intros Hi Ht E Hr. unfold Chain.add_block in E.
  destruct (admit_spec header_hash tx_size checkpoints testnet c s l b now Hi Ht)
    as (c1&a&E1&Ha). rewrite E1 in E. cbn [mbind exec_bind] in E. destruct a as [r1|t m].
  { injection E as -> ->. destruct (admit_returned _ _ _ _ _ _ _ E1) as (H1&H2&_). by rewrite H2. }
  destruct Ha as (->&_&->&Hnew&H0&p&Hp&Hph).
  pose proof (store_inv _ _ _ _ c s _ b Hi Hnew Ht H0 (ex_intro _ p (conj Hp Hph))) as Hi1.
  assert (Hp1 : <[hash_of header_hash b := b]> s !! prev_hash (header b) = Some p).
  { destruct (decide (hash_of header_hash b = prev_hash (header b))); [congruence|].
    by rewrite lookup_insert_ne. }
  assert (Hres : resolve_fork header_hash tx_hash tx_size testnet (store_block header_hash c b) now b
    = Ret (c', r) -> s_total_difficulty (c_stats c') = s_total_difficulty (c_stats c)
      /\ c_tip c' = c_tip c).
  { unfold resolve_fork.
    destruct (evaluate_fork _ _ _ _ _ b) as [dec|] eqn:Hdec; [|done]. cbn [or_fuel mbind exec_bind].
    destruct dec as [| | | |fp d]; try (by intros [= <- _]).
    destruct (perform_reorg_inv _ _ _ _ _ _ _ _ Hdec) as (_&Hfp&_&_&_&Hfl).
    destruct (reorg_data _ _ _ _ _ _ _ b p _ Hi1 Ht Hp1 Hph Hfp Hfl) as (n&f&->&_&Hpre&_).
    destruct (perform_reorg_spec header_hash tx_hash tx_size testnet _ now _ _ f b _
      (calculate_fork_cumulative_work (view (store_block header_hash c b)) b) Hpre)
      as (c2&r2&Er&Hd).
    rewrite Er. cbn [mbind exec_bind]. intros [= <- <-].
    destruct Hd as [(txs&->&_)|(e&k&high&_&_&[F Es _ _ _ _]&_)]; [done|].
    by rewrite Es, (frame_tip _ _ F). }
  unfold commit_block in E. destruct (is_main b t); [|by apply Hres].
  destruct (negb _ && _); [by apply Hres|].
  destruct (accept_extension _ _ _ _ _ _ _); cbn in E; try done. by injection E as <- <-.
Qed.

(** The reorganisation inside [add_block]. *)
Lemma reorg_from_add c s l b now c' txs :
  chain_inv c s l -> typed_block b -> add_block c now b = Ret (c', Ok (AcceptedReorg txs)) ->
  exists s1 p, chain_inv (store_block header_hash c b) s1 l
    /\ s1 !! prev_hash (header b) = Some p /\ block_height p = block_height b - 1
    /\ resolve_fork header_hash tx_hash tx_size testnet (store_block header_hash c b) now b
       = Ret (c', Ok (AcceptedReorg txs)).
Proof.
  intros Hi Ht E. unfold Chain.add_block in E.
  destruct (admit_spec header_hash tx_size checkpoints testnet c s l b now Hi Ht)
    as (c1&a&E1&Ha). rewrite E1 in E. cbn [mbind exec_bind] in E. destruct a as [r1|t m].
  { injection E as -> ->. exfalso. unfold admit_block in E1. destruct (_ || _); [done|]. destruct (_ && _); [done|].
    destruct (negb _); [done|]. destruct (verify_checkpoint _ _ _ _) as [[]|]; try done.
    all: destruct (validate _ _ _ _ _) as [[]|]; try done.
    all: match type of E1 with context [if negb ?x then _ else _] => destruct x end;
      cbn [negb] in E1; try done.
    all: destruct (if 1 <=? block_height b then _ else _) as [ok| |]; try done;
      cbn [mbind exec_bind] in E1; by destruct ok. }
  destruct Ha as (->&_&->&Hnew&H0&p&Hp&Hph).
  exists (<[hash_of header_hash b := b]> s), p.
  split; [by apply (store_inv _ _ _ _ c s _ b Hi Hnew Ht H0 (ex_intro _ p (conj Hp Hph)))|].
  split.
  { destruct (decide (hash_of header_hash b = prev_hash (header b))); [congruence|].
    by rewrite lookup_insert_ne. }
  split; [done|]. unfold commit_block in E. destruct (is_main b t); [|done].
  destruct (negb _ && _); [done|].
  destruct (accept_extension _ _ _ _ _ _ _); cbn in E; done.
Qed.

(** One call from a node that records canonical work. *)
Lemma add_block_climbs c s l b now c' r :
  chain_inv c s l -> typed_block b -> add_block c now b = Ret (c', r) ->
  add_incident (store_block header_hash c b) b r = [] ->
  targets_wf (view c') -> 1 + chain_work (main_chain c') <= u128_max ->
  (exists txs, r = Ok (AcceptedReorg txs)) \/ canonical c ->
  canonical c' /\ (canonical c -> main_chain c' = main_chain c /\ c_tip c' = c_tip c
                                 \/ better (standing c) (standing c')).
Proof.
  intros Hi Ht E Hn Hw Hmax Hc. unfold canonical, standing.
  pose proof (main_chain_eq _ _ _ _ _ _ _ Hi) as El.
  destruct (add_block_inv header_hash tx_hash tx_size checkpoints testnet c s l b now Hi Ht)
    as (c1&r1&E1&_&Hu). rewrite E in E1. injection E1 as <- <-.
  destruct (Hu (no_add_incident _ _ _ Hn)) as (s'&l'&Hi'&Hs'&Hup).
  pose proof (main_chain_eq _ _ _ _ _ _ _ Hi') as El'.
  assert (Hkept : match r with Ok Accepted | Ok (AcceptedReorg _) => False | _ => True end ->
    canonical c -> canonical c' /\ main_chain c' = main_chain c /\ c_tip c' = c_tip c).
  { intros Hr Hcc. destruct (kept_step c s l b now c' r Hi Ht E Hr) as [H1 H2].
    assert (l' = l) as -> by (destruct r as [[]|]; done).
    unfold canonical in *. rewrite H1, El', <- El. by rewrite El in *. }
  destruct r as [[| |txs| | |]|].
  2,4-7: destruct Hc as [[? [=]]|Hc]; destruct (Hkept I Hc) as (?&?&?); split; [done|by left].
  - destruct Hc as [[? [=]]|Hc]. cbn in Hup. subst l'.
    destruct (extension_work header_hash tx_hash tx_size checkpoints testnet c s l now b c'
      Hi Ht Hw E) as (_&_&_&H0&H1&Ed).
    destruct (inv_nonempty _ _ _ _ _ _ _ Hi) as (x&Hx&_).
    rewrite El' in *. rewrite El in *. unfold canonical in Hc. rewrite El in Hc.
    rewrite chain_work_snoc in * by (intros Hl; by rewrite Hl in Hx).
    split; [rewrite Ed, Hc; rewrite wrap128_small by word_lia; lia|].
    intros _. right. left. cbn. lia.
  - destruct (reorg_from_add c s l b now c' txs Hi Ht E) as (s1&p&Hi1&Hp&Hph&Er).
    destruct (reorg_step _ s1 l b p now c' txs Hi1 Ht Hp Hph
      ltac:(cbn; by rewrite lookup_insert_eq) Er) as (l2&Hi2&Htake&Etip&Ew&Hfw).
    assert (l2 = l') as ->
      by (rewrite <- El'; symmetry; by apply (main_chain_eq _ _ _ _ _ _ _ Hi2)).
    assert (Htw : targets_wf (view (store_block header_hash c b))).
    { apply (inv_targets _ _ _ _ _ _ _ Hi1). by apply (inv_targets _ _ _ _ _ _ _ Hi2). }
    specialize (Hfw Htw). rewrite El' in *. rewrite Z.min_r in Hfw by lia.
    split; [by rewrite Ew, Hfw|]. intros Hcc. right. unfold better. cbn [fst snd].
    unfold take_fork in Htake. rewrite Hfw in Htake. cbn in Htake. rewrite Hcc, El in Htake.
    rewrite El, Etip.
    destruct (Z.ltb_spec (1 + chain_work l) (1 + chain_work l')); [left; lia|].
    destruct (Z.eqb_spec (1 + chain_work l') (1 + chain_work l)); [|done]. right. split; [lia|done].
Qed.
End steps.

(** ** Theorem *)

Section runs.
Context {RF P2 : Type} `{!FinalityGate RF} `{!FinalityFeed RF} `{!Phase2Stores P2}.
Context {T : Type} (BV : T -> BlockValidator).
Context (header_hash : BlockHeader -> Hash) (tx_hash : Transaction -> Hash).
Context (tx_size : Transaction -> Z).
Context (checkpoints : NetworkType -> list (Z * Hash)).
Context (testnet : bool).
Context (genesis : NetworkType -> Block) (expected : NetworkType -> Hash).
Implicit Types (c : Chain RF P2) (b : Block).

Abbreviation reachable :=
  (reachable BV header_hash tx_hash tx_size checkpoints testnet genesis expected []).

(** A call of [add_block] without an incident, on a node whose stored targets are
    bytes and whose work fits 128 bits after it. *)
Definition work_step c c' : Prop :=
  exists v now b r, typed_block b
    /\ add_block (BV := BV v) header_hash tx_hash tx_size checkpoints testnet c now b = Ret (c', r)
    /\ add_incident (store_block header_hash c b) b r = []
    /\ targets_wf (view c') /\ 1 + chain_work (main_chain c') <= u128_max.

Lemma work_step_reachable c c' : reachable c -> work_step c c' -> reachable c'.
Proof.
  intros Hc (v&now&b&r&Ht&E&Hn&_).
  pose proof (reach_add BV _ _ _ _ _ _ _ [] c v now b c' r Hc Ht E) as H.
  by rewrite Hn in H.
Qed.

Lemma work_step_climbs c c' :
  reachable c -> canonical c -> work_step c c' ->
  canonical c' /\ (main_chain c' = main_chain c /\ c_tip c' = c_tip c
                   \/ better (standing c) (standing c')).
Proof.
  intros [s Hi]%reachable_inv Hc (v&now&b&r&Ht&E&Hn&Hw&Hm).
  destruct (add_block_climbs (BV := BV v) header_hash tx_hash tx_size checkpoints testnet
    c s _ b now c' r Hi Ht E Hn Hw Hm (or_intror Hc)) as [H1 H2]. auto.
Qed.

Lemma work_steps_climb c c' :
  rtc work_step c c' -> reachable c -> canonical c ->
  reachable c' /\ canonical c'
  /\ (main_chain c' = main_chain c /\ c_tip c' = c_tip c \/ better (standing c) (standing c')).
Proof.
  induction 1 as [c|c c1 c2 Hs _ IH]; intros Hr Hc; [split_and!; try done; by left|].
  destruct (work_step_climbs c c1 Hr Hc Hs) as [Hc1 H1].
  destruct (IH (work_step_reachable _ _ Hr Hs) Hc1) as (Hr2&Hc2&H2).
  split_and!; try done. destruct H1 as [[E1 E2]|H1].
  - unfold standing in *. rewrite E1, E2 in H2. destruct H2 as [[-> ->]|]; [by left|by right].
  - right. destruct H2 as [[E1 E2]|H2]; [|by eapply better_trans].
    unfold standing in *. by rewrite E1, E2.
Qed.

(** The store only grows. *)
Lemma work_steps_store c c' : rtc work_step c c' -> forall s,
  chain_inv header_hash tx_size checkpoints testnet c s (main_chain c) ->
  exists s', chain_inv header_hash tx_size checkpoints testnet c' s' (main_chain c') /\ s ⊆ s'.
Proof.
  induction 1 as [c|c c1 c2 (v&now&b&r&Ht&E&Hn&_) _ IH]; intros s Hi; [by exists s|].
  destruct (add_block_inv (BV := BV v) header_hash tx_hash tx_size checkpoints testnet c s _ b now
    Hi Ht) as (c'&r'&E1&_&Hu). rewrite E in E1. injection E1 as <- <-.
  destruct (Hu (no_add_incident _ _ _ Hn)) as (s1&l1&Hi1&Hs1&_).
  rewrite <- (main_chain_eq _ _ _ _ _ _ _ Hi1) in Hi1.
  destruct (IH s1 Hi1) as (s2&Hi2&Hs2). exists s2. split; [done|]. by etrans.
Qed.

(** A tip has one history. *)
Lemma tip_determines c c' s s' l l' :
  chain_inv header_hash tx_size checkpoints testnet c s l ->
  chain_inv header_hash tx_size checkpoints testnet c' s' l' -> s ⊆ s' ->
  tip_hash (c_tip c') = tip_hash (c_tip c) -> l' = l.
Proof.
  intros Hi Hi' Hs Htip.
  assert (Hin : forall x y, x ∈ l -> y ∈ l' -> hash_of header_hash y = hash_of header_hash x -> y = x).
  { intros x y Hx Hy E. pose proof (inv_stored _ _ _ _ _ _ _ Hi x Hx) as H1.
    pose proof (inv_stored _ _ _ _ _ _ _ Hi' y Hy) as H2. rewrite E in H2.
    eapply lookup_weaken in H1; [|exact Hs]. congruence. }
  pose proof (inv_tip_hash _ _ _ _ _ _ _ Hi) as Hl. pose proof (inv_tip_hash _ _ _ _ _ _ _ Hi') as Hl'.
  destruct (last l) as [x|] eqn:Ex; [|done]. destruct (last l') as [y|] eqn:Ey; [|done].
  injection Hl as Hl. injection Hl' as Hl'. rewrite last_lookup in Ex, Ey.
  assert (y = x) as -> by (apply Hin; [by eapply list_elem_of_lookup_2..|congruence]).
  pose proof (inv_seg _ _ _ _ _ _ _ Hi _ _ Ex). pose proof (inv_seg _ _ _ _ _ _ _ Hi' _ _ Ey).
  pose proof (lookup_lt_Some _ _ _ Ex). pose proof (lookup_lt_Some _ _ _ Ey).
  assert (Hlen : length l' = length l) by lia.
  assert (Hdown : forall k, (k < length l)%nat ->
    l' !! (pred (length l) - k)%nat = l !! (pred (length l) - k)%nat).
  { induction k as [|k IH]; intros Hk.
    - rewrite Nat.sub_0_r. rewrite <- Hlen at 1. congruence.
    - specialize (IH ltac:(lia)). set (i := (pred (length l) - S k)%nat).
      replace (pred (length l) - k)%nat with (S i) in IH by lia.
      destruct (lookup_lt_is_Some_2 l (S i)) as [z Hz]; [lia|].
      destruct (lookup_lt_is_Some_2 l i) as [a Ha]; [lia|].
      destruct (lookup_lt_is_Some_2 l' i) as [a' Ha']; [lia|]. rewrite Hz in IH.
      pose proof (inv_linked _ _ _ _ _ _ _ Hi i a z Ha Hz) as L1.
      pose proof (inv_linked _ _ _ _ _ _ _ Hi' i a' z Ha' IH) as L2.
      rewrite Ha, Ha'. f_equal. apply Hin; [by eapply list_elem_of_lookup_2..|congruence]. }
  apply list_eq. intros i. destruct (decide (i < length l)%nat) as [Hlt|Hge].
  - specialize (Hdown (pred (length l) - i)%nat ltac:(lia)).
    by replace (pred (length l) - (pred (length l) - i))%nat with i in Hdown by lia.
  - rewrite !lookup_ge_None_2 by lia. done.
Qed.

(** Whatever a node recorded before, after a reorganisation its work is canonical. *)
Lemma reorg_makes_canonical c v now b c' txs :
  reachable c -> typed_block b ->
  add_block (BV := BV v) header_hash tx_hash tx_size checkpoints testnet c now b
    = Ret (c', Ok (AcceptedReorg txs)) ->
  targets_wf (view c') -> 1 + chain_work (main_chain c') <= u128_max -> canonical c'.
Proof.
  intros [s Hi]%reachable_inv Ht E Hw Hm.
  apply (add_block_climbs (BV := BV v) header_hash tx_hash tx_size checkpoints testnet
    c s _ b now c' _ Hi Ht E); try done. left. by exists txs.
Qed.

(** C11: Fork choice only climbs.  From a node without incidents that records the
    canonical work of its chain (every node does after a reorganisation,
    [reorg_makes_canonical], or a restart), over any sequence of [add_block] calls
    without an incident (no failed reorganisation onto a fork that had outgrown the
    tip) in which the work fits 128 bits: the recorded work stays canonical;
    whenever the main chain has changed, the new one has more work, or the same work
    and a smaller tip hash; and once the node has left a chain, its tip never comes
    back. *)
Theorem fork_choice_climbs c c1 c2 :
  reachable c -> canonical c -> rtc work_step c c1 -> rtc work_step c1 c2 ->
  canonical c1
  /\ (main_chain c1 = main_chain c \/ better (standing c) (standing c1))
  /\ (main_chain c1 <> main_chain c -> tip_hash (c_tip c2) <> tip_hash (c_tip c)).
Proof.
  intros Hr Hc H1 H2. destruct (work_steps_climb c c1 H1 Hr Hc) as (Hr1&Hc1&S1).
  destruct (work_steps_climb c1 c2 H2 Hr1 Hc1) as (Hr2&Hc2&S2).
  split; [done|]. split; [by destruct S1 as [[? _]|?]; [left|right]|].
  intros Hne Htip. destruct S1 as [[? _]|S1]; [done|].
  assert (Hb : better (standing c) (standing c2)).
  { destruct S2 as [[E1 E2]|S2]; [|by eapply better_trans].
    unfold standing in *. by rewrite E1, E2. }
  destruct (reachable_inv _ _ _ _ _ _ _ _ c Hr) as [s Hi].
  destruct (work_steps_store c c2 ltac:(by etrans) s Hi) as (s2&Hi2&Hs2).
  pose proof (tip_determines _ _ _ _ _ _ Hi Hi2 Hs2 Htip) as El.
  unfold standing in Hb. rewrite El, Htip in Hb. by apply better_irrefl in Hb.
Qed.
End runs.

(** ** Witness *)

Abbreviation demo_step := (work_step (fun _ : unit => demo_validator) demo_header_hash demo_tx_hash
  demo_tx_size demo_checkpoints true).

Definition byte_targets (c : Chain unit (list Z)) : bool :=
  bool_decide (map_Forall (fun _ b => Forall is_u8 (h_target (header b))) (stored c)).

Lemma demo_targets c : demo_reachable c -> byte_targets c = true -> targets_wf (view c).
Proof.
  intros Hr Hb%bool_decide_eq_true h b Hg. apply (Hb h).
  destruct (reachable_inv _ _ _ _ _ _ _ _ c Hr) as [s Hi].
  rewrite (get_block_store demo_header_hash demo_tx_size demo_checkpoints true c s (main_chain c))
    in Hg by exact Hi.
  destruct (inv_db _ _ _ _ _ _ _ Hi) as (d&Ed&Es&_). unfold stored. rewrite Ed. cbn. by rewrite Es.
Qed.

Lemma demo_work_step c b :
  demo_reachable c -> typed_block b -> forallb smooth (demo_answers c [b]) = true ->
  byte_targets (demo_next c b) = true ->
  1 + chain_work (main_chain (demo_next c b)) <= u128_max -> demo_step c (demo_next c b).
Proof.
  intros Hr Ht Hs Hb Hm.
  assert (Hn : demo_reachable (demo_next c b)).
  { apply (demo_node_reachable [b]); [done|by apply Forall_singleton|done]. }
  pose proof (demo_targets _ Hn Hb) as Hw. cbn in Hs. unfold demo_answer, demo_next in *.
  destruct (demo_add c 0 b) as [[c' r]| |] eqn:E; [|done..].
  exists tt, 0, b, r. split_and!; try done. by destruct r as [[]|].
Qed.

(** The node that went over to [demo_f1] - [demo_f2] returns to the branch of
    [demo_a1] when that gets heavier, and never sees [demo_f2] again as its tip. *)
Definition demo_a3 : Block := demo_mined 3 3 2 (demo_target 9) [demo_coinbase 3].

Lemma fork_choice_climbs_witness :
  main_chain (demo_next demo_reorged demo_a2) = [demo_genesis Testnet; demo_a1; demo_a2]
  /\ better (standing demo_reorged) (standing (demo_next demo_reorged demo_a2))
  /\ tip_hash (c_tip (demo_next (demo_next demo_reorged demo_a2) demo_a3))
     <> tip_hash (c_tip demo_reorged).
Proof.
  assert (H1 : demo_step demo_reorged (demo_next demo_reorged demo_a2)).
  { apply demo_work_step; [apply demo_reorged_reachable| |vm_compute; reflexivity..|].
    - apply demo_typed; [lia|by repeat constructor].
    - vm_compute. discriminate. }
  assert (Hm : main_chain (demo_next demo_reorged demo_a2) = [demo_genesis Testnet; demo_a1; demo_a2])
    by (vm_compute; reflexivity).
  assert (Hne : main_chain (demo_next demo_reorged demo_a2) <> main_chain demo_reorged)
    by (rewrite Hm; vm_compute; discriminate).
  destruct (fork_choice_climbs (fun _ : unit => demo_validator) demo_header_hash demo_tx_hash
    demo_tx_size demo_checkpoints true demo_genesis (fun _ => [0]) demo_reorged
    (demo_next demo_reorged demo_a2) (demo_next (demo_next demo_reorged demo_a2) demo_a3))
    as (_&[H|H]&H2).
  - apply demo_reorged_reachable.
  - vm_compute. reflexivity.
  - by apply rtc_once.
  - apply rtc_once, demo_work_step; [| |vm_compute; reflexivity..|vm_compute; discriminate].
    + apply (work_step_reachable _ _ _ _ _ _ _ _ _ _ demo_reorged_reachable H1).
    + apply demo_typed; [lia|by repeat constructor].
  - destruct (Hne H).
  - split; [exact Hm|]. split; [exact H|exact (H2 Hne)].
Defined.
