(* ===== verification/Phase2.v ===== *)
(** * The phase-2 privacy stores

    [storage/kernels.rs], [storage/spark.rs], [storage/shielded.rs] and the two
    helpers of [chain.rs] that checkpoint and rewind the three stores together.
    A store keeps its contents in memory, a stack of at most a thousand
    checkpoints (the newest last, as in the source's [Vec]s) and, when it was
    opened on a database, one tree per collection.  A tree is a typed map: its
    8-byte big-endian keys are the numbers they encode, so that key order is
    numeric order.  A failed tree write panics ([None]); a failed tree removal
    during a rewind is skipped (with a log line for kernels, silently for the other
    two stores), so [rewind] takes the predicates that say which removals succeed.

    The incremental Merkle tree of the shielded store ([bridgetree]) is third-party
    code: its operations are the class [BridgeTree], its documented behaviour the
    laws [BridgeTreeLaws].  BLAKE3 is the argument [blake3]. *)

From stdpp Require Import prelude gmap sorting.
From Stdlib Require Import ZArith Lia.
From S2P Require Import Prelude Difficulty Block Chain.

Local Open Scope Z_scope.

(** ** Trees and checkpoint stacks *)

Definition MAX_REORG_CHECKPOINTS : Z := 1000.

(** [cps.push(x); if cps.len() > MAX { cps.remove(0) }]. *)
Definition push_checkpoint {A} (cps : list A) (x : A) : list A :=
  let cps := cps ++ [x] in
  if MAX_REORG_CHECKPOINTS <? Z.of_nat (length cps) then drop 1 cps else cps.

(** [Vec::pop]. *)
Definition pop_checkpoint {A} (cps : list A) : option (A * list A) :=
  match reverse cps with [] => None | x :: r => Some (x, reverse r) end.

Section trees.
Context {K V : Type} `{Countable K}.

(** [Tree::insert] of a store that may be in memory only: [None] is the panic. *)
Definition tree_put (wr : bool) (t : option (gmap K V)) (k : K) (v : V)
  : option (option (gmap K V)) :=
  match t with
  | None => Some None
  | Some d => if wr then Some (Some (<[k := v]> d)) else None
  end.

(** The removals of a rewind, the ones [rm] rejects being skipped. *)
Definition tree_remove_all (rm : K -> bool) (ks : list K) (d : gmap K V) : gmap K V :=
  foldl (fun d k => if rm k then delete k d else d) d ks.
End trees.

(** ** Kernels *)

Record MwKernel := mkMwKernel {
  mk_excess : list Z; mk_signature : list Z; mk_fee : Z; mk_height : Z }.

Record KernelCheckpoint := mkKernelCheckpoint { kc_height : Z; kc_kernels_len : nat }.

Record KernelStore := mkKernelStore {
  ks_kernels : list MwKernel;
  ks_root : Hash;
  ks_checkpoints : list KernelCheckpoint;
  ks_persistence : option (gmap Z MwKernel);
}.

Module Kernels.
Section kernels.
Context (blake3 : list Z -> Hash).

Definition compute_root (kernels : list MwKernel) : Hash :=
  blake3 (concat ((fun k => mk_excess k ++ le_bytes 8 (mk_height k)) <$> kernels)).

Definition new : KernelStore := mkKernelStore [] (compute_root []) [] None.

Definition open_with_db (tree : gmap Z MwKernel) : KernelStore :=
  let kernels := (tree_rows tree).*2 in
  mkKernelStore kernels (compute_root kernels) [] (Some tree).

Definition append (wr : bool) (s : KernelStore) (kernel : MwKernel) : option KernelStore :=
  let idx := Z.of_nat (length (ks_kernels s)) in
  t ← tree_put wr (ks_persistence s) idx kernel;
  let kernels := ks_kernels s ++ [kernel] in
  Some (mkKernelStore kernels (compute_root kernels) (ks_checkpoints s) t).

Definition checkpoint_at_height (s : KernelStore) (height : Z) : KernelStore :=
  mkKernelStore (ks_kernels s) (ks_root s)
    (push_checkpoint (ks_checkpoints s)
       (mkKernelCheckpoint height (length (ks_kernels s))))
    (ks_persistence s).

Definition checkpoint_count (s : KernelStore) : nat := length (ks_checkpoints s).

Definition rewind (rm : Z -> bool) (s : KernelStore) : bool * KernelStore :=
  match pop_checkpoint (ks_checkpoints s) with
  | None => (false, s)
  | Some (cp, cps) =>
      let old_len := length (ks_kernels s) in
      let split_at := (kc_kernels_len cp `min` old_len)%nat in
      let kernels := take split_at (ks_kernels s) in
      (true, mkKernelStore kernels (compute_root kernels) cps
         (tree_remove_all rm (seqZ (Z.of_nat split_at) (Z.of_nat (old_len - split_at)))
            <$> ks_persistence s))
  end.

Definition current_root (s : KernelStore) : Hash := ks_root s.
End kernels.
End Kernels.

(** ** Spark coins *)

Record SparkCoinEntry := mkSparkCoin { sc_coin_id : Z; sc_commitment : list Z; sc_height : Z }.

Record SparkCheckpoint := mkSparkCheckpoint { sp_height : Z; sp_coins_len : nat }.

Record SparkStore := mkSparkStore {
  ss_coins : list SparkCoinEntry;
  ss_spent_serials : gmap (list Z) Z;
  ss_root : Hash;
  ss_checkpoints : list SparkCheckpoint;
  ss_persistence : option (gmap Z SparkCoinEntry * gmap (list Z) Z);
}.

Module Spark.
Section spark.
Context (blake3 : list Z -> Hash).

Definition compute_root (coins : list SparkCoinEntry) : Hash :=
  blake3 (concat (sc_commitment <$> coins)).

Definition new : SparkStore := mkSparkStore [] ∅ (compute_root []) [] None.

Definition open_with_db (coins_tree : gmap Z SparkCoinEntry) (serials_tree : gmap (list Z) Z)
  : SparkStore :=
  let coins := (tree_rows coins_tree).*2 in
  mkSparkStore coins serials_tree (compute_root coins) [] (Some (coins_tree, serials_tree)).

Definition add_coin (wr : bool) (s : SparkStore) (entry : SparkCoinEntry) : option SparkStore :=
  t ← tree_put wr (fst <$> ss_persistence s) (sc_coin_id entry) entry;
  let coins := ss_coins s ++ [entry] in
  Some (mkSparkStore coins (ss_spent_serials s) (compute_root coins) (ss_checkpoints s)
          (c ← t; p ← ss_persistence s; Some (c, p.2))).

Definition mark_serial_spent (wr : bool) (s : SparkStore) (serial : list Z) (height : Z)
  : option SparkStore :=
  t ← tree_put wr (snd <$> ss_persistence s) serial height;
  Some (mkSparkStore (ss_coins s) (<[serial := height]> (ss_spent_serials s)) (ss_root s)
          (ss_checkpoints s) (n ← t; p ← ss_persistence s; Some (p.1, n))).

Definition checkpoint_at_height (s : SparkStore) (height : Z) : SparkStore :=
  mkSparkStore (ss_coins s) (ss_spent_serials s) (ss_root s)
    (push_checkpoint (ss_checkpoints s) (mkSparkCheckpoint height (length (ss_coins s))))
    (ss_persistence s).

Definition checkpoint_count (s : SparkStore) : nat := length (ss_checkpoints s).

Definition rewind (rm_coin : Z -> bool) (rm_serial : list Z -> bool) (s : SparkStore)
  : bool * SparkStore :=
  match pop_checkpoint (ss_checkpoints s) with
  | None => (false, s)
  | Some (restore, cps) =>
      let split_at := (sp_coins_len restore `min` length (ss_coins s))%nat in
      let removed_coins := drop split_at (ss_coins s) in
      let coins := take split_at (ss_coins s) in
      let removed_serials :=
        (filter (fun e => sp_height restore <= e.2) (map_to_list (ss_spent_serials s))).*1 in
      let serials := foldl (fun m k => delete k m) (ss_spent_serials s) removed_serials in
      (true, mkSparkStore coins serials (compute_root coins) cps
         ((fun p => (tree_remove_all rm_coin (sc_coin_id <$> removed_coins) p.1,
                     tree_remove_all rm_serial removed_serials p.2)) <$> ss_persistence s))
  end.

Definition is_serial_spent (s : SparkStore) (serial : list Z) : bool :=
  bool_decide (is_Some (ss_spent_serials s !! serial)).

Definition size (s : SparkStore) : nat := length (ss_coins s).
Definition current_root (s : SparkStore) : Hash := ss_root s.
End spark.
End Spark.

(** ** Shielded notes *)

(** The operations of [bridgetree::BridgeTree<ShieldedHash, u64, 32>] the store
    calls. *)
Class BridgeTree (T : Type) := {
  bt_new : T;
  bt_append : T -> Hash -> T;
  bt_position : T -> option Z;
  bt_checkpoint : T -> Z -> bool * T;
  bt_rewind : T -> bool * T;
  bt_root : T -> option Hash;
}.

(** The documented behaviour: a tree is its leaves and the leaves at each retained
    checkpoint, the newest first; a checkpoint whose identifier does not exceed the
    last one is declined; a rewind returns to the newest checkpoint and drops it;
    the root is a function of the leaves. *)
Class BridgeTreeLaws (T : Type) `{!BridgeTree T} := {
  bt_leaves : T -> list Hash;
  bt_past : T -> list (Z * list Hash);
  bt_new_leaves : bt_leaves bt_new = [];
  bt_new_past : bt_past bt_new = [];
  bt_append_leaves t x : Z.of_nat (length (bt_leaves t)) < 2 ^ 32 ->
    bt_leaves (bt_append t x) = bt_leaves t ++ [x];
  bt_append_past t x : bt_past (bt_append t x) = bt_past t;
  bt_position_last t :
    bt_position t = if decide (bt_leaves t = []) then None
                    else Some (Z.of_nat (length (bt_leaves t)) - 1);
  bt_checkpoint_newer t id :
    (forall e, head (bt_past t) = Some e -> e.1 < id) ->
    (bt_checkpoint t id).1 = true
    /\ bt_leaves (bt_checkpoint t id).2 = bt_leaves t
    /\ bt_past (bt_checkpoint t id).2
       = take (Z.to_nat MAX_REORG_CHECKPOINTS) ((id, bt_leaves t) :: bt_past t);
  bt_checkpoint_declined t id e :
    head (bt_past t) = Some e -> id <= e.1 -> bt_checkpoint t id = (false, t);
  bt_rewind_none t : bt_past t = [] -> bt_rewind t = (false, t);
  bt_rewind_some t e r : bt_past t = e :: r ->
    (bt_rewind t).1 = true /\ bt_leaves (bt_rewind t).2 = e.2 /\ bt_past (bt_rewind t).2 = r;
  bt_root_leaves t t' : bt_leaves t = bt_leaves t' -> bt_root t = bt_root t';
}.

Record NoteCommitmentEntry := mkNote {
  nc_commitment : list Z; nc_height : Z; nc_tx_index : Z; nc_position : Z }.

Record ShieldedCheckpoint := mkShieldedCheckpoint { sh_height : Z; sh_entries_len : nat }.

Record ShieldedStore {T : Type} := mkShieldedStore {
  sd_tree : T;
  sd_entries : gmap Z NoteCommitmentEntry;
  sd_nullifiers : gmap (list Z) Z;
  sd_checkpoints : list ShieldedCheckpoint;
  sd_persistence : option (gmap Z NoteCommitmentEntry * gmap (list Z) Z);
}.
Arguments ShieldedStore : clear implicits.

Module Shielded.
Section shielded.
Context {T : Type} `{!BridgeTree T}.
Implicit Types s : ShieldedStore T.

Definition new : ShieldedStore T := mkShieldedStore _ bt_new ∅ ∅ [] None.

(** One leaf appended per row, in position order. *)
Definition open_with_db (entries_tree : gmap Z NoteCommitmentEntry)
    (nullifiers_tree : gmap (list Z) Z) : ShieldedStore T :=
  let loaded := tree_rows entries_tree in
  let tree := foldl (fun t e => bt_append t (nc_commitment e.2)) bt_new loaded in
  let entries_map := foldl (fun m e => <[e.1 := e.2]> m) ∅ loaded in
  mkShieldedStore _ tree entries_map nullifiers_tree []
    (Some (entries_tree, nullifiers_tree)).

Definition append_commitment (wr : bool) s (entry : NoteCommitmentEntry)
  : option (Z * ShieldedStore T) :=
  let tree := bt_append (sd_tree s) (nc_commitment entry) in
  let position := default 0 (bt_position tree) in
  let entry := mkNote (nc_commitment entry) (nc_height entry) (nc_tx_index entry) position in
  t ← tree_put wr (fst <$> sd_persistence s) position entry;
  Some (position,
    mkShieldedStore _ tree (<[position := entry]> (sd_entries s)) (sd_nullifiers s)
      (sd_checkpoints s) (c ← t; p ← sd_persistence s; Some (c, p.2))).

Definition checkpoint_at_height s (height : Z) : ShieldedStore T :=
  let entries_len := size (sd_entries s) in
  let '(tree_checkpointed, tree) := bt_checkpoint (sd_tree s) height in
  mkShieldedStore _ tree (sd_entries s) (sd_nullifiers s)
    (if tree_checkpointed
     then push_checkpoint (sd_checkpoints s) (mkShieldedCheckpoint height entries_len)
     else sd_checkpoints s)
    (sd_persistence s).

Definition checkpoint_count s : nat := length (sd_checkpoints s).

Definition rewind (rm_entry : Z -> bool) (rm_nullifier : list Z -> bool) s
  : bool * ShieldedStore T :=
  match pop_checkpoint (sd_checkpoints s) with
  | None => (false, s)
  | Some (restore, cps) =>
      let '(tree_rewound, tree) := bt_rewind (sd_tree s) in
      let removed_positions :=
        filter (fun pos => Z.of_nat (sh_entries_len restore) <= pos)
          (map_to_list (sd_entries s)).*1 in
      let removed_nullifiers :=
        (filter (fun e => sh_height restore <= e.2) (map_to_list (sd_nullifiers s))).*1 in
      (tree_rewound,
       mkShieldedStore _ tree
         (foldl (fun m k => delete k m) (sd_entries s) removed_positions)
         (foldl (fun m k => delete k m) (sd_nullifiers s) removed_nullifiers)
         cps
         ((fun p => (tree_remove_all rm_entry removed_positions p.1,
                     tree_remove_all rm_nullifier removed_nullifiers p.2))
            <$> sd_persistence s))
  end.

Definition mark_nullifier_spent (wr : bool) s (nullifier : list Z) (height : Z)
  : option (bool * ShieldedStore T) :=
  if decide (is_Some (sd_nullifiers s !! nullifier)) then Some (false, s)
  else
    t ← tree_put wr (snd <$> sd_persistence s) nullifier height;
    Some (true,
      mkShieldedStore _ (sd_tree s) (sd_entries s) (<[nullifier := height]> (sd_nullifiers s))
        (sd_checkpoints s) (n ← t; p ← sd_persistence s; Some (p.1, n))).

Definition is_nullifier_spent s (nullifier : list Z) : bool :=
  bool_decide (is_Some (sd_nullifiers s !! nullifier)).

Definition tree_size s : nat := size (sd_entries s).

(** [empty_root] is the root the tree library gives an empty tree. *)
Definition current_root (empty_root : Hash) s : Hash := default empty_root (bt_root (sd_tree s)).

Definition entry_at s (position : Z) : option NoteCommitmentEntry := sd_entries s !! position.
End shielded.
End Shielded.

(** ** The three stores of a node *)

Record Phase2 {T : Type} := mkPhase2 {
  p2_shielded : option (ShieldedStore T);
  p2_spark : option SparkStore;
  p2_kernel : option KernelStore;
}.
Arguments Phase2 : clear implicits.
Arguments mkPhase2 {T}.

(** Which removals from the trees succeed during a rewind. *)
Record Removals := mkRemovals {
  rm_entry : Z -> bool;
  rm_nullifier : list Z -> bool;
  rm_coin : Z -> bool;
  rm_serial : list Z -> bool;
  rm_kernel : Z -> bool;
}.

Definition all_removed : Removals :=
  mkRemovals (fun _ => true) (fun _ => true) (fun _ => true) (fun _ => true) (fun _ => true).

Section phase2.
Context (blake3 : list Z -> Hash) {T : Type} `{!BridgeTree T}.

(** [Chain::checkpoint_phase2_stores]. *)
Definition phase2_checkpoint (p : Phase2 T) (height : Z) : Phase2 T :=
  mkPhase2 ((fun s => Shielded.checkpoint_at_height s height) <$> p2_shielded p)
    ((fun s => Spark.checkpoint_at_height s height) <$> p2_spark p)
    ((fun s => Kernels.checkpoint_at_height s height) <$> p2_kernel p).

(** The stack lengths the debug assertion of [checkpoint_phase2_stores] compares. *)
Definition phase2_in_step (p : Phase2 T) : bool :=
  match p2_shielded p, p2_spark p, p2_kernel p with
  | Some sh, Some sp, Some kr =>
      bool_decide (Shielded.checkpoint_count sh = Spark.checkpoint_count sp
                   /\ Spark.checkpoint_count sp = Kernels.checkpoint_count kr)
  | _, _, _ => true
  end.

(** [Chain::rewind_phase2_stores], with the stores that could not be rolled back
    (the warnings). *)
Definition phase2_rewind (rm : Removals) (p : Phase2 T) : Phase2 T * list bool :=
  let sh := Shielded.rewind (rm_entry rm) (rm_nullifier rm) <$> p2_shielded p in
  let sp := Spark.rewind blake3 (rm_coin rm) (rm_serial rm) <$> p2_spark p in
  let kr := Kernels.rewind blake3 (rm_kernel rm) <$> p2_kernel p in
  (mkPhase2 (snd <$> sh) (snd <$> sp) (snd <$> kr),
   omap (fun o => o) [fst <$> sh; fst <$> sp; fst <$> kr]).

(** The roots a header commits to, zero for an absent store. *)
Definition shielded_root (empty_root : Hash) (p : Phase2 T) : Hash :=
  default (replicate 32 0) (Shielded.current_root empty_root <$> p2_shielded p).
Definition spark_root (p : Phase2 T) : Hash :=
  default (replicate 32 0) (Spark.current_root <$> p2_spark p).
Definition mw_kernel_root (p : Phase2 T) : Hash :=
  default (replicate 32 0) (Kernels.current_root <$> p2_kernel p).

(** What the chain needs of the stores; [rm] says which removals succeed when the
    block of a height is disconnected. *)
#[local] Instance phase2_stores (rm : Z -> Removals) : Phase2Stores (Phase2 T) :=
  {| checkpoint_phase2_stores := phase2_checkpoint;
     rewind_phase2_stores := fun p height => (phase2_rewind (rm height) p).1 |}.
End phase2.
