(* ===== verification/Phase2Rules.v ===== *)
(** * The phase-2 stores refine a journal

    The abstract machine is a [Journal]: the current contents of the three stores
    and the contents at each retained checkpoint.  Connecting a block pushes the
    contents, disconnecting pops them.  The stores keep far less (list lengths and
    heights); [store_step_refines] shows that, for the operations [op_allowed]
    admits, they nevertheless behave as the journal in memory whatever tree removals
    fail, and on disk as long as none does; a removal that failed leaves a row too
    many, never one too few. *)

From stdpp Require Import prelude gmap sorting fin_maps.
From Stdlib Require Import ZArith Lia.
From S2P Require Import Prelude Difficulty Block Chain Phase2.

Local Open Scope Z_scope.

(** ** Undo stacks *)

Section undo.
Context {K C : Type} (fits : K -> C -> Prop) (restore : K -> C -> C).

(** Popping the checkpoints one after the other gives the recorded contents. *)
Fixpoint undoes (ks : list K) (c : C) (past : list C) : Prop :=
  match ks, past with
  | [], [] => True
  | k :: ks, p :: past => fits k c /\ restore k c = p /\ undoes ks p past
  | _, _ => False
  end.

Lemma undoes_take n : forall ks c past,
  undoes ks c past -> undoes (take n ks) c (take n past).
Proof.
  induction n as [|n IH]; intros [|k ks] c [|p past]; cbn; try done.
  intros (?&?&?). auto.
Qed.

(** A write that the newest checkpoint undoes keeps the stack valid. *)
Lemma undoes_write ks c c' past :
  (forall k, head ks = Some k -> fits k c -> fits k c' /\ restore k c' = restore k c) ->
  undoes ks c past -> undoes ks c' past.
Proof.
  destruct ks as [|k ks], past as [|p past]; cbn; try done.
  intros Hw (Hf&Hr&Hu). destruct (Hw k eq_refl Hf) as [? E]. by rewrite E.
Qed.
End undo.

Lemma reverse_push_checkpoint {A} (cps : list A) x :
  Z.of_nat (length cps) <= MAX_REORG_CHECKPOINTS ->
  reverse (push_checkpoint cps x) = take (Z.to_nat MAX_REORG_CHECKPOINTS) (x :: reverse cps).
Proof.
  intros Hl. unfold push_checkpoint. rewrite <- (reverse_snoc cps x).
  rewrite length_app; cbn [length].
  destruct (_ <? _) eqn:E.
  - apply Z.ltb_lt in E. assert (length cps = Z.to_nat MAX_REORG_CHECKPOINTS) as Hn by lia.
    rewrite <- Hn. destruct cps as [|y r]; [cbn in Hn; unfold MAX_REORG_CHECKPOINTS in *; lia|].
    cbn [app drop]. rewrite (reverse_cons (r ++ [x]) y).
    by rewrite take_app_length' by (rewrite length_reverse, length_app; cbn; lia).
  - apply Z.ltb_ge in E. rewrite take_ge; [done|]. rewrite length_reverse, length_app; cbn. lia.
Qed.

Lemma pop_push_checkpoint {A} (cps : list A) x :
  exists r, pop_checkpoint (push_checkpoint cps x) = Some (x, r).
Proof.
  unfold pop_checkpoint, push_checkpoint. destruct (_ <? _) eqn:E.
  - destruct cps as [|y r].
    { apply Z.ltb_lt in E. cbn in E. unfold MAX_REORG_CHECKPOINTS in E. lia. }
    change (drop 1 ((y :: r) ++ [x])) with (r ++ [x]). rewrite reverse_snoc. eauto.
  - rewrite reverse_snoc. eauto.
Qed.

Lemma pop_checkpoint_spec {A} (cps : list A) :
  match reverse cps with
  | [] => pop_checkpoint cps = None
  | x :: r => pop_checkpoint cps = Some (x, reverse r)
  end.
Proof. unfold pop_checkpoint. by destruct (reverse cps). Qed.

(** ** Removing keys *)

Section removal.
Context {K V : Type} `{Countable K}.

Lemma foldl_delete_lookup (ks : list K) : forall (m : gmap K V) i,
  foldl (fun m k => delete k m) m ks !! i = if decide (i ∈ ks) then None else m !! i.
Proof.
  induction ks as [|k ks IH]; intros m i; cbn [foldl].
  - by rewrite decide_False by apply not_elem_of_nil.
  - rewrite IH. destruct (decide (i ∈ ks)), (decide (i ∈ k :: ks)) as [Hk|Hk]; try done.
    + exfalso. apply Hk. by right.
    + apply elem_of_cons in Hk as [->|]; [by rewrite lookup_delete_eq|done].
    + rewrite lookup_delete_ne; [done|]. intros ->. apply Hk. by left.
Qed.

(** A tree holds at least the contents, and exactly them while nothing has failed. *)
Definition disk_rel (clean : Prop) (m d : gmap K V) : Prop := m ⊆ d /\ (clean -> d = m).

Lemma disk_same clean (m : gmap K V) : disk_rel clean m m.
Proof. by split. Qed.

Lemma disk_insert clean (m d : gmap K V) k v :
  disk_rel clean m d -> disk_rel clean (<[k := v]> m) (<[k := v]> d).
Proof. intros [H1 H2]. split; [by apply insert_mono|]. intros Hc. by rewrite (H2 Hc). Qed.

Lemma disk_weaken (clean clean' : Prop) (m d : gmap K V) :
  (clean' -> clean) -> disk_rel clean m d -> disk_rel clean' m d.
Proof. intros Hc [H1 H2]. split; auto. Qed.

Lemma disk_remove (rm : K -> bool) ks : forall (clean : Prop) (m d : gmap K V),
  disk_rel clean m d ->
  disk_rel (clean /\ forall k, rm k = true) (foldl (fun m k => delete k m) m ks)
    (tree_remove_all rm ks d).
Proof.
  induction ks as [|k ks IH]; intros clean m d [H1 H2]; cbn [foldl tree_remove_all].
  - split; [done|]. intros [Hc _]. auto.
  - unfold tree_remove_all in *. cbn [foldl].
    assert (Hd : disk_rel (clean /\ forall k, rm k = true) (delete k m)
      (if rm k then delete k d else d)).
    { split.
      - destruct (rm k); [by apply delete_mono|].
        etrans; [apply delete_subseteq|exact H1].
      - intros [Hc Hr]. by rewrite Hr, (H2 Hc). }
    eapply disk_weaken; [|apply IH; exact Hd]. tauto.
Qed.

(** Deleting the keys whose value satisfies [P] is a filter. *)
Lemma delete_filtered (P : V -> Prop) `{!forall v, Decision (P v)} (m : gmap K V) :
  foldl (fun m k => delete k m) m ((filter (fun e => P e.2) (map_to_list m)).*1)
  = filter (fun e => ~ P e.2) m.
Proof.
  apply map_eq. intros i. rewrite foldl_delete_lookup, map_lookup_filter.
  assert (i ∈ (filter (fun e => P e.2) (map_to_list m)).*1 <-> exists v, m !! i = Some v /\ P v)
    as Hin.
  { rewrite list_elem_of_fmap. split.
    - intros ([k v]&->&Hf). apply list_elem_of_filter in Hf as [? Hf].
      apply elem_of_map_to_list in Hf. eauto.
    - intros (v&Hv&HP). exists (i, v). split; [done|]. apply list_elem_of_filter.
      split; [done|]. by apply elem_of_map_to_list. }
  destruct (decide _) as [Hd|Hd].
  - apply Hin in Hd as (v&Hv&HP). rewrite Hv. cbn. by rewrite option_guard_False by tauto.
  - destruct (m !! i) as [v|] eqn:Hv; cbn; [|done].
    rewrite option_guard_True; [done|]. intros HP. apply Hd, Hin. eauto.
Qed.
End removal.

(** Numbered rows: removing the rows from [n] on truncates the list. *)
Lemma remove_rows {V} (l : list V) (n : nat) (ks : list Z) :
  (forall i, is_Some (map_seqZ (M := gmap Z V) 0 l !! i) -> i ∈ ks <-> Z.of_nat n <= i) ->
  foldl (fun m k => delete k m) (map_seqZ 0 l) ks = (map_seqZ 0 (take n l) : gmap Z V).
Proof.
  intros Hks. apply map_eq. intros i. rewrite foldl_delete_lookup.
  destruct ((map_seqZ 0 l : gmap Z V) !! i) as [v|] eqn:E.
  - pose proof E as E0. apply lookup_map_seqZ_Some in E as [Hi E].
    specialize (Hks i (ex_intro _ v E0)).
    destruct (decide _) as [Hd|Hd].
    + apply Hks in Hd. symmetry. apply lookup_map_seqZ_None.
      right. rewrite length_take. lia.
    + symmetry. apply lookup_map_seqZ_Some. split; [done|].
      rewrite lookup_take_lt; [done|].
      destruct (Z.le_gt_cases (Z.of_nat n) i); [tauto|lia].
  - apply lookup_map_seqZ_None in E.
    assert ((map_seqZ 0 (take n l) : gmap Z V) !! i = None) as ->; [|by destruct (decide _)].
    apply lookup_map_seqZ_None. rewrite length_take. lia.
Qed.

Lemma map_seqZ_snoc0 {V} (l : list V) v :
  (map_seqZ 0 (l ++ [v]) : gmap Z V) = <[Z.of_nat (length l) := v]> (map_seqZ 0 l).
Proof. by rewrite map_seqZ_snoc, Z.add_0_l. Qed.

Lemma seqZ_sorted n : forall a, StronglySorted Z.lt (seqZ a (Z.of_nat n)).
Proof.
  induction n as [|n IH]; intros a; [constructor|].
  rewrite seqZ_cons by lia. replace (Z.pred _) with (Z.of_nat n) by lia.
  constructor; [apply IH|]. apply Forall_seqZ. lia.
Qed.

(** The rows of a numbered tree come back in order. *)
Lemma tree_rows_seq {V} (l : list V) :
  tree_rows (map_seqZ 0 l) = zip (seqZ 0 (Z.of_nat (length l))) l.
Proof.
  rewrite <- list_to_map_zip_seqZ. apply tree_rows_of.
  rewrite fst_zip by (rewrite length_seqZ; lia). apply seqZ_sorted.
Qed.

Lemma tree_rows_values {V} (l : list V) : (tree_rows (map_seqZ 0 l)).*2 = l.
Proof. rewrite tree_rows_seq. apply snd_zip. rewrite length_seqZ. lia. Qed.

(** ** The journal *)

Record Content := mkContent {
  cn_notes : list NoteCommitmentEntry;
  cn_nullifiers : gmap (list Z) Z;
  cn_coins : list SparkCoinEntry;
  cn_serials : gmap (list Z) Z;
  cn_kernels : list MwKernel;
}.

Record Journal := mkJournal { j_now : Content; j_past : list (Z * Content) }.

Inductive store_op :=
  | OpNote (e : NoteCommitmentEntry)
  | OpNullifier (n : list Z) (height : Z)
  | OpCoin (e : SparkCoinEntry)
  | OpSerial (serial : list Z) (height : Z)
  | OpKernel (k : MwKernel)
  | OpConnect (height : Z)
  | OpDisconnect (height : Z) (rm : Removals).

Definition at_position (e : NoteCommitmentEntry) (pos : Z) : NoteCommitmentEntry :=
  mkNote (nc_commitment e) (nc_height e) (nc_tx_index e) pos.

(** The effect of a write on the contents. *)
Definition content_write (c : Content) (op : store_op) : Content :=
  let '(mkContent notes nfs coins serials kernels) := c in
  match op with
  | OpNote e => mkContent (notes ++ [at_position e (Z.of_nat (length notes))])
                  nfs coins serials kernels
  | OpNullifier n h =>
      mkContent notes (if decide (is_Some (nfs !! n)) then nfs else <[n := h]> nfs)
        coins serials kernels
  | OpCoin e => mkContent notes nfs (coins ++ [e]) serials kernels
  | OpSerial s h => mkContent notes nfs coins (<[s := h]> serials) kernels
  | OpKernel k => mkContent notes nfs coins serials (kernels ++ [k])
  | OpConnect _ | OpDisconnect _ _ => c
  end.

Definition journal_step (j : Journal) (op : store_op) : Journal :=
  match op with
  | OpConnect h =>
      mkJournal (j_now j) (take (Z.to_nat MAX_REORG_CHECKPOINTS) ((h, j_now j) :: j_past j))
  | OpDisconnect _ _ =>
      match j_past j with [] => j | e :: past => mkJournal e.2 past end
  | _ => mkJournal (content_write (j_now j) op) (j_past j)
  end.

Definition top_height (j : Journal) : option Z := fst <$> head (j_past j).

(** The callers' discipline: heights grow along the chain, spends carry the height
    of the block being connected, coins are numbered in order and a serial is
    spent once. *)
Definition op_allowed (j : Journal) (op : store_op) : Prop :=
  match op with
  | OpNote _ => Z.of_nat (length (cn_notes (j_now j))) < 2 ^ 32
  | OpNullifier _ h => forall t, top_height j = Some t -> t <= h
  | OpCoin e => sc_coin_id e = Z.of_nat (length (cn_coins (j_now j)))
  | OpSerial s h => cn_serials (j_now j) !! s = None
                    /\ forall t, top_height j = Some t -> t <= h
  | OpKernel _ => True
  | OpConnect h => (forall t, top_height j = Some t -> t < h)
                   /\ map_Forall (fun _ x => x < h) (cn_nullifiers (j_now j))
                   /\ map_Forall (fun _ x => x < h) (cn_serials (j_now j))
  | OpDisconnect _ _ => True
  end.

(** Operations applied one after the other, each allowed where it is applied. *)
Fixpoint ops_allowed (j : Journal) (ops : list store_op) : Prop :=
  match ops with
  | [] => True
  | op :: ops => op_allowed j op /\ ops_allowed (journal_step j op) ops
  end.

(** No removal fails. *)
Definition removes_all (rm : Removals) : Prop :=
  (forall k, rm_entry rm k = true) /\ (forall k, rm_nullifier rm k = true)
  /\ (forall k, rm_coin rm k = true) /\ (forall k, rm_serial rm k = true)
  /\ forall k, rm_kernel rm k = true.

Definition op_clean (op : store_op) : Prop :=
  match op with OpDisconnect _ rm => removes_all rm | _ => True end.

(** ** The stores as an implementation of the journal *)

Section store_step.
Context (blake3 : list Z -> Hash) {T : Type} `{!BridgeTree T}.

Definition on_store {S} (f : S -> option S) (o : option S) : option (option S) :=
  match o with None => Some None | Some s => Some <$> f s end.

Definition store_step (p : Phase2 T) (op : store_op) : option (Phase2 T) :=
  match op with
  | OpNote e =>
      s ← on_store (fun s => snd <$> Shielded.append_commitment true s e) (p2_shielded p);
      Some (mkPhase2 s (p2_spark p) (p2_kernel p))
  | OpNullifier n h =>
      s ← on_store (fun s => snd <$> Shielded.mark_nullifier_spent true s n h) (p2_shielded p);
      Some (mkPhase2 s (p2_spark p) (p2_kernel p))
  | OpCoin e =>
      s ← on_store (fun s => Spark.add_coin blake3 true s e) (p2_spark p);
      Some (mkPhase2 (p2_shielded p) s (p2_kernel p))
  | OpSerial n h =>
      s ← on_store (fun s => Spark.mark_serial_spent true s n h) (p2_spark p);
      Some (mkPhase2 (p2_shielded p) s (p2_kernel p))
  | OpKernel k =>
      s ← on_store (fun s => Kernels.append blake3 true s k) (p2_kernel p);
      Some (mkPhase2 (p2_shielded p) (p2_spark p) s)
  | OpConnect h => Some (phase2_checkpoint p h)
  | OpDisconnect _ rm => Some (phase2_rewind blake3 rm p).1
  end.

Fixpoint store_run (p : Phase2 T) (ops : list store_op) : option (Phase2 T) :=
  match ops with [] => Some p | op :: ops => p ← store_step p op; store_run p ops end.
End store_step.

(** *** Kernels *)

Definition kernel_fits (k : KernelCheckpoint) (l : list MwKernel) : Prop :=
  (kc_kernels_len k <= length l)%nat.
Definition kernel_restore (k : KernelCheckpoint) (l : list MwKernel) : list MwKernel :=
  take (kc_kernels_len k) l.

Record kernel_rel (blake3 : list Z -> Hash) (clean : Prop) (s : KernelStore) (l : list MwKernel)
    (past : list (list MwKernel)) : Prop := {
  kr_kernels : ks_kernels s = l;
  kr_root : ks_root s = Kernels.compute_root blake3 l;
  kr_past : undoes kernel_fits kernel_restore (reverse (ks_checkpoints s)) l past;
  kr_disk : forall d, ks_persistence s = Some d -> disk_rel clean (map_seqZ 0 l) d;
}.

Lemma undoes_length {K C} fits (restore : K -> C -> C) ks : forall c past,
  undoes fits restore ks c past -> length ks = length past.
Proof.
  induction ks as [|k ks IH]; intros c [|p past]; cbn; try done.
  intros (_&_&Hu). f_equal. eauto.
Qed.

Lemma kernel_weaken blake3 (clean clean' : Prop) s l past :
  (clean' -> clean) -> kernel_rel blake3 clean s l past -> kernel_rel blake3 clean' s l past.
Proof. intros Hc [? ? ? Hd]. split; eauto using disk_weaken. Qed.

Section kernels.
Context (blake3 : list Z -> Hash) (clean : Prop).

Lemma kernel_append s l past k :
  kernel_rel blake3 clean s l past ->
  exists s', Kernels.append blake3 true s k = Some s' /\ kernel_rel blake3 clean s' (l ++ [k]) past.
Proof.
  intros [E1 E2 Hu Hd]. unfold Kernels.append, tree_put. rewrite E1.
  destruct (ks_persistence s) as [d|] eqn:Ep; cbn; eexists; (split; [done|]).
  all: split; cbn; [done|done|..|].
  1,3: revert Hu; apply undoes_write; intros c _ Hf; unfold kernel_fits, kernel_restore in *;
       rewrite length_app, take_app_le by done; split; [lia|done].
  - intros d' [= <-]. rewrite map_seqZ_snoc0. by apply disk_insert, Hd.
  - done.
Qed.

Lemma kernel_checkpoint s l past h :
  Z.of_nat (length past) <= MAX_REORG_CHECKPOINTS ->
  kernel_rel blake3 clean s l past ->
  kernel_rel blake3 clean (Kernels.checkpoint_at_height s h) l
    (take (Z.to_nat MAX_REORG_CHECKPOINTS) (l :: past)).
Proof.
  intros Hl [E1 E2 Hu Hd]. split; cbn [ks_kernels ks_root ks_checkpoints ks_persistence
    Kernels.checkpoint_at_height]; try done.
  rewrite reverse_push_checkpoint
    by (apply undoes_length in Hu; rewrite length_reverse in Hu; lia).
  apply undoes_take. rewrite E1. cbn. unfold kernel_fits, kernel_restore. cbn.
  by rewrite take_ge.
Qed.

Lemma kernel_rewind rm s l past :
  kernel_rel blake3 clean s l past ->
  match past with
  | [] => Kernels.rewind blake3 rm s = (false, s)
  | l' :: past' => exists s', Kernels.rewind blake3 rm s = (true, s')
      /\ kernel_rel blake3 (clean /\ forall k, rm k = true) s' l' past'
  end.
Proof.
  intros [E1 E2 Hu Hd]. unfold Kernels.rewind.
  pose proof (pop_checkpoint_spec (ks_checkpoints s)) as Hp.
  destruct (reverse (ks_checkpoints s)) as [|k ks], past as [|l' past]; cbn in Hu; try done.
  { by rewrite Hp. }
  rewrite Hp. destruct Hu as (Hf&Hr&Hu). unfold kernel_fits, kernel_restore in *.
  eexists. split; [done|]. rewrite E1, Nat.min_l by done. rewrite Hr.
  split; cbn [ks_kernels ks_root ks_checkpoints ks_persistence]; try done.
  - by rewrite reverse_involutive.
  - intros d' Hd'. destruct (ks_persistence s) as [d|] eqn:Ep; [|done]. cbn in Hd'.
    injection Hd' as <-. rewrite <- Hr. set (gone := seqZ _ _).
    rewrite <- (remove_rows l (kc_kernels_len k) gone); [by apply disk_remove, Hd|].
    intros i Hi. apply lookup_map_seqZ_is_Some in Hi. unfold gone. rewrite elem_of_seqZ. lia.
Qed.
End kernels.

(** *** Spark coins *)

Abbreviation spent_map := (gmap (list Z) Z).

(** The spends recorded below a height. *)
Definition spends_below (h : Z) (m : spent_map) : spent_map := filter (fun e => ~ h <= e.2) m.

Lemma spends_below_all (h : Z) (m : spent_map) :
  map_Forall (fun _ x => x < h) m -> spends_below h m = m.
Proof.
  intros Hm. apply map_filter_id. intros i x Hx. specialize (Hm i x Hx). cbn in *. lia.
Qed.

Lemma spends_below_insert (h : Z) (m : spent_map) s x :
  m !! s = None -> h <= x -> spends_below h (<[s := x]> m) = spends_below h m.
Proof.
  intros Hs Hx. unfold spends_below. rewrite map_filter_insert_False by (cbn; lia).
  by rewrite delete_id.
Qed.

Definition spark_fits (k : SparkCheckpoint) (c : list SparkCoinEntry * spent_map) : Prop :=
  (sp_coins_len k <= length c.1)%nat.
Definition spark_restore (k : SparkCheckpoint) (c : list SparkCoinEntry * spent_map) :=
  (take (sp_coins_len k) c.1, spends_below (sp_height k) c.2).

Definition numbered (l : list SparkCoinEntry) : Prop :=
  sc_coin_id <$> l = seqZ 0 (Z.of_nat (length l)).

Record spark_rel (blake3 : list Z -> Hash) (clean : Prop) (s : SparkStore)
    (c : list SparkCoinEntry * spent_map)
    (past : list (Z * (list SparkCoinEntry * spent_map))) : Prop := {
  sr_coins : ss_coins s = c.1;
  sr_serials : ss_spent_serials s = c.2;
  sr_root : ss_root s = Spark.compute_root blake3 c.1;
  sr_ids : numbered c.1;
  sr_heights : sp_height <$> reverse (ss_checkpoints s) = past.*1;
  sr_past : undoes spark_fits spark_restore (reverse (ss_checkpoints s)) c past.*2;
  sr_disk : forall d, ss_persistence s = Some d ->
    disk_rel clean (map_seqZ 0 c.1) d.1 /\ disk_rel clean c.2 d.2;
}.

Lemma spark_weaken blake3 (clean clean' : Prop) s c past :
  (clean' -> clean) -> spark_rel blake3 clean s c past -> spark_rel blake3 clean' s c past.
Proof.
  intros Hc [? ? ? ? ? ? Hd]. split; [done..|]. intros d E. destruct (Hd d E).
  split; eauto using disk_weaken.
Qed.

Lemma numbered_take l n : numbered l -> numbered (take n l).
Proof.
  unfold numbered. intros Hl. rewrite fmap_take, Hl, length_take.
  apply list_eq. intros i. destruct (decide (i < n)%nat).
  - rewrite lookup_take_lt by done. destruct (decide (i < length l)%nat).
    + rewrite !lookup_seqZ_lt by lia. done.
    + rewrite !lookup_seqZ_ge by lia. done.
  - rewrite lookup_take_ge, lookup_seqZ_ge by lia. done.
Qed.

Lemma head_height {K} (f : K -> Z) (ks : list K) (hs : list Z) k :
  f <$> ks = hs -> head ks = Some k -> head hs = Some (f k).
Proof. intros <-. destruct ks; [done|]. by intros [= ->]. Qed.

Section spark.
Context (blake3 : list Z -> Hash) (clean : Prop).

Lemma spark_add_coin s c past e :
  sc_coin_id e = Z.of_nat (length c.1) ->
  spark_rel blake3 clean s c past ->
  exists s', Spark.add_coin blake3 true s e = Some s'
             /\ spark_rel blake3 clean s' (c.1 ++ [e], c.2) past.
Proof.
  intros He [E1 E2 E3 Hid Hh Hu Hd]. unfold Spark.add_coin, tree_put. rewrite E1.
  destruct (ss_persistence s) as [[dc dn]|] eqn:Ep; cbn; eexists; (split; [done|]).
  all: split; cbn; try done.
  1,4: unfold numbered; rewrite fmap_app, Hid, length_app, Nat.add_1_r, seqZ_S; cbn;
       by rewrite He.
  1,3: revert Hu; apply undoes_write; intros k _ Hf; unfold spark_fits, spark_restore in *; cbn;
       rewrite length_app, take_app_le by done; split; [lia|done].
  intros d [= <-]. destruct (Hd _ eq_refl). rewrite map_seqZ_snoc0, He.
  split; [by apply disk_insert|done].
Qed.

Lemma spark_mark s c past n h :
  c.2 !! n = None -> (forall t, head past.*1 = Some t -> t <= h) ->
  spark_rel blake3 clean s c past ->
  exists s', Spark.mark_serial_spent true s n h = Some s'
             /\ spark_rel blake3 clean s' (c.1, <[n := h]> c.2) past.
Proof.
  intros Hn Ht [E1 E2 E3 Hid Hh Hu Hd]. unfold Spark.mark_serial_spent, tree_put. rewrite E2.
  destruct (ss_persistence s) as [[dc dn]|] eqn:Ep; cbn; eexists; (split; [done|]).
  all: split; cbn; try done.
  1,3: revert Hu; apply undoes_write; intros k Hk Hf; unfold spark_fits, spark_restore in *; cbn;
       split; [done|]; rewrite spends_below_insert; [done|done|];
       apply Ht; by eapply head_height.
  intros d [= <-]. destruct (Hd _ eq_refl). split; (done || by apply disk_insert).
Qed.

Lemma spark_checkpoint s c past h :
  Z.of_nat (length past) <= MAX_REORG_CHECKPOINTS ->
  map_Forall (fun _ x => x < h) c.2 ->
  spark_rel blake3 clean s c past ->
  spark_rel blake3 clean (Spark.checkpoint_at_height s h) c
    (take (Z.to_nat MAX_REORG_CHECKPOINTS) ((h, c) :: past)).
Proof.
  intros Hl Hb [E1 E2 E3 Hid Hh Hu Hd].
  assert (Z.of_nat (length (ss_checkpoints s)) <= MAX_REORG_CHECKPOINTS).
  { apply undoes_length in Hu. rewrite length_reverse, length_fmap in Hu. lia. }
  split; cbn [ss_coins ss_spent_serials ss_root ss_checkpoints ss_persistence
    Spark.checkpoint_at_height]; try done; rewrite reverse_push_checkpoint by done.
  - by rewrite !fmap_take, !fmap_cons, Hh.
  - rewrite fmap_take, fmap_cons. apply undoes_take. rewrite E1. cbn [undoes].
    unfold spark_fits, spark_restore. cbn [sp_coins_len sp_height].
    rewrite take_ge, spends_below_all by done. by destruct c.
Qed.

Lemma removed_ids (l : list SparkCoinEntry) n i :
  numbered l -> is_Some ((map_seqZ 0 l : gmap Z SparkCoinEntry) !! i) ->
  i ∈ sc_coin_id <$> drop n l <-> Z.of_nat n <= i.
Proof.
  intros Hid Hi. apply lookup_map_seqZ_is_Some in Hi.
  rewrite fmap_drop, Hid, list_elem_of_lookup. setoid_rewrite lookup_drop.
  setoid_rewrite lookup_seqZ. split.
  - intros (j&->&_). lia.
  - intros. exists (Z.to_nat i - n)%nat. lia.
Qed.

Lemma spark_rewind rm_c rm_s s c past :
  spark_rel blake3 clean s c past ->
  match past with
  | [] => Spark.rewind blake3 rm_c rm_s s = (false, s)
  | e :: past' =>
      exists s', Spark.rewind blake3 rm_c rm_s s = (true, s')
        /\ spark_rel blake3 (clean /\ (forall k, rm_c k = true) /\ forall k, rm_s k = true)
             s' e.2 past'
  end.
Proof.
  intros [E1 E2 E3 Hid Hh Hu Hd]. unfold Spark.rewind.
  pose proof (pop_checkpoint_spec (ss_checkpoints s)) as Hp.
  destruct (reverse (ss_checkpoints s)) as [|k ks], past as [|[h p] past]; try done.
  { by rewrite Hp. }
  rewrite Hp. cbn in Hh, Hu. injection Hh as Hh Hhs.
  destruct Hu as (Hf&Hr&Hu). unfold spark_fits, spark_restore in *.
  eexists. split; [done|]. rewrite E1, E2, Nat.min_l by done.
  rewrite (delete_filtered (fun x => sp_height k <= x)).
  change (filter (fun e => ~ sp_height k <= e.2) c.2) with (spends_below (sp_height k) c.2).
  cbn [snd] in *. subst p. split; cbn [fst snd ss_coins ss_spent_serials ss_root
    ss_checkpoints ss_persistence]; rewrite ?reverse_involutive; try done.
  - by apply numbered_take.
  - intros d Hd'. destruct (ss_persistence s) as [[dc dn]|] eqn:Ep; [|done]. cbn in Hd'.
    injection Hd' as <-. destruct (Hd _ eq_refl) as [D1 D2]. cbn [fst snd] in *. split.
    + rewrite <- (remove_rows c.1 (sp_coins_len k) (sc_coin_id <$> drop (sp_coins_len k) c.1))
        by (intros i Hi; by apply removed_ids).
      eapply disk_weaken; [|by apply disk_remove]. tauto.
    + unfold spends_below. rewrite <- (delete_filtered (fun x => sp_height k <= x)).
      eapply disk_weaken; [|by apply disk_remove]. tauto.
Qed.
End spark.

(** *** Shielded notes *)

Definition note_fits (k : ShieldedCheckpoint) (c : list NoteCommitmentEntry * spent_map) : Prop :=
  (sh_entries_len k <= length c.1)%nat.
Definition note_restore (k : ShieldedCheckpoint) (c : list NoteCommitmentEntry * spent_map) :=
  (take (sh_entries_len k) c.1, spends_below (sh_height k) c.2).

(** What the tree library records of a past state. *)
Definition leaves_at (e : Z * (list NoteCommitmentEntry * spent_map)) : Z * list Hash :=
  (e.1, nc_commitment <$> e.2.1).

Record shielded_rel {T} `{!BridgeTree T} `{!BridgeTreeLaws T} (clean : Prop)
    (s : ShieldedStore T) (c : list NoteCommitmentEntry * spent_map)
    (past : list (Z * (list NoteCommitmentEntry * spent_map))) : Prop := {
  hr_entries : sd_entries s = map_seqZ 0 c.1;
  hr_nullifiers : sd_nullifiers s = c.2;
  hr_leaves : bt_leaves (sd_tree s) = nc_commitment <$> c.1;
  hr_tree : bt_past (sd_tree s) = leaves_at <$> past;
  hr_heights : sh_height <$> reverse (sd_checkpoints s) = past.*1;
  hr_past : undoes note_fits note_restore (reverse (sd_checkpoints s)) c past.*2;
  hr_disk : forall d, sd_persistence s = Some d ->
    disk_rel clean (map_seqZ 0 c.1) d.1 /\ disk_rel clean c.2 d.2;
}.

Lemma shielded_weaken {T} `{!BridgeTree T} `{!BridgeTreeLaws T} (clean clean' : Prop)
    (s : ShieldedStore T) c past :
  (clean' -> clean) -> shielded_rel clean s c past -> shielded_rel clean' s c past.
Proof.
  intros Hc [? ? ? ? ? ? Hd]. split; [done..|]. intros d E. destruct (Hd d E).
  split; eauto using disk_weaken.
Qed.

Section shielded.
Context {T : Type} `{!BridgeTree T} `{!BridgeTreeLaws T} (clean : Prop).
Implicit Types s : ShieldedStore T.

Lemma note_append s c past e :
  Z.of_nat (length c.1) < 2 ^ 32 ->
  shielded_rel clean s c past ->
  let pos := Z.of_nat (length c.1) in
  exists s', Shielded.append_commitment true s e = Some (pos, s')
             /\ shielded_rel clean s' (c.1 ++ [at_position e pos], c.2) past.
Proof.
  intros Hl [E1 E2 Hv Ht Hh Hu Hd] pos. unfold Shielded.append_commitment, tree_put.
  assert (bt_leaves (bt_append (sd_tree s) (nc_commitment e))
          = nc_commitment <$> (c.1 ++ [at_position e pos])) as Hv'.
  { rewrite bt_append_leaves; rewrite Hv; [by rewrite fmap_app|by rewrite length_fmap]. }
  assert (default 0 (bt_position (bt_append (sd_tree s) (nc_commitment e))) = pos) as ->.
  { rewrite bt_position_last, Hv', decide_False
      by (rewrite fmap_app; by intros [_ ?]%app_nil).
    cbn. rewrite length_fmap, length_app. cbn. lia. }
  fold (at_position e pos). rewrite E1, E2.
  destruct (sd_persistence s) as [[dc dn]|] eqn:Ep; cbn; eexists; (split; [done|]).
  all: split; cbn; try done; rewrite ?map_seqZ_snoc0, ?bt_append_past; try done.
  1,3: revert Hu; apply undoes_write; intros k _ Hf; unfold note_fits, note_restore in *; cbn;
       rewrite length_app, take_app_le by done; split; [lia|done].
  intros d [= <-]. destruct (Hd _ eq_refl). split; (done || by apply disk_insert).
Qed.

Lemma note_mark s c past n h :
  (forall t, head past.*1 = Some t -> t <= h) ->
  shielded_rel clean s c past ->
  exists b s', Shielded.mark_nullifier_spent true s n h = Some (b, s')
    /\ shielded_rel clean s' (c.1, if decide (is_Some (c.2 !! n)) then c.2 else <[n := h]> c.2) past.
Proof.
  intros Ht [E1 E2 Hv Htr Hh Hu Hd]. unfold Shielded.mark_nullifier_spent, tree_put.
  rewrite E2. destruct (decide _) as [Hn|Hn].
  { exists false, s. split; [done|]. split; destruct c; done. }
  rewrite <- eq_None_not_Some in Hn.
  destruct (sd_persistence s) as [[dc dn]|] eqn:Ep; cbn; do 2 eexists; (split; [done|]).
  all: split; cbn; try done.
  1,3: revert Hu; apply undoes_write; intros k Hk Hf; unfold note_fits, note_restore in *; cbn;
       split; [done|]; rewrite spends_below_insert; [done|done|];
       apply Ht; by eapply head_height.
  intros d [= <-]. destruct (Hd _ eq_refl). split; (done || by apply disk_insert).
Qed.

Lemma note_checkpoint s c past h :
  Z.of_nat (length past) <= MAX_REORG_CHECKPOINTS ->
  (forall t, head past.*1 = Some t -> t < h) ->
  map_Forall (fun _ x => x < h) c.2 ->
  shielded_rel clean s c past ->
  shielded_rel clean (Shielded.checkpoint_at_height s h) c
    (take (Z.to_nat MAX_REORG_CHECKPOINTS) ((h, c) :: past)).
Proof.
  intros Hl Hn Hb [E1 E2 Hv Ht Hh Hu Hd].
  assert (Z.of_nat (length (sd_checkpoints s)) <= MAX_REORG_CHECKPOINTS).
  { apply undoes_length in Hu. rewrite length_reverse, length_fmap in Hu. lia. }
  destruct (bt_checkpoint_newer (sd_tree s) h) as (C1&C2&C3).
  { rewrite Ht. intros e He. destruct past as [|e0 past]; [done|]. injection He as <-.
    by apply Hn. }
  unfold Shielded.checkpoint_at_height.
  destruct (bt_checkpoint (sd_tree s) h) as [b t]. cbn in C1, C2, C3. subst b.
  split; cbn [sd_entries sd_nullifiers sd_tree sd_checkpoints sd_persistence];
    rewrite ?reverse_push_checkpoint by done; try done.
  - by rewrite C2.
  - rewrite C3, Hv, Ht. by rewrite fmap_take, fmap_cons.
  - by rewrite !fmap_take, !fmap_cons, Hh.
  - rewrite fmap_take, fmap_cons. apply undoes_take. rewrite E1. cbn [undoes].
    unfold note_fits, note_restore. cbn [sh_entries_len sh_height].
    assert (size (map_seqZ 0 c.1 : gmap Z NoteCommitmentEntry) = length c.1) as ->.
    { rewrite <- length_map_to_list, map_to_list_seqZ, length_zip, length_seqZ. lia. }
    rewrite take_ge, spends_below_all by done. by destruct c.
Qed.

Lemma note_rewind rm_e rm_n s c past :
  shielded_rel clean s c past ->
  match past with
  | [] => Shielded.rewind rm_e rm_n s = (false, s)
  | e :: past' =>
      exists s', Shielded.rewind rm_e rm_n s = (true, s')
        /\ shielded_rel (clean /\ (forall k, rm_e k = true) /\ forall k, rm_n k = true)
             s' e.2 past'
  end.
Proof.
  intros [E1 E2 Hv Ht Hh Hu Hd]. unfold Shielded.rewind.
  pose proof (pop_checkpoint_spec (sd_checkpoints s)) as Hp.
  destruct (reverse (sd_checkpoints s)) as [|k ks], past as [|[h p] past]; try done.
  { by rewrite Hp. }
  rewrite Hp. cbn in Hh, Hu. injection Hh as Hh Hhs.
  destruct Hu as (Hf&Hr&Hu). unfold note_fits, note_restore in *.
  rewrite fmap_cons in Ht. destruct (bt_rewind_some _ _ _ Ht) as (R1&R2&R3).
  destruct (bt_rewind (sd_tree s)) as [b t]. cbn in R1, R2, R3. subst b.
  eexists. split; [done|]. rewrite E1, E2.
  rewrite (delete_filtered (fun x => sh_height k <= x)).
  change (filter (fun e => ~ sh_height k <= e.2) c.2) with (spends_below (sh_height k) c.2).
  set (gone := filter _ _).
  assert (foldl (fun m i => delete i m) (map_seqZ 0 c.1) gone
          = (map_seqZ 0 (take (sh_entries_len k) c.1) : gmap Z NoteCommitmentEntry)) as Hg.
  { apply remove_rows. intros i Hi. unfold gone. rewrite list_elem_of_filter. split; [tauto|].
    intros. split; [done|]. destruct Hi as [v Hi]. apply list_elem_of_fmap.
    exists (i, v). split; [done|]. by apply elem_of_map_to_list. }
  rewrite Hg. cbn [snd] in *. subst p. split; cbn [fst snd sd_entries sd_nullifiers sd_tree
    sd_checkpoints sd_persistence]; rewrite ?reverse_involutive; try done.
  intros d Hd'. destruct (sd_persistence s) as [[dc dn]|] eqn:Ep; [|done]. cbn in Hd'.
  injection Hd' as <-. destruct (Hd _ eq_refl) as [D1 D2]. cbn [fst snd] in *. split.
  - rewrite <- Hg. eapply disk_weaken; [|by apply disk_remove]. tauto.
  - unfold spends_below. rewrite <- (delete_filtered (fun x => sh_height k <= x)).
    eapply disk_weaken; [|by apply disk_remove]. tauto.
Qed.
End shielded.

(** ** The refinement *)

Definition notes_of (c : Content) := (cn_notes c, cn_nullifiers c).
Definition coins_of (c : Content) := (cn_coins c, cn_serials c).
Definition part {C} (f : Content -> C) (past : list (Z * Content)) : list (Z * C) :=
  (fun e => (e.1, f e.2)) <$> past.

Section refinement.
Context (blake3 : list Z -> Hash) {T : Type} `{!BridgeTree T} `{!BridgeTreeLaws T}.
Implicit Types (p : Phase2 T) (j : Journal).

Record journal_rel (clean : Prop) p j : Prop := {
  jr_shielded : exists s, p2_shielded p = Some s
    /\ shielded_rel clean s (notes_of (j_now j)) (part notes_of (j_past j));
  jr_spark : exists s, p2_spark p = Some s
    /\ spark_rel blake3 clean s (coins_of (j_now j)) (part coins_of (j_past j));
  jr_kernel : exists s, p2_kernel p = Some s
    /\ kernel_rel blake3 clean s (cn_kernels (j_now j)) (part cn_kernels (j_past j)).*2;
  jr_depth : Z.of_nat (length (j_past j)) <= MAX_REORG_CHECKPOINTS;
}.

Lemma part_heights {C} (f : Content -> C) past : (part f past).*1 = past.*1.
Proof. unfold part. rewrite <- list_fmap_compose. done. Qed.

Lemma part_length {C} (f : Content -> C) past : length (part f past) = length past.
Proof. apply length_fmap. Qed.

Lemma top_height_part {C} (f : Content -> C) j t :
  head (part f (j_past j)).*1 = Some t -> top_height j = Some t.
Proof. rewrite part_heights. unfold top_height. by destruct (j_past j). Qed.

Lemma part_push {C} (f : Content -> C) n h c past :
  part f (take n ((h, c) :: past)) = take n ((h, f c) :: part f past).
Proof. unfold part. by rewrite fmap_take, fmap_cons. Qed.

Lemma connect_refines clean p j h :
  journal_rel clean p j -> op_allowed j (OpConnect h) ->
  journal_rel clean (phase2_checkpoint p h) (journal_step j (OpConnect h)).
Proof.
  intros [(sh&Eh&Hh) (sp&Ep&Hp) (kr&Ek&Hk) Hd] (Ht&Hn&Hs).
  split; cbn [phase2_checkpoint p2_shielded p2_spark p2_kernel j_now j_past journal_step].
  - rewrite Eh. eexists. split; [done|]. rewrite part_push.
    apply note_checkpoint; try done; [by rewrite part_length|].
    intros t E. by apply Ht, (top_height_part notes_of).
  - rewrite Ep. eexists. split; [done|]. rewrite part_push.
    apply spark_checkpoint; try done. by rewrite part_length.
  - rewrite Ek. eexists. split; [done|]. rewrite part_push, fmap_take, fmap_cons.
    apply kernel_checkpoint; try done. by rewrite length_fmap, part_length.
  - rewrite length_take. unfold MAX_REORG_CHECKPOINTS. lia.
Qed.

Lemma disconnect_refines clean p j h rm :
  journal_rel clean p j ->
  journal_rel (clean /\ removes_all rm) (phase2_rewind blake3 rm p).1
    (journal_step j (OpDisconnect h rm))
  /\ (phase2_rewind blake3 rm p).2 = replicate 3 (negb (bool_decide (j_past j = []))).
Proof.
  intros [(sh&Eh&Hh) (sp&Ep&Hp) (kr&Ek&Hk) Hd]. unfold phase2_rewind.
  rewrite Eh, Ep, Ek. pose proof (note_rewind _ (rm_entry rm) (rm_nullifier rm) _ _ _ Hh) as Rh.
  pose proof (spark_rewind _ _ (rm_coin rm) (rm_serial rm) _ _ _ Hp) as Rp.
  pose proof (kernel_rewind _ _ (rm_kernel rm) _ _ _ Hk) as Rk.
  destruct j as [now [|[h0 c0] past]]; cbn in *.
  - rewrite Rh, Rp, Rk. split; [|done].
    assert (clean /\ removes_all rm -> clean) by tauto.
    split; cbn; eauto using shielded_weaken, spark_weaken, kernel_weaken.
  - destruct Rh as (sh'&E1&R1), Rp as (sp'&E2&R2), Rk as (kr'&E3&R3).
    rewrite E1, E2, E3. split; [|done]. split; cbn; [..|lia]; eexists; (split; [done|]).
    + eapply shielded_weaken; [|exact R1]. unfold removes_all. tauto.
    + eapply spark_weaken; [|exact R2]. unfold removes_all. tauto.
    + eapply kernel_weaken; [|exact R3]. unfold removes_all. tauto.
Qed.

Lemma write_refines clean p j op :
  match op with OpConnect _ | OpDisconnect _ _ => False | _ => True end ->
  journal_rel clean p j -> op_allowed j op ->
  exists p', store_step blake3 p op = Some p'
             /\ journal_rel clean p' (mkJournal (content_write (j_now j) op) (j_past j)).
Proof.
  intros Hop [(sh&Eh&Hh) (sp&Ep&Hp) (kr&Ek&Hk) Hd] Ha.
  destruct j as [[notes nfs coins serials kernels] past].
  destruct op as [e|n h|e|n h|k| |]; try done; cbn in *; rewrite ?Eh, ?Ep, ?Ek; cbn.
  - destruct (note_append clean sh (notes, nfs) _ e Ha Hh) as (s'&E&R). rewrite E. cbn.
    eexists. split; [done|]. split; cbn; eauto.
  - destruct (note_mark clean sh (notes, nfs) (part notes_of past) n h) as (b&s'&E&R); [|done|].
    { intros t E. by apply Ha, (top_height_part notes_of (mkJournal _ past)). }
    rewrite E. cbn. eexists. split; [done|]. split; cbn; eauto.
  - destruct (spark_add_coin _ clean sp (coins, serials) _ e Ha Hp) as (s'&E&R). rewrite E. cbn.
    eexists. split; [done|]. split; cbn; eauto.
  - destruct Ha as [Hn Ha]. destruct (spark_mark blake3 clean sp (coins, serials) (part coins_of past) n h Hn)
      as (s'&E&R); [|done|].
    { intros t E. by apply Ha, (top_height_part coins_of (mkJournal _ past)). }
    rewrite E. cbn. eexists. split; [done|]. split; cbn; eauto.
  - destruct (kernel_append _ _ _ _ _ k Hk) as (s'&E&R). rewrite E. cbn.
    eexists. split; [done|]. split; cbn; eauto.
Qed.

Lemma journal_weaken (clean clean' : Prop) p j :
  (clean' -> clean) -> journal_rel clean p j -> journal_rel clean' p j.
Proof.
  intros Hc [(sh&Eh&Hh) (sp&Ep&Hp) (kr&Ek&Hk) Hd].
  split; eauto using shielded_weaken, spark_weaken, kernel_weaken.
Qed.

Lemma store_step_refines clean p j op :
  journal_rel clean p j -> op_allowed j op ->
  exists p', store_step blake3 p op = Some p'
             /\ journal_rel (clean /\ op_clean op) p' (journal_step j op).
Proof.
  intros HR Ha.
  assert (Hw : forall p' j', journal_rel clean p' j' -> journal_rel (clean /\ op_clean op) p' j')
    by (intros p' j'; apply journal_weaken; tauto).
  pose proof (write_refines clean p j op) as Hop.
  destruct op as [e|n h|e|n h|k|h|h rm].
  1-5: destruct (Hop I HR Ha) as (p'&E&R); exists p'; by split; [|apply Hw].
  - eexists. split; [done|]. by apply Hw, connect_refines.
  - eexists. split; [done|]. by apply disconnect_refines.
Qed.

Lemma store_run_refines ops : forall (clean : Prop) p j,
  journal_rel clean p j -> ops_allowed j ops ->
  exists p', store_run blake3 p ops = Some p'
             /\ journal_rel (clean /\ Forall op_clean ops) p' (foldl journal_step j ops).
Proof.
  induction ops as [|op ops IH]; intros clean p j HR Ha; cbn.
  - exists p. split; [done|]. eapply journal_weaken; [|exact HR]. tauto.
  - destruct Ha as [Ha Hs]. destruct (store_step_refines clean p j op HR Ha) as (p1&E1&R1).
    rewrite E1. cbn. destruct (IH _ p1 _ R1 Hs) as (p'&E'&R'). exists p'. split; [done|].
    eapply journal_weaken; [|exact R']. rewrite Forall_cons. tauto.
Qed.

(** ** What a client observes *)

Record Observed := mkObserved {
  ob_entries : gmap Z NoteCommitmentEntry;
  ob_nullifiers : spent_map;
  ob_coins : list SparkCoinEntry;
  ob_serials : spent_map;
  ob_kernels : list MwKernel;
  ob_roots : option Hash * Hash * Hash;
  ob_disk : option (gmap Z NoteCommitmentEntry * spent_map)
            * option (gmap Z SparkCoinEntry * spent_map) * option (gmap Z MwKernel);
}.

Definition observe p : option Observed :=
  sh ← p2_shielded p; sp ← p2_spark p; kr ← p2_kernel p;
  Some (mkObserved (sd_entries sh) (sd_nullifiers sh) (ss_coins sp) (ss_spent_serials sp)
          (ks_kernels kr) (bt_root (sd_tree sh), ss_root sp, ks_root kr)
          (sd_persistence sh, ss_persistence sp, ks_persistence kr)).

(** Which stores are on a database. *)
Definition persisted p : option (bool * bool * bool) :=
  sh ← p2_shielded p; sp ← p2_spark p; kr ← p2_kernel p;
  Some (bool_decide (is_Some (sd_persistence sh)), bool_decide (is_Some (ss_persistence sp)),
        bool_decide (is_Some (ks_persistence kr))).

Lemma disk_determined {D} (o o' : option D) (x : D) :
  (forall d, o = Some d -> d = x) -> (forall d, o' = Some d -> d = x) ->
  bool_decide (is_Some o) = bool_decide (is_Some o') -> o = o'.
Proof.
  intros H1 H2. destruct o, o'; try done. by rewrite (H1 _ eq_refl), (H2 _ eq_refl).
Qed.

Lemma pair_clean {A} (o : option (gmap Z A * spent_map)) m n :
  (forall d, o = Some d -> disk_rel True m d.1 /\ disk_rel True n d.2) ->
  forall d, o = Some d -> d = (m, n).
Proof. intros H [x y] Hd. destruct (H _ Hd) as [[_ H1] [_ H2]]. cbn in *. f_equal; auto. Qed.

(** Two stores over the same current contents show the same. *)
Lemma observe_now p p' j j' :
  journal_rel True p j -> journal_rel True p' j' -> j_now j = j_now j' ->
  persisted p = persisted p' ->
  observe p = observe p'.
Proof.
  intros [(sh&Eh&Hh) (sp&Ep&Hp) (kr&Ek&Hk) _] [(sh'&Eh'&Hh') (sp'&Ep'&Hp') (kr'&Ek'&Hk') _] En.
  rewrite <- En in Hh', Hp', Hk'. unfold observe, persisted.
  rewrite Eh, Ep, Ek, Eh', Ep', Ek'. cbn. intros [= P1 P2 P3].
  destruct Hh, Hp, Hk, Hh', Hp', Hk'.
  assert (bt_root (sd_tree sh) = bt_root (sd_tree sh')) by (apply bt_root_leaves; congruence).
  assert (sd_persistence sh = sd_persistence sh')
    by (eapply disk_determined; [by apply pair_clean..|done]).
  assert (ss_persistence sp = ss_persistence sp')
    by (eapply disk_determined; [by apply pair_clean..|done]).
  assert (ks_persistence kr = ks_persistence kr').
  { eapply disk_determined; [| |done]; intros d Hd; [by apply kr_disk0|by apply kr_disk1]. }
  f_equal. f_equal; congruence.
Qed.

Lemma put_persisted {K V} `{Countable K} wr (o : option (gmap K V)) k v t :
  tree_put wr o k v = Some t -> is_Some t <-> is_Some o.
Proof. unfold tree_put. destruct o, wr; intros [= <-]; by split; intros []. Qed.

(** No operation moves a store on or off its database. *)
Lemma step_persisted p op p' : store_step blake3 p op = Some p' -> persisted p' = persisted p.
Proof.
  destruct p as [sh sp kr].
  destruct op as [e|n h|e|n h|k|h|h rm]; cbn; intros E.
  - destruct sh as [[t en nf cps [[d1 d2]|]]|]; cbn in E; by injection E as <-.
  - destruct sh as [[t en nf cps [[d1 d2]|]]|]; cbn in E;
      unfold Shielded.mark_nullifier_spent in E; cbn in E;
      try destruct (decide _); by injection E as <-.
  - destruct sp as [[cs ns r cps [[d1 d2]|]]|]; cbn in E; by injection E as <-.
  - destruct sp as [[cs ns r cps [[d1 d2]|]]|]; cbn in E; by injection E as <-.
  - destruct kr as [[ks r cps [d|]]|]; cbn in E; by injection E as <-.
  - injection E as <-. destruct sh as [sh|], sp, kr; try done. cbn.
    unfold Shielded.checkpoint_at_height. by destruct (bt_checkpoint _ _).
  - injection E as <-. destruct sh as [sh|], sp as [sp|], kr as [kr|]; try done.
    + unfold persisted, phase2_rewind, Shielded.rewind, Spark.rewind, Kernels.rewind. cbn.
      destruct (pop_checkpoint (sd_checkpoints sh)) as [[c1 r1]|],
        (pop_checkpoint (ss_checkpoints sp)) as [[c2 r2]|],
        (pop_checkpoint (ks_checkpoints kr)) as [[c3 r3]|];
        try destruct (bt_rewind (sd_tree sh)); cbn; rewrite ?fmap_is_Some; try done.
      all: do 2 f_equal; try f_equal; apply bool_decide_ext; by rewrite ?fmap_is_Some.
Qed.

Lemma run_persisted ops : forall p p',
  store_run blake3 p ops = Some p' -> persisted p' = persisted p.
Proof.
  induction ops as [|op ops IH]; intros p p'; cbn; [by intros [= <-]|].
  destruct (store_step blake3 p op) as [p1|] eqn:E; [|done]. cbn. intros Hr.
  apply step_persisted in E. rewrite <- E. by apply IH.
Qed.
End refinement.
