(* ===== verification/Phase2Safety.v ===== *)
(** * Reorganisations and restarts of the phase-2 stores

    Blocks as sequences of store operations: rewinding them restores what the
    stores show, a restart keeps the contents and loses the history; with a
    concrete tree for the witnesses and the stores inside the chain. *)

From stdpp Require Import prelude gmap sorting fin_maps.
From Stdlib Require Import ZArith Lia.
From S2P Require Import Prelude Constants Difficulty Block Utxo ForkChoice Chain ChainDemo.
From S2P Require Import Phase2 Phase2Rules.

Local Open Scope Z_scope.

(** ** Blocks and reorganisations *)

Definition is_write (op : store_op) : Prop :=
  match op with OpConnect _ | OpDisconnect _ _ => False | _ => True end.

(** A block: its height and the writes of its transactions. *)
Definition connect_ops (b : Z * list store_op) : list store_op := OpConnect b.1 :: b.2.
Definition disconnect_ops (rm : Removals) (bs : list (Z * list store_op)) : list store_op :=
  (fun b => OpDisconnect b.1 rm) <$> reverse bs.

Lemma journal_writes ws : forall j,
  Forall is_write ws -> j_past (foldl journal_step j ws) = j_past j.
Proof.
  induction ws as [|w ws IH]; intros j Hw; [done|]. inversion Hw as [|? ? Hw1 Hw2]; subst.
  cbn. rewrite IH by done. by destruct w.
Qed.

(** Disconnecting the last blocks of a journal returns to its contents before
    them, as long as their checkpoints have not been evicted. *)
Lemma journal_disconnects rm bs j :
  Forall (fun b => Forall is_write b.2) bs ->
  forall k, (length bs <= k <= Z.to_nat MAX_REORG_CHECKPOINTS)%nat ->
  let j1 := foldl journal_step j (concat (connect_ops <$> bs)) in
  j_now (foldl journal_step (mkJournal (j_now j1) (take k (j_past j1))) (disconnect_ops rm bs))
  = j_now j.
Proof.
  induction bs as [|[h ws] bs IH] using rev_ind; intros Hw k Hk; [done|].
  rewrite length_app in Hk. cbn [length] in Hk.
  rewrite Forall_app, Forall_singleton in Hw. destruct Hw as [Hw1 Hw2]. cbn in Hw2.
  rewrite fmap_app, concat_app, foldl_app. cbn [fmap list_fmap concat]. rewrite app_nil_r.
  cbn [connect_ops fst snd foldl journal_step].
  set (j1 := foldl journal_step j (concat (connect_ops <$> bs))).
  rewrite journal_writes by done. cbn [j_past j_now]. rewrite take_take, Nat.min_l by lia.
  destruct k as [|k]; [lia|]. cbn [take]. unfold disconnect_ops. rewrite reverse_snoc.
  cbn [fmap list_fmap foldl journal_step j_past snd]. apply IH; [done|lia].
Qed.

Lemma disconnects_allowed rm bs : forall j, ops_allowed j (disconnect_ops rm bs).
Proof.
  unfold disconnect_ops. induction (reverse bs) as [|b l IH]; intros j; [done|].
  split; [done|]. apply IH.
Qed.

Lemma ops_allowed_split ops1 : forall j ops2,
  ops_allowed j (ops1 ++ ops2) ->
  ops_allowed j ops1 /\ ops_allowed (foldl journal_step j ops1) ops2.
Proof.
  induction ops1 as [|op ops1 IH]; intros j ops2; cbn; [done|]. intros [H1 H2].
  apply IH in H2. tauto.
Qed.

Lemma writes_clean ws : Forall is_write ws -> Forall op_clean ws.
Proof. intros Hw. eapply Forall_impl; [exact Hw|]. by intros []. Qed.

Lemma blocks_clean bs :
  Forall (fun b => Forall is_write b.2) bs -> Forall op_clean (concat (connect_ops <$> bs)).
Proof.
  induction 1 as [|b bs Hb _ IH]; [constructor|]. cbn. constructor; [done|].
  apply Forall_app. split; [by apply writes_clean|done].
Qed.

Lemma disconnects_clean rm bs : removes_all rm -> Forall op_clean (disconnect_ops rm bs).
Proof. intros Hr. unfold disconnect_ops. apply Forall_fmap, Forall_true. by intros. Qed.

Section claims.
Context (blake3 : list Z -> Hash) {T : Type} `{!BridgeTree T} `{!BridgeTreeLaws T}.
Implicit Types p : Phase2 T.

(** Stores opened on an empty database. *)
Definition fresh_stores : Phase2 T :=
  mkPhase2 (Some (Shielded.open_with_db ∅ ∅)) (Some (Spark.open_with_db blake3 ∅ ∅))
    (Some (Kernels.open_with_db blake3 ∅)).

(** A restart: the stores opened again on the trees they left. *)
Definition reopen p : option (Phase2 T) :=
  sh ← p2_shielded p; sp ← p2_spark p; kr ← p2_kernel p;
  dh ← sd_persistence sh; dp ← ss_persistence sp; dk ← ks_persistence kr;
  Some (mkPhase2 (Some (Shielded.open_with_db dh.1 dh.2))
          (Some (Spark.open_with_db blake3 dp.1 dp.2)) (Some (Kernels.open_with_db blake3 dk))).

Definition empty_content : Content := mkContent [] ∅ [] ∅ [].

Lemma tree_rows_empty {V} : tree_rows (∅ : gmap Z V) = [].
Proof. unfold tree_rows. by rewrite map_to_list_empty. Qed.

Lemma fresh_rel : journal_rel blake3 True fresh_stores (mkJournal empty_content []).
Proof.
  unfold fresh_stores, Shielded.open_with_db, Spark.open_with_db, Kernels.open_with_db.
  rewrite !tree_rows_empty. split; cbn; [..|done]; (eexists; split; [done|]); split; cbn; try done.
  - apply bt_new_leaves.
  - apply bt_new_past.
  - intros d [= <-]. split; apply disk_same.
  - intros d [= <-]. split; apply disk_same.
  - intros d [= <-]. apply disk_same.
Qed.

Lemma rebuilt_tree (l : list NoteCommitmentEntry) : forall t a,
  Z.of_nat (length (bt_leaves t) + length l) <= 2 ^ 32 ->
  let t' := foldl (fun t e => bt_append t (nc_commitment e.2)) t
              (zip (seqZ a (Z.of_nat (length l))) l) in
  bt_leaves t' = bt_leaves t ++ (nc_commitment <$> l) /\ bt_past t' = bt_past t.
Proof.
  induction l as [|e l IH]; intros t a Hl; cbn [length] in *.
  - rewrite zip_nil_r. cbn. by rewrite app_nil_r.
  - rewrite seqZ_cons by lia. replace (Z.pred _) with (Z.of_nat (length l)) by lia.
    cbn [zip_with foldl snd].
    assert (bt_leaves (bt_append t (nc_commitment e)) = bt_leaves t ++ [nc_commitment e]) as E
      by (apply bt_append_leaves; lia).
    destruct (IH (bt_append t (nc_commitment e)) (Z.succ a)) as [I1 I2].
    { rewrite E, length_app. cbn. lia. }
    cbn zeta in *. by rewrite I1, I2, E, bt_append_past, <- app_assoc.
Qed.

Lemma rebuilt_entries (l : list NoteCommitmentEntry) : forall (m : gmap Z NoteCommitmentEntry) a,
  (forall i, a <= i -> m !! i = None) ->
  foldl (fun m e => <[e.1 := e.2]> m) m (zip (seqZ a (Z.of_nat (length l))) l)
  = m ∪ map_seqZ a l.
Proof.
  induction l as [|e l IH]; intros m a Hm; cbn [length].
  - rewrite zip_nil_r. cbn. by rewrite map_union_empty.
  - rewrite seqZ_cons by lia. replace (Z.pred _) with (Z.of_nat (length l)) by lia.
    cbn [zip_with foldl fst snd map_seqZ]. rewrite IH.
    + by rewrite insert_union_singleton_r, <- map_union_assoc, insert_union_singleton_l
        by (apply Hm; lia).
    + intros i Hi. rewrite lookup_insert_ne by lia. apply Hm. lia.
Qed.

Lemma reopen_rel p j :
  journal_rel blake3 True p j -> persisted p = Some (true, true, true) ->
  Z.of_nat (length (cn_notes (j_now j))) <= 2 ^ 32 ->
  exists p', reopen p = Some p' /\ journal_rel blake3 True p' (mkJournal (j_now j) [])
             /\ persisted p' = Some (true, true, true).
Proof.
  intros [(sh&Eh&Hh) (sp&Ep&Hp) (kr&Ek&Hk) _] Hper Hlen. unfold persisted in Hper. unfold reopen.
  rewrite Eh, Ep, Ek in *. cbn in *. injection Hper as P1 P2 P3.
  apply bool_decide_eq_true in P1 as [dh D1], P2 as [dp D2], P3 as [dk D3].
  rewrite D1, D2, D3. cbn. eexists. split; [done|]. split; [|done].
  destruct Hh as [? ? ? ? ? ? Hdh], Hp as [? ? ? ? ? ? Hdp], Hk as [? ? ? Hdk].
  rewrite (pair_clean _ _ _ Hdh _ D1), (pair_clean _ _ _ Hdp _ D2),
    (proj2 (Hdk _ D3) I). cbn in *.
  split; cbn; [..|done]; (eexists; split; [done|]).
  - unfold Shielded.open_with_db. rewrite tree_rows_seq.
    destruct (rebuilt_tree (cn_notes (j_now j)) bt_new 0) as [L1 L2].
    { rewrite bt_new_leaves. cbn. lia. }
    split; cbn; try done.
    + rewrite rebuilt_entries by done. by rewrite map_empty_union.
    + cbn in L1. by rewrite L1, bt_new_leaves.
    + cbn in L2. by rewrite L2, bt_new_past.
    + intros d [= <-]. split; apply disk_same.
  - unfold Spark.open_with_db. rewrite tree_rows_values. split; cbn; try done.
    intros d [= <-]. split; apply disk_same.
  - unfold Kernels.open_with_db. rewrite tree_rows_values. split; cbn; try done.
    intros d [= <-]. apply disk_same.
Qed.


(** Disconnecting the last blocks, at most a thousand, in reverse order shows
    exactly what the stores showed before them: notes, nullifiers, coins, serials,
    kernels, the three roots and, no removal having failed, the trees on disk. *)
Theorem phase2_rewind_restores rm ops bs p :
  Forall op_clean ops -> removes_all rm ->
  Forall (fun b => Forall is_write b.2) bs ->
  Z.of_nat (length bs) <= MAX_REORG_CHECKPOINTS ->
  ops_allowed (mkJournal empty_content []) (ops ++ concat (connect_ops <$> bs)) ->
  store_run blake3 fresh_stores ops = Some p ->
  exists p1 p2,
    store_run blake3 p (concat (connect_ops <$> bs)) = Some p1
    /\ store_run blake3 p1 (disconnect_ops rm bs) = Some p2
    /\ observe p2 = observe p.
Proof.
  intros Hc Hrm Hw Hl Ha Hp. apply ops_allowed_split in Ha as [Ha1 Ha2].
  destruct (store_run_refines blake3 ops True fresh_stores _ fresh_rel Ha1) as (p'&E&R).
  assert (p' = p) as -> by congruence. set (j := foldl _ _ _) in *.
  destruct (store_run_refines blake3 _ _ p j R Ha2) as (p1&E1&R1).
  destruct (store_run_refines blake3 _ _ p1 _ R1 (disconnects_allowed rm bs _)) as (p2&E2&R2).
  exists p1, p2. split; [done|]. split; [done|].
  pose proof (blocks_clean bs Hw). pose proof (disconnects_clean rm bs Hrm).
  eapply journal_weaken with (clean' := True) in R; [|tauto].
  eapply journal_weaken with (clean' := True) in R2; [|tauto].
  eapply observe_now; [exact R2|exact R| |].
  - pose proof (journal_disconnects rm bs j Hw (Z.to_nat MAX_REORG_CHECKPOINTS)) as Hj.
    cbn zeta in Hj. rewrite take_ge in Hj by (destruct R1; lia).
    set (j1 := foldl journal_step j _) in *.
    replace (mkJournal (j_now j1) (j_past j1)) with j1 in Hj by by destruct j1.
    apply Hj. lia.
  - rewrite (run_persisted blake3 _ _ _ E2). by apply (run_persisted blake3 _ _ _ E1).
Qed.

(** Without checkpoints a rewind touches no tree. *)
Lemma rewind_nothing rm rm' clean p c :
  journal_rel blake3 clean p (mkJournal c []) ->
  (phase2_rewind blake3 rm p).1 = (phase2_rewind blake3 rm' p).1
  /\ (phase2_rewind blake3 rm p).2 = (phase2_rewind blake3 rm' p).2.
Proof.
  intros [(sh&Eh&Hh) (sp&Ep&Hp) (kr&Ek&Hk) _]. unfold phase2_rewind. rewrite Eh, Ep, Ek. cbn.
  rewrite !(note_rewind _ _ _ _ _ _ Hh), !(spark_rewind _ _ _ _ _ _ _ Hp).
  by rewrite !(kernel_rewind _ _ _ _ _ _ Hk).
Qed.

(** A restart keeps the contents, the roots and the trees of every store but
    forgets the checkpoints: the next rewind reports failure for all three and
    changes nothing that can be observed. *)
Theorem phase2_restart_forgets_history rm ops p :
  let j := foldl journal_step (mkJournal empty_content []) ops in
  Forall op_clean ops ->
  ops_allowed (mkJournal empty_content []) ops ->
  Z.of_nat (length (cn_notes (j_now j))) <= 2 ^ 32 ->
  store_run blake3 fresh_stores ops = Some p ->
  exists p', reopen p = Some p' /\ observe p' = observe p
    /\ (phase2_rewind blake3 rm p').2 = [false; false; false]
    /\ observe (phase2_rewind blake3 rm p').1 = observe p.
Proof.
  intros j Hc Ha Hn Hp.
  destruct (store_run_refines blake3 ops True fresh_stores _ fresh_rel Ha) as (p'&E&R).
  assert (p' = p) as -> by congruence.
  eapply journal_weaken with (clean' := True) in R; [|tauto].
  assert (persisted p = Some (true, true, true)) as Hper
    by (rewrite (run_persisted blake3 _ _ _ E); done).
  destruct (reopen_rel p j R Hper Hn) as (q&Eq&Rq&Pq). exists q. split; [done|].
  assert (Hsame : (phase2_rewind blake3 rm q).1 = (phase2_rewind blake3 all_removed q).1
    /\ (phase2_rewind blake3 rm q).2 = (phase2_rewind blake3 all_removed q).2)
    by (by eapply rewind_nothing).
  destruct Hsame as [-> ->].
  destruct (disconnect_refines blake3 True q _ 0 all_removed Rq) as [Rr Fr].
  eapply journal_weaken with (clean' := True) in Rr; [|by repeat split].
  split; [eapply observe_now; [exact Rq|exact R|done|by rewrite Pq]|]. split; [exact Fr|].
  eapply observe_now; [exact Rr|exact R|done|].
  by rewrite (step_persisted blake3 q (OpDisconnect 0 all_removed) _ eq_refl), Pq.
Qed.

(** [mark_serial_spent] overwrites the height of a serial that is already
    spent, so that disconnecting the later block makes the serial spendable again,
    while a nullifier keeps its first height and stays spent. *)
Theorem respent_serial_forgotten (s : SparkStore) (sh : ShieldedStore T) n h0 h h1 :
  ss_spent_serials s !! n = Some h0 -> sd_nullifiers sh !! n = Some h0 -> h0 < h <= h1 ->
  (bt_checkpoint (sd_tree sh) h).1 = true ->
  (exists s', Spark.mark_serial_spent true (Spark.checkpoint_at_height s h) n h1 = Some s'
     /\ Spark.is_serial_spent s n = true
     /\ Spark.is_serial_spent (Spark.rewind blake3 (fun _ => true) (fun _ => true) s').2 n
        = false)
  /\ exists sh', Shielded.mark_nullifier_spent true (Shielded.checkpoint_at_height sh h) n h1
                 = Some (false, sh')
     /\ Shielded.is_nullifier_spent (Shielded.rewind (fun _ => true) (fun _ => true) sh').2 n
        = true.
Proof.
  intros Hs Hn Hh Hc. split.
  - assert (exists s', Spark.mark_serial_spent true (Spark.checkpoint_at_height s h) n h1 = Some s'
      /\ ss_spent_serials s' = <[n := h1]> (ss_spent_serials s)
      /\ ss_checkpoints s' = ss_checkpoints (Spark.checkpoint_at_height s h)) as (s'&E&S'&C').
    { unfold Spark.mark_serial_spent. cbn. destruct (ss_persistence s); cbn; eauto. }
    exists s'. split; [done|]. split; [unfold Spark.is_serial_spent; by rewrite Hs|].
    unfold Spark.rewind. rewrite C'. cbn [ss_checkpoints Spark.checkpoint_at_height].
    destruct (pop_push_checkpoint (ss_checkpoints s)
      (mkSparkCheckpoint h (length (ss_coins s)))) as [r ->].
    unfold Spark.is_serial_spent. cbn [snd ss_spent_serials sp_height].
    rewrite (delete_filtered (fun x => h <= x)), S'. apply bool_decide_eq_false.
    rewrite map_lookup_filter, lookup_insert_eq. cbn.
    rewrite option_guard_False by (cbn; lia). by intros [].
  - exists (Shielded.checkpoint_at_height sh h). unfold Shielded.mark_nullifier_spent,
      Shielded.checkpoint_at_height. destruct (bt_checkpoint (sd_tree sh) h) as [b t].
    cbn in Hc. subst b. cbn [sd_nullifiers]. rewrite decide_True by (by rewrite Hn).
    split; [done|]. unfold Shielded.rewind. cbn [sd_checkpoints].
    destruct (pop_push_checkpoint (sd_checkpoints sh)
      (mkShieldedCheckpoint h (size (sd_entries sh)))) as [r ->].
    cbn [sd_tree]. destruct (bt_rewind t). unfold Shielded.is_nullifier_spent.
    cbn [snd sd_nullifiers sh_height]. rewrite (delete_filtered (fun x => h <= x)).
    apply bool_decide_eq_true. rewrite map_lookup_filter, Hn. cbn.
    rewrite option_guard_True by (cbn; lia). eauto.
Qed.
End claims.

(** ** Witnesses *)

(** The tree library played by the list of leaves and the recorded lists. *)
Definition list_tree : Type := list Hash * list (Z * list Hash).

#[export] Instance list_bridge_tree : BridgeTree list_tree := {|
  bt_new := ([], []);
  bt_append t x := (t.1 ++ [x], t.2);
  bt_position t := if decide (t.1 = []) then None else Some (Z.of_nat (length t.1) - 1);
  bt_checkpoint t id :=
    match head t.2 with
    | Some e => if decide (id <= e.1) then (false, t)
                else (true, (t.1, take (Z.to_nat MAX_REORG_CHECKPOINTS) ((id, t.1) :: t.2)))
    | None => (true, (t.1, take (Z.to_nat MAX_REORG_CHECKPOINTS) ((id, t.1) :: t.2)))
    end;
  bt_rewind t := match t.2 with [] => (false, t) | e :: r => (true, (e.2, r)) end;
  bt_root t := Some (concat t.1);
|}.

#[export] Instance list_bridge_tree_laws : BridgeTreeLaws list_tree.
Proof.
  refine {| bt_leaves := fst; bt_past := snd |}; try done.
  - intros [l r] id H. cbn [bt_checkpoint list_bridge_tree fst snd] in *.
    destruct (head r) as [e|]; [|done]. specialize (H e eq_refl).
    rewrite decide_False by lia. done.
  - intros [l r] id e H Hle. cbn [bt_checkpoint list_bridge_tree fst snd] in *. rewrite H.
    by rewrite decide_True by lia.
  - intros [l r] H. cbn in *. by subst r.
  - intros [l r] e r' H. cbn in *. by subst r.
  - intros [l r] [l' r'] H. cbn in *. by subst.
Defined.

Definition demo_digest (l : list Z) : Hash := take 4 l.

(** One block with a note, a nullifier, a coin, a serial and a kernel. *)
Definition demo_block (h : Z) : Z * list store_op :=
  (h, [OpNote (mkNote [h] h 0 0); OpNullifier [h] h; OpCoin (mkSparkCoin (h - 1) [h] h);
       OpSerial [h] h; OpKernel (mkMwKernel [h] [] 1 h)]).

Definition demo_ops : list store_op := connect_ops (demo_block 1).

Lemma demo_ops_allowed :
  ops_allowed (mkJournal empty_content []) (demo_ops ++ concat (connect_ops <$> [demo_block 2; demo_block 3])).
Proof.
  assert (forall h m, bool_decide (map_Forall (fun _ x => x < h) (m : spent_map)) = true ->
    map_Forall (fun _ x => x < h) m) as HF by (intros ? ? HH; exact (bool_decide_eq_true_1 _ HH)).
  cbn. repeat split; try (intros t [= <-]; cbn; lia); try (intros t; discriminate); try lia;
    try (apply HF; vm_compute; reflexivity); vm_compute; reflexivity.
Defined.

(** Rewinds that remove nothing from the two trees of the Spark store. *)
Definition spark_unremoved : Removals :=
  mkRemovals (fun _ => true) (fun _ => true) (fun _ => false) (fun _ => false) (fun _ => true).



Definition demo_stores : Phase2 list_tree :=
  default (fresh_stores demo_digest) (store_run demo_digest (fresh_stores demo_digest) demo_ops).

Lemma phase2_rewind_restores_witness :
  exists p1 p2,
    store_run demo_digest demo_stores (concat (connect_ops <$> [demo_block 2; demo_block 3]))
    = Some p1
    /\ store_run demo_digest p1 (disconnect_ops all_removed [demo_block 2; demo_block 3]) = Some p2
    /\ observe p2 = observe demo_stores.
Proof.
  apply (phase2_rewind_restores demo_digest all_removed demo_ops [demo_block 2; demo_block 3]
    demo_stores).
  - repeat constructor.
  - by repeat split.
  - repeat constructor.
  - vm_compute. discriminate.
  - exact demo_ops_allowed.
  - vm_compute. reflexivity.
Defined.

Lemma phase2_restart_forgets_history_witness :
  exists p', reopen demo_digest demo_stores = Some p' /\ observe p' = observe demo_stores
    /\ (phase2_rewind demo_digest all_removed p').2 = [false; false; false]
    /\ observe (phase2_rewind demo_digest all_removed p').1 = observe demo_stores.
Proof.
  apply (phase2_restart_forgets_history demo_digest all_removed demo_ops demo_stores).
  - repeat constructor.
  - exact (proj1 (ops_allowed_split _ _ _ demo_ops_allowed)).
  - vm_compute. discriminate.
  - vm_compute. reflexivity.
Defined.

Lemma respent_serial_forgotten_witness :
  exists s', Spark.mark_serial_spent true
               (Spark.checkpoint_at_height (mkSparkStore [] {[ [7] := 1 ]} [] [] None) 2) [7] 2
             = Some s'
    /\ Spark.is_serial_spent (mkSparkStore [] {[ [7] := 1 ]} [] [] None) [7] = true
    /\ Spark.is_serial_spent (Spark.rewind demo_digest (fun _ => true) (fun _ => true) s').2 [7]
       = false.
Proof.
  apply (respent_serial_forgotten demo_digest (mkSparkStore [] {[ [7] := 1 ]} [] [] None)
           (mkShieldedStore list_tree ([], []) ∅ {[ [7] := 1 ]} [] None) [7] 1 2 2).
  - reflexivity.
  - reflexivity.
  - lia.
  - reflexivity.
Defined.

Definition spark_shown (p : Phase2 list_tree) : option (list Z * bool) :=
  (fun s => (sc_coin_id <$> ss_coins s, Spark.is_serial_spent s [1])) <$> p2_spark p.

(** A removal that fails leaves its row: here the coin and the serial of a
    disconnected block.  The running stores are rewound, the next start finds the
    coin in the accumulator and the serial spent again. *)
Example unremoved_rows_return :
  exists p p', store_run demo_digest (fresh_stores demo_digest)
                 (demo_ops ++ [OpDisconnect 1 spark_unremoved]) = Some p
    /\ spark_shown p = Some ([], false)
    /\ reopen demo_digest p = Some p' /\ spark_shown p' = Some ([0], true).
Proof. do 2 eexists. repeat split; vm_compute; reflexivity. Qed.

(** ** Inside the chain *)

#[local] Instance demo_real_phase2 : Phase2Stores (Phase2 list_tree) := phase2_stores demo_digest (fun _ => all_removed).

Abbreviation stored_chain := (Chain unit (Phase2 list_tree)).

Definition stored_empty : stored_chain :=
  set_finality (with_database empty_database ∅ Testnet (fresh_stores demo_digest)) None.

Definition stored_start : stored_chain :=
  match init_genesis demo_header_hash demo_tx_hash demo_genesis (fun _ => [0]) stored_empty with
  | Ret (c, _) => c | _ => stored_empty end.

Definition stored_next (c : stored_chain) (b : Block) : stored_chain :=
  match add_block demo_header_hash demo_tx_hash demo_tx_size demo_checkpoints true c 0 b with
  | Ret (c, _) => c | _ => c end.

Definition spark_heights (c : stored_chain) : option (list Z) :=
  (fun s => sp_height <$> ss_checkpoints s) <$> p2_spark (c_phase2 c).

(** The block that triggers a reorganisation is connected without a
    checkpoint: blocks extending the tip leave one checkpoint each, but after a
    one-block branch is replaced by the fork of heights one and two only height one
    has a checkpoint, so that disconnecting the tip would undo both blocks. *)
Theorem reorg_trigger_has_no_checkpoint :
  (let c := foldl stored_next stored_start [demo_a1; demo_a2] in
   c_heights c !! 2 = Some [2] /\ spark_heights c = Some [1; 2])
  /\ (let c := foldl stored_next stored_start [demo_a1; demo_f1; demo_f2] in
      c_heights c !! 1 = Some [11] /\ c_heights c !! 2 = Some [12]
      /\ spark_heights c = Some [1]).
Proof. vm_compute. repeat split. Qed.
