(* ===== verification/AuxPow.v ===== *)
(** * Merge-mining commitments

    The crate [auxpow]: Merkle branches ([merkle.rs]), the tag in the parent's
    coinbase with its deterministic slot ([commitment.rs]) and the verification of
    the chain of commitments ([auxpow.rs]).  The node hash is the source's trait
    [CommitmentHasher], here a class; BLAKE3's key derivation is the argument
    [derive_key].  Checking the parent's proof of work is outside the crate. *)

From stdpp Require Import prelude.
From Stdlib Require Import ZArith Lia.
From S2P Require Import Prelude Difficulty.

Local Open Scope Z_scope.

Inductive AuxPowError :=
  | TagNotFound (offset : Z)
  | TagTruncated (offset need have : Z)
  | MerkleSizeNotPow2 (size : Z)
  | BranchTooLong (len max : Z)
  | WrongMerkleSlot (expected actual nonce size : Z)
  | AuxBranchMismatch
  | CoinbaseBranchMismatch.

(** [u32::is_power_of_two], [usize::is_power_of_two]. *)
Definition is_power_of_two (n : Z) : bool := (0 <? n) && (Z.land n (n - 1) =? 0).

(** ** Branches *)

Definition MAX_BRANCH_LEN : Z := 32.

Record MerkleBranch := mkMerkleBranch { hashes : list Hash; side_mask : Z }.

Definition leaf_index (b : MerkleBranch) : Z :=
  if 32 <=? Z.of_nat (length (hashes b)) then side_mask b
  else Z.land (side_mask b) (Z.shiftl 1 (Z.of_nat (length (hashes b))) - 1).

Section branches.
Context (combine : Hash -> Hash -> Hash).

(** The loop of [fold], from the sibling at [level]. *)
Fixpoint fold_from (mask : Z) (level : nat) (siblings : list Hash) (acc : Hash) : Hash :=
  match siblings with
  | [] => acc
  | s :: siblings =>
      let sibling_on_left := Z.land (Z.shiftr mask (Z.of_nat level)) 1 =? 1 in
      fold_from mask (S level) siblings
        (if sibling_on_left then combine s acc else combine acc s)
  end.

Definition fold (b : MerkleBranch) (leaf : Hash) : result AuxPowError Hash :=
  let len := Z.of_nat (length (hashes b)) in
  if MAX_BRANCH_LEN <? len then Err (BranchTooLong len MAX_BRANCH_LEN)
  else Ok (fold_from (side_mask b) 0 (hashes b) leaf).

(** [level.chunks(2)] combined pairwise; [None] is the panic on an odd tail. *)
Fixpoint combine_pairs (level : list Hash) : option (list Hash) :=
  match level with
  | [] => Some []
  | a :: b :: rest => next ← combine_pairs rest; Some (combine a b :: next)
  | [_] => None
  end.

(** The loop of [build_branch]; every level halves, so the number of leaves is
    fuel enough. *)
Fixpoint build_loop (fuel : nat) (level : list Hash) (idx : nat) (hs : list Hash)
    (mask : Z) (lvl : Z) : option (MerkleBranch * Hash) :=
  match fuel with
  | O => None
  | S fuel =>
      if (1 <? length level)%nat then
        sibling ← level !! Nat.lxor idx 1;
        next ← combine_pairs level;
        build_loop fuel next (Nat.div2 idx) (hs ++ [sibling])
          (if Nat.odd idx then Z.lor mask (wrap32 (Z.shiftl 1 lvl)) else mask) (lvl + 1)
      else root ← level !! O; Some (mkMerkleBranch hs mask, root)
  end.

(** [None] is a failed assertion. *)
Definition build_branch (leaves : list Hash) (index : nat) : option (MerkleBranch * Hash) :=
  if negb (length leaves =? 0)%nat && is_power_of_two (Z.of_nat (length leaves))
     && (index <? length leaves)%nat
  then build_loop (length leaves) leaves index [] 0 0
  else None.

(** The root of [2 ^ k] leaves. *)
Fixpoint tree_root (k : nat) (leaves : list Hash) : option Hash :=
  match k with
  | O => leaves !! O
  | S k => next ← combine_pairs leaves; tree_root k next
  end.
End branches.

(** ** The tag *)

Definition MERGE_MINING_MAGIC : list Z := [250; 190; 109; 109].
Definition TAG_LEN : Z := 44.

(** [AuxChainId], 32 bytes. *)
Definition AuxChainId : Type := Hash.

(** The derivation context of [AuxChainId::derive], as bytes. *)
Definition derive (derive_key : list Z -> list Z -> Hash) (context : list Z)
    (protocol_version : Z) (genesis_hash network_magic parent_id : list Z) : AuxChainId :=
  derive_key context
    (le_bytes 4 protocol_version ++ genesis_hash ++ network_magic ++ parent_id).

Definition slot_seed (id : AuxChainId) : Z := le_val (take 4 id).

Record MergeMiningTag := mkTag { merkle_root : Hash; merkle_size : Z; nonce : Z }.

Definition encode (t : MergeMiningTag) : list Z :=
  MERGE_MINING_MAGIC ++ merkle_root t ++ le_bytes 4 (merkle_size t) ++ le_bytes 4 (nonce t).

(** [usize_max] is the bound of the offset addition. *)
Definition parse (coinbase : list Z) (offset : Z) : result AuxPowError MergeMiningTag :=
  match checked_add u64_max offset TAG_LEN with
  | None => Err (TagNotFound offset)
  | Some end_ =>
      let have := Z.of_nat (length coinbase) in
      if have <? end_ then Err (TagTruncated offset TAG_LEN (sat_sub have offset))
      else
        let bytes := take 44 (drop (Z.to_nat offset) coinbase) in
        if negb (bool_decide (take 4 bytes = MERGE_MINING_MAGIC)) then Err (TagNotFound offset)
        else
          let root := take 32 (drop 4 bytes) in
          let size := le_val (take 4 (drop 36 bytes)) in
          let nonce := le_val (take 4 (drop 40 bytes)) in
          if (size =? 0) || negb (is_power_of_two size) then Err (MerkleSizeNotPow2 size)
          else Ok (mkTag root size nonce)
  end.

Definition lcg (x : Z) : Z := wrap32 (wrap32 (x * 1103515245) + 12345).

Definition expected_slot (t : MergeMiningTag) (chain_id : AuxChainId) : Z :=
  let rand := lcg (nonce t) in
  let rand := wrap32 (rand + slot_seed chain_id) in
  let rand := lcg rand in
  rand mod merkle_size t.

(** ** The proof *)

Class CommitmentHasher := {
  aux_combine : Hash -> Hash -> Hash;
  coinbase_combine : Hash -> Hash -> Hash;
  coinbase_leaf : list Z -> Hash;
}.

(** [Blake3Hasher]. *)
Definition blake3_hasher (blake3 : list Z -> Hash) : CommitmentHasher :=
  {| aux_combine := fun l r => blake3 (l ++ r);
     coinbase_combine := fun l r => blake3 (l ++ r);
     coinbase_leaf := blake3 |}.

Record AuxPow := mkAuxPow {
  parent_coinbase : list Z;
  tag_offset : Z;
  aux_branch : MerkleBranch;
  coinbase_branch : MerkleBranch;
  parent_tx_merkle_root : Hash;
}.

Definition tag (a : AuxPow) : result AuxPowError MergeMiningTag :=
  parse (parent_coinbase a) (tag_offset a).

Definition verify_commitment `{!CommitmentHasher} (a : AuxPow) (child_hash : Hash)
    (chain_id : AuxChainId) : result AuxPowError unit :=
  t ← tag a;
  let expected := expected_slot t chain_id in
  let actual := leaf_index (aux_branch a) in
  if negb (actual =? expected) then
    Err (WrongMerkleSlot expected actual (nonce t) (merkle_size t))
  else
    aux_root ← fold aux_combine (aux_branch a) child_hash;
    if negb (bool_decide (aux_root = merkle_root t)) then Err AuxBranchMismatch
    else
      coinbase_root ← fold coinbase_combine (coinbase_branch a)
                        (coinbase_leaf (parent_coinbase a));
      if negb (bool_decide (coinbase_root = parent_tx_merkle_root a))
      then Err CoinbaseBranchMismatch
      else Ok tt.

(** ** Lemmas *)

Lemma lxor_one_even n : Nat.odd n = false -> Nat.lxor n 1 = S n /\ n = (2 * Nat.div2 n)%nat.
Proof.
  intros H. pose proof (Nat.div2_odd n) as E. rewrite H in E. cbn [Nat.b2n] in E.
  split; [|lia]. rewrite E at 1. rewrite Nat.add_0_r.
  apply Nat.bits_inj. intros i. rewrite Nat.lxor_spec.
  replace (S n) with (2 * Nat.div2 n + 1)%nat by lia.
  destruct i as [|i].
  - rewrite Nat.testbit_even_0, Nat.testbit_odd_0. done.
  - rewrite Nat.testbit_even_succ, Nat.testbit_odd_succ by lia.
    by rewrite (Nat.bits_above_log2 1 (S i)) by (cbn; lia); rewrite xorb_false_r.
Qed.

Lemma lxor_one_odd n : Nat.odd n = true -> Nat.lxor n 1 = Nat.pred n
  /\ n = (2 * Nat.div2 n + 1)%nat.
Proof.
  intros H. pose proof (Nat.div2_odd n) as E. rewrite H in E. cbn [Nat.b2n] in E.
  split; [|lia]. rewrite E at 1.
  apply Nat.bits_inj. intros i. rewrite Nat.lxor_spec.
  replace (Nat.pred n) with (2 * Nat.div2 n)%nat by lia.
  destruct i as [|i].
  - rewrite Nat.testbit_even_0, Nat.testbit_odd_0. done.
  - rewrite Nat.testbit_even_succ, Nat.testbit_odd_succ by lia.
    by rewrite (Nat.bits_above_log2 1 (S i)) by (cbn; lia); rewrite xorb_false_r.
Qed.

(** Bits at and above the level of an index shifted into place. *)
Lemma mask_bit m idx l :
  0 <= m < 2 ^ l -> 0 <= l -> Z.shiftr (m + idx * 2 ^ l) l = idx.
Proof.
  intros Hm Hl. rewrite Z.shiftr_div_pow2 by done.
  rewrite Z.div_add by (pose proof (Z.pow_pos_nonneg 2 l); lia). rewrite Z.div_small by done. lia.
Qed.

Lemma lor_high m l : 0 <= l -> 0 <= m < 2 ^ l -> Z.lor m (2 ^ l) = m + 2 ^ l.
Proof.
  intros Hl Hm. rewrite Z.add_nocarry_lxor, Z.lxor_lor; [done| |].
  all: apply Z.bits_inj'; intros i Hi; rewrite Z.land_spec, Z.bits_0, Z.pow2_bits_eqb by done;
    destruct (Z.eqb_spec l i) as [->|]; rewrite ?andb_false_r; try done;
    rewrite andb_true_r; destruct (decide (m = 0)) as [->|]; [apply Z.bits_0|];
    apply Z.bits_above_log2; [lia|]; apply Z.log2_lt_pow2; lia.
Qed.

Lemma land_one_odd n : (Z.land (Z.of_nat n) 1 =? 1) = Nat.odd n.
Proof.
  change (Z.land (Z.of_nat n) 1) with (Z.land (Z.of_nat n) (Z.ones 1)).
  rewrite Z.land_ones by lia. pose proof (Nat.div2_odd n) as E.
  destruct (Nat.odd n); cbn [Nat.b2n] in E; change (2 ^ 1) with 2.
  - apply Z.eqb_eq. rewrite E. Z.to_euclidean_division_equations; lia.
  - apply Z.eqb_neq. rewrite E. Z.to_euclidean_division_equations; lia.
Qed.

Lemma shifted_bit m l :
  (Z.land (Z.shiftr m (Z.of_nat l)) 1 =? 1) = Z.testbit m (Z.of_nat l).
Proof.
  change (Z.land (Z.shiftr m (Z.of_nat l)) 1)
    with (Z.land (Z.shiftr m (Z.of_nat l)) (Z.ones 1)).
  rewrite Z.land_ones by lia. change (2 ^ 1) with 2. rewrite Zmod_odd.
  rewrite <- Z.bit0_odd, Z.shiftr_spec by lia. cbn. by destruct (Z.testbit _ _).
Qed.

Section branch_lemmas.
Context (combine : Hash -> Hash -> Hash).

Lemma combine_pairs_spec n : forall l, length l = (2 * n)%nat ->
  exists next, combine_pairs combine l = Some next /\ length next = n
    /\ forall i a b, l !! (2 * i)%nat = Some a -> l !! (2 * i + 1)%nat = Some b ->
       next !! i = Some (combine a b).
Proof.
  induction n as [|n IH]; intros l Hl.
  - destruct l; [|done]. exists []. split_and!; try done.
  - destruct l as [|x [|y l]]; cbn in Hl; try lia.
    destruct (IH l) as (next&E&Hn&Hnext); [lia|]. cbn. rewrite E. cbn.
    exists (combine x y :: next). split_and!; [done|cbn; lia|].
    intros [|i] a b Ha Hb; cbn in *; [congruence|]. apply Hnext.
    + by replace (2 * i)%nat with (i + (i + 0))%nat by lia;
        replace (i + S (i + 0))%nat with (S (i + (i + 0))) in Ha by lia.
    + by replace (i + S (i + 0) + 1)%nat with (S (2 * i + 1)) in Hb by lia.
Qed.

Lemma pow2_double k : (2 ^ S k)%nat = (2 * 2 ^ k)%nat.
Proof. cbn. lia. Qed.

Lemma build_loop_spec k : forall fuel level idx leaf hs mask lvl,
  length level = (2 ^ k)%nat -> (k < fuel)%nat -> level !! idx = Some leaf ->
  0 <= lvl -> lvl + Z.of_nat k <= 32 -> 0 <= mask < 2 ^ lvl ->
  length hs = Z.to_nat lvl ->
  exists up root,
    build_loop combine fuel level idx hs mask lvl
    = Some (mkMerkleBranch (hs ++ up) (mask + Z.of_nat idx * 2 ^ lvl), root)
    /\ length up = k
    /\ tree_root combine k level = Some root
    /\ fold_from combine (mask + Z.of_nat idx * 2 ^ lvl) (Z.to_nat lvl) up leaf = root.
Proof.
  induction k as [|k IH]; intros fuel level idx leaf hs mask lvl Hlen Hf Hleaf Hl0 Hl Hm Hhs;
    (destruct fuel as [|fuel]; [lia|]).
  - assert (idx = O) as -> by (apply lookup_lt_Some in Hleaf; rewrite Hlen in Hleaf; cbn in Hleaf; lia).
    cbn [build_loop]. rewrite Hlen. cbn. rewrite Hleaf. cbn.
    exists [], leaf. rewrite app_nil_r, Z.add_0_r. done.
  - rewrite pow2_double in Hlen.
    destruct (combine_pairs_spec (2 ^ k) level Hlen) as (next&En&Hn&Hnext).
    assert (1 < length level)%nat as H1
      by (rewrite Hlen; pose proof (Nat.pow_nonzero 2 k); lia).
    assert (idx < length level)%nat as Hi by by eapply lookup_lt_Some.
    assert (wrap32 (Z.shiftl 1 lvl) = 2 ^ lvl) as Hw.
    { rewrite Z.shiftl_1_l. unfold wrap32. apply Z.mod_small. split; [lia|].
      change 4294967296 with (2 ^ 32). apply Z.pow_lt_mono_r; lia. }
    cbn [build_loop]. rewrite (proj2 (Nat.ltb_lt _ _) H1), En, Hw.
    assert (exists s node, level !! Nat.lxor idx 1 = Some s
      /\ next !! Nat.div2 idx = Some node
      /\ node = (if Nat.odd idx then combine s leaf else combine leaf s)) as (s&node&Hs&Hnode&En').
    { destruct (Nat.odd idx) eqn:Eo.
      - destruct (lxor_one_odd idx Eo) as [-> Ei].
        destruct (lookup_lt_is_Some_2 level (Nat.pred idx)) as [s Hs]; [lia|].
        exists s, (combine s leaf). split_and!; try done. apply Hnext.
        + by replace (2 * Nat.div2 idx)%nat with (Nat.pred idx) by lia.
        + by rewrite <- Ei.
      - destruct (lxor_one_even idx Eo) as [-> Ei].
        destruct (lookup_lt_is_Some_2 level (S idx)) as [s Hs]; [lia|].
        exists s, (combine leaf s). split_and!; try done. apply Hnext.
        + by rewrite <- Ei.
        + by replace (2 * Nat.div2 idx + 1)%nat with (S idx) by lia. }
    rewrite Hs. cbn [mbind option_bind].
    pose proof (Nat.div2_odd idx) as Eidx.
    assert (0 <= (if Nat.odd idx then Z.lor mask (2 ^ lvl) else mask) < 2 ^ (lvl + 1)
      /\ (if Nat.odd idx then Z.lor mask (2 ^ lvl) else mask) + Z.of_nat (Nat.div2 idx) * 2 ^ (lvl + 1)
         = mask + Z.of_nat idx * 2 ^ lvl) as [Hm' Emask].
    { rewrite Z.pow_add_r by lia. rewrite lor_high by done.
      destruct (Nat.odd idx); cbn [Nat.b2n] in Eidx; nia. }
    destruct (IH fuel next (Nat.div2 idx) node (hs ++ [s])
      (if Nat.odd idx then Z.lor mask (2 ^ lvl) else mask) (lvl + 1)) as (up&root&E&Hup&Hr&Hfold);
      try done; try lia.
    { rewrite length_app. cbn. lia. }
    rewrite E, Emask in *. exists (s :: up), root. split_and!.
    + by rewrite <- app_assoc.
    + cbn. lia.
    + cbn [tree_root]. by rewrite En.
    + cbn [fold_from]. rewrite Z2Nat.id, mask_bit by done.
      replace (Z.to_nat (lvl + 1)) with (S (Z.to_nat lvl)) in Hfold by lia.
      rewrite <- Hfold. f_equal. rewrite En'.
      rewrite land_one_odd. by destruct (Nat.odd idx).
Qed.

Lemma leaf_index_low hs mask :
  (length hs <= 32)%nat -> 0 <= mask < 2 ^ Z.of_nat (length hs) ->
  leaf_index (mkMerkleBranch hs mask) = mask.
Proof.
  intros Hl Hm. unfold leaf_index. cbn. split_if; [done|].
  rewrite Z.shiftl_1_l. change (2 ^ Z.of_nat (length hs) - 1) with (Z.pred (2 ^ Z.of_nat (length hs))).
  rewrite <- Z.ones_equiv, Z.land_ones by lia. by apply Z.mod_small.
Qed.

(** The bits a branch of [n] levels uses are those of its index. *)
Lemma fold_from_mask n : forall m1 m2 lvl hs acc,
  length hs = n -> (forall i, (lvl <= i < lvl + n)%nat ->
    Z.testbit m1 (Z.of_nat i) = Z.testbit m2 (Z.of_nat i)) ->
  fold_from combine m1 lvl hs acc = fold_from combine m2 lvl hs acc.
Proof.
  induction n as [|n IH]; intros m1 m2 lvl [|s hs] acc Hl Hb; try done. cbn [fold_from].
  rewrite !shifted_bit. rewrite (Hb lvl) by lia. apply IH; [cbn in Hl; lia|].
  intros i Hi. apply Hb. lia.
Qed.

(** Two branches of one length and side pattern that reach one root carry one
    leaf, up to a collision of the node hash. *)
Lemma fold_from_binds n : forall m lvl hs1 hs2 x y,
  length hs1 = n -> length hs2 = n ->
  fold_from combine m lvl hs1 x = fold_from combine m lvl hs2 y ->
  x = y \/ exists a b c d, (a, b) <> (c, d) /\ combine a b = combine c d.
Proof.
  induction n as [|n IH]; intros m lvl [|s1 hs1] [|s2 hs2] x y H1 H2 E; cbn in *; try lia.
  { by left. }
  destruct (IH m (S lvl) hs1 hs2 _ _ ltac:(lia) ltac:(lia) E) as [Hn|]; [|by right].
  destruct (_ =? 1).
  - destruct (decide ((s1, x) = (s2, y))) as [[=]|Hne]; [by left|]. right. eauto 8.
  - destruct (decide ((x, s1) = (y, s2))) as [[=]|Hne]; [by left|]. right. eauto 8.
Qed.
End branch_lemmas.

Lemma is_power_of_two_pow k : is_power_of_two (2 ^ Z.of_nat k) = true.
Proof.
  unfold is_power_of_two. pose proof (Z.pow_pos_nonneg 2 (Z.of_nat k)).
  apply andb_true_iff. split; [apply Z.ltb_lt; lia|]. apply Z.eqb_eq.
  change (2 ^ Z.of_nat k - 1) with (Z.pred (2 ^ Z.of_nat k)).
  rewrite <- Z.ones_equiv, Z.land_ones by lia. apply Z.mod_same. lia.
Qed.

(** ** Properties *)

(** The branch built for a leaf of a tree of [2 ^ k] leaves, [k] up to 32, has
    [k] siblings, names the leaf's index and folds the leaf to the root of the
    tree, which does not depend on the leaf chosen. *)
Theorem build_branch_folds combine k leaves index leaf :
  length leaves = (2 ^ k)%nat -> (k <= 32)%nat -> leaves !! index = Some leaf ->
  exists b root, build_branch combine leaves index = Some (b, root)
    /\ tree_root combine k leaves = Some root
    /\ length (hashes b) = k /\ leaf_index b = Z.of_nat index
    /\ fold combine b leaf = Ok root.
Proof.
  intros Hl Hk Hleaf. assert (index < length leaves)%nat as Hi by by eapply lookup_lt_Some.
  assert (k < 2 ^ k)%nat as Hfuel by (apply Nat.pow_gt_lin_r; lia).
  destruct (build_loop_spec combine k (length leaves) leaves index leaf [] 0 0)
    as (up&root&E&Hup&Hr&Hf); try done; try lia.
  rewrite Z.mul_1_r, Z.add_0_l, app_nil_l in *.
  exists (mkMerkleBranch up (Z.of_nat index)), root.
  unfold build_branch. rewrite (proj2 (Nat.ltb_lt _ _) Hi), (proj2 (Nat.eqb_neq _ _)) by lia.
  assert (Z.of_nat (length leaves) = 2 ^ Z.of_nat k) as Hz by (rewrite Hl; apply Nat2Z.inj_pow).
  rewrite Hz, is_power_of_two_pow, E. cbn [negb andb hashes side_mask]. split_and!; try done.
  - apply leaf_index_low; [lia|]. rewrite Hup. lia.
  - unfold fold, MAX_BRANCH_LEN. cbn [hashes side_mask].
    rewrite (proj2 (Z.ltb_ge _ _)) by lia. f_equal. exact Hf.
Qed.

Definition tag_wf (t : MergeMiningTag) : Prop :=
  length (merkle_root t) = 32%nat /\ is_u32 (merkle_size t) /\ is_u32 (nonce t).

Lemma encode_length t : tag_wf t -> length (encode t) = 44%nat.
Proof.
  intros (H&_). unfold encode. rewrite !length_app, !le_bytes_length, H. done.
Qed.

Lemma u32_le_val z : is_u32 z -> le_val (le_bytes 4 z) = z.
Proof. intros H. apply le_val_le_bytes. word_lia. Qed.

Lemma parse_encode pre post t :
  tag_wf t -> is_power_of_two (merkle_size t) = true ->
  Z.of_nat (length pre) + TAG_LEN <= u64_max ->
  parse (pre ++ encode t ++ post) (Z.of_nat (length pre)) = Ok t.
Proof.
  intros Hwf Hp Hlen. pose proof (encode_length t Hwf) as He. destruct Hwf as (Hr&Hs&Hn).
  unfold parse, checked_add. rewrite (proj2 (Z.leb_le _ _) Hlen).
  rewrite !length_app, He, (proj2 (Z.ltb_ge _ _)) by (unfold TAG_LEN; lia).
  rewrite Nat2Z.id, drop_app_length.
  rewrite take_app_length' by done.
  unfold encode. set (body := merkle_root t ++ _).
  assert (take 4 (MERGE_MINING_MAGIC ++ body) = MERGE_MINING_MAGIC) as -> by done.
  assert (drop 4 (MERGE_MINING_MAGIC ++ body) = body) as -> by done.
  rewrite bool_decide_true by done. cbn [negb].
  assert (take 32 body = merkle_root t) as -> by by apply take_app_length'.
  assert (drop 36 (MERGE_MINING_MAGIC ++ body) = le_bytes 4 (merkle_size t) ++ le_bytes 4 (nonce t))
    as -> by (change (drop 32 body = le_bytes 4 (merkle_size t) ++ le_bytes 4 (nonce t));
              by apply drop_app_length').
  assert (drop 40 (MERGE_MINING_MAGIC ++ body) = le_bytes 4 (nonce t)) as ->.
  { change (drop (32 + 4) body = le_bytes 4 (nonce t)). rewrite <- drop_drop.
    unfold body. rewrite (drop_app_length' (merkle_root t)) by done.
    apply drop_app_length'. by rewrite le_bytes_length. }
  rewrite take_app_length' by by rewrite le_bytes_length.
  rewrite (take_ge (le_bytes 4 (nonce t))) by (rewrite le_bytes_length; lia).
  rewrite !u32_le_val, Hp by done. cbn [negb].
  assert ((merkle_size t =? 0) = false) as ->; [|by destruct t].
  unfold is_power_of_two in Hp. apply andb_true_iff in Hp as [Hp _]. lia.
Qed.

Lemma parse_inv cb off t' :
  Forall is_u8 cb -> 0 <= off -> parse cb off = Ok t' ->
  take 44 (drop (Z.to_nat off) cb) = encode t' /\ is_power_of_two (merkle_size t') = true.
Proof.
  intros Hb Ho. unfold parse. destruct (checked_add u64_max off TAG_LEN) as [e|] eqn:Ee; [|done].
  unfold checked_add in Ee. destruct (off + TAG_LEN <=? u64_max); [|done].
  injection Ee as <-.
  destruct (Z.of_nat (length cb) <? off + TAG_LEN) eqn:El; [done|].
  apply Z.ltb_ge in El. set (bs := take 44 (drop (Z.to_nat off) cb)).
  assert (length bs = 44%nat) as Hlb.
  { unfold bs. rewrite length_take, length_drop. unfold TAG_LEN in El. lia. }
  assert (Forall is_u8 bs) as Hbs by (unfold bs; by apply Forall_take, Forall_drop).
  destruct (bool_decide (take 4 bs = MERGE_MINING_MAGIC)) eqn:Em; [|done].
  apply bool_decide_eq_true in Em. cbn [negb].
  destruct ((_ =? 0) || _) eqn:Es; [done|]. apply orb_false_iff in Es as [_ Es].
  apply negb_false_iff in Es. intros [= <-]. split; [|done]. unfold encode. cbn [merkle_root
    merkle_size nonce].
  assert (forall n, (n + 4 <= 44)%nat -> le_bytes 4 (le_val (take 4 (drop n bs))) = take 4 (drop n bs))
    as Hle.
  { intros n Hn. rewrite <- (le_bytes_le_val (take 4 (drop n bs))) at 2
      by (by apply Forall_take, Forall_drop).
    f_equal. rewrite length_take, length_drop. lia. }
  rewrite !Hle by lia. rewrite <- Em.
  rewrite <- (take_drop 4 bs) at 1. f_equal.
  rewrite <- (take_drop 32 (drop 4 bs)) at 1. rewrite drop_drop. f_equal.
  rewrite <- (take_drop 4 (drop (4 + 32) bs)) at 1. rewrite drop_drop. f_equal.
  rewrite take_ge; [done|]. rewrite length_drop. lia.
Qed.

(** A tag with a power-of-two size is read back from a coinbase that carries
    its encoding, wherever it sits, and whatever is read from a coinbase of bytes
    is the tag those bytes encode. *)
Theorem tag_roundtrip pre post t :
  tag_wf t -> is_power_of_two (merkle_size t) = true ->
  Z.of_nat (length pre) + TAG_LEN <= u64_max ->
  parse (pre ++ encode t ++ post) (Z.of_nat (length pre)) = Ok t
  /\ forall coinbase offset t', Forall is_u8 coinbase -> 0 <= offset ->
     parse coinbase offset = Ok t' ->
     take 44 (drop (Z.to_nat offset) coinbase) = encode t'
     /\ is_power_of_two (merkle_size t') = true.
Proof. intros. split; [by apply parse_encode|exact parse_inv]. Qed.

(** ** What verification means *)

Section verification.
Context `{!CommitmentHasher}.

Lemma fold_ok combine b leaf root :
  fold combine b leaf = Ok root <->
  (length (hashes b) <= 32)%nat /\ fold_from combine (side_mask b) 0 (hashes b) leaf = root.
Proof.
  unfold fold, MAX_BRANCH_LEN. destruct (_ <? _) eqn:E.
  - split; [done|]. lia.
  - split; [intros [= <-]; split; [lia|done]|]. by intros [_ ->].
Qed.

Lemma verify_ok a child id :
  verify_commitment a child id = Ok tt <->
  exists t, tag a = Ok t /\ leaf_index (aux_branch a) = expected_slot t id
    /\ fold aux_combine (aux_branch a) child = Ok (merkle_root t)
    /\ fold coinbase_combine (coinbase_branch a) (coinbase_leaf (parent_coinbase a))
       = Ok (parent_tx_merkle_root a).
Proof.
  unfold verify_commitment. rewrite bind_ok. split.
  - intros (t&Ht&Hv). exists t. split; [done|].
    destruct (Z.eqb_spec (leaf_index (aux_branch a)) (expected_slot t id)) as [E|]; [|done].
    split; [done|]. cbn in Hv. apply bind_ok in Hv as (r&Hr&Hv).
    destruct (bool_decide_reflect (r = merkle_root t)) as [->|]; [|done]. split; [done|].
    cbn in Hv. apply bind_ok in Hv as (c&Hc&Hv).
    by destruct (bool_decide_reflect (c = parent_tx_merkle_root a)) as [->|].
  - intros (t&Ht&Hi&Hf&Hc). exists t. split; [done|]. rewrite Hi, Z.eqb_refl. cbn [negb].
    rewrite Hf. cbn. rewrite bool_decide_true by done. cbn. rewrite Hc. cbn.
    by rewrite bool_decide_true by done.
Qed.

(** Branches of one length with one index test the same bits. *)
Lemma same_index_bits b1 b2 :
  length (hashes b1) = length (hashes b2) -> (length (hashes b1) <= 32)%nat ->
  leaf_index b1 = leaf_index b2 ->
  forall i, (i < length (hashes b1))%nat ->
  Z.testbit (side_mask b1) (Z.of_nat i) = Z.testbit (side_mask b2) (Z.of_nat i).
Proof.
  unfold leaf_index. intros Hl Hn. rewrite <- Hl.
  destruct (32 <=? _) eqn:E; [by intros ->|].
  rewrite Z.shiftl_1_l. set (n := Z.of_nat (length (hashes b1))).
  change (2 ^ n - 1) with (Z.pred (2 ^ n)). rewrite <- Z.ones_equiv, !Z.land_ones by lia.
  intros Hm i Hi. rewrite <- (Z.mod_pow2_bits_low (side_mask b1) n) by lia.
  rewrite Hm. apply Z.mod_pow2_bits_low. lia.
Qed.

(** Two proofs over one tag whose branches have the same length verify for one
    child only, up to a collision of the node hash. *)
Theorem same_depth_child_unique a1 a2 x y id :
  tag a1 = tag a2 -> length (hashes (aux_branch a1)) = length (hashes (aux_branch a2)) ->
  verify_commitment a1 x id = Ok tt -> verify_commitment a2 y id = Ok tt ->
  x = y \/ exists a b c d, (a, b) <> (c, d) /\ aux_combine a b = aux_combine c d.
Proof.
  intros Et El V1 V2. apply verify_ok in V1 as (t&T1&I1&F1&_), V2 as (t'&T2&I2&F2&_).
  assert (t' = t) as -> by congruence. apply fold_ok in F1 as [L1 F1], F2 as [L2 F2].
  rewrite (fold_from_mask aux_combine _ (side_mask (aux_branch a1)) (side_mask (aux_branch a2)) 0
    (hashes (aux_branch a1)) x eq_refl) in F1.
  - apply (fold_from_binds aux_combine _ (side_mask (aux_branch a2)) 0
      (hashes (aux_branch a1)) (hashes (aux_branch a2)) x y El eq_refl). by rewrite F1, F2.
  - intros i Hi. apply same_index_bits; [done|done|congruence|lia].
Qed.

Lemma wrap32_parity x : wrap32 x mod 2 = x mod 2.
Proof. unfold wrap32. Z.to_euclidean_division_equations; lia. Qed.

Lemma lcg_parity x : lcg x mod 2 = (x + 1) mod 2.
Proof.
  unfold lcg. rewrite wrap32_parity. pose proof (wrap32_parity (x * 1103515245)) as E.
  Z.to_euclidean_division_equations; lia.
Qed.

(** In a tree of size two the miner picks the slot with the parity of the nonce. *)
Lemma slot_of_parity root n id : expected_slot (mkTag root 2 n) id = (n + slot_seed id) mod 2.
Proof.
  unfold expected_slot. cbn [nonce merkle_size]. rewrite lcg_parity.
  pose proof (wrap32_parity (lcg n + slot_seed id)) as E1. pose proof (lcg_parity n) as E2.
  Z.to_euclidean_division_equations; lia.
Qed.

(** C20: Verification never compares the length of the aux branch with the tree
    size of the tag, so one parent solution carries two different children of one
    chain: for any two children there is one coinbase, tag, coinbase branch and
    parent root under which both are verified, one leaf a level deeper than the
    other. *)
Theorem one_tag_two_children x y id :
  (forall l r, length (aux_combine l r) = 32%nat) ->
  exists a1 a2,
    parent_coinbase a1 = parent_coinbase a2 /\ tag_offset a1 = tag_offset a2
    /\ coinbase_branch a1 = coinbase_branch a2
    /\ parent_tx_merkle_root a1 = parent_tx_merkle_root a2
    /\ verify_commitment a1 x id = Ok tt /\ verify_commitment a2 y id = Ok tt.
Proof.
  intros H32. set (yy := aux_combine x y). set (root := aux_combine yy x).
  set (n := (1 + slot_seed id) mod 2). set (t := mkTag root 2 n).
  set (cb := encode t). set (top := coinbase_leaf cb).
  exists (mkAuxPow cb 0 (mkMerkleBranch [yy] 1) (mkMerkleBranch [] 0) top),
         (mkAuxPow cb 0 (mkMerkleBranch [x; x] 1) (mkMerkleBranch [] 0) top).
  assert (parse cb 0 = Ok t) as Hp.
  { unfold cb. rewrite <- (app_nil_r (encode t)).
    apply (parse_encode [] [] t); [|done|done]. unfold t, n. split_and!; cbn; [apply H32|done|].
    pose proof (Z.mod_pos_bound (1 + slot_seed id) 2). word_lia. }
  assert (expected_slot t id = 1) as Hs.
  { unfold t. rewrite slot_of_parity. unfold n. Z.to_euclidean_division_equations; lia. }
  split_and!; try done; apply verify_ok; exists t; (split; [exact Hp|]);
    rewrite Hs; split_and!; done.
Qed.
End verification.

(** ** Witnesses *)

Definition demo_hasher : CommitmentHasher :=
  {| aux_combine := fun l r => take 32 (l ++ r ++ replicate 32 0);
     coinbase_combine := fun l r => l ++ r;
     coinbase_leaf := fun c => c |}.

Lemma build_branch_folds_witness :
  exists b root,
    build_branch (fun l r => l ++ r) [[1]; [2]; [3]; [4]] 2 = Some (b, root)
    /\ tree_root (fun l r => l ++ r) 2 [[1]; [2]; [3]; [4]] = Some root
    /\ length (hashes b) = 2%nat /\ leaf_index b = 2
    /\ fold (fun l r => l ++ r) b [3] = Ok root.
Proof.
  apply (build_branch_folds (fun l r => l ++ r) 2 [[1]; [2]; [3]; [4]] 2 [3]);
    [reflexivity|lia|reflexivity].
Defined.

Lemma tag_roundtrip_witness :
  parse ([9; 9] ++ encode (mkTag (replicate 32 7) 4 5) ++ [9]) 2 = Ok (mkTag (replicate 32 7) 4 5).
Proof.
  apply (tag_roundtrip [9; 9] [9] (mkTag (replicate 32 7) 4 5)).
  - split; [reflexivity|]. unfold is_u32, u32_max. cbn. lia.
  - reflexivity.
  - vm_compute. discriminate.
Defined.

Definition demo_aux (leaf_sibling : Z) : AuxPow :=
  mkAuxPow (encode (mkTag (take 32 ([leaf_sibling; 5] ++ replicate 32 0)) 2 1)) 0
    (mkMerkleBranch [[leaf_sibling]] 1) (mkMerkleBranch [] 0)
    (encode (mkTag (take 32 ([leaf_sibling; 5] ++ replicate 32 0)) 2 1)).

Lemma same_depth_child_unique_witness :
  [5] = [5] \/ exists a b c d, (a, b) <> (c, d)
    /\ @aux_combine demo_hasher a b = @aux_combine demo_hasher c d.
Proof.
  apply (@same_depth_child_unique demo_hasher (demo_aux 8) (demo_aux 8) [5] [5] [0]);
    reflexivity.
Defined.

Lemma one_tag_two_children_witness :
  exists a1 a2,
    parent_coinbase a1 = parent_coinbase a2 /\ tag_offset a1 = tag_offset a2
    /\ coinbase_branch a1 = coinbase_branch a2
    /\ parent_tx_merkle_root a1 = parent_tx_merkle_root a2
    /\ @verify_commitment demo_hasher a1 [1] [0] = Ok tt
    /\ @verify_commitment demo_hasher a2 [2] [0] = Ok tt.
Proof.
  apply (@one_tag_two_children demo_hasher [1] [2] [0]).
  intros l r. change (length (take 32 (l ++ r ++ replicate 32 0)) = 32%nat).
  rewrite length_take, !length_app, length_replicate. lia.
Defined.
