(* ===== verification/Frost.v ===== *)
(** * FROST signing sessions

    The crate [coincync-frost-coordinator]: the session state machine of
    [session.rs] and the invitation tokens of [invitations.rs].  The coordinator
    only routes public bytes, so commitments, shares and signatures are byte
    strings.  HMAC-SHA256 is the argument [hmac]; times are Unix seconds in 64
    bits. *)

From stdpp Require Import prelude gmap strings pretty.
From Stdlib Require Import ZArith Lia.
From S2P Require Import Prelude.

Local Open Scope Z_scope.

(** ** Data *)

Definition INVITED_TIMEOUT_SECS : Z := 7 * 24 * 60 * 60.
Definition ROUND_1_TIMEOUT_SECS : Z := 60 * 60.
Definition ROUND_2_TIMEOUT_SECS : Z := 60 * 60.

(** The 16 bytes of a UUID; the 32 bytes of a public key. *)
Definition SessionId : Type := list Z.
Definition ParticipantId : Type := list Z.

#[export] Instance participant_eq_dec : EqDecision ParticipantId := _ : EqDecision (list Z).
#[export] Instance participant_countable : Countable ParticipantId := _ : Countable (list Z).

Record ParticipantState := mkParticipant {
  attached : bool;
  commitment : option (list Z);
  sig_share : option (list Z);
}.

Definition invited : ParticipantState := mkParticipant false None None.

Inductive SessionState :=
  Created | Invited | Round1 | Round2 | Aggregated | Aborted | Expired.

#[export] Instance session_state_eq_dec : EqDecision SessionState.
Proof. solve_decision. Defined.

Definition is_terminal (s : SessionState) : bool :=
  match s with Aggregated | Aborted | Expired => true | _ => false end.

Definition timeout_secs (s : SessionState) : option Z :=
  match s with
  | Created | Invited => Some INVITED_TIMEOUT_SECS
  | Round1 => Some ROUND_1_TIMEOUT_SECS
  | Round2 => Some ROUND_2_TIMEOUT_SECS
  | Aggregated | Aborted | Expired => None
  end.

Definition name (s : SessionState) : string :=
  match s with
  | Created => "Created" | Invited => "Invited" | Round1 => "Round1" | Round2 => "Round2"
  | Aggregated => "Aggregated" | Aborted => "Aborted" | Expired => "Expired"
  end.

Record Session := mkSession {
  s_id : SessionId;
  s_state : SessionState;
  s_threshold : Z;
  s_total : Z;
  s_group_pubkey : list Z;
  s_creator : ParticipantId;
  s_message : option (list Z);
  s_participants : gmap ParticipantId ParticipantState;
  s_aggregate_signature : option (list Z);
  s_created_at : Z;
  s_state_entered_at : Z;
}.

Inductive CoordinatorError :=
  | InvalidTransition (transition state : string)
  | UnauthorizedParticipant
  | SessionTerminal (state : string)
  | SessionExpired (state : string)
  | ThresholdViolation (what : string)
  | DuplicateAction (what : string)
  | Internal (what : string).

Inductive Transition :=
  | AttachParticipant (participant : ParticipantId)
  | DeclareMessage (message : list Z)
  | SubmitRound1 (participant : ParticipantId) (commitment : list Z)
  | SubmitRound2 (participant : ParticipantId) (sig_share : list Z)
  | SubmitAggregate (signature : list Z)
  | AbortSession (participant : ParticipantId)
  | Tick.

(** ** Operations *)

Module Session.
(** [Session::new]; the identifier is drawn by the caller. *)
Definition new (id : SessionId) (threshold total : Z) (group_pubkey : list Z)
    (creator : ParticipantId) (now : Z) : result CoordinatorError Session :=
  if threshold <? 2 then Err (ThresholdViolation "threshold must be >= 2")
  else if total <? threshold then Err (ThresholdViolation "total must be >= threshold")
  else if 255 <? total then
    Err (ThresholdViolation "total must be <= 255 (FROST participant ID byte)")
  else Ok (mkSession id Created threshold total group_pubkey creator None ∅ None now now).

Definition transition_to (s : Session) (new_state : SessionState) (now : Z) : Session :=
  mkSession (s_id s) new_state (s_threshold s) (s_total s) (s_group_pubkey s) (s_creator s)
    (s_message s) (s_participants s) (s_aggregate_signature s) (s_created_at s) now.

Definition set_participants (s : Session) (ps : gmap ParticipantId ParticipantState) : Session :=
  mkSession (s_id s) (s_state s) (s_threshold s) (s_total s) (s_group_pubkey s) (s_creator s)
    (s_message s) ps (s_aggregate_signature s) (s_created_at s) (s_state_entered_at s).

Definition set_message (s : Session) (m : list Z) : Session :=
  mkSession (s_id s) (s_state s) (s_threshold s) (s_total s) (s_group_pubkey s) (s_creator s)
    (Some m) (s_participants s) (s_aggregate_signature s) (s_created_at s)
    (s_state_entered_at s).

Definition set_aggregate (s : Session) (sig : list Z) : Session :=
  mkSession (s_id s) (s_state s) (s_threshold s) (s_total s) (s_group_pubkey s) (s_creator s)
    (s_message s) (s_participants s) (Some sig) (s_created_at s) (s_state_entered_at s).

(** [participants.values().filter(f).count()]. *)
Definition count (f : ParticipantState -> bool) (s : Session) : Z :=
  Z.of_nat (length (filter (fun p => f p = true) ((map_to_list (s_participants s)).*2))).

Definition committed (p : ParticipantState) : bool := bool_decide (is_Some (commitment p)).
Definition shared (p : ParticipantState) : bool := bool_decide (is_Some (sig_share p)).

Definition round1_count (s : Session) : Z := count committed s.
Definition round2_count (s : Session) : Z := count shared s.

Definition handle_attach (s : Session) (participant : ParticipantId) (now : Z)
  : Session * result CoordinatorError unit :=
  let go (s : Session) :=
    if (s_total s <=? Z.of_nat (size (s_participants s)))
       && negb (bool_decide (is_Some (s_participants s !! participant)))
    then (s, Err (ThresholdViolation
               ("session already has total=" +:+ pretty (s_total s) +:+ " participants")))
    else
      let entry := default invited (s_participants s !! participant) in
      (set_participants s
         (<[participant := mkParticipant true (commitment entry) (sig_share entry)]>
            (s_participants s)), Ok tt) in
  match s_state s with
  | Created => go (transition_to s Invited now)
  | Invited => go s
  | other => (s, Err (InvalidTransition "AttachParticipant" (name other)))
  end.

Definition handle_declare_message (s : Session) (message : list Z) (now : Z)
  : Session * result CoordinatorError unit :=
  match s_state s with
  | Invited =>
      if bool_decide (is_Some (s_message s)) then
        (s, Err (DuplicateAction "message-declaration"))
      else
        let n := count attached s in
        if n <? s_threshold s then
          (s, Err (ThresholdViolation
             ("need " +:+ pretty (s_threshold s) +:+
              " attached participants to start Round1, have " +:+ pretty n)))
        else (transition_to (set_message s message) Round1 now, Ok tt)
  | other => (s, Err (InvalidTransition "DeclareMessage" (name other)))
  end.

Definition handle_round1 (s : Session) (participant : ParticipantId) (c : list Z) (now : Z)
  : Session * result CoordinatorError unit :=
  if negb (bool_decide (s_state s = Round1)) then
    (s, Err (InvalidTransition "SubmitRound1" (name (s_state s))))
  else
    match s_participants s !! participant with
    | None => (s, Err UnauthorizedParticipant)
    | Some entry =>
        if negb (attached entry) then (s, Err UnauthorizedParticipant)
        else if committed entry then (s, Err (DuplicateAction "round-1 commitment"))
        else
          let s := set_participants s
            (<[participant := mkParticipant (attached entry) (Some c) (sig_share entry)]>
               (s_participants s)) in
          (if s_threshold s <=? round1_count s then transition_to s Round2 now else s, Ok tt)
    end.

Definition handle_round2 (s : Session) (participant : ParticipantId) (share : list Z) (now : Z)
  : Session * result CoordinatorError unit :=
  if negb (bool_decide (s_state s = Round2)) then
    (s, Err (InvalidTransition "SubmitRound2" (name (s_state s))))
  else
    match s_participants s !! participant with
    | None => (s, Err UnauthorizedParticipant)
    | Some entry =>
        if negb (committed entry) then (s, Err UnauthorizedParticipant)
        else if shared entry then (s, Err (DuplicateAction "round-2 share"))
        else
          (set_participants s
             (<[participant := mkParticipant (attached entry) (commitment entry) (Some share)]>
                (s_participants s)), Ok tt)
    end.

Definition handle_aggregate (s : Session) (signature : list Z) (now : Z)
  : Session * result CoordinatorError unit :=
  if negb (bool_decide (s_state s = Round2)) then
    (s, Err (InvalidTransition "SubmitAggregate" (name (s_state s))))
  else
    let collected := round2_count s in
    if collected <? s_threshold s then
      (s, Err (ThresholdViolation
         ("need " +:+ pretty (s_threshold s) +:+ " sig shares to aggregate, have " +:+
          pretty collected)))
    else (transition_to (set_aggregate s signature) Aggregated now, Ok tt).

(** The deadline of the current state has passed; the 64-bit sum wraps. *)
Definition timed_out (s : Session) (now : Z) : bool :=
  match timeout_secs (s_state s) with
  | Some timeout => wrap64 (s_state_entered_at s + timeout) <=? now
  | None => false
  end.

Definition apply (s : Session) (t : Transition) (now : Z)
  : Session * result CoordinatorError unit :=
  if is_terminal (s_state s) then (s, Err (SessionTerminal (name (s_state s))))
  else if timed_out s now then
    (transition_to s Expired now, Err (SessionExpired (name (s_state s))))
  else
    match t with
    | AttachParticipant participant => handle_attach s participant now
    | DeclareMessage message => handle_declare_message s message now
    | SubmitRound1 participant c => handle_round1 s participant c now
    | SubmitRound2 participant share => handle_round2 s participant share now
    | SubmitAggregate signature => handle_aggregate s signature now
    | AbortSession _ => (transition_to s Aborted now, Ok tt)
    | Tick => (s, Ok tt)
    end.

(** A history of calls. *)
Definition run (s : Session) (ts : list (Transition * Z)) : Session :=
  foldl (fun s e => (apply s e.1 e.2).1) s ts.
End Session.

(** ** Hexadecimal identifiers *)

Definition hex_digit (n : Z) : Z := if n <? 10 then n + 48 else n + 87.

Definition encode_hex32 (bytes : list Z) : list Z :=
  concat ((fun b => [hex_digit (Z.shiftr b 4); hex_digit (Z.land b 15)]) <$> bytes).

Definition decode_hex_nibble (b : Z) : option Z :=
  if (48 <=? b) && (b <=? 57) then Some (b - 48)
  else if (97 <=? b) && (b <=? 102) then Some (b - 97 + 10)
  else if (65 <=? b) && (b <=? 70) then Some (b - 65 + 10)
  else None.

(** What a refused string is reported with. *)
Inductive hex_error := BadLength (len : Z) | NonHex (offset : Z).

Fixpoint decode_hex_from (i : Z) (s : list Z) : result hex_error (list Z) :=
  match s with
  | a :: b :: s =>
      hi ← ok_or (NonHex (i * 2)) (decode_hex_nibble a);
      lo ← ok_or (NonHex (i * 2 + 1)) (decode_hex_nibble b);
      rest ← decode_hex_from (i + 1) s;
      Ok (Z.lor (Z.shiftl hi 4) lo :: rest)
  | _ => Ok []
  end.

Definition decode_hex32 (s : list Z) : result hex_error (list Z) :=
  if negb (Z.of_nat (length s) =? 64) then Err (BadLength (Z.of_nat (length s)))
  else decode_hex_from 0 s.

(** ** Invitations *)

Definition SESSION_SECRET_LEN : Z := 32.

Record InvitationToken := mkToken {
  it_session_id : SessionId;
  it_participant_pubkey : ParticipantId;
  it_expires_at : Z;
  it_mac : list Z;
}.

Inductive InvitationError := BadSecretLength | TokenExpired (expires_at now : Z) | BadMac.

(** [CYNC.CIP-008.invite.] with its terminating zero. *)
Definition invite_prefix : list Z :=
  [67; 89; 78; 67; 46; 67; 73; 80; 45; 48; 48; 56; 46; 105; 110; 118; 105; 116; 101; 46; 0].

Section invitations.
Context (hmac : list Z -> list Z -> list Z).

Definition compute_mac (session_secret : list Z) (session_id : SessionId)
    (participant_pubkey : ParticipantId) (expires_at : Z) : list Z :=
  hmac session_secret
    (invite_prefix ++ session_id ++ participant_pubkey ++ le_bytes 8 expires_at).

Definition mint_token (session_secret : list Z) (session_id : SessionId)
    (participant_pubkey : ParticipantId) (expires_at : Z)
  : result InvitationError InvitationToken :=
  if negb (Z.of_nat (length session_secret) =? SESSION_SECRET_LEN) then Err BadSecretLength
  else Ok (mkToken session_id participant_pubkey expires_at
             (compute_mac session_secret session_id participant_pubkey expires_at)).

Definition verify_token (session_secret : list Z) (token : InvitationToken) (now : Z)
  : result InvitationError unit :=
  if negb (Z.of_nat (length session_secret) =? SESSION_SECRET_LEN) then Err BadSecretLength
  else if it_expires_at token <? now then Err (TokenExpired (it_expires_at token) now)
  else
    let expected := compute_mac session_secret (it_session_id token)
                      (it_participant_pubkey token) (it_expires_at token) in
    if bool_decide (expected = it_mac token) then Ok tt else Err BadMac.
End invitations.
