(* ===== verification/FrostRules.v ===== *)
(** * Invariants and guarantees of the signing sessions

    The five invariants the module documentation of [session.rs] states, over any
    history of calls with any clock readings, and what they give: an aggregated
    session has exactly [threshold] shares, all from attached participants that
    committed; hexadecimal identifiers and invitation tokens. *)

From stdpp Require Import prelude gmap strings pretty.
From Stdlib Require Import ZArith Lia.
From S2P Require Import Prelude Frost.

Local Open Scope Z_scope.

(** ** Counting participants *)

Abbreviation roster := (gmap ParticipantId ParticipantState).

Definition count_in (f : ParticipantState -> bool) (m : roster) : Z :=
  Z.of_nat (length (filter (fun p => f p = true) ((map_to_list m).*2))).

Lemma count_in_cons f (l : list ParticipantState) v :
  Z.of_nat (length (filter (fun p => f p = true) (v :: l)))
  = Z.of_nat (length (filter (fun p => f p = true) l)) + Z.b2z (f v).
Proof. rewrite filter_cons. destruct (decide _) as [->|H]; cbn; [lia|]. destruct (f v); cbn in *; [done|lia]. Qed.

Lemma count_insert_new f (m : roster) i v :
  m !! i = None -> count_in f (<[i := v]> m) = count_in f m + Z.b2z (f v).
Proof.
  intros Hi. unfold count_in. rewrite (map_to_list_insert m i v Hi), fmap_cons.
  apply count_in_cons.
Qed.

Lemma count_insert_old f (m : roster) i o v :
  m !! i = Some o -> count_in f (<[i := v]> m) = count_in f m - Z.b2z (f o) + Z.b2z (f v).
Proof.
  intros Hi. assert (delete i m !! i = None) as Hd by apply lookup_delete_eq.
  rewrite <- (insert_delete_eq m i v), count_insert_new by done.
  rewrite <- (insert_delete_id m i o Hi) at 2. rewrite count_insert_new by done. lia.
Qed.

Lemma count_mono f g (m : roster) :
  (forall i p, m !! i = Some p -> f p = true -> g p = true) -> count_in f m <= count_in g m.
Proof.
  induction m as [|i v m Hi IH] using map_ind; intros H; [done|].
  rewrite !count_insert_new by done.
  assert (count_in f m <= count_in g m).
  { apply IH. intros j p Hj. apply (H j). by rewrite lookup_insert_ne by congruence. }
  specialize (H i v ltac:(by rewrite lookup_insert_eq)).
  destruct (f v), (g v); cbn; try lia.
Qed.

Lemma count_bounds f (m : roster) : 0 <= count_in f m <= Z.of_nat (size m).
Proof.
  induction m as [|i v m Hi IH] using map_ind; [done|].
  rewrite count_insert_new, map_size_insert_None by done. destruct (f v); cbn; lia.
Qed.

Lemma count_none f (m : roster) :
  (forall i p, m !! i = Some p -> f p = false) -> count_in f m = 0.
Proof.
  intros H. pose proof (count_bounds f m).
  assert (count_in f m <= count_in (fun _ => false) m) as Hm.
  { apply count_mono. intros i p Hp. by rewrite (H i p Hp). }
  assert (count_in (fun _ => false) m = 0) as E; [|lia].
  clear. induction m as [|i v m Hi IH] using map_ind; [done|].
  by rewrite count_insert_new, IH by done.
Qed.

Lemma count_eq f g (m : roster) :
  count_in f m = count_in g m -> (forall i p, m !! i = Some p -> f p = true -> g p = true) ->
  forall i p, m !! i = Some p -> g p = true -> f p = true.
Proof.
  intros He Hfg i p Hp Hg. destruct (f p) eqn:Hf; [done|]. exfalso.
  pose proof (insert_delete_id m i p Hp) as Em.
  assert (delete i m !! i = None) as Hd by apply lookup_delete_eq.
  rewrite <- Em, !count_insert_new, Hf, Hg in He by done. cbn in He.
  assert (count_in f (delete i m) <= count_in g (delete i m)) as Hle.
  { apply count_mono. intros j q Hj. apply Hfg with j.
    by apply lookup_delete_Some in Hj as [_ ?]. }
  lia.
Qed.

(** ** The invariant *)

Section invariant.
Implicit Types s : Session.

Record session_inv s : Prop := {
  si_params : 2 <= s_threshold s <= s_total s /\ s_total s <= 255;
  si_room : Z.of_nat (size (s_participants s)) <= s_total s;
  (** Everyone on the list was attached, and only committers have shares. *)
  si_member : forall i p, s_participants s !! i = Some p ->
    attached p = true /\ (Session.shared p = true -> Session.committed p = true);
  si_phase :
    match s_state s with
    | Created => s_participants s = ∅ /\ s_message s = None
    | Invited => Session.round1_count s = 0 /\ s_message s = None
    | Round1 => is_Some (s_message s) /\ Session.round1_count s < s_threshold s
                /\ s_threshold s <= Z.of_nat (size (s_participants s))
                /\ Session.round2_count s = 0
    | Round2 => is_Some (s_message s) /\ Session.round1_count s = s_threshold s
    | Aggregated => is_Some (s_message s) /\ is_Some (s_aggregate_signature s)
                    /\ Session.round1_count s = s_threshold s
                    /\ Session.round2_count s = s_threshold s
    | Aborted | Expired => Session.round1_count s <= s_threshold s
    end;
  si_unsigned : s_state s <> Aggregated -> s_aggregate_signature s = None;
}.

Lemma counts_unfold s :
  Session.round1_count s = count_in Session.committed (s_participants s)
  /\ Session.round2_count s = count_in Session.shared (s_participants s)
  /\ Session.count attached s = count_in attached (s_participants s).
Proof. done. Qed.

Lemma shares_le_commitments s :
  session_inv s -> Session.round2_count s <= Session.round1_count s.
Proof. intros Hi. apply count_mono. intros i p Hp. apply (si_member _ Hi i p Hp). Qed.

Lemma new_inv id k n g c now s :
  Session.new id k n g c now = Ok s -> session_inv s.
Proof.
  unfold Session.new. destruct (k <? 2) eqn:E1, (n <? k) eqn:E2, (255 <? n) eqn:E3; try done.
  intros [= <-]. split; cbn [s_threshold s_total s_participants s_state s_message
    s_aggregate_signature]; rewrite ?map_size_empty; try done; try lia.
Qed.

(** A session that stops keeps what it collected. *)
Lemma stopped_inv s st now :
  st = Aborted \/ st = Expired -> is_terminal (s_state s) = false -> session_inv s ->
  session_inv (Session.transition_to s st now).
Proof.
  intros Hst Ht [P1 P2 P3 P4 P5].
  assert (Session.round1_count s <= s_threshold s) as Hc.
  { pose proof (counts_unfold s) as (E&_). destruct (s_state s); try done; try lia.
    destruct P4 as [Hp _]. rewrite E, Hp. change (count_in Session.committed ∅) with 0. lia. }
  destruct Hst as [-> | ->]; split; cbn; try done; intros _; apply P5; by destruct (s_state s).
Qed.

(** Replacing or adding one row of the roster. *)
Definition row_count f (m : roster) i : Z :=
  match m !! i with Some o => Z.b2z (f o) | None => 0 end.

Lemma count_insert f (m : roster) i v :
  count_in f (<[i := v]> m) = count_in f m - row_count f m i + Z.b2z (f v).
Proof.
  unfold row_count. destruct (m !! i) as [o|] eqn:E.
  - by apply count_insert_old.
  - rewrite count_insert_new by done. lia.
Qed.

Lemma row_count_le f (m : roster) i : 0 <= row_count f m i <= count_in f m.
Proof.
  pose proof (count_insert f m i invited) as E1.
  pose proof (count_bounds f (delete i m)) as B. unfold row_count in *.
  destruct (m !! i) as [o|] eqn:E; [|pose proof (count_bounds f m); lia].
  pose proof (count_insert_new f (delete i m) i o (lookup_delete_eq _ _)) as E2.
  rewrite insert_delete_id in E2 by done. destruct (f o); cbn in *; lia.
Qed.

Lemma default_row f (m : roster) i :
  f invited = false -> Z.b2z (f (default invited (m !! i))) = row_count f m i.
Proof. unfold row_count. destruct (m !! i); [done|]. cbn. by intros ->. Qed.

Lemma insert_member (m : roster) i v :
  (forall j p, m !! j = Some p -> attached p = true
     /\ (Session.shared p = true -> Session.committed p = true)) ->
  attached v = true -> (Session.shared v = true -> Session.committed v = true) ->
  forall j p, <[i := v]> m !! j = Some p -> attached p = true
     /\ (Session.shared p = true -> Session.committed p = true).
Proof. intros Hm H1 H2 j p. rewrite lookup_insert_Some. intros [[<- <-]|[_ Hp]]; eauto. Qed.

Lemma attach_row_inv s p :
  session_inv s -> s_state s = Invited ->
  (Z.of_nat (size (s_participants s)) < s_total s \/ is_Some (s_participants s !! p)) ->
  let entry := default invited (s_participants s !! p) in
  session_inv (Session.set_participants s
    (<[p := mkParticipant true (commitment entry) (sig_share entry)]> (s_participants s))).
Proof.
  intros [P1 P2 P3 P4 P5] Hs Hroom entry. rewrite Hs in P4. destruct P4 as [C0 M0].
  change (count_in Session.committed (s_participants s) = 0) in C0.
  pose proof (row_count_le Session.committed (s_participants s) p) as Hr.
  pose proof (default_row Session.committed (s_participants s) p eq_refl) as Hc.
  fold entry in Hc.
  assert (Session.shared entry = true -> Session.committed entry = true) as Hsc.
  { unfold entry. destruct (s_participants s !! p) as [q|] eqn:Eq; [|done]. apply (P3 p q Eq). }
  split; cbn; rewrite ?Hs; try done.
  - rewrite map_size_insert. destruct (s_participants s !! p) eqn:E; [done|].
    destruct Hroom as [?|[? ?]]; [lia|done].
  - by apply insert_member.
  - split; [|done]. change (count_in Session.committed (<[p := mkParticipant true
      (commitment entry) (sig_share entry)]> (s_participants s)) = 0).
    rewrite count_insert. change (Session.committed (mkParticipant true (commitment entry)
      (sig_share entry))) with (Session.committed entry). lia.
  - intros _. apply P5. by rewrite Hs.
Qed.

Lemma attach_inv s p now :
  session_inv s -> session_inv (Session.handle_attach s p now).1.
Proof.
  intros Hi. unfold Session.handle_attach. cbv zeta.
  assert (s_state s = Created ->
          session_inv (Session.transition_to s Invited now)) as Hc.
  { intros Es. destruct Hi as [P1 P2 P3 P4 P5]. rewrite Es in P4. destruct P4 as [Hp Hm].
    split; cbn; try done.
    - split; [|done]. unfold Session.round1_count, Session.count. cbn. by rewrite Hp.
    - intros _. apply P5. by rewrite Es. }
  destruct (s_state s) eqn:Es; try done; destruct (_ && _) eqn:Ef; cbn [fst]; auto;
    (apply attach_row_inv; [auto|done|]); cbn in *;
    apply andb_false_iff in Ef as [Ef|Ef]; [lia| |lia|];
    right; apply negb_false_iff, bool_decide_eq_true in Ef; done.
Qed.

Lemma declare_inv s m now :
  session_inv s -> session_inv (Session.handle_declare_message s m now).1.
Proof.
  intros Hi. unfold Session.handle_declare_message.
  destruct (s_state s) eqn:Es; try done. destruct (bool_decide _); [done|]. cbv zeta.
  destruct (_ <? _) eqn:En; [done|]. cbn [fst]. pose proof (shares_le_commitments s Hi) as Hle.
  destruct Hi as [P1 P2 P3 P4 P5]. rewrite Es in P4. destruct P4 as [C0 M0].
  change (Session.count attached s) with (count_in attached (s_participants s)) in En.
  pose proof (count_bounds attached (s_participants s)).
  pose proof (count_bounds Session.shared (s_participants s)) as B2.
  change (count_in Session.shared (s_participants s)) with (Session.round2_count s) in B2.
  split; cbn; try done.
  - split_and!; [done| | |].
    + change (Session.round1_count s < s_threshold s). lia.
    + lia.
    + change (Session.round2_count s = 0). lia.
  - intros _. apply P5. by rewrite Es.
Qed.

Lemma round1_inv s p c now :
  session_inv s -> session_inv (Session.handle_round1 s p c now).1.
Proof.
  intros Hi. unfold Session.handle_round1.
  destruct (bool_decide_reflect (s_state s = Round1)) as [Es|]; [|done]. cbn [negb].
  destruct (s_participants s !! p) as [q|] eqn:Eq; [|done].
  destruct (attached q) eqn:Ea; [|done]. cbn [negb].
  destruct (Session.committed q) eqn:Ec; [done|]. cbv zeta. cbn [fst].
  set (ps := <[p := _]> (s_participants s)). set (s1 := Session.set_participants s ps).
  destruct Hi as [P1 P2 P3 P4 P5]. rewrite Es in P4. destruct P4 as (M&C1&Sz&C2).
  assert (Session.shared q = false) as Hsh.
  { destruct (Session.shared q) eqn:E; [|done]. destruct (P3 p q Eq) as [_ H].
    rewrite H in Ec; done. }
  assert (Session.round1_count s1 = Session.round1_count s + 1) as N1.
  { change (count_in Session.committed ps = count_in Session.committed (s_participants s) + 1).
    unfold ps. rewrite (count_insert_old _ _ _ q) by done. rewrite Ec. cbn. lia. }
  assert (Session.round2_count s1 = 0) as N2.
  { change (count_in Session.shared ps = 0). unfold ps.
    rewrite (count_insert_old _ _ _ q) by done.
    change (Session.shared (mkParticipant true (Some c) (sig_share q))) with (Session.shared q).
    change (count_in Session.shared (s_participants s) = 0) in C2. rewrite Hsh. cbn. lia. }
  assert (Z.of_nat (size ps) = Z.of_nat (size (s_participants s))) as Nz
    by (unfold ps; by rewrite map_size_insert_Some by eauto).
  assert (forall j r, ps !! j = Some r -> attached r = true
    /\ (Session.shared r = true -> Session.committed r = true)) as Nm.
  { apply insert_member; [done|done|]. by intros _. }
  change (s_threshold s1) with (s_threshold s).
  destruct (_ <=? _) eqn:Et; split; cbn; rewrite ?Nz, ?Es; try done; try lia.
  - split; [done|]. change (Session.round1_count s1 = s_threshold s). lia.
  - intros _. apply P5. by rewrite Es.
  - split_and!; [done| |done|done]. change (Session.round1_count s1 < s_threshold s). lia.
  - intros _. apply P5. by rewrite Es.
Qed.

Lemma round2_inv s p c now :
  session_inv s -> session_inv (Session.handle_round2 s p c now).1.
Proof.
  intros Hi. unfold Session.handle_round2.
  destruct (bool_decide_reflect (s_state s = Round2)) as [Es|]; [|done]. cbn [negb].
  destruct (s_participants s !! p) as [q|] eqn:Eq; [|done].
  destruct (Session.committed q) eqn:Ec; [|done]. cbn [negb].
  destruct (Session.shared q) eqn:Eh; [done|]. cbn [fst].
  destruct Hi as [P1 P2 P3 P4 P5]. rewrite Es in P4. destruct P4 as (M&C1).
  destruct (P3 p q Eq) as [Ha _].
  split; cbn; rewrite ?Es; try done.
  - by rewrite map_size_insert_Some by eauto.
  - by apply insert_member.
  - split; [done|]. rewrite <- C1.
    change (count_in Session.committed (<[p := mkParticipant (attached q) (commitment q) (Some c)]>
      (s_participants s)) = count_in Session.committed (s_participants s)).
    rewrite (count_insert_old _ _ _ q) by done.
    change (Session.committed (mkParticipant (attached q) (commitment q) (Some c)))
      with (Session.committed q). lia.
  - intros _. apply P5. by rewrite Es.
Qed.

Lemma aggregate_inv s sig now :
  session_inv s -> session_inv (Session.handle_aggregate s sig now).1.
Proof.
  intros Hi. unfold Session.handle_aggregate.
  destruct (bool_decide_reflect (s_state s = Round2)) as [Es|]; [|done]. cbn [negb]. cbv zeta.
  destruct (_ <? _) eqn:En; [done|]. cbn [fst].
  pose proof (shares_le_commitments s Hi) as Hle. destruct Hi as [P1 P2 P3 P4 P5].
  rewrite Es in P4. destruct P4 as (M&C1). split; cbn; try done.
  split_and!; [done|by eexists|done|]. change (Session.round2_count s = s_threshold s). lia.
Qed.

Lemma session_apply_inv s t now : session_inv s -> session_inv (Session.apply s t now).1.
Proof.
  intros Hi. unfold Session.apply. destruct (is_terminal (s_state s)) eqn:Et; [done|].
  destruct (Session.timed_out s now); [by apply stopped_inv; auto|].
  destruct t; auto using attach_inv, declare_inv, round1_inv, round2_inv, aggregate_inv.
  apply stopped_inv; auto.
Qed.

Lemma run_inv ts : forall s, session_inv s -> session_inv (Session.run s ts).
Proof.
  induction ts as [|[t now] ts IH]; intros s Hi; [done|]. apply IH. by apply session_apply_inv.
Qed.
End invariant.

(** ** What a session never takes back *)

Record extends (s s' : Session) : Prop := {
  ex_params : s_id s' = s_id s /\ s_threshold s' = s_threshold s /\ s_total s' = s_total s
              /\ s_group_pubkey s' = s_group_pubkey s /\ s_creator s' = s_creator s;
  ex_message : forall m, s_message s = Some m -> s_message s' = Some m;
  ex_aggregate : forall g, s_aggregate_signature s = Some g -> s_aggregate_signature s' = Some g;
  ex_members : forall i p, s_participants s !! i = Some p ->
    exists p', s_participants s' !! i = Some p' /\ (attached p = true -> attached p' = true)
      /\ (forall c, commitment p = Some c -> commitment p' = Some c)
      /\ (forall h, sig_share p = Some h -> sig_share p' = Some h);
}.

#[export] Instance extends_preorder : PreOrder extends.
Proof.
  split.
  - intros s. split; try done. intros i p Hp. exists p. done.
  - intros s1 s2 s3 [A1 A2 A3 A4] [B1 B2 B3 B4]. split.
    + destruct_and!. split_and!; congruence.
    + auto.
    + auto.
    + intros i p Hp. destruct (A4 i p Hp) as (p2&H2&?&?&?).
      destruct (B4 i p2 H2) as (p3&H3&?&?&?). exists p3. split_and!; auto.
Qed.

Lemma extends_transition s st now : extends s (Session.transition_to s st now).
Proof. split; try done. intros i p Hp. exists p. done. Qed.

(** Rewriting one row so that nothing recorded in it is lost. *)
Lemma extends_row s i v :
  (forall p, s_participants s !! i = Some p ->
     (attached p = true -> attached v = true)
     /\ (forall c, commitment p = Some c -> commitment v = Some c)
     /\ (forall h, sig_share p = Some h -> sig_share v = Some h)) ->
  extends s (Session.set_participants s (<[i := v]> (s_participants s))).
Proof.
  intros Hv. split; try done. intros j p Hp. cbn. destruct (decide (i = j)) as [<-|Hne].
  - exists v. rewrite lookup_insert_eq. split; [done|]. auto.
  - exists p. by rewrite lookup_insert_ne.
Qed.

Lemma attach_extends s p now : extends s (Session.handle_attach s p now).1.
Proof.
  unfold Session.handle_attach. cbv zeta.
  destruct (s_state s) eqn:Es; try done; destruct (_ && _); cbn [fst]; try done.
  - apply extends_transition.
  - etransitivity; [apply (extends_transition s Invited now)|]. apply extends_row.
    cbn. intros q ->. cbn. by split_and!.
  - apply extends_row. intros q ->. cbn. by split_and!.
Qed.

Lemma declare_extends s m now : extends s (Session.handle_declare_message s m now).1.
Proof.
  unfold Session.handle_declare_message. destruct (s_state s); try done.
  destruct (bool_decide_reflect (is_Some (s_message s))) as [|Hm]; [done|]. cbv zeta.
  destruct (_ <? _); [done|]. split; cbn; try done.
  - intros m' Hm'. destruct Hm. eauto.
  - intros i p Hp. exists p. done.
Qed.

Lemma round1_extends s p c now : extends s (Session.handle_round1 s p c now).1.
Proof.
  unfold Session.handle_round1. destruct (negb _); [done|].
  destruct (s_participants s !! p) as [q|] eqn:Eq; [|done].
  destruct (negb (attached q)); [done|]. destruct (Session.committed q) eqn:Ec; [done|]. cbv zeta.
  cbn [fst]. assert (extends s (Session.set_participants s
    (<[p := mkParticipant (attached q) (Some c) (sig_share q)]> (s_participants s)))) as He.
  { apply extends_row. rewrite Eq. intros ? [= <-]. split_and!; try done.
    intros c' Hc. unfold Session.committed in Ec. by rewrite Hc in Ec. }
  destruct (_ <=? _); [|done]. etransitivity; [exact He|]. apply extends_transition.
Qed.

Lemma round2_extends s p h now : extends s (Session.handle_round2 s p h now).1.
Proof.
  unfold Session.handle_round2. destruct (negb _); [done|].
  destruct (s_participants s !! p) as [q|] eqn:Eq; [|done].
  destruct (negb (Session.committed q)); [done|].
  destruct (Session.shared q) eqn:Ec; [done|]. cbn [fst].
  apply extends_row. rewrite Eq. intros ? [= <-]. split_and!; try done.
  intros h' Hh. unfold Session.shared in Ec. by rewrite Hh in Ec.
Qed.

Lemma apply_extends s t now : session_inv s -> extends s (Session.apply s t now).1.
Proof.
  intros Hi. unfold Session.apply. destruct (is_terminal (s_state s)) eqn:Et; [done|].
  destruct (Session.timed_out s now); [apply extends_transition|].
  destruct t; auto using attach_extends, declare_extends, round1_extends, round2_extends,
    extends_transition; [|apply extends_transition|reflexivity].
  unfold Session.handle_aggregate. destruct (negb _); [done|]. cbv zeta.
  destruct (_ <? _); [done|]. split; cbn; try done.
  - intros g Hg. rewrite (si_unsigned _ Hi) in Hg; [done|]. by destruct (s_state s).
  - intros i p Hp. exists p. done.
Qed.

Lemma run_extends ts : forall s, session_inv s -> extends s (Session.run s ts).
Proof.
  induction ts as [|[t now] ts IH]; intros s Hi; [done|].
  etransitivity; [by apply apply_extends|]. apply IH. by apply session_apply_inv.
Qed.

Lemma run_terminal ts : forall s, is_terminal (s_state s) = true -> Session.run s ts = s.
Proof.
  induction ts as [|[t now] ts IH]; intros s Ht; [done|].
  change (Session.run (Session.apply s t now).1 ts = s).
  assert ((Session.apply s t now).1 = s) as -> by (unfold Session.apply; by rewrite Ht).
  by apply IH.
Qed.

(** ** Claims on sessions *)

(** C21: Whatever calls a session receives and whatever the clock says, an
    aggregated session has a declared message, a signature and exactly [threshold]
    committers; every one of them, and nobody else, contributed a share, and all of
    them were attached; in the second round too exactly [threshold] participants
    have committed, and never more participants than [total] are listed. *)
Theorem aggregated_has_threshold_shares id k n g c now s0 ts :
  Session.new id k n g c now = Ok s0 ->
  let s := Session.run s0 ts in
  s_threshold s = k /\ Z.of_nat (size (s_participants s)) <= n
  /\ (s_state s = Round2 -> Session.round1_count s = k)
  /\ (s_state s = Aggregated ->
      is_Some (s_message s) /\ is_Some (s_aggregate_signature s)
      /\ Session.round1_count s = k /\ Session.round2_count s = k
      /\ forall i p, s_participants s !! i = Some p ->
         attached p = true /\ (Session.shared p = true <-> Session.committed p = true)).
Proof.
  intros Hn s. pose proof (new_inv _ _ _ _ _ _ _ Hn) as Hi0.
  pose proof (run_inv ts s0 Hi0) as Hi. pose proof (run_extends ts s0 Hi0) as He. fold s in Hi, He.
  assert (s_threshold s0 = k /\ s_total s0 = n) as [K0 N0].
  { unfold Session.new in Hn. destruct (k <? 2), (n <? k), (255 <? n); try done.
    by injection Hn as <-. }
  destruct (ex_params _ _ He) as (_&K1&N1&_). rewrite K0 in K1. rewrite N0 in N1.
  split; [done|]. split; [rewrite <- N1; apply (si_room _ Hi)|].
  pose proof (si_phase _ Hi) as Hp. rewrite K1 in Hp. split; intros Es; rewrite Es in Hp; [tauto|].
  destruct Hp as (H1&H2&H3&H4). split_and!; try done. intros i p Hp.
  destruct (si_member _ Hi i p Hp) as [Ha Hs]. split; [done|]. split; [done|].
  apply (count_eq Session.shared Session.committed (s_participants s)) with i; [|..|done].
  - change (Session.round2_count s = Session.round1_count s). lia.
  - intros j q Hq. apply (si_member _ Hi j q Hq).
Qed.

(** A terminal session never changes again; before that a history only adds:
    parameters, declared message, signature, members, commitments and shares are
    never altered or removed. *)
Theorem session_history_final id k n g c now s0 ts1 ts2 :
  Session.new id k n g c now = Ok s0 ->
  let s1 := Session.run s0 ts1 in
  let s2 := Session.run s0 (ts1 ++ ts2) in
  extends s1 s2 /\ (is_terminal (s_state s1) = true -> s2 = s1).
Proof.
  intros Hn s1 s2. pose proof (run_inv ts1 s0 (new_inv _ _ _ _ _ _ _ Hn)) as Hi. fold s1 in Hi.
  assert (s2 = Session.run s1 ts2) as E by apply foldl_app. rewrite E.
  split; [by apply run_extends|]. apply run_terminal.
Qed.

(** A refused call leaves the session as it was, except that the first call
    after the deadline of the current state, whatever it asks, moves the session to
    [Expired]. *)
Theorem refused_call_effect s t now e :
  session_inv s -> (Session.apply s t now).2 = Err e ->
  ((Session.apply s t now).1 = s /\ forall st, e <> SessionExpired st)
  \/ (is_terminal (s_state s) = false /\ Session.timed_out s now = true
      /\ Session.apply s t now
         = (Session.transition_to s Expired now, Err (SessionExpired (name (s_state s))))).
Proof.
  intros Hi. unfold Session.apply. destruct (is_terminal (s_state s)) eqn:Et.
  { intros [= <-]. by left. }
  destruct (Session.timed_out s now) eqn:Eo; [by right|]. intros He. left.
  destruct t; cbn [fst snd] in *; try done.
  - revert He. unfold Session.handle_attach. cbv zeta.
    destruct (s_state s) eqn:Es; try done; try (intros [= <-]; done).
    + destruct (_ && _) eqn:Ef; [|done]. exfalso. clear -Hi Es Ef.
      destruct Hi as [P1 _ _ P4 _]. rewrite Es in P4. destruct P4 as [Hp _].
      apply andb_true_iff in Ef as [Ef _]. apply Z.leb_le in Ef.
      cbn [s_total s_participants Session.transition_to] in Ef.
      rewrite Hp, map_size_empty in Ef. lia.
    + destruct (_ && _); [|done]. by intros [= <-].
  - revert He. unfold Session.handle_declare_message.
    destruct (s_state s) eqn:Es; try (intros [= <-]; done).
    destruct (bool_decide _); [by intros [= <-]|]. cbv zeta.
    destruct (_ <? _); [by intros [= <-]|done].
  - revert He. unfold Session.handle_round1.
    destruct (negb _); [by intros [= <-]|].
    destruct (_ !! _) as [q|]; [|by intros [= <-]].
    destruct (negb (attached q)); [by intros [= <-]|].
    destruct (Session.committed q); [by intros [= <-]|done].
  - revert He. unfold Session.handle_round2.
    destruct (negb _); [by intros [= <-]|].
    destruct (_ !! _) as [q|]; [|by intros [= <-]].
    destruct (negb (Session.committed q)); [by intros [= <-]|].
    destruct (Session.shared q); [by intros [= <-]|done].
  - revert He. unfold Session.handle_aggregate.
    destruct (negb _); [by intros [= <-]|]. cbv zeta.
    destruct (_ <? _); [by intros [= <-]|done].
Qed.

(** ** A signing run *)

(** Calls made within a second of entering a state are in time. *)
Lemma in_time s now :
  0 <= now -> now + INVITED_TIMEOUT_SECS <= u64_max -> s_state_entered_at s = now ->
  Session.timed_out s now = false.
Proof.
  intros H0 Hn He. unfold Session.timed_out, INVITED_TIMEOUT_SECS in *. rewrite He.
  destruct (s_state s); cbn [timeout_secs]; try done;
    unfold INVITED_TIMEOUT_SECS, ROUND_1_TIMEOUT_SECS, ROUND_2_TIMEOUT_SECS in *;
    rewrite wrap64_small by word_lia; lia.
Qed.

Definition waiting : ParticipantState := mkParticipant true None None.

Section signing.
Context (now : Z) (Hnow : 0 <= now) (Hmax : now + INVITED_TIMEOUT_SECS <= u64_max).
Implicit Types (s : Session) (ps : list ParticipantId).

Definition calls (f : ParticipantId -> Transition) ps : list (Transition * Z) :=
  (fun p => (f p, now)) <$> ps.

Lemma run_cons s t ts : Session.run s ((t, now) :: ts) = Session.run (Session.apply s t now).1 ts.
Proof. done. Qed.

(** In a session every member counts as attached. *)
Lemma members_attached s :
  session_inv s -> count_in attached (s_participants s) = Z.of_nat (size (s_participants s)).
Proof.
  intros Hia. pose proof (si_member _ Hia) as Hm. revert Hm.
  generalize (s_participants s). intros r.
  induction r as [|i v r Hi IH] using map_ind; intros Hm; [done|].
  rewrite count_insert_new, map_size_insert_None by done.
  destruct (Hm i v) as [-> _]; [by rewrite lookup_insert_eq|]. rewrite IH; [cbn; lia|].
  intros j p Hj. apply (Hm j). by rewrite lookup_insert_ne by congruence.
Qed.

(** Declaring the message starts the first round once enough members are there. *)
Lemma declare_starts s m :
  session_inv s -> s_state s = Invited -> s_state_entered_at s = now -> s_message s = None ->
  s_threshold s <= Z.of_nat (size (s_participants s)) ->
  Session.run s [(DeclareMessage m, now)] =
  Session.transition_to (Session.set_message s m) Round1 now.
Proof.
  intros Hia A1 A2 A3 Hk. rewrite run_cons. unfold Session.apply. rewrite in_time, A1 by done.
  cbn [is_terminal]. unfold Session.handle_declare_message. rewrite A1, A3.
  rewrite bool_decide_false by (by intros []). cbv zeta.
  rewrite (proj2 (Z.ltb_ge _ _)); [done|].
  change (s_threshold s <= count_in attached (s_participants s)).
  by rewrite members_attached.
Qed.

Lemma attach_all ps : forall s,
  NoDup ps -> (forall p, p ∈ ps -> s_participants s !! p = None) ->
  s_state s = Created \/ s_state s = Invited ->
  s_state_entered_at s = now ->
  Z.of_nat (size (s_participants s)) + Z.of_nat (length ps) <= s_total s ->
  let s' := Session.run s (calls AttachParticipant ps) in
  (ps = [] \/ s_state s' = Invited) /\ s_state_entered_at s' = now
  /\ s_message s' = s_message s
  /\ (forall p, p ∈ ps -> s_participants s' !! p = Some waiting)
  /\ (forall p, p ∉ ps -> s_participants s' !! p = s_participants s !! p)
  /\ Z.of_nat (size (s_participants s')) = Z.of_nat (size (s_participants s))
                                            + Z.of_nat (length ps).
Proof.
  induction ps as [|p ps IH]; intros s Hd Hf Hst He Hz.
  { cbn. split_and!; [by left|done|done|by intros p ?%elem_of_nil|done|lia]. }
  cbn [length] in Hz. apply NoDup_cons in Hd as [Hp Hd].
  cbn [calls fmap list_fmap]. rewrite run_cons.
  assert (exists s1, Session.apply s (AttachParticipant p) now = (s1, Ok tt)
    /\ s_state s1 = Invited /\ s_state_entered_at s1 = now /\ s_message s1 = s_message s
    /\ s_total s1 = s_total s /\ s_participants s1 = <[p := waiting]> (s_participants s))
    as (s1&E1&S1&T1&M1&N1&R1).
  { unfold Session.apply. rewrite in_time by done.
    assert (is_terminal (s_state s) = false) as -> by (destruct Hst as [-> | ->]; done).
    unfold Session.handle_attach. cbv zeta.
    assert (s_participants s !! p = None) as Hn by (apply Hf; by left).
    destruct Hst as [Hst|Hst]; rewrite Hst; cbn [s_total s_participants Session.transition_to];
      rewrite (proj2 (Z.leb_gt (s_total s) (Z.of_nat (size (s_participants s))))) by lia;
      cbn [andb]; eexists; (split; [done|]);
      rewrite Hn; split_and!; done. }
  rewrite E1. cbn [fst]. destruct (IH s1) as (I1&I2&I3&I4&I5&I6).
  - done.
  - intros q Hq. rewrite R1, lookup_insert_ne by (intros ->; done). apply Hf. by right.
  - by right.
  - done.
  - rewrite R1, N1, map_size_insert_None by (apply Hf; by left). lia.
  - fold (calls AttachParticipant ps). set (s' := Session.run s1 _) in *.
    split_and!; try done.
    + right. destruct I1 as [->|]; [exact S1|done].
    + congruence.
    + intros q [->|Hq]%elem_of_cons; [|by apply I4].
      rewrite I5, R1 by done. by rewrite lookup_insert_eq.
    + intros q Hq. rewrite not_elem_of_cons in Hq. rewrite I5, R1 by tauto.
      by rewrite lookup_insert_ne by (intros ->; tauto).
    + rewrite I6, R1, map_size_insert_None by (apply Hf; by left). cbn. lia.
Qed.

Lemma commit_all (c : ParticipantId -> list Z) ps : forall s,
  NoDup ps -> (forall p, p ∈ ps -> s_participants s !! p = Some waiting) ->
  s_state s = Round1 -> s_state_entered_at s = now ->
  Session.round1_count s + Z.of_nat (length ps) = s_threshold s -> ps <> [] ->
  let s' := Session.run s (calls (fun p => SubmitRound1 p (c p)) ps) in
  s_state s' = Round2 /\ s_state_entered_at s' = now
  /\ (forall p, p ∈ ps -> s_participants s' !! p = Some (mkParticipant true (Some (c p)) None))
  /\ (forall p, p ∉ ps -> s_participants s' !! p = s_participants s !! p)
  /\ Session.round2_count s' = Session.round2_count s.
Proof.
  induction ps as [|p ps IH]; intros s Hd Hf Hst He Hz Hne; [done|]. clear Hne.
  cbn [length] in Hz. apply NoDup_cons in Hd as [Hp Hd].
  cbn [calls fmap list_fmap]. rewrite run_cons.
  assert (s_participants s !! p = Some waiting) as Hw by (apply Hf; by left).
  set (m1 := <[p := mkParticipant true (Some (c p)) None]> (s_participants s)).
  assert (count_in Session.committed m1 = Session.round1_count s + 1
          /\ count_in Session.shared m1 = Session.round2_count s) as [C1 C2].
  { unfold m1. rewrite !(count_insert_old _ _ _ waiting) by done. cbn.
    unfold Session.round1_count, Session.round2_count, Session.count, count_in. lia. }
  assert (exists s1, Session.apply s (SubmitRound1 p (c p)) now = (s1, Ok tt)
    /\ s_state s1 = (if decide (ps = []) then Round2 else Round1)
    /\ s_state_entered_at s1 = now /\ s_threshold s1 = s_threshold s
    /\ s_participants s1 = m1) as (s1&E1&S1&T1&N1&R1).
  { unfold Session.apply. rewrite in_time, Hst by done. cbn [is_terminal].
    unfold Session.handle_round1. rewrite Hst, Hw. cbn. fold m1.
    change (Session.round1_count (Session.set_participants s m1))
      with (count_in Session.committed m1). rewrite C1.
    destruct ps as [|p' ps]; cbn [length] in Hz.
    - rewrite (proj2 (Z.leb_le _ _)) by lia. eexists. split; [done|]. by split_and!.
    - rewrite (proj2 (Z.leb_gt _ _)) by lia. eexists. split; [done|]. by split_and!. }
  rewrite E1. cbn [fst]. fold (calls (fun p => SubmitRound1 p (c p)) ps).
  assert (Session.round1_count s1 = Session.round1_count s + 1) as D1
    by (rewrite <- C1, <- R1; done).
  assert (Session.round2_count s1 = Session.round2_count s) as D2
    by (rewrite <- C2, <- R1; done).
  destruct (decide (ps = [])) as [->|Hps].
  - cbn. split_and!; try done.
    + intros q Hq. apply list_elem_of_singleton in Hq as ->. rewrite R1. apply lookup_insert_eq.
    + intros q Hq. rewrite R1. unfold m1. rewrite lookup_insert_ne; [done|].
      intros ->. apply Hq. by left.
  - destruct (IH s1) as (I1&I2&I3&I4&I5); try done.
    + intros q Hq. rewrite R1. unfold m1. rewrite lookup_insert_ne by (intros ->; done).
      apply Hf. by right.
    + lia.
    + set (s' := Session.run s1 _) in *. split_and!; try done.
      * intros q [->|Hq]%elem_of_cons; [|by apply I3]. rewrite I4, R1 by done.
        apply lookup_insert_eq.
      * intros q Hq. rewrite not_elem_of_cons in Hq. rewrite I4, R1 by tauto.
        unfold m1. by rewrite lookup_insert_ne by (intros ->; tauto).
      * lia.
Qed.

Lemma share_all (c h : ParticipantId -> list Z) ps : forall s,
  NoDup ps ->
  (forall p, p ∈ ps -> s_participants s !! p = Some (mkParticipant true (Some (c p)) None)) ->
  s_state s = Round2 -> s_state_entered_at s = now ->
  let s' := Session.run s (calls (fun p => SubmitRound2 p (h p)) ps) in
  s_state s' = Round2 /\ s_state_entered_at s' = now /\ s_threshold s' = s_threshold s
  /\ Session.round2_count s' = Session.round2_count s + Z.of_nat (length ps).
Proof.
  induction ps as [|p ps IH]; intros s Hd Hf Hst He.
  { cbn. split_and!; try done. lia. }
  apply NoDup_cons in Hd as [Hp Hd]. cbn [calls fmap list_fmap]. rewrite run_cons.
  assert (s_participants s !! p = Some (mkParticipant true (Some (c p)) None)) as Hw
    by (apply Hf; by left).
  set (m1 := <[p := mkParticipant true (Some (c p)) (Some (h p))]> (s_participants s)).
  assert (Session.apply s (SubmitRound2 p (h p)) now = (Session.set_participants s m1, Ok tt)) as E1.
  { unfold Session.apply. rewrite in_time, Hst by done. cbn [is_terminal].
    unfold Session.handle_round2. rewrite Hst, Hw. done. }
  rewrite E1. cbn [fst]. fold (calls (fun p => SubmitRound2 p (h p)) ps).
  assert (Session.round2_count (Session.set_participants s m1) = Session.round2_count s + 1) as D.
  { change (count_in Session.shared m1 = count_in Session.shared (s_participants s) + 1).
    unfold m1. rewrite (count_insert_old _ _ _ _ _ Hw). cbn. lia. }
  destruct (IH (Session.set_participants s m1)) as (I1&I2&I3&I4); try done.
  - intros q Hq. cbn. unfold m1. rewrite lookup_insert_ne by (intros ->; done).
    apply Hf. by right.
  - cbv zeta. split_and!; try done. rewrite I4. cbn [length]. lia.
Qed.
End signing.

Lemma run_app s ts1 ts2 : Session.run s (ts1 ++ ts2) = Session.run (Session.run s ts1) ts2.
Proof. apply foldl_app. Qed.

Definition signing_run (now : Z) (ps : list ParticipantId) (m : list Z)
    (c h : ParticipantId -> list Z) (sig : list Z) : list (Transition * Z) :=
  calls now AttachParticipant ps ++ [(DeclareMessage m, now)]
  ++ calls now (fun p => SubmitRound1 p (c p)) ps
  ++ calls now (fun p => SubmitRound2 p (h p)) ps ++ [(SubmitAggregate sig, now)].

(** Signing completes: any [threshold] distinct participants that attach, are
    given a message, commit, send their shares and submit the aggregate in time
    bring a new session to [Aggregated] with that message and signature. *)
Theorem signing_completes id k n g cr now s0 ps m c h sig :
  Session.new id k n g cr now = Ok s0 -> 0 <= now -> now + INVITED_TIMEOUT_SECS <= u64_max ->
  NoDup ps -> Z.of_nat (length ps) = k ->
  let s := Session.run s0 (signing_run now ps m c h sig) in
  s_state s = Aggregated /\ s_message s = Some m /\ s_aggregate_signature s = Some sig.
Proof.
  intros Hn H0 Hmax Hd Hl.
  pose proof (new_inv _ _ _ _ _ _ _ Hn) as Hi0.
  assert (s0 = mkSession id Created k n g cr None ∅ None now now /\ 2 <= k <= n) as [-> Hk].
  { unfold Session.new in Hn. destruct (k <? 2) eqn:E1, (n <? k) eqn:E2, (255 <? n); try done.
    injection Hn as <-. split; [done|lia]. }
  unfold signing_run. rewrite !run_app.
  set (sa := Session.run _ (calls now AttachParticipant ps)).
  destruct (attach_all now H0 Hmax ps (mkSession id Created k n g cr None ∅ None now now))
    as (A1&A2&A3&A4&A5&A6); try done; [by left|cbn; rewrite map_size_empty; lia|].
  fold sa in A1, A2, A3, A4, A5, A6.
  destruct A1 as [->|A1]; [cbn in Hl; lia|].
  assert (session_inv sa) as Hia by by apply run_inv.
  assert (extends (mkSession id Created k n g cr None ∅ None now now) sa) as [(_&K&_) _ _ _]
    by by apply run_extends. cbn in K.
  set (sd := Session.run sa [(DeclareMessage m, now)]).
  assert (sd = Session.transition_to (Session.set_message sa m) Round1 now) as Ed.
  { apply declare_starts; try done. rewrite A6. cbn. rewrite map_size_empty. lia. }
  assert (session_inv sd) as Hid by by apply run_inv.
  pose proof (si_phase _ Hia) as Pa. rewrite A1 in Pa. destruct Pa as [Pa _].
  assert (Session.round1_count sd = 0) as R0 by (rewrite Ed; exact Pa).
  assert (Session.round2_count sd = 0) as R0'.
  { pose proof (shares_le_commitments sd Hid).
    pose proof (count_bounds Session.shared (s_participants sd)) as B.
    change (count_in Session.shared (s_participants sd)) with (Session.round2_count sd) in B. lia. }
  destruct (commit_all now H0 Hmax c ps sd) as (B1&B2&B3&B4&B5); try done.
  { rewrite Ed. done. }
  { by rewrite Ed. }
  { by rewrite Ed. }
  { rewrite R0, Ed. cbn. lia. }
  { intros ->. cbn in Hl. lia. }
  set (sc := Session.run sd _) in *.
  destruct (share_all now H0 Hmax c h ps sc) as (D1&D2&D3&D4); try done.
  set (ss := Session.run sc _) in *.
  assert (extends sd ss) as [(_&K2&_) M2 _ _].
  { etransitivity; [by apply run_extends|]. apply run_extends. by apply run_inv. }
  rewrite run_cons. unfold Session.apply. rewrite in_time, D1 by done. cbn [is_terminal].
  unfold Session.handle_aggregate. rewrite D1. cbn [bool_decide negb decide decide_rel].
  rewrite bool_decide_true by done. cbn [negb]. cbv zeta.
  rewrite (proj2 (Z.ltb_ge _ _)).
  - cbn. split_and!; try done. apply M2. by rewrite Ed.
  - rewrite D4, B5, R0', K2, Ed. cbn. lia.
Qed.

(** The caller of an abort is not checked: a call in the name of a key that
    never attached, or is not even a participant, ends any live session, while a
    participant who reconnects during a round is refused. *)
Theorem stranger_aborts_session s p now :
  is_terminal (s_state s) = false -> Session.timed_out s now = false ->
  Session.apply s (AbortSession p) now = (Session.transition_to s Aborted now, Ok tt)
  /\ (s_state s = Round1 \/ s_state s = Round2 ->
      forall q, Session.apply s (AttachParticipant q) now
                = (s, Err (InvalidTransition "AttachParticipant" (name (s_state s))))).
Proof.
  intros Ht Ho. unfold Session.apply. rewrite Ht, Ho. split; [done|].
  intros Hs q. unfold Session.handle_attach. by destruct Hs as [-> | ->].
Qed.

(** ** Identifiers and tokens *)

Lemma hex_digit_range n : 0 <= n < 16 -> decode_hex_nibble (hex_digit n) = Some n.
Proof.
  intros H. unfold hex_digit, decode_hex_nibble. destruct (n <? 10) eqn:E.
  - rewrite (proj2 (Z.leb_le 48 (n + 48))), (proj2 (Z.leb_le (n + 48) 57)) by lia. cbn. f_equal. lia.
  - rewrite (proj2 (Z.leb_le 48 (n + 87))), (proj2 (Z.leb_gt (n + 87) 57)) by lia. cbn [andb].
    rewrite (proj2 (Z.leb_le 97 (n + 87))), (proj2 (Z.leb_le (n + 87) 102)) by lia.
    cbn [andb]. f_equal. lia.
Qed.

Lemma nibbles b : is_u8 b ->
  0 <= Z.shiftr b 4 < 16 /\ 0 <= Z.land b 15 < 16
  /\ Z.lor (Z.shiftl (Z.shiftr b 4) 4) (Z.land b 15) = b.
Proof.
  unfold is_u8. intros H. change 15 with (Z.ones 4). rewrite Z.land_ones by lia.
  rewrite Z.shiftr_div_pow2 by lia. change (2 ^ 4) with 16.
  split_and!; try (Z.to_euclidean_division_equations; lia).
  change 16 with (2 ^ 4). rewrite <- Z.shiftr_div_pow2, <- Z.land_ones by lia.
  rewrite <- Z.ldiff_ones_r by lia. apply Z.bits_inj'. intros i Hi.
  rewrite Z.lor_spec, Z.ldiff_spec, Z.land_spec.
  destruct (Z.testbit b i), (Z.testbit (Z.ones 4) i); done.
Qed.

Lemma decode_encode_from bs : forall i, Forall is_u8 bs ->
  decode_hex_from i (encode_hex32 bs) = Ok bs.
Proof.
  induction bs as [|b bs IH]; intros i Hb; [done|].
  inversion Hb as [|? ? Hb1 Hb2]; subst. destruct (nibbles b Hb1) as (N1&N2&N3).
  change (encode_hex32 (b :: bs)) with
    (hex_digit (Z.shiftr b 4) :: hex_digit (Z.land b 15) :: encode_hex32 bs).
  cbn [decode_hex_from]. rewrite !hex_digit_range by done. cbn. rewrite IH by done. cbn.
  by rewrite N3.
Qed.

(** A participant identifier of 32 bytes is written as 64 hexadecimal digits
    that are read back as the same bytes, and no string of another length is read. *)
Theorem participant_id_roundtrip bs :
  Forall is_u8 bs -> length bs = 32%nat ->
  length (encode_hex32 bs) = 64%nat /\ decode_hex32 (encode_hex32 bs) = Ok bs
  /\ forall str, length str <> 64%nat -> decode_hex32 str = Err (BadLength (Z.of_nat (length str))).
Proof.
  intros Hb Hl.
  assert (length (encode_hex32 bs) = (2 * length bs)%nat) as He.
  { clear. unfold encode_hex32. induction bs as [|b bs IH]; [done|]. cbn in *. lia. }
  split; [lia|]. split.
  - unfold decode_hex32. rewrite He, Hl. cbn [Nat.mul Nat.add]. by apply decode_encode_from.
  - intros str Hs. unfold decode_hex32. rewrite (proj2 (Z.eqb_neq _ _)) by lia. done.
Qed.

(** A token verifies exactly when the secret has 32 bytes, the token has not
    expired and its tag is the MAC of its fields; so a minted token verifies until
    its last second, and a token with other fields verifies under the same tag only
    with a collision of the MAC. *)
Theorem token_verification_exact hmac secret token now :
  (verify_token hmac secret token now = Ok tt <->
   length secret = 32%nat /\ now <= it_expires_at token
   /\ it_mac token = compute_mac hmac secret (it_session_id token)
                       (it_participant_pubkey token) (it_expires_at token))
  /\ (forall id p e, length secret = 32%nat -> now <= e -> exists t,
        mint_token hmac secret id p e = Ok t /\ verify_token hmac secret t now = Ok tt)
  /\ (forall t', verify_token hmac secret token now = Ok tt ->
        verify_token hmac secret t' now = Ok tt -> it_mac t' = it_mac token ->
        length (it_session_id token) = length (it_session_id t') ->
        length (it_participant_pubkey token) = length (it_participant_pubkey t') ->
        is_u64 (it_expires_at token) -> is_u64 (it_expires_at t') ->
        token = t' \/ exists x y, x <> y /\ hmac secret x = hmac secret y).
Proof.
  assert (forall t, verify_token hmac secret t now = Ok tt <->
    length secret = 32%nat /\ now <= it_expires_at t
    /\ it_mac t = compute_mac hmac secret (it_session_id t) (it_participant_pubkey t)
                    (it_expires_at t)) as Hv.
  { intros t. unfold verify_token, SESSION_SECRET_LEN.
    destruct (Z.eqb_spec (Z.of_nat (length secret)) 32) as [E|E]; cbn [negb];
      [|split; [done|lia]].
    destruct (Z.ltb_spec (it_expires_at t) now); [split; [done|lia]|]. cbv zeta.
    destruct (bool_decide_reflect (compute_mac hmac secret (it_session_id t)
      (it_participant_pubkey t) (it_expires_at t) = it_mac t)) as [Em|Em].
    - split; [|done]. intros _. split_and!; [lia|lia|done].
    - split; [done|]. intros (_&_&?). congruence. }
  split; [apply Hv|]. split.
  - intros id p e Hs He. unfold mint_token, SESSION_SECRET_LEN.
    rewrite (proj2 (Z.eqb_eq _ _)) by lia. cbn [negb]. eexists. split; [done|]. by apply Hv.
  - intros t' H1 H2 Em L1 L2 U1 U2. apply Hv in H1 as (_&_&M1), H2 as (_&_&M2).
    rewrite M1, M2 in Em. unfold compute_mac in Em.
    set (x := invite_prefix ++ it_session_id t' ++ _) in *.
    set (y := invite_prefix ++ it_session_id token ++ _) in *.
    destruct (decide (x = y)) as [E|E]; [|right; by exists x, y]. left.
    unfold x, y in E. apply app_inv_head in E. apply app_inj_1 in E as [E1 E]; [|done].
    apply app_inj_1 in E as [E2 E]; [|done].
    assert (it_expires_at token = it_expires_at t') as E3.
    { rewrite <- (le_val_le_bytes 8 (it_expires_at token)) by word_lia.
      rewrite <- (le_val_le_bytes 8 (it_expires_at t')) by word_lia. by f_equal. }
    destruct token, t'. cbn in *. congruence.
Qed.

(** ** Witnesses *)

Definition demo_session : Session :=
  mkSession [0] Created 2 3 [] [9] None ∅ None 100 100.
Definition demo_signing : list (Transition * Z) :=
  signing_run 100 [[1]; [2]] [7] (fun p => p) (fun p => p) [8].

Lemma aggregated_has_threshold_shares_witness :
  let s := Session.run demo_session demo_signing in
  s_state s = Aggregated /\ Session.round1_count s = 2 /\ Session.round2_count s = 2.
Proof.
  destruct (aggregated_has_threshold_shares [0] 2 3 [] [9] 100 demo_session demo_signing eq_refl)
    as (_&_&_&H).
  assert (s_state (Session.run demo_session demo_signing) = Aggregated) as E
    by (vm_compute; reflexivity).
  cbv zeta in *. split; [exact E|]. split; apply (H E).
Defined.

Lemma session_history_final_witness :
  extends (Session.run demo_session (take 3 demo_signing)) (Session.run demo_session demo_signing).
Proof.
  exact (proj1 (session_history_final [0] 2 3 [] [9] 100 demo_session (take 3 demo_signing)
                  (drop 3 demo_signing) eq_refl)).
Defined.

Lemma refused_call_effect_witness :
  (Session.apply demo_session (DeclareMessage [1]) 100).1 = demo_session.
Proof.
  destruct (refused_call_effect demo_session (DeclareMessage [1]) 100
    (InvalidTransition "DeclareMessage" "Created")
    (new_inv [0] 2 3 [] [9] 100 demo_session eq_refl) eq_refl) as [[H _]|(_&H&_)].
  - exact H.
  - vm_compute in H. discriminate H.
Defined.

Lemma signing_completes_witness :
  let s := Session.run demo_session demo_signing in
  s_state s = Aggregated /\ s_message s = Some [7] /\ s_aggregate_signature s = Some [8].
Proof.
  apply (signing_completes [0] 2 3 [] [9] 100 demo_session [[1]; [2]] [7] (fun p => p)
           (fun p => p) [8]).
  - reflexivity.
  - lia.
  - vm_compute. discriminate.
  - apply (bool_decide_unpack _). vm_compute. exact I.
  - reflexivity.
Defined.

Lemma stranger_aborts_session_witness :
  Session.apply demo_session (AbortSession [77]) 100
  = (Session.transition_to demo_session Aborted 100, Ok tt).
Proof.
  apply (stranger_aborts_session demo_session [77] 100); vm_compute; reflexivity.
Defined.

Lemma participant_id_roundtrip_witness :
  decode_hex32 (encode_hex32 (replicate 32 171)) = Ok (replicate 32 171).
Proof.
  apply (participant_id_roundtrip (replicate 32 171)); [|reflexivity].
  apply Forall_replicate. unfold is_u8. lia.
Defined.
