(* ===== verification/Coordinator.v ===== *)
(** * The FROST coordinator server

    [persistence.rs] and [bin/coord.rs] of [coincync-frost-coordinator]: the file of
    sessions, the server state, request dispatch, attach with its rate limit and
    token check, the events broadcast to subscribers, the connection limit.  Socket
    and WebSocket I/O, JSON text and the rate limiter are outside: a request is its
    decoded value ([None] for malformed text), the limiter's verdict, the clock and
    the success of a file write are inputs of the operations.  A file is absent,
    unreadable as JSON, or a decoded payload. *)

From stdpp Require Import prelude gmap strings pretty.
From Stdlib Require Import ZArith Lia.
From S2P Require Import Prelude Frost FrostRules.

Local Open Scope Z_scope.

(** ** The session file *)

Definition PERSISTENCE_VERSION : Z := 1.

Record PersistFile := mkPersistFile {
  pf_version : Z; pf_saved_at : Z; pf_sessions : list Session }.

Inductive file := Absent | Garbage | Payload (p : PersistFile).

Inductive PersistError := PersistIo | PersistJson | UnsupportedVersion (file_version supported : Z).

(** The payload goes to a temporary file that is renamed: [io] is the success of
    the whole, and a failure leaves the old file. *)
Definition save (io : bool) (now : Z) (f : file) (sessions : list Session)
  : file * result PersistError unit :=
  if io then (Payload (mkPersistFile PERSISTENCE_VERSION now sessions), Ok tt)
  else (f, Err PersistIo).

Definition load (f : file) : result PersistError (list Session) :=
  match f with
  | Absent => Ok []
  | Garbage => Err PersistJson
  | Payload p =>
      if PERSISTENCE_VERSION <? pf_version p
      then Err (UnsupportedVersion (pf_version p) PERSISTENCE_VERSION)
      else Ok (pf_sessions p)
  end.

(** [SessionStore::update]: load, edit, save. *)
Definition update (io : bool) (now : Z) (f : file) (g : list Session -> list Session)
  : file * result PersistError unit :=
  match load f with
  | Err e => (f, Err e)
  | Ok sessions => save io now f (g sessions)
  end.

(** ** Addresses and secrets *)

(** The bucket of the attach limiter: an IPv4 address, mapped or not, or the upper
    64 bits of an IPv6 address. *)
Definition canonicalize_ip_for_rate_limit (ip : IpAddr) : IpAddr :=
  match ip with
  | V4 _ => ip
  | V6 segments =>
      match segments with
      | [a; b; c; d; e; f; high; low] =>
          if (a =? 0) && (b =? 0) && (c =? 0) && (d =? 0) && (e =? 0) && (f =? 65535)
          then V4 [Z.shiftr high 8; Z.land high 255; Z.shiftr low 8; Z.land low 255]
          else V6 [a; b; c; d; 0; 0; 0; 0]
      | _ => ip
      end
  end.

(** [u8::from_str_radix] on two characters: a leading plus sign is accepted. *)
Definition parse_hex_byte (a b : Z) : option Z :=
  if a =? 43 then decode_hex_nibble b
  else hi ← decode_hex_nibble a; lo ← decode_hex_nibble b; Some (hi * 16 + lo).

Fixpoint parse_hex_pairs (s : list Z) : option (list Z) :=
  match s with
  | a :: b :: s => x ← parse_hex_byte a b; rest ← parse_hex_pairs s; Some (x :: rest)
  | _ => Some []
  end.

Definition parse_invite_secret (hex_str : list Z) : option (list Z) :=
  if negb (Z.of_nat (length hex_str) =? SESSION_SECRET_LEN * 2) then None
  else parse_hex_pairs hex_str.

(** ** The server *)

Definition MAX_MESSAGE_BYTES : Z := 16 * 1024.
Definition MAX_CONNECTIONS : Z := 1000.

Inductive Request :=
  | ReqAttach (request_id : string) (token : InvitationToken)
  | ReqDeclareMessage (request_id : string) (session_id : SessionId) (message : list Z)
  | ReqSubmitRound1 (request_id : string) (session_id : SessionId)
      (participant : ParticipantId) (commitment : list Z)
  | ReqSubmitRound2 (request_id : string) (session_id : SessionId)
      (participant : ParticipantId) (sig_share : list Z)
  | ReqSubmitAggregate (request_id : string) (session_id : SessionId) (signature : list Z)
  | ReqAbort (request_id : string) (session_id : SessionId) (participant : ParticipantId)
  | ReqTick (request_id : string) (session_id : SessionId).

(** Replies, and the events of a session; the human-readable message is left out. *)
Inductive Response :=
  | Accepted (request_id new_state : string)
  | Rejected (request_id code : string)
  | StateChange (session_id : SessionId) (new_state : string)
  | AggregatedEvent (session_id : SessionId) (signature : list Z)
  | AbortedEvent (session_id : SessionId) (reason : string).

Record Coord := mkCoord {
  co_sessions : gmap SessionId Session;
  co_broadcasters : gset SessionId;
  co_invite_secret : list Z;
  co_store : file;
  co_connections : Z;
}.

(** What one request reads from outside. *)
Record Env := mkEnv { env_now : Z; env_io : bool; env_limiter : IpAddr -> bool }.

Definition set_sessions (c : Coord) (m : gmap SessionId Session) : Coord :=
  mkCoord m (co_broadcasters c) (co_invite_secret c) (co_store c) (co_connections c).
Definition set_store (c : Coord) (f : file) : Coord :=
  mkCoord (co_sessions c) (co_broadcasters c) (co_invite_secret c) f (co_connections c).
Definition set_connections (c : Coord) (n : Z) : Coord :=
  mkCoord (co_sessions c) (co_broadcasters c) (co_invite_secret c) (co_store c) n.

Definition coord_new (invite_secret : list Z) (store : file) : Coord :=
  mkCoord ∅ ∅ invite_secret store 0.

Definition load_existing_sessions (c : Coord) : result PersistError Coord :=
  loaded ← load (co_store c);
  Ok (mkCoord (foldl (fun m s => <[s_id s := s]> m) (co_sessions c) loaded)
        (foldl (fun b s => {[ s_id s ]} ∪ b) (co_broadcasters c) loaded)
        (co_invite_secret c) (co_store c) (co_connections c)).

Definition persist (io : bool) (now : Z) (c : Coord) : Coord * result PersistError unit :=
  let snapshot := (map_to_list (co_sessions c)).*2 in
  let '(f, r) := save io now (co_store c) snapshot in
  (set_store c f, r).

(** The events sent after an accepted transition. *)
Definition events (prior : SessionState) (s : Session) : list Response :=
  [StateChange (s_id s) (name (s_state s))]
  ++ (if bool_decide (s_state s = Aggregated) then
        match s_aggregate_signature s with
        | Some sig => [AggregatedEvent (s_id s) sig]
        | None => []
        end
      else [])
  ++ (if negb (is_terminal prior) && is_terminal (s_state s)
         && negb (bool_decide (s_state s = Aggregated))
      then [AbortedEvent (s_id s) ("session entered " +:+ name (s_state s))]
      else []).

Definition apply_transition (e : Env) (c : Coord) (session_id : SessionId) (t : Transition)
  : Coord * list Response * result CoordinatorError string :=
  match co_sessions c !! session_id with
  | None => (c, [], Err (Internal "unknown session"))
  | Some session =>
      let '(session', r) := Session.apply session t (env_now e) in
      let c := set_sessions c (<[session_id := session']> (co_sessions c)) in
      match r with
      | Err err => (c, [], Err err)
      | Ok _ =>
          let c := (persist (env_io e) (env_now e) c).1 in
          (c, if bool_decide (s_id session' ∈ co_broadcasters c)
              then events (s_state session) session' else [],
           Ok (name (s_state session')))
      end
  end.

Definition invitation_error_code (e : InvitationError) : string :=
  match e with
  | BadSecretLength => "bad_secret_length"
  | TokenExpired _ _ => "token_expired"
  | BadMac => "token_invalid"
  end.

Definition coordinator_error_code (e : CoordinatorError) : string :=
  match e with
  | InvalidTransition _ _ => "invalid_transition"
  | UnauthorizedParticipant => "unauthorized_participant"
  | SessionTerminal _ => "session_terminal"
  | SessionExpired _ => "session_expired"
  | ThresholdViolation _ => "threshold_violation"
  | DuplicateAction _ => "duplicate_action"
  | Internal _ => "internal_error"
  end.

Definition apply_helper (e : Env) (c : Coord) (request_id : string) (session_id : SessionId)
    (t : Transition) : Coord * list Response * Response :=
  let '(c, ev, r) := apply_transition e c session_id t in
  (c, ev,
   match r with
   | Ok new_state => Accepted request_id new_state
   | Err err => Rejected request_id (coordinator_error_code err)
   end).

Section server.
Context (hmac : list Z -> list Z -> list Z).

(** The sessions a connection is subscribed to are its [attached] set. *)
Definition handle_attach (e : Env) (c : Coord) (request_id : string) (token : InvitationToken)
    (attached : gset SessionId) (peer_ip : IpAddr)
  : Coord * list Response * Response * gset SessionId :=
  if negb (env_limiter e (canonicalize_ip_for_rate_limit peer_ip)) then
    (c, [], Rejected request_id "rate_limited", attached)
  else
    match verify_token hmac (co_invite_secret c) token (env_now e) with
    | Err err => (c, [], Rejected request_id (invitation_error_code err), attached)
    | Ok _ =>
        if negb (bool_decide (is_Some (co_sessions c !! it_session_id token))) then
          (c, [], Rejected request_id "unknown_session", attached)
        else
          let '(c, ev, r) := apply_transition e c (it_session_id token)
                               (AttachParticipant (it_participant_pubkey token)) in
          match r with
          | Ok new_state =>
              (c, ev, Accepted request_id new_state,
               if bool_decide (it_session_id token ∈ co_broadcasters c)
               then {[ it_session_id token ]} ∪ attached else attached)
          | Err err => (c, ev, Rejected request_id (coordinator_error_code err), attached)
          end
    end.

Definition keep (attached : gset SessionId) (r : Coord * list Response * Response)
  : Coord * list Response * Response * gset SessionId := (r, attached).

Definition handle_request (e : Env) (c : Coord) (req : option Request)
    (attached : gset SessionId) (peer_ip : IpAddr)
  : Coord * list Response * Response * gset SessionId :=
  match req with
  | None => (c, [], Rejected "" "bad_request", attached)
  | Some (ReqAttach rid token) => handle_attach e c rid token attached peer_ip
  | Some (ReqDeclareMessage rid sid message) =>
      keep attached (apply_helper e c rid sid (DeclareMessage message))
  | Some (ReqSubmitRound1 rid sid participant x) =>
      keep attached (apply_helper e c rid sid (SubmitRound1 participant x))
  | Some (ReqSubmitRound2 rid sid participant x) =>
      keep attached (apply_helper e c rid sid (SubmitRound2 participant x))
  | Some (ReqSubmitAggregate rid sid signature) =>
      keep attached (apply_helper e c rid sid (SubmitAggregate signature))
  | Some (ReqAbort rid sid participant) =>
      keep attached (apply_helper e c rid sid (AbortSession participant))
  | Some (ReqTick rid sid) => keep attached (apply_helper e c rid sid Tick)
  end.

(** A text frame: too long closes the connection ([None]). *)
Definition text_frame (e : Env) (c : Coord) (len : Z) (req : option Request)
    (attached : gset SessionId) (peer_ip : IpAddr)
  : option (Coord * list Response * Response * gset SessionId) :=
  if MAX_MESSAGE_BYTES <? len then None
  else Some (handle_request e c req attached peer_ip).

(** The bookkeeping of [handle_connection]. *)
Definition open_connection (c : Coord) : option Coord :=
  if MAX_CONNECTIONS <=? co_connections c then None
  else Some (set_connections c (co_connections c + 1)).

Definition close_connection (c : Coord) : Coord :=
  set_connections c (sat_sub (co_connections c) 1).

(** Requests of any number of connections, one after the other (a transition holds
    the lock on the sessions). *)
Definition serve (c : Coord) (rs : list (Env * option Request * gset SessionId * IpAddr)) : Coord :=
  foldl (fun c r => let '(e, req, a, ip) := r in (handle_request e c req a ip).1.1.1) c rs.
End server.

(** ** Lemmas *)

Lemma apply_keeps_id s t now : session_inv s -> s_id (Session.apply s t now).1 = s_id s.
Proof. intros Hi. apply (apply_extends s t now Hi). Qed.

(** Only an attach adds a participant, and only the one it names. *)
Lemma apply_members s t now p :
  is_Some (s_participants (Session.apply s t now).1 !! p) ->
  is_Some (s_participants s !! p) \/ t = AttachParticipant p.
Proof.
  assert (forall q v, s_participants s !! q = Some v -> forall w,
    is_Some (<[q := w]> (s_participants s) !! p) -> is_Some (s_participants s !! p)) as Hrow.
  { intros q v Hq w. destruct (decide (q = p)) as [->|Hne]; [rewrite Hq; eauto|].
    by rewrite lookup_insert_ne. }
  unfold Session.apply. destruct (is_terminal _); [by left|].
  destruct (Session.timed_out s now); [by left|].
  destruct t as [q|m|q x|q x|sig|q|]; cbn [fst]; try by left.
  - unfold Session.handle_attach. cbv zeta.
    destruct (s_state s); try (by left); destruct (_ && _); cbn; try (by left).
    all: destruct (decide (q = p)) as [->|Hne]; [by right|]; rewrite lookup_insert_ne by done;
      by left.
  - unfold Session.handle_declare_message. destruct (s_state s); try by left.
    destruct (bool_decide _); [by left|]. cbv zeta. destruct (_ <? _); by left.
  - unfold Session.handle_round1. destruct (negb _); [by left|].
    destruct (s_participants s !! q) as [v|] eqn:Eq; [|by left].
    destruct (negb _); [by left|]. destruct (Session.committed v); [by left|]. cbv zeta.
    cbn [fst]. destruct (_ <=? _); cbn; intros H; left; by eapply Hrow.
  - unfold Session.handle_round2. destruct (negb _); [by left|].
    destruct (s_participants s !! q) as [v|] eqn:Eq; [|by left].
    destruct (negb _); [by left|]. destruct (Session.shared v); [by left|]. cbn.
    intros H; left; by eapply Hrow.
  - unfold Session.handle_aggregate. destruct (negb _); [by left|]. cbv zeta.
    destruct (_ <? _); by left.
Qed.

(** The server's sessions after a transition. *)
Lemma apply_transition_sessions e c sid t :
  co_sessions (apply_transition e c sid t).1.1
  = match co_sessions c !! sid with
    | Some s => <[sid := (Session.apply s t (env_now e)).1]> (co_sessions c)
    | None => co_sessions c
    end
  /\ co_invite_secret (apply_transition e c sid t).1.1 = co_invite_secret c
  /\ co_broadcasters (apply_transition e c sid t).1.1 = co_broadcasters c.
Proof.
  unfold apply_transition. destruct (co_sessions c !! sid) as [s|]; [|done].
  destruct (Session.apply s t (env_now e)) as [s' [[]|err]]; [|done].
  unfold persist. by destruct (save _ _ _ _).
Qed.

Lemma apply_helper_coord e c rid sid t :
  (apply_helper e c rid sid t).1.1 = (apply_transition e c sid t).1.1.
Proof. unfold apply_helper. by destruct (apply_transition e c sid t) as [[? ?] ?]. Qed.

Section claims.
Context (hmac : list Z -> list Z -> list Z).

(** The session and the transition a request applies, if any. *)
Definition effect_of (e : Env) (c : Coord) (req : option Request) (ip : IpAddr)
  : option (SessionId * Transition) :=
  match req with
  | None => None
  | Some (ReqAttach _ token) =>
      if env_limiter e (canonicalize_ip_for_rate_limit ip)
         && is_ok (verify_token hmac (co_invite_secret c) token (env_now e))
         && bool_decide (is_Some (co_sessions c !! it_session_id token))
      then Some (it_session_id token, AttachParticipant (it_participant_pubkey token))
      else None
  | Some (ReqDeclareMessage _ sid m) => Some (sid, DeclareMessage m)
  | Some (ReqSubmitRound1 _ sid p x) => Some (sid, SubmitRound1 p x)
  | Some (ReqSubmitRound2 _ sid p x) => Some (sid, SubmitRound2 p x)
  | Some (ReqSubmitAggregate _ sid x) => Some (sid, SubmitAggregate x)
  | Some (ReqAbort _ sid p) => Some (sid, AbortSession p)
  | Some (ReqTick _ sid) => Some (sid, Tick)
  end.

Lemma handle_request_coord e c req a ip :
  (handle_request hmac e c req a ip).1.1.1
  = match effect_of e c req ip with
    | Some (sid, t) => (apply_transition e c sid t).1.1
    | None => c
    end.
Proof.
  destruct req as [[rid token| | | | | |]|]; cbn -[apply_helper apply_transition verify_token];
    try apply apply_helper_coord; [|done].
  unfold handle_attach. destruct (env_limiter e _); [|done]. cbn [negb].
  destruct (verify_token _ _ _ _) as [[]|err]; [|done]. cbn [is_ok andb].
  destruct (bool_decide _); [|done]. cbn [negb].
  by destruct (apply_transition _ _ _ _) as [[? ?] [|]].
Qed.

Lemma effect_attach e c req ip sid p :
  effect_of e c req ip = Some (sid, AttachParticipant p) ->
  exists rid token, req = Some (ReqAttach rid token)
    /\ verify_token hmac (co_invite_secret c) token (env_now e) = Ok tt
    /\ it_session_id token = sid /\ it_participant_pubkey token = p.
Proof.
  destruct req as [[rid token| | | | | |]|]; cbn -[verify_token]; try done.
  destruct (_ && _) eqn:Eg; [|done]. intros [= <- <-]. exists rid, token.
  apply andb_true_iff in Eg as [Eg _]. apply andb_true_iff in Eg as [_ Eg].
  by destruct (verify_token _ _ _ _) as [[]|].
Qed.

Lemma handle_request_secret e c req a ip :
  co_invite_secret (handle_request hmac e c req a ip).1.1.1 = co_invite_secret c.
Proof.
  rewrite handle_request_coord. destruct (effect_of e c req ip) as [[sid t]|]; [|done].
  apply apply_transition_sessions.
Qed.

(** Nobody enters a signing session uninvited: over any requests of any
    connections, each participant of a session was in it when the server started
    or presented a token for that session and key that verified under the server's
    secret at that time. *)
Theorem members_were_invited rs : forall c sid s p,
  co_sessions (serve hmac c rs) !! sid = Some s -> is_Some (s_participants s !! p) ->
  (exists s0, co_sessions c !! sid = Some s0 /\ is_Some (s_participants s0 !! p))
  \/ exists e rid token a ip, (e, Some (ReqAttach rid token), a, ip) ∈ rs
     /\ verify_token hmac (co_invite_secret c) token (env_now e) = Ok tt
     /\ it_session_id token = sid /\ it_participant_pubkey token = p.
Proof.
  induction rs as [|[[[e req] a] ip] rs IH]; intros c sid s p Hs Hp; [by left; exists s|].
  cbn [serve foldl] in Hs. fold (serve hmac) in Hs.
  set (c1 := (handle_request hmac e c req a ip).1.1.1) in *.
  assert (co_invite_secret c1 = co_invite_secret c) as Es by apply handle_request_secret.
  destruct (IH c1 sid s p Hs Hp) as [(s1&H1&Hp1)|(e'&rid&token&a'&ip'&Hin&Hv&Ht)].
  - unfold c1 in H1. rewrite handle_request_coord in H1.
    destruct (effect_of e c req ip) as [[sid' t]|] eqn:Ee; [|by left; exists s1].
    destruct (apply_transition_sessions e c sid' t) as [E _]. rewrite E in H1.
    destruct (co_sessions c !! sid') as [s0|] eqn:E0; [|by left; exists s1].
    apply lookup_insert_Some in H1 as [[<- <-]|[Hne H1]]; [|by left; exists s1].
    apply apply_members in Hp1 as [Hp1| ->]; [by left; exists s0|].
    right. apply effect_attach in Ee as (rid&token&->&Hv&Ht).
    exists e, rid, token, a, ip. split; [by left|]. tauto.
  - right. rewrite Es in Hv. exists e', rid, token, a', ip'. split; [by right|]. tauto.
Qed.
End claims.

(** ** Durability *)

(** Every session is stored under its own identifier and is well formed. *)
Definition coord_ok (c : Coord) : Prop :=
  map_Forall (fun sid s => s_id s = sid /\ session_inv s) (co_sessions c).

Lemma apply_transition_ok e c sid t :
  coord_ok c -> coord_ok (apply_transition e c sid t).1.1.
Proof.
  intros Hc. unfold coord_ok. destruct (apply_transition_sessions e c sid t) as [-> _].
  destruct (co_sessions c !! sid) as [s|] eqn:E; [|done].
  destruct (Hc sid s E) as [Hid Hi]. apply map_Forall_insert_2; [|done].
  split; [|by apply session_apply_inv]. by rewrite apply_keeps_id.
Qed.

Lemma serve_ok hmac rs : forall c, coord_ok c -> coord_ok (serve hmac c rs).
Proof.
  induction rs as [|[[[e req] a] ip] rs IH]; intros c Hc; [done|]. apply IH.
  rewrite handle_request_coord. destruct (effect_of hmac e c req ip) as [[sid t]|]; [|done].
  by apply apply_transition_ok.
Qed.

Lemma load_rows (l : list Session) : forall m : gmap SessionId Session,
  NoDup (s_id <$> l) ->
  forall i s, foldl (fun m s => <[s_id s := s]> m) m l !! i = Some s <->
    (s ∈ l /\ s_id s = i) \/ ((i ∉ s_id <$> l) /\ m !! i = Some s).
Proof.
  induction l as [|x l IH]; intros m Hd i s; cbn [foldl].
  - split; [|by intros [[?%elem_of_nil _]|[_ ?]]].
    intros Hm. right. split; [apply not_elem_of_nil|done].
  - rewrite fmap_cons, NoDup_cons in Hd. destruct Hd as [Hx Hd]. rewrite IH by done.
    rewrite lookup_insert_Some, fmap_cons, not_elem_of_cons, elem_of_cons. split.
    + intros [[Hin Hi]|[Hni [[<- <-]|[Hne Hm]]]]; [tauto|by left; split; [left|]|].
      right. split; [|done]. split; [congruence|done].
    + intros [[[->|Hin] <-]|[[Hne Hni] Hm]]; [right; split; [done|]; tauto|tauto|].
      right. split; [done|]. right. split; [congruence|done].
Qed.

(** Saving every session and loading the file gives the sessions back. *)
Lemma save_load_sessions c :
  coord_ok c ->
  foldl (fun m s => <[s_id s := s]> m) ∅ ((map_to_list (co_sessions c)).*2) = co_sessions c.
Proof.
  intros Hc. assert (s_id <$> (map_to_list (co_sessions c)).*2 = (map_to_list (co_sessions c)).*1)
    as Hids.
  { rewrite <- list_fmap_compose. apply list_fmap_ext. intros k [i s] Hk. cbn.
    apply list_elem_of_lookup_2, elem_of_map_to_list in Hk. by apply (Hc i s). }
  apply map_eq. intros i. apply option_eq. intros s.
  rewrite load_rows by (rewrite Hids; apply NoDup_fst_map_to_list).
  rewrite lookup_empty, list_elem_of_fmap. split.
  - intros [[([j s']&->&Hin) <-]|[_ ?]]; [|done]. apply elem_of_map_to_list in Hin.
    cbn. destruct (Hc j s' Hin) as [-> _]. done.
  - intros Hs. left. split; [|by apply (Hc i s)]. exists (i, s). split; [done|].
    by apply elem_of_map_to_list.
Qed.

(** The server started again on the file it left. *)
Definition restart (c : Coord) : result PersistError Coord :=
  load_existing_sessions (coord_new (co_invite_secret c) (co_store c)).

(** A transition the server accepts while its file can be written is durable:
    a server restarted on the file has exactly the sessions of the running one. *)
Theorem accepted_survives_restart hmac c rs e sid t :
  coord_ok c -> env_io e = true ->
  let c1 := serve hmac c rs in
  let '(c2, ev, r) := apply_transition e c1 sid t in
  forall st, r = Ok st ->
  exists c3, restart c2 = Ok c3 /\ co_sessions c3 = co_sessions c2
    /\ forall i, i ∈ co_broadcasters c3 <-> is_Some (co_sessions c2 !! i).
Proof.
  intros Hc Hio c1. pose proof (serve_ok hmac rs c Hc) as Hc1. fold c1 in Hc1.
  pose proof (apply_transition_ok e c1 sid t Hc1) as Hc2.
  destruct (apply_transition e c1 sid t) as [[c2 ev] r] eqn:E. cbn [fst] in Hc2.
  intros st ->. unfold apply_transition in E.
  destruct (co_sessions c1 !! sid) as [s|] eqn:Es; [|done].
  destruct (Session.apply s t (env_now e)) as [s' [[]|err]] eqn:Ea; [|done].
  unfold persist in E. rewrite Hio in E. cbn in E. injection E as E _ _.
  rewrite <- E in Hc2 |- *. unfold restart, load_existing_sessions. cbn. eexists. split; [done|].
  cbn. pose proof (save_load_sessions _ Hc2) as Hsl. cbn in Hsl. split; [exact Hsl|].
  intros i. set (m := <[sid := s']> (co_sessions c1)) in *.
  assert (forall (l : list Session) (b : gset SessionId),
    i ∈ foldl (fun b s => {[ s_id s ]} ∪ b) b l <-> i ∈ (s_id <$> l) \/ i ∈ b) as Hb.
  { intros l. induction l as [|x l IH]; intros b; cbn.
    - split; [by right|]. by intros [?%elem_of_nil|?].
    - rewrite IH, elem_of_cons, elem_of_union, elem_of_singleton. tauto. }
  rewrite Hb. split.
  - intros [Hin|?%elem_of_empty]; [|done]. apply list_elem_of_fmap in Hin as (x&->&Hin).
    apply list_elem_of_fmap in Hin as ([j y]&->&Hin). apply elem_of_map_to_list in Hin.
    destruct (Hc2 j y Hin) as [Hj _]. cbn in Hj |- *. rewrite Hj. by exists y.
  - intros [x Hx]. left. destruct (Hc2 i x Hx) as [Hid _]. apply list_elem_of_fmap.
    exists x. split; [done|]. apply list_elem_of_fmap. exists (i, x). split; [done|].
    by apply elem_of_map_to_list.
Qed.

(** Expiry is silent: the call that finds the deadline passed moves the session
    to [Expired] in memory only; no subscriber is told, the file keeps the session
    alive, and a server restarted on that file serves it as live again. *)
Theorem expiry_is_silent e c sid s t :
  co_sessions c !! sid = Some s -> is_terminal (s_state s) = false ->
  Session.timed_out s (env_now e) = true ->
  let '(c', ev, r) := apply_transition e c sid t in
  co_sessions c' !! sid = Some (Session.transition_to s Expired (env_now e))
  /\ ev = [] /\ co_store c' = co_store c /\ restart c' = restart c
  /\ r = Err (SessionExpired (name (s_state s))).
Proof.
  intros Hs Ht Ho. unfold apply_transition. rewrite Hs. unfold Session.apply. rewrite Ht, Ho.
  cbn. by rewrite lookup_insert_eq.
Qed.

(** Requests other than attach are not tied to a token or to the connection:
    one that attached to nothing and names any key aborts a live session, the file
    records it and every subscriber is told. *)
Theorem stranger_ends_session hmac e c rid sid s p ip :
  co_sessions c !! sid = Some s -> s_id s = sid -> is_terminal (s_state s) = false ->
  Session.timed_out s (env_now e) = false -> env_io e = true -> sid ∈ co_broadcasters c ->
  let '(c', ev, resp, _) := handle_request hmac e c (Some (ReqAbort rid sid p)) ∅ ip in
  resp = Accepted rid "Aborted"
  /\ co_sessions c' !! sid = Some (Session.transition_to s Aborted (env_now e))
  /\ ev = [StateChange sid "Aborted"; AbortedEvent sid "session entered Aborted"]
  /\ co_store c' = Payload (mkPersistFile 1 (env_now e) ((map_to_list (co_sessions c')).*2)).
Proof.
  intros Hs Hid Ht Ho Hio Hb. cbn. unfold apply_helper, apply_transition. rewrite Hs.
  unfold Session.apply. rewrite Ht, Ho. unfold persist. rewrite Hio. cbn.
  rewrite bool_decide_true by (by rewrite Hid). cbn. rewrite lookup_insert_eq, Hid.
  unfold events. cbn. by rewrite Ht.
Qed.

(** ** Secrets and buckets *)

Lemma hex_digit_not_plus n : 0 <= n < 16 -> (hex_digit n =? 43) = false.
Proof. intros H. unfold hex_digit. split_if; lia. Qed.

Lemma parse_hex_encoded bs : Forall is_u8 bs -> parse_hex_pairs (encode_hex32 bs) = Some bs.
Proof.
  induction 1 as [|b bs Hb _ IH]; [done|]. destruct (nibbles b Hb) as (N1&N2&N3).
  change (encode_hex32 (b :: bs)) with
    (hex_digit (Z.shiftr b 4) :: hex_digit (Z.land b 15) :: encode_hex32 bs).
  cbn [parse_hex_pairs]. unfold parse_hex_byte.
  rewrite hex_digit_not_plus, !hex_digit_range by done. cbn. rewrite IH. cbn. do 2 f_equal.
  unfold is_u8 in Hb. change 15 with (Z.ones 4). rewrite Z.land_ones, Z.shiftr_div_pow2 by lia.
  change (2 ^ 4) with 16. pose proof (Z.div_mod b 16). lia.
Qed.

(** The server reads back any 32-byte secret written as 64 hexadecimal digits,
    and refuses every other length; but a plus sign in the place of a high digit is
    read as zero, so different strings can give one secret. *)
Theorem invite_secret_reading bs :
  Forall is_u8 bs -> length bs = 32%nat ->
  parse_invite_secret (encode_hex32 bs) = Some bs
  /\ (forall str, length str <> 64%nat -> parse_invite_secret str = None)
  /\ parse_invite_secret (concat (replicate 32 [43; 102])) = Some (replicate 32 15)
  /\ parse_invite_secret (concat (replicate 32 [48; 102])) = Some (replicate 32 15).
Proof.
  intros Hb Hl.
  assert (length (encode_hex32 bs) = (2 * length bs)%nat) as He.
  { clear. unfold encode_hex32. induction bs as [|b bs IH]; [done|]. cbn in *. lia. }
  unfold parse_invite_secret, SESSION_SECRET_LEN. split_and!; [|..|done|done].
  - rewrite He, Hl. cbn [Nat.mul Nat.add]. by apply parse_hex_encoded.
  - intros str Hs. by rewrite (proj2 (Z.eqb_neq _ _)) by lia.
Qed.

(** ** Witnesses *)

Definition demo_hmac (k m : list Z) : list Z := m.
Definition demo_secret : list Z := replicate 32 1.
Definition demo_live : Session := mkSession [0] Created 2 3 [] [9] None ∅ None 100 100.
Definition demo_coord : Coord := mkCoord {[ [0] := demo_live ]} {[ [0] ]} demo_secret Absent 0.
Definition demo_env : Env := mkEnv 100 true (fun _ => true).
Definition demo_token : InvitationToken :=
  mkToken [0] [5] 200 (compute_mac demo_hmac demo_secret [0] [5] 200).

Lemma demo_coord_ok : coord_ok demo_coord.
Proof.
  apply map_Forall_singleton. split; [reflexivity|].
  exact (new_inv [0] 2 3 [] [9] 100 demo_live eq_refl).
Qed.

Lemma members_were_invited_witness :
  exists e rid token a ip,
    (e, Some (ReqAttach rid token), a, ip)
      ∈ [(demo_env, Some (ReqAttach "r" demo_token), ∅ : gset SessionId, V4 [1; 2; 3; 4])]
    /\ verify_token demo_hmac (co_invite_secret demo_coord) token (env_now e) = Ok tt
    /\ it_session_id token = [0] /\ it_participant_pubkey token = [5].
Proof.
  destruct (members_were_invited demo_hmac
    [(demo_env, Some (ReqAttach "r" demo_token), ∅, V4 [1; 2; 3; 4])] demo_coord [0]
    (mkSession [0] Invited 2 3 [] [9] None {[ [5] := mkParticipant true None None ]} None 100 100)
    [5]) as [(s0&H0&H1)|H].
  - vm_compute. reflexivity.
  - exists (mkParticipant true None None). reflexivity.
  - exfalso. injection H0 as <-. destruct H1 as [x Hx]. vm_compute in Hx. discriminate Hx.
  - exact H.
Defined.

Lemma accepted_survives_restart_witness :
  exists c3, restart (apply_transition demo_env demo_coord [0] (AttachParticipant [5])).1.1 = Ok c3
    /\ co_sessions c3
       = co_sessions (apply_transition demo_env demo_coord [0] (AttachParticipant [5])).1.1.
Proof.
  destruct (accepted_survives_restart demo_hmac demo_coord [] demo_env [0] (AttachParticipant [5])
    demo_coord_ok eq_refl "Invited" eq_refl) as (c3&H1&H2&_).
  exists c3. split; [exact H1|exact H2].
Defined.

Lemma expiry_is_silent_witness :
  (apply_transition (mkEnv 1000000 true (fun _ => true)) demo_coord [0] Tick).1.2 = [].
Proof.
  apply (expiry_is_silent (mkEnv 1000000 true (fun _ => true)) demo_coord [0] demo_live Tick);
    vm_compute; reflexivity.
Defined.

Lemma stranger_ends_session_witness :
  let '(c', ev, resp, _) :=
    handle_request demo_hmac demo_env demo_coord (Some (ReqAbort "r" [0] [66])) ∅ (V4 []) in
  resp = Accepted "r" "Aborted"
  /\ co_sessions c' !! [0] = Some (Session.transition_to demo_live Aborted 100)
  /\ ev = [StateChange [0] "Aborted"; AbortedEvent [0] "session entered Aborted"]
  /\ co_store c' = Payload (mkPersistFile 1 100 ((map_to_list (co_sessions c')).*2)).
Proof.
  apply (stranger_ends_session demo_hmac demo_env demo_coord "r" [0] demo_live [66] (V4 []));
    try reflexivity.
Defined.

Lemma invite_secret_reading_witness :
  parse_invite_secret (encode_hex32 (replicate 32 171)) = Some (replicate 32 171).
Proof.
  apply (invite_secret_reading (replicate 32 171)); [|reflexivity].
  apply Forall_replicate. unfold is_u8. lia.
Defined.
