(* ===== verification/Caches.v ===== *)
(** * Caches and filters

    [storage/lru_cache.rs]: the counted LRU cache and the byte-bounded cache on top
    of it; [storage/bloom.rs]: the seeded FNV hasher, the Bloom filter, the key-image
    filter and the counting filter with its packed 4-bit counters.  The ordered hash
    map ([hashlink]) and the plain Bloom filter ([bloomfilter]) are third-party code:
    the classes [LruMap] and [BloomInner] with their documented laws.  The sizes of a
    filter are computed in [f64]; the results enter the constructors as numbers.
    What [Hash] feeds to a hasher for an item is the item's byte list. *)

From stdpp Require Import prelude gmap.
From Stdlib Require Import ZArith Lia.
From S2P Require Import Prelude.

Local Open Scope Z_scope.

(** ** The ordered hash map *)

(** The operations of [hashlink::LruCache] the caches call. *)
Class LruMap (K V T : Type) := {
  lm_new : Z -> T;
  lm_get : T -> K -> option V * T;
  lm_peek : T -> K -> option V;
  lm_contains : T -> K -> bool;
  lm_insert : T -> K -> V -> T;
  lm_remove : T -> K -> option V * T;
  lm_remove_lru : T -> option (K * V) * T;
  lm_len : T -> Z;
  lm_capacity : T -> Z;
  lm_clear : T -> T;
}.

Definition without {K V} `{EqDecision K} (k : K) (l : list (K * V)) : list (K * V) :=
  filter (fun e => e.1 <> k) l.

(** Entries run from the least to the most recently used, with distinct keys; an
    insertion below the capacity evicts nothing. *)
Class LruMapLaws (K V T : Type) `{EqDecision K} `{!LruMap K V T} := {
  lm_entries : T -> list (K * V);
  lm_new_spec c : lm_entries (lm_new c) = [] /\ lm_capacity (lm_new c : T) = c;
  lm_distinct (t : T) : NoDup (lm_entries t).*1;
  lm_len_spec (t : T) : lm_len t = Z.of_nat (length (lm_entries t));
  lm_contains_spec (t : T) k : lm_contains t k = true <-> k ∈ (lm_entries t).*1;
  lm_peek_spec (t : T) k v : lm_peek t k = Some v <-> (k, v) ∈ lm_entries t;
  lm_get_spec (t : T) k :
    match lm_get t k with
    | (Some v, t') => (k, v) ∈ lm_entries t
                      /\ lm_entries t' = without k (lm_entries t) ++ [(k, v)]
    | (None, t') => (k ∉ (lm_entries t).*1) /\ lm_entries t' = lm_entries t
    end /\ lm_capacity (lm_get t k).2 = lm_capacity t;
  lm_insert_old (t : T) k v : k ∈ (lm_entries t).*1 ->
    lm_entries (lm_insert t k v) = without k (lm_entries t) ++ [(k, v)];
  lm_insert_new (t : T) k v : k ∉ (lm_entries t).*1 ->
    Z.of_nat (length (lm_entries t)) < lm_capacity t ->
    lm_entries (lm_insert t k v) = lm_entries t ++ [(k, v)];
  lm_insert_capacity (t : T) k v : lm_capacity (lm_insert t k v) = lm_capacity t;
  lm_remove_spec (t : T) k :
    lm_entries (lm_remove t k).2 = without k (lm_entries t)
    /\ (forall v, (lm_remove t k).1 = Some v <-> (k, v) ∈ lm_entries t)
    /\ lm_capacity (lm_remove t k).2 = lm_capacity t;
  lm_remove_lru_spec (t : T) :
    match lm_entries t with
    | [] => lm_remove_lru t = (None, t)
    | e :: r => (lm_remove_lru t).1 = Some e /\ lm_entries (lm_remove_lru t).2 = r
    end /\ lm_capacity (lm_remove_lru t).2 = lm_capacity t;
  lm_clear_spec (t : T) : lm_entries (lm_clear t) = [] /\ lm_capacity (lm_clear t) = lm_capacity t;
}.

(** ** The counted cache *)

Record LruCache {T : Type} := mkLruCache { lc_inner : T; lc_hits : Z; lc_misses : Z }.
Arguments LruCache : clear implicits.
Arguments mkLruCache {T}.

Module Lru.
Section lru.
Context {K V T : Type} `{!LruMap K V T}.
Implicit Types c : LruCache T.

Definition new (capacity : Z) : LruCache T := mkLruCache (lm_new (Z.max capacity 1)) 0 0.

Definition get c (key : K) : option V * LruCache T :=
  let '(r, inner) := lm_get (lc_inner c) key in
  match r with
  | Some v => (Some v, mkLruCache inner (wrap64 (lc_hits c + 1)) (lc_misses c))
  | None => (None, mkLruCache inner (lc_hits c) (wrap64 (lc_misses c + 1)))
  end.

Definition peek c (key : K) : option V := lm_peek (lc_inner c) key.

Definition insert c (key : K) (value : V) : option (K * V) * LruCache T :=
  let inner := lc_inner c in
  if lm_contains inner key then
    (None, mkLruCache (lm_insert inner key value) (lc_hits c) (lc_misses c))
  else
    let '(evicted, inner) :=
      if lm_capacity inner <=? lm_len inner then lm_remove_lru inner else (None, inner) in
    (evicted, mkLruCache (lm_insert inner key value) (lc_hits c) (lc_misses c)).

Definition remove c (key : K) : option V * LruCache T :=
  let '(r, inner) := lm_remove (lc_inner c) key in
  (r, mkLruCache inner (lc_hits c) (lc_misses c)).

Definition contains c (key : K) : bool := lm_contains (lc_inner c) key.
Definition len c : Z := lm_len (lc_inner c).
Definition is_empty c : bool := lm_len (lc_inner c) =? 0.
Definition capacity c : Z := lm_capacity (lc_inner c).
Definition clear c : LruCache T := mkLruCache (lm_clear (lc_inner c)) (lc_hits c) (lc_misses c).
Definition reset_stats c : LruCache T := mkLruCache (lc_inner c) 0 0.
Definition evict_lru c : option (K * V) * LruCache T :=
  let '(r, inner) := lm_remove_lru (lc_inner c) in
  (r, mkLruCache inner (lc_hits c) (lc_misses c)).
End lru.
End Lru.

(** ** The byte-bounded cache *)

Record SizedLruCache {K V T : Type} `{Countable K} := mkSized {
  sz_cache : LruCache T;
  sz_current : Z;
  sz_max : Z;
  sz_size_fn : V -> Z;
  sz_sizes : gmap K Z;
}.
Arguments SizedLruCache K V T {_ _}.

Module Sized.
Section sized.
Context {K V T : Type} `{Countable K} `{!LruMap K V T}.
Abbreviation cache_t := (SizedLruCache K V T).
Implicit Types s : cache_t.

Definition new (max_size : Z) (size_fn : V -> Z) : cache_t :=
  mkSized _ _ _ _ _ (Lru.new (max_size / 1024)) 0 max_size size_fn ∅.

(** [if let Some(n) = sizes.remove(&k) { current_size -= n }], saturating. *)
Definition forget (s : cache_t) (k : K) : cache_t :=
  match sz_sizes s !! k with
  | Some n => mkSized _ _ _ _ _ (sz_cache s) (sat_sub (sz_current s) n) (sz_max s) (sz_size_fn s)
                (delete k (sz_sizes s))
  | None => s
  end.

Definition with_cache (s : cache_t) (c : LruCache T) : cache_t :=
  mkSized _ _ _ _ _ c (sz_current s) (sz_max s) (sz_size_fn s) (sz_sizes s).

(** The eviction loop; each round removes an entry, so the number of entries is
    fuel enough. *)
Fixpoint evict_loop (fuel : nat) (s : cache_t) (value_size : Z) : option cache_t :=
  if (sz_max s <? wrap64 (sz_current s + value_size)) && negb (Lru.is_empty (sz_cache s)) then
    match fuel with
    | O => None
    | S fuel =>
        match Lru.evict_lru (sz_cache s) with
        | (Some (k, _), c) => evict_loop fuel (forget (with_cache s c) k) value_size
        | (None, c) => Some (with_cache s c)
        end
    end
  else Some s.

Definition insert (s : cache_t) (key : K) (value : V) : option cache_t :=
  let value_size := sz_size_fn s value in
  s ← evict_loop (Z.to_nat (Lru.len (sz_cache s))) s value_size;
  let s := forget s key in
  let '(inner_evicted, c) := Lru.insert (sz_cache s) key value in
  let s := with_cache s c in
  let s := match inner_evicted with Some (k, _) => forget s k | None => s end in
  Some (mkSized _ _ _ _ _ (sz_cache s) (wrap64 (sz_current s + value_size)) (sz_max s)
          (sz_size_fn s) (<[key := value_size]> (sz_sizes s))).

Definition get (s : cache_t) (key : K) : option V * cache_t :=
  let '(r, c) := Lru.get (sz_cache s) key in (r, with_cache s c).

Definition remove (s : cache_t) (key : K) : option V * cache_t :=
  let s := forget s key in
  let '(r, c) := Lru.remove (sz_cache s) key in (r, with_cache s c).

Definition current_size s : Z := sz_current s.
Definition max_size s : Z := sz_max s.
End sized.
End Sized.

(** ** Filters *)

(** [StableHasher]: FNV-1a from a seed. *)
Definition FNV_PRIME : Z := 1099511628211.
Definition hasher_write (state : Z) (bytes : list Z) : Z :=
  foldl (fun st b => wrap64 (Z.lxor st b * FNV_PRIME)) state bytes.

(** [bloomfilter::Bloom<[u8]>]. *)
Class BloomInner (B : Type) := {
  bi_set : B -> list Z -> B;
  bi_check : B -> list Z -> bool;
  bi_clear : B -> B;
}.

Class BloomInnerLaws (B : Type) `{!BloomInner B} := {
  bi_check_set (b : B) x : bi_check (bi_set b x) x = true;
  bi_set_mono (b : B) x y : bi_check b y = true -> bi_check (bi_set b x) y = true;
}.

Record BloomFilter {B : Type} := mkBloom {
  bf_inner : B; bf_num_bits : Z; bf_num_hashes : Z; bf_count : Z; bf_seed : Z }.
Arguments BloomFilter : clear implicits.

Module Bloom.
Section bloom.
Context {B : Type} `{!BloomInner B}.
Implicit Types f : BloomFilter B.

Definition item_bytes f (item : list Z) : list Z := le_bytes 8 (hasher_write (bf_seed f) item).

Definition insert f (item : list Z) : BloomFilter B :=
  mkBloom _ (bi_set (bf_inner f) (item_bytes f item)) (bf_num_bits f) (bf_num_hashes f)
    (wrap64 (bf_count f + 1)) (bf_seed f).

Definition may_contain f (item : list Z) : bool := bi_check (bf_inner f) (item_bytes f item).

Definition clear f : BloomFilter B :=
  mkBloom _ (bi_clear (bf_inner f)) (bf_num_bits f) (bf_num_hashes f) 0 (bf_seed f).
End bloom.
End Bloom.

(** A key image is hashed with its length in front, as every byte array. *)
Definition key_image_bytes (ki : list Z) : list Z := le_bytes 8 (Z.of_nat (length ki)) ++ ki.

Module KeyImageFilter.
Section key_images.
Context {B : Type} `{!BloomInner B}.
Definition insert (f : BloomFilter B) (key_image : list Z) : BloomFilter B :=
  Bloom.insert f (key_image_bytes key_image).
Definition may_be_spent (f : BloomFilter B) (key_image : list Z) : bool :=
  Bloom.may_contain f (key_image_bytes key_image).
End key_images.
End KeyImageFilter.

Record CountingBloomFilter := mkCounting {
  cb_counters : list Z;
  cb_num_counters : Z;
  cb_num_hashes : Z;
  cb_count : Z;
  cb_seed : Z;
}.

Module Counting.
(** [CountingBloomFilter::new], from the two numbers its [f64] formulas give. *)
Definition new (raw_counters raw_hashes seed : Z) : CountingBloomFilter :=
  let num_counters := Z.max raw_counters 1024 in
  mkCounting (replicate (Z.to_nat ((num_counters + 1) / 2)) 0) num_counters
    (clamp 1 16 raw_hashes) 0 seed.

Definition hash_index (f : CountingBloomFilter) (item : list Z) (seed : Z) : Z :=
  hasher_write (hasher_write (cb_seed f) (le_bytes 4 seed)) item mod cb_num_counters f.

Definition get_counter (f : CountingBloomFilter) (index : Z) : Z :=
  match cb_counters f !! Z.to_nat (index / 2) with
  | Some b => if index mod 2 =? 1 then Z.shiftr b 4 else Z.land b 15
  | None => 0
  end.

Definition set_counter (f : CountingBloomFilter) (index : Z) (value : Z) : CountingBloomFilter :=
  match cb_counters f !! Z.to_nat (index / 2) with
  | Some b =>
      mkCounting
        (<[Z.to_nat (index / 2) :=
             if index mod 2 =? 1 then Z.lor (Z.land b 15) (Z.shiftl value 4)
             else Z.lor (Z.land b 240) value]> (cb_counters f))
        (cb_num_counters f) (cb_num_hashes f) (cb_count f) (cb_seed f)
  | None => f
  end.

Definition increment_counter (f : CountingBloomFilter) (index : Z) : CountingBloomFilter :=
  let current := get_counter f index in
  if current <? 15 then set_counter f index (current + 1) else f.

Definition decrement_counter (f : CountingBloomFilter) (index : Z) : CountingBloomFilter :=
  let current := get_counter f index in
  if 0 <? current then set_counter f index (current - 1) else f.

Definition set_count (f : CountingBloomFilter) (n : Z) : CountingBloomFilter :=
  mkCounting (cb_counters f) (cb_num_counters f) (cb_num_hashes f) n (cb_seed f).

(** The counters an item uses, one per hash function. *)
Definition indices (f : CountingBloomFilter) (item : list Z) : list Z :=
  hash_index f item <$> seqZ 0 (cb_num_hashes f).

Definition insert (f : CountingBloomFilter) (item : list Z) : CountingBloomFilter :=
  let g := foldl increment_counter f (indices f item) in
  set_count g (wrap64 (cb_count g + 1)).

Definition remove (f : CountingBloomFilter) (item : list Z) : CountingBloomFilter :=
  let g := foldl decrement_counter f (indices f item) in
  set_count g (sat_sub (cb_count g) 1).

Definition may_contain (f : CountingBloomFilter) (item : list Z) : bool :=
  forallb (fun i => negb (get_counter f i =? 0)) (indices f item).
End Counting.
