(* ===== verification/CachesRules.v ===== *)
(** * Guarantees of the caches and filters

    The byte-bounded cache accounts for its entries exactly; the counting filter
    counts exactly as long as no counter saturates, and forgets members after one
    does; a Bloom filter never denies a member. *)

From stdpp Require Import prelude gmap.
From Stdlib Require Import ZArith Lia.
From S2P Require Import Prelude Caches.

Local Open Scope Z_scope.

(** ** Entry lists *)

Section entries.
Context {K V : Type} `{Countable K}.
Implicit Types l : list (K * V).

Lemma without_notin k l : k ∉ l.*1 -> without k l = l.
Proof.
  intros Hk. induction l as [|[j v] l IH]; [done|]. cbn in Hk. apply not_elem_of_cons in Hk as [Hj Hk].
  unfold without. rewrite filter_cons_True by (cbn; congruence). f_equal. by apply IH.
Qed.

Lemma without_keys k l : k ∉ (without k l).*1.
Proof.
  intros ([j v]&->&Hin)%list_elem_of_fmap. by apply list_elem_of_filter in Hin as [? _].
Qed.

Lemma without_sublist k l : without k l `sublist_of` l.
Proof. apply sublist_filter. Qed.

Lemma without_NoDup k l : NoDup l.*1 -> NoDup (without k l).*1.
Proof. intros Hd. eapply sublist_NoDup; [exact Hd|]. apply fmap_sublist, without_sublist. Qed.

Lemma without_head k v l : NoDup ((k, v) :: l).*1 -> without k ((k, v) :: l) = l.
Proof.
  intros [Hk _]%NoDup_cons. unfold without. rewrite filter_cons_False by (cbn; tauto).
  by apply without_notin.
Qed.

Lemma without_length k l : k ∈ l.*1 -> (length (without k l) < length l)%nat.
Proof.
  induction l as [|[j v] l IH]; intros Hk; [by apply elem_of_nil in Hk|].
  unfold without. destruct (decide (j = k)) as [->|Hne].
  - rewrite filter_cons_False by (cbn; tauto). cbn.
    pose proof (length_filter (fun e : K * V => e.1 <> k) l). lia.
  - rewrite filter_cons_True by done. cbn. apply elem_of_cons in Hk as [?|Hk]; [done|].
    apply IH in Hk. unfold without in Hk. lia.
Qed.

Context (size_fn : V -> Z).

Definition total l : Z := foldr (fun e a => size_fn e.2 + a) 0 l.
Definition entry_sizes l : list (K * Z) := (fun e => (e.1, size_fn e.2)) <$> l.

Lemma total_app l1 l2 : total (l1 ++ l2) = total l1 + total l2.
Proof. unfold total in *. induction l1 as [|e l1 IH]; cbn; lia. Qed.

Lemma total_nonneg l : (forall v, 0 <= size_fn v) -> 0 <= total l.
Proof.
  intros Hs. unfold total. induction l as [|e l IH]; cbn; [lia|]. specialize (Hs e.2). lia.
Qed.

Lemma total_without k l n :
  NoDup l.*1 -> (list_to_map (entry_sizes l) : gmap K Z) !! k = Some n ->
  total l = total (without k l) + n.
Proof.
  unfold total. induction l as [|[j v] l IH]; intros Hd Hk; [done|].
  cbn in Hk. apply lookup_insert_Some in Hk as [[-> <-]|[Hne Hk]].
  - rewrite without_head by done. cbn. lia.
  - unfold without. rewrite filter_cons_True by done. cbn. cbn in Hd.
    apply NoDup_cons in Hd as [_ Hd]. specialize (IH Hd Hk). unfold without in IH. lia.
Qed.

Lemma entry_sizes_keys l : (entry_sizes l).*1 = l.*1.
Proof. unfold entry_sizes. by rewrite <- list_fmap_compose. Qed.

Lemma sizes_without k l :
  (list_to_map (entry_sizes (without k l)) : gmap K Z) = delete k (list_to_map (entry_sizes l)).
Proof.
  induction l as [|[j v] l IH]; [symmetry; apply delete_empty|].
  unfold without. destruct (decide (j = k)) as [->|Hne].
  - rewrite filter_cons_False by (cbn; tauto). cbn. rewrite delete_insert_eq. exact IH.
  - rewrite filter_cons_True by done. cbn. rewrite delete_insert_ne by done. by f_equal.
Qed.

Lemma sizes_app_new k v l :
  k ∉ l.*1 ->
  (list_to_map (entry_sizes (l ++ [(k, v)])) : gmap K Z)
  = <[k := size_fn v]> (list_to_map (entry_sizes l)).
Proof.
  induction l as [|[j w] l IH]; intros Hk; [done|]. cbn in Hk.
  apply not_elem_of_cons in Hk as [Hj Hk].
  change (<[j := size_fn w]> (list_to_map (entry_sizes (l ++ [(k, v)])) : gmap K Z)
    = <[k := size_fn v]> (<[j := size_fn w]> (list_to_map (entry_sizes l)))).
  rewrite IH by done. by rewrite insert_insert_ne.
Qed.

Lemma sizes_lookup_None k l :
  (list_to_map (entry_sizes l) : gmap K Z) !! k = None <-> k ∉ l.*1.
Proof. rewrite <- not_elem_of_list_to_map, entry_sizes_keys. done. Qed.
End entries.

(** ** The byte-bounded cache *)

Section sized.
Context {K V T : Type} `{Countable K} `{!LruMap K V T} `{!LruMapLaws K V T}.
Context (size_fn : V -> Z) (max_size : Z).
Context (size_pos : forall v, 0 <= size_fn v <= 2 ^ 62) (max_range : 0 <= max_size <= 2 ^ 62).

Abbreviation cache_t := (SizedLruCache K V T).
Implicit Types (s : cache_t) (l : list (K * V)).

Definition entries_of s : list (K * V) := lm_entries (lc_inner (sz_cache s)).

(** The counters describe the list [l]. *)
Record describes s l : Prop := {
  ds_sizes : sz_sizes s = list_to_map (entry_sizes size_fn l);
  ds_total : sz_current s = total size_fn l;
  ds_params : sz_max s = max_size /\ sz_size_fn s = size_fn;
}.

Record sized_ok s : Prop := {
  so_describes : describes s (entries_of s);
  so_room : Z.of_nat (length (entries_of s)) <= lm_capacity (lc_inner (sz_cache s));
  so_capacity : lm_capacity (lc_inner (sz_cache s)) = Z.max (max_size / 1024) 1;
  so_bound : sz_current s <= max_size \/ length (entries_of s) = 1%nat;
}.

Lemma forget_describes s l k :
  NoDup l.*1 -> describes s l -> describes (Sized.forget s k) (without k l).
Proof.
  intros Hd [E1 E2 E3]. unfold Sized.forget. rewrite E1.
  destruct (list_to_map (entry_sizes size_fn l) !! k) as [n|] eqn:En.
  - split; cbn; [by rewrite sizes_without| |done]. rewrite E2.
    rewrite (total_without size_fn k l n Hd En).
    pose proof (total_nonneg size_fn (without k l) (fun v => proj1 (size_pos v))). word_lia.
  - apply sizes_lookup_None in En. rewrite (without_notin k l En). by split.
Qed.

Lemma forget_cache s k : sz_cache (Sized.forget s k) = sz_cache s.
Proof. unfold Sized.forget. by destruct (sz_sizes s !! k). Qed.

Lemma with_cache_describes s c l : describes s l -> describes (Sized.with_cache s c) l.
Proof. by intros [E1 E2 E3]. Qed.

Lemma is_empty_spec s : Lru.is_empty (sz_cache s) = bool_decide (entries_of s = []).
Proof.
  unfold Lru.is_empty, entries_of. rewrite lm_len_spec.
  destruct (lm_entries _); cbn; [done|]. apply Z.eqb_neq. lia.
Qed.

(** A round of the eviction loop drops the oldest entry. *)
Lemma evict_round s e l :
  entries_of s = e :: l -> describes s (e :: l) ->
  exists c, Lru.evict_lru (sz_cache s) = (Some e, c) /\ lm_entries (lc_inner c) = l
    /\ lm_capacity (lc_inner c) = lm_capacity (lc_inner (sz_cache s))
    /\ describes (Sized.forget (Sized.with_cache s c) e.1) l
    /\ sz_cache (Sized.forget (Sized.with_cache s c) e.1) = c.
Proof.
  intros He Hd. unfold Lru.evict_lru. destruct e as [k v].
  pose proof (lm_distinct (lc_inner (sz_cache s))) as Hn.
  pose proof (lm_remove_lru_spec (lc_inner (sz_cache s))) as Hr.
  unfold entries_of in He. rewrite He in Hr, Hn. destruct Hr as [[R1 R2] R3].
  destruct (lm_remove_lru (lc_inner (sz_cache s))) as [r t]. cbn in R1, R2, R3. subst r.
  eexists. split; [done|]. split_and!; [done|done| |by rewrite forget_cache].
  pose proof (forget_describes _ _ k Hn (with_cache_describes s (mkLruCache t
    (lc_hits (sz_cache s)) (lc_misses (sz_cache s))) _ Hd)) as Hx.
  by rewrite (without_head k v l Hn) in Hx.
Qed.

Lemma sized_evict_loop_spec vs : 0 <= vs <= 2 ^ 62 -> forall fuel s,
  describes s (entries_of s) -> (length (entries_of s) <= fuel)%nat ->
  total size_fn (entries_of s) <= 2 ^ 62 ->
  exists s', Sized.evict_loop fuel s vs = Some s'
    /\ describes s' (entries_of s') /\ entries_of s' `suffix_of` entries_of s
    /\ lm_capacity (lc_inner (sz_cache s')) = lm_capacity (lc_inner (sz_cache s))
    /\ (sz_current s' + vs <= max_size \/ entries_of s' = []).
Proof.
  intros Hv. induction fuel as [|fuel IH]; intros s Hd Hf Ht.
  all: pose proof (total_nonneg size_fn (entries_of s) (fun v => proj1 (size_pos v))) as H0.
  all: assert (wrap64 (sz_current s + vs) = sz_current s + vs) as Hw
    by (rewrite (ds_total _ _ Hd); apply wrap64_small; word_lia).
  all: cbn [Sized.evict_loop]; rewrite Hw, is_empty_spec, (proj1 (ds_params _ _ Hd)).
  - assert (entries_of s = []) as Hn by (destruct (entries_of s); [done|cbn in Hf; lia]).
    rewrite Hn. cbn. rewrite andb_false_r. exists s. split_and!; auto. by rewrite Hn in Hd |- *.
  - destruct (entries_of s) as [|e l] eqn:Es.
    { cbn. rewrite andb_false_r. exists s. rewrite Es. split_and!; auto. }
    destruct (max_size <? sz_current s + vs) eqn:Em.
    2: { cbn. exists s. rewrite Es. split_and!; auto. left. lia. }
    cbn [andb bool_decide negb]. rewrite bool_decide_false by done. cbn [negb].
    destruct (evict_round s e l Es Hd) as (c&E&Hl&Hc&Hd'&Hcc).
    rewrite E. destruct e as [k v]. cbn [fst] in *.
    set (s1 := Sized.forget (Sized.with_cache s c) k) in *.
    assert (entries_of s1 = l) as E1 by (unfold entries_of; by rewrite Hcc).
    destruct (IH s1) as (s'&R&D&S&C&B).
    + by rewrite E1.
    + rewrite E1. cbn in Hf. lia.
    + rewrite E1. change (size_fn v + total size_fn l <= 2 ^ 62) in Ht.
      pose proof (size_pos v). lia.
    + exists s'. split; [done|]. split; [done|]. split_and!.
      * rewrite E1 in S. by apply suffix_cons_r.
      * rewrite C, Hcc. exact Hc.
      * exact B.
Qed.

Lemma suffix_NoDup_keys l l' : l `suffix_of` l' -> NoDup l'.*1 -> NoDup l.*1.
Proof. intros [p ->]. rewrite fmap_app. by intros (_&_&?)%NoDup_app. Qed.

Lemma record_describes s c pre k v :
  describes s pre -> k ∉ pre.*1 -> total size_fn pre + size_fn v <= 2 ^ 63 ->
  describes (mkSized K V T _ _ c (wrap64 (sz_current s + size_fn v)) (sz_max s) (sz_size_fn s)
               (<[k := size_fn v]> (sz_sizes s))) (pre ++ [(k, v)]).
Proof.
  intros [E1 E2 E3] Hk Ht. pose proof (size_pos v).
  pose proof (total_nonneg size_fn pre (fun v => proj1 (size_pos v))).
  split; cbn [sz_sizes sz_current sz_max sz_size_fn]; [by rewrite sizes_app_new, E1| |done].
  rewrite E2, wrap64_small, total_app by word_lia. unfold total. cbn. lia.
Qed.

(** The insertion proper: what is kept in front of the new entry. *)
Lemma insert_tail s k v :
  describes s (entries_of s) ->
  Z.of_nat (length (entries_of s)) <= lm_capacity (lc_inner (sz_cache s)) ->
  1 <= lm_capacity (lc_inner (sz_cache s)) ->
  total size_fn (entries_of s) + size_fn v <= 2 ^ 63 ->
  let s1 := Sized.forget s k in
  let '(ev, c) := Lru.insert (sz_cache s1) k v in
  let s2 := Sized.with_cache s1 c in
  let s3 := match ev with Some (j, _) => Sized.forget s2 j | None => s2 end in
  exists pre, describes s3 pre /\ (k ∉ pre.*1) /\ sz_cache s3 = c
    /\ lm_entries (lc_inner c) = pre ++ [(k, v)]
    /\ pre `sublist_of` entries_of s
    /\ lm_capacity (lc_inner c) = lm_capacity (lc_inner (sz_cache s))
    /\ Z.of_nat (length pre) < lm_capacity (lc_inner (sz_cache s)).
Proof.
  intros Hd Hl Hc Ht. cbv zeta. rewrite forget_cache. unfold Lru.insert.
  set (t := lc_inner (sz_cache s)) in *.
  assert (lm_entries t = entries_of s) as Et by done.
  pose proof (lm_distinct t) as Hn. rewrite Et in Hn.
  pose proof (forget_describes s _ k Hn Hd) as Hf.
  destruct (lm_contains t k) eqn:Ek.
  - apply lm_contains_spec in Ek. exists (without k (entries_of s)).
    split_and!; cbn [sz_cache lc_inner Sized.with_cache].
    + by apply with_cache_describes.
    + apply without_keys.
    + done.
    + by apply lm_insert_old.
    + apply without_sublist.
    + apply lm_insert_capacity.
    + apply without_length in Ek. rewrite Et in Ek. lia.
  - assert (k ∉ (entries_of s).*1) as Hk.
    { intros Hk. apply (lm_contains_spec t k) in Hk. congruence. }
    rewrite (without_notin k _ Hk) in Hf. rewrite lm_len_spec, Et.
    destruct (lm_capacity t <=? _) eqn:Ec.
    + apply Z.leb_le in Ec. pose proof (lm_remove_lru_spec t) as Hr. rewrite Et in Hr.
      destruct (entries_of s) as [|[j w] r] eqn:Es; [cbn in Ec; lia|].
      destruct Hr as [[R1 R2] R3]. destruct (lm_remove_lru t) as [x t']. cbn in R1, R2, R3. subst x.
      assert (k ∉ (lm_entries t').*1) as Hk'.
      { rewrite R2. cbn in Hk. apply not_elem_of_cons in Hk. tauto. }
      assert (Z.of_nat (length r) < lm_capacity t) as Hlen by (cbn in Hl; lia).
      exists r. split_and!.
      * rewrite <- (without_head j w r Hn). apply forget_describes; [done|].
        by apply with_cache_describes.
      * by rewrite R2 in Hk'.
      * by rewrite forget_cache.
      * cbn [lc_inner]. rewrite lm_insert_new; [by rewrite R2|done|]. rewrite R2. lia.
      * apply sublist_cons. done.
      * cbn [lc_inner]. by rewrite lm_insert_capacity.
      * done.
    + exists (entries_of s). split_and!; try done.
      * by apply with_cache_describes.
      * cbn [lc_inner]. rewrite lm_insert_new; [by rewrite Et|done|]. rewrite Et. lia.
      * cbn [lc_inner]. by rewrite lm_insert_capacity.
      * lia.
Qed.

Lemma total_sublist l l' : l `sublist_of` l' -> total size_fn l <= total size_fn l'.
Proof.
  unfold total. induction 1 as [|e l l' _ IH|e l l' _ IH]; cbn; [lia|lia|].
  pose proof (size_pos e.2). lia.
Qed.

Lemma suffix_total l l' : l `suffix_of` l' -> total size_fn l <= total size_fn l'.
Proof. intros [p ->]. apply total_sublist. by apply sublist_inserts_l. Qed.

Lemma sized_insert_ok s k v :
  sized_ok s -> exists s', Sized.insert s k v = Some s' /\ sized_ok s'
    /\ exists pre, entries_of s' = pre ++ [(k, v)].
Proof.
  intros [Hd Hr Hc Hb]. destruct (ds_params _ _ Hd) as [Hm Hsf].
  assert (total size_fn (entries_of s) <= 2 ^ 62) as Ht.
  { rewrite <- (ds_total _ _ Hd). destruct Hb as [?|Hb]; [lia|].
    rewrite (ds_total _ _ Hd). destruct (entries_of s) as [|e [|]]; cbn in Hb; try lia.
    unfold total. cbn. pose proof (size_pos e.2). lia. }
  unfold Sized.insert. rewrite Hsf.
  destruct (sized_evict_loop_spec (size_fn v) (size_pos v) (Z.to_nat (Lru.len (sz_cache s))) s Hd)
    as (s0&E0&D0&S0&C0&B0); [|done|].
  { unfold Lru.len. rewrite lm_len_spec. fold (entries_of s). lia. }
  rewrite E0. cbn [mbind option_bind].
  pose proof (suffix_total _ _ S0) as Ht0. pose proof (size_pos v) as Hv.
  assert (Z.of_nat (length (entries_of s0)) <= lm_capacity (lc_inner (sz_cache s0))) as Hl0.
  { apply suffix_length in S0. lia. }
  pose proof (insert_tail s0 k v D0 Hl0 ltac:(lia) ltac:(lia)) as Hi. cbv zeta in Hi.
  destruct (Lru.insert (sz_cache (Sized.forget s0 k)) k v) as [ev c].
  destruct Hi as (pre&P1&P2&P3&P4&P5&P6&P7).
  set (s3 := match ev with Some (j, _) => Sized.forget (Sized.with_cache (Sized.forget s0 k) c) j
             | None => Sized.with_cache (Sized.forget s0 k) c end) in *.
  pose proof (total_sublist _ _ P5) as Htp.
  eexists. split; [done|]. rewrite P3.
  assert (forall x, entries_of (mkSized K V T _ _ c (wrap64 (sz_current s3 + size_fn v)) (sz_max s3)
    (sz_size_fn s3) x) = pre ++ [(k, v)]) as He by (intros; exact P4).
  pose proof (record_describes s3 c pre k v P1 P2 ltac:(lia)) as Hd4.
  split; [|exists pre; apply He]. split.
  - by rewrite He.
  - rewrite He, length_app. cbn [length sz_cache]. lia.
  - cbn [sz_cache]. lia.
  - cbn [sz_current]. rewrite He, length_app. cbn [length].
    destruct B0 as [B0|B0].
    + left. rewrite (ds_total _ _ P1), wrap64_small.
      * rewrite (ds_total _ _ D0) in B0. lia.
      * pose proof (total_nonneg size_fn pre (fun v => proj1 (size_pos v))). word_lia.
    + right. rewrite B0 in P5. apply sublist_nil_r in P5 as ->. done.
Qed.

Lemma total_permutation l l' : l ≡ₚ l' -> total size_fn l = total size_fn l'.
Proof. unfold total. induction 1; cbn; lia. Qed.

Lemma sized_get_ok s k : sized_ok s -> sized_ok (Sized.get s k).2.
Proof.
  intros [Hd Hr Hc Hb]. unfold Sized.get, Lru.get.
  destruct (lm_get_spec (lc_inner (sz_cache s)) k) as [Hg Hcap].
  pose proof (lm_distinct (lc_inner (sz_cache s))) as Hn.
  destruct (lm_get (lc_inner (sz_cache s)) k) as [[v|] t]; cbn [snd] in Hcap; cbn.
  - destruct Hg as [Hin He].
    assert (without k (entries_of s) ++ [(k, v)] ≡ₚ entries_of s) as Hp.
    { unfold entries_of. clear -Hin Hn. revert Hin Hn. generalize (lm_entries (lc_inner (sz_cache s))).
      intros l. induction l as [|[j w] l IH]; intros Hin Hn; [by apply elem_of_nil in Hin|].
      pose proof Hn as [Hj Hn']%NoDup_cons. apply elem_of_cons in Hin as [[= <- <-]|Hin].
      - rewrite without_head by done. by rewrite Permutation_app_comm.
      - assert (j <> k) by (intros ->; apply Hj, list_elem_of_fmap; by exists (k, v)).
        unfold without. rewrite filter_cons_True by done. cbn. f_equiv. by apply IH. }
    assert (entries_of (Sized.with_cache s (mkLruCache t (wrap64 (lc_hits (sz_cache s) + 1))
      (lc_misses (sz_cache s)))) = without k (entries_of s) ++ [(k, v)]) as Ee by exact He.
    split; rewrite ?Ee, ?(Permutation_length Hp); try done; cbn [sz_cache Sized.with_cache lc_inner];
      [|lia|lia].
    destruct Hd as [E1 E2 E3]. split; cbn; [|by rewrite (total_permutation _ _ Hp)|done].
    rewrite E1. symmetry. apply list_to_map_proper.
    + rewrite entry_sizes_keys. unfold entries_of in Hp. rewrite Hp. exact Hn.
    + unfold entry_sizes. by rewrite Hp.
  - destruct Hg as [_ He]. split; unfold entries_of; cbn; rewrite ?He, ?Hcap; try done.
    by apply with_cache_describes.
Qed.

Lemma sized_remove_ok s k : sized_ok s -> sized_ok (Sized.remove s k).2.
Proof.
  intros [Hd Hr Hc Hb]. unfold Sized.remove, Lru.remove. rewrite forget_cache.
  destruct (lm_remove_spec (lc_inner (sz_cache s)) k) as (He&_&Hcap).
  pose proof (lm_distinct (lc_inner (sz_cache s))) as Hn.
  pose proof (forget_describes s (entries_of s) k Hn Hd) as Hf.
  destruct (lm_remove (lc_inner (sz_cache s)) k) as [r t]. cbn in He, Hcap. cbn [snd].
  pose proof (sublist_length _ _ (without_sublist k (entries_of s))) as Hlen.
  pose proof (total_sublist _ _ (without_sublist k (entries_of s))) as Htot.
  set (c := mkLruCache t (lc_hits (sz_cache s)) (lc_misses (sz_cache s))).
  assert (entries_of (Sized.with_cache (Sized.forget s k) c) = without k (entries_of s)) as Ee
    by exact He.
  split; rewrite ?Ee; cbn [sz_cache sz_current Sized.with_cache lc_inner c].
  - by apply with_cache_describes.
  - lia.
  - lia.
  - rewrite (ds_total _ _ Hf). rewrite (ds_total _ _ Hd) in Hb. destruct Hb as [Hb|Hb]; [left; lia|].
    destruct (without k (entries_of s)) as [|e l] eqn:Ew; [left; cbn; lia|].
    right. cbn in *. lia.
Qed.

Lemma sized_new_ok : sized_ok (Sized.new max_size size_fn).
Proof.
  destruct (lm_new_spec (K := K) (V := V) (T := T) (Z.max (max_size / 1024) 1)) as [E1 E2].
  split; unfold entries_of; cbn; rewrite ?E1, ?E2; try done.
  - cbn. lia.
  - left. lia.
Qed.

Inductive cache_op := CInsert (k : K) (v : V) | CGet (k : K) | CRemove (k : K).

Definition cache_step (s : cache_t) (op : cache_op) : option cache_t :=
  match op with
  | CInsert k v => Sized.insert s k v
  | CGet k => Some (Sized.get s k).2
  | CRemove k => Some (Sized.remove s k).2
  end.

Fixpoint cache_run (s : cache_t) (ops : list cache_op) : option cache_t :=
  match ops with [] => Some s | op :: ops => s ← cache_step s op; cache_run s ops end.

Lemma cache_run_ok ops : forall s, sized_ok s ->
  exists s', cache_run s ops = Some s' /\ sized_ok s'.
Proof.
  induction ops as [|[k v|k|k] ops IH]; intros s Hs; cbn.
  - eauto.
  - destruct (sized_insert_ok s k v Hs) as (s1&->&H1&_). by apply IH.
  - by apply IH, sized_get_ok.
  - by apply IH, sized_remove_ok.
Qed.

(** Over any use of the byte-bounded cache the eviction loop ends, the byte
    counter is the sum of the sizes of the entries, every recorded size belongs to
    an entry, the number of entries stays within the capacity, and the bytes stay
    within the limit unless a single entry larger than the limit is all there is. *)
Theorem sized_cache_accounts ops :
  exists s, cache_run (Sized.new max_size size_fn) ops = Some s
    /\ Sized.current_size s = total size_fn (entries_of s)
    /\ (forall k n, sz_sizes s !! k = Some n <-> exists v, (k, v) ∈ entries_of s /\ n = size_fn v)
    /\ Z.of_nat (length (entries_of s)) <= Z.max (max_size / 1024) 1
    /\ (Sized.current_size s <= max_size \/ length (entries_of s) = 1%nat).
Proof.
  destruct (cache_run_ok ops _ sized_new_ok) as (s&E&[[E1 E2 E3] Hr Hc Hb]).
  exists s. split; [done|]. split; [done|]. split; [|split; [lia|done]].
  intros k n. rewrite E1, <- elem_of_list_to_map
    by (rewrite entry_sizes_keys; apply lm_distinct).
  unfold entry_sizes. rewrite list_elem_of_fmap. split.
  - intros ([j v]&[= -> ->]&Hin). eauto.
  - intros (v&Hin&->). exists (k, v). done.
Qed.
End sized.

(** ** The counting filter *)

(** Writing one nibble of a byte keeps the other, checked on every byte. *)
Definition nibble_ok (b v : Z) : bool :=
  let hi := Z.lor (Z.land b 15) (Z.shiftl v 4) in
  let lo := Z.lor (Z.land b 240) v in
  (0 <=? hi) && (hi <=? 255) && (Z.shiftr hi 4 =? v) && (Z.land hi 15 =? Z.land b 15)
  && (0 <=? lo) && (lo <=? 255) && (Z.land lo 15 =? v) && (Z.shiftr lo 4 =? Z.shiftr b 4).

Lemma nibble_all b v : is_u8 b -> 0 <= v <= 15 -> nibble_ok b v = true.
Proof.
  intros Hb Hv.
  assert (forallb (fun b => forallb (nibble_ok b) (seqZ 0 16)) (seqZ 0 256) = true) as H
    by (vm_compute; reflexivity).
  rewrite forallb_forall in H. unfold is_u8 in Hb.
  assert (In b (seqZ 0 256)) as H1 by (apply list_elem_of_In, elem_of_seqZ; lia).
  specialize (H b H1). rewrite forallb_forall in H. apply H. apply list_elem_of_In, elem_of_seqZ. lia.
Qed.

Lemma nibble_spec b v : is_u8 b -> 0 <= v <= 15 ->
  let hi := Z.lor (Z.land b 15) (Z.shiftl v 4) in
  let lo := Z.lor (Z.land b 240) v in
  is_u8 hi /\ Z.shiftr hi 4 = v /\ Z.land hi 15 = Z.land b 15
  /\ is_u8 lo /\ Z.land lo 15 = v /\ Z.shiftr lo 4 = Z.shiftr b 4.
Proof.
  intros Hb Hv hi lo. pose proof (nibble_all b v Hb Hv) as H. unfold nibble_ok in H.
  fold hi lo in H. rewrite !andb_true_iff, !Z.leb_le, !Z.eqb_eq in H. unfold is_u8. lia.
Qed.

Record counting_wf (f : CountingBloomFilter) : Prop := {
  cw_num : 0 < cb_num_counters f;
  cw_length : Z.of_nat (length (cb_counters f)) = (cb_num_counters f + 1) / 2;
  cw_bytes : Forall is_u8 (cb_counters f);
}.

Definition same_shape (f g : CountingBloomFilter) : Prop :=
  cb_num_counters g = cb_num_counters f /\ cb_num_hashes g = cb_num_hashes f
  /\ cb_seed g = cb_seed f.

Section counting.
Implicit Types f g : CountingBloomFilter.

Lemma counter_byte f i : counting_wf f -> 0 <= i < cb_num_counters f ->
  exists b, cb_counters f !! Z.to_nat (i / 2) = Some b /\ is_u8 b.
Proof.
  intros [Hn Hl Hb] Hi. destruct (lookup_lt_is_Some_2 (cb_counters f) (Z.to_nat (i / 2))) as [b E].
  { assert (0 <= i / 2 < (cb_num_counters f + 1) / 2)
      by (clear -Hi; Z.to_euclidean_division_equations; lia). lia. }
  exists b. split; [done|]. by eapply Forall_lookup_1.
Qed.

Lemma get_counter_range f i : counting_wf f -> 0 <= i < cb_num_counters f ->
  0 <= Counting.get_counter f i <= 15.
Proof.
  intros Hw Hi. destruct (counter_byte f i Hw Hi) as (b&E&Hb). unfold Counting.get_counter.
  rewrite E. unfold is_u8 in Hb. change (Z.land b 15) with (Z.land b (Z.ones 4)). rewrite Z.land_ones by lia.
  rewrite Z.shiftr_div_pow2 by lia. change (2 ^ 4) with 16.
  destruct (_ =? 1); clear -Hb; Z.to_euclidean_division_equations; lia.
Qed.

Lemma set_counter_spec f i v :
  counting_wf f -> 0 <= i < cb_num_counters f -> 0 <= v <= 15 ->
  let g := Counting.set_counter f i v in
  counting_wf g /\ same_shape f g /\ cb_count g = cb_count f
  /\ forall j, 0 <= j < cb_num_counters f ->
     Counting.get_counter g j = if decide (i = j) then v else Counting.get_counter f j.
Proof.
  intros Hw Hi Hv. destruct (counter_byte f i Hw Hi) as (b&E&Hb).
  destruct (nibble_spec b v Hb Hv) as (B1&B2&B3&B4&B5&B6).
  unfold Counting.set_counter. rewrite E. cbv zeta. split; [|split; [done|split; [done|]]].
  - destruct Hw as [Hn Hl HF]. split; cbn; [done|by rewrite length_insert|].
    apply Forall_insert; [done|]. by destruct (_ =? 1).
  - intros j Hj. unfold Counting.get_counter at 1. cbn [cb_counters].
    destruct (decide (i / 2 = j / 2)) as [Eq|Ne].
    + rewrite <- Eq, list_lookup_insert_eq by (by eapply lookup_lt_Some).
      destruct (decide (i = j)) as [<-|Hne].
      * by destruct (i mod 2 =? 1).
      * unfold Counting.get_counter. rewrite <- Eq, E.
        destruct (Z.eqb_spec (i mod 2) 1), (Z.eqb_spec (j mod 2) 1); try done;
          exfalso; Z.to_euclidean_division_equations; lia.
    + rewrite list_lookup_insert_ne by (intros Heq; apply Ne, Z2Nat.inj;
        [apply Z.div_pos; lia|apply Z.div_pos; lia|done]).
      rewrite decide_False; [done|]. intros ->. done.
Qed.

Lemma increment_spec f i :
  counting_wf f -> 0 <= i < cb_num_counters f ->
  let g := Counting.increment_counter f i in
  counting_wf g /\ same_shape f g
  /\ forall j, 0 <= j < cb_num_counters f ->
     Counting.get_counter g j
     = Z.min 15 (Counting.get_counter f j + if decide (i = j) then 1 else 0).
Proof.
  intros Hw Hi. pose proof (get_counter_range f i Hw Hi) as Hr.
  unfold Counting.increment_counter. destruct (_ <? _) eqn:E.
  - destruct (set_counter_spec f i (Counting.get_counter f i + 1) Hw Hi) as (W&S&_&G); [lia|].
    split; [done|]. split; [done|]. intros j Hj. rewrite G by done.
    pose proof (get_counter_range f j Hw Hj). destruct (decide (i = j)) as [<-|]; lia.
  - split; [done|]. split; [done|]. intros j Hj.
    pose proof (get_counter_range f j Hw Hj). destruct (decide (i = j)) as [<-|]; lia.
Qed.

Lemma decrement_spec f i :
  counting_wf f -> 0 <= i < cb_num_counters f ->
  let g := Counting.decrement_counter f i in
  counting_wf g /\ same_shape f g
  /\ forall j, 0 <= j < cb_num_counters f ->
     Counting.get_counter g j
     = Z.max 0 (Counting.get_counter f j - if decide (i = j) then 1 else 0).
Proof.
  intros Hw Hi. pose proof (get_counter_range f i Hw Hi) as Hr.
  unfold Counting.decrement_counter. destruct (_ <? _) eqn:E.
  - destruct (set_counter_spec f i (Counting.get_counter f i - 1) Hw Hi) as (W&S&_&G); [lia|].
    split; [done|]. split; [done|]. intros j Hj. rewrite G by done.
    pose proof (get_counter_range f j Hw Hj). destruct (decide (i = j)) as [<-|]; lia.
  - split; [done|]. split; [done|]. intros j Hj.
    pose proof (get_counter_range f j Hw Hj). destruct (decide (i = j)) as [<-|]; lia.
Qed.

(** How often an item's hash functions hit a counter. *)
Definition hits (ixs : list Z) (j : Z) : Z := Z.of_nat (length (filter (fun i => i = j) ixs)).

Lemma hits_cons i ixs j : hits (i :: ixs) j = (if decide (i = j) then 1 else 0) + hits ixs j.
Proof.
  unfold hits. rewrite filter_cons. destruct (decide (i = j)); cbn [length]; lia.
Qed.

Lemma same_shape_trans f g h : same_shape f g -> same_shape g h -> same_shape f h.
Proof. unfold same_shape. intuition congruence. Qed.

Lemma increments_spec ixs : forall f,
  counting_wf f -> Forall (fun i => 0 <= i < cb_num_counters f) ixs ->
  let g := foldl Counting.increment_counter f ixs in
  counting_wf g /\ same_shape f g
  /\ forall j, 0 <= j < cb_num_counters f ->
     Counting.get_counter g j = Z.min 15 (Counting.get_counter f j + hits ixs j).
Proof.
  induction ixs as [|i ixs IH]; intros f Hw Hi; cbn [foldl].
  - split; [done|]. split; [done|]. intros j Hj. pose proof (get_counter_range f j Hw Hj).
    change (hits [] j) with 0. lia.
  - inversion Hi as [|? ? H1 H2]; subst.
    destruct (increment_spec f i Hw H1) as (W&S&G). destruct S as (S1&S2&S3).
    destruct (IH (Counting.increment_counter f i) W) as (W'&S'&G').
    { rewrite S1. done. }
    split; [done|]. split; [by eapply same_shape_trans; [|exact S']|].
    intros j Hj. rewrite G' by (by rewrite S1). rewrite G, hits_cons by done.
    assert (0 <= hits ixs j) by (unfold hits; lia).
    pose proof (get_counter_range f j Hw Hj). destruct (decide (i = j)); lia.
Qed.

Lemma decrements_spec ixs : forall f,
  counting_wf f -> Forall (fun i => 0 <= i < cb_num_counters f) ixs ->
  let g := foldl Counting.decrement_counter f ixs in
  counting_wf g /\ same_shape f g
  /\ forall j, 0 <= j < cb_num_counters f ->
     Counting.get_counter g j = Z.max 0 (Counting.get_counter f j - hits ixs j).
Proof.
  induction ixs as [|i ixs IH]; intros f Hw Hi; cbn [foldl].
  - split; [done|]. split; [done|]. intros j Hj. pose proof (get_counter_range f j Hw Hj).
    change (hits [] j) with 0. lia.
  - inversion Hi as [|? ? H1 H2]; subst.
    destruct (decrement_spec f i Hw H1) as (W&S&G). destruct S as (S1&S2&S3).
    destruct (IH (Counting.decrement_counter f i) W) as (W'&S'&G').
    { rewrite S1. done. }
    split; [done|]. split; [by eapply same_shape_trans; [|exact S']|].
    intros j Hj. rewrite G' by (by rewrite S1). rewrite G, hits_cons by done.
    assert (0 <= hits ixs j) by (unfold hits; lia).
    pose proof (get_counter_range f j Hw Hj). destruct (decide (i = j)); lia.
Qed.

Lemma indices_range f x : counting_wf f ->
  Forall (fun i => 0 <= i < cb_num_counters f) (Counting.indices f x).
Proof.
  intros [Hn _ _]. apply Forall_fmap, Forall_forall. intros i _. cbn.
  unfold Counting.hash_index. apply Z.mod_pos_bound. done.
Qed.

Lemma indices_shape f g x : same_shape f g -> Counting.indices g x = Counting.indices f x.
Proof.
  intros (S1&S2&S3). unfold Counting.indices, Counting.hash_index. by rewrite S1, S2, S3.
Qed.

(** What the members of a collection put on a counter. *)
Definition load f (items : list (list Z)) (j : Z) : Z :=
  foldr (fun x a => hits (Counting.indices f x) j + a) 0 items.

Inductive filter_op := FInsert (x : list Z) | FRemove (x : list Z).

Definition filter_step f (op : filter_op) : CountingBloomFilter :=
  match op with FInsert x => Counting.insert f x | FRemove x => Counting.remove f x end.

(** The collection after an operation: one copy more, or one copy less. *)
Definition members_step (items : list (list Z)) (op : filter_op) : list (list Z) :=
  match op with
  | FInsert x => x :: items
  | FRemove x =>
      match list_find (fun y => y = x) items with
      | Some (n, _) => delete n items
      | None => items
      end
  end.

(** Only members are removed, and no counter is asked to pass its maximum. *)
Fixpoint unsaturated f (items : list (list Z)) (ops : list filter_op) : Prop :=
  match ops with
  | [] => True
  | op :: ops =>
      match op with FInsert _ => True | FRemove x => x ∈ items end
      /\ (forall j, 0 <= j < cb_num_counters f -> load f (members_step items op) j <= 15)
      /\ unsaturated f (members_step items op) ops
  end.

Lemma load_nonneg f items j : 0 <= load f items j.
Proof.
  unfold load. induction items as [|x items IH]; cbn; [lia|].
  assert (0 <= hits (Counting.indices f x) j) by (unfold hits; lia). lia.
Qed.

Lemma load_shape f g items j : same_shape f g -> load g items j = load f items j.
Proof.
  intros Hs. induction items as [|x items IH]; [done|]. unfold load in *. cbn.
  by rewrite IH, (indices_shape f g).
Qed.

Lemma load_delete f items n x j :
  items !! n = Some x -> load f items j = hits (Counting.indices f x) j + load f (delete n items) j.
Proof.
  unfold load. revert n.
  induction items as [|y items IH]; intros [|n] Hn; cbn in *; try done.
  - by injection Hn as ->.
  - rewrite (IH n Hn). unfold delete. lia.
Qed.

Lemma set_count_spec f n :
  counting_wf f -> counting_wf (Counting.set_count f n) /\ same_shape f (Counting.set_count f n)
  /\ forall j, Counting.get_counter (Counting.set_count f n) j = Counting.get_counter f j.
Proof. by intros [? ? ?]. Qed.

(** The counters are the loads. *)
Definition exact f items : Prop :=
  counting_wf f
  /\ forall j, 0 <= j < cb_num_counters f -> Counting.get_counter f j = load f items j.

Lemma insert_exact f items x :
  exact f items ->
  (forall j, 0 <= j < cb_num_counters f -> load f (x :: items) j <= 15) ->
  exact (Counting.insert f x) (x :: items) /\ same_shape f (Counting.insert f x).
Proof.
  intros [Hw He] Hs. unfold Counting.insert. cbv zeta.
  destruct (increments_spec (Counting.indices f x) f Hw (indices_range f x Hw)) as (W&S&G).
  set (g := foldl _ _ _) in *. destruct (set_count_spec g (wrap64 (cb_count g + 1)) W) as (W'&S'&G').
  pose proof (same_shape_trans _ _ _ S S') as SS. split; [|done]. split; [done|].
  intros j Hj. rewrite (proj1 SS) in Hj. rewrite G', G, He by done.
  rewrite (load_shape f _ _ j SS). specialize (Hs j Hj). unfold load in *. cbn in *. lia.
Qed.

Lemma remove_exact f items n x :
  exact f items -> items !! n = Some x ->
  exact (Counting.remove f x) (delete n items) /\ same_shape f (Counting.remove f x).
Proof.
  intros [Hw He] Hn. unfold Counting.remove. cbv zeta.
  destruct (decrements_spec (Counting.indices f x) f Hw (indices_range f x Hw)) as (W&S&G).
  set (g := foldl _ _ _) in *. destruct (set_count_spec g (sat_sub (cb_count g) 1) W) as (W'&S'&G').
  pose proof (same_shape_trans _ _ _ S S') as SS. split; [|done]. split; [done|].
  intros j Hj. rewrite (proj1 SS) in Hj. rewrite G', G, He by done.
  rewrite (load_shape f _ _ j SS), (load_delete f items n x j Hn).
  pose proof (load_nonneg f (delete n items) j). lia.
Qed.

Lemma unsaturated_shape f g ops : forall items,
  same_shape f g -> unsaturated f items ops -> unsaturated g items ops.
Proof.
  induction ops as [|op ops IH]; intros items Hs; [done|]. intros (H1&H2&H3).
  split; [done|]. split; [|by apply IH]. intros j Hj. rewrite (load_shape f) by done.
  apply H2. by rewrite (proj1 Hs) in Hj.
Qed.

Lemma run_exact ops : forall f items,
  exact f items -> unsaturated f items ops ->
  exact (foldl filter_step f ops) (foldl members_step items ops).
Proof.
  induction ops as [|op ops IH]; intros f items He Hu; [done|]. destruct Hu as (H1&H2&H3).
  cbn [foldl]. destruct op as [x|x]; cbn [filter_step members_step] in *.
  - destruct (insert_exact f items x He H2) as [E S]. apply IH; [done|].
    by apply (unsaturated_shape f).
  - destruct (list_find (fun y => y = x) items) as [[n y]|] eqn:En.
    + apply list_find_Some in En as (En&->&_).
      destruct (remove_exact f items n x He En) as [E S]. apply IH; [done|].
      by apply (unsaturated_shape f).
    + exfalso. by eapply list_find_None, Forall_forall in En.
Qed.

Lemma new_exact raw_counters raw_hashes seed :
  exact (Counting.new raw_counters raw_hashes seed) [].
Proof.
  split.
  - split; cbn [cb_num_counters cb_counters Counting.new].
    + lia.
    + rewrite length_replicate. rewrite Z2Nat.id; [done|]. apply Z.div_pos; lia.
    + apply Forall_replicate. unfold is_u8. lia.
  - intros j Hj. unfold Counting.get_counter. cbn [cb_counters Counting.new].
    destruct (replicate _ 0 !! _) as [b|] eqn:E; [|done].
    apply lookup_replicate in E as [-> _]. by destruct (_ =? 1).
Qed.

(** As long as only members are removed and no counter passes 15, the counting
    filter answers exactly by its counters, which are the loads of its members: no
    member is ever denied, and a denial means that some counter of the item is hit
    by no member. *)
Theorem counting_filter_exact raw_counters raw_hashes seed ops x :
  let f0 := Counting.new raw_counters raw_hashes seed in
  let f := foldl filter_step f0 ops in
  let items := foldl members_step [] ops in
  unsaturated f0 [] ops ->
  (forall j, 0 <= j < cb_num_counters f -> Counting.get_counter f j = load f items j)
  /\ (x ∈ items -> Counting.may_contain f x = true)
  /\ (Counting.may_contain f x = false <->
      exists i, i ∈ Counting.indices f x /\ load f items i = 0).
Proof.
  intros f0 f items Hu.
  destruct (run_exact ops f0 [] (new_exact _ _ _) Hu) as [Hw He]. fold f items in Hw, He.
  assert (forall i, i ∈ Counting.indices f x -> Counting.get_counter f i = load f items i) as Hi.
  { intros i Hin. apply He. pose proof (indices_range f x Hw) as Hr.
    by eapply Forall_forall in Hr. }
  assert (Counting.may_contain f x = false <->
      exists i, i ∈ Counting.indices f x /\ load f items i = 0) as Hc.
  { unfold Counting.may_contain. split.
    - intros Hf. apply not_true_iff_false in Hf. rewrite forallb_forall in Hf.
      destruct (decide (Exists (fun i => load f items i = 0) (Counting.indices f x))) as [Hx|Hx].
      + apply Exists_exists in Hx as (i&?&?). eauto.
      + destruct Hf. intros i Hin%list_elem_of_In. rewrite Hi by done.
        apply negb_true_iff, Z.eqb_neq. intros H0. apply Hx, Exists_exists. eauto.
    - intros (i&Hin&H0). apply not_true_iff_false. rewrite forallb_forall. intros Hf.
      specialize (Hf i ltac:(by apply list_elem_of_In)). rewrite Hi, H0 in Hf by done. done. }
  split; [done|]. split; [|done]. intros Hx.
  destruct (Counting.may_contain f x) eqn:E; [done|]. exfalso.
  destruct (proj1 Hc eq_refl) as (i&Hin&H0).
  apply list_elem_of_lookup in Hx as [n Hn].
  pose proof (load_delete f items n x i Hn) as Hl.
  pose proof (load_nonneg f (delete n items) i).
  assert (1 <= hits (Counting.indices f x) i); [|lia].
  unfold hits.
  assert (i ∈ filter (fun k => k = i) (Counting.indices f x)) as Hf
    by (apply list_elem_of_filter; done).
  destruct (filter (fun k => k = i) (Counting.indices f x)); [by apply elem_of_nil in Hf|].
  cbn. lia.
Qed.
End counting.

(** A saturated counter forgets: after sixteen copies of an item are inserted
    and fifteen removed, one copy is still a member and the filter denies it. *)
Theorem saturated_filter_denies_member :
  let f0 := Counting.new 1024 1 0 in
  let ops := replicate 16 (FInsert [7]) ++ replicate 15 (FRemove [7]) in
  foldl members_step [] ops = [[7]]
  /\ Counting.may_contain (foldl filter_step f0 ops) [7] = false.
Proof. vm_compute. done. Qed.

(** ** Bloom filters *)

Section bloom.
Context {B : Type} `{!BloomInner B} `{!BloomInnerLaws B}.

(** The key-image filter never denies a spent key image: every key image that
    was inserted is reported, whatever was inserted before and after. *)
Theorem key_image_filter_complete (f : BloomFilter B) kis ki :
  ki ∈ kis ->
  KeyImageFilter.may_be_spent (foldl KeyImageFilter.insert f kis) ki = true.
Proof.
  assert (forall kis f, KeyImageFilter.may_be_spent f ki = true ->
    KeyImageFilter.may_be_spent (foldl KeyImageFilter.insert f kis) ki = true) as Hkeep.
  { clear f kis. intros kis. induction kis as [|k kis IH]; intros f Hf; [done|]. apply IH.
    by apply bi_set_mono. }
  revert f. induction kis as [|k kis IH]; intros f Hin; [by apply elem_of_nil in Hin|].
  apply elem_of_cons in Hin as [->|Hin]; [|by apply IH].
  apply (Hkeep kis (KeyImageFilter.insert f k)). apply bi_check_set.
Qed.
End bloom.

(** ** Witnesses *)

(** The ordered map played by the list of its entries and its capacity. *)
Definition list_lru : Type := { l : list (Z * Z) | bool_decide (NoDup l.*1) } * Z.
Definition lru_list (t : list_lru) : list (Z * Z) := proj1_sig t.1.

Definition put_list (l : list (Z * Z)) : { l : list (Z * Z) | bool_decide (NoDup l.*1) } :=
  match decide (NoDup l.*1) with
  | left H => exist _ l (bool_decide_pack _ H)
  | right _ => exist _ [] I
  end.

Lemma put_list_ok l : NoDup l.*1 -> proj1_sig (put_list l) = l.
Proof. intros H. unfold put_list. by destruct (decide (NoDup l.*1)). Qed.

Definition assoc (k : Z) (l : list (Z * Z)) : option Z :=
  snd <$> (snd <$> list_find (fun e => e.1 = k) l).

#[export] Instance list_lru_map : LruMap Z Z list_lru := {|
  lm_new c := (put_list [], c);
  lm_get t k := match assoc k (lru_list t) with
                | Some v => (Some v, (put_list (without k (lru_list t) ++ [(k, v)]), t.2))
                | None => (None, t)
                end;
  lm_peek t k := assoc k (lru_list t);
  lm_contains t k := bool_decide (k ∈ (lru_list t).*1);
  lm_insert t k v := (put_list (without k (lru_list t) ++ [(k, v)]), t.2);
  lm_remove t k := (assoc k (lru_list t), (put_list (without k (lru_list t)), t.2));
  lm_remove_lru t := match lru_list t with
                     | [] => (None, t)
                     | e :: r => (Some e, (put_list r, t.2))
                     end;
  lm_len t := Z.of_nat (length (lru_list t));
  lm_capacity t := t.2;
  lm_clear t := (put_list [], t.2);
|}.

Lemma lru_list_distinct t : NoDup (lru_list t).*1.
Proof. destruct t as [[l H] c]. exact (bool_decide_unpack _ H). Qed.

Lemma assoc_spec k v l : NoDup l.*1 -> assoc k l = Some v <-> (k, v) ∈ l.
Proof.
  intros Hd. unfold assoc. induction l as [|[j w] l IH]; cbn.
  - split; [done|]. by intros ?%elem_of_nil.
  - apply NoDup_cons in Hd as [Hj Hd]. rewrite elem_of_cons.
    destruct (decide (j = k)) as [->|Hne]; cbn.
    + split; [intros [= ->]; by left|]. intros [[= ->]|Hin]; [done|]. destruct Hj.
      apply list_elem_of_fmap. by exists (k, v).
    + specialize (IH Hd). destruct (list_find (fun e => e.1 = k) l) as [[n [j' w']]|]; cbn in *.
      * rewrite IH. split; [by right|]. intros [[= -> ->]|]; done.
      * split; [done|]. intros [[= -> ->]|Hin]; [done|]. by apply IH in Hin.
Qed.

Lemma assoc_none k l : NoDup l.*1 -> assoc k l = None -> k ∉ l.*1.
Proof.
  intros Hd Hn ([j v]&->&Hin)%list_elem_of_fmap. cbn in *.
  apply (assoc_spec j v l Hd) in Hin. congruence.
Qed.

Lemma moved_distinct k v l : NoDup l.*1 -> NoDup (without k l ++ [(k, v)] : list (Z * Z)).*1.
Proof.
  intros Hd. rewrite fmap_app. apply NoDup_app. split; [by apply without_NoDup|].
  split; [|apply NoDup_singleton]. intros j Hj Hs. cbn in Hs.
  apply list_elem_of_singleton in Hs as ->. by apply without_keys in Hj.
Qed.

#[export] Instance list_lru_laws : LruMapLaws Z Z list_lru.
Proof.
  refine {| lm_entries := lru_list |}.
  - done.
  - apply lru_list_distinct.
  - done.
  - intros t k. apply bool_decide_eq_true.
  - intros t k v. apply assoc_spec, lru_list_distinct.
  - intros t k. pose proof (lru_list_distinct t) as Hd. cbn [lm_get lm_capacity list_lru_map].
    destruct (assoc k (lru_list t)) as [v|] eqn:E; (split; [|done]); split; try done.
    + by apply assoc_spec.
    + unfold lru_list at 1. cbn [fst]. by apply put_list_ok, moved_distinct.
    + by apply assoc_none.
  - intros t k v _. unfold lru_list at 1. cbn [fst lm_insert list_lru_map].
    apply put_list_ok, moved_distinct, lru_list_distinct.
  - intros t k v Hk _. unfold lru_list at 1. cbn [fst lm_insert list_lru_map].
    rewrite put_list_ok by apply moved_distinct, lru_list_distinct. by rewrite without_notin.
  - done.
  - intros t k. split; [|split; [|done]].
    + unfold lru_list at 1. cbn [fst snd lm_remove list_lru_map].
      apply put_list_ok, without_NoDup, lru_list_distinct.
    + intros v. apply assoc_spec, lru_list_distinct.
  - intros t. pose proof (lru_list_distinct t) as Hd. cbn [lm_remove_lru lm_capacity list_lru_map].
    destruct (lru_list t) as [|e r]; (split; [|done]); [done|]. split; [done|].
    unfold lru_list. cbn [fst snd]. apply put_list_ok. by apply NoDup_cons in Hd as [_ Hd].
  - done.
Defined.

Lemma sized_cache_accounts_witness :
  exists s, cache_run (T := list_lru) (Sized.new 2048 (fun v => Z.max 0 (Z.min v 4096)))
              [CInsert 1 1500; CInsert 2 1000; CGet 2; CInsert 3 5000; CRemove 9] = Some s
    /\ Sized.current_size s = total (fun v => Z.max 0 (Z.min v 4096)) (entries_of s)
    /\ (Sized.current_size s <= 2048 \/ length (entries_of s) = 1%nat).
Proof.
  destruct (sized_cache_accounts (T := list_lru) (fun v : Z => Z.max 0 (Z.min v 4096)) 2048
    ltac:(intros v; lia) ltac:(lia)
    [CInsert 1 1500; CInsert 2 1000; CGet 2; CInsert 3 5000; CRemove 9]) as (s&H1&H2&_&_&H5).
  exists s. split; [exact H1|]. split; [exact H2|exact H5].
Defined.

Lemma counting_filter_exact_witness :
  Counting.may_contain
    (foldl filter_step (Counting.new 1024 2 99) [FInsert [1]; FInsert [2]; FRemove [1]]) [2] = true.
Proof.
  destruct (counting_filter_exact 1024 2 99 [FInsert [1]; FInsert [2]; FRemove [1]] [2])
    as (_&H&_).
  - assert (forall items, forallb (fun j => load (Counting.new 1024 2 99) items j <=? 15)
        (seqZ 0 1024) = true -> forall j, 0 <= j < cb_num_counters (Counting.new 1024 2 99) ->
        load (Counting.new 1024 2 99) items j <= 15) as HF.
    { intros items Hb j Hj. rewrite forallb_forall in Hb. apply Z.leb_le, Hb.
      apply list_elem_of_In, elem_of_seqZ. cbn [cb_num_counters Counting.new] in Hj. lia. }
    cbn [unsaturated members_step].
    split; [exact I|]. split; [apply HF; vm_compute; reflexivity|].
    split; [exact I|]. split; [apply HF; vm_compute; reflexivity|].
    split; [right; left|]. split; [apply HF; vm_compute; reflexivity|exact I].
  - apply H. vm_compute. left.
Defined.

#[export] Instance list_bloom : BloomInner (list (list Z)) := {|
  bi_set b x := x :: b;
  bi_check b x := bool_decide (x ∈ b);
  bi_clear _ := [];
|}.

#[export] Instance list_bloom_laws : BloomInnerLaws (list (list Z)).
Proof.
  split; cbn.
  - intros b x. apply bool_decide_eq_true. by left.
  - intros b x y Hy%bool_decide_eq_true. apply bool_decide_eq_true. by right.
Defined.

Lemma key_image_filter_complete_witness :
  KeyImageFilter.may_be_spent
    (foldl KeyImageFilter.insert (mkBloom (list (list Z)) [] 0 0 0 5) [[1]; [2]; [3]]) [2] = true.
Proof.
  apply (key_image_filter_complete (mkBloom (list (list Z)) [] 0 0 0 5) [[1]; [2]; [3]] [2]).
  right. left.
Defined.
