(* ===== verification/Orphan.v ===== *)
(** * The orphan block pool

    [network/orphan.rs]: blocks whose parent is unknown, in four maps (by parent,
    parent of each hash, sequence number of each hash, hash by sequence number) that
    together implement a bounded queue.  [orphans_refine_queue] proves it against
    the queue itself. *)

From stdpp Require Import prelude gmap sorting.
From Stdlib Require Import ZArith Lia.
From S2P Require Import Prelude Difficulty Block.

Local Open Scope Z_scope.

Definition MAX_ORPHAN_SIZE : Z := 200.
Definition ORPHAN_TTL_BLOCKS : Z := 100.

Record OrphanEntry := mkOrphan { oe_block : Block; oe_received_at_height : Z }.

Record OrphanPool := mkOrphanPool {
  op_by_parent : gmap Hash (list OrphanEntry);
  op_parent_by_hash : gmap Hash Hash;
  op_seq_by_hash : gmap Hash Z;
  op_oldest_first : gmap Z Hash;
  op_next_seq : Z;
}.

Module Orphans.
Section orphans.
Context (block_hash : Block -> Hash).
Implicit Types p : OrphanPool.

Definition parent_of (b : Block) : Hash := prev_hash (header b).

Definition new : OrphanPool := mkOrphanPool ∅ ∅ ∅ ∅ 0.

Definition evict_oldest p : OrphanPool :=
  match pop_first (op_oldest_first p) with
  | None => p
  | Some ((_, oldest_hash), oldest_first) =>
      let seq_by_hash := delete oldest_hash (op_seq_by_hash p) in
      match op_parent_by_hash p !! oldest_hash with
      | None => mkOrphanPool (op_by_parent p) (op_parent_by_hash p) seq_by_hash oldest_first
                  (op_next_seq p)
      | Some parent =>
          let by_parent :=
            match op_by_parent p !! parent with
            | Some entries =>
                let entries := filter (fun e => block_hash (oe_block e) <> oldest_hash) entries in
                if decide (entries = []) then delete parent (op_by_parent p)
                else <[parent := entries]> (op_by_parent p)
            | None => op_by_parent p
            end in
          mkOrphanPool by_parent (delete oldest_hash (op_parent_by_hash p)) seq_by_hash
            oldest_first (op_next_seq p)
      end
  end.

Definition add p (block : Block) (current_height : Z) : bool * OrphanPool :=
  let hash := block_hash block in
  let prev := parent_of block in
  if decide (is_Some (op_parent_by_hash p !! hash)) then (false, p)
  else
    let p := if MAX_ORPHAN_SIZE <=? Z.of_nat (size (op_parent_by_hash p))
             then evict_oldest p else p in
    let seq := op_next_seq p in
    (true,
     mkOrphanPool
       (<[prev := default [] (op_by_parent p !! prev) ++ [mkOrphan block current_height]]>
          (op_by_parent p))
       (<[hash := prev]> (op_parent_by_hash p))
       (<[hash := seq]> (op_seq_by_hash p))
       (<[seq := hash]> (op_oldest_first p))
       (wrap64 (seq + 1))).

(** Drop the three index rows of a block. *)
Definition unindex p (hash : Hash) : OrphanPool :=
  mkOrphanPool (op_by_parent p) (delete hash (op_parent_by_hash p))
    (delete hash (op_seq_by_hash p))
    (match op_seq_by_hash p !! hash with
     | Some seq => delete seq (op_oldest_first p)
     | None => op_oldest_first p
     end)
    (op_next_seq p).

Definition with_by_parent p (m : gmap Hash (list OrphanEntry)) : OrphanPool :=
  mkOrphanPool m (op_parent_by_hash p) (op_seq_by_hash p) (op_oldest_first p) (op_next_seq p).

Definition take_children p (parent_hash : Hash) : list Block * OrphanPool :=
  match op_by_parent p !! parent_hash with
  | None => ([], p)
  | Some entries =>
      let p := with_by_parent p (delete parent_hash (op_by_parent p)) in
      (oe_block <$> entries,
       foldl (fun p e => unindex p (block_hash (oe_block e))) p entries)
  end.

Definition expire p (current_height : Z) : OrphanPool :=
  if current_height <? ORPHAN_TTL_BLOCKS then p
  else
    let cutoff := current_height - ORPHAN_TTL_BLOCKS in
    let expired := filter (fun e => oe_received_at_height e < cutoff)
                     (concat (map_to_list (op_by_parent p)).*2) in
    let kept := omap (fun entries =>
        let entries := filter (fun e => ~ oe_received_at_height e < cutoff) entries in
        if decide (entries = []) then None else Some entries) (op_by_parent p) in
    foldl (fun p e => unindex p (block_hash (oe_block e))) (with_by_parent p kept) expired.

Definition len p : Z := Z.of_nat (size (op_parent_by_hash p)).
Definition contains p (hash : Hash) : bool := bool_decide (is_Some (op_parent_by_hash p !! hash)).
Definition pending_parents p : Z := Z.of_nat (size (op_by_parent p)).
End orphans.
End Orphans.

(** ** The queue the pool implements *)

Section queue.
Context (block_hash : Block -> Hash).

Definition entry_hash (e : OrphanEntry) : Hash := block_hash (oe_block e).
Definition entry_parent (e : OrphanEntry) : Hash := Orphans.parent_of (oe_block e).

Inductive orphan_op :=
  | OAdd (b : Block) (height : Z)
  | OTake (parent : Hash)
  | OExpire (height : Z).

Inductive orphan_answer := AAdded (b : bool) | ABlocks (l : list Block) | ANone.

Definition queue_step (q : list OrphanEntry) (op : orphan_op)
  : list OrphanEntry * orphan_answer :=
  match op with
  | OAdd b h =>
      if decide (block_hash b ∈ entry_hash <$> q) then (q, AAdded false)
      else ((if MAX_ORPHAN_SIZE <=? Z.of_nat (length q) then drop 1 q else q) ++ [mkOrphan b h],
            AAdded true)
  | OTake parent =>
      (filter (fun e => entry_parent e <> parent) q,
       ABlocks (oe_block <$> filter (fun e => entry_parent e = parent) q))
  | OExpire h =>
      (if h <? ORPHAN_TTL_BLOCKS then q
       else filter (fun e => ~ oe_received_at_height e < h - ORPHAN_TTL_BLOCKS) q, ANone)
  end.

Definition pool_step (p : OrphanPool) (op : orphan_op) : OrphanPool * orphan_answer :=
  match op with
  | OAdd b h => let '(r, p) := Orphans.add block_hash p b h in (p, AAdded r)
  | OTake parent => let '(l, p) := Orphans.take_children block_hash p parent in (p, ABlocks l)
  | OExpire h => (Orphans.expire block_hash p h, ANone)
  end.

Fixpoint queue_run (q : list OrphanEntry) (ops : list orphan_op)
  : list OrphanEntry * list orphan_answer :=
  match ops with
  | [] => (q, [])
  | op :: ops => let '(q, a) := queue_step q op in
                 let '(q, r) := queue_run q ops in (q, a :: r)
  end.

Fixpoint pool_run (p : OrphanPool) (ops : list orphan_op) : OrphanPool * list orphan_answer :=
  match ops with
  | [] => (p, [])
  | op :: ops => let '(p, a) := pool_step p op in
                 let '(p, r) := pool_run p ops in (p, a :: r)
  end.

(** ** Lemmas on filtered lists and maps *)

Lemma filter_fmap_snd {A B} (P : B -> Prop) `{!forall x, Decision (P x)} (l : list (A * B)) :
  (filter (fun e => P e.2) l).*2 = filter P l.*2.
Proof.
  induction l as [|e l IH]; [done|]. cbn [fmap list_fmap]. rewrite !filter_cons.
  destruct (decide (P e.2)); cbn; by rewrite ?IH.
Qed.

Lemma filter_ext_in {A} (P Q : A -> Prop) `{!forall x, Decision (P x)}
    `{!forall x, Decision (Q x)} (l : list A) :
  (forall x, x ∈ l -> P x <-> Q x) -> filter P l = filter Q l.
Proof.
  induction l as [|x l IH]; intros Hpq; [done|]. rewrite !filter_cons.
  assert (P x <-> Q x) as Hx by (apply Hpq; by left).
  rewrite (IH ltac:(intros y Hy; apply Hpq; by right)).
  destruct (decide (P x)), (decide (Q x)); tauto.
Qed.

Lemma delete_rows {A K V} `{Countable K} (key : A -> K) (val : A -> V) (l : list A) k :
  delete k (list_to_map ((fun e => (key e, val e)) <$> l) : gmap K V)
  = list_to_map ((fun e => (key e, val e)) <$> filter (fun e => key e <> k) l).
Proof.
  induction l as [|e l IH]; [apply delete_empty|].
  change (delete k (<[key e := val e]> (list_to_map ((fun e => (key e, val e)) <$> l) : gmap K V))
    = list_to_map ((fun e => (key e, val e)) <$> filter (fun e => key e <> k) (e :: l))).
  destruct (decide (key e = k)) as [<-|Hne].
  - rewrite filter_cons_False by tauto. by rewrite delete_insert_eq.
  - rewrite filter_cons_True by done. rewrite delete_insert_ne by done. cbn. by f_equal.
Qed.

Lemma rows_lookup {A K V} `{Countable K} (key : A -> K) (val : A -> V) (l : list A) k v :
  NoDup (key <$> l) ->
  (list_to_map ((fun e => (key e, val e)) <$> l) : gmap K V) !! k = Some v
  <-> exists e, e ∈ l /\ key e = k /\ val e = v.
Proof.
  intros Hd. rewrite <- elem_of_list_to_map by (by rewrite <- list_fmap_compose).
  rewrite list_elem_of_fmap. split.
  - intros (e&[= -> ->]&Hin). eauto.
  - intros (e&Hin&<-&<-). eauto.
Qed.

Lemma rows_snoc {A K V} `{Countable K} (key : A -> K) (val : A -> V) (l : list A) x :
  key x ∉ (key <$> l) ->
  (list_to_map ((fun e => (key e, val e)) <$> (l ++ [x])) : gmap K V)
  = <[key x := val x]> (list_to_map ((fun e => (key e, val e)) <$> l)).
Proof.
  intros Hx. induction l as [|e l IH]; [done|]. rewrite fmap_cons, not_elem_of_cons in Hx.
  change (<[key e := val e]> (list_to_map ((fun e => (key e, val e)) <$> (l ++ [x])) : gmap K V)
    = <[key x := val x]> (<[key e := val e]> (list_to_map ((fun e => (key e, val e)) <$> l)))).
  rewrite IH by tauto. rewrite insert_insert_ne; [done|]. intros He. by destruct Hx.
Qed.

(** ** The index maps *)

Abbreviation row := (Z * OrphanEntry)%type.

Record indexed (p : OrphanPool) (rows : list row) : Prop := {
  ix_sorted : StronglySorted Z.lt rows.*1;
  ix_seqs : Forall (fun r : row => 0 <= r.1 < op_next_seq p) rows;
  ix_hashes : NoDup ((fun r : row => entry_hash r.2) <$> rows);
  ix_oldest : op_oldest_first p = list_to_map ((fun r : row => (r.1, entry_hash r.2)) <$> rows);
  ix_seq : op_seq_by_hash p = list_to_map ((fun r : row => (entry_hash r.2, r.1)) <$> rows);
  ix_parent : op_parent_by_hash p
              = list_to_map ((fun r : row => (entry_hash r.2, entry_parent r.2)) <$> rows);
}.

Lemma filter_Forall {A} (P Q : A -> Prop) `{!forall x, Decision (P x)} (l : list A) :
  Forall Q l -> Forall Q (filter P l).
Proof.
  intros HQ. apply Forall_forall. intros x [_ Hx]%list_elem_of_filter.
  by eapply Forall_forall in HQ.
Qed.

Lemma sorted_keys_filter {A} (f : A -> Z) (P : A -> Prop) `{!forall x, Decision (P x)} (l : list A) :
  StronglySorted Z.lt (f <$> l) -> StronglySorted Z.lt (f <$> filter P l).
Proof.
  induction l as [|x l IH]; intros Hs; [done|]. cbn in Hs. apply StronglySorted_inv in Hs as [Hs Hx].
  rewrite filter_cons. destruct (decide (P x)); [|by apply IH]. cbn. constructor; [by apply IH|].
  rewrite Forall_fmap in Hx |- *. by apply filter_Forall.
Qed.

Lemma indexed_keys p rows : indexed p rows -> NoDup rows.*1.
Proof. intros Hi. apply (sorted_keys_NoDup rows), Hi. Qed.

Lemma row_unique (rows : list row) r1 r2 :
  NoDup ((fun r : row => entry_hash r.2) <$> rows) -> r1 ∈ rows -> r2 ∈ rows ->
  entry_hash r1.2 = entry_hash r2.2 -> r1 = r2.
Proof.
  intros Hd H1 H2 He. apply list_elem_of_lookup in H1 as [i Hi], H2 as [j Hj].
  assert (i = j) as ->; [|congruence].
  eapply (NoDup_lookup _ i j); [exact Hd| |].
  - by rewrite list_lookup_fmap, Hi.
  - rewrite list_lookup_fmap, Hj. cbn. by f_equal.
Qed.

Lemma row_unique_seq (rows : list row) r1 r2 :
  NoDup rows.*1 -> r1 ∈ rows -> r2 ∈ rows -> r1.1 = r2.1 -> r1 = r2.
Proof.
  intros Hd H1 H2 He. apply list_elem_of_lookup in H1 as [i Hi], H2 as [j Hj].
  assert (i = j) as ->; [|congruence].
  eapply (NoDup_lookup _ i j); [exact Hd| |].
  - by rewrite list_lookup_fmap, Hi.
  - rewrite list_lookup_fmap, Hj. cbn. by f_equal.
Qed.

Lemma unindex_indexed p rows h :
  indexed p rows ->
  indexed (Orphans.unindex p h) (filter (fun r : row => entry_hash r.2 <> h) rows).
Proof.
  intros Hi. pose proof (indexed_keys _ _ Hi) as Hk. destruct Hi as [S N D O Q P].
  split; cbn.
  - by apply sorted_keys_filter.
  - by apply filter_Forall.
  - eapply sublist_NoDup; [exact D|]. apply fmap_sublist, sublist_filter.
  - destruct (op_seq_by_hash p !! h) as [sq|] eqn:E; rewrite Q in E.
    + apply (rows_lookup (fun r : row => entry_hash r.2) (fun r : row => r.1)) in E
        as (r&Hr&<-&<-); [|done].
      rewrite O, (delete_rows (fun r : row => r.1) (fun r : row => entry_hash r.2)).
      do 2 f_equal. apply filter_ext_in. intros r' Hr'. split; intros Hne He; apply Hne.
      * by rewrite (row_unique rows r' r).
      * by rewrite (row_unique_seq rows r' r).
    + rewrite O. do 2 f_equal. symmetry. apply filter_all. intros r Hr He.
      assert ((list_to_map ((fun r : row => (entry_hash r.2, r.1)) <$> rows) : gmap Hash Z) !! h
              = Some r.1) as E'; [|congruence].
      apply (rows_lookup (fun r : row => entry_hash r.2) (fun r : row => r.1)); [done|]. eauto.
  - rewrite Q. apply (delete_rows (fun r : row => entry_hash r.2) (fun r : row => r.1)).
  - rewrite P.
    apply (delete_rows (fun r : row => entry_hash r.2) (fun r : row => entry_parent r.2)).
Qed.

Lemma unindex_all es : forall p rows,
  indexed p rows ->
  let p' := foldl (fun p e => Orphans.unindex p (entry_hash e)) p es in
  indexed p' (filter (fun r : row => entry_hash r.2 ∉ (entry_hash <$> es)) rows)
  /\ op_by_parent p' = op_by_parent p /\ op_next_seq p' = op_next_seq p.
Proof.
  induction es as [|e es IH]; intros p rows Hi; cbn [foldl].
  - rewrite filter_all; [done|]. intros r _. apply not_elem_of_nil.
  - destruct (IH _ _ (unindex_indexed p rows (entry_hash e) Hi)) as (I1&I2&I3).
    split; [|done].
    assert (filter (fun r : row => entry_hash r.2 ∉ (entry_hash <$> e :: es)) rows
      = filter (fun r : row => entry_hash r.2 ∉ (entry_hash <$> es))
          (filter (fun r : row => entry_hash r.2 <> entry_hash e) rows)) as ->; [|exact I1].
    rewrite list_filter_filter. apply filter_ext_in. intros r _.
    rewrite fmap_cons, not_elem_of_cons. tauto.
Qed.

(** ** The pool as a queue *)

Definition group (parent : Hash) (q : list OrphanEntry) : option (list OrphanEntry) :=
  let es := filter (fun e => entry_parent e = parent) q in
  if decide (es = []) then None else Some es.

Record pool_rel (p : OrphanPool) (q : list OrphanEntry) : Prop := {
  pr_rows : exists rows, indexed p rows /\ rows.*2 = q;
  pr_groups : forall parent, op_by_parent p !! parent = group parent q;
  pr_size : Z.of_nat (length q) <= MAX_ORPHAN_SIZE;
}.

Lemma rel_hashes p q : pool_rel p q -> NoDup (entry_hash <$> q).
Proof. intros [(rows&Hi&<-) _ _]. rewrite <- list_fmap_compose. apply Hi. Qed.

Lemma rel_parents p q :
  pool_rel p q ->
  op_parent_by_hash p = list_to_map ((fun e => (entry_hash e, entry_parent e)) <$> q).
Proof. intros [(rows&Hi&<-) _ _]. rewrite <- list_fmap_compose. apply Hi. Qed.

Lemma rel_len p q : pool_rel p q -> size (op_parent_by_hash p) = length q.
Proof.
  intros Hr. rewrite (rel_parents p q Hr), map_size_list_to_map, length_fmap; [done|].
  rewrite <- list_fmap_compose. by apply (rel_hashes p).
Qed.

Lemma rel_contains p q h :
  pool_rel p q -> is_Some (op_parent_by_hash p !! h) <-> h ∈ (entry_hash <$> q).
Proof.
  intros Hr. rewrite (rel_parents p q Hr), list_elem_of_fmap. split.
  - intros [v Hv]. apply (rows_lookup entry_hash entry_parent) in Hv as (e&?&?&_);
      [|by apply (rel_hashes p)]. eauto.
  - intros (e&->&He). exists (entry_parent e).
    apply (rows_lookup entry_hash entry_parent); [by apply (rel_hashes p)|]. eauto.
Qed.

Lemma hash_in_part (q es : list OrphanEntry) e :
  NoDup (entry_hash <$> q) -> (forall x, x ∈ es -> x ∈ q) -> e ∈ q ->
  entry_hash e ∈ (entry_hash <$> es) <-> e ∈ es.
Proof.
  intros Hd Hs He. rewrite list_elem_of_fmap. split; [|eauto].
  intros (x&Hx&Hin). assert (e = x) as ->; [|done]. specialize (Hs x Hin).
  apply list_elem_of_lookup in He as [i Hi], Hs as [j Hj].
  assert (i = j) as ->; [|congruence].
  eapply (NoDup_lookup _ i j); [exact Hd| |].
  - by rewrite list_lookup_fmap, Hi.
  - rewrite list_lookup_fmap, Hj. cbn. by f_equal.
Qed.

(** Dropping the blocks [es] from the indices and regrouping the rest. *)
Lemma drop_entries p q es m (P : OrphanEntry -> Prop) `{!forall e, Decision (P e)} :
  pool_rel p q -> (forall e, e ∈ es <-> e ∈ q /\ ~ P e) ->
  (forall parent, m !! parent = group parent (filter P q)) ->
  pool_rel (foldl (fun p e => Orphans.unindex p (entry_hash e)) (Orphans.with_by_parent p m) es)
    (filter P q).
Proof.
  intros Hr Hes Hm. pose proof (rel_hashes p q Hr) as Hd.
  destruct Hr as [(rows&Hi&Eq) _ Hz].
  assert (indexed (Orphans.with_by_parent p m) rows) as Hi' by (destruct Hi; by split).
  destruct (unindex_all es _ rows Hi') as (I1&I2&I3). split.
  - eexists. split; [exact I1|].
    refine (eq_trans (filter_fmap_snd (fun e => entry_hash e ∉ (entry_hash <$> es)) rows) _).
    rewrite Eq.
    apply filter_ext_in. intros e He.
    rewrite (hash_in_part q es e Hd); [|by intros x Hx; apply Hes|done]. rewrite Hes.
    destruct (decide (P e)); tauto.
  - intros parent. rewrite I2. cbn. apply Hm.
  - pose proof (length_filter P q). lia.
Qed.

Lemma group_filter_ne parent par q :
  group parent (filter (fun e => entry_parent e <> par) q)
  = if decide (parent = par) then None else group parent q.
Proof.
  unfold group. rewrite list_filter_filter. destruct (decide (parent = par)) as [->|Hne].
  - rewrite decide_True; [done|]. induction q as [|e q IH]; [done|].
    rewrite filter_cons_False by tauto. exact IH.
  - erewrite (filter_ext_in (fun x => entry_parent x = parent /\ entry_parent x <> par));
      [done|]. intros x _. cbn. split; [tauto|]. intros ->. done.
Qed.

Lemma take_rel p q par :
  pool_rel p q ->
  (Orphans.take_children block_hash p par).1
    = oe_block <$> filter (fun e => entry_parent e = par) q
  /\ pool_rel (Orphans.take_children block_hash p par).2
       (filter (fun e => entry_parent e <> par) q).
Proof.
  intros Hr. unfold Orphans.take_children. rewrite (pr_groups _ _ Hr par).
  unfold group. destruct (decide (filter (fun e => entry_parent e = par) q = [])) as [En|En].
  - cbn. rewrite En. split; [done|]. rewrite filter_all; [done|]. intros e He Hp.
    assert (e ∈ filter (fun e => entry_parent e = par) q) as Hin by (by apply list_elem_of_filter).
    rewrite En in Hin. by apply elem_of_nil in Hin.
  - cbn [fst snd]. split; [done|].
    apply (drop_entries p q _ _ (fun e => entry_parent e <> par)); [done| |].
    + intros e. rewrite list_elem_of_filter. destruct (decide (entry_parent e = par)); tauto.
    + intros parent. rewrite group_filter_ne. destruct (decide (parent = par)) as [->|Hne].
      * apply lookup_delete_eq.
      * rewrite lookup_delete_ne by done. apply (pr_groups _ _ Hr).
Qed.

Lemma elem_concat {A} (x : A) (ls : list (list A)) :
  x ∈ concat ls <-> exists l, x ∈ l /\ l ∈ ls.
Proof.
  induction ls as [|l ls IH]; cbn.
  - split; [by intros ?%elem_of_nil|]. by intros (l&_&?%elem_of_nil).
  - rewrite elem_of_app, IH. setoid_rewrite elem_of_cons. naive_solver.
Qed.

Lemma group_elem p q e :
  pool_rel p q ->
  e ∈ concat (map_to_list (op_by_parent p)).*2 <-> e ∈ q.
Proof.
  intros Hr. rewrite elem_concat. split.
  - intros (es&He&Hes). apply list_elem_of_fmap in Hes as ([par es']&->&Hin).
    apply elem_of_map_to_list in Hin. rewrite (pr_groups _ _ Hr) in Hin. unfold group in Hin.
    destruct (decide _); [done|]. injection Hin as <-. cbn in He.
    by apply list_elem_of_filter in He as [_ He].
  - intros He. exists (filter (fun x => entry_parent x = entry_parent e) q).
    assert (e ∈ filter (fun x => entry_parent x = entry_parent e) q) as Hin
      by (by apply list_elem_of_filter).
    split; [done|]. apply list_elem_of_fmap. eexists (entry_parent e, _). split; [reflexivity|].
    apply elem_of_map_to_list. cbn. rewrite (pr_groups _ _ Hr). unfold group.
    rewrite decide_False; [done|]. intros E. rewrite E in Hin. by apply elem_of_nil in Hin.
Qed.

Lemma expire_rel p q h :
  pool_rel p q -> pool_rel (Orphans.expire block_hash p h) (queue_step q (OExpire h)).1.
Proof.
  intros Hr. unfold Orphans.expire. cbn [queue_step fst]. destruct (h <? _); [done|].
  cbv zeta. apply (drop_entries p q).
  - done.
  - intros e. rewrite list_elem_of_filter, (group_elem p q) by done.
    destruct (decide (oe_received_at_height e < h - ORPHAN_TTL_BLOCKS)); tauto.
  - intros par. rewrite lookup_omap, (pr_groups _ _ Hr). unfold group.
    set (P := fun e => ~ oe_received_at_height e < h - ORPHAN_TTL_BLOCKS).
    assert (filter (fun e => entry_parent e = par) (filter P q)
            = filter P (filter (fun e => entry_parent e = par) q)) as ->.
    { rewrite !list_filter_filter. apply filter_ext_in. intros x _. tauto. }
    destruct (decide (filter (fun e => entry_parent e = par) q = [])) as [->|Hn]; [done|].
    done.
Qed.

Lemma evict_rel p e q :
  pool_rel p (e :: q) -> pool_rel (Orphans.evict_oldest block_hash p) q.
Proof.
  intros Hr. pose proof (rel_hashes _ _ Hr) as Hd. pose proof (rel_contains _ _ (entry_hash e) Hr) as Hc.
  pose proof (rel_parents _ _ Hr) as Hp.
  destruct Hr as [(rows&Hi&Eq) Hg Hz]. destruct rows as [|[sq e'] rows]; [done|].
  injection Eq as -> Eq. unfold Orphans.evict_oldest.
  rewrite (ix_oldest _ _ Hi). cbn [fmap list_fmap fst snd].
  rewrite pop_first_of; cycle 1.
  { pose proof (ix_sorted _ _ Hi) as Hs. cbn in *. by rewrite <- list_fmap_compose. }
  assert (op_parent_by_hash p !! entry_hash e = Some (entry_parent e)) as ->.
  { rewrite Hp. cbn. apply lookup_insert_eq. }
  rewrite fmap_cons in Hd. apply NoDup_cons in Hd as [Hne Hd].
  assert (forall r, r ∈ rows -> entry_hash r.2 <> entry_hash e) as Hrows.
  { intros r Hr He. apply Hne. rewrite <- He, <- Eq, <- list_fmap_compose.
    apply list_elem_of_fmap. by exists r. }
  pose proof (unindex_indexed p _ (entry_hash e) Hi) as Hu.
  rewrite filter_cons_False, (filter_all _ _ Hrows) in Hu by (cbn; tauto).
  destruct Hu as [U1 U2 U3 U4 U5 U6]. split.
  - exists rows. split; [|done]. by split.
  - cbn [op_by_parent]. set (par := entry_parent e).
    assert (filter (fun x => block_hash (oe_block x) <> entry_hash e)
      (filter (fun x => entry_parent x = par) (e :: q))
      = filter (fun x => entry_parent x = par) q) as Hflt.
    { rewrite filter_cons_True by done. rewrite filter_cons_False by (unfold entry_hash; tauto).
      apply filter_all. intros x [_ Hx]%list_elem_of_filter He. apply Hne.
      apply list_elem_of_fmap. by exists x. }
    rewrite (Hg par). unfold group at 1.
    rewrite decide_False by (by rewrite filter_cons_True).
    cbv zeta. rewrite Hflt. intros parent. unfold group.
    destruct (decide (parent = par)) as [->|Hne'].
    + destruct (decide (filter (fun x => entry_parent x = par) q = [])) as [En|En].
      * apply lookup_delete_eq.
      * apply lookup_insert_eq.
    + assert (group parent (e :: q) = group parent q) as Hgo.
      { unfold group. by rewrite filter_cons_False by (intros E; apply Hne'; by subst). }
      unfold group in Hgo. rewrite <- Hgo. specialize (Hg parent). unfold group in Hg.
      destruct (decide (filter (fun x => entry_parent x = par) q = [])).
      * by rewrite lookup_delete_ne.
      * by rewrite lookup_insert_ne.
  - cbn in Hz. lia.
Qed.

Lemma push_rel p q b h :
  pool_rel p q -> block_hash b ∉ (entry_hash <$> q) ->
  Z.of_nat (length q) < MAX_ORPHAN_SIZE -> 0 <= op_next_seq p < u64_max ->
  pool_rel
    (mkOrphanPool
       (<[Orphans.parent_of b :=
            default [] (op_by_parent p !! Orphans.parent_of b) ++ [mkOrphan b h]]> (op_by_parent p))
       (<[block_hash b := Orphans.parent_of b]> (op_parent_by_hash p))
       (<[block_hash b := op_next_seq p]> (op_seq_by_hash p))
       (<[op_next_seq p := block_hash b]> (op_oldest_first p))
       (wrap64 (op_next_seq p + 1)))
    (q ++ [mkOrphan b h]).
Proof.
  intros Hr Hn Hz Hs. destruct Hr as [(rows&Hi&Eq) Hg _].
  assert (wrap64 (op_next_seq p + 1) = op_next_seq p + 1) as Hw by (apply wrap64_small; word_lia).
  set (r := (op_next_seq p, mkOrphan b h)).
  assert (block_hash b ∉ ((fun r : row => entry_hash r.2) <$> rows)) as Hn'.
  { rewrite <- Eq in Hn. by rewrite <- list_fmap_compose in Hn. }
  assert (op_next_seq p ∉ rows.*1) as Hsq.
  { intros (x&Ex&Hx)%list_elem_of_fmap. pose proof (ix_seqs _ _ Hi) as Hq.
    eapply Forall_forall in Hq; [|exact Hx]. cbn in Hq. lia. }
  split.
  - exists (rows ++ [r]). split; [|by rewrite fmap_app, Eq].
    destruct Hi as [S N D O Q P]. split; cbn [op_next_seq op_oldest_first op_seq_by_hash
      op_parent_by_hash]; rewrite ?Hw.
    + rewrite fmap_app. apply StronglySorted_app_2; [|done|repeat constructor].
      intros x y Hx Hy. apply list_elem_of_singleton in Hy as ->.
      apply list_elem_of_fmap in Hx as (z&->&Hx). eapply Forall_forall in N; [|exact Hx].
      cbn in *. lia.
    + apply Forall_app. split; [|constructor; [cbn; lia|constructor]].
      eapply Forall_impl; [exact N|]. cbn. lia.
    + rewrite fmap_app. apply NoDup_app. split; [done|]. split; [|apply NoDup_singleton].
      intros x Hx Hy. cbn in Hy. apply list_elem_of_singleton in Hy as ->. done.
    + rewrite O. symmetry.
      by apply (rows_snoc (fun r : row => r.1) (fun r : row => entry_hash r.2) rows r).
    + rewrite Q. symmetry.
      by apply (rows_snoc (fun r : row => entry_hash r.2) (fun r : row => r.1) rows r).
    + rewrite P. symmetry. by apply (rows_snoc (fun r : row => entry_hash r.2)
        (fun r : row => entry_parent r.2) rows r).
  - intros par. cbn [op_by_parent]. unfold group. rewrite filter_app.
    destruct (decide (Orphans.parent_of b = par)) as [<-|Hne].
    + rewrite lookup_insert_eq, (Hg (Orphans.parent_of b)).
      assert (filter (fun e => entry_parent e = Orphans.parent_of b) [mkOrphan b h]
        = [mkOrphan b h]) as -> by by rewrite filter_cons_True.
      rewrite decide_False by (intros [_ ?]%app_nil; done). f_equal. f_equal. unfold group.
      destruct (decide (filter (fun e => entry_parent e = Orphans.parent_of b) q = [])) as [->|];
        done.
    + rewrite lookup_insert_ne, (Hg par) by done. unfold group.
      assert (filter (fun e => entry_parent e = par) [mkOrphan b h] = []) as ->
        by by rewrite filter_cons_False. by rewrite app_nil_r.
  - rewrite length_app. cbn. lia.
Qed.

Lemma evict_seq p : op_next_seq (Orphans.evict_oldest block_hash p) = op_next_seq p.
Proof.
  unfold Orphans.evict_oldest. destruct (pop_first _) as [[[? ?] ?]|]; [|done].
  by destruct (_ !! _).
Qed.

Lemma add_rel p q b h :
  pool_rel p q -> 0 <= op_next_seq p < u64_max ->
  AAdded (Orphans.add block_hash p b h).1 = (queue_step q (OAdd b h)).2
  /\ pool_rel (Orphans.add block_hash p b h).2 (queue_step q (OAdd b h)).1.
Proof.
  intros Hr Hs. unfold Orphans.add. cbn [queue_step].
  pose proof (rel_contains p q (block_hash b) Hr) as Hc.
  destruct (decide (is_Some _)) as [Hin|Hn]; destruct (decide (_ ∈ _)) as [Hin'|Hn']; try tauto.
  cbv zeta. cbn [fst snd]. split; [done|].
  rewrite (rel_len p q Hr). destruct (MAX_ORPHAN_SIZE <=? Z.of_nat (length q)) eqn:Ez.
  - destruct q as [|e q]; [done|]. cbn [drop]. rewrite drop_0.
    pose proof (evict_rel p e q Hr) as Hr'. apply push_rel; [done| | |].
    + rewrite fmap_cons, not_elem_of_cons in Hn'. tauto.
    + pose proof (pr_size _ _ Hr) as Hz. cbn in Hz. lia.
    + by rewrite evict_seq.
  - apply push_rel; [done|done|lia|done].
Qed.

Lemma step_rel p q op :
  pool_rel p q -> 0 <= op_next_seq p < u64_max ->
  (pool_step p op).2 = (queue_step q op).2 /\ pool_rel (pool_step p op).1 (queue_step q op).1
  /\ 0 <= op_next_seq (pool_step p op).1 <= op_next_seq p + 1.
Proof.
  intros Hr Hs. destruct op as [b h|par|h].
  - destruct (add_rel p q b h Hr Hs) as [E R].
    assert (0 <= op_next_seq (Orphans.add block_hash p b h).2 <= op_next_seq p + 1) as Hq.
    { unfold Orphans.add. destruct (decide _); cbn [snd]; [lia|]. cbv zeta. cbn [op_next_seq].
      destruct (_ <=? _); rewrite ?evict_seq, wrap64_small by word_lia; lia. }
    cbn [pool_step]. destruct (Orphans.add block_hash p b h) as [r p']. done.
  - destruct (take_rel p q par Hr) as [E R].
    assert (op_next_seq (Orphans.take_children block_hash p par).2 = op_next_seq p) as Hq.
    { unfold Orphans.take_children. destruct (_ !! _) as [es|]; [|done]. cbn [snd].
      assert (forall p0, op_next_seq (foldl (fun p e => Orphans.unindex p (block_hash (oe_block e)))
        p0 es) = op_next_seq p0) as Hf
        by (induction es as [|e es IH]; intros p0; cbn; [done|by rewrite IH]).
      by rewrite Hf. }
    cbn [pool_step]. destruct (Orphans.take_children block_hash p par) as [l p']. cbn in *.
    rewrite E. split_and!; [done|done|lia|lia].
  - pose proof (expire_rel p q h Hr) as R.
    assert (op_next_seq (Orphans.expire block_hash p h) = op_next_seq p) as Hq.
    { unfold Orphans.expire. destruct (_ <? _); [done|]. cbv zeta.
      set (es := filter _ _). set (m := omap _ _). clearbody es m.
      assert (forall p0, op_next_seq (foldl (fun p e => Orphans.unindex p (block_hash (oe_block e)))
        p0 es) = op_next_seq p0) as Hf
        by (induction es as [|e es IH]; intros p0; cbn; [done|by rewrite IH]).
      by rewrite Hf. }
    cbn [pool_step fst snd]. split_and!; [done|done|lia|lia].
Qed.

Lemma run_rel ops : forall p q,
  pool_rel p q -> 0 <= op_next_seq p -> op_next_seq p + Z.of_nat (length ops) <= u64_max ->
  (pool_run p ops).2 = (queue_run q ops).2 /\ pool_rel (pool_run p ops).1 (queue_run q ops).1.
Proof.
  induction ops as [|op ops IH]; intros p q Hr H0 Hm; [done|]. cbn [length] in Hm.
  destruct (step_rel p q op Hr) as (E&R&S); [lia|]. cbn [pool_run queue_run].
  destruct (pool_step p op) as [p1 a1], (queue_step q op) as [q1 a2]. cbn in E, R, S. subst a2.
  destruct (IH p1 q1 R) as [E2 R2]; [lia|lia|].
  destruct (pool_run p1 ops) as [p2 r1], (queue_run q1 ops) as [q2 r2]. cbn in *. by subst.
Qed.

(** C22: The orphan pool is a queue of at most 200 blocks: over any additions,
    collections of children and expirations it gives the answers of the queue, in
    arrival order, evicting the oldest block when full; its length and membership
    are the queue's. *)
Theorem orphans_refine_queue ops :
  Z.of_nat (length ops) <= u64_max ->
  let '(p, answers) := pool_run Orphans.new ops in
  let '(q, answers') := queue_run [] ops in
  answers = answers' /\ Orphans.len p = Z.of_nat (length q) /\ Orphans.len p <= MAX_ORPHAN_SIZE
  /\ (forall h, Orphans.contains p h = true <-> h ∈ (entry_hash <$> q))
  /\ forall parent, (Orphans.take_children block_hash p parent).1
                    = oe_block <$> filter (fun e => entry_parent e = parent) q.
Proof.
  intros Hm. assert (pool_rel Orphans.new []) as Hr.
  { split; [|done|done]. exists []. split; [|done]. split; try done; constructor. }
  destruct (run_rel ops Orphans.new [] Hr) as [E R]; [done|cbn; lia|].
  destruct (pool_run Orphans.new ops) as [p answers], (queue_run [] ops) as [q answers'].
  cbn in E, R. split; [done|]. unfold Orphans.len. rewrite (rel_len p q R).
  split; [done|]. split; [apply R|]. split.
  - intros h. unfold Orphans.contains. rewrite bool_decide_eq_true. by apply rel_contains.
  - intros parent. by apply take_rel.
Qed.
End queue.

(** ** A witness *)

Definition demo_orphan (n parent : Z) : Block :=
  mkBlock (mkBlockHeader [] 1 0 0 [parent] [] [] 0 n [] [] [] None [] []) [].
Definition demo_hash (b : Block) : Hash := [nonce (header b)].

Lemma orphans_refine_queue_witness :
  let '(p, answers) := pool_run demo_hash Orphans.new
     [OAdd (demo_orphan 1 9) 5; OAdd (demo_orphan 2 9) 6; OAdd (demo_orphan 3 8) 7; OTake [9]] in
  answers = [AAdded true; AAdded true; AAdded true;
             ABlocks [demo_orphan 1 9; demo_orphan 2 9]] /\ Orphans.len p = 1.
Proof.
  pose proof (orphans_refine_queue demo_hash
    [OAdd (demo_orphan 1 9) 5; OAdd (demo_orphan 2 9) 6; OAdd (demo_orphan 3 8) 7; OTake [9]]
    ltac:(vm_compute; discriminate)) as H.
  destruct (pool_run demo_hash Orphans.new _) as [p answers].
  destruct H as (H1&H2&_). split; [exact H1|]. rewrite H2. reflexivity.
Defined.
