(* ===== verification/Peers.v ===== *)
(** * Peer admission: [src/network/connection_tracker.rs], [relay_score.rs],
    [eviction.rs], [peer.rs] and the acceptor, connector and disconnect paths of
    [src/network/node]

    The tracker counts inbound connections per address and outbound ones per
    subnet and holds the memory budget of the message buffers; the relay scores
    and the peer table feed the choice of the inbound peer to evict; the node
    composes them.  An [Instant] is a [Z] in nanoseconds.  The iteration order of
    the hash maps is the class [MapOrder]. *)

From stdpp Require Import prelude gmap sorting.
From Stdlib Require Import ZArith Lia.
From S2P Require Import Prelude.
From S2P Require Import Difficulty.
From S2P Require Import ForkChoice.

Local Open Scope Z_scope.

(** ** Connection tracker *)

Definition MAX_CONNECTIONS_PER_IP : Z := 2.
Definition MAX_OUTBOUND_PER_SUBNET : Z := 2.
Definition MAX_TRACKED_IPS : Z := 10000.

Record ConnectionTracker := mkTracker {
  connections_per_ip : gmap IpAddr Z;
  outbound_per_subnet : gmap Z Z;
  memory_used : Z;
  memory_budget : Z
}.

Module Tracker.
Definition new (budget : Z) : ConnectionTracker := mkTracker ∅ ∅ 0 budget.

Definition subnet_key (ip : IpAddr) : Z :=
  match ip with
  | V4 octets => Z.lor (Z.shiftl (nth 0 octets 0) 8) (nth 1 octets 0)
  | V6 segments => Z.lor (Z.shiftl (nth 0 segments 0) 16) (nth 1 segments 0)
  end.

(** [entry(k).and_modify(if c < cap { c += 1 }).or_insert(1)]. *)
Definition try_count `{Countable K} (cap : Z) (m : gmap K Z) (k : K) : bool * gmap K Z :=
  match m !! k with
  | Some c => if c <? cap then (true, <[k := c + 1]> m) else (false, m)
  | None => (true, <[k := 1]> m)
  end.

(** [get_mut(k)], one less but not below zero, the row removed at zero. *)
Definition uncount `{Countable K} (m : gmap K Z) (k : K) : gmap K Z :=
  match m !! k with
  | Some c => if sat_sub c 1 =? 0 then delete k m else <[k := sat_sub c 1]> m
  | None => m
  end.

Definition set_ips (t : ConnectionTracker) (m : gmap IpAddr Z) : ConnectionTracker :=
  mkTracker m (outbound_per_subnet t) (memory_used t) (memory_budget t).
Definition set_subnets (t : ConnectionTracker) (m : gmap Z Z) : ConnectionTracker :=
  mkTracker (connections_per_ip t) m (memory_used t) (memory_budget t).

Definition try_track_outbound_subnet (t : ConnectionTracker) (addr : SocketAddr)
  : bool * ConnectionTracker :=
  let '(accepted, m) :=
    try_count MAX_OUTBOUND_PER_SUBNET (outbound_per_subnet t) (subnet_key (sa_ip addr)) in
  (accepted, set_subnets t m).

Definition untrack_outbound_subnet (t : ConnectionTracker) (addr : SocketAddr)
  : ConnectionTracker :=
  set_subnets t (uncount (outbound_per_subnet t) (subnet_key (sa_ip addr))).

(** The slot remembers the address; dropping it gives the place back. *)
Definition try_track_outbound_subnet_owned (t : ConnectionTracker) (addr : SocketAddr)
  : option SocketAddr * ConnectionTracker :=
  let '(accepted, t) := try_track_outbound_subnet t addr in
  (if accepted then Some addr else None, t).
Definition drop_slot (t : ConnectionTracker) (slot : option SocketAddr) : ConnectionTracker :=
  match slot with Some addr => untrack_outbound_subnet t addr | None => t end.

Definition outbound_subnet_snapshot (t : ConnectionTracker) : list (Z * Z) :=
  tree_rows (outbound_per_subnet t).

Definition sum_counts (l : list (Z * Z)) : Z := foldr (fun e n => e.2 + n) 0 l.

Definition reconcile_outbound_subnets (t : ConnectionTracker) (live_outbound : list SocketAddr)
  : (Z * Z) * ConnectionTracker :=
  let old_sum := sum_counts (map_to_list (outbound_per_subnet t)) in
  let truth := foldl (fun m addr =>
      let k := subnet_key (sa_ip addr) in
      <[k := default 0 (m !! k) + 1]> m) (∅ : gmap Z Z) live_outbound in
  ((old_sum, sum_counts (map_to_list truth)), set_subnets t truth).

Definition connections_from (t : ConnectionTracker) (ip : IpAddr) : Z :=
  default 0 (connections_per_ip t !! ip).

Definition can_accept (t : ConnectionTracker) (addr : SocketAddr) : bool :=
  connections_from t (sa_ip addr) <? MAX_CONNECTIONS_PER_IP.

Definition try_track_connection (t : ConnectionTracker) (addr : SocketAddr)
  : bool * ConnectionTracker :=
  let '(accepted, m) :=
    try_count MAX_CONNECTIONS_PER_IP (connections_per_ip t) (sa_ip addr) in
  (accepted, set_ips t m).

Definition track_connection (t : ConnectionTracker) (addr : SocketAddr) : ConnectionTracker :=
  set_ips t (<[sa_ip addr := connections_from t (sa_ip addr) + 1]> (connections_per_ip t)).

Definition untrack_connection (t : ConnectionTracker) (addr : SocketAddr) : ConnectionTracker :=
  set_ips t (uncount (connections_per_ip t) (sa_ip addr)).

Definition cleanup_stale_entries (t : ConnectionTracker) (active : list IpAddr)
  : ConnectionTracker :=
  let m := filter (fun e => 0 < e.2) (connections_per_ip t) in
  set_ips t (if MAX_TRACKED_IPS <? Z.of_nat (size m)
             then filter (fun e => e.1 ∈ active) m else m).

(** One turn of the loop of [allocate] after [current] was loaded: [None] gives
    up, [Some next] is the value to exchange. *)
Definition allocate_next (budget current bytes : Z) : option Z :=
  match checked_add u64_max current bytes with
  | None => None
  | Some next => if budget <? next then None else Some next
  end.

(** [allocate] without contention, [deallocate]. *)
Definition set_used (t : ConnectionTracker) (used : Z) : ConnectionTracker :=
  mkTracker (connections_per_ip t) (outbound_per_subnet t) used (memory_budget t).
Definition allocate (t : ConnectionTracker) (bytes : Z) : bool * ConnectionTracker :=
  match allocate_next (memory_budget t) (memory_used t) bytes with
  | None => (false, t)
  | Some next => (true, set_used t next)
  end.
Definition deallocate (t : ConnectionTracker) (bytes : Z) : ConnectionTracker :=
  set_used t (wrap64 (memory_used t - bytes)).
End Tracker.

(** ** Memory reservations under contention

    Each connection owns one [MemoryReservation].  A thread is idle, or inside
    [allocate] with the bytes it asks for and the value it loaded.  A step is one
    atomic access; the weak exchange may fail although the value matches. *)

Inductive alloc_phase := AIdle | AWants (bytes : Z) | ALoaded (bytes current : Z).
Record alloc_thread := mkAlloc { at_held : Z; at_phase : alloc_phase }.

Inductive alloc_step (budget : Z) :
  Z * list alloc_thread -> Z * list alloc_thread -> Prop :=
| step_try_grow used ts i t bytes :
    ts !! i = Some t -> at_phase t = AIdle -> 0 < bytes <= u64_max ->
    alloc_step budget (used, ts) (used, <[i := mkAlloc (at_held t) (AWants bytes)]> ts)
| step_load used ts i t bytes :
    ts !! i = Some t -> at_phase t = AWants bytes ->
    alloc_step budget (used, ts) (used, <[i := mkAlloc (at_held t) (ALoaded bytes used)]> ts)
| step_give_up used ts i t bytes current :
    ts !! i = Some t -> at_phase t = ALoaded bytes current ->
    Tracker.allocate_next budget current bytes = None ->
    alloc_step budget (used, ts) (used, <[i := mkAlloc (at_held t) AIdle]> ts)
| step_exchange used ts i t bytes current next :
    ts !! i = Some t -> at_phase t = ALoaded bytes current ->
    Tracker.allocate_next budget current bytes = Some next -> used = current ->
    alloc_step budget (used, ts)
      (next, <[i := mkAlloc (wrap64 (at_held t + bytes)) AIdle]> ts)
| step_exchange_fails used ts i t bytes current next :
    ts !! i = Some t -> at_phase t = ALoaded bytes current ->
    Tracker.allocate_next budget current bytes = Some next ->
    alloc_step budget (used, ts) (used, <[i := mkAlloc (at_held t) (AWants bytes)]> ts)
| step_drop used ts i t :
    ts !! i = Some t -> at_phase t = AIdle -> at_held t <> 0 ->
    alloc_step budget (used, ts)
      (wrap64 (used - at_held t), <[i := mkAlloc 0 AIdle]> ts).

(** ** Peers *)

Abbreviation PeerId := Hash.

Inductive PeerState := Connecting | VersionReceived | Connected.
#[export] Instance PeerState_eq_dec : EqDecision PeerState.
Proof. solve_decision. Defined.

(** The fields that admission and eviction read; telemetry (heights, byte counts,
    user agent, capabilities) is left out. *)
Record PeerInfo := mkPeer {
  pi_id : PeerId;
  pi_addr : SocketAddr;
  pi_state : PeerState;
  last_seen : Z;
  connected_at : Z;
  reputation : Z;
  pi_outbound : bool;
  encrypted : bool;
  connection_token : Z;
  eclipse_slot : option SocketAddr
}.

Definition wrap_i32 (x : Z) : Z := (x + 2147483648) mod 4294967296 - 2147483648.

Module Peer.
Definition new (id : PeerId) (addr : SocketAddr) (outbound : bool) (now token : Z) : PeerInfo :=
  mkPeer id addr Connecting now now 100 outbound false token None.
Definition set_reputation (p : PeerInfo) (r : Z) : PeerInfo :=
  mkPeer (pi_id p) (pi_addr p) (pi_state p) (last_seen p) (connected_at p) r (pi_outbound p)
    (encrypted p) (connection_token p) (eclipse_slot p).
Definition touch (p : PeerInfo) (now : Z) : PeerInfo :=
  mkPeer (pi_id p) (pi_addr p) (pi_state p) now (connected_at p) (reputation p) (pi_outbound p)
    (encrypted p) (connection_token p) (eclipse_slot p).
Definition is_stale (p : PeerInfo) (now timeout : Z) : bool :=
  timeout <? sat_sub now (last_seen p).
Definition adjust_reputation (p : PeerInfo) (delta : Z) : PeerInfo :=
  set_reputation p (clamp (-100) 100 (wrap_i32 (reputation p + delta))).
Definition should_ban (p : PeerInfo) : bool := reputation p <=? -50.
Definition decay_reputation (p : PeerInfo) (decay_rate neutral_reputation : Z) : PeerInfo :=
  let neutral := clamp (-100) 100 neutral_reputation in
  if neutral <? reputation p then
    set_reputation p (Z.max (wrap_i32 (reputation p - decay_rate)) neutral)
  else if reputation p <? neutral then
    set_reputation p (Z.min (wrap_i32 (reputation p + decay_rate)) neutral)
  else p.
Definition decay_reputation_default (p : PeerInfo) : PeerInfo := decay_reputation p 1 50.
End Peer.

(** ** Relay scores *)

Definition RELAY_SCORE_MAX : Z := 10000.
Definition DEPOSIT_PER_BLOCK : Z := 1000.
Definition EVAP_NUM : Z := 9.
Definition EVAP_DEN : Z := 10.

Abbreviation RelayScoreMap := (gmap PeerId Z).

Module Relay.
Definition credit_block (m : RelayScoreMap) (peer : PeerId) : RelayScoreMap :=
  <[peer := Z.min (sat_add u32_max (default 0 (m !! peer)) DEPOSIT_PER_BLOCK)
              RELAY_SCORE_MAX]> m.
Definition evaporate (m : RelayScoreMap) : RelayScoreMap :=
  filter (fun e => 0 < e.2) ((fun v => wrap32 (v * EVAP_NUM) / EVAP_DEN) <$> m).
Definition forget (m : RelayScoreMap) (peer : PeerId) : RelayScoreMap := delete peer m.
Definition score (m : RelayScoreMap) (peer : PeerId) : Z := default 0 (m !! peer).

(** The comparison of [top]: higher score first, then the smaller identifier. *)
Definition ranks_before (a b : PeerId * Z) : Prop :=
  b.2 < a.2 \/ (a.2 = b.2 /\ bytes_ltb b.1 a.1 = false).
#[export] Instance ranks_before_dec a b : Decision (ranks_before a b).
Proof. unfold ranks_before. apply _. Defined.
Definition top (m : RelayScoreMap) (n : nat) : list PeerId :=
  (take n (merge_sort ranks_before (map_to_list m))).*1.
End Relay.

(** ** Eviction *)

(** The order in which the hash maps are iterated: unspecified, but every row
    once. *)
Class MapOrder := {
  peers_iter : gmap PeerId PeerInfo -> list PeerInfo;
  groups_iter : gmap Z (list PeerInfo) -> list (Z * list PeerInfo);
  peers_iter_perm m : peers_iter m ≡ₚ (map_to_list m).*2;
  groups_iter_perm m : groups_iter m ≡ₚ map_to_list m
}.
#[export, refine] Instance list_order : MapOrder :=
  {| peers_iter m := (map_to_list m).*2; groups_iter m := map_to_list m |}.
Proof. all: done. Defined.

Definition PROTECT_PER_AXIS : nat := 4.
Definition MIN_AGE_BEFORE_EVICT : Z := 30 * 1000000000.
Definition REPUTATION_PROTECT_FLOOR : Z := 80.

Module Eviction.
Section eviction.
Context `{MapOrder}.
Implicit Types p q : PeerInfo.

Definition netgroup (addr : SocketAddr) : Z :=
  match sa_ip addr with
  | V4 octets => nth 0 octets 0 * 256 + nth 1 octets 0
  | V6 segments =>
      Z.lor (Z.lor (Z.shiftl 1 32) (Z.shiftl (nth 0 segments 0) 16)) (nth 1 segments 0)
  end.

(** The three filters in front of the protection rules. *)
Definition candidate (now : Z) p : bool :=
  negb (pi_outbound p) && (MIN_AGE_BEFORE_EVICT <=? sat_sub now (connected_at p))
  && (reputation p <? REPUTATION_PROTECT_FLOOR).
Definition candidates (now : Z) (peers : list PeerInfo) : list PeerInfo :=
  filter (fun p => candidate now p = true) peers.

(** The sort orders of the four axes; [merge_sort] is stable, as [sort_by]. *)
Definition by_age p q : Prop := connected_at p <= connected_at q.
Definition by_active p q : Prop := last_seen q <= last_seen p.
Definition by_rep p q : Prop := reputation q <= reputation p.
Definition by_relay (relay_scores : RelayScoreMap) p q : Prop :=
  Relay.score relay_scores (pi_id q) <= Relay.score relay_scores (pi_id p).
#[export] Instance by_age_dec p q : Decision (by_age p q) := Z_le_dec _ _.
#[export] Instance by_active_dec p q : Decision (by_active p q) := Z_le_dec _ _.
#[export] Instance by_rep_dec p q : Decision (by_rep p q) := Z_le_dec _ _.
#[export] Instance by_relay_dec r p q : Decision (by_relay r p q) := Z_le_dec _ _.

Definition protect_age (l : list PeerInfo) : list PeerInfo :=
  take PROTECT_PER_AXIS (merge_sort by_age l).
Definition protect_active (l : list PeerInfo) : list PeerInfo :=
  take PROTECT_PER_AXIS (merge_sort by_active l).
Definition protect_rep (l : list PeerInfo) : list PeerInfo :=
  take PROTECT_PER_AXIS (merge_sort by_rep l).
Definition protect_relay (relay_scores : RelayScoreMap) (l : list PeerInfo) : list PeerInfo :=
  take PROTECT_PER_AXIS
    (filter (fun p => 0 < Relay.score relay_scores (pi_id p))
       (merge_sort (by_relay relay_scores) l)).

Definition protected_ids (relay_scores : RelayScoreMap) (l : list PeerInfo) : list PeerId :=
  pi_id <$> protect_age l ++ protect_active l ++ protect_rep l ++ protect_relay relay_scores l.

Definition unprotected (relay_scores : RelayScoreMap) (l : list PeerInfo) : list PeerInfo :=
  filter (fun p => pi_id p ∉ protected_ids relay_scores l) l.

(** [groups.entry(netgroup(p.addr)).or_default().push(p)]. *)
Definition push_group (m : gmap Z (list PeerInfo)) p : gmap Z (list PeerInfo) :=
  <[netgroup (pi_addr p) := default [] (m !! netgroup (pi_addr p)) ++ [p]]> m.
Definition groups (l : list PeerInfo) : gmap Z (list PeerInfo) := foldl push_group ∅ l.

Definition group_cmp (a b : Z * list PeerInfo) : comparison :=
  (length a.2 ?= length b.2)%nat.

Definition then_with (a b : comparison) : comparison := match a with Eq => b | c => c end.
Definition evict_cmp p q : comparison :=
  then_with (connected_at p ?= connected_at q)
    (then_with (reputation q ?= reputation p) (Z.b2z (encrypted p) ?= Z.b2z (encrypted q))).

Definition select_inbound_to_evict (peers : list PeerInfo) (now : Z)
    (relay_scores : RelayScoreMap) : option PeerId :=
  let l := candidates now peers in
  if decide (l = []) then None
  else
    let l := unprotected relay_scores l in
    if decide (l = []) then None
    else
      largest_group ← max_by group_cmp (groups_iter (groups l));
      evictee ← max_by evict_cmp largest_group.2;
      Some (pi_id evictee).
End eviction.
End Eviction.

(** ** The node

    The state that admission and disconnection share.  A task is a connection that
    was accepted or dialled; it enters the peer table when its handshake is done
    and its sender is the channel the table of senders holds.  The answers of the
    ban list, the clock, the handshake and the address book are arguments. *)

Definition MAX_INBOUND : Z := 64.
Definition PEER_TIMEOUT : Z := 300 * 1000000000.

Record Task := mkTask {
  tk_token : Z;
  tk_addr : SocketAddr;
  tk_outbound : bool;
  tk_slot : option SocketAddr;      (* until it moves into the peer table *)
  tk_id : option PeerId             (* once registered *)
}.

Record NetNode := mkNetNode {
  nn_tracker : ConnectionTracker;
  nn_peers : gmap PeerId PeerInfo;
  nn_senders : gmap PeerId Z;
  nn_relay : RelayScoreMap;
  nn_tasks : list Task;
  nn_next : Z
}.

Module Net.
Section net.
Context `{MapOrder}.
Implicit Types n : NetNode.

Definition new (budget : Z) : NetNode := mkNetNode (Tracker.new budget) ∅ ∅ ∅ [] 0.

Definition set_tracker n (t : ConnectionTracker) : NetNode :=
  mkNetNode t (nn_peers n) (nn_senders n) (nn_relay n) (nn_tasks n) (nn_next n).
Definition set_relay n (r : RelayScoreMap) : NetNode :=
  mkNetNode (nn_tracker n) (nn_peers n) (nn_senders n) r (nn_tasks n) (nn_next n).
Definition set_tasks n (l : list Task) : NetNode :=
  mkNetNode (nn_tracker n) (nn_peers n) (nn_senders n) (nn_relay n) l (nn_next n).
Definition set_senders n (m : gmap PeerId Z) : NetNode :=
  mkNetNode (nn_tracker n) (nn_peers n) m (nn_relay n) (nn_tasks n) (nn_next n).

(** Removing or overwriting a row of the peer table drops its outbound slot. *)
Definition slot_of n (id : PeerId) : option SocketAddr :=
  nn_peers n !! id ≫= eclipse_slot.
Definition remove_peer n (id : PeerId) : NetNode :=
  mkNetNode (Tracker.drop_slot (nn_tracker n) (slot_of n id)) (delete id (nn_peers n))
    (nn_senders n) (nn_relay n) (nn_tasks n) (nn_next n).
Definition insert_peer n (p : PeerInfo) : NetNode :=
  mkNetNode (Tracker.drop_slot (nn_tracker n) (slot_of n (pi_id p)))
    (<[pi_id p := p]> (nn_peers n)) (nn_senders n) (nn_relay n) (nn_tasks n) (nn_next n).
Definition remove_sender n (id : PeerId) : NetNode := set_senders n (delete id (nn_senders n)).
Definition untrack n (addr : SocketAddr) : NetNode :=
  set_tracker n (Tracker.untrack_connection (nn_tracker n) addr).

Definition spawn n (addr : SocketAddr) (outbound : bool) (slot : option SocketAddr) : NetNode :=
  mkNetNode (nn_tracker n) (nn_peers n) (nn_senders n) (nn_relay n)
    (nn_tasks n ++ [mkTask (nn_next n) addr outbound slot None]) (nn_next n + 1).

Definition is_loopback (ip : IpAddr) : bool :=
  match ip with
  | V4 octets => nth 0 octets 0 =? 127
  | V6 segments => bool_decide (segments = [0; 0; 0; 0; 0; 0; 0; 1])
  end.
Definition is_unspecified (ip : IpAddr) : bool :=
  match ip with
  | V4 octets => bool_decide (octets = [0; 0; 0; 0])
  | V6 segments => bool_decide (segments = [0; 0; 0; 0; 0; 0; 0; 0])
  end.
Definition to_ipv4_mapped (segments : list Z) : option IpAddr :=
  match segments with
  | [0; 0; 0; 0; 0; 65535; high; low] =>
      Some (V4 [Z.shiftr high 8; Z.land high 255; Z.shiftr low 8; Z.land low 255])
  | _ => None
  end.

Definition inbound_snapshot n : list PeerInfo :=
  filter (fun p => pi_outbound p = false) (peers_iter (nn_peers n)).

(** One accepted socket in [spawn_listener_acceptor]; the answer says whether the
    connection got a task. *)
Definition accept n (onion_only banned : bool) (addr : SocketAddr) (now : Z) : bool * NetNode :=
  if onion_only && negb (is_loopback (sa_ip addr)) then (false, n)
  else if banned then (false, n)
  else
    let '(tracked, t) := Tracker.try_track_connection (nn_tracker n) addr in
    let n := set_tracker n t in
    if negb tracked then (false, n)
    else
      let inbound_count := Z.of_nat (length (inbound_snapshot n)) in
      if MAX_INBOUND <=? inbound_count then
        match Eviction.select_inbound_to_evict (inbound_snapshot n) now (nn_relay n) with
        | Some victim_id =>
            let n := remove_sender n victim_id in
            match nn_peers n !! victim_id with
            | Some victim =>
                (true, spawn (untrack (remove_peer n victim_id) (pi_addr victim))
                         addr false None)
            | None => (true, spawn n addr false None)
            end
        | None => (false, untrack n addr)
        end
      else (true, spawn n addr false None).

Definition find_task n (token : Z) : option Task :=
  head (filter (fun k => tk_token k = token) (nn_tasks n)).

(** [handle_connection] up to the insertion in both tables: [peer_id] is the
    identity the handshake settled on. *)
Definition register n (token : Z) (peer_id : PeerId) (enc : bool) (now : Z) : NetNode :=
  match find_task n token with
  | Some k =>
      match tk_id k with
      | Some _ => n
      | None =>
          let n := insert_peer n (mkPeer peer_id (tk_addr k) Connecting now now 100
                                    (tk_outbound k) enc token (tk_slot k)) in
          let n := set_senders n (<[peer_id := token]> (nn_senders n)) in
          set_tasks n ((fun j => if tk_token j =? token
            then mkTask token (tk_addr k) (tk_outbound k) None (Some peer_id)
            else j) <$> nn_tasks n)
      end
  | None => n
  end.

(** [cleanup_connection]: only the rows this connection owns. *)
Definition cleanup_connection n (peer_id : PeerId) (token : Z) : NetNode :=
  let n := if bool_decide (nn_senders n !! peer_id = Some token)
           then remove_sender n peer_id else n in
  if bool_decide (connection_token <$> nn_peers n !! peer_id = Some token)
  then remove_peer n peer_id else n.

(** The end of a connection task: clean up if it was registered, drop the slot it
    still owns, and for an inbound one untrack the address. *)
Definition finish n (token : Z) : NetNode :=
  match find_task n token with
  | None => n
  | Some k =>
      let n := match tk_id k with
               | Some id => cleanup_connection n id token
               | None => set_tracker n (Tracker.drop_slot (nn_tracker n) (tk_slot k))
               end in
      let n := if tk_outbound k then n else untrack n (tk_addr k) in
      set_tasks n (filter (fun j => tk_token j <> token) (nn_tasks n))
  end.

(** [disconnect_peer]; [ban_peer] makes the same changes to this state. *)
Definition disconnect_peer n (id : PeerId) : NetNode :=
  let n := match nn_peers n !! id with Some p => untrack n (pi_addr p) | None => n end in
  remove_peer (remove_sender n id) id.
Definition ban_peer n (id : PeerId) : NetNode :=
  let n := match nn_peers n !! id with Some p => untrack n (pi_addr p) | None => n end in
  remove_sender (remove_peer n id) id.

(** The stale-peer pass of [run_cleanup_tick]. *)
Definition cleanup_tick n (now : Z) : NetNode :=
  let stale := pi_id <$> filter (fun p => Peer.is_stale p now PEER_TIMEOUT = true)
                           (peers_iter (nn_peers n)) in
  foldl (fun n id =>
    let n := match nn_peers n !! id with Some p => untrack n (pi_addr p) | None => n end in
    remove_sender (remove_peer n id) id) n stale.

(** [Iterator::min_by_key] on the connection time: the first minimum. *)
Definition oldest (l : list PeerInfo) : option PeerInfo :=
  match l with
  | [] => None
  | p :: l => Some (foldl (fun p q => if connected_at q <? connected_at p then q else p) p l)
  end.
Definition rotate_outbound_peer n : NetNode :=
  let outbound := filter (fun p => pi_outbound p = true /\ pi_state p = Connected)
                    (peers_iter (nn_peers n)) in
  if (length outbound <=? 3)%nat then n
  else match oldest outbound with
       | None => n
       | Some p =>
           let n := remove_sender n (pi_id p) in
           match nn_peers n !! pi_id p with
           | Some peer => untrack (remove_peer n (pi_id p)) (pi_addr peer)
           | None => n
           end
       end.

Definition handle_reject n (id : PeerId) : NetNode :=
  match nn_peers n !! id with
  | Some p => mkNetNode (nn_tracker n) (<[id := Peer.adjust_reputation p (-5)]> (nn_peers n))
                (nn_senders n) (nn_relay n) (nn_tasks n) (nn_next n)
  | None => n
  end.

(** [observe_outbound_health]: the count it returns, and the counters rebuilt when
    they differ by two or more. *)
Definition outbound_peers n : list PeerInfo :=
  filter (fun p => pi_outbound p = true) (peers_iter (nn_peers n)).
Definition observe_outbound_health n : Z * NetNode :=
  let outbound_count := Z.of_nat (length (outbound_peers n)) in
  let snapshot := Tracker.outbound_subnet_snapshot (nn_tracker n) in
  if decide (snapshot = []) then (outbound_count, n)
  else
    let drift := Z.abs (Tracker.sum_counts snapshot - outbound_count) in
    if 2 <=? drift then
      (outbound_count,
       set_tracker n (Tracker.reconcile_outbound_subnets (nn_tracker n)
                        (pi_addr <$> outbound_peers n)).2)
    else (outbound_count, n).

Definition is_self_dial (addr : SocketAddr) (listen_port : Z) : bool :=
  if negb (sa_port addr =? listen_port) then false
  else
    is_loopback (sa_ip addr) || is_unspecified (sa_ip addr) ||
    match sa_ip addr with
    | V4 _ => false
    | V6 segments =>
        match to_ipv4_mapped segments with
        | Some v4 => is_loopback v4 || is_unspecified v4
        | None => false
        end
    end.

(** One tick of [spawn_outbound_connector] with the address the book returns;
    [blocked] is the answer of the ban list and the backoff. *)
Definition connector_tick n (max_outbound listen_port : Z) (onion_only blocked : bool)
    (addr : option SocketAddr) : NetNode :=
  let '(outbound_count, n) := observe_outbound_health n in
  if max_outbound <=? outbound_count then n
  else match addr with
       | None => n
       | Some addr =>
           if onion_only then n
           else if is_self_dial addr listen_port then n
           else if blocked then n
           else if existsb (fun p => bool_decide (pi_addr p = addr)) (peers_iter (nn_peers n))
           then n
           else
             let '(slot, t) := Tracker.try_track_outbound_subnet_owned (nn_tracker n) addr in
             let n := set_tracker n t in
             match slot with
             | Some _ => spawn n addr true slot
             | None => n
             end
       end.

(** What can happen to the node, in any order. *)
Inductive event :=
| EvAccept (onion_only banned : bool) (addr : SocketAddr) (now : Z)
| EvRegister (token : Z) (peer_id : PeerId) (enc : bool) (now : Z)
| EvFinish (token : Z)
| EvDisconnect (id : PeerId)
| EvBan (id : PeerId)
| EvCleanup (now : Z)
| EvRotate
| EvReject (id : PeerId)
| EvBlock (id : PeerId)
| EvEvaporate
| EvConnector (max_outbound listen_port : Z) (onion_only blocked : bool)
    (addr : option SocketAddr).

Definition step n (e : event) : NetNode :=
  match e with
  | EvAccept onion banned addr now => (accept n onion banned addr now).2
  | EvRegister token id enc now => register n token id enc now
  | EvFinish token => finish n token
  | EvDisconnect id => disconnect_peer n id
  | EvBan id => ban_peer n id
  | EvCleanup now => cleanup_tick n now
  | EvRotate => rotate_outbound_peer n
  | EvReject id => handle_reject n id
  | EvBlock id => set_relay n (Relay.credit_block (nn_relay n) id)
  | EvEvaporate => set_relay n (Relay.evaporate (nn_relay n))
  | EvConnector m p o b a => connector_tick n m p o b a
  end.
Definition run n (es : list event) : NetNode := foldl step n es.
End net.
End Net.
