(* ===== verification/PeersRules.v ===== *)
(** * Peer admission: theorems

    Counters of the tracker, the memory budget under contention, the choice of the
    peer to evict, relay scores, and what the node makes of them. *)

From stdpp Require Import prelude gmap sorting.
From Stdlib Require Import ZArith Lia.
From S2P Require Import Prelude.
From S2P Require Import Difficulty.
From S2P Require Import ForkChoice.
From S2P Require Import Peers.

Local Open Scope Z_scope.

(** ** Counters *)

Section counters.
Context `{Countable K}.
Implicit Types (m : gmap K Z) (k : K).

Definition counted m (f : K -> Z) : Prop :=
  forall k, default 0 (m !! k) = f k /\ (forall c, m !! k = Some c -> 0 < c).

Lemma try_count_spec cap m k b m' (f : K -> Z) :
  0 < cap -> counted m f -> Tracker.try_count cap m k = (b, m') ->
  b = (f k <? cap) /\
  (if b then counted m' (fun j => if decide (j = k) then f k + 1 else f j) else m' = m).
Proof.
  intros Hcap Hm. destruct (Hm k) as [Hk Hp]. unfold Tracker.try_count.
  destruct (m !! k) as [c|] eqn:E; cbn in Hk.
  - specialize (Hp c eq_refl). subst c. destruct (f k <? cap) eqn:L; intros [= <- <-];
      (split; [done|]); [|done].
    intros j. destruct (decide (j = k)) as [->|Hj].
    + rewrite lookup_insert_eq. cbn. split; [done|]. intros ? [= <-]. lia.
    + rewrite lookup_insert_ne by done. apply Hm.
  - intros [= <- <-]. split; [symmetry; apply Z.ltb_lt; lia|].
    intros j. destruct (decide (j = k)) as [->|Hj].
    + rewrite lookup_insert_eq. cbn. split; [lia|]. intros ? [= <-]. lia.
    + rewrite lookup_insert_ne by done. apply Hm.
Qed.

Lemma uncount_spec m k (f : K -> Z) :
  counted m f -> counted (Tracker.uncount m k)
                   (fun j => if decide (j = k) then sat_sub (f k) 1 else f j).
Proof.
  intros Hm. destruct (Hm k) as [Hk Hp]. unfold Tracker.uncount.
  destruct (m !! k) as [c|] eqn:E; cbn in Hk.
  - specialize (Hp c eq_refl). subst c. destruct (Z.eqb_spec (sat_sub (f k) 1) 0) as [L|L];
      intros j; destruct (decide (j = k)) as [->|Hj].
    + rewrite lookup_delete_eq. cbn. split; [done|]. by intros ?.
    + rewrite lookup_delete_ne by done. apply Hm.
    + rewrite lookup_insert_eq. cbn. split; [done|]. intros ? [= <-].
      unfold sat_sub in *. lia.
    + rewrite lookup_insert_ne by done. apply Hm.
  - intros j. destruct (decide (j = k)) as [->|Hj]; [|apply Hm].
    rewrite E, <- Hk. cbn. split; [done|]. by intros ?.
Qed.

Lemma counted_ext m (f g : K -> Z) : (forall k, f k = g k) -> counted m f -> counted m g.
Proof. intros Hfg Hm k. rewrite <- Hfg. apply Hm. Qed.
End counters.

(** ** Memory budget *)

Fixpoint held_sum (ts : list alloc_thread) : Z :=
  match ts with [] => 0 | t :: ts => at_held t + held_sum ts end.

Lemma held_sum_insert ts i t t' :
  ts !! i = Some t -> held_sum (<[i := t']> ts) = held_sum ts - at_held t + at_held t'.
Proof.
  revert i. induction ts as [|u ts IH]; intros [|i]; cbn; try done.
  - intros [= ->]. lia.
  - intros Hi. trans (at_held u + held_sum (<[i := t']> ts)); [done|]. rewrite (IH i Hi). lia.
Qed.

Lemma held_sum_elem ts i t :
  Forall (fun t => 0 <= at_held t) ts -> ts !! i = Some t -> 0 <= at_held t <= held_sum ts.
Proof.
  intros Hf. revert i. induction Hf as [|u ts Hu Hf IH]; intros [|i]; cbn; try done.
  - intros [= ->]. assert (0 <= held_sum ts); [|lia].
    clear -Hf. induction Hf; cbn; lia.
  - intros Hi. specialize (IH i Hi). lia.
Qed.

Record alloc_ok (budget used : Z) (ts : list alloc_thread) : Prop := {
  ao_used : used = held_sum ts;
  ao_held : Forall (fun t => 0 <= at_held t) ts;
  ao_budget : used <= budget;
  ao_bytes : Forall (fun t => match at_phase t with
                              | AIdle => True
                              | AWants b | ALoaded b _ => 0 < b
                              end) ts
}.

Lemma alloc_ok_phase budget used ts i t ph :
  alloc_ok budget used ts -> ts !! i = Some t ->
  (match ph with AIdle => True | AWants b | ALoaded b _ => 0 < b end) ->
  alloc_ok budget used (<[i := mkAlloc (at_held t) ph]> ts).
Proof.
  intros [Hu Hh Hb Hp] Hi Hph. destruct (held_sum_elem ts i t Hh Hi) as [Hpos _].
  split; [|by apply Forall_insert|done|by apply Forall_insert].
  rewrite (held_sum_insert ts i t) by done. cbn. lia.
Qed.

Lemma alloc_ok_step budget s s' :
  0 <= budget <= u64_max -> alloc_step budget s s' ->
  alloc_ok budget s.1 s.2 -> alloc_ok budget s'.1 s'.2.
Proof.
  intros HB Hst Hok. destruct Hst; cbn in *.
  - eapply alloc_ok_phase; [done..|lia].
  - eapply alloc_ok_phase; [done..|]. pose proof (ao_bytes _ _ _ Hok) as Hb.
    eapply Forall_lookup_1 in Hb; [|done]. by rewrite H0 in Hb.
  - by eapply alloc_ok_phase.
  - destruct Hok as [Hu Hh Hb Hp]. destruct (held_sum_elem ts i t Hh H) as [Hpos Hle].
    pose proof (Forall_lookup_1 _ _ _ _ Hp H) as Hby. cbn in Hby. rewrite H0 in Hby.
    unfold Tracker.allocate_next, checked_add in H1.
    destruct (current + bytes <=? u64_max) eqn:E1; [|done].
    destruct (budget <? current + bytes) eqn:E2; [done|]. injection H1 as <-.
    assert (wrap64 (at_held t + bytes) = at_held t + bytes) as Hw
      by (apply wrap64_small; unfold is_u64, u64_max in *; lia).
    rewrite Hw. split; [|by apply Forall_insert; [|cbn; lia]|lia|by apply Forall_insert].
    rewrite (held_sum_insert ts i t) by done. cbn. lia.
  - eapply alloc_ok_phase; [done..|]. pose proof (ao_bytes _ _ _ Hok) as Hb.
    eapply Forall_lookup_1 in Hb; [|done]. by rewrite H0 in Hb.
  - destruct Hok as [Hu Hh Hb Hp]. destruct (held_sum_elem ts i t Hh H) as [Hpos Hle].
    assert (wrap64 (used - at_held t) = used - at_held t) as Hw
      by (apply wrap64_small; unfold is_u64, u64_max in *; lia).
    rewrite Hw. split; [|by apply Forall_insert|lia|by apply Forall_insert].
    rewrite (held_sum_insert ts i t) by done. cbn. lia.
Qed.

(** C23: Whatever the interleaving of the atomic accesses of any number of
    connections that grow and drop their reservations, spurious failures of the
    weak exchange included, the counter is exactly the sum of the bytes the live
    reservations hold, no counter wraps, and the sum stays within the budget. *)
Theorem budget_never_exceeded budget threads used ts :
  0 <= budget <= u64_max ->
  rtc (alloc_step budget) (0, replicate threads (mkAlloc 0 AIdle)) (used, ts) ->
  used = held_sum ts /\ 0 <= used <= budget /\ Forall (fun t => 0 <= at_held t <= budget) ts.
Proof.
  intros HB Hr.
  assert (alloc_ok budget used ts) as [Hu Hh Hb _].
  { change (alloc_ok budget (used, ts).1 (used, ts).2).
    refine (rtc_ind_r (fun s => alloc_ok budget s.1 s.2) _ _ _ _ Hr).
    - cbn. clear -HB. induction threads as [|n IH]; cbn; [by split; cbn; [|constructor|lia|constructor]|].
      destruct IH as [Hu Hh Hb Hp]. split; cbn; [lia|by constructor|lia|by constructor].
    - intros y z _ Hst Hok. by eapply alloc_ok_step. }
  split; [done|]. assert (0 <= used).
  { subst used. clear -Hh. induction Hh; cbn; lia. }
  split; [lia|]. rewrite Forall_lookup. intros i t Hi.
  pose proof (held_sum_elem ts i t Hh Hi). lia.
Qed.

(** Two connections race for a budget that fits one of them. *)
Lemma budget_never_exceeded_witness :
  0 <= 10 <= u64_max /\
  (7 = held_sum [mkAlloc 7 AIdle; mkAlloc 0 AIdle] /\ 0 <= 7 <= 10 /\
   Forall (fun t => 0 <= at_held t <= 10) [mkAlloc 7 AIdle; mkAlloc 0 AIdle]).
Proof.
  split; [unfold u64_max; lia|].
  apply (budget_never_exceeded 10 2); [unfold u64_max; lia|].
  eapply rtc_l; [apply (step_try_grow 10 0 _ 0 (mkAlloc 0 AIdle) 7); [done..|unfold u64_max; lia]|].
  eapply rtc_l; [apply (step_try_grow 10 0 _ 1 (mkAlloc 0 AIdle) 8); [done..|unfold u64_max; lia]|].
  eapply rtc_l; [eapply (step_load 10 0 _ 0); reflexivity|].
  eapply rtc_l; [eapply (step_load 10 0 _ 1); reflexivity|].
  eapply rtc_l; [eapply (step_exchange 10 0 _ 0); reflexivity|].
  eapply rtc_l; [eapply (step_exchange_fails 10 7 _ 1); reflexivity|].
  eapply rtc_l; [eapply (step_load 10 7 _ 1); reflexivity|].
  eapply rtc_l; [eapply (step_give_up 10 7 _ 1); reflexivity|].
  apply rtc_refl.
Defined.

(** ** Ranks *)

Section ranks.
Context {A : Type}.
Implicit Types (l : list A) (x y z : A).

(** [x] stays behind [n] others of [l] in the order [R]. *)
Definition outranked (R : A -> A -> Prop) (n : nat) x l : Prop :=
  exists prot, prot ⊆+ l /\ length prot = n /\ (x ∉ prot) /\ Forall (fun y => R y x) prot.

Lemma outranked_take (R : A -> A -> Prop) n x l l' :
  StronglySorted R l' -> l' ⊆+ l -> x ∈ l' -> x ∉ take n l' -> outranked R n x l.
Proof.
  intros Hs Hsub Hx Hn. exists (take n l').
  assert (x ∈ drop n l') as Hd.
  { rewrite <- (take_drop n l') in Hx. apply elem_of_app in Hx. tauto. }
  split; [|split; [|split; [done|]]].
  - trans l'; [|done]. apply sublist_submseteq, sublist_take.
  - apply length_take_le. destruct (decide (n <= length l')%nat) as [|Hl]; [done|].
    rewrite drop_ge in Hd by lia. by apply elem_of_nil in Hd.
  - rewrite <- (take_drop n l') in Hs. rewrite Forall_forall. intros y Hy.
    rewrite StronglySorted_app in Hs. destruct Hs as (Hc & _ & _). by apply Hc.
Qed.
End ranks.

(** ** Eviction *)

Module EvictionRules.
Import Eviction.
Section eviction.
Context `{MapOrder}.
Implicit Types (p q : PeerInfo) (l : list PeerInfo).

#[local] Instance by_age_trans : Transitive by_age.
Proof. intros ???. unfold by_age. lia. Qed.
#[local] Instance by_age_total : Total by_age.
Proof. intros ??. unfold by_age. lia. Qed.
#[local] Instance by_active_trans : Transitive by_active.
Proof. intros ???. unfold by_active. lia. Qed.
#[local] Instance by_active_total : Total by_active.
Proof. intros ??. unfold by_active. lia. Qed.
#[local] Instance by_rep_trans : Transitive by_rep.
Proof. intros ???. unfold by_rep. lia. Qed.
#[local] Instance by_rep_total : Total by_rep.
Proof. intros ??. unfold by_rep. lia. Qed.
#[local] Instance by_relay_trans r : Transitive (by_relay r).
Proof. intros ???. unfold by_relay. lia. Qed.
#[local] Instance by_relay_total r : Total (by_relay r).
Proof. intros ??. unfold by_relay. lia. Qed.

Definition in_group (g : Z) l : list PeerInfo :=
  filter (fun p => netgroup (pi_addr p) = g) l.

Lemma groups_lookup l g :
  groups l !! g = if decide (in_group g l = []) then None else Some (in_group g l).
Proof.
  unfold groups. induction l as [|p l IH] using rev_ind; [by rewrite decide_True|].
  rewrite foldl_app. cbn. unfold push_group, in_group in *. rewrite filter_app.
  destruct (decide (netgroup (pi_addr p) = g)) as [<-|Hg].
  - rewrite lookup_insert_eq, filter_cons_True, filter_nil by done. rewrite IH.
    destruct (decide (filter _ l = [])) as [->|Hl]; [done|]. cbn.
    by rewrite decide_False by (intros E; by apply app_nil in E as [_ ?]).
  - rewrite lookup_insert_ne, filter_cons_False, filter_nil, app_nil_r by done. exact IH.
Qed.

Lemma groups_nonempty l : l <> [] -> groups l <> ∅.
Proof.
  destruct l as [|p l]; [done|]. intros _ E.
  pose proof (groups_lookup (p :: l) (netgroup (pi_addr p))) as Hl.
  rewrite E, lookup_empty in Hl. rewrite decide_False in Hl; [done|].
  unfold in_group. by rewrite filter_cons_True.
Qed.

Lemma group_cmp_trans a b c :
  group_cmp a b <> Gt -> group_cmp b c <> Gt -> group_cmp a c <> Gt.
Proof. unfold group_cmp. rewrite !Nat.compare_ngt_iff. lia. Qed.
Lemma group_cmp_asym a b : group_cmp a b = Gt -> group_cmp b a <> Gt.
Proof. unfold group_cmp. rewrite Nat.compare_gt_iff, Nat.compare_ngt_iff. lia. Qed.

(** The comparison of the last step as a proposition. *)
Lemma evict_cmp_spec p q :
  evict_cmp p q <> Gt <->
  connected_at p < connected_at q \/
  (connected_at p = connected_at q /\
   (reputation q < reputation p \/
    (reputation q = reputation p /\ (encrypted p = true -> encrypted q = true)))).
Proof.
  unfold evict_cmp, then_with.
  destruct (Z.compare_spec (connected_at p) (connected_at q)),
    (Z.compare_spec (reputation q) (reputation p)); cbn;
    try (split; [intros _; lia|done]); try (split; [done|lia]).
  all: destruct (encrypted p), (encrypted q); cbn; split; try done; try lia; intros _; auto 10.
Qed.

Lemma evict_cmp_trans p q r :
  evict_cmp p q <> Gt -> evict_cmp q r <> Gt -> evict_cmp p r <> Gt.
Proof. rewrite !evict_cmp_spec. intuition lia. Qed.
Lemma evict_cmp_asym p q : evict_cmp p q = Gt -> evict_cmp q p <> Gt.
Proof.
  intros E. destruct (decide (evict_cmp q p = Gt)) as [E'|]; [exfalso|done].
  assert (~ evict_cmp p q <> Gt) as N1 by tauto. assert (~ evict_cmp q p <> Gt) as N2 by tauto.
  rewrite evict_cmp_spec in N1, N2. destruct (encrypted p), (encrypted q); intuition lia.
Qed.

Lemma unprotected_sub r l : unprotected r l ⊆+ l.
Proof. apply sublist_submseteq, sublist_filter. Qed.

(** The rest of the selection once the protected peers are out. *)
Lemma select_unfold peers now r :
  select_inbound_to_evict peers now r =
  (largest ← max_by group_cmp (groups_iter (groups (unprotected r (candidates now peers))));
   evictee ← max_by evict_cmp largest.2; Some (pi_id evictee)).
Proof.
  unfold select_inbound_to_evict.
  assert (forall l, l = [] -> max_by group_cmp (groups_iter (groups l)) = None) as Hn.
  { intros ? ->. pose proof (groups_iter_perm (groups [])) as Hp. unfold groups in Hp |- *.
    cbn in Hp. rewrite map_to_list_empty in Hp. apply Permutation_nil_r in Hp.
    cbn. by rewrite Hp. }
  destruct (decide (candidates now peers = [])) as [E|E].
  - rewrite E, (Hn (unprotected r [])) by done. done.
  - destruct (decide (unprotected r (candidates now peers) = [])) as [E'|E']; [|done].
    by rewrite (Hn _ E').
Qed.

(** Nobody is evicted exactly when every candidate is protected. *)
Lemma select_none_iff peers now r :
  select_inbound_to_evict peers now r = None <-> unprotected r (candidates now peers) = [].
Proof.
  rewrite select_unfold. set (l := unprotected r (candidates now peers)). split.
  - intros E. destruct (decide (l = [])) as [|Hl]; [done|exfalso].
    destruct (max_by_some group_cmp (groups_iter (groups l))) as [[g grp] Hg].
    { intros E'. apply (groups_nonempty l Hl). apply map_to_list_empty_iff.
      apply Permutation_nil_r. rewrite <- E'. symmetry. apply groups_iter_perm. }
    rewrite Hg in E. cbn in E.
    apply max_by_spec in Hg as [Hin _]; [|apply group_cmp_trans|apply group_cmp_asym].
    rewrite groups_iter_perm, elem_of_map_to_list, groups_lookup in Hin.
    destruct (decide (in_group g l = [])) as [|Hne]; [done|]. injection Hin as <-.
    destruct (max_by_some evict_cmp _ Hne) as [p Hp]. by rewrite Hp in E.
  - intros E. rewrite E. pose proof (groups_iter_perm (groups [])) as Hp.
    unfold groups in Hp |- *. cbn in Hp |- *. rewrite map_to_list_empty in Hp.
    apply Permutation_nil_r in Hp. by rewrite Hp.
Qed.

Lemma select_some peers now r id :
  select_inbound_to_evict peers now r = Some id ->
  let left := unprotected r (candidates now peers) in
  exists p, p ∈ left /\ pi_id p = id /\
    (forall g, (length (in_group g left) <= length (in_group (netgroup (pi_addr p)) left))%nat) /\
    (forall q, q ∈ left -> netgroup (pi_addr q) = netgroup (pi_addr p) -> evict_cmp q p <> Gt).
Proof.
  rewrite select_unfold. set (l := unprotected r (candidates now peers)). cbn.
  destruct (max_by group_cmp _) as [[g grp]|] eqn:Hg; [|done]. cbn.
  destruct (max_by evict_cmp grp) as [p|] eqn:Hp; [|done]. cbn. intros [= <-].
  apply max_by_spec in Hg as [Hin Hmax]; [|apply group_cmp_trans|apply group_cmp_asym].
  rewrite groups_iter_perm, elem_of_map_to_list, groups_lookup in Hin.
  destruct (decide (in_group g l = [])) as [|Hne]; [done|]. injection Hin as <-.
  apply max_by_spec in Hp as [Hpin Hpmax]; [|apply evict_cmp_trans|apply evict_cmp_asym].
  apply list_elem_of_filter in Hpin as [<- Hpl]. exists p. split_and!; [done|done| |].
  - intros g. destruct (decide (in_group g l = [])) as [->|Hg]; [cbn; lia|].
    assert (group_cmp (g, in_group g l) (netgroup (pi_addr p), in_group (netgroup (pi_addr p)) l)
            <> Gt) as Hc.
    { apply Hmax. rewrite groups_iter_perm, elem_of_map_to_list, groups_lookup.
      by rewrite decide_False. }
    unfold group_cmp in Hc. rewrite Nat.compare_ngt_iff in Hc. cbn in Hc. lia.
  - intros q Hq Hqg. apply Hpmax. by apply list_elem_of_filter.
Qed.

Lemma unprotected_not_in (f : list PeerInfo) r l p :
  p ∈ unprotected r l -> (forall q, q ∈ f -> pi_id q ∈ protected_ids r l) -> p ∉ f.
Proof. intros [Hn _]%list_elem_of_filter Hf Hp. by apply Hn, Hf. Qed.

Lemma outranked_axis (R : PeerInfo -> PeerInfo -> Prop)
    `{!forall p q, Decision (R p q), !Transitive R, !Total R} r l p :
  p ∈ unprotected r l ->
  (forall q, q ∈ take PROTECT_PER_AXIS (merge_sort R l) -> pi_id q ∈ protected_ids r l) ->
  outranked R PROTECT_PER_AXIS p l.
Proof.
  intros Hp Hf. apply (outranked_take R _ _ _ (merge_sort R l)).
  - by apply StronglySorted_merge_sort.
  - by rewrite merge_sort_Permutation.
  - rewrite merge_sort_Permutation. by apply list_elem_of_filter in Hp as [_ ?].
  - by apply (unprotected_not_in _ r l).
Qed.

(** The peer that is evicted was accepted by us (inbound), has been connected
    for at least thirty seconds and has a reputation below 80; at least four other
    candidates were connected before it, four were active since, four have no lower
    reputation, and if it ever relayed a block lately four relayed no less.  No
    netgroup has more unprotected candidates than its own, and it is the youngest
    of them there, with the lowest reputation among the equally young. *)
Theorem evictee_exact peers now r id :
  select_inbound_to_evict peers now r = Some id ->
  let cands := candidates now peers in
  exists p, p ∈ peers /\ pi_id p = id /\ pi_outbound p = false /\
    MIN_AGE_BEFORE_EVICT <= now - connected_at p /\ reputation p < REPUTATION_PROTECT_FLOOR /\
    outranked by_age 4 p cands /\ outranked by_active 4 p cands /\
    outranked by_rep 4 p cands /\
    (Relay.score r (pi_id p) <= 0 \/ outranked (by_relay r) 4 p cands) /\
    (forall g, (length (in_group g (unprotected r cands)) <=
      length (in_group (netgroup (pi_addr p)) (unprotected r cands)))%nat) /\
    (forall q, q ∈ unprotected r cands -> netgroup (pi_addr q) = netgroup (pi_addr p) ->
      connected_at q < connected_at p \/
      (connected_at q = connected_at p /\ reputation p <= reputation q)).
Proof.
  intros Hs cands. apply select_some in Hs as (p & Hp & Hid & Hgroup & Hyoung).
  fold cands in Hp, Hgroup, Hyoung.
  assert (p ∈ cands) as [Hc Hpp]%list_elem_of_filter
    by (eapply elem_of_submseteq; [exact Hp|apply unprotected_sub]).
  unfold candidate in Hc. rewrite !andb_true_iff, negb_true_iff in Hc.
  destruct Hc as [[Hin Hage] Hrep]. apply Z.leb_le in Hage. apply Z.ltb_lt in Hrep.
  exists p. unfold protected_ids in *.
  split_and!; [done|done|done|unfold sat_sub, MIN_AGE_BEFORE_EVICT in *; lia|done| | | | |done|].
  - apply (outranked_axis by_age r); [done|]. intros q Hq. unfold protected_ids. set_solver.
  - apply (outranked_axis by_active r); [done|]. intros q Hq. unfold protected_ids. set_solver.
  - apply (outranked_axis by_rep r); [done|]. intros q Hq. unfold protected_ids. set_solver.
  - destruct (decide (0 < Relay.score r (pi_id p))) as [Hpos|]; [right|left; lia].
    apply (outranked_take _ _ _ _ (filter (fun q => 0 < Relay.score r (pi_id q))
             (merge_sort (by_relay r) cands))).
    + apply sorted_filter, StronglySorted_merge_sort; apply _.
    + trans (merge_sort (by_relay r) cands); [apply sublist_submseteq, sublist_filter|].
      by rewrite merge_sort_Permutation.
    + apply list_elem_of_filter. split; [done|]. rewrite merge_sort_Permutation.
      by apply list_elem_of_filter in Hp as [_ ?].
    + apply (unprotected_not_in _ r cands); [done|]. intros q Hq. unfold protected_ids.
      set_solver.
  - intros q Hq Hg. specialize (Hyoung q Hq Hg). apply evict_cmp_spec in Hyoung. lia.
Qed.

(** With more than sixteen candidates there is always somebody to evict. *)
Theorem crowded_node_evicts peers now r :
  NoDup (pi_id <$> peers) -> (16 < length (candidates now peers))%nat ->
  is_Some (select_inbound_to_evict peers now r).
Proof.
  intros Hd Hl. destruct (select_inbound_to_evict peers now r) eqn:E; [done|exfalso].
  apply select_none_iff in E. set (l := candidates now peers) in *.
  assert (pi_id <$> l ⊆+ protected_ids r l) as Hsub%submseteq_length.
  { apply NoDup_submseteq.
    - eapply sublist_NoDup; [exact Hd|]. apply fmap_sublist, sublist_filter.
    - intros i (p & -> & Hp)%list_elem_of_fmap.
      destruct (decide (pi_id p ∈ protected_ids r l)) as [|Hn]; [done|exfalso].
      assert (p ∈ unprotected r l) as Hu by by apply list_elem_of_filter.
      rewrite E in Hu. by apply elem_of_nil in Hu. }
  unfold protected_ids, protect_age, protect_active, protect_rep, protect_relay,
    PROTECT_PER_AXIS in Hsub.
  rewrite !length_fmap, !length_app, !length_take in Hsub. lia.
Qed.

(** Between peers of the group that are equally young and equally reputed the
    encrypted one is evicted: a plaintext peer never is while an encrypted one ties
    with it. *)
Theorem tie_evicts_encrypted peers now r id :
  select_inbound_to_evict peers now r = Some id ->
  exists p, p ∈ peers /\ pi_id p = id /\
    forall q, q ∈ unprotected r (candidates now peers) ->
      netgroup (pi_addr q) = netgroup (pi_addr p) -> connected_at q = connected_at p ->
      reputation q = reputation p -> encrypted q = true -> encrypted p = true.
Proof.
  intros (p & Hp & Hid & _ & Hyoung)%select_some. exists p. split_and!; [|done|].
  - apply list_elem_of_filter in Hp as [_ Hp]. by apply list_elem_of_filter in Hp as [_ ?].
  - intros q Hq Hg Ht Hr He. specialize (Hyoung q Hq Hg). apply evict_cmp_spec in Hyoung.
    destruct Hyoung as [|[_ [|[_ Henc]]]]; [lia|lia|by apply Henc].
Qed.
End eviction.

(** Four old peers of good standing, then an encrypted and a plaintext one that
    tie. *)
Definition demo_peer (i conn rep : Z) (enc : bool) : PeerInfo :=
  mkPeer [i] (mkSocketAddr (V4 [10; 0; 0; i]) 28080) Connected (100 - conn) conn rep false
    enc i None.
Definition demo_table : list PeerInfo :=
  [demo_peer 5 9 75 true; demo_peer 1 1 79 false; demo_peer 2 2 79 false;
   demo_peer 3 3 79 false; demo_peer 4 4 79 false; demo_peer 6 9 75 false].
Definition demo_now : Z := 10 + MIN_AGE_BEFORE_EVICT.

Lemma demo_evicts :
  select_inbound_to_evict (H := list_order) demo_table demo_now ∅ = Some [5].
Proof. vm_compute. reflexivity. Qed.

Lemma evictee_exact_witness :
  exists p, p ∈ demo_table /\ pi_id p = [5] /\ outranked by_age 4 p (candidates demo_now demo_table).
Proof.
  destruct (evictee_exact (H := list_order) demo_table demo_now ∅ [5]) as (p & Hp & Hid & _ & _ & _ & Ha & _).
  - vm_compute. reflexivity.
  - by exists p.
Defined.

Lemma tie_evicts_encrypted_witness :
  select_inbound_to_evict (H := list_order) demo_table demo_now ∅ = Some [5] /\
  exists p, p ∈ demo_table /\ pi_id p = [5].
Proof.
  split; [vm_compute; reflexivity|].
  destruct (tie_evicts_encrypted (H := list_order) demo_table demo_now ∅ [5]) as (p & Hp & Hid & _).
  - vm_compute. reflexivity.
  - by exists p.
Defined.

(** Seventeen peers of middling reputation. *)
Definition demo_crowd : list PeerInfo := (fun i => demo_peer i i 50 false) <$> seqZ 1 17.

Lemma crowded_node_evicts_witness :
  is_Some (select_inbound_to_evict (H := list_order) demo_crowd (100 + MIN_AGE_BEFORE_EVICT) ∅).
Proof.
  apply (crowded_node_evicts (H := list_order) demo_crowd).
  - apply (bool_decide_unpack _). vm_compute. exact I.
  - apply Nat.ltb_lt. vm_compute. reflexivity.
Defined.
End EvictionRules.
