(* ===== verification/PeersSafety.v ===== *)
(** * Peer admission: theorems on the node

    Relay scores over time, the per-address limit of a node that never drops a peer
    itself, what dropping one does to it, the outbound limit, and the slots that
    well-behaved peers hold for ever. *)

From stdpp Require Import prelude gmap sorting.
From Stdlib Require Import ZArith Lia.
From S2P Require Import Prelude.
From S2P Require Import Difficulty.
From S2P Require Import ForkChoice.
From S2P Require Import Peers.
From S2P Require Import PeersRules.

Local Open Scope Z_scope.

(** ** Relay scores *)

Inductive relay_op := RCredit (peer : PeerId) | REvaporate | RForget (peer : PeerId).
#[export] Instance relay_op_eq_dec : EqDecision relay_op.
Proof. solve_decision. Defined.
Definition relay_step (m : RelayScoreMap) (op : relay_op) : RelayScoreMap :=
  match op with
  | RCredit peer => Relay.credit_block m peer
  | REvaporate => Relay.evaporate m
  | RForget peer => Relay.forget m peer
  end.
Definition relay_run (m : RelayScoreMap) (ops : list relay_op) : RelayScoreMap :=
  foldl relay_step m ops.

Definition scores_ok (m : RelayScoreMap) : Prop :=
  forall peer s, m !! peer = Some s -> 0 < s <= RELAY_SCORE_MAX.

Definition fade (v : Z) : Z := v * EVAP_NUM / EVAP_DEN.

Lemma fade_mono a b : a <= b -> fade a <= fade b.
Proof. unfold fade, EVAP_NUM, EVAP_DEN. intros. apply Z.div_le_mono; lia. Qed.

Lemma score_range m peer : scores_ok m -> 0 <= Relay.score m peer <= RELAY_SCORE_MAX.
Proof.
  intros Hm. unfold Relay.score. destruct (m !! peer) as [s|] eqn:E; cbn.
  - specialize (Hm _ _ E). lia.
  - unfold RELAY_SCORE_MAX. lia.
Qed.

Lemma evaporate_lookup m peer :
  scores_ok m ->
  Relay.evaporate m !! peer =
  (s ← m !! peer; if decide (0 < fade s) then Some (fade s) else None).
Proof.
  intros Hm. unfold Relay.evaporate. rewrite map_lookup_filter, lookup_fmap.
  destruct (m !! peer) as [s|] eqn:E; cbn; [|done].
  specialize (Hm _ _ E). unfold RELAY_SCORE_MAX in Hm.
  assert (wrap32 (s * EVAP_NUM) = s * EVAP_NUM) as Hw
    by (apply Z.mod_small; unfold EVAP_NUM; lia).
  rewrite Hw. fold (fade s). by destruct (decide (0 < fade s)) as [Hd|Hd];
    [rewrite option_guard_True|rewrite option_guard_False].
Qed.

Lemma evaporate_score m peer :
  scores_ok m -> Relay.score (Relay.evaporate m) peer = fade (Relay.score m peer).
Proof.
  intros Hm. unfold Relay.score. rewrite evaporate_lookup by done.
  destruct (m !! peer) as [s|] eqn:E; cbn; [|done]. specialize (Hm _ _ E).
  destruct (decide (0 < fade s)); cbn; [done|].
  assert (0 <= fade s) by (unfold fade, EVAP_NUM, EVAP_DEN; apply Z.div_pos; lia). lia.
Qed.

Lemma relay_step_ok m op : scores_ok m -> scores_ok (relay_step m op).
Proof.
  intros Hm peer s. destruct op as [q| |q]; cbn.
  - unfold Relay.credit_block. destruct (decide (peer = q)) as [->|Hq].
    + rewrite lookup_insert_eq. intros [= <-]. pose proof (score_range m q Hm) as Hs.
      unfold Relay.score in Hs. unfold sat_add, u32_max, DEPOSIT_PER_BLOCK, RELAY_SCORE_MAX in *.
      lia.
    + rewrite lookup_insert_ne by done. apply Hm.
  - rewrite evaporate_lookup by done. destruct (m !! peer) as [v|] eqn:E; cbn; [|done].
    destruct (decide _); [|done]. intros [= <-]. specialize (Hm _ _ E).
    split; [done|]. unfold fade, EVAP_NUM, EVAP_DEN in *.
    apply Z.div_le_upper_bound; lia.
  - unfold Relay.forget. rewrite lookup_delete_Some. intros [_ E]. by eapply Hm.
Qed.

Lemma relay_run_ok m ops : scores_ok m -> scores_ok (relay_run m ops).
Proof. revert m. induction ops as [|op ops IH]; intros m Hm; [done|]. by apply IH, relay_step_ok. Qed.

Definition evaporations (ops : list relay_op) : nat :=
  length (filter (fun op => op = REvaporate) ops).

(** Rounds after which the highest score has faded to nothing. *)
Definition FADE_ROUNDS : nat := 72.

Lemma fade_all : Nat.iter FADE_ROUNDS fade RELAY_SCORE_MAX = 0.
Proof. vm_compute. reflexivity. Qed.

Lemma uncredited_step m op peer n :
  scores_ok m -> op <> RCredit peer -> Relay.score m peer <= Nat.iter n fade RELAY_SCORE_MAX ->
  Relay.score (relay_step m op) peer <=
  Nat.iter (if decide (op = REvaporate) then S n else n) fade RELAY_SCORE_MAX.
Proof.
  intros Hm Hop Hs. destruct op as [q| |q]; cbn.
  - unfold Relay.score, Relay.credit_block. rewrite lookup_insert_ne by congruence. exact Hs.
  - rewrite evaporate_score by done. by apply fade_mono.
  - unfold Relay.score, Relay.forget in *. destruct (decide (q = peer)) as [->|Hq].
    + rewrite lookup_delete_eq. cbn. trans (Relay.score m peer); [|done].
      by apply score_range.
    + by rewrite lookup_delete_ne.
Qed.

Lemma uncredited_run m ops peer n :
  scores_ok m -> RCredit peer ∉ ops -> Relay.score m peer <= Nat.iter n fade RELAY_SCORE_MAX ->
  Relay.score (relay_run m ops) peer <= Nat.iter (evaporations ops + n) fade RELAY_SCORE_MAX.
Proof.
  revert m n. induction ops as [|op ops IH]; intros m n Hm Hno Hs; [done|].
  assert (op <> RCredit peer /\ RCredit peer ∉ ops) as [Hop Hno'] by set_solver.
  pose proof (IH _ _ (relay_step_ok m op Hm) Hno' (uncredited_step m op peer n Hm Hop Hs)) as H.
  change (relay_run m (op :: ops)) with (relay_run (relay_step m op) ops).
  unfold evaporations in *. rewrite filter_cons.
  destruct (decide (op = REvaporate)); [|exact H].
  cbn [length]. by replace (S (length (filter (fun op => op = REvaporate) ops)) + n)%nat
    with (length (filter (fun op => op = REvaporate) ops) + S n)%nat by lia.
Qed.

(** After any sequence of credits, evaporations and removals every stored score
    is between 1 and 10000, and a peer that is not credited through seventy-two rounds of
    evaporation has lost its score and its protection, whatever it earned before. *)
Theorem relay_scores_fade before since peer :
  RCredit peer ∉ since -> (FADE_ROUNDS <= evaporations since)%nat ->
  scores_ok (relay_run ∅ (before ++ since)) /\
  relay_run ∅ (before ++ since) !! peer = None.
Proof.
  intros Hno Hn. assert (scores_ok ∅) as H0 by done.
  split; [by apply relay_run_ok|]. unfold relay_run. rewrite foldl_app.
  fold (relay_run ∅ before). set (m := relay_run ∅ before).
  assert (scores_ok m) as Hm by by apply relay_run_ok.
  pose proof (uncredited_run m since peer 0 Hm Hno (proj2 (score_range m peer Hm))) as Hs.
  assert (Nat.iter (evaporations since + 0) fade RELAY_SCORE_MAX = 0) as E.
  { replace (evaporations since + 0)%nat with ((evaporations since - FADE_ROUNDS) + FADE_ROUNDS)%nat
      by lia. rewrite Nat.iter_add, fade_all. clear. induction (_ - _)%nat as [|k IH]; [done|].
    change (fade (Nat.iter k fade 0) = 0). by rewrite IH. }
  rewrite E in Hs. fold (relay_run m since). destruct (relay_run m since !! peer) as [s|] eqn:L; [|done].
  exfalso. pose proof (relay_run_ok m since Hm _ _ L). unfold Relay.score in Hs.
  rewrite L in Hs. cbn in Hs. lia.
Qed.

Lemma relay_scores_fade_witness :
  relay_run ∅ (replicate 12 (RCredit [7]) ++ replicate 72 REvaporate) !! [7] = None.
Proof.
  apply (relay_scores_fade (replicate 12 (RCredit [7])) (replicate 72 REvaporate) [7]).
  - intros H. apply elem_of_replicate in H as [H _]. discriminate H.
  - apply Nat.leb_le. vm_compute. reflexivity.
Defined.

(** ** The peer table *)

Module NetRules.
Import Net.
Section net.
Context `{MapOrder}.
Implicit Types (n : NetNode) (e : event).

(** The table after a pass that removes the peers [ids]. *)
Definition without (m : gmap PeerId PeerInfo) (ids : list PeerId) : gmap PeerId PeerInfo :=
  foldl (fun m id => delete id m) m ids.

Lemma without_lookup m ids id :
  without m ids !! id = if decide (id ∈ ids) then None else m !! id.
Proof.
  revert m. induction ids as [|i ids IH]; intros m; [by rewrite decide_False by set_solver|].
  change (without (delete i m) ids !! id = if decide (id ∈ i :: ids) then None else m !! id).
  rewrite IH. destruct (decide (id = i)) as [->|Hi].
  - rewrite lookup_delete_eq, (decide_True (P := i ∈ i :: ids)) by set_solver. by case_decide.
  - rewrite lookup_delete_ne by done. apply decide_ext. set_solver.
Qed.

Definition drop_peer n (id : PeerId) : NetNode :=
  let n := match nn_peers n !! id with Some p => untrack n (pi_addr p) | None => n end in
  remove_sender (remove_peer n id) id.

Lemma drop_peer_peers n id : nn_peers (drop_peer n id) = delete id (nn_peers n).
Proof. unfold drop_peer. by destruct (nn_peers n !! id). Qed.

Lemma drop_all_peers n ids : nn_peers (foldl drop_peer n ids) = without (nn_peers n) ids.
Proof.
  revert n. induction ids as [|id ids IH]; intros n; [done|]. cbn.
  rewrite IH, drop_peer_peers. done.
Qed.

Lemma cleanup_tick_drops n now :
  cleanup_tick n now =
  foldl drop_peer n (pi_id <$> filter (fun p => Peer.is_stale p now PEER_TIMEOUT = true)
                                 (peers_iter (nn_peers n))).
Proof. reflexivity. Qed.

Lemma observe_peers n : nn_peers (observe_outbound_health n).2 = nn_peers n.
Proof. unfold observe_outbound_health. by repeat case_match. Qed.

Lemma connector_peers n m p o b a : nn_peers (connector_tick n m p o b a) = nn_peers n.
Proof.
  unfold connector_tick. pose proof (observe_peers n) as Hp.
  destruct (observe_outbound_health n) as [c n']. cbn in Hp.
  repeat (case_match; cbn; try done).
Qed.

Lemma accept_peers n o b addr now :
  nn_peers (accept n o b addr now).2 = nn_peers n \/
  exists id, nn_peers (accept n o b addr now).2 = delete id (nn_peers n) /\
    is_Some (nn_peers n !! id).
Proof.
  unfold accept. repeat (case_match; cbn; try (by left)). right. eauto.
Qed.

Lemma cleanup_connection_peers n id token :
  nn_peers (cleanup_connection n id token) = nn_peers n \/
  nn_peers (cleanup_connection n id token) = delete id (nn_peers n).
Proof. unfold cleanup_connection. repeat case_match; cbn; auto. Qed.

Lemma finish_peers n token :
  nn_peers (finish n token) = nn_peers n \/
  exists id, nn_peers (finish n token) = delete id (nn_peers n).
Proof.
  unfold finish. destruct (find_task n token) as [k|]; [|by left].
  destruct (tk_id k) as [id|]; [|destruct (tk_outbound k); by left].
  destruct (cleanup_connection_peers n id token) as [E|E]; destruct (tk_outbound k);
    cbn; rewrite E; eauto.
Qed.

Lemma rotate_peers n :
  rotate_outbound_peer n = n \/
  (exists id, nn_peers (rotate_outbound_peer n) = delete id (nn_peers n) /\
    is_Some (nn_peers n !! id)) \/
  connections_per_ip (nn_tracker (rotate_outbound_peer n)) = connections_per_ip (nn_tracker n) /\
  nn_peers (rotate_outbound_peer n) = nn_peers n /\ nn_tasks (rotate_outbound_peer n) = nn_tasks n
    /\ nn_next (rotate_outbound_peer n) = nn_next n.
Proof.
  unfold rotate_outbound_peer. repeat (case_match; cbn; try (by left)); [|by right; right].
  right. left. eauto.
Qed.

Lemma register_peers n token id enc now :
  nn_peers (register n token id enc now) = nn_peers n \/
  exists p, nn_peers (register n token id enc now) = <[id := p]> (nn_peers n) /\
    reputation p = 100 /\ pi_id p = id.
Proof.
  unfold register. destruct (find_task n token) as [k|]; [|by left].
  destruct (tk_id k); [by left|]. right. eexists. by split.
Qed.

(** A row of the table after a step was there before, or is new with the initial
    reputation, or was marked down by the peer's own [Reject]. *)
Lemma step_peers n e id p :
  nn_peers (step n e) !! id = Some p ->
  nn_peers n !! id = Some p \/ (reputation p = 100 /\ pi_id p = id) \/
  (exists q, e = EvReject id /\ nn_peers n !! id = Some q /\ p = Peer.adjust_reputation q (-5)).
Proof.
  assert (forall i (m : gmap PeerId PeerInfo), delete i m !! id = Some p -> m !! id = Some p) as Hdel.
  { intros i m E. by apply lookup_delete_Some in E as [_ ?]. }
  destruct e; cbn [step].
  - destruct (accept_peers n onion_only banned addr now) as [->|(i & -> & _)]; eauto.
  - destruct (register_peers n token peer_id enc now) as [->|(q & -> & Hr & Hid)]; [eauto|].
    destruct (decide (id = peer_id)) as [->|Hi].
    + rewrite lookup_insert_eq. intros [= <-]. eauto.
    + rewrite lookup_insert_ne by done. eauto.
  - destruct (finish_peers n token) as [->|[i ->]]; eauto.
  - unfold disconnect_peer. destruct (nn_peers n !! id0); cbn; eauto.
  - unfold ban_peer. destruct (nn_peers n !! id0); cbn; eauto.
  - rewrite cleanup_tick_drops, drop_all_peers, without_lookup. case_decide; [done|eauto].
  - destruct (rotate_peers n) as [->|[(i & -> & _)|(_ & -> & _)]]; eauto.
  - unfold handle_reject. destruct (nn_peers n !! id0) as [q|] eqn:E; [|eauto]. cbn.
    destruct (decide (id = id0)) as [->|Hi].
    + rewrite lookup_insert_eq. intros [= <-]. right. right. eauto.
    + rewrite lookup_insert_ne by done. eauto.
  - cbn. eauto.
  - cbn. eauto.
  - rewrite connector_peers. eauto.
Qed.

(** ** Slots that well-behaved peers hold *)

(** How often a peer has sent [Reject]. *)
Fixpoint rejects (id : PeerId) (es : list event) : Z :=
  match es with
  | [] => 0
  | EvReject i :: es => if decide (i = id) then rejects id es + 1 else rejects id es
  | _ :: es => rejects id es
  end.

Lemma rejects_app id es es' : rejects id (es ++ es') = rejects id es + rejects id es'.
Proof.
  induction es as [|e es IH]; [done|]. destruct e; cbn; try exact IH. case_decide; lia.
Qed.
Lemma rejects_nonneg id es : 0 <= rejects id es.
Proof. induction es as [|e es IH]; [done|]. destruct e; cbn; try exact IH. case_decide; lia. Qed.

Lemma reputation_floor budget es id p :
  nn_peers (run (new budget) es) !! id = Some p -> rejects id es <= 4 ->
  100 - 5 * rejects id es <= reputation p <= 100.
Proof.
  revert p. induction es as [|e es IH] using rev_ind; intros p.
  { cbn. by rewrite lookup_empty. }
  unfold run. rewrite foldl_app. fold (run (new budget) es). cbn [foldl].
  rewrite rejects_app. intros [Hp|[[Hr _]|(q & -> & Hq & ->)]]%step_peers Hk.
  - pose proof (rejects_nonneg id [e]). specialize (IH p Hp ltac:(lia)). lia.
  - pose proof (rejects_nonneg id [e]). pose proof (rejects_nonneg id es). lia.
  - pose proof (rejects_nonneg id es).
    assert (rejects id [EvReject id] = 1) as E by (cbn; by rewrite decide_True).
    specialize (IH q Hq ltac:(lia)).
    change (100 - 5 * (rejects id es + rejects id [EvReject id]) <=
            clamp (-100) 100 (wrap_i32 (reputation q + -5)) <= 100).
    assert (wrap_i32 (reputation q + -5) = reputation q - 5) as Hw.
    { unfold wrap_i32. rewrite Z.mod_small; lia. }
    rewrite Hw. unfold clamp. split_if; lia.
Qed.

(** A node whose inbound slots are taken by peers that each sent at most four
    [Reject] messages refuses every newcomer, whatever its address, at whatever
    time: the reputation starts at 100, only [Reject] lowers it, and nobody at 80
    or above is evicted, so connections that do nothing hold their slots for
    ever. *)
Theorem polite_peers_pin_slots budget es :
  (forall id, rejects id es <= 4) ->
  let n := run (new budget) es in
  MAX_INBOUND <= Z.of_nat (length (inbound_snapshot n)) ->
  forall onion_only banned addr now, (accept n onion_only banned addr now).1 = false /\
    nn_peers (accept n onion_only banned addr now).2 = nn_peers n.
Proof.
  intros Hk n Hfull onion banned addr now. unfold accept.
  destruct (onion && _); [done|]. destruct banned; [done|].
  destruct (Tracker.try_track_connection (nn_tracker n) addr) as [[] t]; [|done].
  cbn [negb]. change (inbound_snapshot (set_tracker n t)) with (inbound_snapshot n).
  rewrite (proj2 (Z.leb_le _ _) Hfull).
  assert (Eviction.select_inbound_to_evict (inbound_snapshot n) now
            (nn_relay (set_tracker n t)) = None) as ->; [|done].
  apply EvictionRules.select_none_iff.
  assert (Eviction.candidates now (inbound_snapshot n) = []) as ->; [|done].
  unfold Eviction.candidates. apply filter_none. intros p Hp.
  apply list_elem_of_filter in Hp as [_ Hp].
  rewrite peers_iter_perm in Hp. apply list_elem_of_fmap in Hp as ([id q] & -> & Hq).
  apply elem_of_map_to_list in Hq. cbn.
  pose proof (reputation_floor budget es id q Hq (Hk id)). specialize (Hk id).
  unfold Eviction.candidate, REPUTATION_PROTECT_FLOOR.
  rewrite (proj2 (Z.ltb_ge _ _)) by lia. by rewrite andb_false_r.
Qed.

(** ** Connections per address *)

Definition inbound_from (ip : IpAddr) (l : list Task) : Z :=
  Z.of_nat (length (filter (fun k => tk_outbound k = false /\ sa_ip (tk_addr k) = ip) l)).

(** The node drops no peer in this step; a connection may still end by itself. *)
Definition keeps_peers n e : Prop :=
  match e with
  | EvFinish _ => True
  | _ => forall id, is_Some (nn_peers n !! id) -> is_Some (nn_peers (step n e) !! id)
  end.
Inductive quiet (budget : Z) : NetNode -> Prop :=
| quiet_new : quiet budget (new budget)
| quiet_step n e : quiet budget n -> keeps_peers n e -> quiet budget (step n e).

Record net_ok n : Prop := {
  no_tokens : NoDup (tk_token <$> nn_tasks n);
  no_next : forall k, k ∈ nn_tasks n -> tk_token k < nn_next n;
  no_keys : forall id p, nn_peers n !! id = Some p -> pi_id p = id;
  no_ips : counted (connections_per_ip (nn_tracker n)) (fun ip => inbound_from ip (nn_tasks n));
  no_cap : forall ip, inbound_from ip (nn_tasks n) <= MAX_CONNECTIONS_PER_IP
}.

Lemma inbound_from_app ip l k :
  inbound_from ip (l ++ [k]) =
  inbound_from ip l + if decide (tk_outbound k = false /\ sa_ip (tk_addr k) = ip) then 1 else 0.
Proof.
  unfold inbound_from. rewrite filter_app, length_app, filter_cons, filter_nil.
  case_decide; cbn; lia.
Qed.

(** What the operations leave alone, up to the counters of the addresses. *)
Definition same_tasks n n' : Prop :=
  nn_tasks n' = nn_tasks n /\ nn_next n' = nn_next n /\
  connections_per_ip (nn_tracker n') = connections_per_ip (nn_tracker n) /\
  forall id p, nn_peers n' !! id = Some p -> nn_peers n !! id = Some p \/ pi_id p = id.

Lemma net_ok_same n n' : same_tasks n n' -> net_ok n -> net_ok n'.
Proof.
  intros (Ht & Hn & Hi & Hp) [H1 H2 H3 H4 H5]. split; rewrite ?Ht, ?Hn, ?Hi; try done.
  intros id p E. destruct (Hp id p E); eauto.
Qed.

Lemma drop_slot_ips t s : connections_per_ip (Tracker.drop_slot t s) = connections_per_ip t.
Proof. by destruct s. Qed.

(** A task whose counter is settled: the tokens stay fresh. *)
Lemma spawn_tokens n addr outbound slot :
  net_ok n ->
  NoDup (tk_token <$> nn_tasks (spawn n addr outbound slot)) /\
  (forall k, k ∈ nn_tasks (spawn n addr outbound slot) ->
    tk_token k < nn_next (spawn n addr outbound slot)).
Proof.
  intros [H1 H2 H3 H4 H5]. cbn. split.
  - rewrite fmap_app. apply NoDup_app. split_and!; [done| |apply NoDup_singleton].
    intros x (k & -> & Hk)%list_elem_of_fmap Hx. specialize (H2 k Hk). cbn in Hx.
    apply list_elem_of_singleton in Hx. lia.
  - intros k. rewrite elem_of_app, list_elem_of_singleton. intros [Hk| ->]; cbn; [|lia].
    specialize (H2 k Hk). lia.
Qed.

(** A new inbound task with its counter. *)
Lemma net_ok_spawn n addr t :
  net_ok n -> Tracker.try_track_connection (nn_tracker n) addr = (true, t) ->
  net_ok (spawn (set_tracker n t) addr false None).
Proof.
  intros Hok. destruct (spawn_tokens n addr false None Hok) as [T1 T2]. revert Hok.
  intros [_ _ H3 H4 H5]. unfold Tracker.try_track_connection.
  destruct (Tracker.try_count _ _ _) as [b m] eqn:E. intros [= -> <-].
  apply (try_count_spec MAX_CONNECTIONS_PER_IP _ _ _ _ _ eq_refl H4) in E as [Hb Hm].
  symmetry in Hb. apply Z.ltb_lt in Hb. split; cbn; [exact T1|exact T2| | |].
  - done.
  - eapply counted_ext; [|exact Hm]. intros ip. rewrite inbound_from_app. cbn.
    repeat case_decide; naive_solver lia.
  - intros ip. rewrite inbound_from_app. cbn. specialize (H5 ip).
    case_decide as Hd; [|lia]. destruct Hd as [_ <-]. lia.
Qed.

Lemma net_ok_accept n o b addr now :
  net_ok n -> keeps_peers n (EvAccept o b addr now) -> net_ok (accept n o b addr now).2.
Proof.
  intros Hok Hk. cbn [keeps_peers step] in Hk. revert Hk. unfold accept.
  destruct (o && _); [done|]. destruct b; [done|].
  destruct (Tracker.try_track_connection (nn_tracker n) addr) as [tracked t] eqn:E.
  destruct tracked; cbn [negb].
  2:{ intros _. unfold Tracker.try_track_connection in E.
      destruct (Tracker.try_count _ _ _) as [b m] eqn:E'. injection E as -> <-.
      apply (try_count_spec MAX_CONNECTIONS_PER_IP _ _ _ _ _ eq_refl (no_ips _ Hok)) in E' as [_ ->].
      eapply net_ok_same; [|exact Hok]. split_and!; cbn; auto. }
  pose proof (net_ok_spawn n addr t Hok E) as Hsp. destruct (MAX_INBOUND <=? _); [|done].
  destruct (Eviction.select_inbound_to_evict _ _ _) as [victim|].
  - destruct (nn_peers (remove_sender (set_tracker n t) victim) !! victim) as [v|] eqn:Ev; cbn in Ev.
    + intros Hk. destruct (Hk victim) as [? F]; [by rewrite Ev|]. cbn in F.
      by rewrite lookup_delete_eq in F.
    + intros _. eapply net_ok_same; [|exact Hsp]. split_and!; cbn; auto.
  - intros _. unfold Tracker.try_track_connection in E.
    destruct (Tracker.try_count _ _ _) as [b m] eqn:E'. injection E as -> <-.
    apply (try_count_spec MAX_CONNECTIONS_PER_IP _ _ _ _ _ eq_refl (no_ips _ Hok)) in E' as [_ Hm].
    destruct Hok as [H1 H2 H3 H4 H5]. split; cbn; try done.
    eapply counted_ext; [|apply uncount_spec, Hm]. intros ip. cbn.
    destruct (decide (ip = sa_ip addr)) as [->|]; [|done]. rewrite decide_True by done.
    unfold inbound_from, sat_sub. lia.
Qed.

Lemma inbound_from_fmap ip (f : Task -> Task) l :
  (forall j, j ∈ l -> tk_outbound (f j) = tk_outbound j /\ tk_addr (f j) = tk_addr j) ->
  inbound_from ip (f <$> l) = inbound_from ip l.
Proof.
  unfold inbound_from. induction l as [|j l IH]; [done|]. intros Hf. rewrite fmap_cons, !filter_cons.
  destruct (Hf j) as [-> ->]; [by left|]. specialize (IH ltac:(set_solver)).
  case_decide; cbn [length]; lia.
Qed.

Lemma find_task_some n token k :
  find_task n token = Some k -> k ∈ nn_tasks n /\ tk_token k = token.
Proof.
  unfold find_task. destruct (filter _ (nn_tasks n)) as [|j l] eqn:E; [done|].
  intros [= ->]. assert (k ∈ filter (fun j => tk_token j = token) (nn_tasks n)) as Hk
    by (rewrite E; by left).
  by apply list_elem_of_filter in Hk as [? ?].
Qed.

Lemma token_unique l j k :
  NoDup (tk_token <$> l) -> j ∈ l -> k ∈ l -> tk_token j = tk_token k -> j = k.
Proof.
  induction l as [|i l IH]; [by intros _ ?%elem_of_nil|]. rewrite fmap_cons, NoDup_cons.
  intros [Hi Hd]. rewrite !elem_of_cons. intros [->|Hj] [->|Hk] E; [done| | |by apply IH].
  - destruct Hi. rewrite E. by apply list_elem_of_fmap_2.
  - destruct Hi. rewrite <- E. by apply list_elem_of_fmap_2.
Qed.

Lemma net_ok_register n token id enc now : net_ok n -> net_ok (register n token id enc now).
Proof.
  intros Hok. unfold register. destruct (find_task n token) as [k|] eqn:E; [|done].
  destruct (tk_id k); [done|]. apply find_task_some in E as [Hk Ht].
  destruct Hok as [H1 H2 H3 H4 H5].
  set (f := fun j => if tk_token j =? token
            then mkTask token (tk_addr k) (tk_outbound k) None (Some id) else j).
  assert (forall j, j ∈ nn_tasks n ->
    tk_token (f j) = tk_token j /\ tk_outbound (f j) = tk_outbound j /\ tk_addr (f j) = tk_addr j) as Hf.
  { intros j Hj. unfold f. destruct (Z.eqb_spec (tk_token j) token) as [Hjt|]; [|done].
    cbn. assert (j = k) as -> by (eapply token_unique; [done..|congruence]). done. }
  assert (forall ip, inbound_from ip (f <$> nn_tasks n) = inbound_from ip (nn_tasks n)) as Hin.
  { intros ip. apply inbound_from_fmap. intros j Hj. by apply Hf. }
  assert (tk_token <$> (f <$> nn_tasks n) = tk_token <$> nn_tasks n) as Htok.
  { rewrite <- list_fmap_compose. apply list_fmap_ext. intros i j Hj. cbn.
    apply Hf. by eapply list_elem_of_lookup_2. }
  split; cbn; fold f.
  - by rewrite Htok.
  - intros j (i & -> & Hi)%list_elem_of_fmap. destruct (Hf i Hi) as [-> _]. by apply H2.
  - intros i p. destruct (decide (i = id)) as [->|Hi].
    + rewrite lookup_insert_eq. by intros [= <-].
    + rewrite lookup_insert_ne by done. apply H3.
  - rewrite drop_slot_ips. eapply counted_ext; [|exact H4]. intros ip. by rewrite Hin.
  - intros ip. rewrite Hin. apply H5.
Qed.

Lemma tasks_split l k :
  NoDup (tk_token <$> l) -> k ∈ l -> l ≡ₚ k :: filter (fun j => tk_token j <> tk_token k) l.
Proof.
  induction l as [|i l IH]; [by intros _ ?%elem_of_nil|]. rewrite fmap_cons, NoDup_cons.
  intros [Hi Hd] Hk. apply elem_of_cons in Hk as [->|Hk].
  - rewrite filter_cons_False by tauto. constructor.
    rewrite filter_all; [done|]. intros j Hj E. destruct Hi. rewrite <- E.
    by apply list_elem_of_fmap_2.
  - rewrite filter_cons_True.
    + rewrite (IH Hd Hk) at 1. apply Permutation_swap.
    + intros E. destruct Hi. rewrite E. by apply list_elem_of_fmap_2.
Qed.

Lemma inbound_from_perm ip l l' : l ≡ₚ l' -> inbound_from ip l = inbound_from ip l'.
Proof. intros Hp. unfold inbound_from. by rewrite Hp. Qed.

Lemma inbound_from_cons ip k l :
  inbound_from ip (k :: l) =
  inbound_from ip l + if decide (tk_outbound k = false /\ sa_ip (tk_addr k) = ip) then 1 else 0.
Proof. unfold inbound_from. rewrite filter_cons. case_decide; cbn [length]; lia. Qed.

Lemma cleanup_connection_same n id token : same_tasks n (cleanup_connection n id token).
Proof.
  unfold cleanup_connection.
  repeat case_match; split_and!; cbn; rewrite ?drop_slot_ips; auto;
    intros i p E; apply lookup_delete_Some in E as [_ ?]; auto.
Qed.

(** The end of a task, once the rows it owns are cleaned up. *)
Definition end_task n (k : Task) : NetNode :=
  set_tasks (if tk_outbound k then n else untrack n (tk_addr k))
    (filter (fun j => tk_token j <> tk_token k)
       (nn_tasks (if tk_outbound k then n else untrack n (tk_addr k)))).

Lemma net_ok_end_task n k : net_ok n -> k ∈ nn_tasks n -> net_ok (end_task n k).
Proof.
  intros [H1 H2 H3 H4 H5] Hk. pose proof (tasks_split _ _ H1 Hk) as Hp.
  assert (forall ip, inbound_from ip (filter (fun j => tk_token j <> tk_token k) (nn_tasks n)) =
    inbound_from ip (nn_tasks n) -
    if decide (tk_outbound k = false /\ sa_ip (tk_addr k) = ip) then 1 else 0) as Hin.
  { intros ip. rewrite (inbound_from_perm ip _ _ Hp), inbound_from_cons. lia. }
  assert (nn_tasks (if tk_outbound k then n else untrack n (tk_addr k)) = nn_tasks n) as Ht
    by by destruct (tk_outbound k).
  unfold end_task. rewrite Ht. split; cbn.
  - eapply sublist_NoDup; [exact H1|]. apply fmap_sublist, sublist_filter.
  - intros j [_ Hj]%list_elem_of_filter. destruct (tk_outbound k); by apply H2.
  - destruct (tk_outbound k); apply H3.
  - destruct (tk_outbound k) eqn:Eo; cbn.
    + eapply counted_ext; [|exact H4]. intros ip. rewrite Hin.
      rewrite decide_False by (by intros [? _]). lia.
    + eapply counted_ext; [|apply uncount_spec, H4]. intros ip. cbn. rewrite Hin.
      destruct (decide (ip = sa_ip (tk_addr k))) as [->|Hne].
      * rewrite decide_True by done. unfold sat_sub.
        pose proof (inbound_from_perm (sa_ip (tk_addr k)) _ _ Hp) as E.
        rewrite inbound_from_cons, decide_True in E by done.
        assert (0 <= inbound_from (sa_ip (tk_addr k))
          (filter (fun j => tk_token j <> tk_token k) (nn_tasks n))) by apply Nat2Z.is_nonneg.
        lia.
      * rewrite decide_False by naive_solver. lia.
  - intros ip. rewrite Hin. specialize (H5 ip). destruct (decide (_ /\ _)); lia.
Qed.

Lemma net_ok_finish n token : net_ok n -> net_ok (finish n token).
Proof.
  intros Hok. unfold finish. destruct (find_task n token) as [k|] eqn:E; [|done].
  apply find_task_some in E as [Hk <-]. destruct (tk_id k) as [id|].
  - pose proof (cleanup_connection_same n id (tk_token k)) as Hs.
    apply (net_ok_end_task (cleanup_connection n id (tk_token k)) k).
    + by eapply net_ok_same.
    + destruct Hs as [-> _]. done.
  - set (n' := set_tracker n _). apply (net_ok_end_task n' k); [|done].
    eapply net_ok_same; [|exact Hok]. split_and!; cbn; rewrite ?drop_slot_ips; auto.
Qed.

(** A pass that drops peers is idle when every peer stays. *)
Lemma kept_none n ids :
  (forall id, id ∈ ids -> is_Some (nn_peers n !! id)) ->
  (forall id, is_Some (nn_peers n !! id) -> is_Some (without (nn_peers n) ids !! id)) -> ids = [].
Proof.
  intros Hin Hk. destruct ids as [|id ids]; [done|exfalso].
  destruct (Hk id) as [p Hp]; [apply Hin; by left|].
  rewrite without_lookup, decide_True in Hp by by left. done.
Qed.

Lemma net_ok_drop n n' id :
  net_ok n -> nn_peers n' = delete id (nn_peers n) ->
  (nn_peers n !! id = None -> same_tasks n n') ->
  (forall i, is_Some (nn_peers n !! i) -> is_Some (nn_peers n' !! i)) -> net_ok n'.
Proof.
  intros Hok Hd Hs Hk. destruct (nn_peers n !! id) as [p|] eqn:E.
  - exfalso. destruct (Hk id) as [q Hq]; [by rewrite E|]. by rewrite Hd, lookup_delete_eq in Hq.
  - eapply net_ok_same; [|exact Hok]. by apply Hs.
Qed.

Lemma drop_same n n' id :
  nn_peers n !! id = None -> nn_peers n' = delete id (nn_peers n) -> nn_tasks n' = nn_tasks n ->
  nn_next n' = nn_next n ->
  connections_per_ip (nn_tracker n') = connections_per_ip (nn_tracker n) -> same_tasks n n'.
Proof.
  intros Hn Hp Ht Hx Hi. split_and!; [done..|]. intros i p. rewrite Hp.
  intros [_ ?]%lookup_delete_Some. by left.
Qed.

Lemma net_ok_spawn_outbound n addr slot : net_ok n -> net_ok (spawn n addr true slot).
Proof.
  intros Hok. destruct (spawn_tokens n addr true slot Hok) as [H1 H2].
  assert (forall ip, inbound_from ip (nn_tasks (spawn n addr true slot)) =
                     inbound_from ip (nn_tasks n)) as Hin.
  { intros ip. cbn. rewrite inbound_from_app. cbn. rewrite decide_False by (by intros [? _]). lia. }
  split; [done|done|apply Hok| |].
  - eapply counted_ext; [|apply Hok]. intros ip. by rewrite Hin.
  - intros ip. rewrite Hin. apply Hok.
Qed.

Lemma observe_same n : same_tasks n (observe_outbound_health n).2.
Proof. unfold observe_outbound_health. repeat case_match; split_and!; cbn; auto. Qed.

Lemma net_ok_connector n m p o b a : net_ok n -> net_ok (connector_tick n m p o b a).
Proof.
  intros Hok. unfold connector_tick. pose proof (observe_same n) as Hs.
  destruct (observe_outbound_health n) as [c n']. cbn in Hs.
  pose proof (net_ok_same _ _ Hs Hok) as Hok'. destruct (m <=? c); [done|].
  destruct a as [addr|]; [|done]. repeat (case_match; try done).
  - apply net_ok_spawn_outbound. eapply net_ok_same; [|exact Hok'].
    unfold Tracker.try_track_outbound_subnet_owned, Tracker.try_track_outbound_subnet in *.
    repeat case_match; simplify_eq; split_and!; cbn; auto.
  - eapply net_ok_same; [|exact Hok'].
    unfold Tracker.try_track_outbound_subnet_owned, Tracker.try_track_outbound_subnet in *.
    repeat case_match; simplify_eq; split_and!; cbn; auto.
Qed.

Lemma net_ok_step n e : net_ok n -> keeps_peers n e -> net_ok (step n e).
Proof.
  intros Hok Hk. destruct e; cbn [step].
  - by apply net_ok_accept.
  - by apply net_ok_register.
  - by apply net_ok_finish.
  - apply (net_ok_drop n _ id Hok); [by unfold disconnect_peer; destruct (nn_peers n !! id)| |exact Hk].
    intros E. apply (drop_same _ _ id E); unfold disconnect_peer; rewrite E; cbn;
      by rewrite ?drop_slot_ips.
  - apply (net_ok_drop n _ id Hok); [by unfold ban_peer; destruct (nn_peers n !! id)| |exact Hk].
    intros E. apply (drop_same _ _ id E); unfold ban_peer; rewrite E; cbn; by rewrite ?drop_slot_ips.
  - cbn [keeps_peers step] in Hk. rewrite cleanup_tick_drops in Hk |- *.
    rewrite (kept_none n (pi_id <$> _)); [done| |by rewrite <- drop_all_peers].
    intros id (p & -> & [_ Hp]%list_elem_of_filter)%list_elem_of_fmap.
    rewrite peers_iter_perm in Hp. apply list_elem_of_fmap in Hp as ([i q] & -> & Hq).
    apply elem_of_map_to_list in Hq. cbn. rewrite (no_keys _ Hok i q Hq). by exists q.
  - destruct (rotate_peers n) as [->|[(id & Hd & Hs)|(Hi & Hp & Ht & Hx)]]; [done| |].
    + apply (net_ok_drop n _ id Hok Hd); [|exact Hk]. intros E. rewrite E in Hs. by destruct Hs.
    + eapply net_ok_same; [|exact Hok]. split_and!; [done..|]. intros id p. rewrite Hp. by left.
  - unfold handle_reject. destruct (nn_peers n !! id) as [p|] eqn:E; [|done].
    eapply net_ok_same; [|exact Hok]. split_and!; [done..|]. cbn. intros i q.
    destruct (decide (i = id)) as [->|Hi].
    + rewrite lookup_insert_eq. intros [= <-]. right. apply (no_keys _ Hok id p E).
    + rewrite lookup_insert_ne by done. by left.
  - eapply net_ok_same; [|exact Hok]. split_and!; cbn; auto.
  - eapply net_ok_same; [|exact Hok]. split_and!; cbn; auto.
  - by apply net_ok_connector.
Qed.

(** As long as the node drops no peer itself (connections that end by
    themselves are fine), the tracker counts exactly the inbound connections that
    are open from each address, registered or still in their handshake, and never
    more than two. *)
Theorem quiet_node_caps_addresses budget n ip :
  quiet budget n ->
  Tracker.connections_from (nn_tracker n) ip = inbound_from ip (nn_tasks n) /\
  inbound_from ip (nn_tasks n) <= MAX_CONNECTIONS_PER_IP.
Proof.
  intros Hq. assert (net_ok n) as Hok.
  { induction Hq as [|n e _ IH Hk]; [|by apply net_ok_step].
    split; cbn; [constructor|by intros k ?%elem_of_nil|by intros ??|done|done]. }
  split; [apply (no_ips _ Hok ip)|apply Hok].
Qed.
End net.

(** ** Runs *)

Definition demo_addr (a b : Z) : SocketAddr := mkSocketAddr (V4 [10; 1; a; b]) 28080.
Definition demo_budget : Z := 52428800.

(** Sixty-four addresses connect and do nothing. *)
Definition idle_crowd : list event :=
  concat ((fun i => [EvAccept false false (demo_addr 0 i) 0; EvRegister i [i] true 0]) <$> seqZ 0 64).

Lemma polite_peers_pin_slots_witness :
  (accept (H := list_order) (run (new demo_budget) idle_crowd) false false (demo_addr 7 7)
     1000000000000000).1 = false.
Proof.
  apply (polite_peers_pin_slots (H := list_order) demo_budget idle_crowd).
  - assert (forall id es, forallb (fun e => match e with EvReject _ => false | _ => true end) es = true ->
      rejects id es = 0) as Hr.
    { intros id es. induction es as [|e es IH]; [done|]. cbn. rewrite andb_true_iff.
      intros [He Hes]. destruct e; try done; by apply IH. }
    intros id. rewrite Hr; [lia|vm_compute; reflexivity].
  - apply Z.leb_le. vm_compute. reflexivity.
Defined.

(** One round: two connections of the same address, the second of which the node
    drops. *)
Definition dropped_round (r : Z) : list event :=
  [EvAccept false false (demo_addr 0 1) 0; EvRegister (2 * r) [r + 1] true 0;
   EvAccept false false (demo_addr 0 1) 0; EvRegister (2 * r + 1) [0] true 0;
   EvDisconnect [0]; EvFinish (2 * r + 1)].
Definition dropped_rounds (m : Z) : list event := concat (dropped_round <$> seqZ 0 m).

Definition dropped_rounds_ok (m : Z) : bool :=
  let n := run (H := list_order) (new demo_budget) (dropped_rounds m) in
  (inbound_from (sa_ip (demo_addr 0 1)) (nn_tasks n) =? m) &&
  (Z.of_nat (length (filter (fun p => sa_ip (pi_addr p) = sa_ip (demo_addr 0 1))
                      (inbound_snapshot (H := list_order) n))) =? m) &&
  (Tracker.connections_from (nn_tracker n) (sa_ip (demo_addr 0 1)) =? 0).
Lemma dropped_rounds_all : forallb dropped_rounds_ok (seqZ 0 64) = true.
Proof. vm_compute. reflexivity. Qed.

(** Every peer that the node drops is untracked twice, when it is dropped and
    when its task ends, so the place of another connection from the same address is
    given away: a single address can hold any number of registered inbound
    connections up to 63 while the tracker counts none of them. *)
Theorem dropped_peers_uncap_address m :
  0 <= m < 64 ->
  let n := run (H := list_order) (new demo_budget) (dropped_rounds m) in
  inbound_from (sa_ip (demo_addr 0 1)) (nn_tasks n) = m /\
  Z.of_nat (length (filter (fun p => sa_ip (pi_addr p) = sa_ip (demo_addr 0 1))
                      (inbound_snapshot (H := list_order) n))) = m /\
  Tracker.connections_from (nn_tracker n) (sa_ip (demo_addr 0 1)) = 0.
Proof.
  intros Hm. pose proof dropped_rounds_all as Ha. rewrite forallb_forall in Ha.
  specialize (Ha m). unfold dropped_rounds_ok in Ha. rewrite !andb_true_iff, !Z.eqb_eq in Ha.
  destruct Ha as [[H1 H2] H3]; [|done]. apply list_elem_of_In, elem_of_seqZ. lia.
Qed.

Lemma dropped_peers_uncap_address_witness :
  0 <= 10 < 64 /\
  inbound_from (sa_ip (demo_addr 0 1))
    (nn_tasks (run (H := list_order) (new demo_budget) (dropped_rounds 10))) = 10.
Proof. split; [lia|]. apply (dropped_peers_uncap_address 10). lia. Defined.

(** Dials to [m] addresses of one /16, all still in their handshake, which then
    complete. *)
Definition dials (m : Z) : list event :=
  ((fun i => EvConnector 16 28081 false false (Some (demo_addr 0 i))) <$> seqZ 0 m) ++
  ((fun i => EvRegister i [i] true 0) <$> seqZ 0 m).

Definition dials_ok (m : Z) : bool :=
  let n := run (H := list_order) (new demo_budget) (dials m) in
  Z.of_nat (length (filter (fun p => Tracker.subnet_key (sa_ip (pi_addr p)) = 2561)
                      (outbound_peers (H := list_order) n))) =? m.
Lemma dials_all : forallb dials_ok (seqZ 0 17) = true.
Proof. vm_compute. reflexivity. Qed.

(** The health check takes dials that are still in their handshake for drift and
    rebuilds the counters without them, so the limit of two outbound peers per /16
    does not hold: with sixteen addresses of one /16 in the book all sixteen
    outbound places go to it. *)
Theorem dials_reset_subnet_cap m :
  0 <= m <= 16 ->
  let n := run (H := list_order) (new demo_budget) (dials m) in
  Z.of_nat (length (filter (fun p => Tracker.subnet_key (sa_ip (pi_addr p)) = 2561)
                      (outbound_peers (H := list_order) n))) = m.
Proof.
  intros Hm. pose proof dials_all as Ha. rewrite forallb_forall in Ha.
  apply Z.eqb_eq, (Ha m). apply list_elem_of_In, elem_of_seqZ. lia.
Qed.

Lemma dials_reset_subnet_cap_witness :
  0 <= 16 <= 16 /\
  Z.of_nat (length (filter (fun p => Tracker.subnet_key (sa_ip (pi_addr p)) = 2561)
    (outbound_peers (H := list_order) (run (H := list_order) (new demo_budget) (dials 16))))) = 16.
Proof. split; [lia|]. apply (dials_reset_subnet_cap 16). lia. Defined.

(** Two connections of one address, one of which ends by itself. *)
Lemma quiet_node_caps_addresses_witness :
  exists n, quiet (H := list_order) demo_budget n /\
    inbound_from (sa_ip (demo_addr 0 1)) (nn_tasks n) = 1 /\
    inbound_from (sa_ip (demo_addr 0 1)) (nn_tasks n) <= MAX_CONNECTIONS_PER_IP.
Proof.
  set (n1 := step (H := list_order) (new demo_budget) (EvAccept false false (demo_addr 0 1) 0)).
  set (n2 := step (H := list_order) n1 (EvAccept false false (demo_addr 0 1) 0)).
  set (n3 := step (H := list_order) n2 (EvFinish 0)).
  assert (quiet (H := list_order) demo_budget n3) as Hq.
  { apply quiet_step; [|exact I]. apply quiet_step; [apply quiet_step; [apply quiet_new|]|].
    - intros id Hid. vm_compute in Hid. by destruct Hid.
    - intros id Hid. vm_compute in Hid. by destruct Hid. }
  exists n3. split; [done|]. split; [vm_compute; reflexivity|].
  apply (quiet_node_caps_addresses (H := list_order) demo_budget n3). exact Hq.
Defined.
End NetRules.
