(* ===== verification/Sync.v ===== *)
(** * Block download: [src/network/sync.rs]

    [ChainSync] decides what to ask which peer for.  The fields of the Rust struct
    are grouped in six records by what they account for: what peers claim, what is
    queued, what is in flight, blocks that wait for a parent, the header request
    cycle, and the conduct of peers.  The wall clock is an argument. *)

From stdpp Require Import prelude gmap.
From Stdlib Require Import ZArith Lia.
From S2P Require Import Prelude.
From S2P Require Import Difficulty.
From S2P Require Import Block.

Local Open Scope Z_scope.

Abbreviation PeerId := Hash.

Inductive SyncState := Idle | Headers | Blocks | ConfirmingSynced | Synced.
#[export] Instance SyncState_eq_dec : EqDecision SyncState.
Proof. solve_decision. Defined.

Record BlockRequest := mkRequest { requested_from : PeerId; requested_at : Z }.
Record OrphanBlock := mkOrphanBlock { ob_block : Block; received_at : Z; ob_from : option PeerId }.

Definition MAX_ORPHAN_BLOCKS : Z := 1000.
Definition MAX_PENDING_REQUESTS : Z := 10000.
Definition ORPHAN_TTL_SECONDS : Z := 1800.
Definition ORPHAN_CLEANUP_INTERVAL : Z := 60.
Definition MAX_ORPHANS_PER_PEER : Z := u64_max.
Definition STUCK_DOWNLOAD_TIMEOUT_SECS : Z := 8.
Definition BLOCKS_STUCK_TIMEOUT : Z := 10.
Definition BLOCK_DOWNLOAD_TIMEOUT_BASE : Z := 5.
Definition BLOCK_DOWNLOAD_TIMEOUT_PER_PEER : Z := 2.
Definition WORK_CLAIM_TTL_SECS : Z := 600.
Definition MAX_HEADERS_PER_PEER : Z := 5000.
Definition MAX_PH : Z := 50000.

(** What we and our peers claim to have. *)
Record Claims := mkClaims {
  local_height : Z;
  local_tip : Hash;
  best_known_height : Z;
  peer_heights : gmap PeerId Z;
  peer_difficulties : gmap PeerId Z;
  best_known_difficulty : Z;
  local_total_difficulty : Z;
  peer_difficulty_seen_at : gmap PeerId Z
}.

(** Hashes to fetch, with the peer that announced them. *)
Record HeaderQueue := mkQueue {
  pending_headers : list Hash;
  pending_header_peer : gmap Hash PeerId;
  headers_per_peer : gmap PeerId Z
}.

(** Blocks asked for: [download_timestamps] holds [DownloadEntry::entered_at]. *)
Record Flight := mkFlight {
  pending_requests : gmap Hash BlockRequest;
  downloading : gset Hash;
  download_timestamps : gmap Hash Z
}.

Record OrphanStore := mkOrphanStore {
  orphan_blocks : gmap Hash OrphanBlock;
  orphan_by_parent : gmap Hash (list Hash);
  orphans_per_peer : gmap PeerId Z;
  last_orphan_cleanup : Z
}.

Record Cycle := mkCycle {
  cy_state : SyncState;
  headers_request_time : option Z;
  headers_received_this_cycle : bool;
  blocks_entered_at : option Z;
  pending_header_nonces : gmap Z (PeerId * Z);
  header_nonce_generation : Z;
  next_header_nonce : Z
}.

Record Conduct := mkConduct {
  peer_failures : gmap PeerId Z;
  sync_banned_peers : gmap PeerId Z;
  last_sync_peer : option PeerId;
  request_timeout : Z
}.

(** [max_concurrent] is 100 from construction on. *)
Definition max_concurrent : nat := 100.

Record ChainSync := mkSync {
  cs_claims : Claims;
  cs_queue : HeaderQueue;
  cs_flight : Flight;
  cs_orphans : OrphanStore;
  cs_cycle : Cycle;
  cs_conduct : Conduct
}.

Definition set_claims (s : ChainSync) (c : Claims) : ChainSync :=
  mkSync c (cs_queue s) (cs_flight s) (cs_orphans s) (cs_cycle s) (cs_conduct s).
Definition set_queue (s : ChainSync) (q : HeaderQueue) : ChainSync :=
  mkSync (cs_claims s) q (cs_flight s) (cs_orphans s) (cs_cycle s) (cs_conduct s).
Definition set_flight (s : ChainSync) (f : Flight) : ChainSync :=
  mkSync (cs_claims s) (cs_queue s) f (cs_orphans s) (cs_cycle s) (cs_conduct s).
Definition set_orphans (s : ChainSync) (o : OrphanStore) : ChainSync :=
  mkSync (cs_claims s) (cs_queue s) (cs_flight s) o (cs_cycle s) (cs_conduct s).
Definition set_cycle (s : ChainSync) (c : Cycle) : ChainSync :=
  mkSync (cs_claims s) (cs_queue s) (cs_flight s) (cs_orphans s) c (cs_conduct s).
Definition set_conduct (s : ChainSync) (c : Conduct) : ChainSync :=
  mkSync (cs_claims s) (cs_queue s) (cs_flight s) (cs_orphans s) (cs_cycle s) c.

(** ** Claims *)

Module Claim.
Implicit Types c : Claims.

(** [values().copied().max()]. *)
Definition max_value (m : gmap PeerId Z) : option Z :=
  match (map_to_list m).*2 with [] => None | v :: l => Some (foldl Z.max v l) end.

Definition refresh_best_known c : Claims :=
  mkClaims (local_height c) (local_tip c)
    (Z.max (local_height c) (default 0 (max_value (peer_heights c))))
    (peer_heights c) (peer_difficulties c) (best_known_difficulty c)
    (local_total_difficulty c) (peer_difficulty_seen_at c).

Definition recompute_best_difficulty c : Claims :=
  mkClaims (local_height c) (local_tip c) (best_known_height c) (peer_heights c)
    (peer_difficulties c)
    (Z.max (local_total_difficulty c) (default 0 (max_value (peer_difficulties c))))
    (local_total_difficulty c) (peer_difficulty_seen_at c).

Definition set_heights c (m : gmap PeerId Z) : Claims :=
  mkClaims (local_height c) (local_tip c) (best_known_height c) m (peer_difficulties c)
    (best_known_difficulty c) (local_total_difficulty c) (peer_difficulty_seen_at c).
Definition set_work c (m seen : gmap PeerId Z) : Claims :=
  mkClaims (local_height c) (local_tip c) (best_known_height c) (peer_heights c) m
    (best_known_difficulty c) (local_total_difficulty c) seen.
Definition set_local c (height : Z) (tip : Hash) : Claims :=
  mkClaims height tip (best_known_height c) (peer_heights c) (peer_difficulties c)
    (best_known_difficulty c) (local_total_difficulty c) (peer_difficulty_seen_at c).
Definition set_best c (height : Z) : Claims :=
  mkClaims (local_height c) (local_tip c) height (peer_heights c) (peer_difficulties c)
    (best_known_difficulty c) (local_total_difficulty c) (peer_difficulty_seen_at c).
Definition set_local_work c (d : Z) : Claims :=
  mkClaims (local_height c) (local_tip c) (best_known_height c) (peer_heights c)
    (peer_difficulties c) (best_known_difficulty c) d (peer_difficulty_seen_at c).

Definition prune_stale_peer_heights c : Claims :=
  set_heights c (filter (fun e => local_height c < e.2) (peer_heights c)).

Definition true_best_height c : Z :=
  Z.max (best_known_height c) (default 0 (max_value (peer_heights c))).
Definition is_synced c : bool := true_best_height c <=? local_height c.
Definition blocks_behind c : Z := sat_sub (best_known_height c) (local_height c).

Definition update_peer_height c (height : Z) : Claims :=
  let max := sat_add u64_max (local_height c) 10000 in
  if max <? height then c
  else
    let c := if best_known_height c <? height then set_best c height else c in
    if best_known_height c <? local_height c then set_best c (local_height c) else c.

Definition set_local_total_difficulty c (d : Z) : Claims :=
  let c := set_local_work c d in
  let work := filter (fun e => d < e.2) (peer_difficulties c) in
  recompute_best_difficulty
    (set_work c work (filter (fun e => is_Some (work !! e.1)) (peer_difficulty_seen_at c))).

Definition remove_peer_height c (peer : PeerId) : Claims :=
  recompute_best_difficulty (refresh_best_known
    (set_work (set_heights c (delete peer (peer_heights c)))
       (delete peer (peer_difficulties c)) (delete peer (peer_difficulty_seen_at c)))).

Definition retain_connected_peers c (connected : gset PeerId) : Z * Claims :=
  let before := Z.of_nat (size (peer_heights c)) in
  let c := set_heights c (filter (fun e => e.1 ∈ connected) (peer_heights c)) in
  let c := set_work c (filter (fun e => e.1 ∈ connected) (peer_difficulties c))
             (filter (fun e => e.1 ∈ connected) (peer_difficulty_seen_at c)) in
  let pruned := sat_sub before (Z.of_nat (size (peer_heights c))) in
  (pruned,
   if (0 <? pruned) || negb (bool_decide (peer_difficulties c = ∅))
   then recompute_best_difficulty (refresh_best_known c) else c).

Definition expire_stale_work_claims c (now ttl : Z) : Z * Claims :=
  let cutoff := sat_sub now ttl in
  let stale := (filter (fun e => e.2 < cutoff) (map_to_list (peer_difficulty_seen_at c))).*1 in
  let c' := set_work c (foldl (fun m p => delete p m) (peer_difficulties c) stale)
              (foldl (fun m p => delete p m) (peer_difficulty_seen_at c) stale) in
  (Z.of_nat (length stale), if decide (stale = []) then c' else recompute_best_difficulty c').

Definition peers_above_height c (min : Z) : list PeerId :=
  (filter (fun e => min <= e.2) (map_to_list (peer_heights c))).*1.

(** The claims part of [on_timeout], when the third failure bans the peer. *)
Definition drop_work_claim c (peer : PeerId) : Claims :=
  recompute_best_difficulty
    (set_work c (delete peer (peer_difficulties c)) (delete peer (peer_difficulty_seen_at c))).

(** The claims part of [on_peer_disconnected]. *)
Definition forget_peer c (peer : PeerId) : Claims :=
  recompute_best_difficulty (refresh_best_known
    (set_work (set_heights c (delete peer (peer_heights c)))
       (delete peer (peer_difficulties c)) (peer_difficulty_seen_at c))).
End Claim.

(** ** Header request cycle *)

Module Cyc.
Implicit Types c : Cycle.

Definition settled (st : SyncState) : bool :=
  match st with Synced | Idle | ConfirmingSynced => true | _ => false end.

Definition with_state c (st : SyncState) : Cycle :=
  mkCycle st (headers_request_time c) (headers_received_this_cycle c) (blocks_entered_at c)
    (pending_header_nonces c) (header_nonce_generation c) (next_header_nonce c).
Definition with_request c (t : option Z) : Cycle :=
  mkCycle (cy_state c) t (headers_received_this_cycle c) (blocks_entered_at c)
    (pending_header_nonces c) (header_nonce_generation c) (next_header_nonce c).
Definition with_received c (b : bool) : Cycle :=
  mkCycle (cy_state c) (headers_request_time c) b (blocks_entered_at c)
    (pending_header_nonces c) (header_nonce_generation c) (next_header_nonce c).
Definition with_entered c (t : option Z) : Cycle :=
  mkCycle (cy_state c) (headers_request_time c) (headers_received_this_cycle c) t
    (pending_header_nonces c) (header_nonce_generation c) (next_header_nonce c).
Definition with_nonces c (m : gmap Z (PeerId * Z)) : Cycle :=
  mkCycle (cy_state c) (headers_request_time c) (headers_received_this_cycle c)
    (blocks_entered_at c) m (header_nonce_generation c) (next_header_nonce c).

(** [state = Headers; headers_request_time = None; headers_received = false]. *)
Definition rearm c : Cycle := with_received (with_request (with_state c Headers) None) false.

(** Enter [Blocks] and note the time unless one is noted. *)
Definition enter_blocks c (now : Z) : Cycle :=
  let c := with_state c Blocks in
  match blocks_entered_at c with None => with_entered c (Some now) | Some _ => c end.

Definition set_state c (st : SyncState) : Cycle :=
  with_state (if decide (st = Blocks) then c else with_entered c None) st.

Definition begin_headers_request c (peer : PeerId) (now : Z) : option Z * Cycle :=
  match headers_request_time c with
  | Some _ => (None, c)
  | None =>
      let n := next_header_nonce c in
      (Some n,
       mkCycle (cy_state c) (Some now) (headers_received_this_cycle c) (blocks_entered_at c)
         (<[n := (peer, header_nonce_generation c)]> (pending_header_nonces c))
         (header_nonce_generation c) (wrap64 (n + 1)))
  end.

(** The nonce is outstanding, for this peer, in this generation. *)
Definition nonce_matches c (n : Z) (peer : PeerId) : bool :=
  bool_decide (pending_header_nonces c !! n = Some (peer, header_nonce_generation c)).

Definition cancel_headers_request c (n : Z) (peer : PeerId) : bool * Cycle :=
  if nonce_matches c n peer
  then (true, with_request (with_nonces c (delete n (pending_header_nonces c))) None)
  else (false, c).
Definition validate_header_nonce c (n : Z) (from_peer : PeerId) : bool * Cycle :=
  if nonce_matches c n from_peer
  then (true, with_request (with_nonces c (delete n (pending_header_nonces c))) None)
  else (false, c).

Definition headers_timed_out c (now : Z) : bool :=
  match headers_request_time c with Some t => wrap64 (t + 60) <? now | None => false end.
Definition reset_headers_timeout c : Cycle :=
  mkCycle (cy_state c) None (headers_received_this_cycle c) (blocks_entered_at c) ∅
    (wrap64 (header_nonce_generation c + 1)) (next_header_nonce c).

Definition trigger_resync c : bool * Cycle :=
  match cy_state c with
  | Synced | Idle => (true, rearm c)
  | _ => (false, c)
  end.
End Cyc.

(** ** Blocks in flight *)

Module Fly.
Implicit Types f : Flight.

(** Removed from all three collections. *)
Definition forget f (h : Hash) : Flight :=
  mkFlight (delete h (pending_requests f)) (downloading f ∖ {[h]})
    (delete h (download_timestamps f)).

(** Entered without a request yet ([get_blocks_to_request]). *)
Definition enter f (h : Hash) (now : Z) : Flight :=
  mkFlight (pending_requests f) ({[h]} ∪ downloading f) (<[h := now]> (download_timestamps f)).

(** The request made first, by [min_by_key] on its time. *)
Definition earlier (a b : Hash * BlockRequest) : Hash * BlockRequest :=
  if requested_at b.2 <? requested_at a.2 then b else a.
Definition oldest_request f : option Hash :=
  match map_to_list (pending_requests f) with
  | [] => None
  | e :: l => Some (foldl earlier e l).1
  end.

Definition make_room f (hash : Hash) : Flight :=
  if (MAX_PENDING_REQUESTS <=? Z.of_nat (size (pending_requests f)))
     && negb (bool_decide (is_Some (pending_requests f !! hash)))
  then match oldest_request f with Some k => forget f k | None => f end
  else f.

Definition record_request f (hash : Hash) (peer : PeerId) (ts : Z) : Flight :=
  let f := make_room f hash in
  mkFlight (<[hash := mkRequest peer ts]> (pending_requests f)) ({[hash]} ∪ downloading f)
    (match download_timestamps f !! hash with
     | Some _ => download_timestamps f
     | None => <[hash := ts]> (download_timestamps f)
     end).

Definition timed_out f (now timeout : Z) : list (Hash * BlockRequest) :=
  filter (fun e => wrap64 (requested_at e.2 + timeout) < now) (map_to_list (pending_requests f)).

(** In [download_timestamps], without a request, for longer than the limit. *)
Definition stuck f (now : Z) : list Hash :=
  (filter (fun e => pending_requests f !! e.1 = None
                    /\ wrap64 (e.2 + STUCK_DOWNLOAD_TIMEOUT_SECS) < now)
     (map_to_list (download_timestamps f))).*1.

Definition requests_of f (peer : PeerId) : list Hash :=
  (filter (fun e => requested_from e.2 = peer) (map_to_list (pending_requests f))).*1.

Definition unrequested f : list Hash :=
  filter (fun h => pending_requests f !! h = None) (elements (downloading f)).
End Fly.

(** ** The header queue *)

Module Que.
Implicit Types q : HeaderQueue.

Definition with_headers q (l : list Hash) : HeaderQueue :=
  mkQueue l (pending_header_peer q) (headers_per_peer q).
Definition push_front q (h : Hash) : HeaderQueue := with_headers q (h :: pending_headers q).
Definition empty : HeaderQueue := mkQueue [] ∅ ∅.

Definition untrack_pending_header q (hash : Hash) : HeaderQueue :=
  match pending_header_peer q !! hash with
  | None => q
  | Some peer =>
      mkQueue (pending_headers q) (delete hash (pending_header_peer q))
        (match headers_per_peer q !! peer with
         | Some count => if 1 <? count then <[peer := count - 1]> (headers_per_peer q)
                         else delete peer (headers_per_peer q)
         | None => headers_per_peer q
         end)
  end.

(** The loop of [queue_headers_inner]; [room] is what the peer may still add. *)
Fixpoint add_headers (f : Flight) (o : OrphanStore) q (peer : option PeerId) (room added : Z)
    (headers : list Hash) : Z * HeaderQueue :=
  match headers with
  | [] => (added, q)
  | hash :: headers =>
      if MAX_PH <=? Z.of_nat (length (pending_headers q)) then (added, q)
      else if bool_decide (is_Some peer) && (room <=? added) then (added, q)
      else if negb (bool_decide (hash ∈ downloading f))
              && negb (bool_decide (is_Some (orphan_blocks o !! hash)))
              && negb (bool_decide (is_Some (pending_header_peer q !! hash)))
      then
        match peer with
        | Some p =>
            add_headers f o
              (mkQueue (pending_headers q ++ [hash]) (<[hash := p]> (pending_header_peer q))
                 (headers_per_peer q)) peer room (added + 1) headers
        | None =>
            add_headers f o (with_headers q (pending_headers q ++ [hash])) peer room added headers
        end
      else add_headers f o q peer room added headers
  end.

Definition credit_peer q (peer : option PeerId) (added : Z) : HeaderQueue :=
  match peer with
  | Some p =>
      if 0 <? added
      then mkQueue (pending_headers q) (pending_header_peer q)
             (<[p := default 0 (headers_per_peer q !! p) + added]> (headers_per_peer q))
      else q
  | None => q
  end.

(** The loop of [get_blocks_to_request]: [limit] is [max.min(slots)]. *)
Fixpoint take_blocks (limit : nat) (now : Z) q (f : Flight) (out headers : list Hash)
  : list Hash * HeaderQueue * Flight :=
  match headers with
  | [] => (out, with_headers q [], f)
  | h :: rest =>
      if (limit <=? length out)%nat then (out, with_headers q headers, f)
      else
        let q := untrack_pending_header q h in
        if decide (h ∈ downloading f) then take_blocks limit now q f out rest
        else take_blocks limit now q (Fly.enter f h now) (out ++ [h]) rest
  end.
End Que.

(** ** Blocks without a parent *)

Module Orp.
Section orphans.
Context (block_hash : Block -> Hash).
Implicit Types o : OrphanStore.

(** Remove one orphan and its row in the index; the counter of its peer stays. *)
Definition unlink o (k parent : Hash) : OrphanStore :=
  mkOrphanStore (delete k (orphan_blocks o))
    (match orphan_by_parent o !! parent with
     | Some children =>
         let children := filter (fun h => h <> k) children in
         if decide (children = []) then delete parent (orphan_by_parent o)
         else <[parent := children]> (orphan_by_parent o)
     | None => orphan_by_parent o
     end)
    (orphans_per_peer o) (last_orphan_cleanup o).

Definition set_cleanup o (t : Z) : OrphanStore :=
  mkOrphanStore (orphan_blocks o) (orphan_by_parent o) (orphans_per_peer o) t.
Definition set_counts o (m : gmap PeerId Z) : OrphanStore :=
  mkOrphanStore (orphan_blocks o) (orphan_by_parent o) m (last_orphan_cleanup o).

Definition cleanup_expired_orphans o (current_time : Z) : Z * OrphanStore :=
  let o := if current_time <? last_orphan_cleanup o then set_cleanup o current_time else o in
  if current_time <? wrap64 (last_orphan_cleanup o + ORPHAN_CLEANUP_INTERVAL) then (0, o)
  else
    let o := set_cleanup o current_time in
    let cutoff := sat_sub current_time ORPHAN_TTL_SECONDS in
    let expired := filter (fun e => received_at e.2 <= cutoff) (map_to_list (orphan_blocks o)) in
    (Z.of_nat (length expired),
     foldl (fun o e => unlink o e.1 (prev_hash (header (ob_block e.2)))) o expired).

Definition older (a b : Hash * OrphanBlock) : Hash * OrphanBlock :=
  if received_at b.2 <? received_at a.2 then b else a.
Definition oldest_orphan o : option (Hash * OrphanBlock) :=
  match map_to_list (orphan_blocks o) with
  | [] => None
  | e :: l => Some (foldl older e l)
  end.

(** [while orphan_blocks.len() >= MAX_ORPHAN_BLOCKS]; each turn removes one. *)
Fixpoint evict_orphans (fuel : nat) o : OrphanStore :=
  match fuel with
  | O => o
  | S fuel =>
      if MAX_ORPHAN_BLOCKS <=? Z.of_nat (size (orphan_blocks o)) then
        match oldest_orphan o with
        | Some (k, e) => evict_orphans fuel (unlink o k (prev_hash (header (ob_block e))))
        | None => o
        end
      else o
  end.

(** Count the orphan for its peer, if the peer has room. *)
Definition admitted o (from : option PeerId) : option OrphanStore :=
  match from with
  | None => Some o
  | Some pid =>
      let c := default 0 (orphans_per_peer o !! pid) in
      if MAX_ORPHANS_PER_PEER <=? c then None
      else Some (set_counts o (<[pid := c + 1]> (orphans_per_peer o)))
  end.
(** The entry the refused peer gets all the same ([entry(pid).or_insert(0)]). *)
Definition touch_count o (from : option PeerId) : OrphanStore :=
  match from with
  | None => o
  | Some pid => set_counts o (<[pid := default 0 (orphans_per_peer o !! pid)]> (orphans_per_peer o))
  end.

Definition link o (block : Block) (now : Z) (from : option PeerId) : OrphanStore :=
  let parent := prev_hash (header block) in
  mkOrphanStore (<[block_hash block := mkOrphanBlock block now from]> (orphan_blocks o))
    (<[parent := default [] (orphan_by_parent o !! parent) ++ [block_hash block]]>
       (orphan_by_parent o))
    (orphans_per_peer o) (last_orphan_cleanup o).

(** Evict until there is room, then store the block unless its peer is over the
    limit. *)
Definition store o (block : Block) (now : Z) (from : option PeerId) : OrphanStore :=
  let o := evict_orphans (size (orphan_blocks o)) o in
  match admitted o from with
  | Some o => link o block now from
  | None => touch_count o from
  end.

Definition release_count o (from : option PeerId) : OrphanStore :=
  match from with
  | None => o
  | Some pid =>
      match orphans_per_peer o !! pid with
      | Some c => set_counts o (<[pid := sat_sub c 1]> (orphans_per_peer o))
      | None => o
      end
  end.

(** The children [chs] of one parent leave the pool: the blocks released. *)
Fixpoint release_children o (chs : list Hash) : list Block * OrphanStore :=
  match chs with
  | [] => ([], o)
  | ch :: chs =>
      match orphan_blocks o !! ch with
      | Some e =>
          let o := mkOrphanStore (delete ch (orphan_blocks o)) (orphan_by_parent o)
                     (orphans_per_peer o) (last_orphan_cleanup o) in
          let '(bs, o) := release_children (release_count o (ob_from e)) chs in
          (ob_block e :: bs, o)
      | None => release_children o chs
      end
  end.

(** [while let Some(ph) = q.pop_front()]: breadth first through the pool. *)
Fixpoint release (fuel : nat) o (q : list Hash) : list Block * OrphanStore :=
  match fuel, q with
  | S fuel, ph :: q =>
      match orphan_by_parent o !! ph with
      | Some chs =>
          let o := mkOrphanStore (orphan_blocks o) (delete ph (orphan_by_parent o))
                     (orphans_per_peer o) (last_orphan_cleanup o) in
          let '(bs, o) := release_children o chs in
          let '(rest, o) := release fuel o (q ++ (block_hash <$> bs)) in
          (bs ++ rest, o)
      | None => release fuel o q
      end
  | _, _ => ([], o)
  end.
End orphans.
End Orp.

(** ** Peers that fail *)

Module Con.
Implicit Types c : Conduct.
Definition set_failures c (m : gmap PeerId Z) : Conduct :=
  mkConduct m (sync_banned_peers c) (last_sync_peer c) (request_timeout c).
Definition fail c (from : option PeerId) : Conduct :=
  match from with
  | Some p => set_failures c (<[p := wrap32 (default 0 (peer_failures c !! p) + 1)]> (peer_failures c))
  | None => c
  end.
Definition on_block_success c (pid : PeerId) : Conduct :=
  mkConduct (delete pid (peer_failures c)) (sync_banned_peers c) (last_sync_peer c)
    (Z.max (wrap64 (request_timeout c * 85) / 100) 15).
Definition increase_timeout c : Conduct :=
  mkConduct (peer_failures c) (sync_banned_peers c) (last_sync_peer c)
    (Z.min (wrap64 (request_timeout c * 2)) 64).
Definition is_sync_banned c (pid : PeerId) (now : Z) : bool :=
  match sync_banned_peers c !! pid with Some t => now <? t | None => false end.
Definition cleanup_sync_bans c (now : Z) : Conduct :=
  mkConduct (peer_failures c) (filter (fun e => e.2 <= now) (sync_banned_peers c))
    (last_sync_peer c) (request_timeout c).
Definition set_last_sync_peer c (pid : PeerId) : Conduct :=
  mkConduct (peer_failures c) (sync_banned_peers c) (Some pid) (request_timeout c).
Definition request_timeout_scaled c (peer_count : Z) : Z :=
  let per_peer_bonus := wrap64 (BLOCK_DOWNLOAD_TIMEOUT_PER_PEER * sat_sub peer_count 1) in
  Z.max (request_timeout c) (sat_add u64_max BLOCK_DOWNLOAD_TIMEOUT_BASE per_peer_bonus).
(** A failure of [peer] at [now]; the third one bans it for five minutes.  The flag
    says that it was banned. *)
Definition strike c (peer : PeerId) (now : Z) : bool * Conduct :=
  let count := wrap32 (default 0 (peer_failures c !! peer) + 1) in
  if 3 <=? count then
    (true, mkConduct (delete peer (peer_failures c))
             (<[peer := wrap64 (now + 300)]> (sync_banned_peers c)) (last_sync_peer c)
             (request_timeout c))
  else (false, set_failures c (<[peer := count]> (peer_failures c))).
End Con.

(** ** Operations *)

Module Sync.
Section sync.
Context (block_hash : Block -> Hash).
Implicit Types s : ChainSync.

Definition new (height : Z) (tip : Hash) : ChainSync :=
  mkSync (mkClaims height tip height ∅ ∅ 0 0 ∅) Que.empty (mkFlight ∅ ∅ ∅)
    (mkOrphanStore ∅ ∅ ∅ 0) (mkCycle Idle None false None ∅ 0 1) (mkConduct ∅ ∅ None 30).

Definition state s : SyncState := cy_state (cs_cycle s).

(** [pending_headers.is_empty() && downloading.is_empty()]. *)
Definition drained s : bool :=
  bool_decide (pending_headers (cs_queue s) = []) && bool_decide (downloading (cs_flight s) = ∅).
Definition idle s : bool := drained s && bool_decide (pending_requests (cs_flight s) = ∅).

Definition set_local_tip s (height : Z) (tip : Hash) : ChainSync :=
  let s := set_claims s (Claim.refresh_best_known
             (Claim.prune_stale_peer_heights (Claim.set_local (cs_claims s) height tip))) in
  if (best_known_height (cs_claims s) <=? local_height (cs_claims s)) && drained s
  then set_cycle s (Cyc.with_state (cs_cycle s) Synced) else s.

Definition update_peer_height_for s (peer : PeerId) (height : Z) : ChainSync :=
  let c := cs_claims s in
  if sat_add u64_max (local_height c) 10000 <? height then s
  else if height <=? local_height c then
    set_claims s (Claim.refresh_best_known (Claim.set_heights c (delete peer (peer_heights c))))
  else
    let s := set_claims s (Claim.refresh_best_known
               (Claim.set_heights c (<[peer := height]> (peer_heights c)))) in
    if Cyc.settled (state s) then set_cycle s (Cyc.rearm (cs_cycle s)) else s.

Definition update_peer_difficulty_for s (peer : PeerId) (total now : Z) : ChainSync :=
  let c := cs_claims s in
  let observed_max := default (best_known_difficulty c) (Claim.max_value (peer_difficulties c)) in
  let cap := Z.max (sat_mul u128_max observed_max 2) (Z.shiftl 1 60) in
  if cap <? total then s
  else if total <=? local_total_difficulty c then
    set_claims s (Claim.recompute_best_difficulty
      (Claim.set_work c (delete peer (peer_difficulties c))
         (delete peer (peer_difficulty_seen_at c))))
  else
    let s := set_claims s (Claim.recompute_best_difficulty
               (Claim.set_work c (<[peer := total]> (peer_difficulties c))
                  (<[peer := now]> (peer_difficulty_seen_at c)))) in
    if Cyc.settled (state s) then set_cycle s (Cyc.rearm (cs_cycle s)) else s.

Definition queue_empty_headers s : ChainSync :=
  let s := if bool_decide (state s = ConfirmingSynced) && (0 <? local_height (cs_claims s))
           then set_cycle s (Cyc.with_state (cs_cycle s) Synced) else s in
  match state s with
  | Headers | ConfirmingSynced =>
      if wrap64 (local_height (cs_claims s) + 2) <? Claim.true_best_height (cs_claims s)
      then set_cycle s (Cyc.with_request (Cyc.with_state (cs_cycle s) Headers) None)
      else s
  | _ => s
  end.

Definition queue_headers_inner s (headers : list Hash) (peer : option PeerId) (now : Z)
  : ChainSync :=
  match headers with
  | [] => queue_empty_headers s
  | _ =>
      let s := set_cycle s (Cyc.with_received (cs_cycle s) true) in
      let room := match peer with
                  | Some p => sat_sub MAX_HEADERS_PER_PEER
                                (default 0 (headers_per_peer (cs_queue s) !! p))
                  | None => 0
                  end in
      let '(added, q) :=
        Que.add_headers (cs_flight s) (cs_orphans s) (cs_queue s) peer room 0 headers in
      let s := set_queue s (Que.credit_peer q peer added) in
      if bool_decide (pending_headers (cs_queue s) = []) then s
      else set_cycle s (Cyc.enter_blocks (cs_cycle s) now)
  end.
Definition queue_headers s (headers : list Hash) (now : Z) : ChainSync :=
  queue_headers_inner s headers None now.
Definition queue_headers_from_peer s (peer : PeerId) (headers : list Hash) (now : Z) : ChainSync :=
  queue_headers_inner s headers (Some peer) now.

Definition get_blocks_to_request s (max : nat) (now : Z) : list Hash * ChainSync :=
  let slots := (max_concurrent - size (downloading (cs_flight s)))%nat in
  let '(out, q, f) := Que.take_blocks (max `min` slots) now (cs_queue s) (cs_flight s) []
                        (pending_headers (cs_queue s)) in
  (out, set_flight (set_queue s q) f).

Definition record_request s (hash : Hash) (peer : PeerId) (ts : Z) : ChainSync :=
  set_flight s (Fly.record_request (cs_flight s) hash peer ts).
Definition track_direct_request s (hash : Hash) (peer : PeerId) (ts : Z) : ChainSync :=
  record_request s hash peer ts.

Definition strike_sender s (from : option PeerId) : ChainSync :=
  set_conduct s (Con.fail (cs_conduct s) from).

(** The target is all ones or all zeros. *)
Definition bogus_target (t : Hash) : bool :=
  forallb (fun b => b =? 255) t || forallb (fun b => b =? 0) t.

Definition on_block_received_from s (block : Block) (from : option PeerId) (now : Z)
  : list Block * ChainSync :=
  let hash := block_hash block in
  let height := h_height (header block) in
  if sat_add u64_max (local_height (cs_claims s)) 10000 <? height then ([], strike_sender s from)
  else if bogus_target (h_target (header block)) then ([], strike_sender s from)
  else if negb (meets_difficulty hash (h_target (header block))) then ([], strike_sender s from)
  else
    let s := set_orphans s (Orp.cleanup_expired_orphans (cs_orphans s) now).2 in
    let was_req := bool_decide (hash ∈ downloading (cs_flight s)) in
    let s := set_flight s (Fly.forget (cs_flight s) hash) in
    let connects := bool_decide (prev_hash (header block) = local_tip (cs_claims s))
                    || (height =? 0) in
    if connects || was_req then
      let '(released, o) :=
        Orp.release block_hash (S (size (orphan_blocks (cs_orphans s)))) (cs_orphans s) [hash] in
      (block :: released, set_orphans s o)
    else ([], set_orphans s (Orp.store block_hash (cs_orphans s) block now from)).
Definition on_block_received s (block : Block) (now : Z) : list Block * ChainSync :=
  on_block_received_from s block None now.

Definition mark_block_received s (hash : Hash) : ChainSync :=
  let s := match pending_requests (cs_flight s) !! hash with
           | Some req => set_conduct s (Con.on_block_success (cs_conduct s) (requested_from req))
           | None => s
           end in
  set_flight s (Fly.forget (cs_flight s) hash).

(** Out of flight and back to the front of the queue. *)
Definition requeue s (hash : Hash) : ChainSync :=
  set_queue (set_flight s (Fly.forget (cs_flight s) hash)) (Que.push_front (cs_queue s) hash).

Definition mark_block_failed s (hash : Hash) : ChainSync := requeue s hash.

Definition mark_block_orphan s (block : Block) (from : option PeerId) (parent_hash : Hash)
    (now : Z) : ChainSync :=
  let orphan_hash := block_hash block in
  let s := set_flight s (Fly.forget (cs_flight s) orphan_hash) in
  let s := if bool_decide (is_Some (orphan_blocks (cs_orphans s) !! orphan_hash)) then s
           else set_orphans s (Orp.store block_hash (cs_orphans s) block now from) in
  if bool_decide (parent_hash = local_tip (cs_claims s)) then s
  else if bool_decide (parent_hash ∈ downloading (cs_flight s)) then s
  else if bool_decide (parent_hash ∈ pending_headers (cs_queue s)) then s
  else if Z.of_nat (length (pending_headers (cs_queue s))) <? MAX_PH then
    let s := set_queue s (Que.push_front (cs_queue s) parent_hash) in
    if Cyc.settled (state s) then set_cycle s (Cyc.with_state (cs_cycle s) Blocks) else s
  else s.

Definition on_block_processed s (hash : Hash) (height : Z) : ChainSync :=
  let s := set_claims s (Claim.refresh_best_known (Claim.set_local (cs_claims s) height hash)) in
  if drained s then
    let c := Cyc.with_entered (cs_cycle s) None in
    let tb := Claim.true_best_height (cs_claims s) in
    let heights := peer_heights (cs_claims s) in
    let next :=
      if height <? sat_sub tb 1 then Headers
      else if (height =? 0) && negb (bool_decide (heights = ∅))
              && negb (existsb (fun h => 0 <? h) (map_to_list heights).*2) then Headers
      else ConfirmingSynced in
    set_cycle s (Cyc.with_received (Cyc.with_state c next) false)
  else s.

Definition get_timed_out s (now : Z) : list (Hash * PeerId) :=
  (fun e => (e.1, requested_from e.2)) <$>
    Fly.timed_out (cs_flight s) now (request_timeout (cs_conduct s)).

Definition on_timeout s (hash : Hash) (now : Z) : ChainSync :=
  let s := match pending_requests (cs_flight s) !! hash with
           | Some req =>
               let '(banned, c) := Con.strike (cs_conduct s) (requested_from req) now in
               let s := set_conduct s c in
               if banned : bool
               then set_claims s (Claim.drop_work_claim (cs_claims s) (requested_from req))
               else s
           | None => s
           end in
  requeue s hash.

(** Work went back to the queue: a synced node returns to [Blocks]. *)
Definition leave_synced s (any : bool) (now : Z) : ChainSync :=
  if any && bool_decide (state s = Synced)
  then set_cycle s (Cyc.enter_blocks (cs_cycle s) now) else s.

Definition requeue_all s (hashes : list Hash) : ChainSync := foldl requeue s hashes.

Definition requeue_failed s (hashes : list Hash) (now : Z) : ChainSync :=
  leave_synced (requeue_all s (rev hashes)) (negb (bool_decide (hashes = []))) now.

Definition clear s : ChainSync :=
  mkSync (cs_claims s) Que.empty (mkFlight ∅ ∅ ∅)
    (mkOrphanStore ∅ ∅ ∅ (last_orphan_cleanup (cs_orphans s)))
    (Cyc.with_entered (Cyc.with_state (cs_cycle s) Idle) None) (cs_conduct s).

Definition is_stalled s (now timeout : Z) : bool :=
  if Cyc.settled (state s) then false
  else
    let f := cs_flight s in
    (negb (bool_decide (pending_requests f = ∅)) &&
     forallb (fun e => wrap64 (requested_at e.2 + timeout) <? now)
       (map_to_list (pending_requests f)))
    || negb (bool_decide (Fly.stuck f now = [])).

(** The stuck downloads leave [downloading] and the timestamps; they have no
    request to remove. *)
Definition requeue_stuck s (hashes : list Hash) : ChainSync := foldl requeue s hashes.

Definition get_blocks_to_retry s (now : Z) : list Hash * ChainSync :=
  let to := (Fly.timed_out (cs_flight s) now (request_timeout (cs_conduct s))).*1 in
  let s := requeue_all s to in
  let stuck := Fly.stuck (cs_flight s) now in
  let s := requeue_stuck s stuck in
  let s := leave_synced s (negb (bool_decide (to = [])) || negb (bool_decide (stuck = []))) now in
  let s := if (5 <=? length stuck)%nat && bool_decide (state s = Blocks) then
             set_queue (set_cycle s (Cyc.with_entered (Cyc.rearm (cs_cycle s)) None)) Que.empty
           else s in
  (to ++ stuck, s).

Definition recover_stuck_downloads s (now : Z) : nat * ChainSync :=
  let l := Fly.unrequested (cs_flight s) in
  (length l, leave_synced (requeue_stuck s l) (negb (bool_decide (l = []))) now).

Definition on_peer_disconnected s (peer : PeerId) (now : Z) : ChainSync :=
  let s := set_conduct s (Con.set_failures (cs_conduct s)
                            (delete peer (peer_failures (cs_conduct s)))) in
  let s := set_orphans s (Orp.set_counts (cs_orphans s)
                            (delete peer (orphans_per_peer (cs_orphans s)))) in
  let s := set_claims s (Claim.forget_peer (cs_claims s) peer) in
  let rq := Fly.requests_of (cs_flight s) peer in
  leave_synced (requeue_all s rq) (negb (bool_decide (rq = []))) now.

Definition arm_near_tip_catchup s : bool * ChainSync :=
  if idle s && negb (Claim.is_synced (cs_claims s))
  then (true, set_cycle s (Cyc.rearm (cs_cycle s))) else (false, s).

Definition blocks_state_stuck s (now : Z) : bool :=
  bool_decide (state s = Blocks) &&
  match blocks_entered_at (cs_cycle s) with
  | None => false
  | Some e => idle s && (local_height (cs_claims s) <? Claim.true_best_height (cs_claims s))
              && (wrap64 (e + BLOCKS_STUCK_TIMEOUT) <? now)
  end.

Definition needs_more_peers s : bool := negb (Claim.is_synced (cs_claims s)) && drained s.
End sync.

(** ** Block locator *)

(** The loop of [build_locator]; [fuel] bounds the number of turns. *)
Fixpoint locator_loop (fuel : nat) (get_hash : Z -> option Hash) (h step : Z) (loc : list Hash)
  : list Hash :=
  match fuel with
  | O => loc
  | S fuel =>
      if h <=? 0 then loc
      else
        let loc := match get_hash h with Some x => loc ++ [x] | None => loc end in
        let step := if (10 <=? length loc)%nat then wrap64 (step * 2) else step in
        if h <? step then loc else locator_loop fuel get_hash (h - step) step loc
  end.
Definition build_locator (tip : Z) (get_hash : Z -> option Hash) : list Hash :=
  let loc := locator_loop (Z.to_nat tip) get_hash tip 1 [] in
  match get_hash 0 with
  | Some g => if bool_decide (last loc = Some g) then loc else loc ++ [g]
  | None => loc
  end.
End Sync.
