(* ===== verification/SyncRules.v ===== *)
(** * Block download: theorems

    The invariants of [ChainSync] over any sequence of its operations, what happens
    to a hash once it is wanted, the blocks a received block releases, header
    nonces, the locator, and the places where the code and its comments differ. *)

From stdpp Require Import prelude gmap.
From Stdlib Require Import ZArith Lia.
From S2P Require Import Prelude.
From S2P Require Import Difficulty.
From S2P Require Import Block.
From S2P Require Import Sync.

Local Open Scope Z_scope.

(** ** Operations in any order *)

Section run.
Context (block_hash : Block -> Hash).

Inductive sync_op :=
| OTip (height : Z) (tip : Hash)
| OPeerHeight (peer : PeerId) (height : Z)
| OHeight (height : Z)
| OWork (peer : PeerId) (total now : Z)
| OLocalWork (total : Z)
| ORemovePeer (peer : PeerId)
| ORetain (connected : gset PeerId)
| OExpireWork (now ttl : Z)
| OSetLocalHeight (height : Z)
| OSetState (st : SyncState)
| OHeaders (headers : list Hash) (peer : option PeerId) (now : Z)
| OTake (max : nat) (now : Z)
| ORecord (hash : Hash) (peer : PeerId) (ts : Z)
| OBlock (block : Block) (from : option PeerId) (now : Z)
| OReceived (hash : Hash)
| OFailed (hash : Hash)
| OOrphan (block : Block) (from : option PeerId) (parent : Hash) (now : Z)
| OProcessed (hash : Hash) (height : Z)
| OTimeout (hash : Hash) (now : Z)
| OIncrease
| OCleanupBans (now : Z)
| OLastPeer (peer : PeerId)
| OBegin (peer : PeerId) (now : Z)
| OCancel (n : Z) (peer : PeerId)
| OValidate (n : Z) (peer : PeerId)
| OResetHeaders
| ORequeue (hashes : list Hash) (now : Z)
| OClear
| ORetry (now : Z)
| ORecover (now : Z)
| ODisconnect (peer : PeerId) (now : Z)
| OResync
| OArm
| OCleanupOrphans (now : Z).

Definition sync_step (s : ChainSync) (op : sync_op) : ChainSync :=
  match op with
  | OTip h t => Sync.set_local_tip s h t
  | OPeerHeight p h => Sync.update_peer_height_for s p h
  | OHeight h => set_claims s (Claim.update_peer_height (cs_claims s) h)
  | OWork p d now => Sync.update_peer_difficulty_for s p d now
  | OLocalWork d => set_claims s (Claim.set_local_total_difficulty (cs_claims s) d)
  | ORemovePeer p => set_claims s (Claim.remove_peer_height (cs_claims s) p)
  | ORetain c => set_claims s (Claim.retain_connected_peers (cs_claims s) c).2
  | OExpireWork now ttl => set_claims s (Claim.expire_stale_work_claims (cs_claims s) now ttl).2
  | OSetLocalHeight h => set_claims s (Claim.set_local (cs_claims s) h (local_tip (cs_claims s)))
  | OSetState st => set_cycle s (Cyc.set_state (cs_cycle s) st)
  | OHeaders hs p now => Sync.queue_headers_inner s hs p now
  | OTake max now => (Sync.get_blocks_to_request s max now).2
  | ORecord h p ts => Sync.record_request s h p ts
  | OBlock b from now => (Sync.on_block_received_from block_hash s b from now).2
  | OReceived h => Sync.mark_block_received s h
  | OFailed h => Sync.mark_block_failed s h
  | OOrphan b from parent now => Sync.mark_block_orphan block_hash s b from parent now
  | OProcessed h height => Sync.on_block_processed s h height
  | OTimeout h now => Sync.on_timeout s h now
  | OIncrease => set_conduct s (Con.increase_timeout (cs_conduct s))
  | OCleanupBans now => set_conduct s (Con.cleanup_sync_bans (cs_conduct s) now)
  | OLastPeer p => set_conduct s (Con.set_last_sync_peer (cs_conduct s) p)
  | OBegin p now => set_cycle s (Cyc.begin_headers_request (cs_cycle s) p now).2
  | OCancel n p => set_cycle s (Cyc.cancel_headers_request (cs_cycle s) n p).2
  | OValidate n p => set_cycle s (Cyc.validate_header_nonce (cs_cycle s) n p).2
  | OResetHeaders => set_cycle s (Cyc.reset_headers_timeout (cs_cycle s))
  | ORequeue hs now => Sync.requeue_failed s hs now
  | OClear => Sync.clear s
  | ORetry now => (Sync.get_blocks_to_retry s now).2
  | ORecover now => (Sync.recover_stuck_downloads s now).2
  | ODisconnect p now => Sync.on_peer_disconnected s p now
  | OResync => set_cycle s (Cyc.trigger_resync (cs_cycle s)).2
  | OArm => (Sync.arm_near_tip_catchup s).2
  | OCleanupOrphans now =>
      set_orphans s (Orp.cleanup_expired_orphans (cs_orphans s) now).2
  end.
Definition sync_run (s : ChainSync) (ops : list sync_op) : ChainSync := foldl sync_step s ops.
End run.

(** ** Blocks in flight *)

Record flight_ok (f : Flight) : Prop := {
  fo_stamps : dom (download_timestamps f) = downloading f;
  fo_requests : dom (pending_requests f) ⊆ downloading f;
  fo_size : Z.of_nat (size (pending_requests f)) <= MAX_PENDING_REQUESTS
}.

Lemma size_delete_le {A} (m : gmap Hash A) h : (size (delete h m) <= size m)%nat.
Proof. rewrite map_size_delete. unfold id. case_match; cbn; lia. Qed.

Lemma forget_ok f h : flight_ok f -> flight_ok (Fly.forget f h).
Proof.
  intros [H1 H2 H3]. split; cbn.
  - rewrite dom_delete_L. set_solver.
  - rewrite dom_delete_L. set_solver.
  - pose proof (size_delete_le (pending_requests f) h). lia.
Qed.

Lemma enter_ok f h now : flight_ok f -> flight_ok (Fly.enter f h now).
Proof.
  intros [H1 H2 H3]. split; cbn; [|set_solver|done]. rewrite dom_insert_L. set_solver.
Qed.

Lemma oldest_request_in f k :
  Fly.oldest_request f = Some k -> is_Some (pending_requests f !! k).
Proof.
  unfold Fly.oldest_request. destruct (map_to_list (pending_requests f)) as [|e l] eqn:E; [done|].
  intros [= <-]. assert (foldl Fly.earlier e l ∈ e :: l) as Hin.
  { clear E. revert e. induction l as [|x l IH]; intros e; cbn; [by left|].
    specialize (IH (Fly.earlier e x)). apply elem_of_cons in IH as [->|IH].
    - unfold Fly.earlier. case_match; set_solver.
    - by do 2 right. }
  rewrite <- E in Hin. destruct (foldl Fly.earlier e l) as [k r].
  apply elem_of_map_to_list in Hin. by exists r.
Qed.

Lemma make_room_ok f h :
  flight_ok f -> flight_ok (Fly.make_room f h) /\
  (pending_requests (Fly.make_room f h) !! h = None ->
   Z.of_nat (size (pending_requests (Fly.make_room f h))) < MAX_PENDING_REQUESTS).
Proof.
  intros Hf. unfold Fly.make_room.
  destruct (MAX_PENDING_REQUESTS <=? Z.of_nat (size (pending_requests f))) eqn:Hfull; cbn [andb].
  - destruct (bool_decide (is_Some (pending_requests f !! h))) eqn:Hh; cbn [negb].
    + split; [done|]. apply bool_decide_eq_true in Hh as [r Hr]. by rewrite Hr.
    + destruct (Fly.oldest_request f) as [k|] eqn:Hk.
      * split; [by apply forget_ok|]. intros _. cbn.
        apply oldest_request_in in Hk as [r Hr]. rewrite map_size_delete, Hr.
        pose proof (fo_size _ Hf). assert (size (pending_requests f) <> 0)%nat; [|lia].
        intros E. apply map_size_empty_inv in E. rewrite E, lookup_empty in Hr. done.
      * split; [done|]. intros _. apply Z.leb_le in Hfull. exfalso. revert Hk.
        unfold Fly.oldest_request. destruct (map_to_list (pending_requests f)) eqn:E; [|done].
        apply map_to_list_empty_iff in E. rewrite E, map_size_empty in Hfull.
        unfold MAX_PENDING_REQUESTS in Hfull. lia.
  - split; [done|]. intros _. apply Z.leb_gt in Hfull. lia.
Qed.

Lemma record_request_ok f h p ts : flight_ok f -> flight_ok (Fly.record_request f h p ts).
Proof.
  intros Hf. unfold Fly.record_request. destruct (make_room_ok f h Hf) as [[H1 H2 H3] Hlt].
  set (g := Fly.make_room f h) in *. split; cbn.
  - destruct (download_timestamps g !! h) as [t|] eqn:E.
    + apply elem_of_dom_2 in E. set_solver.
    + rewrite dom_insert_L. set_solver.
  - rewrite dom_insert_L. set_solver.
  - rewrite map_size_insert. destruct (pending_requests g !! h) eqn:E; [done|].
    specialize (Hlt eq_refl). lia.
Qed.

(** ** The queue and the share of each peer *)

(** The queued headers a peer answers for.  A header that was taken from the queue and
    is put back is in the queue but in no peer's share any more
    ([requeued_headers_escape_quota]). *)
Definition attributed (m : gmap Hash PeerId) (p : PeerId) : Z :=
  Z.of_nat (size (filter (fun e => e.2 = p) m)).

Lemma attributed_insert m h p q :
  m !! h = None -> attributed (<[h := p]> m) q = attributed m q + (if decide (p = q) then 1 else 0).
Proof.
  intros Hh. unfold attributed. destruct (decide (p = q)) as [->|Hne].
  - rewrite map_filter_insert_True by done.
    rewrite map_size_insert_None; [lia|]. apply map_lookup_filter_None. by left.
  - rewrite map_filter_insert_False by done. rewrite delete_id by done. lia.
Qed.

Lemma attributed_delete m h p q :
  m !! h = Some p -> attributed (delete h m) q = attributed m q - (if decide (p = q) then 1 else 0).
Proof.
  intros Hh. rewrite <- (insert_delete_id m h p Hh) at 2.
  rewrite attributed_insert by apply lookup_delete_eq. lia.
Qed.

Record queue_ok (q : HeaderQueue) : Prop := {
  qo_count p : default 0 (headers_per_peer q !! p) = attributed (pending_header_peer q) p;
  qo_cap p : attributed (pending_header_peer q) p <= MAX_HEADERS_PER_PEER;
  qo_listed : dom (pending_header_peer q) ⊆ list_to_set (pending_headers q)
}.

Lemma push_front_ok q h : queue_ok q -> queue_ok (Que.push_front q h).
Proof. intros [H1 H2 H3]. split; [done|done|]. cbn. set_solver. Qed.

Lemma empty_ok : queue_ok Que.empty.
Proof.
  split; cbn; intros; unfold attributed, MAX_HEADERS_PER_PEER;
    rewrite ?lookup_empty, ?map_filter_empty, ?map_size_empty; cbn; try lia; set_solver.
Qed.

(** Popping the front of the queue. *)
Lemma untrack_pop_ok q h rest :
  queue_ok (Que.with_headers q (h :: rest)) ->
  queue_ok (Que.with_headers (Que.untrack_pending_header q h) rest).
Proof.
  intros [H1 H2 H3]. cbn in *. unfold Que.untrack_pending_header.
  destruct (pending_header_peer q !! h) as [p|] eqn:E; cbn.
  - pose proof (H1 p) as Hp. assert (1 <= attributed (pending_header_peer q) p) as Hpos.
    { pose proof (attributed_delete _ _ _ p E) as Hd. rewrite decide_True in Hd by done.
      unfold attributed in *. lia. }
    split; cbn.
    + intros p'. rewrite (attributed_delete _ _ _ _ E).
      destruct (headers_per_peer q !! p) as [c|] eqn:Ec; cbn in Hp; [|lia].
      destruct (1 <? c) eqn:E1; destruct (decide (p = p')) as [<-|Hne].
      * rewrite lookup_insert_eq. cbn. lia.
      * rewrite lookup_insert_ne by done. rewrite H1. lia.
      * rewrite lookup_delete_eq. cbn. apply Z.ltb_ge in E1. lia.
      * rewrite lookup_delete_ne by done. rewrite H1. lia.
    + intros p'. rewrite (attributed_delete _ _ _ _ E). specialize (H2 p'). case_decide; lia.
    + rewrite dom_delete_L. set_solver.
  - split; cbn; [done|done|]. apply not_elem_of_dom in E. set_solver.
Qed.

Lemma take_blocks_ok limit now headers : forall q f out,
  queue_ok (Que.with_headers q headers) -> flight_ok f ->
  let '(_, q', f') := Que.take_blocks limit now q f out headers in queue_ok q' /\ flight_ok f'.
Proof.
  induction headers as [|h rest IH]; intros q f out Hq Hf; cbn; [done|].
  destruct (limit <=? length out)%nat; [done|].
  destruct (decide (h ∈ downloading f)); apply IH; try done; try (by apply untrack_pop_ok).
  by apply enter_ok.
Qed.

(** The queue while headers of one peer are being added: its count lags by
    [added]. *)
Record adding (q : HeaderQueue) (p : PeerId) (added : Z) : Prop := {
  ad_count r : default 0 (headers_per_peer q !! r) + (if decide (p = r) then added else 0)
               = attributed (pending_header_peer q) r;
  ad_cap r : attributed (pending_header_peer q) r <= MAX_HEADERS_PER_PEER;
  ad_listed : dom (pending_header_peer q) ⊆ list_to_set (pending_headers q)
}.

Lemma add_headers_peer f o p room headers : forall q added,
  adding q p added -> room + default 0 (headers_per_peer q !! p) <= MAX_HEADERS_PER_PEER ->
  0 <= added ->
  let '(added', q') := Que.add_headers f o q (Some p) room added headers in
  adding q' p added' /\ 0 <= added' /\ headers_per_peer q' = headers_per_peer q.
Proof.
  induction headers as [|h headers IH]; intros q added Ha Hr H0; cbn; [done|].
  destruct (MAX_PH <=? _); [done|].
  destruct (room <=? added) eqn:Hroom; [done|]. apply Z.leb_gt in Hroom.
  destruct (negb _ && negb _ && negb _) eqn:E; [|by apply IH].
  rewrite !andb_true_iff, !negb_true_iff in E. destruct E as [_ E].
  apply bool_decide_eq_false, eq_None_not_Some in E.
  destruct Ha as [H1 H2 H3].
  set (q1 := mkQueue _ _ _). pose proof (IH q1 (added + 1)) as IH'.
  destruct (Que.add_headers f o q1 (Some p) room (added + 1) headers) as [a' q'].
  apply IH'; [|done|lia]. split; cbn.
  - intros r. rewrite attributed_insert by done. specialize (H1 r). case_decide; lia.
  - intros r. rewrite attributed_insert by done. specialize (H1 r). specialize (H2 r).
    destruct (decide (p = r)) as [->|]; lia.
  - rewrite dom_insert_L. set_solver.
Qed.

Lemma add_headers_self f o room headers : forall q added,
  queue_ok q ->
  let '(added', q') := Que.add_headers f o q None room added headers in
  queue_ok q' /\ added' = added.
Proof.
  induction headers as [|h headers IH]; intros q added Hq; cbn; [done|].
  destruct (MAX_PH <=? _); [done|]. cbn.
  destruct (negb _ && negb _ && negb _); [|by apply IH].
  apply IH. destruct Hq as [H1 H2 H3]. split; [done|done|]. cbn. set_solver.
Qed.

Lemma queue_headers_ok s headers peer now :
  queue_ok (cs_queue s) -> queue_ok (cs_queue (Sync.queue_headers_inner s headers peer now)).
Proof.
  intros Hq. unfold Sync.queue_headers_inner. destruct headers as [|h headers].
  { unfold Sync.queue_empty_headers. repeat case_match; done. }
  set (hs := h :: headers). set (s1 := set_cycle s _).
  destruct peer as [p|].
  - pose proof (add_headers_peer (cs_flight s1) (cs_orphans s1) p
      (sat_sub MAX_HEADERS_PER_PEER (default 0 (headers_per_peer (cs_queue s1) !! p))) hs
      (cs_queue s1) 0) as Ha.
    destruct (Que.add_headers _ _ _ _ _ _ _) as [added q]. destruct Ha as ([H1 H2 H3] & H0 & Hh).
    { destruct Hq as [H1 H2 H3]. split; [|done|done]. intros r. specialize (H1 r).
      change (cs_queue s1) with (cs_queue s). case_decide; lia. }
    { destruct Hq as [H1 H2 H3]. specialize (H1 p). specialize (H2 p). unfold sat_sub.
      change (cs_queue s1) with (cs_queue s). lia. }
    { lia. }
    assert (queue_ok (Que.credit_peer q (Some p) added)) as Hok.
    { unfold Que.credit_peer. destruct (0 <? added) eqn:E.
      - split; cbn; [|done|done]. intros r. specialize (H1 r).
        destruct (decide (p = r)) as [->|Hne].
        + rewrite lookup_insert_eq. cbn. lia.
        + rewrite lookup_insert_ne by done. lia.
      - split; [|done|done]. intros r. specialize (H1 r). apply Z.ltb_ge in E.
        case_decide; lia. }
    case_match; exact Hok.
  - pose proof (add_headers_self (cs_flight s1) (cs_orphans s1) 0 hs (cs_queue s1) 0 Hq) as Ha.
    destruct (Que.add_headers _ _ _ _ _ _ _) as [added q]. destruct Ha as [Ha _].
    case_match; exact Ha.
Qed.

(** ** Orphans *)

Section orphans.
Context (block_hash : Block -> Hash).
Implicit Types (o : OrphanStore) (m : gmap Hash OrphanBlock).

Definition parent (e : OrphanBlock) : Hash := prev_hash (header (ob_block e)).

Record orphans_ok o : Prop := {
  oo_key k e : orphan_blocks o !! k = Some e -> block_hash (ob_block e) = k;
  oo_listed k e : orphan_blocks o !! k = Some e ->
    exists chs, orphan_by_parent o !! parent e = Some chs /\ k ∈ chs;
  oo_row ph chs ch : orphan_by_parent o !! ph = Some chs -> ch ∈ chs ->
    exists b, block_hash b = ch /\ prev_hash (header b) = ph;
  oo_size : Z.of_nat (size (orphan_blocks o)) <= MAX_ORPHAN_BLOCKS
}.

(** Only the counters and the clock differ. *)
Definition same_pool o o' : Prop :=
  orphan_blocks o' = orphan_blocks o /\ orphan_by_parent o' = orphan_by_parent o.
Lemma orphans_ok_same o o' : same_pool o o' -> orphans_ok o -> orphans_ok o'.
Proof. intros [E1 E2] [H1 H2 H3 H4]. split; rewrite ?E1, ?E2; done. Qed.

Lemma unlink_ok o k e :
  orphans_ok o -> orphan_blocks o !! k = Some e -> orphans_ok (Orp.unlink o k (parent e)).
Proof.
  intros [H1 H2 H3 H4] Hk. destruct (H2 k e Hk) as (chs & Hrow & Hin).
  unfold Orp.unlink. rewrite Hrow. split; cbn.
  - intros j f [_ Hj]%lookup_delete_Some. by apply H1.
  - intros j f [Hne Hj]%lookup_delete_Some. destruct (H2 j f Hj) as (chs' & Hrow' & Hin').
    destruct (decide (parent f = parent e)) as [E|E].
    + rewrite E in Hrow' |- *. rewrite Hrow in Hrow'. injection Hrow' as <-.
      assert (j ∈ filter (fun h => h <> k) chs) as Hj' by (apply list_elem_of_filter; auto).
      rewrite decide_False by (intros E0; rewrite E0 in Hj'; by apply elem_of_nil in Hj').
      eexists. rewrite lookup_insert_eq. by split.
    + exists chs'. split; [|done].
      case_decide; [by rewrite lookup_delete_ne|by rewrite lookup_insert_ne].
  - intros ph chs' ch Hr Hc. case_decide as Hd.
    + apply lookup_delete_Some in Hr as [_ Hr]. by eapply H3.
    + destruct (decide (ph = parent e)) as [->|Hne].
      * rewrite lookup_insert_eq in Hr. injection Hr as <-.
        apply list_elem_of_filter in Hc as [_ Hc]. by eapply H3.
      * rewrite lookup_insert_ne in Hr by done. by eapply H3.
  - pose proof (size_delete_le (orphan_blocks o) k). lia.
Qed.

Lemma unlink_blocks o k p : orphan_blocks (Orp.unlink o k p) = delete k (orphan_blocks o).
Proof. done. Qed.

Lemma unlink_all_ok (l : list (Hash * OrphanBlock)) : forall o,
  orphans_ok o -> NoDup l.*1 -> (forall k e, (k, e) ∈ l -> orphan_blocks o !! k = Some e) ->
  orphans_ok (foldl (fun o e => Orp.unlink o e.1 (parent e.2)) o l).
Proof.
  induction l as [|[k e] l IH]; intros o Ho Hd Hl; cbn; [done|].
  apply NoDup_cons in Hd as [Hk Hd]. apply IH; [|done|].
  - apply unlink_ok; [done|]. apply Hl. by left.
  - intros j f Hj. rewrite unlink_blocks, lookup_delete_ne; [apply Hl; by right|].
    intros ->. apply Hk. apply list_elem_of_fmap. by exists (j, f).
Qed.

Lemma cleanup_ok o now : orphans_ok o -> orphans_ok (Orp.cleanup_expired_orphans o now).2.
Proof.
  intros Ho. unfold Orp.cleanup_expired_orphans.
  set (o1 := if now <? last_orphan_cleanup o then Orp.set_cleanup o now else o).
  assert (orphans_ok o1) as Ho1.
  { unfold o1. case_match; [|done]. by eapply orphans_ok_same; [|exact Ho]. }
  destruct (now <? wrap64 _); [exact Ho1|]. cbn [snd]. apply unlink_all_ok.
  - by eapply orphans_ok_same; [|exact Ho1].
  - eapply sublist_NoDup; [apply (NoDup_fst_map_to_list (orphan_blocks o1))|].
    apply fmap_sublist, sublist_filter.
  - intros k e [_ Hin]%list_elem_of_filter. by apply elem_of_map_to_list in Hin.
Qed.

Lemma oldest_orphan_in o k e : Orp.oldest_orphan o = Some (k, e) -> orphan_blocks o !! k = Some e.
Proof.
  unfold Orp.oldest_orphan. destruct (map_to_list (orphan_blocks o)) as [|x l] eqn:E; [done|].
  intros [= Hf]. apply elem_of_map_to_list. rewrite E, <- Hf. clear.
  revert x. induction l as [|y l IH]; intros x; cbn; [by left|].
  specialize (IH (Orp.older x y)). apply elem_of_cons in IH as [->|IH].
  - unfold Orp.older. case_match; set_solver.
  - by do 2 right.
Qed.

Lemma evict_orphans_ok fuel : forall o, orphans_ok o -> orphans_ok (Orp.evict_orphans fuel o).
Proof.
  induction fuel as [|fuel IH]; intros o Ho; cbn; [done|]. case_match; [|done].
  destruct (Orp.oldest_orphan o) as [[k e]|] eqn:E; [|done].
  apply IH, unlink_ok; [done|]. by apply oldest_orphan_in.
Qed.

Lemma evict_orphans_room fuel : forall o,
  Z.of_nat (size (orphan_blocks o)) <= Z.of_nat fuel ->
  Z.of_nat (size (orphan_blocks (Orp.evict_orphans fuel o))) < MAX_ORPHAN_BLOCKS.
Proof.
  induction fuel as [|fuel IH]; intros o Hs; cbn.
  { unfold MAX_ORPHAN_BLOCKS. lia. }
  destruct (Z.leb_spec MAX_ORPHAN_BLOCKS (Z.of_nat (size (orphan_blocks o)))) as [Hfull|]; [|done].
  destruct (Orp.oldest_orphan o) as [[k e]|] eqn:E.
  - apply IH. rewrite unlink_blocks, map_size_delete, (oldest_orphan_in o k e E). lia.
  - exfalso. unfold Orp.oldest_orphan in E.
    destruct (map_to_list (orphan_blocks o)) eqn:El; [|done].
    apply map_to_list_empty_iff in El. rewrite El, map_size_empty in Hfull.
    unfold MAX_ORPHAN_BLOCKS in Hfull. lia.
Qed.

Lemma link_ok o block now from :
  orphans_ok o -> Z.of_nat (size (orphan_blocks o)) < MAX_ORPHAN_BLOCKS ->
  orphans_ok (Orp.link block_hash o block now from).
Proof.
  intros [H1 H2 H3 H4] Hlt. split; cbn.
  - intros k e. destruct (decide (k = block_hash block)) as [->|Hk].
    + rewrite lookup_insert_eq. by intros [= <-].
    + rewrite lookup_insert_ne by done. apply H1.
  - intros k e. destruct (decide (k = block_hash block)) as [->|Hk].
    + rewrite lookup_insert_eq. intros [= <-]. eexists. unfold parent. cbn.
      rewrite lookup_insert_eq. split; [done|]. set_solver.
    + rewrite lookup_insert_ne by done. intros Hl. destruct (H2 k e Hl) as (chs & Hr & Hc).
      destruct (decide (parent e = prev_hash (header block))) as [E|E].
      * rewrite E, lookup_insert_eq in *. rewrite Hr. eexists. split; [done|]. cbn. set_solver.
      * exists chs. by rewrite lookup_insert_ne.
  - intros ph chs ch. destruct (decide (ph = prev_hash (header block))) as [->|Hne].
    + rewrite lookup_insert_eq. intros [= <-]. rewrite elem_of_app, list_elem_of_singleton.
      intros [Hc| ->]; [|by eexists]. destruct (orphan_by_parent o !! _) eqn:Er; [|by apply elem_of_nil in Hc].
      by eapply H3.
    + rewrite lookup_insert_ne by done. apply H3.
  - rewrite map_size_insert. case_match; [done|]. lia.
Qed.

Lemma store_ok o block now from : orphans_ok o -> orphans_ok (Orp.store block_hash o block now from).
Proof.
  intros Ho. unfold Orp.store. set (o1 := Orp.evict_orphans _ o).
  assert (orphans_ok o1) as Ho1 by by apply evict_orphans_ok.
  assert (Z.of_nat (size (orphan_blocks o1)) < MAX_ORPHAN_BLOCKS) as Hs
    by (by apply evict_orphans_room).
  unfold Orp.admitted. destruct from as [p|]; [|by apply link_ok].
  destruct (MAX_ORPHANS_PER_PEER <=? _); [by eapply orphans_ok_same; [|exact Ho1]|].
  apply link_ok; [by eapply orphans_ok_same; [|exact Ho1]|done].
Qed.
End orphans.

(** ** What a received block releases *)

Section release.
Context (block_hash : Block -> Hash).
Implicit Types (o : OrphanStore) (m : gmap Hash OrphanBlock) (q : list Hash).

(** Orphans that descend from a hash of [q] through the pool. *)
Inductive reach m q : Hash -> Prop :=
| reach_child k e : m !! k = Some e -> parent e ∈ q -> reach m q k
| reach_step j k e : reach m q j -> m !! k = Some e -> parent e = j -> reach m q k.

Lemma reach_lookup m q k : reach m q k -> is_Some (m !! k).
Proof. by intros [??|????]. Qed.

Lemma reach_nil m k : ~ reach m [] k.
Proof. induction 1 as [k e _ Hq|]; [by apply elem_of_nil in Hq|done]. Qed.

(** Every block of the list is the pool's block under its hash. *)
Definition from_pool m (bs : list Block) : Prop :=
  forall b, b ∈ bs -> exists e, m !! block_hash b = Some e /\ ob_block e = b.

Lemma release_count_blocks o from :
  orphan_blocks (Orp.release_count o from) = orphan_blocks o /\
  orphan_by_parent (Orp.release_count o from) = orphan_by_parent o.
Proof. unfold Orp.release_count. by repeat case_match. Qed.

Lemma release_children_spec chs : forall o,
  (forall k e, orphan_blocks o !! k = Some e -> block_hash (ob_block e) = k) ->
  let '(bs, o') := Orp.release_children o chs in
  NoDup (block_hash <$> bs) /\ from_pool (orphan_blocks o) bs /\
  (forall k, k ∈ block_hash <$> bs <-> k ∈ chs /\ is_Some (orphan_blocks o !! k)) /\
  orphan_blocks o' = foldr (fun k m => delete k m) (orphan_blocks o) (block_hash <$> bs) /\
  orphan_by_parent o' = orphan_by_parent o /\
  (length bs + size (orphan_blocks o') = size (orphan_blocks o))%nat.
Proof.
  induction chs as [|ch chs IH]; intros o Hkey; cbn.
  { split_and!; [constructor|by intros b ?%elem_of_nil|set_solver|done|done|lia]. }
  destruct (orphan_blocks o !! ch) as [e|] eqn:E.
  - set (o1 := Orp.release_count _ _).
    destruct (release_count_blocks (mkOrphanStore (delete ch (orphan_blocks o))
      (orphan_by_parent o) (orphans_per_peer o) (last_orphan_cleanup o)) (ob_from e)) as [Eb Ep].
    fold o1 in Eb, Ep. cbn in Eb, Ep.
    pose proof (Hkey ch e E) as Hch. specialize (IH o1).
    destruct (Orp.release_children o1 chs) as [bs o'].
    destruct IH as (Hd & Hf & Hin & Hb & Hp & Hl).
    { intros k f. rewrite Eb. intros [_ Hk]%lookup_delete_Some. by apply Hkey. }
    cbn. rewrite Hch. split_and!.
    + constructor; [|done]. rewrite Hin, Eb, lookup_delete_eq. by intros [_ [??]].
    + intros b Hbs. apply elem_of_cons in Hbs as [->|Hbs].
      * exists e. by rewrite Hch.
      * destruct (Hf b Hbs) as (f & Hm & <-). rewrite Eb in Hm.
        apply lookup_delete_Some in Hm as [_ Hm]. by exists f.
    + intros k. rewrite !elem_of_cons, Hin, Eb. destruct (decide (k = ch)) as [->|Hk].
      * rewrite E. split; [|by left]. intros _. split; [by left|done].
      * rewrite lookup_delete_ne by done. naive_solver.
    + rewrite Hb, Eb. clear. induction (block_hash <$> bs) as [|k ks IH]; [done|].
      cbn. rewrite IH. apply delete_delete.
    + by rewrite Hp, Ep.
    + cbn. rewrite Eb, map_size_delete, E in Hl.
      assert (size (orphan_blocks o) <> 0)%nat; [|lia].
      intros E0. apply map_size_empty_inv in E0. by rewrite E0, lookup_empty in E.
  - specialize (IH o Hkey). destruct (Orp.release_children o chs) as [bs o'].
    destruct IH as (Hd & Hf & Hin & Hb & Hp & Hl). split_and!; try done.
    intros k. rewrite Hin, elem_of_cons. split; [naive_solver|].
    intros [[->|Hk] Hs]; [|done]. rewrite E in Hs. by destruct Hs.
Qed.

(** Parents come first: the parent of a released block is in [q] or released before
    it. *)
Definition parents_first q (bs : list Block) : Prop :=
  forall l1 b l2, bs = l1 ++ b :: l2 ->
    prev_hash (header b) ∈ q \/ prev_hash (header b) ∈ block_hash <$> l1.

Lemma foldr_delete_lookup m ks k :
  foldr (fun k m => delete k m) m ks !! k = if decide (k ∈ ks) then None else m !! k.
Proof.
  induction ks as [|j ks IH]; cbn; [by rewrite decide_False by set_solver|].
  destruct (decide (k = j)) as [->|Hk].
  - rewrite lookup_delete_eq, decide_True by set_solver. done.
  - rewrite lookup_delete_ne, IH by done. apply decide_ext. set_solver.
Qed.

(** One turn: the children [ks] of [ph] leave, their own children come next. *)
Lemma reach_turn m ks ph q k :
  (forall j e, m !! j = Some e -> (j ∈ ks <-> parent e = ph)) ->
  (forall j, j ∈ ks -> is_Some (m !! j)) ->
  reach m (ph :: q) k <->
  k ∈ ks \/ reach (foldr (fun k m => delete k m) m ks) (q ++ ks) k.
Proof.
  intros Hks Hin. set (m1 := foldr _ m ks).
  assert (forall j e, m !! j = Some e -> j ∈ ks \/ m1 !! j = Some e) as Hsplit.
  { intros j e Hj. unfold m1. rewrite foldr_delete_lookup. case_decide; auto. }
  assert (forall j e, m1 !! j = Some e -> m !! j = Some e) as Hsub.
  { intros j e. unfold m1. rewrite foldr_delete_lookup. by case_decide. }
  split.
  - induction 1 as [k e Hk Hp|j k e Hr IH Hk Hp].
    + apply elem_of_cons in Hp as [Hp|Hp]; [left; by apply (Hks k e)|].
      destruct (Hsplit k e Hk) as [|Hk1]; [by left|right].
      apply (reach_child _ _ k e); [done|set_solver].
    + destruct (Hsplit k e Hk) as [|Hk1]; [by left|right]. destruct IH as [Hj|Hj].
      * apply (reach_child _ _ k e); [done|set_solver].
      * by apply (reach_step _ _ j k e).
  - intros [Hk|Hr].
    + destruct (Hin k Hk) as [e He]. apply (reach_child _ _ k e); [done|].
      apply (Hks k e He) in Hk as ->. by left.
    + induction Hr as [k e Hk Hp|j k e Hr IH Hk Hp].
      * apply elem_of_app in Hp as [Hp|Hp].
        -- apply (reach_child _ _ k e); [by apply Hsub|by right].
        -- destruct (Hin (parent e) Hp) as [f Hf].
           apply (reach_step _ _ (parent e) k e); [|by apply Hsub|done].
           apply (reach_child _ _ (parent e) f); [done|].
           apply (Hks _ f Hf) in Hp as ->. by left.
      * apply (reach_step _ _ j k e); [done|by apply Hsub|done].
Qed.

(** Equal hashes have equal parents: the hash covers the header. *)
Definition hash_binds_parent : Prop :=
  forall b b', block_hash b = block_hash b' -> prev_hash (header b) = prev_hash (header b').
Context (Hbind : hash_binds_parent).

Definition drop_row o (ph : Hash) : OrphanStore :=
  mkOrphanStore (orphan_blocks o) (delete ph (orphan_by_parent o)) (orphans_per_peer o)
    (last_orphan_cleanup o).

Lemma row_children o ph chs j e :
  orphans_ok block_hash o -> orphan_by_parent o !! ph = Some chs -> orphan_blocks o !! j = Some e ->
  j ∈ chs <-> parent e = ph.
Proof.
  intros Ho Hrow Hj. split.
  - intros Hc. destruct (oo_row _ _ Ho ph chs j Hrow Hc) as (b & Hb & <-).
    apply Hbind. rewrite Hb. by apply (oo_key _ _ Ho).
  - intros <-. destruct (oo_listed _ _ Ho j e Hj) as (chs' & Hr & Hc). congruence.
Qed.

(** The pool after the children of [ph] left. *)
Lemma released_row_ok o o' ph chs bs :
  orphans_ok block_hash o -> orphan_by_parent o !! ph = Some chs ->
  Orp.release_children (drop_row o ph) chs = (bs, o') -> orphans_ok block_hash o'.
Proof.
  intros Ho Hrow Hr. pose proof (release_children_spec chs (drop_row o ph)) as Hs.
  rewrite Hr in Hs. destruct Hs as (_ & _ & Hin & Hb & Hp & Hl); [apply Ho|]. cbn in Hin, Hb, Hp, Hl.
  split; rewrite ?Hb, ?Hp.
  - intros k e. rewrite foldr_delete_lookup. case_decide; [done|]. apply Ho.
  - intros k e. rewrite foldr_delete_lookup. case_decide as Hk; [done|]. intros He.
    destruct (oo_listed _ _ Ho k e He) as (chs' & Hr' & Hc). exists chs'. split; [|done].
    rewrite lookup_delete_ne; [done|]. intros E. apply Hk, Hin. split; [|done].
    by apply (row_children o ph chs k e).
  - intros p' chs' ch. rewrite lookup_delete_Some. intros [_ Hr'] Hc. by eapply (oo_row _ _ Ho).
  - pose proof (oo_size _ _ Ho). rewrite <- Hb. lia.
Qed.

Lemma parents_first_app q ph bs rest :
  (forall b, b ∈ bs -> prev_hash (header b) = ph) ->
  parents_first (q ++ (block_hash <$> bs)) rest ->
  parents_first (ph :: q) (bs ++ rest).
Proof.
  intros Hbs Hrest l1 b l2 E. apply app_eq_inv in E as [(k & -> & E)|(k & -> & E)].
  - destruct k as [|x k]; cbn in E.
    + specialize (Hrest [] b l2). rewrite app_nil_r in *.
      destruct Hrest as [Hp|Hp]; [by rewrite E|set_solver|by apply elem_of_nil in Hp].
    + injection E as -> ->. left. rewrite (Hbs x) by set_solver. by left.
  - destruct (Hrest k b l2 E) as [Hp|Hp]; rewrite ?fmap_app; set_solver.
Qed.

Lemma release_spec fuel : forall o q,
  orphans_ok block_hash o -> (length q + size (orphan_blocks o) <= fuel)%nat ->
  let '(bs, o') := Orp.release block_hash fuel o q in
  orphans_ok block_hash o' /\ NoDup (block_hash <$> bs) /\ from_pool (orphan_blocks o) bs /\
  (forall k, k ∈ block_hash <$> bs <-> reach (orphan_blocks o) q k) /\
  (forall k, orphan_blocks o' !! k =
    if decide (k ∈ block_hash <$> bs) then None else orphan_blocks o !! k) /\
  parents_first q bs.
Proof.
  assert (forall o q, (forall k, ~ reach (orphan_blocks o) q k) -> orphans_ok block_hash o ->
    orphans_ok block_hash o /\ NoDup (block_hash <$> []) /\
    from_pool (orphan_blocks o) [] /\
    (forall k, k ∈ block_hash <$> [] <-> reach (orphan_blocks o) q k) /\
    (forall k, orphan_blocks o !! k =
      if decide (k ∈ block_hash <$> []) then None else orphan_blocks o !! k) /\
    parents_first q []) as Hnil.
  { intros o q Hr Ho. split_and!; [done|constructor|by intros b ?%elem_of_nil| |done|by intros [|]].
    intros k. split; [by intros ?%elem_of_nil|by intros ?%Hr]. }
  induction fuel as [|fuel IH]; intros o q Ho Hf.
  { destruct q; [|cbn in Hf; lia]. apply Hnil; [apply reach_nil|done]. }
  destruct q as [|ph q]; [apply Hnil; [apply reach_nil|done]|]. cbn [Orp.release].
  destruct (orphan_by_parent o !! ph) as [chs|] eqn:Hrow.
  - fold (drop_row o ph). pose proof (release_children_spec chs (drop_row o ph)) as Hs.
    destruct (Orp.release_children (drop_row o ph) chs) as [bs o1] eqn:Hr.
    destruct Hs as (Hd & Hfp & Hin & Hb & Hp & Hl); [apply Ho|].
    pose proof (released_row_ok o o1 ph chs bs Ho Hrow Hr) as Ho1. cbn in Hfp, Hin, Hb, Hp, Hl.
    specialize (IH o1 (q ++ (block_hash <$> bs)) Ho1).
    destruct (Orp.release block_hash fuel o1 (q ++ (block_hash <$> bs))) as [rest o'].
    destruct IH as (Ho' & Hd' & Hfp' & Hin' & Hlk & Hpf).
    { cbn in Hf. rewrite length_app, length_fmap. lia. }
    assert (forall j e, orphan_blocks o !! j = Some e -> j ∈ block_hash <$> bs <-> parent e = ph) as Hks.
    { intros j e Hj. rewrite Hin. rewrite (row_children o ph chs j e) by done. rewrite Hj. naive_solver. }
    assert (forall k, reach (orphan_blocks o) (ph :: q) k <->
      k ∈ block_hash <$> bs \/ reach (orphan_blocks o1) (q ++ (block_hash <$> bs)) k) as Hreach.
    { intros k. rewrite Hb. apply reach_turn; [done|]. intros j Hj. by apply Hin. }
    assert (forall k, k ∈ block_hash <$> bs -> orphan_blocks o1 !! k = None) as Hgone.
    { intros k Hk. by rewrite Hb, foldr_delete_lookup, decide_True. }
    split_and!; [done| | | | |].
    + rewrite fmap_app. apply NoDup_app. split_and!; [done| |done].
      intros k Hk Hk'. apply Hin', reach_lookup in Hk' as [e He]. by rewrite Hgone in He.
    + intros b [Hb1|Hb1]%elem_of_app; [by apply Hfp|].
      destruct (Hfp' b Hb1) as (e & He & <-). exists e. split; [|done].
      rewrite Hb, foldr_delete_lookup in He. by case_decide.
    + intros k. by rewrite fmap_app, elem_of_app, Hin', Hreach.
    + intros k. rewrite Hlk, fmap_app, Hb, foldr_delete_lookup.
      repeat case_decide; try done; set_solver.
    + apply parents_first_app; [|done]. intros b Hbs. destruct (Hfp b Hbs) as (e & He & <-).
      apply (Hks _ e He). by apply list_elem_of_fmap_2.
  - specialize (IH o q Ho). destruct (Orp.release block_hash fuel o q) as [bs o'].
    destruct IH as (Ho' & Hd & Hfp & Hin & Hlk & Hpf); [cbn in Hf; lia|].
    assert (forall k, reach (orphan_blocks o) (ph :: q) k <-> reach (orphan_blocks o) q k) as Hreach.
    { intros k. rewrite (reach_turn _ [] ph q k), app_nil_r; cbn; [set_solver| |set_solver].
      intros j e Hj. split; [set_solver|]. intros <-.
      destruct (oo_listed _ _ Ho j e Hj) as (chs & Hr & _). congruence. }
    split_and!; [done|done|done| |done|].
    + intros k. by rewrite Hin, Hreach.
    + intros l1 b l2 E. destruct (Hpf l1 b l2 E); [left; by right|by right].
Qed.
End release.

(** ** The invariant *)

Section invariant.
Context (block_hash : Block -> Hash) (Hbind : hash_binds_parent block_hash).
Implicit Types s : ChainSync.

Record sync_ok s : Prop := {
  so_flight : flight_ok (cs_flight s);
  so_queue : queue_ok (cs_queue s);
  so_orphans : orphans_ok block_hash (cs_orphans s)
}.

Lemma new_ok h t : sync_ok (Sync.new h t).
Proof.
  split; [|apply empty_ok|].
  - split; cbn; [set_solver|set_solver|]. rewrite map_size_empty. unfold MAX_PENDING_REQUESTS. lia.
  - split; cbn; [by intros ??|by intros ??|by intros ???|]. rewrite map_size_empty.
    unfold MAX_ORPHAN_BLOCKS. lia.
Qed.

(** Claims, cycle and conduct do not matter. *)
Lemma sync_ok_same s s' :
  cs_flight s' = cs_flight s -> cs_queue s' = cs_queue s -> cs_orphans s' = cs_orphans s ->
  sync_ok s -> sync_ok s'.
Proof. intros E1 E2 E3 [H1 H2 H3]. split; by rewrite ?E1, ?E2, ?E3. Qed.

Lemma requeue_ok s h : sync_ok s -> sync_ok (Sync.requeue s h).
Proof. intros [H1 H2 H3]. split; [by apply forget_ok|by apply push_front_ok|done]. Qed.
Lemma requeue_all_ok hs : forall s, sync_ok s -> sync_ok (Sync.requeue_all s hs).
Proof. induction hs as [|h hs IH]; intros s Hs; [done|]. by apply IH, requeue_ok. Qed.
Lemma leave_synced_ok s b now : sync_ok s -> sync_ok (Sync.leave_synced s b now).
Proof. intros Hs. unfold Sync.leave_synced. case_match; [|done]. by eapply sync_ok_same; [..|exact Hs]. Qed.

Lemma release_size o (hash : Hash) :
  (length [hash] + size (orphan_blocks o) <= S (size (orphan_blocks o)))%nat.
Proof. cbn. lia. Qed.

Lemma block_received_ok s b from now :
  sync_ok s -> sync_ok (Sync.on_block_received_from block_hash s b from now).2.
Proof.
  intros Hs. unfold Sync.on_block_received_from.
  destruct (_ <? h_height (header b)); [by eapply sync_ok_same; [..|exact Hs]|].
  destruct (Sync.bogus_target _); [by eapply sync_ok_same; [..|exact Hs]|].
  destruct (meets_difficulty _ _); cbn [negb]; [|by eapply sync_ok_same; [..|exact Hs]].
  set (s1 := set_orphans s _). assert (sync_ok s1) as [F1 Q1 O1].
  { destruct Hs as [H1 H2 H3]. split; [done|done|]. by apply cleanup_ok. }
  set (s2 := set_flight s1 _). assert (sync_ok s2) as [F2 Q2 O2]
    by (split; [by apply forget_ok|done|done]).
  case_match.
  - pose proof (release_spec block_hash Hbind _ (cs_orphans s2) [block_hash b] O2
      (release_size _ _)) as Hr.
    destruct (Orp.release _ _ _ _) as [rel o]. split; [done|done|apply Hr].
  - split; [done|done|]. by apply store_ok.
Qed.

Lemma take_ok s max now : sync_ok s -> sync_ok (Sync.get_blocks_to_request s max now).2.
Proof.
  intros [H1 H2 H3]. unfold Sync.get_blocks_to_request.
  pose proof (take_blocks_ok (max `min` (max_concurrent - size (downloading (cs_flight s)))) now
    (pending_headers (cs_queue s)) (cs_queue s) (cs_flight s) []) as Ht.
  destruct (Que.take_blocks _ _ _ _ _ _) as [[out q] f]. destruct Ht as [Hq Hf]; [|done|].
  - by destruct (cs_queue s).
  - by split.
Qed.

Lemma retry_ok s now : sync_ok s -> sync_ok (Sync.get_blocks_to_retry s now).2.
Proof.
  intros Hs. unfold Sync.get_blocks_to_retry. cbn [snd].
  set (s1 := Sync.requeue_all s _). assert (sync_ok s1) as H1 by by apply requeue_all_ok.
  set (s2 := Sync.requeue_stuck s1 _). assert (sync_ok s2) as H2 by by apply requeue_all_ok.
  set (s3 := Sync.leave_synced s2 _ _). assert (sync_ok s3) as H3 by by apply leave_synced_ok.
  case_match; [|done]. destruct H3 as [F Q O]. split; [done|apply empty_ok|done].
Qed.

Lemma mark_orphan_ok s b from p now :
  sync_ok s -> sync_ok (Sync.mark_block_orphan block_hash s b from p now).
Proof.
  intros Hs. unfold Sync.mark_block_orphan.
  set (s1 := set_flight s _). assert (sync_ok s1) as Hs1.
  { destruct Hs as [F Q O]. split; [by apply forget_ok|done|done]. }
  set (s2 := if bool_decide _ then s1 else _). assert (sync_ok s2) as Hs2.
  { unfold s2. case_match; [done|]. destruct Hs1 as [F Q O]. split; [done|done|]. by apply store_ok. }
  repeat (case_match; [done|]). case_match; [|done].
  assert (sync_ok (set_queue s2 (Que.push_front (cs_queue s2) p))) as Hs3.
  { destruct Hs2 as [F Q O]. split; [done|by apply push_front_ok|done]. }
  case_match; [|done]. by eapply sync_ok_same; [..|exact Hs3].
Qed.

Lemma sync_step_ok s op : sync_ok s -> sync_ok (sync_step block_hash s op).
Proof.
  intros Hs. destruct op; cbn [sync_step];
    try (by eapply sync_ok_same; [..|exact Hs]).
  - unfold Sync.set_local_tip. case_match; by eapply sync_ok_same; [..|exact Hs].
  - unfold Sync.update_peer_height_for. repeat case_match; by eapply sync_ok_same; [..|exact Hs].
  - unfold Sync.update_peer_difficulty_for. repeat case_match; by eapply sync_ok_same; [..|exact Hs].
  - destruct Hs as [F Q O]. pose proof (queue_headers_ok s headers peer now Q) as Hq.
    assert (cs_flight (Sync.queue_headers_inner s headers peer now) = cs_flight s /\
            cs_orphans (Sync.queue_headers_inner s headers peer now) = cs_orphans s) as [E1 E2].
    { unfold Sync.queue_headers_inner, Sync.queue_empty_headers. repeat case_match; done. }
    split; rewrite ?E1, ?E2; done.
  - by apply take_ok.
  - destruct Hs as [F Q O]. split; [by apply record_request_ok|done|done].
  - by apply block_received_ok.
  - unfold Sync.mark_block_received. destruct Hs as [F Q O].
    case_match; (split; [by apply forget_ok|done|done]).
  - by apply requeue_ok.
  - by apply mark_orphan_ok.
  - unfold Sync.on_block_processed. case_match; by eapply sync_ok_same; [..|exact Hs].
  - unfold Sync.on_timeout. apply requeue_ok.
    repeat case_match; by eapply sync_ok_same; [..|exact Hs].
  - apply leave_synced_ok. by apply requeue_all_ok.
  - destruct (new_ok 0 []) as [F Q O]. split; [exact F|apply empty_ok|].
    by eapply orphans_ok_same; [|exact O].
  - by apply retry_ok.
  - apply leave_synced_ok. by apply requeue_all_ok.
  - apply leave_synced_ok, requeue_all_ok. destruct Hs as [F Q O]. split; [done|done|].
    by eapply orphans_ok_same; [|exact O].
  - unfold Sync.arm_near_tip_catchup. case_match; [by eapply sync_ok_same; [..|exact Hs]|done].
  - destruct Hs as [F Q O]. split; [done|done|]. by apply cleanup_ok.
Qed.

Lemma sync_run_ok h t ops : sync_ok (sync_run block_hash (Sync.new h t) ops).
Proof.
  unfold sync_run. induction ops as [|op ops IH] using rev_ind; [apply new_ok|].
  rewrite foldl_app. by apply sync_step_ok.
Qed.

(** C24: Whatever operations the download state goes through, in any order, the
    three in-flight collections agree (a block is in [downloading] exactly when it
    has a time stamp, and every request is for such a block), at most 10,000
    requests and 1,000 orphans are held, and every orphan is filed under its own hash
    and listed under its parent.  The header count of a peer is the number of queued
    headers the attribution map gives it, at most 5,000, and attributed headers are
    in the queue; headers that were taken and put back have lost their attribution,
    so the queue can hold more of one peer ([requeued_headers_escape_quota]).  The
    orphan counts per peer are not covered. *)
Theorem sync_collections_agree h t ops :
  let s := sync_run block_hash (Sync.new h t) ops in
  let f := cs_flight s in let q := cs_queue s in let o := cs_orphans s in
  dom (download_timestamps f) = downloading f /\ dom (pending_requests f) ⊆ downloading f /\
  Z.of_nat (size (pending_requests f)) <= 10000 /\
  (forall p, default 0 (headers_per_peer q !! p) = attributed (pending_header_peer q) p /\
    attributed (pending_header_peer q) p <= 5000) /\
  (forall x, is_Some (pending_header_peer q !! x) -> x ∈ pending_headers q) /\
  Z.of_nat (size (orphan_blocks o)) <= 1000 /\
  (forall k e, orphan_blocks o !! k = Some e -> block_hash (ob_block e) = k /\
    exists chs, orphan_by_parent o !! prev_hash (header (ob_block e)) = Some chs /\ k ∈ chs).
Proof.
  intros s f q o. destruct (sync_run_ok h t ops) as [F Q O]. fold s in F, Q, O.
  split_and!.
  - apply F.
  - apply F.
  - apply F.
  - intros p. split; apply Q.
  - intros x Hx%elem_of_dom. pose proof (qo_listed _ Q). set_solver.
  - apply O.
  - intros k e He. split; [by apply O|]. by apply (oo_listed _ _ O).
Qed.

(** When a block extends the tip or was asked for, the caller gets the block
    followed by exactly the orphans that descend from it, once each, every one
    after its parent; these leave the pool and all others stay. *)
Theorem received_block_releases s block from now :
  sync_ok s ->
  let hash := block_hash block in
  h_height (header block) <= sat_add u64_max (local_height (cs_claims s)) 10000 ->
  Sync.bogus_target (h_target (header block)) = false ->
  meets_difficulty hash (h_target (header block)) = true ->
  prev_hash (header block) = local_tip (cs_claims s) \/ hash ∈ downloading (cs_flight s) ->
  let pool := orphan_blocks (Orp.cleanup_expired_orphans (cs_orphans s) now).2 in
  exists rel s', Sync.on_block_received_from block_hash s block from now = (block :: rel, s') /\
    NoDup (block_hash <$> rel) /\ from_pool block_hash pool rel /\
    (forall k, k ∈ block_hash <$> rel <-> reach pool [hash] k) /\
    (forall k, orphan_blocks (cs_orphans s') !! k =
      if decide (k ∈ block_hash <$> rel) then None else pool !! k) /\
    parents_first block_hash [hash] rel /\ (hash ∉ downloading (cs_flight s')).
Proof.
  intros Hs hash Hh Ht Hd Hc pool. unfold Sync.on_block_received_from. fold hash.
  rewrite (proj2 (Z.ltb_ge _ _) Hh), Ht, Hd. cbn [negb].
  set (s1 := set_orphans s _). assert (sync_ok s1) as [F1 Q1 O1].
  { destruct Hs as [H1 H2 H3]. split; [done|done|]. by apply cleanup_ok. }
  set (s2 := set_flight s1 _).
  assert ((bool_decide (prev_hash (header block) = local_tip (cs_claims s2))
           || (h_height (header block) =? 0))
          || bool_decide (hash ∈ downloading (cs_flight s1)) = true) as ->.
  { destruct Hc as [Hc|Hc].
    - rewrite bool_decide_true by done. done.
    - rewrite (bool_decide_true (hash ∈ _)) by done. apply orb_true_r. }
  pose proof (release_spec block_hash Hbind _ (cs_orphans s2) [hash] O1 (release_size _ _)) as Hr.
  destruct (Orp.release _ _ _ _) as [rel o']. destruct Hr as (_ & Hd' & Hfp & Hin & Hlk & Hpf).
  exists rel, (set_orphans s2 o'). split_and!; try done. cbn. set_solver.
Qed.
End invariant.

(** ** Runs *)

Definition demo_header (height : Z) (prev : Hash) : BlockHeader :=
  mkBlockHeader [] 1 height 0 prev [] [] 0 0 [254] [] [] None [] [].
Definition demo_block (height : Z) (prev : Hash) : Block := mkBlock (demo_header height prev) [].
Definition demo_hash (b : Block) : Hash := h_height (header b) :: prev_hash (header b).

Lemma demo_hash_binds : hash_binds_parent demo_hash.
Proof. intros b b' [= _ E]. exact E. Qed.

(** A child and a grandchild of a block that has not arrived. *)
Definition waiting : list sync_op :=
  [OBlock (demo_block 7 [6]) (Some [1]) 100; OBlock (demo_block 8 [7; 6]) (Some [1]) 101;
   OHeaders [[9; 9]; [10; 10]] (Some [1]) 102; OTake 1 103; ORecord [9; 9] [1] 103].

Lemma sync_collections_agree_witness :
  Z.of_nat (size (orphan_blocks (cs_orphans (sync_run demo_hash (Sync.new 5 []) waiting)))) = 2 /\
  Z.of_nat (size (orphan_blocks (cs_orphans (sync_run demo_hash (Sync.new 5 []) waiting)))) <= 1000.
Proof.
  split; [vm_compute; reflexivity|].
  apply (sync_collections_agree demo_hash demo_hash_binds 5 [] waiting).
Defined.

(** Five thousand headers of one peer; a hundred are taken and put back; the peer has
    room for a hundred more.  The queue now holds 5,100 headers of a peer whose count
    says 5,000. *)
Definition requeue_run : list sync_op :=
  [OHeaders ((fun i => [i]) <$> seqZ 0 2500) (Some [1]) 100;
   OHeaders ((fun i => [i]) <$> seqZ 2500 2500) (Some [1]) 100;
   OTake 100 101; ORequeue ((fun i => [i]) <$> seqZ 0 100) 102;
   OHeaders ((fun i => [i]) <$> seqZ 5000 100) (Some [1]) 103].

Example requeued_headers_escape_quota :
  let q := cs_queue (sync_run demo_hash (Sync.new 5 []) requeue_run) in
  Z.of_nat (length (pending_headers q)) = 5100 /\ headers_per_peer q !! [1] = Some 5000.
Proof. vm_compute. repeat split. Qed.

Lemma received_block_releases_witness :
  let s := sync_run demo_hash (Sync.new 5 []) waiting in
  (Sync.on_block_received_from demo_hash s (demo_block 6 []) None 110).1 =
    [demo_block 6 []; demo_block 7 [6]; demo_block 8 [7; 6]] /\
  exists rel s', Sync.on_block_received_from demo_hash s (demo_block 6 []) None 110 =
    (demo_block 6 [] :: rel, s') /\ parents_first demo_hash [[6]] rel.
Proof.
  split; [vm_compute; reflexivity|].
  destruct (received_block_releases demo_hash demo_hash_binds
    (sync_run demo_hash (Sync.new 5 []) waiting) (demo_block 6 []) None 110)
    as (rel & s' & E & _ & _ & _ & _ & Hp & _).
  - apply sync_run_ok, demo_hash_binds.
  - vm_compute. discriminate.
  - reflexivity.
  - reflexivity.
  - left. vm_compute. reflexivity.
  - exists rel, s'. split; [exact E|exact Hp].
Defined.
