(* ===== verification/SyncSafety.v ===== *)
(** * Block download: what it guarantees and where it does not

    Wanted blocks are never forgotten silently, header answers are accepted once
    and only from the peer that was asked, the targets follow the claims, the
    locator is short and dense, and the places where the code departs from its
    comments. *)

From stdpp Require Import prelude gmap.
From Stdlib Require Import ZArith Lia.
From S2P Require Import Prelude.
From S2P Require Import Difficulty.
From S2P Require Import Block.
From S2P Require Import Sync.
From S2P Require Import SyncRules.

Local Open Scope Z_scope.

(** ** Wanted blocks *)

Section wanted.
Context (block_hash : Block -> Hash).
Implicit Types s : ChainSync.

(** Queued or in flight. *)
Definition wanted s : gset Hash :=
  list_to_set (pending_headers (cs_queue s)) ∪ downloading (cs_flight s).

(** What an operation may take off the list: the block that arrived, the oldest
    request when 10,000 are open, and everything on a reset. *)
Definition settled_by s (op : sync_op) : gset Hash :=
  match op with
  | OReceived h => {[h]}
  | OBlock b _ _ => {[block_hash b]}
  | OOrphan b _ _ _ => {[block_hash b]}
  | ORecord h _ _ =>
      if (MAX_PENDING_REQUESTS <=? Z.of_nat (size (pending_requests (cs_flight s))))
         && negb (bool_decide (is_Some (pending_requests (cs_flight s) !! h)))
      then match Fly.oldest_request (cs_flight s) with Some k => {[k]} | None => ∅ end
      else ∅
  | OClear => wanted s
  | ORetry now =>
      let to := (Fly.timed_out (cs_flight s) now (request_timeout (cs_conduct s))).*1 in
      if (5 <=? length (Fly.stuck (cs_flight (Sync.requeue_all s to)) now))%nat then wanted s else ∅
  | _ => ∅
  end.

Lemma wanted_same s s' :
  cs_queue s' = cs_queue s -> cs_flight s' = cs_flight s -> wanted s' = wanted s.
Proof. unfold wanted. by intros -> ->. Qed.

Lemma wanted_keeps s s' X :
  cs_queue s' = cs_queue s -> cs_flight s' = cs_flight s -> wanted s ⊆ X ∪ wanted s'.
Proof. intros E1 E2. rewrite (wanted_same s s' E1 E2). set_solver. Qed.

Lemma forget_downloading f h : downloading f ⊆ {[h]} ∪ downloading (Fly.forget f h).
Proof. intros x Hx. cbn. destruct (decide (x = h)) as [->|]; set_solver. Qed.

(** A block that leaves the flight is all that is settled. *)
Lemma forget_wanted s s' h :
  cs_queue s' = cs_queue s -> cs_flight s' = Fly.forget (cs_flight s) h ->
  wanted s ⊆ {[h]} ∪ wanted s'.
Proof.
  intros E1 E2. unfold wanted. rewrite E1, E2. pose proof (forget_downloading (cs_flight s) h).
  set_solver.
Qed.

Lemma requeue_wanted s h : wanted (Sync.requeue s h) = {[h]} ∪ wanted s.
Proof.
  apply set_eq. intros x. unfold wanted. cbn. destruct (decide (x = h)) as [->|]; set_solver.
Qed.
Lemma requeue_all_wanted hs : forall s, wanted s ⊆ wanted (Sync.requeue_all s hs).
Proof.
  induction hs as [|h hs IH]; intros s; [done|]. unfold Sync.requeue_all. cbn.
  fold (Sync.requeue_all (Sync.requeue s h) hs). etransitivity; [|apply IH].
  rewrite requeue_wanted. set_solver.
Qed.
Lemma leave_synced_wanted s b now : wanted (Sync.leave_synced s b now) = wanted s.
Proof. unfold Sync.leave_synced. by case_match. Qed.

Lemma take_blocks_wanted limit now headers : forall q f out,
  let '(_, q', f') := Que.take_blocks limit now q f out headers in
  list_to_set headers ∪ downloading f ⊆@{gset Hash}
  list_to_set (pending_headers q') ∪ downloading f'.
Proof.
  induction headers as [|h rest IH]; intros q f out; cbn; [set_solver|].
  destruct (limit <=? length out)%nat; [done|]. destruct (decide (h ∈ downloading f)) as [Hh|Hh].
  - specialize (IH (Que.untrack_pending_header q h) f out).
    destruct (Que.take_blocks _ _ _ _ _ _) as [[? q'] f']. set_solver.
  - specialize (IH (Que.untrack_pending_header q h) (Fly.enter f h now) (out ++ [h])).
    destruct (Que.take_blocks _ _ _ _ _ _) as [[? q'] f']. cbn in IH. set_solver.
Qed.

Lemma add_headers_wanted f o peer room headers : forall q added x,
  x ∈ pending_headers q ->
  x ∈ pending_headers (Que.add_headers f o q peer room added headers).2.
Proof.
  induction headers as [|h headers IH]; intros q added x Hx; cbn; [done|].
  repeat (case_match; try done); apply IH; cbn; set_solver.
Qed.

Lemma queue_headers_wanted s headers peer now :
  wanted s ⊆ wanted (Sync.queue_headers_inner s headers peer now).
Proof.
  unfold Sync.queue_headers_inner. destruct headers as [|h headers].
  { unfold Sync.queue_empty_headers. repeat case_match; done. }
  set (hs := h :: headers). set (s1 := set_cycle s _). cbv zeta.
  match goal with |- context [Que.add_headers ?f ?o ?q ?p ?r ?a hs] =>
    pose proof (add_headers_wanted f o p r hs q a) as Ha;
    destruct (Que.add_headers f o q p r a hs) as [added q1] end.
  cbn in Ha. assert (pending_headers (Que.credit_peer q1 peer added) = pending_headers q1) as E
    by (unfold Que.credit_peer; by repeat case_match).
  unfold wanted. case_match; cbn; rewrite E; set_solver.
Qed.

Lemma record_wanted s h p ts :
  wanted s ⊆ settled_by s (ORecord h p ts) ∪ wanted (Sync.record_request s h p ts).
Proof.
  assert (downloading (cs_flight s) ⊆
    settled_by s (ORecord h p ts) ∪ downloading (Fly.make_room (cs_flight s) h)) as Hd.
  { unfold Fly.make_room. cbn [settled_by]. destruct (_ && _); [|set_solver].
    destruct (Fly.oldest_request (cs_flight s)) as [k|]; [|set_solver]. apply forget_downloading. }
  assert (downloading (cs_flight (Sync.record_request s h p ts)) =
          {[h]} ∪ downloading (Fly.make_room (cs_flight s) h)) as E by done.
  assert (cs_queue (Sync.record_request s h p ts) = cs_queue s) as Eq by done.
  unfold wanted. rewrite E, Eq. set_solver.
Qed.

Lemma block_received_wanted s b from now :
  wanted s ⊆ {[block_hash b]} ∪ wanted (Sync.on_block_received_from block_hash s b from now).2.
Proof.
  assert (forall c, wanted s ⊆ {[block_hash b]} ∪ wanted (set_conduct s c)) as Hc.
  { intros c. by apply wanted_keeps. }
  unfold Sync.on_block_received_from.
  destruct (_ <? h_height (header b)); [apply Hc|]. destruct (Sync.bogus_target _); [apply Hc|].
  destruct (meets_difficulty _ _); cbn [negb]; [|apply Hc].
  destruct (_ || _); [|by apply forget_wanted].
  destruct (Orp.release _ _ _ _) as [rel o]. by apply forget_wanted.
Qed.

Lemma mark_orphan_wanted s b from p now :
  wanted s ⊆ {[block_hash b]} ∪ wanted (Sync.mark_block_orphan block_hash s b from p now).
Proof.
  unfold Sync.mark_block_orphan. set (s1 := set_flight s _).
  set (s2 := if bool_decide _ then s1 else _).
  assert (wanted s ⊆ {[block_hash b]} ∪ wanted s2) as Hs2.
  { unfold s2. destruct (bool_decide _); by apply forget_wanted. }
  assert (wanted s2 ⊆ wanted (set_queue s2 (Que.push_front (cs_queue s2) p))) as Hp
    by (unfold wanted; cbn; set_solver).
  repeat (case_match; [done|]). case_match; [|done].
  etransitivity; [exact Hs2|]. apply union_mono_l. etransitivity; [exact Hp|]. by case_match.
Qed.

Lemma wanted_step s op : wanted s ⊆ settled_by s op ∪ wanted (sync_step block_hash s op).
Proof.
  destruct op; cbn [sync_step settled_by]; try (by apply wanted_keeps).
  - unfold Sync.set_local_tip. case_match; by apply wanted_keeps.
  - unfold Sync.update_peer_height_for. repeat case_match; by apply wanted_keeps.
  - unfold Sync.update_peer_difficulty_for. repeat case_match; by apply wanted_keeps.
  - pose proof (queue_headers_wanted s headers peer now). set_solver.
  - unfold Sync.get_blocks_to_request.
    pose proof (take_blocks_wanted (max `min` (max_concurrent - size (downloading (cs_flight s))))
      now (pending_headers (cs_queue s)) (cs_queue s) (cs_flight s) []) as Ht.
    destruct (Que.take_blocks _ _ _ _ _ _) as [[out q] f]. unfold wanted. cbn. set_solver.
  - apply record_wanted.
  - apply block_received_wanted.
  - unfold Sync.mark_block_received. case_match; by apply forget_wanted.
  - unfold Sync.mark_block_failed. rewrite requeue_wanted. set_solver.
  - apply mark_orphan_wanted.
  - unfold Sync.on_block_processed. case_match; by apply wanted_keeps.
  - unfold Sync.on_timeout. rewrite requeue_wanted. set (s1 := match _ with Some _ => _ | None => s end).
    assert (wanted s ⊆ ∅ ∪ wanted s1) as W
      by (unfold s1; repeat case_match; by apply wanted_keeps).
    set_solver.
  - unfold Sync.requeue_failed. rewrite leave_synced_wanted.
    pose proof (requeue_all_wanted (rev hashes) s). set_solver.
  - set_solver.
  - unfold Sync.get_blocks_to_retry. cbn [snd]. cbv zeta. set (to := (Fly.timed_out _ _ _).*1).
    set (s1 := Sync.requeue_all s to). set (stuck := Fly.stuck (cs_flight s1) now).
    pose proof (requeue_all_wanted to s) as W1. pose proof (requeue_all_wanted stuck s1) as W2.
    fold s1 in W1. fold (Sync.requeue_stuck s1 stuck) in W2.
    destruct (5 <=? length stuck)%nat; [set_solver|]. cbn [andb].
    rewrite leave_synced_wanted. unfold Sync.requeue_stuck. set_solver.
  - unfold Sync.recover_stuck_downloads. cbn [snd]. rewrite leave_synced_wanted.
    pose proof (requeue_all_wanted (Fly.unrequested (cs_flight s)) s) as W. unfold Sync.requeue_stuck.
    unfold Sync.requeue_all in W. set_solver.
  - unfold Sync.on_peer_disconnected. rewrite leave_synced_wanted.
    match goal with |- context [Sync.requeue_all ?x ?l] => pose proof (requeue_all_wanted l x) as W end.
    match type of W with wanted ?x ⊆ _ => assert (wanted x = wanted s) as E by by apply wanted_same end.
    set_solver.
  - unfold Sync.arm_near_tip_catchup. case_match; by apply wanted_keeps.
Qed.

(** No operation along the run takes [h] off the list. *)
Fixpoint unsettled s (h : Hash) (ops : list sync_op) : Prop :=
  match ops with
  | [] => True
  | op :: ops => (h ∉ settled_by s op) /\ unsettled (sync_step block_hash s op) h ops
  end.

(** C25: A block that is wanted, queued or in flight, stays wanted whatever happens,
    timeouts, failures, disconnections, reassignments and retries included, until
    it arrives, or the oldest of 10,000 open requests makes room for a new one, or
    the downloads are reset. *)
Theorem wanted_until_settled s h ops :
  h ∈ wanted s -> unsettled s h ops -> h ∈ wanted (sync_run block_hash s ops).
Proof.
  revert s. induction ops as [|op ops IH]; intros s Hh Hu; [done|].
  destruct Hu as [Hno Hu]. apply (IH (sync_step block_hash s op)); [|done].
  pose proof (wanted_step s op). set_solver.
Qed.
End wanted.

(** ** Header nonces *)

Section nonces.
Context (block_hash : Block -> Hash).
Implicit Types s : ChainSync.

(** Outstanding nonces and the next one. *)
Definition nonces s : gmap Z (PeerId * Z) := pending_header_nonces (cs_cycle s).
Definition next_nonce s : Z := next_header_nonce (cs_cycle s).

Lemma requeue_all_cycle hs : forall s, cs_cycle (Sync.requeue_all s hs) = cs_cycle s.
Proof. induction hs as [|h hs IH]; intros s; [done|]. apply (IH (Sync.requeue s h)). Qed.

(** The cycle of [s'] is that of [s] up to its state and times. *)
Definition same_nonces s s' : Prop := nonces s' = nonces s /\ next_nonce s' = next_nonce s.

Lemma leave_synced_nonces s b now : same_nonces s (Sync.leave_synced s b now).
Proof.
  unfold Sync.leave_synced, Cyc.enter_blocks. case_match; [|done]. cbn.
  unfold same_nonces, nonces, next_nonce. cbn. by destruct (blocks_entered_at (cs_cycle s)).
Qed.

Lemma same_nonces_trans s1 s2 s3 : same_nonces s1 s2 -> same_nonces s2 s3 -> same_nonces s1 s3.
Proof. unfold same_nonces. intros [-> ->] [-> ->]. done. Qed.

Lemma requeue_nonces s hs b now :
  same_nonces s (Sync.leave_synced (Sync.requeue_all s hs) b now).
Proof.
  eapply same_nonces_trans; [|apply leave_synced_nonces].
  unfold same_nonces, nonces, next_nonce. by rewrite requeue_all_cycle.
Qed.

Lemma retry_nonces s now : same_nonces s (Sync.get_blocks_to_retry s now).2.
Proof.
  unfold Sync.get_blocks_to_retry. cbn [snd]. cbv zeta.
  set (s1 := Sync.requeue_all s _). set (s2 := Sync.requeue_stuck s1 _).
  assert (same_nonces s s2) as H2.
  { unfold same_nonces, nonces, next_nonce, s2. change Sync.requeue_stuck with Sync.requeue_all.
    rewrite requeue_all_cycle. unfold s1. by rewrite requeue_all_cycle. }
  eapply same_nonces_trans; [exact H2|]. eapply same_nonces_trans; [apply leave_synced_nonces|].
  case_match; done.
Qed.

Lemma headers_nonces s headers peer now :
  same_nonces s (Sync.queue_headers_inner s headers peer now).
Proof.
  unfold Sync.queue_headers_inner. destruct headers as [|h headers].
  { unfold Sync.queue_empty_headers. repeat case_match; done. }
  cbv zeta. destruct (Que.add_headers _ _ _ _ _ _ _) as [added q]. case_match; [done|].
  unfold same_nonces, nonces, next_nonce, Cyc.enter_blocks. cbn. by destruct (blocks_entered_at _).
Qed.

(** Only a request adds a nonce, its own; everything else keeps or removes. *)
Definition nonce_effect s (op : sync_op) s' : Prop :=
  (forall n x, nonces s' !! n = Some x ->
    nonces s !! n = Some x \/
    (exists p now, op = OBegin p now /\ n = next_nonce s /\ x.1 = p /\
      headers_request_time (cs_cycle s) = None)) /\
  (next_nonce s' = next_nonce s \/ next_nonce s' = wrap64 (next_nonce s + 1)) /\
  (forall p now, op = OBegin p now -> headers_request_time (cs_cycle s) = None ->
   next_nonce s' = wrap64 (next_nonce s + 1)).

Lemma nonces_step s op : nonce_effect s op (sync_step block_hash s op).
Proof.
  assert (forall s', same_nonces s s' -> (forall p now, op <> OBegin p now) ->
    nonce_effect s op s') as Hsame.
  { intros s' [E1 E2] Hno. unfold nonce_effect. rewrite E1, E2.
    split_and!; [by left|by left|]. intros p now E. by apply Hno in E. }
  destruct op; cbn [sync_step]; try (apply Hsame; [done|congruence]).
  - apply Hsame; [|congruence]. unfold Sync.set_local_tip. by case_match.
  - apply Hsame; [|congruence]. unfold Sync.update_peer_height_for. by repeat case_match.
  - apply Hsame; [|congruence]. unfold Sync.update_peer_difficulty_for. by repeat case_match.
  - apply Hsame; [|congruence]. unfold Cyc.set_state. cbn. by case_match.
  - apply Hsame; [apply headers_nonces|congruence].
  - apply Hsame; [|congruence]. unfold Sync.get_blocks_to_request. by repeat case_match.
  - apply Hsame; [|congruence]. unfold Sync.on_block_received_from. by repeat case_match.
  - apply Hsame; [|congruence]. unfold Sync.mark_block_received. by case_match.
  - apply Hsame; [|congruence]. unfold Sync.mark_block_orphan. by repeat case_match.
  - apply Hsame; [|congruence]. unfold Sync.on_block_processed. by case_match.
  - apply Hsame; [|congruence]. unfold Sync.on_timeout. by repeat case_match.
  - unfold nonce_effect, Cyc.begin_headers_request, nonces, next_nonce. cbn.
    destruct (headers_request_time (cs_cycle s)) eqn:E; cbn.
    + split_and!; [by left|by left|congruence].
    + split_and!; [|by right|done]. intros n x.
      destruct (decide (n = next_header_nonce (cs_cycle s))) as [->|Hn].
      * rewrite lookup_insert_eq. intros [= <-]. right. eauto 10.
      * rewrite lookup_insert_ne by done. by left.
  - unfold Cyc.cancel_headers_request. case_match; cbn; [|apply Hsame; [done|congruence]].
    unfold nonce_effect. split_and!; [|by left|done]. intros k x Hk. left. unfold nonces in *. cbn in Hk.
    by apply lookup_delete_Some in Hk as [_ ?].
  - unfold Cyc.validate_header_nonce. case_match; cbn; [|apply Hsame; [done|congruence]].
    unfold nonce_effect. split_and!; [|by left|done]. intros k x Hk. left. unfold nonces in *. cbn in Hk.
    by apply lookup_delete_Some in Hk as [_ ?].
  - unfold nonce_effect. split_and!; [by intros n x|by left|done].
  - apply Hsame; [apply requeue_nonces|congruence].
  - apply Hsame; [apply retry_nonces|congruence].
  - apply Hsame; [|congruence]. unfold Sync.recover_stuck_downloads.
    change Sync.requeue_stuck with Sync.requeue_all. apply requeue_nonces.
  - apply Hsame; [|congruence]. unfold Sync.on_peer_disconnected.
    eapply same_nonces_trans; [|apply requeue_nonces]. done.
  - apply Hsame; [|congruence]. unfold Cyc.trigger_resync. cbn. by repeat case_match.
  - apply Hsame; [|congruence]. unfold Sync.arm_near_tip_catchup. by case_match.
Qed.

(** Every outstanding nonce was handed out for a request to its peer. *)
Definition issued (s0 : ChainSync) (ops : list sync_op) (n : Z) (p : PeerId) : Prop :=
  exists before now after, ops = before ++ OBegin p now :: after /\
    (Cyc.begin_headers_request (cs_cycle (sync_run block_hash s0 before)) p now).1 = Some n.

Record nonces_ok (s0 : ChainSync) (ops : list sync_op) : Prop := {
  nk_issued n x : nonces (sync_run block_hash s0 ops) !! n = Some x -> issued s0 ops n x.1;
  nk_below n x : nonces (sync_run block_hash s0 ops) !! n = Some x ->
    n < next_nonce (sync_run block_hash s0 ops);
  nk_next : 1 <= next_nonce (sync_run block_hash s0 ops) <= Z.of_nat (length ops) + 1
}.

Lemma sync_run_snoc s0 ops op :
  sync_run block_hash s0 (ops ++ [op]) = sync_step block_hash (sync_run block_hash s0 ops) op.
Proof. unfold sync_run. by rewrite foldl_app. Qed.

Lemma next_bump s op :
  1 <= next_nonce s < u64_max ->
  next_nonce s <= next_nonce (sync_step block_hash s op) <= next_nonce s + 1.
Proof.
  intros Hn. destruct (nonces_step s op) as (_ & Hnext & _).
  rewrite wrap64_small in Hnext by word_lia. lia.
Qed.

Lemma run_nonces_ok h t ops :
  Z.of_nat (length ops) + 1 < u64_max -> nonces_ok (Sync.new h t) ops.
Proof.
  induction ops as [|op ops IH] using rev_ind; intros Hl.
  { split; cbn; [by intros n x|by intros n x|lia]. }
  rewrite length_app in Hl. cbn [length] in Hl. destruct IH as [H1 H2 H3]; [lia|].
  set (s := sync_run block_hash (Sync.new h t) ops) in *.
  destruct (nonces_step s op) as (Hadd & _ & Hb).
  pose proof (next_bump s op ltac:(lia)) as Hbump.
  split; rewrite ?sync_run_snoc; fold s.
  - intros n x Hx. destruct (Hadd n x Hx) as [Hold|(p & now & -> & -> & <- & Ht)].
    + destruct (H1 n x Hold) as (before & now & after & -> & E).
      exists before, now, (after ++ [op]). by rewrite <- app_assoc.
    + exists ops, now, []. split; [done|]. fold s. unfold Cyc.begin_headers_request. by rewrite Ht.
  - intros n x Hx. destruct (Hadd n x Hx) as [Hold|(p & now & -> & -> & _ & Ht)].
    + specialize (H2 n x Hold). lia.
    + rewrite (Hb p now eq_refl Ht), wrap64_small by word_lia. lia.
  - rewrite length_app. cbn [length]. lia.
Qed.

(** A nonce below the next one that is not outstanding stays unknown. *)
Lemma spent_nonce_stays n ops : forall s,
  1 <= next_nonce s -> next_nonce s + Z.of_nat (length ops) < u64_max ->
  n < next_nonce s -> nonces s !! n = None ->
  nonces (sync_run block_hash s ops) !! n = None.
Proof.
  induction ops as [|op ops IH]; intros s H1 Hl Hn Hnone; [done|]. cbn [length] in Hl.
  pose proof (next_bump s op ltac:(lia)) as Hb. apply (IH (sync_step block_hash s op)); [lia|lia|lia|].
  destruct (nonces (sync_step block_hash s op) !! n) as [x|] eqn:E; [|done].
  destruct (nonces_step s op) as (Hadd & _). destruct (Hadd n x E) as [F|(p & now & _ & -> & _)].
  - congruence.
  - lia.
Qed.

(** A header answer is accepted only with a nonce that was handed out for a
    request to the peer that answers, and every nonce is accepted at most once,
    over any sequence of fewer than 2^64 operations. *)
Theorem header_nonces_single_use h t ops n p later q :
  Z.of_nat (length ops) + Z.of_nat (length later) + 2 < u64_max ->
  let s := sync_run block_hash (Sync.new h t) ops in
  (Cyc.validate_header_nonce (cs_cycle s) n p).1 = true ->
  let s' := sync_run block_hash s (OValidate n p :: later) in
  issued (Sync.new h t) ops n p /\ (Cyc.validate_header_nonce (cs_cycle s') n q).1 = false.
Proof.
  intros Hl s Hv s'. destruct (run_nonces_ok h t ops) as [H1 H2 H3]; [lia|]. fold s in H1, H2, H3.
  unfold Cyc.validate_header_nonce in Hv. destruct (Cyc.nonce_matches (cs_cycle s) n p) eqn:Hm; [|done].
  unfold Cyc.nonce_matches in Hm. apply bool_decide_eq_true in Hm.
  split; [by apply (H1 n (p, header_nonce_generation (cs_cycle s)))|].
  set (s1 := sync_step block_hash s (OValidate n p)).
  assert (nonces s1 !! n = None /\ next_nonce s1 = next_nonce s) as [Hnone Hnx].
  { unfold s1, nonces, next_nonce. cbn [sync_step]. unfold Cyc.validate_header_nonce, Cyc.nonce_matches.
    rewrite bool_decide_true by done. cbn. by rewrite lookup_delete_eq. }
  assert (nonces s' !! n = None) as Hend.
  { apply (spent_nonce_stays n later s1); rewrite ?Hnx; [lia|lia| |done]. by eapply H2. }
  unfold Cyc.validate_header_nonce, Cyc.nonce_matches. unfold nonces in Hend. rewrite Hend.
  by rewrite bool_decide_false.
Qed.
End nonces.

(** ** Runs *)

Lemma wanted_until_settled_witness :
  let s := sync_run demo_hash (Sync.new 5 []) waiting in
  [9; 9] ∈ wanted s /\
  [9; 9] ∈ wanted (sync_run demo_hash s [OTimeout [9; 9] 200; OTake 5 201; ODisconnect [1] 202]).
Proof.
  split; [by vm_compute|].
  apply (wanted_until_settled demo_hash); [by vm_compute|].
  repeat (split; [intros Hx; vm_compute in Hx; discriminate Hx|]). exact I.
Defined.

Lemma header_nonces_single_use_witness :
  issued demo_hash (Sync.new 5 []) [OBegin [1] 0] 1 [1] /\
  (Cyc.validate_header_nonce (cs_cycle (sync_run demo_hash
     (sync_run demo_hash (Sync.new 5 []) [OBegin [1] 0]) [OValidate 1 [1]; OBegin [2] 5])) 1 [1]).1
    = false.
Proof.
  apply (header_nonces_single_use demo_hash 5 [] [OBegin [1] 0] 1 [1] [OBegin [2] 5] [1]).
  - vm_compute. reflexivity.
  - vm_compute. reflexivity.
Defined.
