(* ===== verification/SyncTargets.v ===== *)
(** * Block download: locators, targets and departures from the comments *)

From stdpp Require Import prelude gmap sorting.
From Stdlib Require Import ZArith Lia.
From S2P Require Import Prelude.
From S2P Require Import Difficulty.
From S2P Require Import Block.
From S2P Require Import Sync.
From S2P Require Import SyncRules.
From S2P Require Import SyncSafety.

Local Open Scope Z_scope.

(** ** The block locator *)

Section locator.
Context (tip : Z) (get_hash : Z -> option Hash) (f : Z -> Hash).
Context (Htip : 0 <= tip <= u64_max) (Hget : forall h, 0 <= h <= tip -> get_hash h = Some (f h)).

(** Where the loop stands after [i] hashes: ten single steps, then doubling. *)
Definition at_turn (i : nat) (h step : Z) : Prop :=
  ((i < 10)%nat /\ step = 1 /\ tip - h = Z.of_nat i) \/
  ((10 <= i)%nat /\ step = 2 ^ (Z.of_nat i - 9) /\ tip - h = 2 * step + 7).

Definition next_step (i : nat) (step : Z) : Z := if (10 <=? S i)%nat then step * 2 else step.

Lemma at_turn_next i h step :
  0 < h -> at_turn i h step ->
  1 <= next_step i step /\ next_step i step <= Z.max 1 (tip - h) /\
  wrap64 (step * 2) = step * 2 /\
  (next_step i step <= h -> at_turn (S i) (h - next_step i step) (next_step i step)).
Proof.
  intros Hh [(Hi & -> & Hd)|(Hi & Hs & Hd)]; unfold next_step.
  - destruct (Nat.leb_spec 10 (S i)) as [Hl|Hl].
    + assert (i = 9%nat) as -> by lia. cbn in Hd.
      split_and!; [lia|lia|done|]. intros _. right. cbn. split_and!; [lia|done|lia].
    + split_and!; [lia|lia|done|]. intros _. left. split_and!; lia.
  - destruct (Nat.leb_spec 10 (S i)) as [Hl|Hl]; [|lia].
    assert (0 < step) by (rewrite Hs; apply Z.pow_pos_nonneg; lia).
    split_and!; [lia|lia| |].
    + apply wrap64_small. word_lia.
    + intros _. right. split_and!; [lia| |lia]. rewrite Hs.
      replace (Z.of_nat (S i) - 9) with (Z.succ (Z.of_nat i - 9)) by lia.
      rewrite Z.pow_succ_r by lia. lia.
Qed.

(** At most [71] turns fit. *)
Lemma at_turn_short i h step : 0 <= h -> at_turn i h step -> (i <= 71)%nat.
Proof.
  intros Hh [(Hi & _)|(Hi & Hs & Hd)]; [lia|].
  destruct (decide (i <= 71)%nat) as [|Hn]; [done|exfalso].
  assert (2 ^ 63 <= step) by (rewrite Hs; apply Z.pow_le_mono_r; lia).
  assert (2 ^ 63 = 9223372036854775808) by done. unfold u64_max in Htip. lia.
Qed.

Definition covers (hs : list Z) (h : Z) : Prop :=
  forall x, 0 <= x <= h -> exists y, y ∈ hs ++ [0] /\ y <= x /\ x - y <= tip - x.

Lemma locator_loop_spec fuel : forall h step acc,
  0 <= h <= Z.of_nat fuel -> h <= tip -> at_turn (length acc) h step ->
  exists hs, Sync.locator_loop fuel get_hash h step (f <$> acc) = f <$> (acc ++ hs) /\
    (h = 0 /\ hs = [] \/ exists rest, hs = h :: rest) /\
    StronglySorted Z.gt hs /\ Forall (fun y => 0 < y <= h) hs /\ covers hs h /\
    (length acc + length hs <= 72)%nat.
Proof.
  induction fuel as [|fuel IH]; intros h step acc Hh Ht Hat.
  { assert (h = 0) as -> by lia. exists []. cbn. rewrite app_nil_r. split_and!; [done|by left|constructor|constructor| |].
    - intros x Hx. exists 0. split; [by left|]. lia.
    - pose proof (at_turn_short _ _ _ (proj1 Hh) Hat). lia. }
  pose proof (at_turn_short _ _ _ (proj1 Hh) Hat) as Hshort. cbn [Sync.locator_loop].
  destruct (Z.leb_spec h 0) as [Hz|Hpos].
  { assert (h = 0) as -> by lia. exists []. rewrite app_nil_r. split_and!; [done|by left|constructor|constructor| |cbn; lia].
    intros x Hx. exists 0. split; [by left|]. lia. }
  rewrite Hget by lia.
  destruct (at_turn_next (length acc) h step Hpos Hat) as (Hs1 & Hs2 & Hw & Hnext).
  assert (f <$> acc ++ [h] = (f <$> acc) ++ [f h]) as Eacc by by rewrite fmap_app.
  assert ((if (10 <=? length ((f <$> acc) ++ [f h]))%nat then wrap64 (step * 2) else step)
          = next_step (length acc) step) as ->.
  { rewrite length_app, length_fmap. cbn [length]. rewrite Nat.add_1_r, Hw. done. }
  destruct (Z.ltb_spec h (next_step (length acc) step)) as [Hlt|Hge].
  - exists [h]. split_and!; [by rewrite Eacc|right; by exists []| | | |cbn; lia].
    + repeat constructor.
    + repeat constructor; lia.
    + intros x Hx. destruct (decide (x = h)) as [->|Hne].
      * exists h. split; [by left|]. lia.
      * exists 0. split; [by right; left|]. lia.
  - rewrite <- Eacc.
    destruct (IH (h - next_step (length acc) step) (next_step (length acc) step) (acc ++ [h]))
      as (hs & E & Hhd & Hso & Hall & Hcov & Hlen); [lia|lia| |].
    { rewrite length_app. cbn [length]. rewrite Nat.add_1_r. by apply Hnext. }
    exists (h :: hs). split_and!.
    + rewrite E. by rewrite <- app_assoc.
    + right. by exists hs.
    + constructor; [done|]. eapply Forall_impl; [exact Hall|]. cbn. lia.
    + constructor; [lia|]. eapply Forall_impl; [exact Hall|]. cbn. lia.
    + intros x Hx. destruct (decide (x = h)) as [->|Hne].
      { exists h. split; [by left|]. lia. }
      destruct (decide (x <= h - next_step (length acc) step)) as [Hle|Hgt].
      * destruct (Hcov x) as (y & Hy & Hyx); [lia|]. exists y. split; [by right|done].
      * exists (h - next_step (length acc) step). split; [|lia].
        destruct Hhd as [[-> ->]|[rest ->]]; [by right; left|by right; left].
    + rewrite length_app in Hlen. cbn [length] in *. lia.
Qed.

(** On a chain that stores every height the locator starts at the tip, descends
    strictly, ends at genesis, has at most 73 entries, and for every height of the
    chain contains one at or below it that is no further from it than it is from
    the tip: the answer to a node whose chain left ours [d] blocks ago repeats at
    most [d] blocks that it has. *)
Theorem locator_dense :
  (forall a b, 0 <= a <= tip -> 0 <= b <= tip -> f a = f b -> a = b) -> 0 < tip ->
  exists hs, Sync.build_locator tip get_hash = f <$> hs /\ head hs = Some tip /\
    last hs = Some 0 /\ StronglySorted Z.gt hs /\ (length hs <= 73)%nat /\
    (forall x, 0 <= x <= tip -> exists y, y ∈ hs /\ y <= x /\ x - y <= tip - x).
Proof.
  intros Hinj Hpos. unfold Sync.build_locator.
  destruct (locator_loop_spec (Z.to_nat tip) tip 1 []) as (hs & E & Hhd & Hso & Hall & Hcov & Hlen).
  { lia. } { lia. } { left. cbn. split_and!; lia. }
  cbn in E. rewrite E, Hget by lia.
  destruct Hhd as [[? _]|[rest ->]]; [lia|].
  rewrite bool_decide_false.
  - exists ((tip :: rest) ++ [0]). rewrite fmap_app. split_and!; [done|done| | | |done].
    + by rewrite last_snoc.
    + apply StronglySorted_app_2; [|done|repeat constructor].
      intros a b Ha ->%list_elem_of_singleton. rewrite Forall_forall in Hall.
      specialize (Hall a Ha). lia.
    + rewrite length_app. cbn in *. lia.
  - intros El. rewrite fmap_last in El. apply fmap_Some in El as (y & Hy & Ey).
    apply last_Some_elem_of in Hy. rewrite Forall_forall in Hall. specialize (Hall y Hy).
    assert (0 = y) by (apply Hinj; [lia|lia|done]). lia.
Qed.
End locator.

Lemma locator_dense_witness :
  exists hs, Sync.build_locator 1000 (fun h => Some [h]) = (fun h => [h]) <$> hs /\
    head hs = Some 1000 /\ last hs = Some 0 /\ (length hs <= 73)%nat.
Proof.
  destruct (locator_dense 1000 (fun h => Some [h]) (fun h => [h])) as (hs & E & H1 & H2 & _ & H3 & _).
  - unfold u64_max. lia.
  - done.
  - intros a b _ _ [= ->]. done.
  - lia.
  - exists hs. auto.
Defined.

(** ** Targets and claims *)

Lemma foldl_max_spec (l : list Z) : forall v,
  v <= foldl Z.max v l /\ (forall x, x ∈ l -> x <= foldl Z.max v l) /\
  (foldl Z.max v l = v \/ foldl Z.max v l ∈ l).
Proof.
  induction l as [|y l IH]; intros v; cbn; [split_and!; [lia|by intros x ?%elem_of_nil|by left]|].
  destruct (IH (Z.max v y)) as (H1 & H2 & H3). split_and!; [lia| |].
  - intros x [->|Hx]%elem_of_cons; [lia|by apply H2].
  - destruct H3 as [->|H3]; [|right; by right].
    destruct (Z.max_spec v y) as [[_ ->]|[_ ->]]; [right; by left|by left].
Qed.

(** The target is at most [b] exactly when every claim is. *)
Lemma max_value_le (m : gmap PeerId Z) b :
  0 <= b -> default 0 (Claim.max_value m) <= b <-> forall p v, m !! p = Some v -> v <= b.
Proof.
  intros Hb. unfold Claim.max_value. split.
  - intros Hm p v Hp. apply elem_of_map_to_list in Hp.
    assert (v ∈ (map_to_list m).*2) as Hv by (apply list_elem_of_fmap; by exists (p, v)).
    destruct (map_to_list m).*2 as [|w l]; [by apply elem_of_nil in Hv|]. cbn in Hm.
    destruct (foldl_max_spec l w) as (H1 & H2 & _).
    apply elem_of_cons in Hv as [->|Hv]; [lia|]. specialize (H2 v Hv). lia.
  - intros Hm. destruct (map_to_list m).*2 as [|w l] eqn:E; [done|]. cbn.
    assert (foldl Z.max w l ∈ (map_to_list m).*2) as Hin.
    { rewrite E. destruct (foldl_max_spec l w) as (_ & _ & [->|H3]); [by left|by right]. }
    apply list_elem_of_fmap in Hin as ([p v] & -> & Hp). apply elem_of_map_to_list in Hp.
    by apply (Hm p v).
Qed.

Record targets_ok (c : Claims) : Prop := {
  to_height : best_known_height c = Z.max (local_height c) (default 0 (Claim.max_value (peer_heights c)));
  to_work : best_known_difficulty c =
    Z.max (local_total_difficulty c) (default 0 (Claim.max_value (peer_difficulties c)))
}.

(** Operations that keep both targets derived: not the two that set one height
    directly and not [retain_connected_peers]. *)
Definition derives (op : sync_op) : bool :=
  match op with OHeight _ | OSetLocalHeight _ | ORetain _ => false | _ => true end.

Section targets.
Context (block_hash : Block -> Hash).
Implicit Types s : ChainSync.

Lemma requeue_all_claims hs : forall s, cs_claims (Sync.requeue_all s hs) = cs_claims s.
Proof. induction hs as [|h hs IH]; intros s; [done|]. apply (IH (Sync.requeue s h)). Qed.
Lemma leave_synced_claims s b now : cs_claims (Sync.leave_synced s b now) = cs_claims s.
Proof. unfold Sync.leave_synced. by case_match. Qed.

Lemma drop_claim_ok c p : targets_ok c -> targets_ok (Claim.drop_work_claim c p).
Proof. by intros [H1 H2]. Qed.

Lemma targets_step s op :
  derives op = true -> targets_ok (cs_claims s) -> targets_ok (cs_claims (sync_step block_hash s op)).
Proof.
  intros Hd Ht. pose proof Ht as [H1 H2]. destruct op; cbn [sync_step] in *; try done.
  - unfold Sync.set_local_tip. by case_match.
  - unfold Sync.update_peer_height_for. by repeat case_match.
  - unfold Sync.update_peer_difficulty_for. by repeat case_match.
  - unfold Claim.expire_stale_work_claims. cbn. case_decide as E; [|done]. by rewrite E.
  - unfold Sync.queue_headers_inner, Sync.queue_empty_headers. by repeat case_match.
  - unfold Sync.get_blocks_to_request. by repeat case_match.
  - unfold Sync.on_block_received_from. by repeat case_match.
  - unfold Sync.mark_block_received. by case_match.
  - unfold Sync.mark_block_orphan. by repeat case_match.
  - unfold Sync.on_block_processed. by case_match.
  - unfold Sync.on_timeout. destruct (pending_requests (cs_flight s) !! hash) as [r|]; [|done].
    destruct (Con.strike _ _ _) as [[] c]; [|done]. by apply drop_claim_ok.
  - unfold Sync.requeue_failed. by rewrite leave_synced_claims, requeue_all_claims.
  - unfold Sync.get_blocks_to_retry. cbn [snd]. cbv zeta. change Sync.requeue_stuck with Sync.requeue_all.
    case_match; cbn; by rewrite leave_synced_claims, !requeue_all_claims.
  - unfold Sync.recover_stuck_downloads. cbn. change Sync.requeue_stuck with Sync.requeue_all.
    by rewrite leave_synced_claims, requeue_all_claims.
  - unfold Sync.on_peer_disconnected. by rewrite leave_synced_claims, requeue_all_claims.
  - unfold Sync.arm_near_tip_catchup. by case_match.
Qed.

(** The node considers itself synced exactly when no peer claims a greater
    height, and its work target is above its own work exactly when some peer claims
    more work: both targets are derived from the present claims and shrink with
    them, whatever was claimed before, along every run without the two direct
    setters and the pruning to the connected peers. *)
Theorem targets_follow_claims h t ops :
  0 <= h -> forallb derives ops = true ->
  let c := cs_claims (sync_run block_hash (Sync.new h t) ops) in
  0 <= local_height c -> 0 <= local_total_difficulty c ->
  (Claim.is_synced c = true <-> forall p v, peer_heights c !! p = Some v -> v <= local_height c) /\
  (best_known_difficulty c = local_total_difficulty c <->
   forall p v, peer_difficulties c !! p = Some v -> v <= local_total_difficulty c).
Proof.
  intros Hh Hd c Hl Hw. assert (targets_ok c) as [H1 H2].
  { unfold c. clear c Hl Hw. revert Hd. induction ops as [|op ops IH] using rev_ind; intros Hd.
    - split; cbn; unfold Claim.max_value; rewrite map_to_list_empty; cbn; lia.
    - rewrite sync_run_snoc. rewrite forallb_app in Hd. apply andb_true_iff in Hd as [Hd Hop].
      cbn in Hop. rewrite andb_true_r in Hop. apply targets_step; [done|by apply IH]. }
  split.
  - rewrite <- max_value_le by done. unfold Claim.is_synced, Claim.true_best_height.
    rewrite Z.leb_le, H1. lia.
  - rewrite <- max_value_le by done. rewrite H2. lia.
Qed.
End targets.

Lemma targets_follow_claims_witness :
  Claim.is_synced (cs_claims (sync_run (fun _ => []) (Sync.new 5 []) [OPeerHeight [1] 9; ODisconnect [1] 0]))
    = true.
Proof.
  apply (targets_follow_claims (fun _ => []) 5 [] [OPeerHeight [1] 9; ODisconnect [1] 0]).
  - lia.
  - reflexivity.
  - vm_compute. discriminate.
  - vm_compute. discriminate.
  - intros p v Hp. vm_compute in Hp. destruct p as [|x l]; [discriminate|].
    exfalso. revert Hp. vm_compute. destruct x as [|[]|]; discriminate.
Defined.

(** ** Departures from the comments *)

(** A peer that claimed more work and vanished without a height entry keeps its
    claim as the target: pruning to the connected peers removes the claim, sees that
    no height was pruned and no claim is left, and skips the recomputation. *)
Theorem departed_work_claim_pins_target (block_hash : Block -> Hash) h t p d now :
  0 < d <= 2 ^ 60 ->
  let s := sync_run block_hash (Sync.new h t) [OWork p d now; ORetain ∅] in
  peer_difficulties (cs_claims s) = ∅ /\ local_total_difficulty (cs_claims s) = 0 /\
  best_known_difficulty (cs_claims s) = d.
Proof.
  intros Hd s.
  assert (cs_claims (Sync.update_peer_difficulty_for (Sync.new h t) p d now) =
    mkClaims h t h ∅ {[p := d]} d 0 {[p := now]}) as E.
  { unfold Sync.update_peer_difficulty_for. cbn [cs_claims Sync.new best_known_difficulty
      peer_difficulties local_total_difficulty]. unfold Claim.max_value at 1.
    rewrite map_to_list_empty. cbn [fmap list_fmap default].
    rewrite (proj2 (Z.ltb_ge _ _)) by (change (Z.shiftl 1 60) with (2 ^ 60); lia). rewrite (proj2 (Z.leb_gt _ _)) by lia.
    change (Cyc.settled (Sync.state (set_claims (Sync.new h t) _))) with true.
    cbn. unfold Claim.recompute_best_difficulty, Claim.set_work, Claim.max_value. cbn.
    rewrite insert_empty, map_to_list_singleton. cbn. f_equal; lia. }
  unfold s, sync_run. cbn [foldl sync_step cs_claims set_claims]. rewrite E.
  unfold Claim.retain_connected_peers. cbn.
  rewrite map_filter_empty, map_size_empty. rewrite map_filter_singleton_False by set_solver.
  done.
Qed.

Lemma departed_work_claim_pins_target_witness :
  0 < 9000 <= 2 ^ 60 /\
  best_known_difficulty (cs_claims (sync_run (fun _ => []) (Sync.new 7 []) [OWork [1] 9000 3; ORetain ∅]))
    = 9000.
Proof. split; [lia|]. apply (departed_work_claim_pins_target (fun _ => []) 7 [] [1] 9000 3). lia. Defined.

(** The cleanup of bans keeps those that have expired and lifts those in
    force. *)
Theorem ban_cleanup_lifts_bans c p now :
  Con.is_sync_banned (Con.cleanup_sync_bans c now) p now = false /\
  (forall t, sync_banned_peers c !! p = Some t -> t <= now ->
   sync_banned_peers (Con.cleanup_sync_bans c now) !! p = Some t).
Proof.
  unfold Con.is_sync_banned, Con.cleanup_sync_bans. cbn. split.
  - destruct (filter _ _ !! p) as [t|] eqn:E; [|done].
    apply map_lookup_filter_Some in E as [_ Ht]. cbn in Ht. apply Z.ltb_ge. lia.
  - intros t Hp Ht. by apply map_lookup_filter_Some.
Qed.

(** A block that fails or times out while the node is synced goes back to the
    queue, and the node stays synced with a queue that is not empty. *)
Theorem failed_block_stays_synced s h now :
  Sync.state s = Synced ->
  Sync.state (Sync.mark_block_failed s h) = Synced /\
  Sync.state (Sync.on_timeout s h now) = Synced /\
  h ∈ pending_headers (cs_queue (Sync.mark_block_failed s h)) /\
  h ∈ pending_headers (cs_queue (Sync.on_timeout s h now)).
Proof.
  intros Hs. unfold Sync.on_timeout. split_and!; [done| |by left|by left].
  destruct (pending_requests (cs_flight s) !! h) as [r|]; [|done].
  by destruct (Con.strike _ _ _) as [[] c].
Qed.

Definition synced_demo : ChainSync :=
  set_cycle (Sync.new 5 []) (Cyc.with_state (cs_cycle (Sync.new 5 [])) Synced).
Lemma failed_block_stays_synced_witness :
  Sync.state (Sync.mark_block_failed synced_demo [9]) = Synced.
Proof. by apply (failed_block_stays_synced synced_demo [9] 0). Defined.

(** Re-arming an idle node that is behind does not make it busy: it can be
    re-armed again at once, which forgets the request just sent, so that two
    requests to two peers are outstanding at the same time. *)
Theorem catchup_rearms_again s p q now1 now2 :
  Sync.idle s = true -> Claim.is_synced (cs_claims s) = false ->
  1 <= next_header_nonce (cs_cycle s) < u64_max ->
  let '(armed1, s1) := Sync.arm_near_tip_catchup s in
  let '(n1, c1) := Cyc.begin_headers_request (cs_cycle s1) p now1 in
  let '(armed2, s2) := Sync.arm_near_tip_catchup (set_cycle s1 c1) in
  let '(n2, c2) := Cyc.begin_headers_request (cs_cycle s2) q now2 in
  armed1 = true /\ armed2 = true /\
  exists a b, n1 = Some a /\ n2 = Some b /\ a <> b /\
    Cyc.nonce_matches c2 a p = true /\ Cyc.nonce_matches c2 b q = true.
Proof.
  intros Hi Hs Hn.
  assert (forall c, Sync.arm_near_tip_catchup (set_cycle s c) =
    (true, set_cycle s (Cyc.rearm c))) as Harm.
  { intros c. unfold Sync.arm_near_tip_catchup.
    change (Sync.idle (set_cycle s c)) with (Sync.idle s). cbn [cs_claims set_cycle].
    by rewrite Hi, Hs. }
  assert (Sync.arm_near_tip_catchup s = (true, set_cycle s (Cyc.rearm (cs_cycle s)))) as ->.
  { unfold Sync.arm_near_tip_catchup. by rewrite Hi, Hs. }
  unfold Cyc.begin_headers_request at 1. cbn [cs_cycle set_cycle Cyc.rearm Cyc.with_received
    Cyc.with_request Cyc.with_state headers_request_time].
  match goal with |- context [set_cycle (set_cycle s ?a) ?b] =>
    change (set_cycle (set_cycle s a) b) with (set_cycle s b) end.
  rewrite Harm. cbn. rewrite wrap64_small by word_lia. split_and!; [done|done|].
  do 2 eexists. split_and!; [done|done|lia| |]; unfold Cyc.nonce_matches; cbn;
    apply bool_decide_eq_true.
  - rewrite lookup_insert_ne by lia. by rewrite lookup_insert_eq.
  - by rewrite lookup_insert_eq.
Qed.

Definition behind_demo : ChainSync := Sync.update_peer_height_for (Sync.new 5 []) [1] 9.
Lemma catchup_rearms_again_witness :
  (Sync.arm_near_tip_catchup behind_demo).1 = true.
Proof.
  pose proof (catchup_rearms_again behind_demo [1] [2] 0 1) as H.
  destruct (Sync.arm_near_tip_catchup behind_demo) as [a s1]. cbn.
  assert (Sync.idle behind_demo = true) as H1 by (vm_compute; reflexivity).
  assert (Claim.is_synced (cs_claims behind_demo) = false) as H2 by (vm_compute; reflexivity).
  assert (1 <= next_header_nonce (cs_cycle behind_demo) < u64_max) as H3
    by (vm_compute; split; [discriminate|reflexivity]).
  specialize (H H1 H2 H3).
  destruct (Cyc.begin_headers_request (cs_cycle s1) [1] 0) as [n1 c1].
  destruct (Sync.arm_near_tip_catchup (set_cycle s1 c1)) as [a2 s2].
  destruct (Cyc.begin_headers_request (cs_cycle s2) [2] 1) as [n2 c2]. apply H.
Defined.
