(* ===== verification/Dandelion.v ===== *)
(** * Transaction relay ([src/network/dandelion.rs],
      [src/network/node/maintenance.rs], [src/network/node/dispatch/relay.rs])

    The Dandelion++ router: transactions wait in the stempool, are passed on to one
    relay peer of the epoch and are broadcast when their embargo ends; and the two
    places of the node that act on its answers.  What the random generator draws is
    an argument; the floating-point logarithm of the two delays is inside the drawn
    delay.  The stempool is walked in the order of [map_to_list]; what is shown of a
    tick holds for every order without repetition.  Sending to a peer is an entry of
    a list of messages. *)

From stdpp Require Import prelude gmap.
From Stdlib Require Import ZArith Lia.
From S2P Require Import Prelude Constants Encoding Difficulty Block Peers.

Local Open Scope Z_scope.

Definition MAX_STEMPOOL : Z := 10000.
Definition MIN_PEERS_FOR_PRIVACY : Z := 3.
Definition DANDELION_STEMS : nat := 2.
Definition DANDELION_FLUFF_PROBABILITY : Z := 20.
Definition DANDELION_EPOCH_BASE_SECS : Z := 600.
Definition DANDELION_EPOCH_JITTER_SECS : Z := 30.
Definition DANDELION_EMBARGO_MAX_SECS : Z := 180.

(** ** Data *)

Record StemEntry := mkStemEntry {
  st_tx : Transaction;
  added_at : Z;
  embargo_deadline : Z;
  source : option PeerId;
  forwarded : bool;
  forward_after : Z;
}.

Record EpochState := mkEpochState {
  is_fluff_epoch : bool;
  relay_peers : option PeerId * option PeerId;
  inbound_map : gmap PeerId Z;
  own_relay_idx : Z;
  started_at : Z;
  duration : Z;
}.

Record DandelionRouter := mkDandelionRouter {
  stempool : gmap Hash StemEntry;
  outbound_peers : list PeerId;
  r_epoch : EpochState;
  epoch_number : Z;
  fluffed : gmap Hash Z;
}.

Inductive StemAction := Stem | Fluff (tx : Transaction) | Ignore.

Record DandelionActions := mkDandelionActions {
  stem_relay : list (Hash * Transaction * PeerId);
  a_fluff : list (Hash * Transaction * option PeerId);
}.

(** What a rotation draws: jitter, a number below 100, the order of the peers and
    the relay of the node's own transactions. *)
Record EpochDraw := mkEpochDraw {
  dr_jitter : Z;
  dr_roll : Z;
  dr_shuffle : list PeerId -> list PeerId;
  dr_own : Z;
}.

Module Dan.
Implicit Types (r : DandelionRouter) (now : Z) (h : Hash).

Definition new : DandelionRouter :=
  mkDandelionRouter ∅ [] (mkEpochState false (None, None) ∅ 0 0 DANDELION_EPOCH_BASE_SECS) 0 ∅.

Definition with_stempool r (m : gmap Hash StemEntry) : DandelionRouter :=
  mkDandelionRouter m (outbound_peers r) (r_epoch r) (epoch_number r) (fluffed r).
Definition with_epoch r (e : EpochState) : DandelionRouter :=
  mkDandelionRouter (stempool r) (outbound_peers r) e (epoch_number r) (fluffed r).
Definition with_outbound r (l : list PeerId) : DandelionRouter :=
  mkDandelionRouter (stempool r) l (r_epoch r) (epoch_number r) (fluffed r).
Definition with_fluffed r (m : gmap Hash Z) : DandelionRouter :=
  mkDandelionRouter (stempool r) (outbound_peers r) (r_epoch r) (epoch_number r) m.
Definition with_relays (e : EpochState) (p : option PeerId * option PeerId) : EpochState :=
  mkEpochState (is_fluff_epoch e) p (inbound_map e) (own_relay_idx e) (started_at e) (duration e).
Definition with_inbound (e : EpochState) (m : gmap PeerId Z) : EpochState :=
  mkEpochState (is_fluff_epoch e) (relay_peers e) m (own_relay_idx e) (started_at e) (duration e).

Definition expired (e : EpochState) now : bool := wrap64 (started_at e + duration e) <=? now.

Definition set_outbound_peers r (peers : list PeerId) : DandelionRouter := with_outbound r peers.

Definition add_outbound_peer r (peer : PeerId) : DandelionRouter :=
  if bool_decide (peer ∈ outbound_peers r) then r else with_outbound r (outbound_peers r ++ [peer]).

Definition clear_slot (peer : PeerId) (slot : option PeerId) : option PeerId :=
  if bool_decide (slot = Some peer) then None else slot.

Definition remove_outbound_peer r (peer : PeerId) : DandelionRouter :=
  let r := with_outbound r (filter (fun p => p <> peer) (outbound_peers r)) in
  let '(a, b) := relay_peers (r_epoch r) in
  with_epoch r (with_relays (r_epoch r) (clear_slot peer a, clear_slot peer b)).

Definition rotate_epoch r now (d : EpochDraw) : DandelionRouter :=
  let shuffled := take DANDELION_STEMS (dr_shuffle d (outbound_peers r)) in
  mkDandelionRouter (stempool r) (outbound_peers r)
    (mkEpochState (dr_roll d <? DANDELION_FLUFF_PROBABILITY) (shuffled !! 0%nat, shuffled !! 1%nat) ∅
       (dr_own d) now (DANDELION_EPOCH_BASE_SECS + dr_jitter d))
    (wrap64 (epoch_number r + 1)) (fluffed r).

Definition maybe_rotate_epoch r now (d : EpochDraw) : DandelionRouter :=
  if expired (r_epoch r) now || (started_at (r_epoch r) =? 0) then rotate_epoch r now d else r.

Definition count_at (m : gmap PeerId Z) (i : Z) : nat :=
  length (filter (fun p : PeerId * Z => p.2 = i) (map_to_list m)).

(** The less used relay is assigned to a new inbound peer. *)
Definition relay_index_for_inbound r (peer : PeerId) : Z * DandelionRouter :=
  let m := inbound_map (r_epoch r) in
  match m !! peer with
  | Some i => (i, r)
  | None =>
      let i := if (count_at m 0 <=? count_at m 1)%nat then 0 else 1 in
      (i, with_epoch r (with_inbound (r_epoch r) (<[peer := i]> m)))
  end.

Definition random_embargo now (delay : Z) : Z :=
  wrap64 (now + Z.max (Z.min delay DANDELION_EMBARGO_MAX_SECS) 5).
Definition random_forward_time now (delay : Z) : Z := wrap64 (now + Z.max (Z.min delay 30) 1).

(** [min_by_key] on the time of entry: the first of the minimal ones. *)
Definition older (a b : Hash * StemEntry) : Hash * StemEntry :=
  if added_at b.2 <? added_at a.2 then b else a.
Definition oldest (l : list (Hash * StemEntry)) : option Hash :=
  match l with [] => None | e :: l => Some (foldl older e l).1 end.

Definition victim (m : gmap Hash StemEntry) : option Hash :=
  match oldest (filter (fun e : Hash * StemEntry => is_Some (source e.2)) (map_to_list m)) with
  | Some h => Some h
  | None => oldest (map_to_list m)
  end.

(** Each turn removes one entry. *)
Fixpoint enforce_loop (fuel : nat) (m : gmap Hash StemEntry) : gmap Hash StemEntry :=
  match fuel with
  | O => m
  | S fuel =>
      if MAX_STEMPOOL <=? Z.of_nat (size m) then
        match victim m with Some h => enforce_loop fuel (delete h m) | None => m end
      else m
  end.
Definition enforce_stempool_limit r : DandelionRouter :=
  with_stempool r (enforce_loop (size (stempool r)) (stempool r)).

Section ops.
Context (tx_hash : Transaction -> Hash).

Definition enter r (h : Hash) (tx : Transaction) (src : option PeerId) now (embargo fwd : Z)
  : DandelionRouter :=
  with_stempool r (<[h := mkStemEntry tx now (random_embargo now embargo) src false
                           (random_forward_time now fwd)]> (stempool r)).

Definition add_local_tx r (tx : Transaction) now (embargo fwd : Z) : Hash * DandelionRouter :=
  let h := tx_hash tx in
  if bool_decide (is_Some (stempool r !! h)) || bool_decide (is_Some (fluffed r !! h)) then (h, r)
  else (h, enter (enforce_stempool_limit r) h tx None now embargo fwd).

Definition add_received_tx r (tx : Transaction) (src : PeerId) now (embargo fwd : Z)
  : StemAction * DandelionRouter :=
  let h := tx_hash tx in
  if bool_decide (is_Some (fluffed r !! h)) then (Ignore, r)
  else
    match stempool r !! h with
    | Some e =>
        (Fluff (st_tx e),
         with_fluffed (with_stempool r (delete h (stempool r))) (<[h := now]> (fluffed r)))
    | None =>
        let r := enforce_stempool_limit r in
        if is_fluff_epoch (r_epoch r) then (Fluff tx, with_fluffed r (<[h := now]> (fluffed r)))
        else (Stem, enter r h tx (Some src) now embargo fwd)
    end.

Definition no_actions : DandelionActions := mkDandelionActions [] [].

(** Out of the stempool and to everyone. *)
Definition fluff_entry r h now (e : StemEntry) (a : DandelionActions)
  : DandelionRouter * DandelionActions :=
  (with_fluffed (with_stempool r (delete h (stempool r))) (<[h := now]> (fluffed r)),
   mkDandelionActions (stem_relay a) (a_fluff a ++ [(h, st_tx e, source e)])).

Definition relay_slot r (i : Z) : option PeerId :=
  if i =? 0 then (relay_peers (r_epoch r)).1 else (relay_peers (r_epoch r)).2.

Definition mark_forwarded (e : StemEntry) : StemEntry :=
  mkStemEntry (st_tx e) (added_at e) (embargo_deadline e) (source e) true (forward_after e).

(** One transaction of a tick. *)
Definition tick_one now (p : DandelionRouter * DandelionActions) h
  : DandelionRouter * DandelionActions :=
  let '(r, a) := p in
  match stempool r !! h with
  | None => (r, a)
  | Some e =>
      if forwarded e then
        if embargo_deadline e <=? now then fluff_entry r h now e a else (r, a)
      else
        let '(i, r) := match source e with
                       | Some src => relay_index_for_inbound r src
                       | None => (own_relay_idx (r_epoch r), r) end in
        match relay_slot r i with
        | Some peer =>
            if now <? forward_after e then (r, a)
            else (with_stempool r (<[h := mark_forwarded e]> (stempool r)),
                  mkDandelionActions (stem_relay a ++ [(h, st_tx e, peer)]) (a_fluff a))
        | None => fluff_entry r h now e a
        end
  end.

Definition prune_fluffed r now : DandelionRouter :=
  with_fluffed r (filter (fun p => now < wrap64 (p.2 + 600)) (fluffed r)).

Definition tick r now (d : EpochDraw) : DandelionActions * DandelionRouter :=
  let r := maybe_rotate_epoch r now d in
  let '(r, a) := foldl (tick_one now) (r, no_actions) (map_to_list (stempool r)).*1 in
  (a, prune_fluffed r now).

Definition tx_confirmed_via_diffusion r h : DandelionRouter :=
  with_stempool r (delete h (stempool r)).

Definition stempool_size r : Z := Z.of_nat (size (stempool r)).
Definition has_adequate_privacy r : bool :=
  MIN_PEERS_FOR_PRIVACY <=? Z.of_nat (length (outbound_peers r)).

(** ** The node *)

(** A transaction in full, or the announcement of its hash. *)
Inductive Message := Txs (tx : Transaction) | InvTx (h : Hash).

(** The node's own transactions, the peers, a tick, and what is sent. *)
Definition run_dandelion_tick `{MapOrder} r (queue : list (Transaction * Z * Z))
    (peers : gmap PeerId PeerInfo) (senders : gset PeerId) now (d : EpochDraw)
  : list (PeerId * Message) * list (Transaction * option PeerId) * DandelionRouter :=
  let r := foldl (fun r (q : Transaction * Z * Z) =>
             (add_local_tx r q.1.1 now q.1.2 q.2).2) r queue in
  let outbound := pi_id <$> filter (fun p => pi_outbound p = true /\ pi_state p = Connected)
                    (peers_iter peers) in
  let '(a, r) := tick (set_outbound_peers r outbound) now d in
  let relays := omap (fun x : Hash * Transaction * PeerId =>
      if bool_decide (x.2 ∈ senders) then Some (x.2, Txs x.1.2) else None) (stem_relay a) in
  let invs := concat ((fun x : Hash * Transaction * option PeerId =>
      (fun p => (p, InvTx x.1.1)) <$> elements senders) <$> a_fluff a) in
  (relays ++ invs, (fun x => (x.1.2, x.2)) <$> a_fluff a, r).

(** The routing of one received transaction that passed the basic checks. *)
Definition route_received r (tx : Transaction) (peer : PeerId) (senders : gset PeerId) now
    (embargo fwd : Z)
  : list (PeerId * Message) * list (Transaction * option PeerId) * DandelionRouter :=
  let '(action, r) := add_received_tx r tx peer now embargo fwd in
  match action with
  | Fluff t => ((fun p => (p, InvTx (tx_hash t))) <$> elements senders, [(t, Some peer)], r)
  | Stem => ([], [], r)
  | Ignore => ([], [], r)
  end.
End ops.
End Dan.
