(* ===== verification/DandelionRules.v ===== *)
(** * Transactions leave the stem

    What a tick does with each waiting transaction, and what follows over any
    sequence of operations: a transaction is passed on once, to one peer, and is
    broadcast once; it is broadcast by the second tick after its embargo; and as
    long as it waits no announcement names it. *)

From stdpp Require Import prelude gmap.
From Stdlib Require Import ZArith Lia.
From S2P Require Import Prelude Constants Encoding Difficulty Block Peers Dandelion.

Local Open Scope Z_scope.

Implicit Types (r : DandelionRouter) (now : Z) (h k : Hash) (e : StemEntry) (a : DandelionActions).

(** ** One tick *)

(** What a tick does with an entry: what stays, how often it is relayed and how
    often broadcast. *)
Inductive outcome now e : option StemEntry -> nat -> nat -> Prop :=
| wait_embargo : forwarded e = true -> now < embargo_deadline e -> outcome now e (Some e) 0 0
| wait_forward : forwarded e = false -> now < forward_after e -> outcome now e (Some e) 0 0
| do_relay : forwarded e = false -> forward_after e <= now ->
    outcome now e (Some (Dan.mark_forwarded e)) 1 0
| embargo_over : forwarded e = true -> embargo_deadline e <= now -> outcome now e None 0 1
| no_relay : forwarded e = false -> outcome now e None 0 1.

Definition relays h a : nat := length (filter (fun x : Hash * Transaction * PeerId => x.1.1 = h) (stem_relay a)).
Definition fluffs h a : nat :=
  length (filter (fun x : Hash * Transaction * option PeerId => x.1.1 = h) (a_fluff a)).

Lemma relays_snoc h s f k tx p :
  relays h (mkDandelionActions (s ++ [(k, tx, p)]) f)
  = (relays h (mkDandelionActions s f) + if bool_decide (k = h) then 1 else 0)%nat.
Proof.
  unfold relays. cbn [stem_relay]. rewrite filter_app, length_app. f_equal. rewrite filter_cons.
  cbn. by case_decide; case_bool_decide.
Qed.

Lemma fluffs_snoc h s f k tx p :
  fluffs h (mkDandelionActions s (f ++ [(k, tx, p)]))
  = (fluffs h (mkDandelionActions s f) + if bool_decide (k = h) then 1 else 0)%nat.
Proof.
  unfold fluffs. cbn [a_fluff]. rewrite filter_app, length_app. f_equal. rewrite filter_cons.
  cbn. by case_decide; case_bool_decide.
Qed.

Lemma actions_eta a : mkDandelionActions (stem_relay a) (a_fluff a) = a.
Proof. by destruct a. Qed.

Lemma relay_index_same r src i r' :
  Dan.relay_index_for_inbound r src = (i, r') ->
  stempool r' = stempool r /\ fluffed r' = fluffed r.
Proof.
  unfold Dan.relay_index_for_inbound. destruct (inbound_map (r_epoch r) !! src); by intros [= <- <-].
Qed.

(** The step for [k]: its own entry and events. *)
Lemma tick_one_own now r a k e r' a' :
  stempool r !! k = Some e -> Dan.tick_one now (r, a) k = (r', a') ->
  exists s nr nf, outcome now e s nr nf /\ stempool r' !! k = s
    /\ relays k a' = (relays k a + nr)%nat /\ fluffs k a' = (fluffs k a + nf)%nat
    /\ fluffed r' !! k = (if (nf =? 1)%nat then Some now else fluffed r !! k).
Proof.
  intros He. unfold Dan.tick_one. rewrite He. destruct (forwarded e) eqn:Ef.
  - destruct (Z.leb_spec (embargo_deadline e) now) as [Hd|Hd].
    + intros [= <- <-]. exists None, 0%nat, 1%nat. split; [by apply embargo_over|].
      cbn [Dan.with_fluffed Dan.with_stempool stempool fluffed]. rewrite lookup_delete_eq, lookup_insert_eq.
      rewrite fluffs_snoc, actions_eta, bool_decide_true by done. unfold relays. cbn. split_and!; lia || done.
    + intros [= <- <-]. exists (Some e), 0%nat, 0%nat. split; [by apply wait_embargo|]. cbn. split_and!; lia || done.
  - destruct (match source e with Some _ => _ | None => _ end) as [i r1] eqn:Er.
    assert (Hs : stempool r1 = stempool r /\ fluffed r1 = fluffed r).
    { destruct (source e) as [src|]; [|by injection Er as <- <-].
      by apply (relay_index_same r src i). }
    destruct Hs as [Hs Hf]. destruct (Dan.relay_slot r1 i) as [p|].
    + destruct (Z.ltb_spec now (forward_after e)) as [Hn|Hn]; intros [= <- <-].
      * exists (Some e), 0%nat, 0%nat. split; [by apply wait_forward|]. rewrite Hs, Hf. cbn. split_and!; lia || done.
      * exists (Some (Dan.mark_forwarded e)), 1%nat, 0%nat. split; [by apply do_relay|].
        cbn [Dan.with_stempool stempool fluffed]. rewrite lookup_insert_eq, Hf.
        rewrite relays_snoc, actions_eta, bool_decide_true by done. unfold fluffs. cbn. split_and!; lia || done.
    + intros [= <- <-]. exists None, 0%nat, 1%nat. split; [by apply no_relay|].
      cbn [Dan.with_fluffed Dan.with_stempool stempool fluffed]. rewrite lookup_delete_eq, lookup_insert_eq.
      rewrite fluffs_snoc, actions_eta, bool_decide_true by done. unfold relays. cbn. split_and!; lia || done.
Qed.

(** It leaves every other transaction alone. *)
Lemma tick_one_other now r a k h r' a' :
  k <> h -> Dan.tick_one now (r, a) k = (r', a') ->
  stempool r' !! h = stempool r !! h /\ fluffed r' !! h = fluffed r !! h
  /\ relays h a' = relays h a /\ fluffs h a' = fluffs h a.
Proof.
  intros Hne. unfold Dan.tick_one. destruct (stempool r !! k) as [e|]; [|by intros [= <- <-]].
  assert (Hfl : forall r1 a1, stempool r1 = stempool r -> fluffed r1 = fluffed r ->
    Dan.fluff_entry r1 k now e a = (r', a1) -> a1 = a' ->
    stempool r' !! h = stempool r !! h /\ fluffed r' !! h = fluffed r !! h
    /\ relays h a' = relays h a /\ fluffs h a' = fluffs h a).
  { intros r1 a1 Hs Hf [= <- <-] <-. cbn [Dan.with_fluffed Dan.with_stempool stempool fluffed].
    rewrite lookup_delete_ne, lookup_insert_ne, Hs, Hf, fluffs_snoc, actions_eta by done.
    rewrite bool_decide_false by done. unfold relays. cbn. split_and!; lia || done. }
  destruct (forwarded e).
  - destruct (_ <=? _); [|by intros [= <- <-]]. intros H. by apply (Hfl r a').
  - destruct (match source e with Some _ => _ | None => _ end) as [i r1] eqn:Er.
    assert (Hs : stempool r1 = stempool r /\ fluffed r1 = fluffed r).
    { destruct (source e) as [src|]; [|by injection Er as <- <-].
      by apply (relay_index_same r src i). }
    destruct Hs as [Hs Hf]. destruct (Dan.relay_slot r1 i) as [p|].
    + destruct (_ <? _); intros [= <- <-]; [by rewrite Hs, Hf|].
      cbn [Dan.with_stempool stempool fluffed].
      rewrite lookup_insert_ne, Hs, Hf, relays_snoc, actions_eta, bool_decide_false by done.
      unfold fluffs. cbn. split_and!; lia || done.
    + intros H. by apply (Hfl r1 a').
Qed.

Lemma tick_fold now l : forall r a r' a' h,
  NoDup l -> foldl (Dan.tick_one now) (r, a) l = (r', a') ->
  (stempool r !! h = None \/ h ∉ l ->
     stempool r' !! h = stempool r !! h /\ relays h a' = relays h a /\ fluffs h a' = fluffs h a)
  /\ (forall e, h ∈ l -> stempool r !! h = Some e ->
     exists s nr nf, outcome now e s nr nf /\ stempool r' !! h = s
       /\ relays h a' = (relays h a + nr)%nat /\ fluffs h a' = (fluffs h a + nf)%nat).
Proof.
  induction l as [|k l IH]; intros r a r' a' h Hn Hf; cbn [foldl] in Hf.
  { injection Hf as <- <-. split; [done|]. intros e Hin. by apply elem_of_nil in Hin. }
  apply NoDup_cons in Hn as [Hk Hn]. destruct (Dan.tick_one now (r, a) k) as [r1 a1] eqn:E1.
  destruct (IH r1 a1 r' a' h Hn Hf) as [I1 I2]. destruct (decide (k = h)) as [->|Hne].
  - destruct (I1 (or_intror Hk)) as (E2&E3&E4). split.
    + intros [Hnone|Hout]; [|set_solver]. unfold Dan.tick_one in E1. rewrite Hnone in E1.
      injection E1 as <- <-. done.
    + intros e _ He. destruct (tick_one_own _ _ _ _ _ _ _ He E1) as (s&nr&nf&Ho&Hs&Hr&Hb&_).
      exists s, nr, nf. rewrite E2, E3, E4. done.
  - destruct (tick_one_other _ _ _ _ _ _ _ Hne E1) as (E2&_&E3&E4). split.
    + intros Hc. rewrite <- E2, <- E3, <- E4. apply I1. rewrite E2. set_solver.
    + intros e Hin He. rewrite <- E3, <- E4. apply I2; [set_solver|congruence].
Qed.

(** What a tick does with a transaction. *)
Lemma tick_outcome r now d a r' h :
  Dan.tick r now d = (a, r') ->
  match stempool r !! h with
  | None => stempool r' !! h = None /\ relays h a = O /\ fluffs h a = O
  | Some e => exists s nr nf, outcome now e s nr nf /\ stempool r' !! h = s
      /\ relays h a = nr /\ fluffs h a = nf
  end.
Proof.
  unfold Dan.tick.
  assert (Hs : stempool (Dan.maybe_rotate_epoch r now d) = stempool r).
  { unfold Dan.maybe_rotate_epoch. by destruct (_ || _). }
  destruct (foldl _ _ _) as [r1 a1] eqn:Ef. intros [= <- <-].
  destruct (tick_fold now (map_to_list (stempool (Dan.maybe_rotate_epoch r now d))).*1 _ _ _ _ h
    (NoDup_fst_map_to_list _) Ef) as [H1 H2].
  cbn [Dan.prune_fluffed Dan.with_fluffed stempool]. rewrite Hs in *.
  destruct (stempool r !! h) as [e|] eqn:Ee.
  - destruct (H2 e) as (s&nr&nf&?&?&?&?).
    { apply list_elem_of_fmap. exists (h, e). split; [done|]. by apply elem_of_map_to_list. }
    { done. }
    exists s, nr, nf. done.
  - apply H1. by left.
Qed.

(** ** Any sequence of operations *)

Inductive dan_op :=
| OpOutbound (peers : list PeerId)
| OpAddPeer (p : PeerId)
| OpRemovePeer (p : PeerId)
| OpLocal (tx : Transaction) (now embargo fwd : Z)
| OpReceived (tx : Transaction) (src : PeerId) (now embargo fwd : Z)
| OpTick (now : Z) (d : EpochDraw)
| OpConfirmed (h : Hash).

(** What a run has done: transactions taken up, passed on and broadcast. *)
Record Trace := mkTrace { taken : list Hash; relayed : list Hash; broadcast : list Hash }.

Definition none : Trace := mkTrace [] [] [].
Definition then_ (t u : Trace) : Trace :=
  mkTrace (taken t ++ taken u) (relayed t ++ relayed u) (broadcast t ++ broadcast u).

Section runs.
Context (tx_hash : Transaction -> Hash).

Definition run_op r (o : dan_op) : Trace * DandelionRouter :=
  match o with
  | OpOutbound l => (none, Dan.set_outbound_peers r l)
  | OpAddPeer p => (none, Dan.add_outbound_peer r p)
  | OpRemovePeer p => (none, Dan.remove_outbound_peer r p)
  | OpLocal tx now em fw =>
      let h := tx_hash tx in
      (if bool_decide (is_Some (stempool r !! h)) || bool_decide (is_Some (fluffed r !! h)) then none
       else mkTrace [h] [] [], (Dan.add_local_tx tx_hash r tx now em fw).2)
  | OpReceived tx src now em fw =>
      let h := tx_hash tx in
      let known := bool_decide (is_Some (stempool r !! h)) in
      let '(act, r) := Dan.add_received_tx tx_hash r tx src now em fw in
      (match act with
       | Stem => mkTrace [h] [] []
       | Fluff _ => mkTrace (if known then [] else [h]) [] [h]
       | Ignore => none
       end, r)
  | OpTick now d =>
      let '(a, r) := Dan.tick r now d in
      (mkTrace [] ((fun x => x.1.1) <$> stem_relay a) ((fun x => x.1.1) <$> a_fluff a), r)
  | OpConfirmed h => (none, Dan.tx_confirmed_via_diffusion r h)
  end.

Definition run_from (p : Trace * DandelionRouter) (ops : list dan_op) : Trace * DandelionRouter :=
  foldl (fun p o => let '(t, r) := run_op p.2 o in (then_ p.1 t, r)) p ops.
Definition run (ops : list dan_op) : Trace * DandelionRouter := run_from (none, Dan.new) ops.

Definition times h (l : list Hash) : nat := length (filter (fun x => x = h) l).

Lemma times_app h l l' : times h (l ++ l') = (times h l + times h l')%nat.
Proof. unfold times. by rewrite filter_app, length_app. Qed.

Lemma times_one h k : times h [k] = if bool_decide (k = h) then 1%nat else 0%nat.
Proof. unfold times. rewrite filter_cons. by case_decide; case_bool_decide. Qed.

Lemma times_relays h a : times h ((fun x => x.1.1) <$> stem_relay a) = relays h a.
Proof.
  unfold times, relays. induction (stem_relay a) as [|x l IH]; [done|].
  cbn [fmap list_fmap]. rewrite !filter_cons.
  repeat case_decide; cbn; lia || done.
Qed.

Lemma times_fluffs h a : times h ((fun x => x.1.1) <$> a_fluff a) = fluffs h a.
Proof.
  unfold times, fluffs. induction (a_fluff a) as [|x l IH]; [done|].
  cbn [fmap list_fmap]. rewrite !filter_cons.
  repeat case_decide; cbn; lia || done.
Qed.

(** In the stempool, and not passed on. *)
Definition in_pool r h : nat := match stempool r !! h with Some _ => 1 | None => 0 end.
Definition pending r h : nat :=
  match stempool r !! h with Some e => if forwarded e then 0 else 1 | None => 0 end.

Lemma enforce_sub fuel : forall m : gmap Hash StemEntry, Dan.enforce_loop fuel m ⊆ m.
Proof.
  induction fuel as [|fuel IH]; intros m; cbn [Dan.enforce_loop]; [done|].
  destruct (_ <=? _); [|done]. destruct (Dan.victim m) as [x|]; [|done].
  etrans; [apply IH|]. apply delete_subseteq.
Qed.

Lemma account_sub r r' h :
  stempool r' ⊆ stempool r -> (pending r' h <= pending r h)%nat /\ (in_pool r' h <= in_pool r h)%nat.
Proof.
  intros Hs. unfold pending, in_pool. destruct (stempool r' !! h) as [e|] eqn:E; [|lia].
  rewrite (lookup_weaken _ _ _ _ E Hs). lia.
Qed.

(** Nothing happens to the stempool. *)
Lemma account_same r r' h :
  stempool r' = stempool r ->
  (times h [] + pending r' h <= times h [] + pending r h)%nat
  /\ (times h [] + in_pool r' h <= times h [] + in_pool r h)%nat.
Proof. intros E. unfold pending, in_pool. rewrite E. lia. Qed.

(** Taking up a transaction. *)
Lemma account_enter r h k tx src now em fw :
  (pending (Dan.enter (Dan.enforce_stempool_limit r) k tx src now em fw) h
     <= times h [k] + pending r h)%nat
  /\ (in_pool (Dan.enter (Dan.enforce_stempool_limit r) k tx src now em fw) h
        <= times h [k] + in_pool r h)%nat.
Proof.
  destruct (account_sub r (Dan.enforce_stempool_limit r) h) as [H1 H2]; [apply enforce_sub|].
  rewrite times_one. unfold pending, in_pool in *.
  cbn [Dan.enter Dan.with_stempool stempool] in *. case_bool_decide as E.
  - subst k. rewrite lookup_insert_eq. cbn. lia.
  - rewrite lookup_insert_ne by done. lia.
Qed.

(** A broadcast removes the transaction. *)
Lemma account_fluff r r' h k :
  stempool r' = delete k (stempool r) ->
  (pending r' h <= pending r h)%nat
  /\ (times h [k] + in_pool r' h <= (if bool_decide (k = h) then 1 else 0) + in_pool r h)%nat.
Proof.
  intros E. rewrite times_one. unfold pending, in_pool. rewrite E. case_bool_decide as Ek.
  - subst k. rewrite lookup_delete_eq. destruct (stempool r !! h); lia.
  - rewrite lookup_delete_ne by done. lia.
Qed.

(** What a step adds to the account of a transaction. *)
Lemma run_op_account r o h t r' :
  run_op r o = (t, r') ->
  (times h (relayed t) + pending r' h <= times h (taken t) + pending r h)%nat
  /\ (times h (broadcast t) + in_pool r' h <= times h (taken t) + in_pool r h)%nat.
Proof.
  destruct o as [l|p|p|tx now em fw|tx src now em fw|now d|k]; cbn [run_op].
  - intros [= <- <-]. apply account_same. done.
  - intros [= <- <-]. apply account_same. unfold Dan.add_outbound_peer. by case_bool_decide.
  - intros [= <- <-]. apply account_same. unfold Dan.remove_outbound_peer.
    cbn [Dan.with_outbound r_epoch]. by destruct (relay_peers _).
  - unfold Dan.add_local_tx. destruct (_ || _); intros [= <- <-]; [by apply account_same|].
    apply (account_enter r h (tx_hash tx)).
  - unfold Dan.add_received_tx. destruct (bool_decide (is_Some (fluffed r !! _))).
    { intros [= <- <-]. by apply account_same. }
    destruct (stempool r !! tx_hash tx) as [e|] eqn:Ee.
    + rewrite bool_decide_true by (by eexists). intros [= <- <-]. cbn [relayed broadcast taken].
      set (r1 := Dan.with_fluffed _ _). destruct (account_fluff r r1 h (tx_hash tx) eq_refl) as [H1 _].
      change (times h []) with O. rewrite times_one. unfold in_pool, pending in *.
      cbn [r1 Dan.with_fluffed Dan.with_stempool stempool] in *. case_bool_decide as Ek.
      * subst h. rewrite lookup_delete_eq, Ee. cbn. lia.
      * rewrite lookup_delete_ne in * by done. lia.
    + rewrite bool_decide_false by (by intros []). destruct (is_fluff_epoch _); intros [= <- <-].
      * cbn [relayed broadcast taken]. set (r1 := Dan.with_fluffed _ _).
        destruct (account_sub r r1 h) as [H1 H2]; [apply enforce_sub|].
        change (times h []) with O. lia.
      * apply (account_enter r h (tx_hash tx)).
  - destruct (Dan.tick r now d) as [a r1] eqn:Et. intros [= <- <-]. cbn [relayed broadcast taken].
    rewrite times_relays, times_fluffs. pose proof (tick_outcome r now d a r1 h Et) as H.
    change (times h []) with O. unfold pending, in_pool. destruct (stempool r !! h) as [e|].
    + destruct H as (s&nr&nf&Ho&Hs&Hr&Hf). rewrite Hs, Hr, Hf. destruct Ho as [E|E|E|E|E]; cbn; rewrite ?E; lia.
    + destruct H as (->&->&->). cbn. lia.
  - intros [= <- <-]. cbn. apply account_sub. apply delete_subseteq.
Qed.

(** C26: A transaction is passed on once and broadcast once: over any sequence of
    operations of the router, each time a transaction is taken up it is relayed to at
    most one peer and broadcast at most once. *)
Theorem relayed_and_broadcast_once ops h :
  let t := (run ops).1 in
  (times h (relayed t) <= times h (taken t))%nat /\ (times h (broadcast t) <= times h (taken t))%nat.
Proof.
  cbn zeta. enough (H : forall p,
    (times h (relayed p.1) + pending p.2 h <= times h (taken p.1))%nat
    /\ (times h (broadcast p.1) + in_pool p.2 h <= times h (taken p.1))%nat ->
    let q := run_from p ops in
    (times h (relayed q.1) + pending q.2 h <= times h (taken q.1))%nat
    /\ (times h (broadcast q.1) + in_pool q.2 h <= times h (taken q.1))%nat).
  { destruct (H (none, Dan.new)); [|unfold run; lia]. unfold pending, in_pool.
    cbn [fst snd Dan.new stempool none taken relayed broadcast]. rewrite lookup_empty. lia. }
  induction ops as [|o ops IH]; intros [t r] Hp; [done|]. cbn [run_from foldl fst snd].
  destruct (run_op r o) as [u r'] eqn:Eo. apply (IH (then_ t u, r')).
  destruct (run_op_account r o h u r' Eo) as [H1 H2]. cbn [fst snd then_ relayed taken broadcast] in *.
  rewrite !times_app. lia.
Qed.

(** ** The stempool of a reachable router *)

Record entry_ok h e : Prop := {
  eo_hash : tx_hash (st_tx e) = h;
  eo_embargo : embargo_deadline e <= added_at e + DANDELION_EMBARGO_MAX_SECS;
  eo_forward : forward_after e <= added_at e + 30;
}.

Definition pool_ok r : Prop := map_Forall entry_ok (stempool r).

(** The clock of an operation. *)
Definition timed (o : dan_op) : Prop :=
  match o with
  | OpLocal _ now _ _ | OpReceived _ _ now _ _ | OpTick now _ => 0 <= now
  | _ => True
  end.

Lemma wrap64_le x : 0 <= x -> wrap64 x <= x.
Proof. intros H. unfold wrap64. apply Z.mod_le; lia. Qed.

Lemma pool_ok_sub r r' : stempool r' ⊆ stempool r -> pool_ok r -> pool_ok r'.
Proof. intros Hs Hp h e He. apply Hp. by eapply lookup_weaken. Qed.

Lemma pool_ok_enter r tx src now em fw :
  0 <= now -> pool_ok r -> pool_ok (Dan.enter (Dan.enforce_stempool_limit r) (tx_hash tx) tx src now em fw).
Proof.
  intros Hn Hp. apply map_Forall_insert_2; [|eapply pool_ok_sub; [apply enforce_sub|exact Hp]].
  split; cbn [st_tx embargo_deadline added_at forward_after]; [done| |].
  - unfold Dan.random_embargo, DANDELION_EMBARGO_MAX_SECS.
    etrans; [apply wrap64_le; lia|]. lia.
  - unfold Dan.random_forward_time. etrans; [apply wrap64_le; lia|]. lia.
Qed.

Lemma pool_ok_tick r now d a r' : Dan.tick r now d = (a, r') -> pool_ok r -> pool_ok r'.
Proof.
  intros Ht Hp h e He. pose proof (tick_outcome r now d a r' h Ht) as H.
  destruct (stempool r !! h) as [e0|] eqn:E0.
  - destruct H as (s&nr&nf&Ho&Hs&_). rewrite He in Hs. subst s. pose proof (Hp h e0 E0) as H0.
    inversion Ho; subst; [done|done|]. by destruct H0.
  - destruct H as [H _]. congruence.
Qed.

Lemma pool_ok_op r o t r' : timed o -> run_op r o = (t, r') -> pool_ok r -> pool_ok r'.
Proof.
  destruct o as [l|p|p|tx now em fw|tx src now em fw|now d|k]; cbn [run_op timed]; intros Ht.
  - by intros [= _ <-].
  - intros [= _ <-]. unfold Dan.add_outbound_peer. by case_bool_decide.
  - intros [= _ <-]. unfold Dan.remove_outbound_peer. cbn [Dan.with_outbound r_epoch].
    by destruct (relay_peers _).
  - unfold Dan.add_local_tx. destruct (_ || _); intros [= _ <-]; [done|]. by apply pool_ok_enter.
  - unfold Dan.add_received_tx. destruct (bool_decide (is_Some (fluffed r !! _))); [by intros [= _ <-]|].
    destruct (stempool r !! tx_hash tx) as [e|].
    + intros [= _ <-]. apply pool_ok_sub, delete_subseteq.
    + destruct (is_fluff_epoch _); intros [= _ <-]; [apply pool_ok_sub, enforce_sub|by apply pool_ok_enter].
  - destruct (Dan.tick r now d) as [a r1] eqn:E. intros [= _ <-]. by apply (pool_ok_tick r now d a).
  - intros [= _ <-]. apply pool_ok_sub, delete_subseteq.
Qed.

Lemma reachable_ok ops : Forall timed ops -> pool_ok (run ops).2.
Proof.
  unfold run. enough (H : forall p, pool_ok p.2 -> Forall timed ops -> pool_ok (run_from p ops).2).
  { apply H. apply map_Forall_empty. }
  induction ops as [|o ops IH]; intros [t r] Hp Ht; [done|]. apply Forall_cons in Ht as [Ho Ht].
  cbn [run_from foldl fst snd]. destruct (run_op r o) as [u r'] eqn:Eo. apply IH; [|done].
  by apply (pool_ok_op r o u).
Qed.

(** C27: The embargo is a fail-safe: whatever a router has gone through, a transaction
    that waits in its stempool is broadcast by the second of two ticks three minutes
    after it was taken up, and has then left the stempool. *)
Theorem embargo_always_ends ops h e t1 t2 d1 d2 a1 r1 a2 r2 :
  Forall timed ops -> stempool (run ops).2 !! h = Some e ->
  added_at e + DANDELION_EMBARGO_MAX_SECS <= t1 -> added_at e + DANDELION_EMBARGO_MAX_SECS <= t2 ->
  Dan.tick (run ops).2 t1 d1 = (a1, r1) -> Dan.tick r1 t2 d2 = (a2, r2) ->
  (fluffs h a1 + fluffs h a2 = 1)%nat /\ stempool r2 !! h = None.
Proof.
  intros Ho He H1 H2 T1 T2. destruct (reachable_ok ops Ho h e He) as [_ Hem Hfw].
  unfold DANDELION_EMBARGO_MAX_SECS in *.
  pose proof (tick_outcome _ _ _ _ _ h T1) as O1. rewrite He in O1.
  destruct O1 as (s&nr&nf&O1&Hs&_&->). pose proof (tick_outcome _ _ _ _ _ h T2) as O2.
  rewrite Hs in O2. destruct O1; [lia|lia| | |].
  - destruct O2 as (s2&nr2&nf2&O2&->&_&->). inversion O2; subst; cbn in *; try lia; done.
  - by destruct O2 as (->&_&->).
  - by destruct O2 as (->&_&->).
Qed.

(** ** What the node sends *)

Definition keyed a : Prop :=
  Forall (fun x : Hash * Transaction * PeerId => tx_hash x.1.2 = x.1.1) (stem_relay a)
  /\ Forall (fun x : Hash * Transaction * option PeerId => tx_hash x.1.2 = x.1.1) (a_fluff a).

Lemma tick_one_keyed now r a k r' a' :
  (forall h e, stempool r !! h = Some e -> tx_hash (st_tx e) = h) -> keyed a ->
  Dan.tick_one now (r, a) k = (r', a') ->
  (forall h e, stempool r' !! h = Some e -> tx_hash (st_tx e) = h) /\ keyed a'.
Proof.
  intros Hr [Ka Kf] E. split.
  - intros h e He. destruct (decide (k = h)) as [->|Hne].
    + destruct (stempool r !! h) as [e0|] eqn:E0.
      * destruct (tick_one_own _ _ _ _ _ _ _ E0 E) as (s&nr&nf&Ho&Hs&_). rewrite He in Hs. subst s.
        pose proof (Hr h e0 E0). inversion Ho; by subst.
      * unfold Dan.tick_one in E. rewrite E0 in E. injection E as <- <-. congruence.
    + destruct (tick_one_other _ _ _ _ _ _ _ Hne E) as [Hs _]. apply Hr. by rewrite <- Hs.
  - unfold Dan.tick_one in E. destruct (stempool r !! k) as [e|] eqn:Ee; [|by injection E as <- <-].
    pose proof (Hr k e Ee) as Hk.
    assert (Hfl : forall r1, Dan.fluff_entry r1 k now e a = (r', a') -> keyed a').
    { intros r1 [= <- <-]. split; [done|]. apply Forall_app. split; [done|]. by repeat constructor. }
    destruct (forwarded e); [destruct (_ <=? _); [by apply (Hfl r)|by injection E as <- <-]|].
    destruct (match source e with Some _ => _ | None => _ end) as [i r1].
    destruct (Dan.relay_slot r1 i) as [p|]; [|by apply (Hfl r1)].
    destruct (_ <? _); injection E as <- <-; [done|]. split; [|done].
    apply Forall_app. split; [done|]. by repeat constructor.
Qed.

Lemma tick_keyed r now d a r' : pool_ok r -> Dan.tick r now d = (a, r') -> keyed a.
Proof.
  intros Hp. unfold Dan.tick.
  assert (Hr : forall h e, stempool (Dan.maybe_rotate_epoch r now d) !! h = Some e ->
    tx_hash (st_tx e) = h).
  { intros h e He. apply (Hp h e). revert He. unfold Dan.maybe_rotate_epoch. by destruct (_ || _). }
  assert (Hk : keyed Dan.no_actions) by (split; constructor). revert Hr Hk.
  generalize (Dan.maybe_rotate_epoch r now d), Dan.no_actions,
    ((map_to_list (stempool (Dan.maybe_rotate_epoch r now d))).*1).
  intros r0 a0 l. revert r0 a0. induction l as [|k l IH]; intros r0 a0 Hr Hk.
  { cbn. by intros [= <- _]. }
  cbn [foldl]. destruct (Dan.tick_one now (r0, a0) k) as [r1 a1] eqn:E.
  destruct (tick_one_keyed _ _ _ _ _ _ Hr Hk E). by apply IH.
Qed.

(** The messages that name a transaction. *)
Definition names h (m : Dan.Message) : bool :=
  match m with Dan.Txs tx => bool_decide (tx_hash tx = h) | Dan.InvTx k => bool_decide (k = h) end.
Definition messages_about h (l : list (PeerId * Dan.Message)) : list (PeerId * Dan.Message) :=
  filter (fun m => names h m.2 = true) l.

Lemma relays_about h a (senders : gset PeerId) :
  Forall (fun x : Hash * Transaction * PeerId => tx_hash x.1.2 = x.1.1) (stem_relay a) ->
  (length (messages_about h (omap (fun x : Hash * Transaction * PeerId =>
     if bool_decide (x.2 ∈ senders) then Some (x.2, Dan.Txs x.1.2) else None) (stem_relay a)))
   <= relays h a)%nat.
Proof.
  unfold relays, messages_about. induction 1 as [|[[k tx] p] l Hk _ IH]; [done|].
  cbn [omap list_omap fst snd] in *. rewrite filter_cons. cbn [fst]. case_bool_decide as Hp.
  - rewrite filter_cons. cbn [snd names]. rewrite Hk. case_bool_decide as E; case_decide as E'; cbn in *;
      repeat case_decide; cbn in *; try done; lia.
  - case_decide; cbn; lia.
Qed.

Lemma invs_about h (senders : gset PeerId) (l : list (Hash * Transaction * option PeerId)) :
  length (filter (fun x : Hash * Transaction * option PeerId => x.1.1 = h) l) = O ->
  messages_about h (concat ((fun x : Hash * Transaction * option PeerId =>
    (fun p => (p, Dan.InvTx x.1.1)) <$> elements senders) <$> l)) = [].
Proof.
  unfold messages_about. induction l as [|x l IH]; intros Hl; [done|]. rewrite filter_cons in Hl.
  case_decide as E; [done|]. cbn [fmap list_fmap concat]. rewrite filter_app, IH by done.
  rewrite app_nil_r. apply filter_none. intros m (p&->&_)%list_elem_of_fmap. cbn [snd names].
  by rewrite bool_decide_false.
Qed.

Lemma pool_ok_queue now (queue : list (Transaction * Z * Z)) : forall r,
  0 <= now -> pool_ok r ->
  pool_ok (foldl (fun r (q : Transaction * Z * Z) =>
    (Dan.add_local_tx tx_hash r q.1.1 now q.1.2 q.2).2) r queue).
Proof.
  induction queue as [|[[tx em] fw] queue IH]; intros r Hn Hp; [done|]. cbn [foldl].
  apply IH; [done|]. by apply (pool_ok_op r (OpLocal tx now em fw) _ _ Hn eq_refl).
Qed.

(** An entry that survives a tick was not broadcast in it, and passed on at most once. *)
Lemma survivor_counts r now d a r' h :
  Dan.tick r now d = (a, r') -> is_Some (stempool r' !! h) -> (relays h a <= 1)%nat /\ fluffs h a = O.
Proof.
  intros Ht [e' He']. pose proof (tick_outcome r now d a r' h Ht) as H.
  destruct (stempool r !! h) as [e|]; [|destruct H; congruence].
  destruct H as (s&nr&nf&Ho&Hs&->&->). rewrite He' in Hs. inversion Ho; subst; lia || done.
Qed.

Lemma events_about h a tx src :
  Forall (fun x : Hash * Transaction * option PeerId => tx_hash x.1.2 = x.1.1) (a_fluff a) ->
  fluffs h a = O ->
  (tx, src) ∈ (fun x : Hash * Transaction * option PeerId => (x.1.2, x.2)) <$> a_fluff a ->
  tx_hash tx <> h.
Proof.
  intros Hk Hz ([[k t] s]&[= -> ->]&Hin)%list_elem_of_fmap Hh.
  pose proof (proj1 (Forall_forall _ _) Hk _ Hin) as Hkt. cbn in Hkt.
  unfold fluffs in Hz. apply length_zero_iff_nil in Hz.
  assert (Hf : (k, t, s) ∈ filter (fun x : Hash * Transaction * option PeerId => x.1.1 = h) (a_fluff a)).
  { apply list_elem_of_filter. split; [cbn; congruence|done]. }
  rewrite Hz in Hf. by apply elem_of_nil in Hf.
Qed.

(** C28: The stem keeps its secret: whatever a node has gone through, a transaction
    that is still in the stempool after a maintenance tick was named in that tick to
    one peer at most, and to that peer in full: it was announced to nobody and did
    not reach the node's own pool. *)
Theorem stem_not_announced `{MapOrder} ops queue peers senders now d msgs events r' h :
  Forall timed ops -> 0 <= now ->
  Dan.run_dandelion_tick tx_hash (run ops).2 queue peers senders now d = (msgs, events, r') ->
  is_Some (stempool r' !! h) ->
  (length (messages_about h msgs) <= 1)%nat
  /\ (forall p, (p, Dan.InvTx h) ∉ msgs)
  /\ (forall tx src, (tx, src) ∈ events -> tx_hash tx <> h).
Proof.
  intros Ho Hn. unfold Dan.run_dandelion_tick. set (q := foldl _ _ queue).
  pose proof (pool_ok_queue now queue _ Hn (reachable_ok ops Ho)) as Hq. fold q in Hq.
  destruct (Dan.tick _ now d) as [a r1] eqn:Et. intros [= <- <- <-] Hs.
  destruct (survivor_counts _ _ _ _ _ h Et Hs) as [Hr Hz].
  assert (Hk : keyed a) by (eapply tick_keyed; [|exact Et]; exact Hq).
  destruct Hk as [Ks Kf]. pose proof (relays_about h a senders Ks) as Hra.
  pose proof (invs_about h senders (a_fluff a) Hz) as Hi. split_and!.
  - unfold messages_about in *. rewrite filter_app, Hi, app_nil_r. lia.
  - intros p [Hin|Hin]%elem_of_app.
    + apply list_elem_of_omap in Hin as ([[k t] s]&_&Hx). cbn in Hx. by case_bool_decide.
    + assert (Hm : (p, Dan.InvTx h) ∈ messages_about h (concat ((fun x : Hash * Transaction * option PeerId =>
        (fun p => (p, Dan.InvTx x.1.1)) <$> elements senders) <$> a_fluff a))).
      { apply list_elem_of_filter. split; [by cbn; rewrite bool_decide_true|done]. }
      rewrite Hi in Hm. by apply elem_of_nil in Hm.
  - intros tx src. by apply events_about.
Qed.
End runs.

(** ** A stem of three nodes *)

Definition fee_hash (tx : Transaction) : Hash := [fee tx].
Definition note (k : Z) : Transaction := mkTransaction 1 Transfer [] [] k [] [].
Definition seven : Hash := [7].
Definition calm : EpochDraw := mkEpochDraw 0 50 id 0.

(** A node with two outbound peers takes up its own transaction. *)
Definition stem_start : list dan_op := [OpOutbound [[1]; [2]]; OpLocal (note 7) 1000 60 2].
Definition stem_node : DandelionRouter := (run fee_hash stem_start).2.

Lemma embargo_always_ends_witness :
  (fluffs seven (Dan.tick stem_node 1180 calm).1
   + fluffs seven (Dan.tick (Dan.tick stem_node 1180 calm).2 1181 calm).1 = 1)%nat
  /\ stempool (Dan.tick (Dan.tick stem_node 1180 calm).2 1181 calm).2 !! [7] = None.
Proof.
  apply (embargo_always_ends fee_hash stem_start [7]
    (mkStemEntry (note 7) 1000 1060 None false 1002) 1180 1181 calm calm
    _ (Dan.tick stem_node 1180 calm).2 _ _).
  - repeat constructor; cbn; lia.
  - vm_compute. reflexivity.
  - by vm_compute.
  - by vm_compute.
  - apply surjective_pairing.
  - apply surjective_pairing.
Defined.

Definition stem_peer (k : Z) : PeerInfo :=
  mkPeer [k] (mkSocketAddr (V4 [10; 0; 0; k]) 28080) Connected 0 0 100 true true 0 None.
Definition stem_peers : gmap PeerId PeerInfo := list_to_map [([1], stem_peer 1); ([2], stem_peer 2)].

Definition passed : list (PeerId * Dan.Message) := [([1], Dan.Txs (note 7))].

(** The tick passes the transaction to one peer, in full. *)
Lemma stem_not_announced_witness :
  (length (messages_about fee_hash seven passed) <= 1)%nat
  /\ (forall p, (p, Dan.InvTx seven) ∉ passed)
  /\ (forall tx src, (tx, src) ∈ (@nil (Transaction * option PeerId)) -> fee_hash tx <> [7]).
Proof.
  apply (stem_not_announced fee_hash stem_start [] stem_peers {[ [1]; [3] ]} 1002 calm
    passed []
    (Dan.run_dandelion_tick fee_hash stem_node [] stem_peers {[ [1]; [3] ]} 1002 calm).2 [7]).
  - repeat constructor; cbn; lia.
  - lia.
  - vm_compute. reflexivity.
  - eexists. vm_compute. reflexivity.
Defined.

(** The relay may be the peer the transaction came from: node 2 hands the transaction
    of node 1 back to it, and node 1, which takes this for a loop, broadcasts it at
    once, before anyone else has seen it. *)
Definition stem_second : DandelionRouter :=
  (run fee_hash [OpOutbound [[1]; [3]]; OpReceived (note 7) [1] 1002 60 2]).2.

Example stem_returns_to_origin :
  stem_relay (Dan.tick stem_node 1002 (mkEpochDraw 0 50 id 1)).1 = [([7], note 7, [2])]
  /\ stem_relay (Dan.tick stem_second 1004 calm).1 = [([7], note 7, [1])]
  /\ (Dan.add_received_tx fee_hash (Dan.tick stem_node 1002 (mkEpochDraw 0 50 id 1)).2
        (note 7) [2] 1004 60 2).1 = Fluff (note 7).
Proof. vm_compute. done. Qed.

(** An epoch that starts before the first peer connects has no relays until it ends:
    ten minutes long the node announces its own transactions itself, with peers. *)
Example early_epoch_has_no_stem :
  a_fluff (Dan.tick (run fee_hash [OpTick 1000 calm; OpOutbound [[1]; [2]; [3]];
    OpLocal (note 7) 1500 60 2]).2 1510 calm).1 = [([7], note 7, None)].
Proof. vm_compute. done. Qed.
