(* ===== verification/Pow.v ===== *)
(** * Proof of work ([src/consensus/pow.rs])

    The anchor of a block and its cache, the RandomX key of an epoch, the
    engine around the RandomX library (shared dataset, prewarmed dataset,
    virtual machine per thread, back-off after a failed build) and
    [verify_pow].  RandomX itself is a third-party library: the class
    [RandomXLib] is its interface as the code calls it, [RandomXLaws] what the
    code relies on.  The condition of the machine at a call (free memory) is
    an argument [World] of the calls that can fail for it. *)

From stdpp Require Import prelude gmap strings.
From Stdlib Require Import ZArith Lia.
From S2P Require Import Prelude Constants Encoding Difficulty Block ForkChoice.

Local Open Scope Z_scope.

(** ** Data *)

Inductive PowAlgorithm := RandomX.

Definition algorithm_index (a : PowAlgorithm) : Z := match a with RandomX => 0 end.
Definition from_index (i : Z) : PowAlgorithm := RandomX.
Definition at_height (height : Z) : PowAlgorithm := RandomX.

Record Anchor := mkAnchor {
  sequential_hash : Hash;
  mixed_hash : Hash;
  an_algorithm : PowAlgorithm;
  an_height : Z;
  an_timestamp : Z;
}.

#[export] Instance algorithm_eq_dec : EqDecision PowAlgorithm.
Proof. solve_decision. Defined.
#[export] Instance anchor_eq_dec : EqDecision Anchor.
Proof. solve_decision. Defined.

(** Previous hash, height, timestamp. *)
Definition AnchorKey : Type := Hash * Z * Z.

Inductive engine_error := Backoff (secs : Z) | BuildFailed | VmInit | HashFailed | ShortHash.

Inductive PowVerifyError :=
| AnchorMismatch (expected claimed : Hash)
| AlgorithmMismatch (expected claimed : Z)
| TargetNotMet (hash target : Hash)
| RandomXNotEnabled
| EngineError (e : engine_error).

(** ** The cache of anchors *)

Definition SEQ_PAD_CACHE_MAX : Z := 10000.
Definition SEQ_PAD_ITERATIONS : nat := 1.

Record SeqPadCache := mkSeqPadCache {
  anchors : gmap AnchorKey Anchor;
  insertion_order : list AnchorKey;
}.

Module Seq.
Implicit Types c : SeqPadCache.

Definition new : SeqPadCache := mkSeqPadCache ∅ [].
Definition get c (key : AnchorKey) : option Anchor := anchors c !! key.

Definition insert c (key : AnchorKey) (a : Anchor) : SeqPadCache :=
  if bool_decide (is_Some (anchors c !! key)) then c
  else
    let c :=
      if SEQ_PAD_CACHE_MAX <=? Z.of_nat (size (anchors c)) then
        match insertion_order c with
        | oldest :: order => mkSeqPadCache (delete oldest (anchors c)) order
        | [] => c
        end
      else c in
    mkSeqPadCache (<[key := a]> (anchors c)) (insertion_order c ++ [key]).
End Seq.

Section anchor.
Context (blake3 : list Z -> Hash).

Definition hash_domain (domain data : list Z) : Hash := blake3 (domain ++ [0] ++ data).

Definition compute_sequential_padding (seed : Hash) (iterations : nat) : Hash :=
  Nat.iter iterations (hash_domain (ascii_bytes "SEQ_PAD_ITER")) seed.

Definition blake3_mix (sequential prev_hash : Hash) : Hash :=
  hash_domain (ascii_bytes "CYNC1_ANCHOR_MIX") (sequential ++ prev_hash).

(** What [compute_full_anchor] computes when the cache has no entry. *)
Definition fresh_anchor (key : AnchorKey) : Anchor :=
  let '(prev_hash, height, timestamp) := key in
  let seed := hash_concat blake3 [prev_hash; le_bytes 8 height; le_bytes 8 timestamp] in
  let sequential := compute_sequential_padding seed SEQ_PAD_ITERATIONS in
  mkAnchor sequential (blake3_mix sequential prev_hash) RandomX height timestamp.

Definition compute_full_anchor (c : SeqPadCache) (prev_hash : Hash) (height timestamp : Z)
  : Anchor * SeqPadCache :=
  let key := (prev_hash, height, timestamp) in
  match Seq.get c key with
  | Some cached => (cached, c)
  | None => let anchor := fresh_anchor key in (anchor, Seq.insert c key anchor)
  end.

(** The message that is hashed. *)
Definition pow_input (anchor : Hash) (nonce : Z) (tx_root : Hash) : Hash :=
  hash_concat blake3 [anchor; le_bytes 8 nonce; tx_root].

(** ** The RandomX key of an epoch *)

Definition RANDOMX_KEY_EPOCH : Z := 2048.
Definition LOOKAHEAD_BLOCKS : Z := 64.

Definition MAINNET_GENESIS_HASH : list Z :=
  [0x9d; 0xbb; 0x99; 0xab; 0x3e; 0x63; 0xac; 0x14; 0x0f; 0x4a; 0xdf; 0xb8; 0xfb; 0x76; 0xef;
   0xbd; 0x66; 0x5f; 0xb7; 0xf2; 0x3d; 0x75; 0xda; 0x9f; 0xa7; 0xda; 0x82; 0xe4; 0xd5; 0xc0;
   0x33; 0x68].
Definition TESTNET_GENESIS_HASH : list Z :=
  [0x41; 0xf9; 0x70; 0xdf; 0x61; 0x52; 0x42; 0x5a; 0x29; 0x38; 0x72; 0x54; 0x23; 0x23; 0x5c;
   0x2c; 0x40; 0xec; 0x52; 0x55; 0x6e; 0xcc; 0x0f; 0xd1; 0x42; 0x2d; 0x58; 0x86; 0x52; 0xcc;
   0x56; 0xb4].

(** The cell [RANDOMX_GENESIS_BYTES] is written once. *)
Definition bind_randomx_genesis_for_network (cell : option (list Z)) (net : NetworkType)
  : option (list Z) :=
  match cell with
  | Some g => Some g
  | None => Some (match net with
                  | Mainnet => MAINNET_GENESIS_HASH
                  | Testnet | Regtest => TESTNET_GENESIS_HASH
                  end)
  end.

(** [env] is the variable [COINCYNC_NETWORK], trimmed and in lower case; it is
    read when no network was bound. *)
Definition genesis_bytes (cell : option (list Z)) (env : option string) : list Z :=
  match cell with
  | Some g => g
  | None =>
      let network := default "testnet"%string env in
      if bool_decide (network = "testnet"%string) || bool_decide (network = "regtest"%string)
      then TESTNET_GENESIS_HASH else MAINNET_GENESIS_HASH
  end.

Definition randomx_key_for_height (genesis : list Z) (height : Z) : Hash :=
  let epoch := height / RANDOMX_KEY_EPOCH in
  hash_domain (ascii_bytes "CYNC1_RANDOMX_KEY_EPOCH") (le_bytes 8 epoch ++ genesis).

(** The key [prewarm_next_epoch_if_near] has built in advance, if any. *)
Definition prewarm_key (genesis : list Z) (current_height : Z) : option Hash :=
  let epoch := current_height / RANDOMX_KEY_EPOCH in
  let next_boundary := sat_mul u64_max (epoch + 1) RANDOMX_KEY_EPOCH in
  if sat_sub next_boundary current_height <=? LOOKAHEAD_BLOCKS
  then Some (randomx_key_for_height genesis next_boundary) else None.
End anchor.

Definition work_from_target (target : Hash) : Z :=
  let target_u128 := be_val (take 16 target) in
  if target_u128 =? 0 then u128_max else u128_max / target_u128.

(** ** The RandomX library *)

Class RandomXLib := {
  World : Type;
  RandomXCache : Type;
  RandomXDataset : Type;
  RandomXVM : Type;
  FLAG_DEFAULT : Z;
  FLAG_FULL_MEM : Z;
  FLAG_JIT : Z;
  FLAG_SECURE : Z;
  get_recommended_flags : Z;
  RandomXCache_new : World -> Z -> Hash -> option RandomXCache;
  RandomXDataset_new : World -> Z -> RandomXCache -> option RandomXDataset;
  RandomXVM_new :
    World -> Z -> option RandomXCache -> option RandomXDataset -> option RandomXVM;
  calculate_hash : RandomXVM -> list Z -> option (list Z);
  calculate_hash_set : RandomXVM -> list (list Z) -> option (list (list Z));
}.

(** ** The engine ([mod randomx_cache]) *)

Section engine.
Context `{RL : RandomXLib}.
(** Built for Windows; [COINCYNC_RANDOMX_LIGHT_MODE] is set. *)
Context (windows light_mode_forced : bool).

Record DatasetEntry := mkDatasetEntry {
  de_key : Hash;
  de_cache : RandomXCache;
  de_dataset : option RandomXDataset;
  de_flags : Z;
}.

(** The statics of the module; [thread_vm] is the cell of each thread. *)
Record Engine := mkEngine {
  dataset_cache : option DatasetEntry;
  retry_after : Z;
  prewarm_cache : option DatasetEntry;
  prewarm_inflight : option Hash;
  thread_vm : gmap Z (Hash * RandomXVM);
}.

Definition engine_new : Engine := mkEngine None 0 None None ∅.

Implicit Types (s : Engine) (seed : Hash) (w : World).

Definition set_dataset s (d : option DatasetEntry) (retry : Z) : Engine :=
  mkEngine d retry (prewarm_cache s) (prewarm_inflight s) (thread_vm s).
Definition set_retry s (retry : Z) : Engine := set_dataset s (dataset_cache s) retry.
Definition set_prewarm s (p : option DatasetEntry) : Engine :=
  mkEngine (dataset_cache s) (retry_after s) p (prewarm_inflight s) (thread_vm s).
Definition set_inflight s (k : option Hash) : Engine :=
  mkEngine (dataset_cache s) (retry_after s) (prewarm_cache s) k (thread_vm s).
Definition set_vm s (m : gmap Z (Hash * RandomXVM)) : Engine :=
  mkEngine (dataset_cache s) (retry_after s) (prewarm_cache s) (prewarm_inflight s) m.

Definition contains_flag (flags f : Z) : bool := Z.land flags f =? f.

Definition try_build_entry w (flags : Z) seed : option DatasetEntry :=
  match RandomXCache_new w flags seed with
  | None => None
  | Some cache =>
      if contains_flag flags FLAG_FULL_MEM then
        match RandomXDataset_new w flags cache with
        | Some ds => Some (mkDatasetEntry seed cache (Some ds) flags)
        | None => None
        end
      else Some (mkDatasetEntry seed cache None flags)
  end.

(** The flags of the four tiers, in the order they are tried. *)
Definition tiers : list Z :=
  let recommended := get_recommended_flags in
  let secure := if windows then FLAG_SECURE else FLAG_DEFAULT in
  (if light_mode_forced then [] else [Z.lor (Z.lor recommended FLAG_FULL_MEM) secure])
  ++ [Z.lor (Z.land recommended (Z.lnot FLAG_FULL_MEM)) secure;
      Z.lor FLAG_JIT secure; FLAG_DEFAULT].

Fixpoint first_built w (flags : list Z) seed : option DatasetEntry :=
  match flags with
  | [] => None
  | f :: flags =>
      match try_build_entry w f seed with
      | Some e => Some e
      | None => first_built w flags seed
      end
  end.

Definition create_dataset_entry w seed : option DatasetEntry := first_built w tiers seed.

Definition has_key (e : option DatasetEntry) seed : bool :=
  match e with Some e => bool_decide (de_key e = seed) | None => false end.

(** A build that fails starts the back-off. *)
Definition build_dataset s w seed (now_secs : Z) : result engine_error DatasetEntry * Engine :=
  match create_dataset_entry w seed with
  | Some e => (Ok e, set_dataset s (Some e) 0)
  | None => (Err BuildFailed, set_retry s (wrap64 (now_secs + 60)))
  end.

(** Under the write lock: the prewarmed dataset, then a build. *)
Definition replace_dataset s w seed (now_secs : Z) : result engine_error DatasetEntry * Engine :=
  match prewarm_cache s with
  | Some e =>
      if bool_decide (de_key e = seed) then
        (Ok e, set_dataset (set_prewarm s None) (Some e) 0)
      else build_dataset s w seed now_secs
  | None => build_dataset s w seed now_secs
  end.

Definition ensure_dataset s w seed (now_secs : Z) : result engine_error DatasetEntry * Engine :=
  match dataset_cache s with
  | Some e =>
      if bool_decide (de_key e = seed) then (Ok e, s) else replace_dataset s w seed now_secs
  | None => replace_dataset s w seed now_secs
  end.

Definition in_backoff s (now_secs : Z) : bool :=
  negb (retry_after s =? 0) && (now_secs <? retry_after s).

(** The cell of thread [t]: a machine for another key is dropped first. *)
Definition thread_machine s w (t : Z) (e : DatasetEntry) seed
  : result engine_error RandomXVM * Engine :=
  let fresh :=
    let s := set_vm s (delete t (thread_vm s)) in
    match RandomXVM_new w (de_flags e) (Some (de_cache e)) (de_dataset e) with
    | None => (Err VmInit, s)
    | Some vm => (Ok vm, set_vm s (<[t := (seed, vm)]> (thread_vm s)))
    end in
  match thread_vm s !! t with
  | Some (key, vm) => if bool_decide (key = seed) then (Ok vm, s) else fresh
  | None => fresh
  end.

(** Everything before the hash proper, shared by the two entry points. *)
Definition acquire s w (t now_secs : Z) seed : result engine_error RandomXVM * Engine :=
  if in_backoff s now_secs then (Err (Backoff (retry_after s - now_secs)), s)
  else
    match ensure_dataset s w seed now_secs with
    | (Ok e, s) => thread_machine s w t e seed
    | (Err e, s) => (Err e, s)
    end.

(** [output.copy_from_slice(&hash[..32])]. *)
Definition output_of (hash : list Z) : result engine_error Hash :=
  if (length hash <? 32)%nat then Err ShortHash else Ok (take 32 hash).

Definition compute_hash s w (t now_secs : Z) seed (input : list Z)
  : result engine_error Hash * Engine :=
  match acquire s w t now_secs seed with
  | (Ok vm, s) =>
      (match calculate_hash vm input with
       | None => Err HashFailed
       | Some hash => output_of hash
       end, s)
  | (Err e, s) => (Err e, s)
  end.

Fixpoint outputs_of (hashes : list (list Z)) : result engine_error (list Hash) :=
  match hashes with
  | [] => Ok []
  | h :: hashes =>
      match output_of h with
      | Err e => Err e
      | Ok o => match outputs_of hashes with Ok os => Ok (o :: os) | Err e => Err e end
      end
  end.

Definition compute_hash_batch s w (t now_secs : Z) seed (inputs : list (list Z))
  : result engine_error (list Hash) * Engine :=
  match inputs with
  | [] => (Ok [], s)
  | _ =>
      match acquire s w t now_secs seed with
      | (Ok vm, s) =>
          (match calculate_hash_set vm inputs with
           | None => Err HashFailed
           | Some hashes => outputs_of hashes
           end, s)
      | (Err e, s) => (Err e, s)
      end
  end.

(** [prewarm_seed] up to the spawn, and whether a builder is spawned. *)
Definition prewarm_claim s seed : bool * Engine :=
  if has_key (dataset_cache s) seed then (false, s)
  else if has_key (prewarm_cache s) seed then (false, s)
  else
    match prewarm_inflight s with
    | Some _ => (false, s)
    | None => (true, set_inflight s (Some seed))
    end.

(** The spawned builder. *)
Definition prewarm_build s w seed : Engine :=
  match create_dataset_entry w seed with
  | Some e => set_prewarm s (Some e)
  | None => s
  end.
Definition prewarm_release s seed : Engine :=
  if bool_decide (prewarm_inflight s = Some seed) then set_inflight s None else s.

Definition clear_cache s (t : Z) : Engine :=
  set_vm (set_dataset s None (retry_after s)) (delete t (thread_vm s)).

(** ** Hashing and verification *)

(** The crate feature [randomx]; the bound genesis. *)
Context (randomx_enabled : bool) (genesis : list Z) (blake3 : list Z -> Hash).

Definition compute_pow_hash s w (t now_secs : Z) (anchor : Hash) (nonce : Z) (tx_root : Hash)
    (height : Z) : result PowVerifyError Hash * Engine :=
  let input := pow_input blake3 anchor nonce tx_root in
  if randomx_enabled then
    match compute_hash s w t now_secs (randomx_key_for_height blake3 genesis height) input with
    | (Ok h, s) => (Ok h, s)
    | (Err e, s) => (Err (EngineError e), s)
    end
  else (Err RandomXNotEnabled, s).

Definition compute_pow_hash_batch s w (t now_secs : Z) (anchor : Hash) (nonces : list Z)
    (tx_root : Hash) (height : Z) : result engine_error (list Hash) * Engine :=
  match nonces with
  | [] => (Ok [], s)
  | _ =>
      let inputs := (fun nonce => pow_input blake3 anchor nonce tx_root) <$> nonces in
      compute_hash_batch s w t now_secs (randomx_key_for_height blake3 genesis height) inputs
  end.

(** [verify_pow]; the state is the cache of anchors and the engine. *)
Definition verify_pow (c : SeqPadCache) s w (t now_secs : Z) (prev_hash : Hash)
    (height timestamp nonce : Z) (tx_root target claimed_anchor : Hash) (claimed_algo : Z)
  : result PowVerifyError unit * SeqPadCache * Engine :=
  let '(anchor, c) := compute_full_anchor blake3 c prev_hash height timestamp in
  if negb (bool_decide (mixed_hash anchor = claimed_anchor)) then
    (Err (AnchorMismatch (mixed_hash anchor) claimed_anchor), c, s)
  else if negb (algorithm_index (an_algorithm anchor) =? claimed_algo) then
    (Err (AlgorithmMismatch (algorithm_index (an_algorithm anchor)) claimed_algo), c, s)
  else
    match compute_pow_hash s w t now_secs (mixed_hash anchor) nonce tx_root height with
    | (Err e, s) => (Err e, c, s)
    | (Ok pow_hash, s) =>
        if negb (meets_difficulty pow_hash target) then
          (Err (TargetNotMet pow_hash target), c, s)
        else (Ok tt, c, s)
    end.
End engine.
