(* ===== verification/PowRules.v ===== *)
(** * Proof of work: the caches never change an answer

    Whatever the interleaving of hashing threads, epoch changes, prewarming
    and cleared caches, the engine answers with the RandomX hash of the seed it
    was asked for, the batch is the single hash mapped over its inputs, and
    [verify_pow] decides the proof of work exactly.  A failed build makes the
    engine refuse every seed for a minute, the live one included. *)

From stdpp Require Import prelude gmap strings.
From Stdlib Require Import ZArith Lia.
From S2P Require Import Prelude Constants Encoding Difficulty Block ForkChoice Pow.

Local Open Scope Z_scope.

(** ** The cache of anchors *)

Section anchors.
Context (blake3 : list Z -> Hash).
Implicit Types c : SeqPadCache.

(** The inserts of any number of callers, in any order. *)
Definition seq_run c (keys : list AnchorKey) : SeqPadCache :=
  foldl (fun c key => Seq.insert c key (fresh_anchor blake3 key)) c keys.

Record seq_ok c : Prop := {
  seq_fresh : map_Forall (fun key a => a = fresh_anchor blake3 key) (anchors c);
  seq_nodup : NoDup (insertion_order c);
  seq_keys : forall key, key ∈ insertion_order c <-> is_Some (anchors c !! key);
  seq_bound : Z.of_nat (length (insertion_order c)) <= SEQ_PAD_CACHE_MAX;
}.

Lemma seq_size c : seq_ok c -> size (anchors c) = length (insertion_order c).
Proof.
  intros [_ Hn Hk _]. rewrite <- size_dom, <- (size_list_to_set (C := gset AnchorKey)) by done.
  f_equal. apply set_eq. intros k. by rewrite elem_of_dom, elem_of_list_to_set, Hk.
Qed.

Lemma seq_evict c oldest order :
  seq_ok c -> insertion_order c = oldest :: order ->
  seq_ok (mkSeqPadCache (delete oldest (anchors c)) order).
Proof.
  intros [Hf Hn Hk Hb] E. rewrite E in *. apply NoDup_cons in Hn as [Hx Hn].
  split; cbn in *; [by apply map_Forall_delete|done| |lia].
  intros k. rewrite lookup_delete_is_Some, <- Hk, elem_of_cons. set_solver.
Qed.

Lemma seq_push c key :
  seq_ok c -> anchors c !! key = None ->
  Z.of_nat (length (insertion_order c)) < SEQ_PAD_CACHE_MAX ->
  seq_ok (mkSeqPadCache (<[key := fresh_anchor blake3 key]> (anchors c))
            (insertion_order c ++ [key])).
Proof.
  intros [Hf Hn Hk Hb] Hkey Hl. split; cbn.
  - by apply map_Forall_insert_2.
  - apply NoDup_app. split_and!; [done| |apply NoDup_singleton].
    intros x Hx ->%list_elem_of_singleton. apply Hk in Hx. by rewrite Hkey in Hx; destruct Hx.
  - intros k. rewrite lookup_insert_is_Some, elem_of_app, list_elem_of_singleton, Hk.
    destruct (decide (k = key)) as [->|]; naive_solver.
  - rewrite length_app. cbn. lia.
Qed.

Lemma insert_seq c key : seq_ok c -> seq_ok (Seq.insert c key (fresh_anchor blake3 key)).
Proof.
  intros Hc. unfold Seq.insert. case_bool_decide as Hk; [done|].
  apply eq_None_not_Some in Hk. rewrite (seq_size c Hc).
  destruct (Z.leb_spec SEQ_PAD_CACHE_MAX (Z.of_nat (length (insertion_order c)))) as [Hl|Hl];
    [|by apply seq_push].
  destruct (insertion_order c) as [|oldest order] eqn:E; [cbn in Hl; unfold SEQ_PAD_CACHE_MAX in Hl; lia|].
  apply (seq_push (mkSeqPadCache _ _)); [by apply seq_evict| |].
  - cbn. by rewrite lookup_delete_None; right.
  - pose proof (seq_bound c Hc). rewrite E in *. cbn in *. lia.
Qed.

Lemma run_seq keys : forall c, seq_ok c -> seq_ok (seq_run c keys).
Proof. induction keys as [|k keys IH]; intros c Hc; [done|]. by apply IH, insert_seq. Qed.

Lemma new_seq : seq_ok Seq.new.
Proof.
  split; cbn; [apply map_Forall_empty|apply NoDup_nil_2| |unfold SEQ_PAD_CACHE_MAX; lia].
  intros k. rewrite lookup_empty, elem_of_nil. split; [done|by intros [? [=]]].
Qed.

(** A cached anchor is the anchor. *)
Lemma full_anchor_fresh c prev h t :
  seq_ok c -> (compute_full_anchor blake3 c prev h t).1 = fresh_anchor blake3 (prev, h, t)
    /\ seq_ok (compute_full_anchor blake3 c prev h t).2.
Proof.
  intros Hc. unfold compute_full_anchor, Seq.get.
  destruct (anchors c !! ((prev, h, t) : AnchorKey)) as [a|] eqn:E; cbn [fst snd].
  - split; [|done]. by apply (seq_fresh c Hc) in E.
  - split; [done|]. by apply insert_seq.
Qed.

(** Whatever anchors were cached before, by whatever callers, and however
    many, [compute_full_anchor] answers as it would without a cache, and the
    cache never holds more than 10,000 anchors. *)
Theorem anchor_cache_transparent keys prev h t :
  let c := seq_run Seq.new keys in
  (compute_full_anchor blake3 c prev h t).1 = (compute_full_anchor blake3 Seq.new prev h t).1
  /\ Z.of_nat (size (anchors c)) <= SEQ_PAD_CACHE_MAX.
Proof.
  intros c. assert (Hc : seq_ok c) by apply run_seq, new_seq.
  split; [by rewrite (proj1 (full_anchor_fresh c prev h t Hc))|].
  rewrite (seq_size c Hc). apply (seq_bound c Hc).
Qed.
End anchors.

(** ** Keys *)

Section keys.
Context (blake3 : list Z -> Hash).

(** Within an epoch the key is constant; two epochs, or two chains, share a
    key only with a collision of the hash. *)
Theorem epoch_key_binds g1 g2 h1 h2 :
  0 <= h1 <= u64_max -> 0 <= h2 <= u64_max -> length g1 = length g2 ->
  (h1 / RANDOMX_KEY_EPOCH = h2 / RANDOMX_KEY_EPOCH -> g1 = g2 ->
   randomx_key_for_height blake3 g1 h1 = randomx_key_for_height blake3 g2 h2)
  /\ (randomx_key_for_height blake3 g1 h1 = randomx_key_for_height blake3 g2 h2 ->
      h1 / RANDOMX_KEY_EPOCH = h2 / RANDOMX_KEY_EPOCH /\ g1 = g2
      \/ exists x y, x <> y /\ blake3 x = blake3 y).
Proof.
  intros H1 H2 Hl. split.
  - intros He ->. unfold randomx_key_for_height. by rewrite He.
  - unfold randomx_key_for_height, hash_domain. intros He.
    match type of He with blake3 ?x = blake3 ?y => destruct (decide (x = y)) as [E|E] end;
      [left|right; eauto].
    apply app_inv_head, app_inv_head, app_inj_1 in E as [E ->];
      [|by rewrite !le_bytes_length]. split; [|done].
    apply (f_equal le_val) in E.
    assert (forall h, 0 <= h <= u64_max -> 0 <= h / RANDOMX_KEY_EPOCH < 256 ^ Z.of_nat 8) as Hb.
    { intros h Hh. unfold RANDOMX_KEY_EPOCH. split; [apply Z.div_pos; lia|].
      apply Z.div_lt_upper_bound; [lia|]. unfold u64_max in Hh. lia. }
    rewrite !le_val_le_bytes in E by auto. done.
Qed.

(** The dataset of an epoch is built in advance from its predecessor's last 64
    blocks on: exactly there the key asked for is the key of the next epoch. *)
Lemma prewarm_key_next g h :
  0 <= h <= u64_max - 4096 ->
  prewarm_key blake3 g h =
    if RANDOMX_KEY_EPOCH - h mod RANDOMX_KEY_EPOCH <=? LOOKAHEAD_BLOCKS
    then Some (randomx_key_for_height blake3 g (h + LOOKAHEAD_BLOCKS)) else None.
Proof.
  intros Hh. unfold prewarm_key, RANDOMX_KEY_EPOCH, LOOKAHEAD_BLOCKS, u64_max in *.
  pose proof (Z.div_mod h 2048 ltac:(lia)). pose proof (Z.mod_pos_bound h 2048 ltac:(lia)).
  rewrite sat_mul_exact by (unfold u64_max; lia).
  rewrite sat_sub_exact by lia.
  replace ((h / 2048 + 1) * 2048 - h) with (2048 - h mod 2048) by lia.
  destruct (Z.leb_spec (2048 - h mod 2048) 64) as [Hc|]; [|done].
  unfold randomx_key_for_height, RANDOMX_KEY_EPOCH. do 4 f_equal.
  rewrite Z.div_mul by lia. apply (Z.div_unique _ _ _ (h mod 2048 + 64 - 2048)); lia.
Qed.
End keys.

(** The two implementations of the work of a target agree. *)
Lemma work_matches_chain target : work_from_target target = calculate_difficulty_from_target target.
Proof. reflexivity. Qed.

(** ** The library *)

Section library.
Context `{RL : RandomXLib}.

(** The library produced this cache and dataset for the key. *)
Definition built_for (key : Hash) (flags : Z) (cache : RandomXCache)
    (ds : option RandomXDataset) : Prop :=
  (exists w, RandomXCache_new w flags key = Some cache)
  /\ (forall d, ds = Some d -> exists w, RandomXDataset_new w flags cache = Some d).

(** The machine runs on them. *)
Definition machine_for (key : Hash) (vm : RandomXVM) : Prop :=
  exists w flags cache ds, built_for key flags cache ds
    /\ RandomXVM_new w flags (Some cache) ds = Some vm.

(** The documented contract: the hash depends on key and input only, not on
    flags, mode or machine, has 32 bytes, and the set variant hashes each
    input. *)
Class RandomXLaws (randomx : Hash -> list Z -> list Z) := {
  machine_hash key vm x h :
    machine_for key vm -> calculate_hash vm x = Some h -> h = randomx key x;
  machine_set key vm xs hs :
    machine_for key vm -> calculate_hash_set vm xs = Some hs -> hs = randomx key <$> xs;
  randomx_length key x : length (randomx key x) = 32%nat;
  default_is_light : contains_flag FLAG_DEFAULT FLAG_FULL_MEM = false;
}.

(** The library succeeds in this condition of the machine. *)
Definition works (w : World) : Prop :=
  (forall flags key, is_Some (RandomXCache_new w flags key))
  /\ (forall flags cache ds, is_Some (RandomXVM_new w flags (Some cache) ds))
  /\ (forall vm x, is_Some (calculate_hash vm x)).
End library.

(** ** The engine *)

Section engine.
Context `{RL : RandomXLib} {randomx : Hash -> list Z -> list Z} `{!RandomXLaws randomx}.
Context (windows light : bool).
Implicit Types (s : Engine) (e : DatasetEntry) (seed : Hash) (w : World).

Abbreviation compute_hash := (compute_hash windows light).
Abbreviation compute_hash_batch := (compute_hash_batch windows light).
Abbreviation acquire := (acquire windows light).
Abbreviation ensure_dataset := (ensure_dataset windows light).

(** What happens to the engine, in any order and on any thread. *)
Inductive engine_op :=
| EHash w (t now : Z) seed (input : list Z)
| EBatch w (t now : Z) seed (inputs : list (list Z))
| EClaim seed
| EBuild w seed
| ERelease seed
| EClear (t : Z).

Definition engine_apply s (o : engine_op) : Engine :=
  match o with
  | EHash w t now seed input => (compute_hash s w t now seed input).2
  | EBatch w t now seed inputs => (compute_hash_batch s w t now seed inputs).2
  | EClaim seed => (prewarm_claim s seed).2
  | EBuild w seed => prewarm_build windows light s w seed
  | ERelease seed => prewarm_release s seed
  | EClear t => clear_cache s t
  end.
Definition engine_run s (ops : list engine_op) : Engine := foldl engine_apply s ops.

Definition entry_built e : Prop := built_for (de_key e) (de_flags e) (de_cache e) (de_dataset e).
Definition slot_ok (o : option DatasetEntry) : Prop := forall e, o = Some e -> entry_built e.

Record engine_ok s : Prop := {
  ok_dataset : slot_ok (dataset_cache s);
  ok_prewarm : slot_ok (prewarm_cache s);
  ok_machines : map_Forall (fun _ m => machine_for m.1 m.2) (thread_vm s);
}.

Lemma slot_some e : entry_built e -> slot_ok (Some e).
Proof. by intros He ? [= <-]. Qed.
Lemma slot_none : slot_ok None.
Proof. done. Qed.
Hint Resolve slot_some slot_none : core.

Lemma try_build_ok w fl seed e : try_build_entry w fl seed = Some e -> entry_built e /\ de_key e = seed.
Proof.
  unfold try_build_entry, entry_built, built_for. intros H.
  destruct (RandomXCache_new w fl seed) as [c|] eqn:Ec; [|done].
  destruct (contains_flag fl FLAG_FULL_MEM).
  - destruct (RandomXDataset_new w fl c) as [d|] eqn:Ed; [|done]. injection H as <-. cbn.
    naive_solver.
  - injection H as <-. cbn. naive_solver.
Qed.

Lemma created_ok w seed e :
  create_dataset_entry windows light w seed = Some e -> entry_built e /\ de_key e = seed.
Proof.
  unfold create_dataset_entry. generalize (tiers windows light). intros l. induction l as [|f l IH]; [done|].
  cbn. destruct (try_build_entry w f seed) as [e'|] eqn:E; [|done].
  intros [= <-]. by eapply try_build_ok.
Qed.

Lemma build_ok s w seed now :
  engine_ok s -> engine_ok (build_dataset windows light s w seed now).2
  /\ (forall e, (build_dataset windows light s w seed now).1 = Ok e -> entry_built e /\ de_key e = seed).
Proof.
  intros [H1 H2 H3]. unfold build_dataset.
  destruct (create_dataset_entry _ _ w seed) as [e|] eqn:E; cbn; [|by split; [split|]].
  apply created_ok in E. split; [split; cbn; naive_solver|]. by intros ? [= <-].
Qed.

Lemma replace_ok s w seed now :
  engine_ok s -> engine_ok (replace_dataset windows light s w seed now).2
  /\ (forall e, (replace_dataset windows light s w seed now).1 = Ok e ->
      entry_built e /\ de_key e = seed).
Proof.
  intros Hs. unfold replace_dataset.
  destruct (prewarm_cache s) as [e|] eqn:E; [|by apply build_ok].
  case_bool_decide as Hk; [|by apply build_ok].
  assert (He : entry_built e) by by apply (ok_prewarm s Hs).
  destruct Hs as [H1 H2 H3]. cbn. split; [split; cbn; auto|]. by intros ? [= <-].
Qed.

Lemma ensure_ok s w seed now :
  engine_ok s -> engine_ok (ensure_dataset s w seed now).2
  /\ (forall e, (ensure_dataset s w seed now).1 = Ok e -> entry_built e /\ de_key e = seed).
Proof.
  intros Hs. unfold ensure_dataset.
  destruct (dataset_cache s) as [e|] eqn:E; [|by apply replace_ok].
  case_bool_decide as Hk; [|by apply replace_ok].
  split; [done|]. intros ? [= <-]. split; [|done]. by apply (ok_dataset s Hs).
Qed.

Lemma machine_ok s w t e seed :
  engine_ok s -> entry_built e -> de_key e = seed ->
  engine_ok (thread_machine s w t e seed).2
  /\ (forall vm, (thread_machine s w t e seed).1 = Ok vm -> machine_for seed vm).
Proof.
  intros Hs He <-. unfold thread_machine.
  set (fresh := match RandomXVM_new _ _ _ _ with Some _ => _ | None => _ end).
  assert (Hf : engine_ok fresh.2 /\ (forall vm, fresh.1 = Ok vm -> machine_for (de_key e) vm)).
  { unfold fresh. destruct Hs as [H1 H2 H3].
    destruct (RandomXVM_new w _ _ _) as [vm|] eqn:E; cbn.
    - assert (machine_for (de_key e) vm) by (do 4 eexists; split; [exact He|exact E]).
      split; [|by intros ? [= <-]]. split; [done|done|]. cbn.
      apply map_Forall_insert_2; [done|]. by apply map_Forall_delete.
    - split; [|done]. split; [done|done|]. cbn. by apply map_Forall_delete. }
  destruct (thread_vm s !! t) as [[key vm]|] eqn:E; [|done].
  case_bool_decide as Hk; [|done]. cbn. split; [done|]. intros ? [= <-]. subst key.
  by apply (ok_machines s Hs) in E.
Qed.

Lemma acquire_ok s w t now seed :
  engine_ok s -> engine_ok (acquire s w t now seed).2
  /\ (forall vm, (acquire s w t now seed).1 = Ok vm -> machine_for seed vm).
Proof.
  intros Hs. unfold acquire. destruct (in_backoff s now); [done|].
  destruct (ensure_ok s w seed now Hs) as [H1 H2].
  destruct (ensure_dataset s w seed now) as [[e|err] s']; [|done].
  destruct (H2 e eq_refl). by apply machine_ok.
Qed.

Lemma engine_apply_ok s o : engine_ok s -> engine_ok (engine_apply s o).
Proof.
  intros Hs. destruct o as [w t now seed x|w t now seed xs|seed|w seed|seed|t]; cbn.
  - unfold compute_hash. pose proof (acquire_ok s w t now seed Hs) as [H _].
    by destruct (acquire s w t now seed) as [[vm|e] s'].
  - unfold compute_hash_batch. pose proof (acquire_ok s w t now seed Hs) as [H _].
    destruct xs; [done|]. by destruct (acquire s w t now seed) as [[vm|e] s'].
  - unfold prewarm_claim. destruct (has_key _ _); [done|]. destruct (has_key _ _); [done|].
    destruct (prewarm_inflight s); [done|]. destruct Hs. by split.
  - unfold prewarm_build. destruct (create_dataset_entry _ _ w seed) as [e|] eqn:E; [|done].
    apply created_ok in E as [He _]. destruct Hs. split; cbn; auto.
  - unfold prewarm_release. case_bool_decide; [|done]. destruct Hs. by split.
  - destruct Hs as [H1 H2 H3]. split; cbn; [done|done|]. by apply map_Forall_delete.
Qed.

Lemma engine_run_ok ops : forall s, engine_ok s -> engine_ok (engine_run s ops).
Proof. induction ops as [|o ops IH]; intros s Hs; [done|]. by apply IH, engine_apply_ok. Qed.

Lemma engine_new_ok : engine_ok engine_new.
Proof. split; [done|done|apply map_Forall_empty]. Qed.

Lemma output_whole seed x : output_of (randomx seed x) = Ok (randomx seed x).
Proof. unfold output_of. by rewrite randomx_length, take_ge by (rewrite randomx_length; lia). Qed.

Lemma outputs_whole seed xs : outputs_of (randomx seed <$> xs) = Ok (randomx seed <$> xs).
Proof. induction xs as [|x xs IH]; [done|]. cbn. by rewrite output_whole, IH. Qed.

Lemma hash_sound s w t now seed x h :
  engine_ok s -> (compute_hash s w t now seed x).1 = Ok h -> h = randomx seed x.
Proof.
  intros Hs. unfold compute_hash. destruct (acquire_ok s w t now seed Hs) as [_ H].
  destruct (acquire s w t now seed) as [[vm|e] s']; [|done]. cbn.
  destruct (calculate_hash vm x) as [h'|] eqn:E; [|done].
  apply (machine_hash seed) in E as ->; [|by apply H]. rewrite output_whole. by intros [= <-].
Qed.

Lemma batch_sound s w t now seed xs hs :
  engine_ok s -> (compute_hash_batch s w t now seed xs).1 = Ok hs -> hs = randomx seed <$> xs.
Proof.
  intros Hs. unfold compute_hash_batch. destruct xs as [|x xs]; [by intros [= <-]|].
  destruct (acquire_ok s w t now seed Hs) as [_ H].
  destruct (acquire s w t now seed) as [[vm|e] s']; [|done]. cbn [fst].
  destruct (calculate_hash_set vm (x :: xs)) as [h'|] eqn:E; [|done].
  apply (machine_set seed) in E as ->; [|by apply H]. rewrite outputs_whole. by intros [= <-].
Qed.

(** The last tier needs no dataset. *)
Lemma works_builds w seed :
  works w -> is_Some (create_dataset_entry windows light w seed).
Proof.
  intros (Hc&_). unfold create_dataset_entry.
  assert (Hl : FLAG_DEFAULT ∈ tiers windows light)
    by (unfold tiers; destruct light; set_solver).
  induction (tiers windows light) as [|f l IH]; [set_solver|]. cbn.
  destruct (try_build_entry w f seed) as [e|] eqn:E; [done|].
  apply elem_of_cons in Hl as [<-|Hl]; [|by apply IH].
  unfold try_build_entry in E. destruct (Hc FLAG_DEFAULT seed) as [c Ec].
  by rewrite Ec, default_is_light in E.
Qed.

Lemma hash_available s w t now seed x :
  engine_ok s -> works w -> retry_after s <= now ->
  (compute_hash s w t now seed x).1 = Ok (randomx seed x).
Proof.
  intros Hs Hw Hr. destruct (compute_hash s w t now seed x).1 as [h|err] eqn:E;
    [f_equal; by eapply hash_sound|exfalso].
  assert (Ha : exists vm, (acquire s w t now seed).1 = Ok vm).
  { unfold acquire, in_backoff. destruct (Z.ltb_spec now (retry_after s)); [lia|].
    rewrite andb_false_r.
    assert (He : exists e, (ensure_dataset s w seed now).1 = Ok e).
    { unfold ensure_dataset, replace_dataset, build_dataset.
      destruct (works_builds w seed Hw) as [e ->].
      repeat (case_match; cbn; eauto). }
    destruct He as [e He]. destruct (ensure_dataset s w seed now) as [r s']. cbn in He. subst r.
    unfold thread_machine. destruct Hw as (_&Hv&_).
    destruct (Hv (de_flags e) (de_cache e) (de_dataset e)) as [vm ->].
    repeat (case_match; cbn; eauto). }
  destruct Ha as [vm Ha]. revert E. unfold compute_hash.
  destruct (acquire_ok s w t now seed Hs) as [_ Hm].
  destruct (acquire s w t now seed) as [r s']. cbn in Ha, Hm. subst r. cbn.
  destruct Hw as (_&_&Hh). destruct (Hh vm x) as [h Eh]. rewrite Eh.
  apply (machine_hash seed) in Eh as ->; [|by apply Hm]. by rewrite output_whole.
Qed.

(** Consensus safety of the engine: after any interleaving of hashing threads,
    epoch changes, prewarming and cleared caches, an answer is the RandomX hash
    of exactly the seed and input asked for, single or in a batch; and when the
    library can allocate and no back-off is running there is an answer. *)
Theorem engine_hashes_for_seed ops w t now seed x xs :
  let s := engine_run engine_new ops in
  (forall h, (compute_hash s w t now seed x).1 = Ok h -> h = randomx seed x)
  /\ (forall hs, (compute_hash_batch s w t now seed xs).1 = Ok hs -> hs = randomx seed <$> xs)
  /\ (works w -> retry_after s <= now ->
      (compute_hash s w t now seed x).1 = Ok (randomx seed x)).
Proof.
  intros s. assert (Hs : engine_ok s) by apply engine_run_ok, engine_new_ok.
  split_and!; [intros h; by apply hash_sound|intros hs; by apply batch_sound|by apply hash_available].
Qed.

(** A build that fails for one seed stops the engine for a minute: hashes
    under the live seed, answered until then, are refused too. *)
Theorem failed_build_blocks_live ops w w' t now now' live seed x y :
  let s := engine_run engine_new ops in
  has_key (dataset_cache s) live = true -> retry_after s = 0 -> works w' -> seed <> live ->
  has_key (prewarm_cache s) seed = false -> create_dataset_entry windows light w seed = None ->
  0 <= now <= now' -> now' < now + 60 -> now + 60 <= u64_max ->
  (compute_hash s w' t now' live x).1 = Ok (randomx live x)
  /\ (compute_hash (compute_hash s w t now seed y).2 w' t now' live x).1
     = Err (Backoff (now + 60 - now')).
Proof.
  intros s Hl Hr Hw Hd Hp Hc Hn Hn' Hm.
  assert (Hs : engine_ok s) by apply engine_run_ok, engine_new_ok.
  split; [apply hash_available; [done|done|lia]|].
  assert (E : (compute_hash s w t now seed y).2 = set_retry s (now + 60)).
  { unfold compute_hash, acquire, in_backoff. rewrite Hr, Z.eqb_refl. cbn [negb andb].
    unfold ensure_dataset, replace_dataset, build_dataset. rewrite Hc.
    rewrite wrap64_small by word_lia.
    destruct (dataset_cache s) as [d|]; [|done]. cbn in Hl. apply bool_decide_eq_true in Hl.
    rewrite bool_decide_eq_false_2 by congruence.
    destruct (prewarm_cache s) as [p|]; [|done]. cbn in Hp. by rewrite Hp. }
  rewrite E. unfold compute_hash, acquire, in_backoff. cbn [retry_after set_retry set_dataset].
  destruct (Z.eqb_spec (now + 60) 0); [lia|]. destruct (Z.ltb_spec now' (now + 60)); [done|lia].
Qed.
End engine.

(** ** Verification *)

Section verification.
Context `{RL : RandomXLib} {randomx : Hash -> list Z -> list Z} `{!RandomXLaws randomx}.
Context (windows light : bool) (genesis : list Z) (blake3 : list Z -> Hash).

(** The reference: no caches, no engine. *)
Definition pow_verdict (prev : Hash) (height timestamp nonce : Z) (tx_root target claimed : Hash)
    (algo : Z) : result PowVerifyError unit :=
  let anchor := mixed_hash (fresh_anchor blake3 (prev, height, timestamp)) in
  let hash := randomx (randomx_key_for_height blake3 genesis height)
                (pow_input blake3 anchor nonce tx_root) in
  if negb (bool_decide (anchor = claimed)) then Err (AnchorMismatch anchor claimed)
  else if negb (0 =? algo) then Err (AlgorithmMismatch 0 algo)
  else if negb (meets_difficulty hash target) then Err (TargetNotMet hash target)
  else Ok tt.

(** The two checks before any hashing. *)
Definition pow_claims (prev : Hash) (height timestamp : Z) (claimed : Hash) (algo : Z) : Prop :=
  mixed_hash (fresh_anchor blake3 (prev, height, timestamp)) = claimed /\ algo = 0.

(** C40: With the feature enabled, whatever the history of the two caches and the state of
    the library, [verify_pow] answers as the reference or, the anchor and the
    algorithm being right, with an error of the engine: it never accepts what the
    reference refuses.  It answers as the reference whenever the library can allocate
    ([works]) and no back-off is running; during the minute of back-off after a failed
    build it refuses every block with the right anchor and algorithm, valid ones
    included. *)
Theorem verify_pow_exact keys ops w t now prev h ts nonce root target claimed algo :
  let c := seq_run blake3 Seq.new keys in
  let s := engine_run windows light engine_new ops in
  let r := (verify_pow windows light true genesis blake3 c s w t now prev h ts nonce root target
              claimed algo).1.1 in
  let reference := pow_verdict prev h ts nonce root target claimed algo in
  (r = reference \/ pow_claims prev h ts claimed algo /\ exists e, r = Err (EngineError e))
  /\ (works w -> retry_after s <= now -> r = reference)
  /\ (pow_claims prev h ts claimed algo -> 0 < retry_after s -> now < retry_after s ->
      r = Err (EngineError (Backoff (retry_after s - now)))).
Proof.
  intros c s r reference. assert (Hc : seq_ok blake3 c) by apply run_seq, new_seq.
  assert (Hs : engine_ok s) by apply engine_run_ok, engine_new_ok.
  destruct (full_anchor_fresh blake3 c prev h ts Hc) as [Ha _].
  unfold r, reference, verify_pow, pow_verdict, pow_claims. clear r reference. clearbody s.
  destruct (compute_full_anchor blake3 c prev h ts) as [a c'].
  cbn [fst] in Ha. subst a. case_bool_decide as Hcl; cbn [negb fst];
    [|split_and!; [by left|done|by intros [? _]]].
  change (algorithm_index (an_algorithm _)) with 0.
  destruct (Z.eqb_spec 0 algo) as [Hal|Hal]; cbn [negb fst]; [|split_and!; [by left|done|intros [_ ->]; done]].
  unfold compute_pow_hash. set (seed := randomx_key_for_height blake3 genesis h).
  set (x := pow_input _ _ _ _).
  pose proof (hash_available windows light s w t now seed x Hs) as Hv.
  pose proof (hash_sound windows light s w t now seed x) as Hso.
  assert (Hbo : 0 < retry_after s -> now < retry_after s ->
    (compute_hash windows light s w t now seed x).1 = Err (Backoff (retry_after s - now))).
  { intros H0 Hn. unfold compute_hash, acquire, in_backoff.
    destruct (Z.eqb_spec (retry_after s) 0); [lia|]. by destruct (Z.ltb_spec now (retry_after s)); [|lia]. }
  destruct (compute_hash _ _ _ _ _ _ _ _) as [[y|e] s']; cbn [fst] in *.
  - assert (y = randomx seed x) as -> by by apply Hso.
    split_and!; [left; by destruct (negb (meets_difficulty _ _))
                |intros _ _; by destruct (negb (meets_difficulty _ _))|].
    intros _ H0 Hn. by specialize (Hbo H0 Hn).
  - split_and!; [right; eauto|intros Hw Hr; by specialize (Hv Hw Hr)|].
    intros _ H0 Hn. by injection (Hbo H0 Hn) as ->.
Qed.
End verification.

(** ** Witnesses

    A toy library whose machine is the key; it can allocate exactly when the
    world says so. *)

#[export] Instance toy_lib : RandomXLib := {|
  World := bool;
  RandomXCache := Hash;
  RandomXDataset := Hash;
  RandomXVM := Hash;
  FLAG_DEFAULT := 0;
  FLAG_FULL_MEM := 4;
  FLAG_JIT := 8;
  FLAG_SECURE := 16;
  get_recommended_flags := 10;
  RandomXCache_new w _ key := if w then Some key else None;
  RandomXDataset_new w _ cache := Some cache;
  RandomXVM_new w _ cache _ := cache;
  calculate_hash vm x := Some (take 32 (vm ++ x ++ replicate 32 0));
  calculate_hash_set vm xs := Some ((fun x => take 32 (vm ++ x ++ replicate 32 0)) <$> xs);
|}.

Definition toy_randomx (key : Hash) (x : list Z) : list Z := take 32 (key ++ x ++ replicate 32 0).

Lemma toy_machine key vm : machine_for key vm -> vm = key.
Proof. intros (w&fl&c&ds&[[w' E] _]&Ev). cbn in *. destruct w'; naive_solver. Qed.

#[export] Instance toy_laws : RandomXLaws toy_randomx.
Proof.
  split.
  - intros key vm x h ->%toy_machine [= <-]. done.
  - intros key vm xs hs ->%toy_machine [= <-]. done.
  - intros key x. unfold toy_randomx. rewrite length_take, !length_app, length_replicate. lia.
  - done.
Qed.

Lemma toy_works : works (RL := toy_lib) true.
Proof. split_and!; intros; by eexists. Qed.

Definition toy_hashed : engine_op (RL := toy_lib) := EHash true 0 5 [1] [].

(** One seed is live, the next one cannot be built, the live one is refused. *)
Lemma failed_build_blocks_live_witness :
  (compute_hash false false
     (compute_hash false false (engine_run false false engine_new [toy_hashed]) false 0 100 [2] []).2
     true 0 130 [1] []).1 = Err (Backoff 30).
Proof.
  destruct (failed_build_blocks_live (randomx := toy_randomx) false false [toy_hashed] false true
    0 100 130 [1] [2] [] []) as [_ H]; [reflexivity|reflexivity|apply toy_works|discriminate
    |reflexivity|reflexivity|lia|lia|unfold u64_max; lia|exact H].
Defined.

(** A valid block is accepted; a failed build later it is refused for a minute. *)
Definition toy_failed : engine_op (RL := toy_lib) := EHash false 0 100 [2] [].

Lemma verify_pow_exact_witness :
  let answer ops now := (verify_pow false false true [9] (fun x => x)
    (seq_run (fun x => x) Seq.new [([7], 3, 4)]) (engine_run false false engine_new ops) true 0 now
    [7] 3 4 11 [5] (replicate 32 255) (mixed_hash (fresh_anchor (fun x => x) ([7], 3, 4))) 0).1.1 in
  answer [toy_hashed] 100 = Ok tt
  /\ answer [toy_hashed; toy_failed] 130 = Err (EngineError (Backoff 30)).
Proof.
  intros answer. split.
  - unfold answer. rewrite (proj1 (proj2 (verify_pow_exact (randomx := toy_randomx) false false [9]
      (fun x => x) [([7], 3, 4)] [toy_hashed] true 0 100 [7] 3 4 11 [5] (replicate 32 255)
      (mixed_hash (fresh_anchor (fun x => x) ([7], 3, 4))) 0)));
      [vm_compute; reflexivity|apply toy_works|vm_compute; discriminate].
  - unfold answer. rewrite (proj2 (proj2 (verify_pow_exact (randomx := toy_randomx) false false [9]
      (fun x => x) [([7], 3, 4)] [toy_hashed; toy_failed] true 0 130 [7] 3 4 11 [5]
      (replicate 32 255) (mixed_hash (fresh_anchor (fun x => x) ([7], 3, 4))) 0)));
      [vm_compute; reflexivity|by split|vm_compute; reflexivity..].
Defined.

(** The next key is prewarmed and then used by another thread. *)
Definition toy_epoch : list (engine_op (RL := toy_lib)) :=
  [toy_hashed; EClaim [2]; EBuild (RL := toy_lib) true [2]; ERelease [2]].

Lemma engine_hashes_for_seed_witness :
  (compute_hash false false (engine_run false false engine_new toy_epoch) true 1 100 [2] [3]).1
  = Ok (toy_randomx [2] [3]).
Proof.
  apply (engine_hashes_for_seed (randomx := toy_randomx) false false toy_epoch true 1 100 [2] [3] []);
    [apply toy_works|vm_compute; discriminate].
Defined.
