(* ===== verification/RollingFinality.v ===== *)
(** * Rolling finality ([crates/coincync-rolling-finality] and
      [src/consensus/rolling_finality.rs])

    The active miner set, the attestation tracker, the wire codec and the
    adapter the node drives with accepted blocks.  Signature verification is
    the trait [AttestationVerifier], a class here; Borsh is third-party code
    and the pair [to_vec]/[try_from_slice] is an argument of the codec with
    its round-trip law as a hypothesis. *)

From stdpp Require Import prelude gmap strings sorting.
From Stdlib Require Import ZArith Lia.
From S2P Require Import Prelude Difficulty Block ForkChoice.

Local Open Scope Z_scope.

(** ** Types ([types.rs], [error.rs]) *)

Definition MinerPubkey : Type := list Z.
Definition BlockHash : Type := list Z.
Definition SIGNATURE_LEN : Z := 64.

Record FinalityAttestation := mkAttestation {
  a_miner_pubkey : MinerPubkey;
  target_height : Z;
  target_hash : BlockHash;
  a_signature : list Z;
}.

(** [b"CYNC.CIP-009-D.\0"] is the domain prefix. *)
Definition ATTESTATION_DOMAIN : list Z := ascii_bytes "CYNC.CIP-009-D." ++ [0].

Definition signing_bytes (a : FinalityAttestation) : list Z :=
  ATTESTATION_DOMAIN ++ le_bytes 8 (target_height a) ++ target_hash a.

Inductive FinalityError :=
| InvalidSignature
| MinerNotActive (height : Z)
| StaleTarget (target_height earliest_accepted : Z)
| FutureTarget (target_height tracker_tip : Z)
| DuplicateAttestation (target_height : Z).

Inductive ApplyOutcome := Accepted | NewlyFinalized (height : Z) (hash : BlockHash).

Class AttestationVerifier (V : Type) := verify : V -> FinalityAttestation -> bool.

Inductive NoopVerifier := noop_verifier.
#[export] Instance NoopVerifier_verify : AttestationVerifier NoopVerifier :=
  fun _ _ => true.
Inductive RejectAllVerifier := reject_all_verifier.
#[export] Instance RejectAllVerifier_verify : AttestationVerifier RejectAllVerifier :=
  fun _ _ => false.

(** ** The active miner set ([active_set.rs]) *)

Record MinerRecord := mkMinerRecord {
  first_seen_height : Z;
  last_seen_height : Z;
}.

Record ActiveMinerSet := mkActiveMinerSet {
  miners : gmap MinerPubkey MinerRecord;
  window : Z;
}.

(** [None] is the assertion [window > 0] failing. *)
Definition ActiveMinerSet_new (w : Z) : option ActiveMinerSet :=
  if 0 <? w then Some (mkActiveMinerSet ∅ w) else None.

Definition set_record_block (s : ActiveMinerSet) (miner : MinerPubkey) (height : Z)
  : ActiveMinerSet :=
  match miners s !! miner with
  | Some r =>
      if last_seen_height r <? height then
        mkActiveMinerSet
          (<[miner := mkMinerRecord (first_seen_height r) height]> (miners s)) (window s)
      else s
  | None => mkActiveMinerSet (<[miner := mkMinerRecord height height]> (miners s)) (window s)
  end.

Definition is_active_record (r : MinerRecord) (at_height window : Z) : bool :=
  if at_height <? first_seen_height r then false
  else if at_height - first_seen_height r <? window then true
  else if (last_seen_height r <=? at_height)
          && (at_height - last_seen_height r <? window) then true
  else false.

Definition is_active (s : ActiveMinerSet) (miner : MinerPubkey) (at_height : Z) : bool :=
  match miners s !! miner with
  | Some r => is_active_record r at_height (window s)
  | None => false
  end.

Definition active_map (s : ActiveMinerSet) (at_height : Z) : gmap MinerPubkey MinerRecord :=
  filter (fun kv => is_active_record kv.2 at_height (window s) = true) (miners s).

Definition active_count (s : ActiveMinerSet) (at_height : Z) : Z :=
  Z.of_nat (size (active_map s at_height)).

Definition active_miners (s : ActiveMinerSet) (at_height : Z) : gset MinerPubkey :=
  dom (active_map s at_height).

Definition total_count (s : ActiveMinerSet) : Z := Z.of_nat (size (miners s)).

(** ** The tracker ([finality.rs]) *)

Definition DEFAULT_WINDOW : Z := 10000.
Definition DEFAULT_LAG : Z := 100.
Definition DEFAULT_MIN_QUORUM : Z := 5.
Definition DEFAULT_STALE_HORIZON : Z := 10000.

Record FinalityTracker := mkTracker {
  min_quorum : Z;
  lag : Z;
  stale_horizon : Z;
  active_set : ActiveMinerSet;
  chain_tip : Z;
  attestations : gmap Z (gmap BlockHash (gset MinerPubkey));
  soft_final_height : option Z;
  total_recorded : Z;
}.

Definition with_params (w lag min_quorum stale : Z) : option FinalityTracker :=
  s ← ActiveMinerSet_new w;
  Some (mkTracker min_quorum lag stale s 0 ∅ None 0).

Definition new_default : option FinalityTracker :=
  s ← ActiveMinerSet_new DEFAULT_WINDOW;
  Some (mkTracker DEFAULT_MIN_QUORUM DEFAULT_LAG DEFAULT_STALE_HORIZON s 0 ∅ None 0).

(** [split_off(&earliest_keep)], keeping the upper part. *)
Definition prune_stale_attestations (t : FinalityTracker) : FinalityTracker :=
  let earliest_keep := sat_sub (chain_tip t) (stale_horizon t) in
  mkTracker (min_quorum t) (lag t) (stale_horizon t) (active_set t) (chain_tip t)
    (filter (fun kv => earliest_keep <= kv.1) (attestations t))
    (soft_final_height t) (total_recorded t).

Definition record_block (t : FinalityTracker) (miner : MinerPubkey) (block_height : Z)
  : FinalityTracker :=
  let s := set_record_block (active_set t) miner block_height in
  let t1 tip := mkTracker (min_quorum t) (lag t) (stale_horizon t) s tip
                  (attestations t) (soft_final_height t) (total_recorded t) in
  if chain_tip t <? block_height then prune_stale_attestations (t1 block_height)
  else t1 (chain_tip t).

Definition ceil_two_thirds (n : Z) : Z :=
  sat_add u64_max (sat_mul u64_max n 2) 2 / 3.

Definition set_attestations (t : FinalityTracker)
    (m : gmap Z (gmap BlockHash (gset MinerPubkey))) (n : Z) : FinalityTracker :=
  mkTracker (min_quorum t) (lag t) (stale_horizon t) (active_set t) (chain_tip t) m
    (soft_final_height t) n.

Definition set_soft_final (t : FinalityTracker) (h : Z) : FinalityTracker :=
  mkTracker (min_quorum t) (lag t) (stale_horizon t) (active_set t) (chain_tip t)
    (attestations t) (Some h) (total_recorded t).

Definition signers (t : FinalityTracker) (h : Z) (hash : BlockHash) : gset MinerPubkey :=
  default ∅ (default ∅ (attestations t !! h) !! hash).

Definition advances (current : option Z) (h : Z) : bool :=
  match current with Some c => c <? h | None => true end.

Definition apply_attestation {V} `{AttestationVerifier V} (t : FinalityTracker)
    (a : FinalityAttestation) (v : V)
  : FinalityTracker * result FinalityError ApplyOutcome :=
  let h := target_height a in
  let pk := a_miner_pubkey a in
  if negb (verify v a) then (t, Err InvalidSignature)
  else if chain_tip t <? h then (t, Err (FutureTarget h (chain_tip t)))
  else
    let earliest_accepted := sat_sub (chain_tip t) (stale_horizon t) in
    if h <? earliest_accepted then (t, Err (StaleTarget h earliest_accepted))
    else if negb (is_active (active_set t) pk h) then (t, Err (MinerNotActive h))
    else
      let height_entry := default ∅ (attestations t !! h) in
      let hash_entry := default ∅ (height_entry !! target_hash a) in
      let put s := <[h := <[target_hash a := s]> height_entry]> (attestations t) in
      if bool_decide (pk ∈ hash_entry) then
        (set_attestations t (put hash_entry) (total_recorded t), Err (DuplicateAttestation h))
      else
        let hash_entry := {[pk]} ∪ hash_entry in
        let t := set_attestations t (put hash_entry) (wrap64 (total_recorded t + 1)) in
        let count := active_count (active_set t) h in
        if count <? min_quorum t then (t, Ok Accepted)
        else
          let threshold := ceil_two_thirds count in
          let signer_count := Z.of_nat (size hash_entry) in
          if (threshold <=? signer_count) && advances (soft_final_height t) h then
            (set_soft_final t h, Ok (NewlyFinalized h (target_hash a)))
          else (t, Ok Accepted).

Definition tracker_would_reorg_violate_finality (t : FinalityTracker) (fork_height : Z)
  : bool :=
  match soft_final_height t with Some s => fork_height <=? s | None => false end.

Record FinalityStats := mkStats {
  current_chain_tip : Z;
  s_soft_final_height : option Z;
  active_miner_count : Z;
  total_miner_count : Z;
  total_attestations_recorded : Z;
  s_min_quorum : Z;
  s_lag : Z;
  s_window : Z;
}.

Definition stats (t : FinalityTracker) : FinalityStats :=
  mkStats (chain_tip t) (soft_final_height t) (active_count (active_set t) (chain_tip t))
    (total_count (active_set t)) (total_recorded t) (min_quorum t) (lag t)
    (window (active_set t)).

Definition signer_count (t : FinalityTracker) (h : Z) (hash : BlockHash) : Z :=
  Z.of_nat (size (signers t h hash)).

(** ** The wire codec ([codec.rs]) *)

Definition WIRE_MAGIC : list Z := ascii_bytes "CIP9".
Definition WIRE_VERSION : Z := 1.

Inductive WireError :=
| TooShort | BadMagic | UnknownVersion (v : Z) | BorshDecode
| WrongSignatureLength (expected actual : Z).

(** The wire struct has the fields of [FinalityAttestation], in order. *)
Record WireAttestation := mkWire {
  w_miner_pubkey : list Z;
  w_target_height : Z;
  w_target_hash : list Z;
  w_signature : list Z;
}.

Definition to_wire (a : FinalityAttestation) : WireAttestation :=
  mkWire (a_miner_pubkey a) (target_height a) (target_hash a) (a_signature a).
Definition from_wire (w : WireAttestation) : FinalityAttestation :=
  mkAttestation (w_miner_pubkey w) (w_target_height w) (w_target_hash w) (w_signature w).

(** [extra.windows(4).position(|w| w == WIRE_MAGIC).map(|o| &extra[o..])] *)
Fixpoint find_magic (extra : list Z) : option (list Z) :=
  if bool_decide (take 4 extra = WIRE_MAGIC) then Some extra
  else match extra with
  | [] => None
  | _ :: rest => find_magic rest
  end.

Definition find_attestation (extra : list Z) : option (list Z) :=
  if (length extra <? length WIRE_MAGIC)%nat then None else find_magic extra.

Inductive OnBlockOutcome :=
| NoAttestation
| Malformed (e : WireError)
| Rejected (e : FinalityError)
| Recorded
| BlockFinalized (height : Z) (hash : BlockHash).

Section codec.
Context (to_vec : WireAttestation -> list Z)
  (try_from_slice : list Z -> option WireAttestation).

Definition encode (a : FinalityAttestation) : list Z :=
  WIRE_MAGIC ++ [WIRE_VERSION] ++ to_vec (to_wire a).

Definition decode (bytes : list Z) : result WireError FinalityAttestation :=
  if (length bytes <? length WIRE_MAGIC + 1)%nat then Err TooShort
  else if negb (bool_decide (take 4 bytes = WIRE_MAGIC)) then Err BadMagic
  else match drop 4 bytes with
  | [] => Err TooShort
  | version :: body =>
      if negb (version =? WIRE_VERSION) then Err (UnknownVersion version)
      else match try_from_slice body with
      | None => Err BorshDecode
      | Some w =>
          let n := Z.of_nat (length (w_signature w)) in
          if negb (n =? SIGNATURE_LEN) then Err (WrongSignatureLength SIGNATURE_LEN n)
          else Ok (from_wire w)
      end
  end.

(** ** The adapter ([src/consensus/rolling_finality.rs]) *)

Context {V : Type} `{!AttestationVerifier V} (verifier : V).

Definition on_accepted_block (t : FinalityTracker) (block_height : Z)
    (coinbase_extra : list Z) : FinalityTracker * OnBlockOutcome :=
  match find_attestation coinbase_extra with
  | None => (t, NoAttestation)
  | Some bytes =>
      match decode bytes with
      | Err e => (t, Malformed e)
      | Ok a =>
          let t := record_block t (a_miner_pubkey a) block_height in
          let '(t, r) := apply_attestation t a verifier in
          (t, match r with
              | Ok Accepted => Recorded
              | Ok (NewlyFinalized h hash) => BlockFinalized h hash
              | Err e => Rejected e
              end)
      end
  end.
End codec.

(** The adapter is what the reorg rule consults. *)
#[export] Instance tracker_gate : FinalityGate FinalityTracker.
Proof.
  refine {| would_reorg_violate := tracker_would_reorg_violate_finality;
            current_soft_final := soft_final_height |}.
  intros t fp. unfold tracker_would_reorg_violate_finality.
  destruct (soft_final_height t) as [s|]; split.
  - intros H. exists s. split; [done|lia].
  - intros (s'&[= <-]&H). lia.
  - done.
  - by intros (?&?&_).
Defined.

(** ** The active set against the block log *)

(** The blocks recorded so far, oldest first. *)
Definition log_set (w : Z) (log : list (MinerPubkey * Z)) : ActiveMinerSet :=
  foldl (fun s '(m, h) => set_record_block s m h) (mkActiveMinerSet ∅ w) log.

Section active_set.
Implicit Types (s : ActiveMinerSet) (m : MinerPubkey) (h : Z).

Lemma set_record_window s m h : window (set_record_block s m h) = window s.
Proof. unfold set_record_block. by repeat case_match. Qed.

Lemma set_record_ne s m m' h :
  m <> m' -> miners (set_record_block s m h) !! m' = miners s !! m'.
Proof. intros. unfold set_record_block. by repeat case_match; cbn; rewrite ?lookup_insert_ne. Qed.

Lemma set_record_eq s m h :
  miners (set_record_block s m h) !! m =
    Some (match miners s !! m with
          | Some r => mkMinerRecord (first_seen_height r) (Z.max (last_seen_height r) h)
          | None => mkMinerRecord h h
          end).
Proof.
  unfold set_record_block. destruct (miners s !! m) as [[f l]|] eqn:E; cbn;
    [|by rewrite lookup_insert_eq].
  destruct (Z.ltb_spec l h); cbn; rewrite ?lookup_insert_eq, ?E;
    do 2 f_equal; cbn; lia.
Qed.

(** Both heights of a record are heights of blocks in the log. *)
Lemma log_records w log m r :
  miners (log_set w log) !! m = Some r ->
  (m, first_seen_height r) ∈ log /\ (m, last_seen_height r) ∈ log.
Proof.
  unfold log_set. revert r. induction log as [|[m' h] log IH] using rev_ind; intros r.
  { cbn. by rewrite lookup_empty. }
  rewrite foldl_app. cbn [foldl].
  destruct (decide (m' = m)) as [->|Hne].
  - rewrite set_record_eq. intros [= <-].
    destruct (miners (foldl _ _ log) !! m) as [r0|] eqn:E; cbn.
    + destruct (IH r0 eq_refl) as [I1 I2]. split; [set_solver|].
      destruct (Z.max_spec (last_seen_height r0) h) as [[_ ->]|[_ ->]]; set_solver.
    + set_solver.
  - rewrite set_record_ne by done. intros H. destruct (IH _ H). set_solver.
Qed.

Lemma log_window w log : window (log_set w log) = w.
Proof.
  unfold log_set. induction log as [|[m h] log IH] using rev_ind; [done|].
  rewrite foldl_app. cbn [foldl]. by rewrite set_record_window.
Qed.

Lemma active_elem s m h : m ∈ active_miners s h <-> is_active s m h = true.
Proof.
  unfold active_miners, active_map, is_active. rewrite elem_of_dom. split.
  - intros [r Hr]. apply map_lookup_filter_Some in Hr as [-> H]. done.
  - destruct (miners s !! m) as [r|] eqn:E; [|done]. intros H. exists r.
    by apply map_lookup_filter_Some.
Qed.

Lemma active_count_size s h : active_count s h = Z.of_nat (size (active_miners s h)).
Proof. unfold active_count, active_miners. by rewrite size_dom. Qed.
End active_set.

(** ** The tracker *)

(** What holds of every tracker the node can reach. *)
Record tracker_wf (t : FinalityTracker) : Prop := {
  wf_targets : forall h e, attestations t !! h = Some e ->
    sat_sub (chain_tip t) (stale_horizon t) <= h <= chain_tip t;
  wf_signers : forall h hash m, m ∈ signers t h hash -> is_Some (miners (active_set t) !! m);
  wf_soft : forall s, soft_final_height t = Some s -> s <= chain_tip t;
  wf_tip : 0 <= chain_tip t;
}.

Section tracker.
Context {V : Type} `{!AttestationVerifier V} (v : V).
Implicit Types (t : FinalityTracker) (a : FinalityAttestation).

Lemma set_attestations_id t : set_attestations t (attestations t) (total_recorded t) = t.
Proof. by destruct t. Qed.

Lemma put_same t h hash m :
  m ∈ signers t h hash ->
  <[h := <[hash := signers t h hash]> (default ∅ (attestations t !! h))]> (attestations t)
  = attestations t.
Proof.
  unfold signers. destruct (attestations t !! h) as [e|] eqn:E; cbn.
  - destruct (e !! hash) as [s|] eqn:E2; cbn; [|set_solver]. intros _.
    apply insert_id. by rewrite (insert_id e).
  - rewrite lookup_empty. set_solver.
Qed.

(** The state after an accepted attestation, before the quorum test. *)
Definition recorded t a : FinalityTracker :=
  set_attestations t
    (<[target_height a :=
       <[target_hash a :=
          {[a_miner_pubkey a]} ∪ signers t (target_height a) (target_hash a)]>
       (default ∅ (attestations t !! target_height a))]> (attestations t))
    (wrap64 (total_recorded t + 1)).

(** Everything [apply_attestation] can do. *)
Lemma apply_cases t a t' r :
  apply_attestation t a v = (t', r) ->
  (exists e, r = Err e /\ t' = t)
  \/ (verify v a = true
      /\ (sat_sub (chain_tip t) (stale_horizon t) <= target_height a <= chain_tip t)
      /\ is_active (active_set t) (a_miner_pubkey a) (target_height a) = true
      /\ (a_miner_pubkey a ∉ signers t (target_height a) (target_hash a))
      /\ ((r = Ok Accepted /\ t' = recorded t a)
          \/ (r = Ok (NewlyFinalized (target_height a) (target_hash a))
              /\ t' = set_soft_final (recorded t a) (target_height a)
              /\ min_quorum t <= active_count (active_set t) (target_height a)
              /\ ceil_two_thirds (active_count (active_set t) (target_height a))
                 <= Z.of_nat (size ({[a_miner_pubkey a]} ∪
                                    signers t (target_height a) (target_hash a)))
              /\ advances (soft_final_height t) (target_height a) = true))).
Proof.
  unfold apply_attestation. cbv zeta.
  destruct (verify v a); cbn [negb]; [|intros [= <- <-]; left; by eexists].
  destruct (Z.ltb_spec (chain_tip t) (target_height a)); [intros [= <- <-]; left; by eexists|].
  destruct (Z.ltb_spec (target_height a) (sat_sub (chain_tip t) (stale_horizon t)));
    [intros [= <- <-]; left; by eexists|].
  destruct (is_active (active_set t) (a_miner_pubkey a) (target_height a)) eqn:Ha; cbn [negb];
    [|intros [= <- <-]; left; by eexists].
  fold (signers t (target_height a) (target_hash a)).
  case_bool_decide as Hin.
  - intros [= <- <-]. left. eexists. split; [done|].
    rewrite (put_same t _ _ _ Hin). apply set_attestations_id.
  - fold (recorded t a). change (active_set (recorded t a)) with (active_set t).
    change (min_quorum (recorded t a)) with (min_quorum t).
    change (soft_final_height (recorded t a)) with (soft_final_height t).
    intros Heq. right. split_and!; try done.
    destruct (Z.ltb_spec (active_count (active_set t) (target_height a)) (min_quorum t));
      [left; by injection Heq as <- <-|].
    destruct (Z.leb_spec (ceil_two_thirds (active_count (active_set t) (target_height a)))
      (Z.of_nat (size ({[a_miner_pubkey a]} ∪ signers t (target_height a) (target_hash a)))));
      destruct (advances (soft_final_height t) (target_height a)) eqn:Hadv; cbn in Heq;
      injection Heq as <- <-; auto 10.
Qed.

Lemma signers_recorded t a h hash :
  signers (recorded t a) h hash =
    if decide (h = target_height a /\ hash = target_hash a)
    then {[a_miner_pubkey a]} ∪ signers t h hash else signers t h hash.
Proof.
  unfold signers, recorded; cbn. destruct (decide (h = target_height a)) as [->|Hh].
  - rewrite lookup_insert_eq. cbn.
    destruct (decide (hash = target_hash a)) as [->|Hk].
    + rewrite lookup_insert_eq, decide_True by done. done.
    + rewrite lookup_insert_ne, decide_False by naive_solver. done.
  - rewrite lookup_insert_ne, decide_False by naive_solver. done.
Qed.

Lemma is_active_known s m h : is_active s m h = true -> is_Some (miners s !! m).
Proof. unfold is_active. destruct (miners s !! m); [by eexists|done]. Qed.

Lemma recorded_wf t a :
  tracker_wf t ->
  sat_sub (chain_tip t) (stale_horizon t) <= target_height a <= chain_tip t ->
  is_active (active_set t) (a_miner_pubkey a) (target_height a) = true ->
  tracker_wf (recorded t a).
Proof.
  intros [H1 H2 H3 H4] Ht Ha. split; try done.
  - intros h e. cbn. destruct (decide (target_height a = h)) as [<-|];
      rewrite ?lookup_insert_eq, ?lookup_insert_ne by done; [done|apply H1].
  - intros h hash m. rewrite signers_recorded. case_decide; [|apply H2].
    intros [->%elem_of_singleton|Hm]%elem_of_union; [by eapply is_active_known|by eapply H2].
Qed.

Lemma apply_wf t a t' r : tracker_wf t -> apply_attestation t a v = (t', r) -> tracker_wf t'.
Proof.
  intros Hw H. apply apply_cases in H as
    [(e&_&->)|(_&Ht&Ha&_&[[_ ->]|(_&->&_)])]; [done|by apply recorded_wf|].
  destruct (recorded_wf t a Hw Ht Ha) as [H1 H2 H3 H4]. split; try done.
  intros s [= <-]. cbn. lia.
Qed.

Lemma prune_signers t h hash :
  signers (prune_stale_attestations t) h hash =
    if decide (sat_sub (chain_tip t) (stale_horizon t) <= h) then signers t h hash else ∅.
Proof.
  unfold signers, prune_stale_attestations; cbn. case_decide as Hh.
  - destruct (attestations t !! h) as [e|] eqn:E.
    + by rewrite (map_lookup_filter_Some_2 _ _ _ _ E).
    + by rewrite map_lookup_filter_None_2 by (left; done).
  - rewrite map_lookup_filter_None_2; [done|]. right. intros e _. done.
Qed.

Lemma record_wf t m h : tracker_wf t -> tracker_wf (record_block t m h).
Proof.
  intros [H1 H2 H3 H4].
  assert (Hk : forall m', is_Some (miners (active_set t) !! m') ->
    is_Some (miners (set_record_block (active_set t) m h) !! m')).
  { intros m' Hm'. destruct (decide (m = m')) as [<-|];
      [rewrite set_record_eq; by eexists|by rewrite set_record_ne]. }
  unfold record_block. cbv zeta. destruct (Z.ltb_spec (chain_tip t) h) as [Hlt|Hge].
  - split; cbn.
    + intros k e [He Hke]%map_lookup_filter_Some. cbn in Hke. apply H1 in He. lia.
    + intros k hash m' Hm'. rewrite prune_signers in Hm'. case_decide; [|set_solver].
      apply Hk. by eapply H2.
    + intros s Hs. apply H3 in Hs. lia.
    + lia.
  - split; cbn; try done. intros k hash m' Hm'. apply Hk. by eapply H2.
Qed.
End tracker.

(** ** Runs of the tracker *)

Inductive tracker_op :=
| OpRecord (miner : MinerPubkey) (height : Z)
| OpApply (a : FinalityAttestation).

Section runs.
Context {V : Type} `{!AttestationVerifier V} (v : V).
Implicit Types (t : FinalityTracker) (ops : list tracker_op).

(** The tracker after an operation, and the (height, hash) it finalised. *)
Definition step t (op : tracker_op) : FinalityTracker * list (Z * BlockHash) :=
  match op with
  | OpRecord m h => (record_block t m h, [])
  | OpApply a =>
      let '(t', r) := apply_attestation t a v in
      (t', match r with Ok (NewlyFinalized h hash) => [(h, hash)] | _ => [] end)
  end.

Fixpoint run t ops : FinalityTracker * list (Z * BlockHash) :=
  match ops with
  | [] => (t, [])
  | op :: ops =>
      let '(t1, f1) := step t op in
      let '(t2, f2) := run t1 ops in
      (t2, f1 ++ f2)
  end.

(** [o1 <= o2] on soft-final heights, nothing final being the least. *)
Definition soft_le (o1 o2 : option Z) : Prop :=
  forall s, o1 = Some s -> exists s', o2 = Some s' /\ s <= s'.

Lemma soft_le_trans a b c : soft_le a b -> soft_le b c -> soft_le a c.
Proof.
  intros H1 H2 s Hs. destruct (H1 s Hs) as (s1&Hs1&?). destruct (H2 s1 Hs1) as (s2&?&?).
  exists s2. split; [done|lia].
Qed.

Lemma record_fields t m h :
  soft_final_height (record_block t m h) = soft_final_height t
  /\ chain_tip (record_block t m h) = Z.max (chain_tip t) h.
Proof.
  unfold record_block; cbv zeta. destruct (Z.ltb_spec (chain_tip t) h); cbn;
    (split; [done|lia]).
Qed.

Lemma step_spec t op t' f :
  step t op = (t', f) ->
  soft_le (soft_final_height t) (soft_final_height t')
  /\ chain_tip t <= chain_tip t'
  /\ (f = [] \/ exists h hash, f = [(h, hash)] /\ soft_final_height t' = Some h
      /\ advances (soft_final_height t) h = true)
  /\ (tracker_wf t -> tracker_wf t').
Proof.
  destruct op as [m h|a]; cbn.
  - intros [= <- <-]. destruct (record_fields t m h) as [E1 E2].
    split_and!; [|rewrite E2; lia|by left|by apply record_wf].
    rewrite E1. intros s Hs. exists s. split; [done|lia].
  - destruct (apply_attestation t a v) as [t1 r] eqn:E. intros [= <- <-].
    pose proof (apply_wf v t a t1 r) as Hwf.
    pose proof E as E'. apply apply_cases in E' as
      [(e&->&->)|(_&_&_&_&[[-> ->]|(->&->&_&_&Hadv)])]; split_and!;
      try (by left); try (intros Hw; by eapply Hwf); try (cbn; lia).
    + intros s Hs. exists s. split; [done|lia].
    + intros s Hs. exists s. split; [done|lia].
    + intros s Hs. eexists. split; [done|]. rewrite Hs in Hadv. cbn in Hadv. lia.
    + right. by eexists _, _.
Qed.

Lemma run_spec t ops t' f :
  run t ops = (t', f) ->
  soft_le (soft_final_height t) (soft_final_height t')
  /\ chain_tip t <= chain_tip t'
  /\ Forall (fun p => advances (soft_final_height t) p.1 = true) f
  /\ StronglySorted (fun p q => p.1 < q.1) f
  /\ (tracker_wf t -> tracker_wf t').
Proof.
  revert t t' f. induction ops as [|op ops IH]; intros t t' f; cbn.
  { intros [= <- <-]. split_and!; [|lia|constructor|constructor|done].
    intros s Hs. exists s. split; [done|lia]. }
  destruct (step t op) as [t1 f1] eqn:E1. destruct (run t1 ops) as [t2 f2] eqn:E2.
  intros [= <- <-]. apply step_spec in E1 as (S1&T1&F1&W1).
  apply IH in E2 as (S2&T2&F2&O2&W2).
  assert (F2' : Forall (fun p => advances (soft_final_height t) p.1 = true) f2).
  { eapply Forall_impl; [exact F2|]. intros [h hash]; cbn. unfold advances.
    destruct (soft_final_height t) as [s|] eqn:Hs; [|done].
    destruct (S1 s eq_refl) as (s'&->&?). lia. }
  split_and!; [by eapply soft_le_trans|lia| | |auto].
  - destruct F1 as [->|(h&hash&->&_&Ha)]; [done|]. by constructor.
  - destruct F1 as [->|(h&hash&->&Hs&_)]; [done|]. constructor; [done|].
    eapply Forall_impl; [exact F2|]. intros [h2 hash2]; cbn. rewrite Hs. cbn. lia.
Qed.
End runs.

(** Somewhere in a run, a verified attestation of [m] for this height and hash was
    applied while [m] was active at the height. *)
Definition voted {V} `{!AttestationVerifier V} (v : V) t0 ops m h hash : Prop :=
  exists ops1 a ops2, ops = ops1 ++ OpApply a :: ops2
    /\ a_miner_pubkey a = m /\ target_height a = h /\ target_hash a = hash
    /\ verify v a = true /\ is_active (active_set (run v t0 ops1).1) m h = true.

Lemma run_snoc {V} `{!AttestationVerifier V} (v : V) ops op : forall t0,
  (run v t0 (ops ++ [op])).1 = (step v (run v t0 ops).1 op).1.
Proof.
  induction ops as [|o ops IH]; intros t0; cbn.
  - by destruct (step v t0 op).
  - destruct (step v t0 o) as [t1 f1]. specialize (IH t1).
    destruct (run v t1 (ops ++ [op])), (run v t1 ops). exact IH.
Qed.

Lemma voted_snoc {V} `{!AttestationVerifier V} (v : V) t0 ops op m h hash :
  voted v t0 ops m h hash -> voted v t0 (ops ++ [op]) m h hash.
Proof.
  intros (ops1&a&ops2&->&H). exists ops1, a, (ops2 ++ [op]). split; [|done].
  by rewrite <- app_assoc.
Qed.

(** Whoever is counted as a signer has voted. *)
Lemma signers_voted {V} `{!AttestationVerifier V} (v : V) t0 ops m h hash :
  attestations t0 = ∅ -> m ∈ signers (run v t0 ops).1 h hash -> voted v t0 ops m h hash.
Proof.
  intros H0. induction ops as [|op ops IH] using rev_ind.
  { cbn. unfold signers. rewrite H0, lookup_empty. cbn. rewrite lookup_empty. set_solver. }
  rewrite run_snoc. destruct op as [k b|a]; cbn [step].
  - cbn [fst]. unfold record_block. destruct (_ <? _); intros Hm; apply voted_snoc, IH; [|exact Hm].
    rewrite prune_signers in Hm. case_decide; [exact Hm|set_solver].
  - destruct (apply_attestation (run v t0 ops).1 a v) as [t' r] eqn:E. cbn [fst]. intros Hm.
    apply apply_cases in E as [(e&_&->)|(Hv&_&Ha&_&Ht)]; [by apply voted_snoc, IH|].
    assert (Hm' : m ∈ signers (recorded (run v t0 ops).1 a) h hash)
      by (destruct Ht as [[_ ->]|(_&->&_)]; exact Hm).
    rewrite signers_recorded in Hm'. case_decide as Hd; [|by apply voted_snoc, IH].
    destruct Hd as [-> ->]. apply elem_of_union in Hm' as [->%elem_of_singleton|Hm'];
      [|by apply voted_snoc, IH].
    by exists ops, a, [].
Qed.

Lemma with_params_wf w l q st t : with_params w l q st = Some t -> tracker_wf t.
Proof.
  unfold with_params, ActiveMinerSet_new. destruct (0 <? w); [|done]. intros [= <-].
  split; done.
Qed.

(** ** Theorems *)

(** Finality only moves forward.  Over any sequence of recorded blocks and
    attestations, valid or not, the soft-final height never decreases or
    disappears, the heights reported as newly finalised are strictly
    increasing (so at most one hash per height is ever finalised), and a
    tracker started from its parameters keeps its invariant: attestations only
    for heights in the acceptance window, signers that mined, a soft-final
    height not above the tip. *)
Theorem finality_moves_forward {V} `{!AttestationVerifier V} (v : V) w l q st t0 ops t f
    ops' t' f' :
  with_params w l q st = Some t0 ->
  run v t0 ops = (t, f) -> run v t ops' = (t', f') ->
  StronglySorted (fun p p' => p.1 < p'.1) (f ++ f')
  /\ soft_le (soft_final_height t) (soft_final_height t')
  /\ chain_tip t <= chain_tip t'
  /\ tracker_wf t /\ tracker_wf t'.
Proof.
  intros H0 H1 H2. apply with_params_wf in H0.
  assert (Hr : run v t0 (ops ++ ops') = (t', f ++ f')).
  { clear H0. revert t0 t f H1 H2. induction ops as [|op ops IH]; intros t0 t f H1 H2; cbn in *.
    - by simplify_eq.
    - destruct (step v t0 op) as [t1 f1]. destruct (run v t1 ops) as [t2 f2] eqn:E.
      simplify_eq. rewrite (IH t1 t f2) by done. by rewrite app_assoc. }
  apply run_spec in H1 as (_&_&_&_&W1). apply run_spec in H2 as (S2&T2&_&_&W2).
  apply run_spec in Hr as (_&_&_&O&_). auto 10.
Qed.

(** A rejected attestation leaves the tracker exactly as it was; an accepted
    one verified, targets a height within the acceptance window, comes from a
    miner active there who had not signed that (height, hash), and adds that
    one signer to that one (height, hash) and nothing else. *)
Theorem apply_attestation_effect {V} `{!AttestationVerifier V} (v : V) t a t' r :
  apply_attestation t a v = (t', r) ->
  match r with
  | Err _ => t' = t
  | Ok _ =>
      verify v a = true
      /\ (sat_sub (chain_tip t) (stale_horizon t) <= target_height a <= chain_tip t)
      /\ is_active (active_set t) (a_miner_pubkey a) (target_height a) = true
      /\ (a_miner_pubkey a ∉ signers t (target_height a) (target_hash a))
      /\ active_set t' = active_set t /\ chain_tip t' = chain_tip t
      /\ forall h hash, signers t' h hash =
           if decide (h = target_height a /\ hash = target_hash a)
           then {[a_miner_pubkey a]} ∪ signers t h hash else signers t h hash
  end.
Proof.
  intros H. apply apply_cases in H as [(e&->&->)|(?&?&?&?&[[-> ->]|(->&->&_)])];
    [done|..]; split_and!; try done; try lia;
    intros h hash; rewrite <- signers_recorded; done.
Qed.

(** C13: Finalisation needs a quorum of votes: when an attestation finalises a
    height, at least [min_quorum] miners are active there at that moment; the
    number of distinct signers of that hash is at least two thirds of the number
    of active miners; every signer sent, at some point of the run, a verified
    attestation for this height and hash and was active there when it arrived;
    the height is above the previous soft-final one and not above the tip, and
    the reorg rule refuses every fork point at or below it from then on.  The two
    sets are compared by size only: [finalized_by_a_minority] below. *)
Theorem finalized_has_quorum {V} `{!AttestationVerifier V} (v : V) t0 ops t a t' h hash :
  attestations t0 = ∅ -> (run v t0 ops).1 = t ->
  2 * active_count (active_set t) h + 2 <= u64_max ->
  apply_attestation t a v = (t', Ok (NewlyFinalized h hash)) ->
  min_quorum t <= active_count (active_set t) h
  /\ 2 * active_count (active_set t) h <= 3 * signer_count t' h hash
  /\ (forall m, m ∈ signers t' h hash -> voted v t0 (ops ++ [OpApply a]) m h hash)
  /\ (forall s, soft_final_height t = Some s -> s < h)
  /\ h <= chain_tip t /\ soft_final_height t' = Some h
  /\ (forall fp, would_reorg_violate t' fp = true <-> fp <= h).
Proof.
  intros H0 Hrun Hm H.
  assert (Hv : forall m, m ∈ signers t' h hash -> voted v t0 (ops ++ [OpApply a]) m h hash).
  { intros m Hin. apply signers_voted; [done|]. rewrite run_snoc, Hrun. cbn [step].
    rewrite H. exact Hin. }
  apply apply_cases in H as
    [(e&?&_)|(_&Ht&_&_&[[? _]|(Heq&->&Hq&Hc&Ha)])]; try done.
  injection Heq as -> ->. split_and!; try done; try lia.
  - unfold signer_count. change (signers (set_soft_final (recorded t a) (target_height a)))
      with (signers (recorded t a)). rewrite signers_recorded, decide_True by done.
    unfold ceil_two_thirds in Hc. rewrite sat_mul_exact, sat_add_exact in Hc by lia.
    pose proof (Z.div_mod (active_count (active_set t) (target_height a) * 2 + 2) 3).
    pose proof (Z.mod_pos_bound (active_count (active_set t) (target_height a) * 2 + 2) 3).
    lia.
  - intros s Hs. rewrite Hs in Ha. cbn in Ha. lia.
  - intros fp. cbn. unfold tracker_would_reorg_violate_finality. cbn. lia.
Qed.

(** Activity is never invented: a miner counted active at a height did
    produce a recorded block in the [window] blocks up to it. *)
Theorem active_miners_mined w log m h :
  0 < w -> is_active (log_set w log) m h = true ->
  exists b, (m, b) ∈ log /\ h - w < b <= h.
Proof.
  intros Hw. unfold is_active. destruct (miners (log_set w log) !! m) as [r|] eqn:E; [|done].
  apply log_records in E as [E1 E2]. rewrite log_window. unfold is_active_record.
  destruct (Z.ltb_spec h (first_seen_height r)); [done|].
  destruct (Z.ltb_spec (h - first_seen_height r) w).
  { intros _. exists (first_seen_height r). split; [done|lia]. }
  destruct (Z.leb_spec (last_seen_height r) h), (Z.ltb_spec (h - last_seen_height r) w);
    cbn; try done. intros _. exists (last_seen_height r). split; [done|lia].
Qed.

(** A miner whose first block is [window] or more blocks below the target is
    never counted, however steadily it mines: recording the block that carries
    the attestation moves its last-seen height past the target before the
    activity check, so a valid attestation for an older height is always
    rejected with [MinerNotActive].  Long-lived miners drop out of the
    quorum for good. *)
Theorem veteran_miner_never_counts {V} `{!AttestationVerifier V} try_from_slice (v : V) t a b
    extra bytes r :
  find_attestation extra = Some bytes -> decode try_from_slice bytes = Ok a ->
  verify v a = true ->
  miners (active_set t) !! a_miner_pubkey a = Some r ->
  first_seen_height r + window (active_set t) <= target_height a ->
  0 < window (active_set t) ->
  target_height a < b -> chain_tip t <= b -> b - stale_horizon t <= target_height a ->
  0 <= target_height a ->
  on_accepted_block try_from_slice v t b extra =
    (record_block t (a_miner_pubkey a) b, Rejected (MinerNotActive (target_height a))).
Proof.
  intros Hf Hd Hv Hr Hfirst Hw Hlt Htip Hst H0. unfold on_accepted_block.
  rewrite Hf, Hd. cbv zeta.
  set (t1 := record_block t (a_miner_pubkey a) b).
  assert (Htip1 : chain_tip t1 = b).
  { destruct (record_fields t (a_miner_pubkey a) b) as [_ E]. fold t1 in E. lia. }
  assert (Hs1 : active_set t1 = set_record_block (active_set t) (a_miner_pubkey a) b
    /\ stale_horizon t1 = stale_horizon t).
  { unfold t1, record_block; cbv zeta. by destruct (chain_tip t <? b). }
  destruct Hs1 as [Hs1 Hh1].
  unfold apply_attestation. cbv zeta. rewrite Hv; cbn [negb]. rewrite Htip1, Hh1, Hs1.
  destruct (Z.ltb_spec b (target_height a)); [lia|].
  destruct (Z.ltb_spec (target_height a) (sat_sub b (stale_horizon t))); [word_lia|].
  unfold is_active. rewrite set_record_eq, Hr, set_record_window. unfold is_active_record.
  cbn [first_seen_height last_seen_height].
  destruct (Z.ltb_spec (target_height a) (first_seen_height r)); [lia|].
  destruct (Z.ltb_spec (target_height a - first_seen_height r) (window (active_set t))); [lia|].
  destruct (Z.leb_spec (Z.max (last_seen_height r) b) (target_height a)); [lia|]. done.
Qed.

(** A block with a forged attestation still changes the tracker: the outcome
    is [Rejected InvalidSignature], but the claimed, unauthenticated public key
    has entered the active set (and counts in the quorum's denominator) and
    the tip has moved. *)
Theorem forged_attestation_mutates {V} `{!AttestationVerifier V} try_from_slice (v : V) t a b
    extra bytes :
  find_attestation extra = Some bytes -> decode try_from_slice bytes = Ok a ->
  verify v a = false -> miners (active_set t) !! a_miner_pubkey a = None ->
  chain_tip t < b -> 0 < window (active_set t) ->
  let '(t', o) := on_accepted_block try_from_slice v t b extra in
  o = Rejected InvalidSignature
  /\ is_active (active_set t) (a_miner_pubkey a) b = false
  /\ is_active (active_set t') (a_miner_pubkey a) b = true
  /\ chain_tip t' = b.
Proof.
  intros Hf Hd Hv Hn Hb Hw. unfold on_accepted_block. rewrite Hf, Hd. cbv zeta.
  unfold apply_attestation. rewrite Hv. cbn [negb]. split_and!; [done| | |].
  - unfold is_active. by rewrite Hn.
  - unfold record_block; cbv zeta. destruct (Z.ltb_spec (chain_tip t) b); [|lia]. cbn.
    unfold is_active. rewrite set_record_eq, Hn, set_record_window.
    unfold is_active_record; cbn.
    destruct (Z.ltb_spec b b); [lia|]. destruct (Z.ltb_spec (b - b) (window (active_set t)));
      [done|lia].
  - destruct (record_fields t (a_miner_pubkey a) b) as [_ ->]. lia.
Qed.

Lemma find_magic_skip filler rest :
  (forall i, (i < length filler)%nat -> take 4 (drop i (filler ++ rest)) <> WIRE_MAGIC) ->
  find_magic (filler ++ rest) = find_magic rest.
Proof.
  induction filler as [|x filler IH]; intros H; [done|]. cbn [app find_magic].
  rewrite bool_decide_eq_false_2 by (apply (H 0%nat); cbn; lia).
  apply IH. intros i Hi. apply (H (S i)). cbn. lia.
Qed.

(** An attestation survives its trip through a coinbase: encoded behind any
    filler in which the magic does not occur earlier, it is located and decoded
    to the same attestation when the signature has 64 bytes, and reported as a
    wrong signature length otherwise; an extra without the magic carries no
    attestation.  The law of Borsh is used at this one value. *)
Theorem attestation_roundtrip to_vec try_from_slice filler a :
  try_from_slice (to_vec (to_wire a)) = Some (to_wire a) ->
  (forall i, (i < length filler)%nat ->
    take 4 (drop i (filler ++ encode to_vec a)) <> WIRE_MAGIC) ->
  let n := Z.of_nat (length (a_signature a)) in
  find_attestation (filler ++ encode to_vec a) = Some (encode to_vec a)
  /\ decode try_from_slice (encode to_vec a) =
       (if n =? SIGNATURE_LEN then Ok a else Err (WrongSignatureLength SIGNATURE_LEN n)).
Proof.
  intros Hb Hm n. split.
  - unfold find_attestation. destruct (Nat.ltb_spec (length (filler ++ encode to_vec a))
      (length WIRE_MAGIC)) as [H|_].
    { rewrite length_app in H. unfold encode in H. rewrite length_app in H. lia. }
    rewrite find_magic_skip by done. unfold encode. cbn [app]. done.
  - unfold decode, encode.
    destruct (Nat.ltb_spec (length (WIRE_MAGIC ++ [WIRE_VERSION] ++ to_vec (to_wire a)))
      (length WIRE_MAGIC + 1)) as [H|_].
    { rewrite !length_app in H. cbn in H. lia. }
    rewrite bool_decide_eq_true_2 by done. cbn [negb].
    change (drop 4 (WIRE_MAGIC ++ [WIRE_VERSION] ++ to_vec (to_wire a)))
      with (WIRE_VERSION :: to_vec (to_wire a)). cbn [negb Z.eqb].
    rewrite Hb. cbv zeta. fold n. destruct (Z.eqb_spec n SIGNATURE_LEN) as [E|E];
      destruct (Z.eqb_spec (Z.of_nat (length (w_signature (to_wire a)))) SIGNATURE_LEN);
      try done; by destruct a.
Qed.

(** ** Witnesses *)

Definition pk (i : Z) : MinerPubkey := [i].

Definition vote (i h : Z) : FinalityAttestation := mkAttestation (pk i) h [170] (replicate 64 0).

(** Five miners at heights 50..54, tip at 60. *)
Definition five_miners : list tracker_op :=
  ((fun i => OpRecord (pk i) (49 + i)) <$> seqZ 1 5) ++ [OpRecord (pk 99) 60].

Definition demo_tracker : FinalityTracker :=
  mkTracker 5 10 50 (mkActiveMinerSet ∅ 100) 0 ∅ None 0.

Definition five_tracker : FinalityTracker := (run noop_verifier demo_tracker five_miners).1.

Lemma finality_moves_forward_witness :
  soft_le (soft_final_height five_tracker)
    (soft_final_height (run noop_verifier five_tracker
       [OpApply (vote 1 55); OpApply (vote 2 55)]).1).
Proof.
  destruct (run noop_verifier demo_tracker five_miners) as [t f] eqn:E1.
  destruct (run noop_verifier t [OpApply (vote 1 55); OpApply (vote 2 55)]) as [t' f'] eqn:E2.
  unfold five_tracker. rewrite E1. cbn [fst]. rewrite E2.
  apply (finality_moves_forward noop_verifier 100 10 5 50 demo_tracker five_miners t f
    [OpApply (vote 1 55); OpApply (vote 2 55)] t' f'); [reflexivity|exact E1|exact E2].
Defined.

Lemma apply_attestation_effect_witness :
  signers (apply_attestation five_tracker (vote 1 55) noop_verifier).1 55 [170] =
    {[pk 1]} ∪ signers five_tracker 55 [170].
Proof.
  destruct (apply_attestation five_tracker (vote 1 55) noop_verifier) as [t r] eqn:E.
  pose proof (apply_attestation_effect noop_verifier _ _ _ _ E) as H.
  destruct r as [o|e].
  - destruct H as (_&_&_&_&_&_&H). cbn [fst]. rewrite (H 55 [170]), decide_True by (split; reflexivity).
    change (a_miner_pubkey (vote 1 55)) with (pk 1). reflexivity.
  - assert (Hr : Err e = (apply_attestation five_tracker (vote 1 55) noop_verifier).2)
      by (rewrite E; reflexivity).
    vm_compute in Hr. discriminate Hr.
Defined.

Definition three_ops : list tracker_op :=
  five_miners ++ (OpApply <$> [vote 1 55; vote 2 55; vote 3 55]).
Definition three_votes : FinalityTracker := (run noop_verifier demo_tracker three_ops).1.

Lemma finalized_has_quorum_witness :
  soft_final_height (apply_attestation three_votes (vote 4 55) noop_verifier).1 = Some 55
  /\ voted noop_verifier demo_tracker (three_ops ++ [OpApply (vote 4 55)]) (pk 2) 55 [170].
Proof.
  destruct (apply_attestation three_votes (vote 4 55) noop_verifier) as [t r] eqn:E.
  destruct (finalized_has_quorum noop_verifier demo_tracker three_ops three_votes (vote 4 55) t
    55 [170]) as (_&_&Hv&_&_&Hs&_).
  - reflexivity.
  - vm_compute. reflexivity.
  - vm_compute. discriminate.
  - assert (Hr : r = (apply_attestation three_votes (vote 4 55) noop_verifier).2)
      by (rewrite E; reflexivity).
    assert (Hk : (apply_attestation three_votes (vote 4 55) noop_verifier).2
      = Ok (NewlyFinalized 55 [170])) by (vm_compute; reflexivity).
    rewrite Hk in Hr. rewrite E, Hr. reflexivity.
  - split; [exact Hs|]. apply Hv.
    replace t with (apply_attestation three_votes (vote 4 55) noop_verifier).1 by by rewrite E.
    apply (bool_decide_unpack _). vm_compute. exact I.
Defined.

(** Four miners that entered long ago vote for 155 and then mine above it, which
    ends their activity at 155; of the five that entered later one votes. *)
Definition minority_ops : list tracker_op :=
  ((fun i => OpRecord (pk i) (49 + i)) <$> seqZ 1 4)
  ++ ((fun i => OpRecord (pk i) 140) <$> seqZ 5 5)
  ++ ((fun i => OpRecord (pk i) 150) <$> seqZ 1 4)
  ++ [OpRecord (pk 5) 155] ++ (OpApply <$> [vote 1 155; vote 2 155; vote 3 155; vote 4 155])
  ++ ((fun i => OpRecord (pk i) (155 + i)) <$> seqZ 1 4).
Definition minority_tracker : FinalityTracker := (run noop_verifier demo_tracker minority_ops).1.

(** The sizes of the two sets are compared, not the sets: here one vote of the five
    active miners finalises the height. *)
Example finalized_by_a_minority :
  let t' := (apply_attestation minority_tracker (vote 5 155) noop_verifier).1 in
  soft_final_height t' = Some 155 /\ active_count (active_set minority_tracker) 155 = 5
  /\ filter (fun m => is_active (active_set minority_tracker) m 155 = true)
       (elements (signers t' 155 [170])) = [pk 5].
Proof. vm_compute. done. Qed.

Lemma active_miners_mined_witness :
  exists b, (pk 1, b) ∈ [(pk 1, 50); (pk 1, 75)] /\ 100 - 100 < b <= 100.
Proof. apply (active_miners_mined 100 _ (pk 1) 100); [lia|reflexivity]. Defined.

Lemma attestation_roundtrip_witness :
  find_attestation ([171; 205] ++ encode (fun _ => [5]) (vote 1 55)) =
    Some (encode (fun _ => [5]) (vote 1 55)).
Proof.
  apply (attestation_roundtrip (fun _ => [5]) (fun _ => Some (to_wire (vote 1 55)))
    [171; 205] (vote 1 55)); [reflexivity|].
  intros [|[|i]] Hi; [vm_compute; discriminate..|cbn in Hi; lia].
Defined.

(** A miner seen first at height 0 that mined every block up to 299 attests,
    in its block 300, to height 290. *)
Definition veteran_tracker : FinalityTracker :=
  mkTracker 5 10 50 (mkActiveMinerSet {[pk 1 := mkMinerRecord 0 299]} 100) 299 ∅ None 0.

Definition vote_extra : list Z := encode (fun _ => [5]) (vote 1 290).
Definition vote_slice (_ : list Z) : option WireAttestation := Some (to_wire (vote 1 290)).

Lemma veteran_miner_never_counts_witness :
  (on_accepted_block vote_slice noop_verifier veteran_tracker 300 vote_extra).2
  = Rejected (MinerNotActive 290).
Proof.
  rewrite (veteran_miner_never_counts vote_slice noop_verifier veteran_tracker
    (vote 1 290) 300 vote_extra vote_extra (mkMinerRecord 0 299));
    first [reflexivity | cbn; lia | vm_compute; discriminate].
Defined.

Lemma forged_attestation_mutates_witness :
  chain_tip (on_accepted_block vote_slice reject_all_verifier demo_tracker 300 vote_extra).1
  = 300.
Proof.
  pose proof (forged_attestation_mutates vote_slice reject_all_verifier demo_tracker
    (vote 1 290) 300 vote_extra vote_extra) as H.
  destruct (on_accepted_block vote_slice reject_all_verifier demo_tracker 300 vote_extra)
    as [t' o].
  apply H; first [reflexivity | cbn; lia].
Defined.
