(* ===== verification/TxValidation.v ===== *)
(** * Transaction validation ([src/consensus/validation.rs],
    [src/consensus/privacy_policy.rs], [src/crypto/cache.rs])

    The checks a transaction passes on its way into a block
    ([validate_transaction_for_network]) and into the mempool
    ([validate_transaction_basic]), the mandatory-privacy rules, and the cache
    of verified ring signatures.  Curve points, CLSAG, range proofs and
    Pedersen commitments are seen through the class [Crypto]. *)

From stdpp Require Import prelude gmap sorting strings.
From Stdlib Require Import ZArith Lia.
From S2P Require Import Prelude Constants Difficulty Block Utxo ForkChoice.

Local Open Scope Z_scope.

(** ** The cryptographic library *)

(** Compressed points decode or not; [commit_zero v] is the compressed
    commitment to [v] with blinding factor zero. *)
Class Crypto := {
  Point : Type;
  point_eq_dec :: EqDecision Point;
  identity : Point;
  point_add : Point -> Point -> Point;
  decompress : list Z -> option Point;
  commit_zero : Z -> list Z;
  clsag_verify : Hash -> list (Point * Point) -> Point -> ClsagSignature -> bool;
  range_proof_parses : list Z -> bool;
  range_proofs_verify : list (list Z) -> list Z -> Z -> bool;
  signature_bytes : ClsagSignature -> list Z;
}.

(** What [verify_ring_signature] and the range-proof verifier answer while a
    block is validated.  Both consult a process-wide cache that the parallel
    checks share, so the answer is an argument; [curve_verdicts] below are the
    answers without a cache. *)
Class Verdicts := {
  sig_verdict : Transaction -> TxInput -> bool;
  proof_verdict : list (list Z) -> list Z -> Z -> bool;
}.

(** ** Errors *)

Inductive tx_error :=
| InvalidTxVersion (v : Z)
| V2NotActive
| InvalidInputCount (count : Z)
| InvalidOutputCount (count : Z)
| AmountLength (out : nat)
| MemoTooLarge (out : nat)
| InputOutputRatio
| OutputInputRatio
| NonUniformInputs
| NonUniformOutputs
| ChurnOutputs
| DuplicateKeyImage
| DuplicateStealthAddress (out : nat)
| StealthAddressTaken (out : nat)
| RingCommitmentMismatch (input member : nat)
| ImmatureCoinbase (input member : nat)
| TimeLocked (input member : nat)
| UnknownRingMember (input member : nat)
| InvalidRingSize (expected got : Z)
| DuplicateRingMember (input : nat)
| RingSignatureInvalid
| RangeProofInvalid
| CommitmentMismatch
| TransparentOutputForbidden
| RawPubkeyForbidden
| UnshieldedForbidden
| TransactionTooLarge (size : Z)
| TransactionTooSmall (size : Z)
| FeeTooLow (fee min : Z)
| RingTooSmall
| MissingRangeProof
| OutputTooSmall
| ZeroStealthAddress
| InvalidStealthAddress
| ZeroCommitment
| InvalidCommitment
| ZeroKeyImage (input : nat)
| InvalidKeyImage (input : nat).

#[export] Instance tx_error_eq_dec : EqDecision tx_error.
Proof. solve_decision. Defined.

Definition MAX_TX_VERSION : Z := 2.

Definition zero_bytes : list Z := replicate 32 0.

Definition zlen {A} (l : list A) : Z := Z.of_nat (length l).

Definition v1_0_12_rules_active (network : NetworkType) (height : Z) : bool :=
  match network with
  | Mainnet | Regtest => true
  | Testnet => HARD_FORK_V1_0_12_HEIGHT <=? height
  end.

Definition access_le (a b : Hash * Z) : Prop := a.2 <= b.2.
#[export] Instance access_le_dec a b : Decision (access_le a b).
Proof. apply Z_le_dec. Defined.

Section tx.
Context {CR : Crypto} {V : Verdicts}.
(** The hash function, for the signing hash. *)
Context (blake3 : list Z -> Hash).
Context (tx_size : Transaction -> Z).
(** The crate feature that selects the activation heights. *)
Context (testnet : bool).

Implicit Types (tx : Transaction) (u : UtxoSet).

(** ** Structural checks *)

Definition check_tx_version_range tx : result tx_error unit :=
  guard_or (negb ((tx_version tx =? 0) || (MAX_TX_VERSION <? tx_version tx)))
    (InvalidTxVersion (tx_version tx)).

Definition check_tx_v2_activation tx (current_height : Z) : result tx_error unit :=
  guard_or (negb ((2 <=? tx_version tx) && (current_height <? V2_TX_ACTIVATION_HEIGHT)))
    V2NotActive.

Definition check_tx_input_output_counts tx (v1_0_12_active : bool)
  : result tx_error unit :=
  _ ← guard_or (negb (zlen (inputs tx) =? 0)) (InvalidInputCount 0);
  _ ← guard_or (negb (zlen (outputs tx) =? 0)) (InvalidOutputCount 0);
  _ ← (if v1_0_12_active then
         try_each (fun i o =>
           _ ← guard_or (zlen (encrypted_amount o) =? 8) (AmountLength i);
           guard_or (zlen (encrypted_memo o) <=? MAX_OUTPUT_MEMO_SIZE) (MemoTooLarge i))
           (outputs tx)
       else Ok tt);
  _ ← guard_or (zlen (inputs tx) <=? MAX_TX_INPUTS) (InvalidInputCount (zlen (inputs tx)));
  guard_or (zlen (outputs tx) <=? MAX_TX_OUTPUTS) (InvalidOutputCount (zlen (outputs tx))).

Definition check_tx_io_ratio_legacy tx : result tx_error unit :=
  let ratio_limit := 32 in
  _ ← guard_or (zlen (inputs tx) <=? sat_mul u64_max (zlen (outputs tx)) ratio_limit)
        InputOutputRatio;
  guard_or (zlen (outputs tx) <=? sat_mul u64_max (zlen (inputs tx)) ratio_limit)
    OutputInputRatio.

Definition check_tx_uniform_shape tx (current_height : Z) : result tx_error unit :=
  if current_height <? UNIFORM_TX_SHAPE_HEIGHT then Ok tt
  else
    let requires_uniform :=
      match tx_type tx with Transfer | Churn => true | Coinbase => false end in
    if negb requires_uniform then Ok tt
    else
      _ ← guard_or (zlen (inputs tx) =? STANDARD_INPUT_COUNT) NonUniformInputs;
      let cync_shape := STANDARD_OUTPUT_COUNT in
      let asset_shape := STANDARD_OUTPUT_COUNT + 1 in
      _ ← guard_or ((zlen (outputs tx) =? cync_shape) || (zlen (outputs tx) =? asset_shape))
            NonUniformOutputs;
      guard_or (negb (bool_decide (tx_type tx = Churn)
                      && negb (zlen (outputs tx) =? cync_shape)))
        ChurnOutputs.

(** ** Key images *)

(** The loop over the inputs, with the set of key images seen so far. *)
Fixpoint no_double_spend_loop u (seen : gset KeyImage) (ins : list TxInput)
  : result tx_error unit :=
  match ins with
  | [] => Ok tt
  | i :: ins =>
      if bool_decide (key_image i ∈ seen) then Err DuplicateKeyImage
      else if contains_key_image u (key_image i) then Err DuplicateKeyImage
      else no_double_spend_loop u ({[key_image i]} ∪ seen) ins
  end.

Definition check_tx_no_double_spend tx u : result tx_error unit :=
  no_double_spend_loop u ∅ (inputs tx).

(** ** Ring members *)

Definition check_ring_member_coinbase_maturity (is_coinbase : bool)
    (output_height current_height : Z) (input_idx member_idx : nat) : result tx_error unit :=
  if negb is_coinbase then Ok tt
  else
    let age := sat_sub current_height output_height in
    let required := min_output_age_at_height testnet current_height in
    guard_or (required <=? age) (ImmatureCoinbase input_idx member_idx).

Definition check_ring_member_time_lock (lock_height : option Z) (current_height : Z)
    (input_idx member_idx : nat) : result tx_error unit :=
  match lock_height with
  | Some lh => guard_or (lh <=? current_height) (TimeLocked input_idx member_idx)
  | None => Ok tt
  end.

(** New outputs whose stealth address is used twice, or is already on chain. *)
Fixpoint fresh_outputs_loop u (seen : gset PublicKey) (i : nat) (outs : list TxOutput)
  : result tx_error unit :=
  match outs with
  | [] => Ok tt
  | o :: outs =>
      if bool_decide (stealth_address o ∈ seen) then Err (DuplicateStealthAddress i)
      else if bool_decide (is_Some (get_output_index_entry u (stealth_address o))) then
        Err (StealthAddressTaken i)
      else fresh_outputs_loop u ({[stealth_address o]} ∪ seen) (S i) outs
  end.

Definition check_ring_member u (current_height : Z) (input_idx member_idx : nat)
    (m : RingMemberRef) : result tx_error unit :=
  match get_output_by_stealth u (rm_public_key m) with
  | Some r =>
      _ ← guard_or (bool_decide (rm_commitment m = commitment (r_output r)))
            (RingCommitmentMismatch input_idx member_idx);
      _ ← check_ring_member_coinbase_maturity (r_is_coinbase r) (r_height r) current_height
            input_idx member_idx;
      check_ring_member_time_lock (lock_height (r_output r)) current_height input_idx member_idx
  | None =>
      match get_output_index_entry u (rm_public_key m) with
      | Some e =>
          _ ← guard_or (bool_decide (rm_commitment m = e_commitment e))
                (RingCommitmentMismatch input_idx member_idx);
          _ ← check_ring_member_coinbase_maturity (e_is_coinbase e) (e_height e)
                current_height input_idx member_idx;
          check_ring_member_time_lock (e_lock_height e) current_height input_idx member_idx
      | None =>
          guard_or (current_height <? STRICT_RING_MEMBER_HEIGHT)
            (UnknownRingMember input_idx member_idx)
      end
  end.

Definition check_tx_ring_members tx u (current_height : Z) (v1_0_12_active : bool)
  : result tx_error unit :=
  _ ← (if v1_0_12_active then fresh_outputs_loop u ∅ 0 (outputs tx) else Ok tt);
  try_each (fun i inp => try_each (check_ring_member u current_height i) (ring_members inp))
    (inputs tx).

Definition available_outputs u (v1_0_12_active : bool) : Z :=
  if v1_0_12_active then sat_sub (total_outputs_ever u) (reorg_disconnects_total u)
  else Z.of_nat (output_count u).

Definition check_tx_ring_size_and_unique_members tx u (current_height : Z)
    (v1_0_12_active : bool) : result tx_error unit :=
  try_each (fun i inp =>
    let ring_size := effective_ring_size current_height (available_outputs u v1_0_12_active) in
    _ ← guard_or (zlen (ring_members inp) =? ring_size)
          (InvalidRingSize ring_size (zlen (ring_members inp)));
    guard_or (bool_decide (NoDup (rm_public_key <$> ring_members inp)))
      (DuplicateRingMember i)) (inputs tx).

(** ** Cryptographic checks *)

(** The points of a ring, if all of them decode. *)
Definition ring_points (ms : list RingMemberRef) : option (list (Point * Point)) :=
  mapM (fun m =>
    pk ← decompress (rm_public_key m);
    c ← decompress (rm_commitment m);
    Some (pk, c)) ms.

(** [verify_ring_signature] on a cache miss. *)
Definition ring_signature_valid tx (i : TxInput) : bool :=
  let message := signing_hash blake3 tx in
  match ring_points (ring_members i) with
  | None => false
  | Some ring =>
      match decompress (pseudo_output_commitment i) with
      | None => false
      | Some pseudo_output => clsag_verify message ring pseudo_output (signature i)
      end
  end.

Definition check_tx_ring_signatures tx : result tx_error unit :=
  guard_or (forallb (sig_verdict tx) (inputs tx)) RingSignatureInvalid.

Definition verify_output_range_proofs tx (current_height : Z) : bool :=
  if is_coinbase tx then true
  else if bool_decide (range_proof tx = []) then false
  else if negb (range_proof_parses (range_proof tx)) then false
  else
    match mapM (fun o => decompress (commitment o)) (outputs tx) with
    | None => false
    | Some _ =>
        proof_verdict (commitment <$> outputs tx) (range_proof tx) current_height
    end.

Definition check_tx_range_proofs tx (current_height : Z) : result tx_error unit :=
  guard_or (verify_output_range_proofs tx current_height) RangeProofInvalid.

(** Sum of the decoded points; [strict] rejects the identity, as the loop over
    the pseudo-outputs does. *)
Fixpoint sum_points (strict : bool) (acc : Point) (cs : list (list Z)) : option Point :=
  match cs with
  | [] => Some acc
  | c :: cs =>
      match decompress c with
      | None => None
      | Some p =>
          if strict && bool_decide (p = identity) then None
          else sum_points strict (point_add acc p) cs
      end
  end.

Definition verify_balance_proof tx : bool :=
  if is_coinbase tx then true
  else if bool_decide (inputs tx = []) then false
  else if bool_decide (outputs tx = []) then false
  else
    match sum_points true identity (pseudo_output_commitment <$> inputs tx) with
    | None => false
    | Some input_sum =>
        match sum_points false identity (commitment <$> outputs tx) with
        | None => false
        | Some output_sum =>
            match decompress (commit_zero (fee tx)) with
            | None => false
            | Some fee_point => bool_decide (input_sum = point_add output_sum fee_point)
            end
        end
    end.

Definition check_tx_balance_proof tx : result tx_error unit :=
  guard_or (verify_balance_proof tx) CommitmentMismatch.

(** ** The whole transaction *)

Definition validate_transaction_for_network tx u (current_height : Z)
    (expected_network : NetworkType) : result tx_error unit :=
  let v1_0_12_active := v1_0_12_rules_active expected_network current_height in
  _ ← check_tx_version_range tx;
  if is_coinbase tx then Ok tt
  else
    _ ← check_tx_v2_activation tx current_height;
    _ ← check_tx_input_output_counts tx v1_0_12_active;
    _ ← check_tx_io_ratio_legacy tx;
    _ ← check_tx_uniform_shape tx current_height;
    _ ← check_tx_no_double_spend tx u;
    _ ← check_tx_ring_members tx u current_height v1_0_12_active;
    _ ← check_tx_ring_size_and_unique_members tx u current_height v1_0_12_active;
    _ ← check_tx_ring_signatures tx;
    _ ← check_tx_range_proofs tx current_height;
    check_tx_balance_proof tx.

Definition validate_transaction tx u (current_height : Z) : result tx_error unit :=
  validate_transaction_for_network tx u current_height (if testnet then Testnet else Mainnet).

(** ** Mandatory privacy *)

(** Decodes to a point other than the identity. *)
Definition proper_point (bytes : list Z) : bool :=
  match decompress bytes with
  | None => false
  | Some p => negb (bool_decide (p = identity))
  end.

Definition check_tx_privacy tx : result tx_error unit :=
  _ ← try_each (fun _ o => guard_or (proper_point (commitment o)) TransparentOutputForbidden)
        (outputs tx);
  _ ← try_each (fun _ o => guard_or (proper_point (stealth_address o)) RawPubkeyForbidden)
        (outputs tx);
  guard_or (negb (bool_decide (inputs tx = []))) UnshieldedForbidden.

Definition enforce_privacy_policy (b : Block) : result tx_error unit :=
  try_each (fun _ tx => if is_coinbase tx then Ok tt else check_tx_privacy tx)
    (transactions b).

(** ** Mempool admission: [validate_transaction_basic] *)

Definition check_output_basic (o : TxOutput) : result tx_error unit :=
  _ ← guard_or (negb (zlen (encrypted_amount o) =? 0)) OutputTooSmall;
  _ ← guard_or (zlen (encrypted_amount o) <=? 64) (AmountLength 0);
  _ ← guard_or (zlen (encrypted_memo o) <=? 256) (MemoTooLarge 0);
  _ ← guard_or (negb (bool_decide (stealth_address o = zero_bytes))) ZeroStealthAddress;
  _ ← guard_or (bool_decide (is_Some (decompress (stealth_address o)))) InvalidStealthAddress;
  _ ← guard_or (negb (bool_decide (commitment o = zero_bytes))) ZeroCommitment;
  guard_or (bool_decide (is_Some (decompress (commitment o)))) InvalidCommitment.

Definition validate_transaction_basic tx : result tx_error unit :=
  _ ← check_tx_version_range tx;
  _ ← guard_or (negb (zlen (inputs tx) =? 0)) (InvalidInputCount 0);
  _ ← guard_or (negb (zlen (outputs tx) =? 0)) (InvalidOutputCount 0);
  let size := tx_size tx in
  _ ← guard_or (size <=? MAX_TX_SIZE) (TransactionTooLarge size);
  _ ← guard_or (MIN_TX_SIZE <=? size) (TransactionTooSmall size);
  let min_fee := wrap64 (size * MIN_FEE_PER_BYTE) in
  _ ← guard_or ((min_fee <=? fee tx) || is_coinbase tx) (FeeTooLow (fee tx) min_fee);
  _ ← (if is_coinbase tx then Ok tt
       else
         _ ← try_each (fun _ i =>
               guard_or (BOOTSTRAP_MIN_RING_SIZE <=? zlen (ring_members i)) RingTooSmall)
               (inputs tx);
         guard_or (negb (bool_decide (range_proof tx = []))) MissingRangeProof);
  _ ← guard_or (bool_decide (NoDup (key_images tx))) DuplicateKeyImage;
  _ ← guard_or (zlen (inputs tx) <=? MAX_TX_INPUTS) (InvalidInputCount (zlen (inputs tx)));
  _ ← guard_or (zlen (outputs tx) <=? MAX_TX_OUTPUTS) (InvalidOutputCount (zlen (outputs tx)));
  _ ← try_each (fun _ o => check_output_basic o) (outputs tx);
  if is_coinbase tx then Ok tt
  else
    try_each (fun idx i =>
      _ ← guard_or (negb (bool_decide (key_image i = zero_bytes))) (ZeroKeyImage idx);
      guard_or (bool_decide (is_Some (decompress (key_image i)))) (InvalidKeyImage idx))
      (inputs tx).

(** ** The cache of verified signatures ([src/crypto/cache.rs])

    The two maps from cache key to time of last access. *)

Record VerificationCache := mkVerificationCache {
  bulletproof_cache : gmap Hash Z;
  ring_sig_cache : gmap Hash Z;
  hits : Z;
  misses : Z;
}.

Definition MAX_CACHE_SIZE : Z := 100000.

Definition VerificationCache_new : VerificationCache := mkVerificationCache ∅ ∅ 0 0.

(** Drop what is older than an hour, then the oldest tenth if the map is still
    full; [None] is a process younger than an hour. *)
Definition evict_old (m : gmap Hash Z) (threshold : option Z) : gmap Hash Z :=
  let m :=
    match threshold with
    | Some t => filter (fun e => t < e.2) m
    | None => m
    end in
  if MAX_CACHE_SIZE <=? Z.of_nat (size m) then
    let to_remove := Z.to_nat (MAX_CACHE_SIZE / 10) in
    foldl (fun m e => delete e.1 m) m (take to_remove (merge_sort access_le (map_to_list m)))
  else m.

Definition check_ring_sig (c : VerificationCache) (now : Z) (key : Hash)
  : VerificationCache * option bool :=
  match ring_sig_cache c !! key with
  | Some _ =>
      (mkVerificationCache (bulletproof_cache c) (<[key := now]> (ring_sig_cache c))
         (wrap64 (hits c + 1)) (misses c), Some true)
  | None =>
      (mkVerificationCache (bulletproof_cache c) (ring_sig_cache c) (hits c)
         (wrap64 (misses c + 1)), None)
  end.

Definition cache_ring_sig (c : VerificationCache) (now : Z) (threshold : option Z)
    (key : Hash) (valid : bool) : VerificationCache :=
  if negb valid then c
  else
    let m :=
      if MAX_CACHE_SIZE <=? Z.of_nat (size (ring_sig_cache c))
      then evict_old (ring_sig_cache c) threshold else ring_sig_cache c in
    mkVerificationCache (bulletproof_cache c) (<[key := now]> m) (hits c) (misses c).

(** The same pair for range proofs. *)
Definition check_bulletproof (c : VerificationCache) (now : Z) (key : Hash)
  : VerificationCache * option bool :=
  match bulletproof_cache c !! key with
  | Some _ =>
      (mkVerificationCache (<[key := now]> (bulletproof_cache c)) (ring_sig_cache c)
         (wrap64 (hits c + 1)) (misses c), Some true)
  | None =>
      (mkVerificationCache (bulletproof_cache c) (ring_sig_cache c) (hits c)
         (wrap64 (misses c + 1)), None)
  end.

Definition cache_bulletproof (c : VerificationCache) (now : Z) (threshold : option Z)
    (key : Hash) (valid : bool) : VerificationCache :=
  if negb valid then c
  else
    let m :=
      if MAX_CACHE_SIZE <=? Z.of_nat (size (bulletproof_cache c))
      then evict_old (bulletproof_cache c) threshold else bulletproof_cache c in
    mkVerificationCache (<[key := now]> m) (ring_sig_cache c) (hits c) (misses c).

Definition PROOF_CACHE_TAG : list Z := ascii_bytes "COINCYNC_PROOF_CACHE_v1".

Definition proof_cache_key (proof_data commitment_data : list Z) : Hash :=
  hash_concat blake3 [PROOF_CACHE_TAG; proof_data; commitment_data].

(** The end of [verify_output_range_proofs]: the cache first, then the curve. *)
Definition verify_range_proof (c : VerificationCache) (now : Z) (threshold : option Z)
    (commitments : list (list Z)) (proof : list Z) (height : Z) : VerificationCache * bool :=
  let key := proof_cache_key proof (concat commitments) in
  match check_bulletproof c now key with
  | (c, Some cached_result) => (c, cached_result)
  | (c, None) =>
      let valid := range_proofs_verify commitments proof height in
      (cache_bulletproof c now threshold key valid, valid)
  end.

Definition RINGSIG_CACHE_TAG : list Z := ascii_bytes "COINCYNC_RINGSIG_CACHE_v1".

Definition ring_sig_cache_key (message sig_data : list Z) : Hash :=
  hash_concat blake3 [RINGSIG_CACHE_TAG; message; sig_data].

(** [verify_ring_signature]: the cache first, then the curve. *)
Definition verify_ring_signature (c : VerificationCache) (now : Z) (threshold : option Z)
    tx (i : TxInput) : VerificationCache * bool :=
  let key := ring_sig_cache_key (signing_hash blake3 tx) (signature_bytes (signature i)) in
  match check_ring_sig c now key with
  | (c, Some cached_result) => (c, cached_result)
  | (c, None) =>
      let valid := ring_signature_valid tx i in
      (cache_ring_sig c now threshold key valid, valid)
  end.

(** The loop of the mempool over the inputs of a transaction. *)
Fixpoint verify_inputs (c : VerificationCache) (now : Z) (threshold : option Z) tx
    (ins : list TxInput) : VerificationCache * bool :=
  match ins with
  | [] => (c, true)
  | i :: ins =>
      match verify_ring_signature c now threshold tx i with
      | (c, true) => verify_inputs c now threshold tx ins
      | (c, false) => (c, false)
      end
  end.
End tx.

(** The answers of the curve. *)
Definition curve_verdicts {CR : Crypto} (blake3 : list Z -> Hash) : Verdicts :=
  {| sig_verdict := ring_signature_valid blake3;
     proof_verdict := range_proofs_verify |}.

(** ** What acceptance means *)

Section spec.
Context {CR : Crypto} {V : Verdicts}.
Context (testnet : bool).
Implicit Types (tx : Transaction) (u : UtxoSet).

Lemma no_double_spend_ok u ins : forall seen,
  no_double_spend_loop u seen ins = Ok tt <->
  NoDup (key_image <$> ins)
  /\ (forall i, i ∈ ins -> (key_image i ∉ seen) /\ key_image i ∉ u_key_images u).
Proof.
  induction ins as [|i ins IH]; intros seen; cbn [no_double_spend_loop].
  { split; [|done]. intros _. split; [apply NoDup_nil_2|]. set_solver. }
  rewrite fmap_cons, NoDup_cons. unfold contains_key_image.
  repeat case_bool_decide; [set_solver..|]. rewrite IH.
  rewrite list_elem_of_fmap. split.
  - intros [Hn Hi]. split_and!; [|done|].
    + intros (j&Hj&Hin). destruct (Hi j Hin). set_solver.
    + intros j [->|Hj]%elem_of_cons; [done|]. destruct (Hi j Hj). set_solver.
  - intros [[Hn Hd] Hi]. split; [done|]. intros j Hj.
    destruct (Hi j ltac:(set_solver)). split; [|done].
    intros [Heq%elem_of_singleton|]%elem_of_union; [|done]. apply Hn. by exists j.
Qed.

(** What the chain knows about the output behind a ring member. *)
Record output_facts := mkOutputFacts {
  f_commitment : list Z;
  f_height : Z;
  f_is_coinbase : bool;
  f_lock_height : option Z;
}.

Definition on_chain u (pk : PublicKey) : option output_facts :=
  match get_output_by_stealth u pk with
  | Some r => Some (mkOutputFacts (commitment (r_output r)) (r_height r) (r_is_coinbase r)
                      (lock_height (r_output r)))
  | None =>
      (fun e => mkOutputFacts (e_commitment e) (e_height e) (e_is_coinbase e)
                  (e_lock_height e)) <$> get_output_index_entry u pk
  end.

(** A usable decoy: committed as claimed, mature if it is a coinbase, unlocked. *)
Definition spendable (f : output_facts) (m : RingMemberRef) (h : Z) : Prop :=
  rm_commitment m = f_commitment f
  /\ (f_is_coinbase f = true ->
      min_output_age_at_height testnet h <= sat_sub h (f_height f))
  /\ (forall l, f_lock_height f = Some l -> l <= h).

Lemma ring_member_checks f m h i j :
  (_ ← guard_or (bool_decide (rm_commitment m = f_commitment f)) (RingCommitmentMismatch i j);
   _ ← check_ring_member_coinbase_maturity testnet (f_is_coinbase f) (f_height f) h i j;
   check_ring_member_time_lock (f_lock_height f) h i j) = Ok tt <-> spendable f m h.
Proof.
  unfold spendable, check_ring_member_coinbase_maturity, check_ring_member_time_lock.
  rewrite bind_ok. setoid_rewrite bind_ok. split.
  - intros ([]&H1&[]&H2&H3). apply guard_or_ok, bool_decide_eq_true in H1.
    split; [done|]. split.
    + intros Hc. rewrite Hc in H2. cbn in H2. apply guard_or_ok in H2. lia.
    + intros l Hl. rewrite Hl in H3. apply guard_or_ok in H3. lia.
  - intros (H1&H2&H3). exists tt. split; [by apply guard_or_ok, bool_decide_eq_true|].
    exists tt. split.
    + destruct (f_is_coinbase f); [|done]. cbn. apply guard_or_ok. specialize (H2 eq_refl). lia.
    + destruct (f_lock_height f) as [l|]; [|done]. apply guard_or_ok. specialize (H3 l eq_refl). lia.
Qed.

Lemma check_ring_member_ok u h i j m :
  check_ring_member testnet u h i j m = Ok tt <->
  match on_chain u (rm_public_key m) with
  | Some f => spendable f m h
  | None => h < STRICT_RING_MEMBER_HEIGHT
  end.
Proof.
  unfold check_ring_member, on_chain.
  destruct (get_output_by_stealth u (rm_public_key m)) as [r|].
  { apply (ring_member_checks (mkOutputFacts _ _ _ _)). }
  destruct (get_output_index_entry u (rm_public_key m)) as [e|]; cbn.
  { apply (ring_member_checks (mkOutputFacts _ _ _ _)). }
  rewrite guard_or_ok. lia.
Qed.

Lemma fresh_outputs_ok u outs : forall seen i,
  fresh_outputs_loop u seen i outs = Ok tt <->
  NoDup (stealth_address <$> outs)
  /\ (forall o, o ∈ outs -> (stealth_address o ∉ seen)
        /\ get_output_index_entry u (stealth_address o) = None).
Proof.
  induction outs as [|o outs IH]; intros seen i; cbn [fresh_outputs_loop].
  { split; [|done]. intros _. split; [apply NoDup_nil_2|]. set_solver. }
  rewrite fmap_cons, NoDup_cons.
  case_bool_decide as H1; [set_solver|].
  case_bool_decide as H2.
  { split; [done|]. intros [_ Ho]. destruct (Ho o ltac:(set_solver)) as [_ Hn].
    rewrite Hn in H2. by destruct H2. }
  apply eq_None_not_Some in H2. rewrite IH, list_elem_of_fmap. split.
  - intros [Hn Hi]. split_and!; [|done|].
    + intros (j&Hj&Hin). destruct (Hi j Hin). set_solver.
    + intros j [->|Hj]%elem_of_cons; [done|]. destruct (Hi j Hj). set_solver.
  - intros [[Hn Hd] Hi]. split; [done|]. intros j Hj.
    destruct (Hi j ltac:(set_solver)). split; [|done].
    intros [Heq%elem_of_singleton|]%elem_of_union; [|done]. apply Hn. by exists j.
Qed.

(** A ring of the demanded size, without repetition, of spendable decoys. *)
Definition ring_ok u (h : Z) (active : bool) (inp : TxInput) : Prop :=
  zlen (ring_members inp) = effective_ring_size h (available_outputs u active)
  /\ NoDup (rm_public_key <$> ring_members inp)
  /\ forall m, m ∈ ring_members inp ->
      match on_chain u (rm_public_key m) with
      | Some f => spendable f m h
      | None => h < STRICT_RING_MEMBER_HEIGHT
      end.

(** Inputs and outputs sum up, fee included. *)
Definition balanced tx : Prop :=
  exists a b f,
    sum_points true identity (pseudo_output_commitment <$> inputs tx) = Some a
    /\ sum_points false identity (commitment <$> outputs tx) = Some b
    /\ decompress (commit_zero (fee tx)) = Some f /\ a = point_add b f.

Record tx_accepted tx u (h : Z) (active : bool) : Prop := {
  ta_version : tx_version tx <> 0 /\ tx_version tx <= 2
    /\ (2 <= tx_version tx -> V2_TX_ACTIVATION_HEIGHT <= h);
  ta_inputs : length (inputs tx) = 2%nat;
  ta_outputs : length (outputs tx) = 2%nat
    \/ length (outputs tx) = 3%nat /\ tx_type tx = Transfer;
  ta_lengths : active = true -> forall o, o ∈ outputs tx ->
    length (encrypted_amount o) = 8%nat /\ zlen (encrypted_memo o) <= MAX_OUTPUT_MEMO_SIZE;
  ta_addresses : active = true -> NoDup (stealth_address <$> outputs tx)
    /\ forall o, o ∈ outputs tx -> get_output_index_entry u (stealth_address o) = None;
  ta_key_images : NoDup (key_images tx)
    /\ forall ki, ki ∈ key_images tx -> ki ∉ u_key_images u;
  ta_rings : forall inp, inp ∈ inputs tx -> ring_ok u h active inp;
  ta_signatures : forall inp, inp ∈ inputs tx -> sig_verdict tx inp = true;
  ta_range : verify_output_range_proofs tx h = true;
  ta_balance : balanced tx;
}.

Lemma counts_ok tx active :
  length (inputs tx) = 2%nat ->
  length (outputs tx) = 2%nat \/ length (outputs tx) = 3%nat /\ tx_type tx = Transfer ->
  check_tx_io_ratio_legacy tx = Ok tt
  /\ (check_tx_input_output_counts tx active = Ok tt <->
      (active = true -> forall o, o ∈ outputs tx ->
       length (encrypted_amount o) = 8%nat /\ zlen (encrypted_memo o) <= MAX_OUTPUT_MEMO_SIZE)).
Proof.
  intros Hi Ho. unfold check_tx_io_ratio_legacy, check_tx_input_output_counts, zlen in *.
  rewrite Hi. assert (Hl : 2 <= Z.of_nat (length (outputs tx)) <= 3) by lia.
  assert (Hr : sat_mul u64_max (Z.of_nat (length (outputs tx))) 32
    = Z.of_nat (length (outputs tx)) * 32) by word_lia.
  split.
  - rewrite Hr. apply bind_ok. exists tt. split; apply guard_or_ok; apply Z.leb_le; [lia|].
    change (sat_mul u64_max (Z.of_nat 2) 32) with 64. lia.
  - change (Z.of_nat 2 =? 0) with false. change (Z.of_nat 2 <=? MAX_TX_INPUTS) with true.
    destruct (Z.eqb_spec (Z.of_nat (length (outputs tx))) 0); [lia|].
    cbn [negb guard_or mbind result_bind].
    assert (Hm : guard_or (Z.of_nat (length (outputs tx)) <=? MAX_TX_OUTPUTS)
      (InvalidOutputCount (Z.of_nat (length (outputs tx)))) = Ok tt).
    { apply guard_or_ok. unfold MAX_TX_OUTPUTS. lia. }
    destruct active; cbn [mbind result_bind]; [|by rewrite Hm]. rewrite bind_ok, Hm. split.
    + intros ([]&Ht&_) _ o [k Hk]%list_elem_of_lookup.
      apply (proj1 (try_each_ok _ _)) with k o in Ht; [|done]. apply bind_ok in Ht as ([]&H1&H2).
      apply guard_or_ok in H1, H2. lia.
    + intros H. exists tt. split; [|done]. apply try_each_ok. intros k o Hk.
      destruct (H eq_refl o ltac:(by eapply list_elem_of_lookup_2)) as [H1 H2].
      apply bind_ok. exists tt. split; apply guard_or_ok; lia.
Qed.

Lemma shape_ok tx h :
  is_coinbase tx = false -> 0 <= h ->
  check_tx_uniform_shape tx h = Ok tt <->
  length (inputs tx) = 2%nat
  /\ (length (outputs tx) = 2%nat \/ length (outputs tx) = 3%nat /\ tx_type tx = Transfer).
Proof.
  intros Hc Hh. unfold check_tx_uniform_shape, is_coinbase, zlen in *.
  apply bool_decide_eq_false in Hc.
  destruct (Z.ltb_spec h UNIFORM_TX_SHAPE_HEIGHT) as [Hlt|_];
    [unfold UNIFORM_TX_SHAPE_HEIGHT, BULLETPROOFS_PLUS_HEIGHT in Hlt; lia|].
  replace (negb _) with false by (by destruct (tx_type tx)).
  unfold STANDARD_INPUT_COUNT, STANDARD_OUTPUT_COUNT.
  rewrite bind_ok. setoid_rewrite bind_ok. split.
  - intros ([]&H1&[]&H2&H3). apply guard_or_ok in H1, H2, H3. split; [lia|].
    apply orb_true_iff in H2 as [H2|H2]; [left; lia|]. right. split; [lia|].
    case_bool_decide as Ht; [|by destruct (tx_type tx)]. cbn in H3.
    destruct (Z.eqb_spec (Z.of_nat (length (outputs tx))) 2); [lia|done].
  - intros [H1 H2]. exists tt. split; [apply guard_or_ok; lia|]. exists tt.
    destruct H2 as [H2|[H2 Ht]]; rewrite H2; (split; [done|]); apply guard_or_ok.
    + by rewrite andb_false_r.
    + rewrite bool_decide_eq_false_2 by congruence. done.
Qed.

Lemma rings_ok tx u h active :
  (_ ← (try_each (fun i inp => try_each (check_ring_member testnet u h i) (ring_members inp))
     (inputs tx));
   check_tx_ring_size_and_unique_members tx u h active) = Ok tt <->
  forall inp, inp ∈ inputs tx -> ring_ok u h active inp.
Proof.
  unfold check_tx_ring_size_and_unique_members, ring_ok. rewrite bind_ok. split.
  - intros ([]&H1&H2) inp [k Hk]%list_elem_of_lookup.
    apply (proj1 (try_each_ok _ _)) with k inp in H1, H2; [|done..].
    apply bind_ok in H2 as ([]&H2&H3). apply guard_or_ok in H2, H3.
    apply bool_decide_eq_true in H3. split; [lia|]. split; [done|].
    intros m [j Hj]%list_elem_of_lookup.
    apply (proj1 (try_each_ok _ _)) with j m in H1; [|done]. by apply check_ring_member_ok in H1.
  - intros H. exists tt.
    split; apply try_each_ok; intros k inp Hk;
      destruct (H inp ltac:(by eapply list_elem_of_lookup_2)) as (H1&H2&H3).
    + apply try_each_ok. intros j m Hj. apply check_ring_member_ok.
      apply H3. by eapply list_elem_of_lookup_2.
    + apply bind_ok. exists tt. split; apply guard_or_ok; [lia|by apply bool_decide_eq_true].
Qed.

Lemma balance_ok tx :
  is_coinbase tx = false -> inputs tx <> [] -> outputs tx <> [] ->
  verify_balance_proof tx = true <-> balanced tx.
Proof.
  intros Hc Hi Ho. unfold verify_balance_proof, balanced. rewrite Hc.
  rewrite !bool_decide_eq_false_2 by done.
  destruct (sum_points true _ _) as [a|]; [|naive_solver].
  destruct (sum_points false _ _) as [b|]; [|naive_solver].
  destruct (decompress (commit_zero (fee tx))) as [f|]; [|naive_solver].
  rewrite bool_decide_eq_true. naive_solver.
Qed.
(** *** Both directions of the acceptance theorem *)

Lemma nonempty_length {A} (l : list A) n : length l = S n -> l <> [].
Proof. by intros ? ->. Qed.

Lemma accepted_sound tx u h net :
  is_coinbase tx = false -> 0 <= h ->
  validate_transaction_for_network testnet tx u h net = Ok tt ->
  tx_accepted tx u h (v1_0_12_rules_active net h).
Proof.
  intros Hc Hh. unfold validate_transaction_for_network. rewrite Hc.
  set (active := v1_0_12_rules_active net h).
  intros ([]&H1&H)%bind_ok. apply bind_ok in H as ([]&H2&H).
  apply bind_ok in H as ([]&H3&H). apply bind_ok in H as ([]&_&H).
  apply bind_ok in H as ([]&H4&H). apply bind_ok in H as ([]&H5&H).
  apply bind_ok in H as ([]&H6&H). apply bind_ok in H as ([]&H7&H).
  apply bind_ok in H as ([]&H8&H). apply bind_ok in H as ([]&H9&H10).
  apply shape_ok in H4 as [Hi Ho]; [|done..].
  pose proof (proj1 (proj2 (counts_ok tx active Hi Ho)) H3) as Hl.
  apply no_double_spend_ok in H5 as [D1 D2].
  apply bind_ok in H6 as ([]&H6a&H6b).
  apply guard_or_ok in H1, H2, H8, H9, H10.
  split; try done.
  + unfold MAX_TX_VERSION in *. destruct (Z.eqb_spec (tx_version tx) 0); [done|].
    destruct (Z.ltb_spec 2 (tx_version tx)); [done|]. split_and!; [done|lia|].
    intros. destruct (Z.leb_spec 2 (tx_version tx)); [|lia].
    destruct (Z.ltb_spec h V2_TX_ACTIVATION_HEIGHT); [done|lia].
  + intros Ha. rewrite Ha in H6a. apply fresh_outputs_ok in H6a as [A1 A2].
    split; [done|]. intros o Hx. by destruct (A2 o Hx).
  + split; [done|]. intros ki Hki. unfold key_images in Hki.
    apply list_elem_of_fmap in Hki as (i&->&Hx). by destruct (D2 i Hx).
  + apply (proj1 (rings_ok tx u h active)). apply bind_ok. by exists tt.
  + intros i Hx. by eapply forallb_forall in H8; [|apply list_elem_of_In].
  + apply balance_ok in H10; try done; [by eapply nonempty_length|].
    destruct Ho as [Ho|[Ho _]]; by eapply nonempty_length.
Qed.

Lemma accepted_complete tx u h net :
  is_coinbase tx = false -> 0 <= h ->
  tx_accepted tx u h (v1_0_12_rules_active net h) ->
  validate_transaction_for_network testnet tx u h net = Ok tt.
Proof.
  intros Hc Hh. unfold validate_transaction_for_network. rewrite Hc.
  set (active := v1_0_12_rules_active net h).
  intros [Hver Hi Ho L A K R S P B].
  apply bind_ok. exists tt. split; [|apply bind_ok; exists tt; split].
  + apply guard_or_ok. unfold MAX_TX_VERSION.
    destruct (Z.eqb_spec (tx_version tx) 0); [lia|].
    destruct (Z.ltb_spec 2 (tx_version tx)); [lia|done].
  + apply guard_or_ok. destruct (Z.leb_spec 2 (tx_version tx)); [|done].
    destruct (Z.ltb_spec h V2_TX_ACTIVATION_HEIGHT); [lia|done].
  + destruct (counts_ok tx active Hi Ho) as [Cr Cc].
    apply bind_ok. exists tt. split; [by apply Cc|].
    apply bind_ok. exists tt. split; [done|].
    apply bind_ok. exists tt. split; [by apply shape_ok|].
    apply bind_ok. exists tt. split.
    { apply no_double_spend_ok. split; [apply K|]. intros i Hx. split; [set_solver|].
      apply K. by apply list_elem_of_fmap_2. }
    apply (proj2 (rings_ok tx u h active)) in R. apply bind_ok in R as ([]&R1&R2).
    apply bind_ok. exists tt. split.
    { apply bind_ok. exists tt. split; [|done]. destruct active; [|done].
      destruct (A eq_refl) as [A1 A2]. apply fresh_outputs_ok. split; [done|].
      intros o Hx. split; [set_solver|by apply A2]. }
    apply bind_ok. exists tt. split; [done|].
    apply bind_ok. exists tt. split.
    { apply guard_or_ok, forallb_forall. intros i Hx%list_elem_of_In. by apply S. }
    apply bind_ok. exists tt. split; [by apply guard_or_ok|].
    apply guard_or_ok, balance_ok; try done; [by eapply nonempty_length|].
    destruct Ho as [Ho|[Ho _]]; by eapply nonempty_length.
Qed.
End spec.

(** ** The cache invariant *)

Section cache.
Context {CR : Crypto} (blake3 : list Z -> Hash).
Implicit Types (tx : Transaction) (i : TxInput) (c : VerificationCache).

Abbreviation key_of tx i := (ring_sig_cache_key blake3 (signing_hash blake3 tx)
  (signature_bytes (signature i))).

(** Every cached key was the key of an input whose signature was valid. *)
Definition coherent c : Prop :=
  forall k t, ring_sig_cache c !! k = Some t ->
    exists tx i, key_of tx i = k /\ ring_signature_valid blake3 tx i = true.

Lemma evict_old_subset m t : evict_old m t ⊆ m.
Proof.
  unfold evict_old.
  set (m1 := match t with Some t => _ | None => _ end).
  assert (Hm : m1 ⊆ m) by (unfold m1; destruct t; [apply map_filter_subseteq|done]).
  etrans; [|exact Hm]. destruct (_ <=? _); [|done].
  generalize (take (Z.to_nat (MAX_CACHE_SIZE / 10)) (merge_sort access_le (map_to_list m1))).
  intros l. clearbody m1. clear. revert m1. induction l as [|e l IH]; intros m1; cbn; [done|].
  etrans; [apply IH|apply delete_subseteq].
Qed.

Lemma cache_coherent c now t tx i :
  coherent c -> coherent (cache_ring_sig c now t (key_of tx i) (ring_signature_valid blake3 tx i)).
Proof.
  intros Hc. unfold cache_ring_sig. destruct (ring_signature_valid blake3 tx i) eqn:Ev; [|done].
  intros k t' Hk. cbn in Hk. apply lookup_insert_Some in Hk as [[<- _]|[_ Hk]]; [by exists tx, i|].
  apply (Hc k t'). destruct (_ <=? _); [|done].
  eapply lookup_weaken; [exact Hk|apply evict_old_subset].
Qed.

Lemma check_coherent c now k :
  coherent c -> coherent (check_ring_sig c now k).1
  /\ match (check_ring_sig c now k).2 with
     | Some b => b = true /\ exists tx i, key_of tx i = k
                   /\ ring_signature_valid blake3 tx i = true
     | None => ring_sig_cache c !! k = None
     end.
Proof.
  intros Hc. unfold check_ring_sig. destruct (ring_sig_cache c !! k) as [t|] eqn:E; cbn; [|done].
  split; [|split; [done|by apply (Hc k t)]].
  intros k' t' Hk. cbn in Hk.
  apply lookup_insert_Some in Hk as [[<- _]|[_ Hk]]; [by apply (Hc k t)|by apply (Hc k' t')].
Qed.
End cache.

(** ** Theorems *)

Section theorems.
Context {CR : Crypto} {V : Verdicts}.

(** C5: A transaction is accepted for a block exactly when it has two inputs and
    two outputs (three for an asset transfer), its key images are distinct and
    unspent, every ring has the demanded size and consists of distinct outputs
    of this chain with the commitments it claims, mature and unlocked, the
    verifier answers yes for every ring signature and for the range proof, and
    inputs and outputs balance;
    under the v1.0.12 rules the outputs also have fresh stealth addresses and
    bounded fields.  In particular the legacy ratio and count limits never
    decide. *)
Theorem accepted_transaction_exact testnet tx u h net :
  is_coinbase tx = false -> 0 <= h ->
  validate_transaction_for_network testnet tx u h net = Ok tt <->
  tx_accepted testnet tx u h (v1_0_12_rules_active net h).
Proof.
  intros Hc Hh. split; [by apply accepted_sound|by apply accepted_complete].
Qed.

(** The cache of verified ring signatures never invents an answer: from an
    empty cache, whatever signatures are verified in whatever order and
    whatever is evicted, a positive answer for an input means that some input
    with the same cache key (message and signature bytes) has been verified on
    the curve; a negative answer is the answer of the curve. *)
Theorem cached_answer_justified blake3 c now t tx i c' ok :
  coherent blake3 c -> verify_ring_signature blake3 c now t tx i = (c', ok) ->
  coherent blake3 c'
  /\ (ok = false -> ring_signature_valid blake3 tx i = false)
  /\ (ok = true -> exists tx' i',
       ring_sig_cache_key blake3 (signing_hash blake3 tx') (signature_bytes (signature i'))
         = ring_sig_cache_key blake3 (signing_hash blake3 tx) (signature_bytes (signature i))
       /\ ring_signature_valid blake3 tx' i' = true).
Proof.
  intros Hc. unfold verify_ring_signature.
  set (k := ring_sig_cache_key _ _ _).
  destruct (check_coherent blake3 c now k Hc) as [H1 H2].
  destruct (check_ring_sig c now k) as [c1 [b|]]; cbn in H1, H2.
  - destruct H2 as [-> H2]. intros [= <- <-]. split_and!; done.
  - intros [= <- <-]. split_and!; [by apply cache_coherent|done|].
    intros Hv. by exists tx, i.
Qed.

(** The cache key covers the message and the signature bytes but not the ring,
    the key image or the pseudo-output of the input.  All inputs of a
    transaction share one message, so an input that repeats the signature of
    an earlier, valid one is accepted from the cache whatever it claims to
    spend and whatever its own verification would say. *)
Theorem cached_signature_covers_other_inputs blake3 c now t tx i j :
  ring_signature_valid blake3 tx i = true -> signature j = signature i ->
  (verify_inputs blake3 c now t tx [i; j]).2 = true.
Proof.
  intros Hi Hs. cbn [verify_inputs]. unfold verify_ring_signature. rewrite Hs.
  set (k := ring_sig_cache_key _ _ _). unfold check_ring_sig.
  destruct (ring_sig_cache c !! k) as [x|] eqn:E; cbn.
  - by rewrite lookup_insert_eq.
  - rewrite Hi. cbn. by rewrite lookup_insert_eq.
Qed.

Lemma Forall2_lookup_r_elem {A B} (P : A -> B -> Prop) (l : list A) (k : list B) y :
  Forall2 P l k -> y ∈ k -> exists x, x ∈ l /\ P x y.
Proof.
  induction 1 as [|x y' l k Hp _ IH]; [by intros ?%not_elem_of_nil|].
  intros [->|Hy]%elem_of_cons; [exists x; split; [left|done]|].
  destruct (IH Hy) as (z&Hz&Hpz). exists z. split; [by right|done].
Qed.

(** [tx'] spends what [tx] spends: same rings and pseudo-outputs, and every signature
    carries the key image that the signature of [tx] carries.  The key image the
    input itself names, the signature and the addresses of the outputs are other
    ones. *)
Record respends (tx tx' : Transaction) : Prop := {
  re_version : tx_version tx' = tx_version tx;
  re_type : tx_type tx' = tx_type tx;
  re_fee : fee tx' = fee tx;
  re_proof : range_proof tx' = range_proof tx;
  re_inputs : Forall2 (fun i i' =>
    sig_key_image (signature i') = sig_key_image (signature i)
    /\ ring_members i' = ring_members i
    /\ pseudo_output_commitment i' = pseudo_output_commitment i) (inputs tx) (inputs tx');
  re_outputs : Forall2 (fun o o' =>
    commitment o' = commitment o /\ encrypted_amount o' = encrypted_amount o
    /\ encrypted_memo o' = encrypted_memo o) (outputs tx) (outputs tx');
}.

Lemma respends_lists tx tx' :
  respends tx tx' ->
  (pseudo_output_commitment <$> inputs tx') = (pseudo_output_commitment <$> inputs tx)
  /\ (ring_members <$> inputs tx') = (ring_members <$> inputs tx)
  /\ (commitment <$> outputs tx') = (commitment <$> outputs tx)
  /\ length (inputs tx') = length (inputs tx) /\ length (outputs tx') = length (outputs tx).
Proof.
  intros [_ _ _ _ Hi Ho]. split_and!.
  - induction Hi as [|???? (_&_&He) _ IH]; [done|]. rewrite !fmap_cons. congruence.
  - induction Hi as [|???? (_&He&_) _ IH]; [done|]. rewrite !fmap_cons. congruence.
  - induction Ho as [|???? (He&_) _ IH]; [done|]. rewrite !fmap_cons. congruence.
  - symmetry. by eapply Forall2_length.
  - symmetry. by eapply Forall2_length.
Qed.

Lemma range_of_commitments tx tx' h :
  is_coinbase tx' = is_coinbase tx -> range_proof tx' = range_proof tx ->
  (commitment <$> outputs tx') = (commitment <$> outputs tx) ->
  verify_output_range_proofs tx' h = verify_output_range_proofs tx h.
Proof.
  intros Hc Hp Ho. unfold verify_output_range_proofs. rewrite Hc, Hp, Ho.
  assert (Hm : forall t : Transaction, mapM (fun o => decompress (commitment o)) (outputs t)
    = mapM decompress (commitment <$> outputs t)).
  { intros t. induction (outputs t) as [|o l IH]; [done|]. cbn. by rewrite IH. }
  by rewrite (Hm tx'), (Hm tx), Ho.
Qed.

(** C16: An output can be spent twice.  The double-spend check reads the key image that
    the input names, never the one inside the ring signature, and nothing compares
    the two.  So when a transaction has been accepted and its key images are marked
    as spent, a second transaction over the same rings is accepted too although its
    signatures carry the very key images of the first: it is enough that the verifier
    answers yes for its signatures, that its inputs name other unspent key images and
    that its outputs have addresses of their own. *)
Theorem spent_output_respendable testnet tx tx' u h net :
  is_coinbase tx = false -> 0 <= h ->
  validate_transaction_for_network testnet tx u h net = Ok tt ->
  respends tx tx' ->
  NoDup (key_images tx') ->
  (forall ki, ki ∈ key_images tx' -> (ki ∉ key_images tx) /\ ki ∉ u_key_images u) ->
  NoDup (stealth_address <$> outputs tx') ->
  (forall o, o ∈ outputs tx' -> get_output_index_entry u (stealth_address o) = None) ->
  (forall i, i ∈ inputs tx' -> sig_verdict tx' i = true) ->
  validate_transaction_for_network testnet tx'
    (set_key_images u (u_key_images u ∪ list_to_set (key_images tx))) h net = Ok tt.
Proof.
  intros Hc Hh Hv Hre Hnd Hk Hnda Ha Hs.
  apply accepted_sound in Hv as [Hver Hi Ho L A K R S P B]; [|done..].
  destruct (respends_lists tx tx' Hre) as (E1&E2&E3&E4&E5).
  destruct Hre as [Rv Rt Rf Rp Ri Ro].
  assert (Hc' : is_coinbase tx' = is_coinbase tx) by (unfold is_coinbase; by rewrite Rt).
  apply accepted_complete; [congruence|done|]. split.
  - by rewrite Rv.
  - congruence.
  - by rewrite E5, Rt.
  - intros Hact o' Ho'. destruct (Forall2_lookup_r_elem _ _ _ o' Ro Ho') as (o&Hino&_&->&->).
    by apply L.
  - done.
  - split; [done|]. intros ki Hki. cbn. destruct (Hk ki Hki). set_solver.
  - intros i' Hi'. destruct (Forall2_lookup_r_elem _ _ _ i' Ri Hi') as (i&Hini&_&Hm&_).
    destruct (R i Hini) as (R1&R2&R3). unfold ring_ok. rewrite Hm. by split_and!.
  - done.
  - by rewrite (range_of_commitments tx tx').
  - destruct B as (a&b&f&B1&B2&B3&B4). exists a, b, f. by rewrite E1, E3, Rf.
Qed.
End theorems.

(** ** Witnesses

    A toy group: points are integers, a signature is bound to the pseudo-output
    it carries as its commitment image. *)

#[export] Instance toy_crypto : Crypto := {|
  Point := Z;
  identity := 0;
  point_add := Z.add;
  decompress := head;
  commit_zero v := [v];
  clsag_verify m ring p s := bool_decide (commitment_image s = [p]);
  range_proof_parses p := true;
  range_proofs_verify cs p h := true;
  signature_bytes s := sig_key_image s ++ commitment_image s;
|}.

Definition toy_hash (l : list Z) : Hash := l.

#[export] Instance toy_verdicts : Verdicts := curve_verdicts toy_hash.

Definition toy_output (a v : Z) : TxOutput :=
  mkTxOutput [a] [a] [v] (replicate 8 0) 0 None [].

Definition toy_ring : list RingMemberRef := [mkRingMemberRef [1] [5]; mkRingMemberRef [2] [5]].

(** An input that claims key image [k], with a signature whose key image is [s]
    and which is bound to pseudo-output [p]. *)
Definition toy_input (k s p v : Z) : TxInput :=
  mkTxInput [k] toy_ring (mkClsagSignature [s] [p] [] []) [v].

Definition toy_tx (ins : list TxInput) (a : Z) : Transaction :=
  mkTransaction 1 Transfer ins [toy_output a 4; toy_output (a + 1) 5] 1 [1] [].

(** Two coinbase outputs at height 1. *)
Definition toy_utxos : UtxoSet :=
  connect extra UtxoSet_new 1
    [mkTransaction 1 Coinbase [] [toy_output 1 5; toy_output 2 5] 0 [] [9]].

Definition toy_spend (k : Z) : Transaction :=
  toy_tx [toy_input k 77 5 5; toy_input (k + 1) 78 5 5] (10 * k).

Lemma accepted_transaction_exact_witness :
  tx_accepted false (toy_spend 50) toy_utxos 200 true.
Proof.
  apply (accepted_transaction_exact false (toy_spend 50) toy_utxos 200 Mainnet);
    [reflexivity|lia|vm_compute; reflexivity].
Defined.

Lemma cached_answer_justified_witness :
  coherent toy_hash (verify_ring_signature toy_hash VerificationCache_new 0 None
    (toy_spend 50) (toy_input 50 77 5 5)).1.
Proof.
  destruct (verify_ring_signature toy_hash VerificationCache_new 0 None (toy_spend 50)
    (toy_input 50 77 5 5)) as [c ok] eqn:E.
  apply (cached_answer_justified toy_hash VerificationCache_new 0 None (toy_spend 50)
    (toy_input 50 77 5 5) c ok); [|exact E].
  intros k t Hk. cbn in Hk. by rewrite lookup_empty in Hk.
Defined.

(** The second input repeats the signature of the first one and claims a
    pseudo-output of 1000. *)
Lemma cached_signature_covers_other_inputs_witness :
  let forged := toy_input 99 77 5 1000 in
  let tx := toy_tx [toy_input 50 77 5 5; forged] 60 in
  ring_signature_valid toy_hash tx forged = false
  /\ (verify_inputs toy_hash VerificationCache_new 0 None tx (inputs tx)).2 = true.
Proof.
  split; [vm_compute; reflexivity|].
  apply (cached_signature_covers_other_inputs toy_hash VerificationCache_new 0 None
    (toy_tx [toy_input 50 77 5 5; toy_input 99 77 5 1000] 60) (toy_input 50 77 5 5)
    (toy_input 99 77 5 1000)); vm_compute; reflexivity.
Defined.

(** Two transactions whose signatures carry the same key images 77 and 78: the
    second one is valid after the key images of the first are spent. *)
Lemma spent_output_respendable_witness :
  sig_key_image ∘ signature <$> inputs (toy_spend 60)
    = sig_key_image ∘ signature <$> inputs (toy_spend 50)
  /\ validate_transaction_for_network false (toy_spend 50) toy_utxos 200 Mainnet = Ok tt
  /\ validate_transaction_for_network false (toy_spend 60)
       (set_key_images toy_utxos
          (u_key_images toy_utxos ∪ list_to_set (key_images (toy_spend 50)))) 200 Mainnet
     = Ok tt.
Proof.
  assert (Hd : forall (Q : KeyImage -> Prop) k, Forall Q [[60]; [61]] ->
    k ∈ key_images (toy_spend 60) -> Q k).
  { intros Q k Hq Hk. by eapply Forall_forall. }
  split_and!; [reflexivity|vm_compute; reflexivity|].
  apply (spent_output_respendable false (toy_spend 50) (toy_spend 60) toy_utxos 200 Mainnet).
  - reflexivity.
  - lia.
  - vm_compute; reflexivity.
  - split; try reflexivity; repeat constructor.
  - apply (bool_decide_unpack _). vm_compute. exact I.
  - intros ki Hki. apply (Hd (fun ki => (ki ∉ key_images (toy_spend 50))
      /\ ki ∉ u_key_images toy_utxos) ki); [|exact Hki].
    repeat constructor; apply (bool_decide_unpack _); vm_compute; exact I.
  - apply (bool_decide_unpack _). vm_compute. exact I.
  - intros o Ho. repeat (apply elem_of_cons in Ho as [->|Ho]; [vm_compute; reflexivity|]).
    by apply not_elem_of_nil in Ho.
  - intros i Hi. repeat (apply elem_of_cons in Hi as [->|Hi]; [vm_compute; reflexivity|]).
    by apply not_elem_of_nil in Hi.
Defined.
