(* ===== verification/BlockValidation.v ===== *)
(** * Block validation ([src/consensus/validation.rs])

    [validate_block_with_checkpoint_for_network] with all its sub-checks, in
    the order of the code and with its early returns.  The proof-of-work
    function, the wall clock, the hash and size of a transaction and the build
    feature [insecure-fast-sync] are arguments.  The validator is an instance
    of the [BlockValidator] interface of the chain. *)

From stdpp Require Import prelude gmap.
From Stdlib Require Import ZArith Lia.
From S2P Require Import Prelude Constants Encoding Emission FeeMarket Difficulty Block Utxo.
From S2P Require Import ForkChoice Chain ChainLedger TxValidation.

Local Open Scope Z_scope.

(** ** The result *)

Inductive block_error :=
| WrongNetworkMagic
| ConsensusCheckpointMismatch
| VersionBelowMinimum
| NonGenesisWithoutParent
| VersionDecrease
| InvalidHeaderHeight
| PreviousHashMismatch
| TimestampNotGreater
| FutureCheckpointVote
| SystemClockError
| TimestampInFuture
| ProofOfWorkInvalid
| TargetTooEasy
| TargetIsZero
| AdjustmentOutOfBounds
| NoPreviousForPow
| BlockTooLarge
| BlockTooHeavy
| TooManyTransactions
| MissingCoinbase
| FirstNotCoinbase
| InvalidMerkleRoot
| PrivacyViolation (e : tx_error)
| CoinbaseMaxOverflow
| RewardBelowTail
| RewardAboveGenesis
| CoinbaseNoOutputs
| CoinbaseHasInputs
| CoinbaseTooManyOutputs
| CoinbaseDust
| CoinbaseAmountEncoding (idx : nat)
| CoinbaseCommitmentMismatch (idx : nat)
| CoinbaseIdentityCommitment (idx : nat)
| CoinbaseInvalidCommitment (idx : nat)
| CoinbaseSumOverflow (idx : nat)
| CoinbaseTotalMismatch
| DuplicateTxHash
| DuplicateKeyImageInBlock
| DuplicateStealthInBlock (tx out : nat)
| FeeOverflow (idx : nat)
| FeeTooLowForCongestion (idx : nat)
| InvalidBlockTransaction (idx : nat) (e : tx_error)
| MultipleCoinbase (idx : nat).

Record BlockValidation := mkBlockValidation {
  valid : bool;
  errors : list block_error;
  warnings : nat;
}.

Definition validation_ok : BlockValidation := mkBlockValidation true [] 0.

Definition add_error (e : block_error) (r : BlockValidation) : BlockValidation :=
  mkBlockValidation false (errors r ++ [e]) (warnings r).

Definition add_warning (r : BlockValidation) : BlockValidation :=
  mkBlockValidation (valid r) (errors r) (S (warnings r)).

(** [if bad { result.add_error(e) }] *)
Definition error_if (bad : bool) (e : block_error) (r : BlockValidation) : BlockValidation :=
  if bad then add_error e r else r.

Section block.
Context {CR : Crypto} {V : Verdicts}.
Context (blake3 : list Z -> Hash).
Context (tx_hash : Transaction -> Hash) (tx_size : Transaction -> Z).
(** [verify_pow]: previous hash, height, timestamp, nonce, transaction root,
    target, anchor, algorithm. *)
Context (verify_pow : Hash -> Z -> Z -> Z -> Hash -> Hash -> Hash -> Z -> bool).
(** Seconds since the epoch; [None] is a clock before it. *)
Context (clock : option Z).
(** The crate features. *)
Context (testnet insecure_fast_sync : bool).

Implicit Types (b : Block) (r : BlockValidation) (u : UtxoSet).

(** ** Sub-checks of the block *)

Definition magic_bytes (net : NetworkType) : list Z :=
  match net with
  | Mainnet => MAINNET_MAGIC
  | Testnet => TESTNET_MAGIC
  | Regtest => REGTEST_MAGIC
  end.

Definition check_block_network_magic b (net : NetworkType) r : BlockValidation * bool :=
  if bool_decide (network_magic (header b) = [0; 0; 0; 0]) && (block_height b =? 0)
  then (r, true)
  else if negb (bool_decide (network_magic (header b) = magic_bytes net)) then
    (add_error WrongNetworkMagic r, false)
  else (r, true).

Definition check_block_consensus_checkpoint b r : BlockValidation * bool :=
  match expected_checkpoint_hash (block_height b) with
  | Some expected =>
      if negb (bool_decide (block_hash blake3 b = expected)) then
        (add_error ConsensusCheckpointMismatch r, false)
      else (r, true)
  | None => (r, true)
  end.

Definition check_block_size (size : Z) r : BlockValidation :=
  error_if (MAX_BLOCK_SIZE <? size) BlockTooLarge r.

Definition RING_SIG_WEIGHT : Z := 256.
Definition MAX_BLOCK_WEIGHT : Z := MAX_BLOCK_SIZE * 4.

Definition tx_weight (tx : Transaction) : Z :=
  tx_size tx
  + foldr (fun i n => zlen (ring_members i) + n) 0 (inputs tx) * RING_SIG_WEIGHT.

Definition check_block_weight b r : BlockValidation :=
  let block_weight := foldr (fun tx n => tx_weight tx + n) 0 (transactions b) in
  error_if (MAX_BLOCK_WEIGHT <? block_weight) BlockTooHeavy r.

Definition check_block_tx_count b r : BlockValidation :=
  error_if (MAX_TXS_PER_BLOCK <? zlen (transactions b)) TooManyTransactions r.

Definition check_block_has_coinbase b r : BlockValidation * bool :=
  match transactions b with
  | [] => (add_error MissingCoinbase r, false)
  | _ => (r, true)
  end.

Definition check_block_first_tx_is_coinbase b r : BlockValidation :=
  match transactions b with
  | first_tx :: _ => error_if (negb (is_coinbase first_tx)) FirstNotCoinbase r
  | [] => add_error MissingCoinbase r
  end.

Definition check_block_merkle_root b (tx_hashes : list Hash) r : BlockValidation :=
  error_if (negb (bool_decide (merkle_root blake3 tx_hashes = Some (tx_root (header b)))))
    InvalidMerkleRoot r.

Definition check_block_privacy_policy b r : BlockValidation :=
  match enforce_privacy_policy b with
  | Ok _ => r
  | Err e => add_error (PrivacyViolation e) r
  end.

Definition check_block_tail_supply (expected_reward : Z) r : BlockValidation :=
  let r := error_if (expected_reward <? TAIL_EMISSION) RewardBelowTail r in
  error_if (reward 0 <? expected_reward) RewardAboveGenesis r.

(** One error per element that is already in the set. *)
Fixpoint report_duplicates {A} `{Countable A} (e : block_error) (seen : gset A) (l : list A) r
  : BlockValidation :=
  match l with
  | [] => r
  | x :: l => report_duplicates e ({[x]} ∪ seen) l (error_if (bool_decide (x ∈ seen)) e r)
  end.

Definition check_block_duplicate_tx_hashes (tx_hashes : list Hash) r : BlockValidation :=
  report_duplicates DuplicateTxHash ∅ tx_hashes r.

Definition block_key_images b : list KeyImage := concat (key_images <$> transactions b).

Definition check_block_duplicate_key_images b r : BlockValidation :=
  report_duplicates DuplicateKeyImageInBlock ∅ (block_key_images b) r.

(** Stealth addresses with their positions. *)
Definition block_addresses b : list (nat * nat * PublicKey) :=
  concat (imap (fun i tx => imap (fun j o => (i, j, stealth_address o)) (outputs tx))
    (transactions b)).

Fixpoint report_stealth (seen : gset PublicKey) (l : list (nat * nat * PublicKey)) r
  : BlockValidation :=
  match l with
  | [] => r
  | (i, j, a) :: l =>
      report_stealth ({[a]} ∪ seen) l
        (error_if (bool_decide (a ∈ seen)) (DuplicateStealthInBlock i j) r)
  end.

(** ** The header *)

Definition check_header_version_min (h : BlockHeader) r : BlockValidation :=
  error_if (version h <? block_version_at_height (h_height h)) VersionBelowMinimum r.

Definition check_header_vs_prev (h : BlockHeader) (prev : option BlockHeader) r
  : BlockValidation :=
  match prev with
  | None => error_if (negb (h_height h =? 0)) NonGenesisWithoutParent r
  | Some prev =>
      let r := error_if (version h <? version prev) VersionDecrease r in
      let r := error_if (negb (h_height h =? wrap64 (h_height prev + 1))) InvalidHeaderHeight r in
      let r := error_if (negb (bool_decide (prev_hash h = header_hash blake3 prev)))
                 PreviousHashMismatch r in
      error_if (h_timestamp h <=? h_timestamp prev) TimestampNotGreater r
  end.

Definition check_header_checkpoint_vote (h : BlockHeader) r : BlockValidation :=
  match checkpoint_vote h with
  | Some (cp_height, _) => error_if (h_height h <=? cp_height) FutureCheckpointVote r
  | None => r
  end.

Definition MIN_REASONABLE_TIME : Z := 1577836800.

Definition check_header_future_timestamp (h : BlockHeader) r : BlockValidation :=
  match clock with
  | None => add_error SystemClockError r
  | Some current_time =>
      let r := if current_time <? MIN_REASONABLE_TIME then add_warning r else r in
      error_if ((0 <? h_height h)
                && (wrap64 (current_time + MAX_TIMESTAMP_DRIFT) <? h_timestamp h))
        TimestampInFuture r
  end.

Definition validate_header (h : BlockHeader) (prev : option BlockHeader) r : BlockValidation :=
  let r := check_header_version_min h r in
  let r := check_header_vs_prev h prev r in
  let r := check_header_checkpoint_vote h r in
  check_header_future_timestamp h r.

(** ** The difficulty sanity gate *)

(** [target_to_u128] of this file: the first 16 bytes, zero included. *)
Definition target_value (t : Hash) : Z := be_val (take 16 t).

Definition ratio_scaled (target_u128 prev_value : Z) : Z :=
  if u128_max / 1000 <? target_u128 then
    let a := Z.shiftr target_u128 10 in
    let b := Z.max (Z.shiftr prev_value 10) 1 in
    a * 1000 / b
  else target_u128 * 1000 / prev_value.

Definition validate_difficulty_target b (prev_block : option Block) r : BlockValidation :=
  let target := h_target (header b) in
  let target_u128 := target_value target in
  let max_value := target_value max_target in
  if max_value <? target_u128 then add_error TargetTooEasy r
  else if forallb (fun x => x =? 0) target then add_error TargetIsZero r
  else
    match prev_block with
    | None => r
    | Some prev =>
        let prev_value := target_value (h_target (header prev)) in
        if (0 <? prev_value) && (0 <? target_u128) then
          let ratio := ratio_scaled target_u128 prev_value in
          let time_diff := sat_sub (h_timestamp (header b)) (h_timestamp (header prev)) in
          let '(min_ratio, max_ratio) :=
            if TARGET_BLOCK_TIME * 5 <=? time_diff then (4, 256000) else (31, 32000) in
          error_if ((ratio <? min_ratio) || (max_ratio <? ratio)) AdjustmentOutOfBounds r
        else r
    end.

(** ** The coinbase *)

(** The part of the loop over the coinbase outputs after the amount is read. *)
Definition check_coinbase_commitment (idx : nat) (o : TxOutput) (declared : Z) r
  : BlockValidation * bool :=
  let mismatch := negb (bool_decide (commitment o = commit_zero declared)) in
  let r := error_if mismatch (CoinbaseCommitmentMismatch idx) r in
  match decompress (commitment o) with
  | Some p =>
      if bool_decide (p = identity) then (add_error (CoinbaseIdentityCommitment idx) r, false)
      else (r, negb mismatch)
  | None => (add_error (CoinbaseInvalidCommitment idx) r, false)
  end.

(** The loop: the sum of the declared amounts and whether all were valid. *)
Fixpoint coinbase_loop (v1_0_12_active : bool) (idx : nat) (outs : list TxOutput)
    (total_declared : Z) (all_valid : bool) r : BlockValidation * Z * bool :=
  match outs with
  | [] => (r, total_declared, all_valid)
  | o :: outs =>
      let len := zlen (encrypted_amount o) in
      let length_ok := if v1_0_12_active then len =? 8 else 8 <=? len in
      if negb length_ok then
        coinbase_loop v1_0_12_active (S idx) outs total_declared false
          (add_error (CoinbaseAmountEncoding idx) r)
      else
        let declared := le_val (take 8 (encrypted_amount o)) in
        let '(r, ok) := check_coinbase_commitment idx o declared r in
        let all_valid := all_valid && ok in
        match checked_add u64_max total_declared declared with
        | Some next => coinbase_loop v1_0_12_active (S idx) outs next all_valid r
        | None => (add_error (CoinbaseSumOverflow idx) r, total_declared, false)
        end
  end.

Definition check_coinbase (v1_0_12_active fast_sync : bool) b (max_coinbase : Z) r
  : BlockValidation :=
  match transactions b with
  | [] => r
  | coinbase :: _ =>
      let n := zlen (outputs coinbase) in
      let r := error_if (n =? 0) CoinbaseNoOutputs r in
      let r := error_if (negb (bool_decide (inputs coinbase = [])) && negb (is_coinbase coinbase))
                 CoinbaseHasInputs r in
      let r := error_if (16 <? n) CoinbaseTooManyOutputs r in
      let r := error_if ((1 <? n) && (max_coinbase <? sat_mul u64_max MIN_OUTPUT_AMOUNT n))
                 CoinbaseDust r in
      if (0 <? block_height b) && negb fast_sync then
        let '(r, total_declared, all_valid) :=
          coinbase_loop v1_0_12_active 0 (outputs coinbase) 0 true r in
        error_if (all_valid && negb (total_declared =? max_coinbase)) CoinbaseTotalMismatch r
      else r
  end.

(** ** Fees *)

Definition congestion_pct (size : Z) : Z := wrap64 (size * 100 / MAX_BLOCK_SIZE).

Definition max_coinbase b (size : Z) : option Z :=
  let expected_reward := reward (block_height b) in
  if (FEE_DISTRIBUTION_HEIGHT testnet <=? block_height b) && (0 <? total_fees b) then
    let congested := CONGESTION_THRESHOLD <=? congestion_pct size in
    let dist := distribute_fee (total_fees b) congested in
    checked_add u64_max expected_reward (to_miner dist)
  else checked_add u64_max expected_reward (total_fees b).

Definition dynamic_min (size multiplier_x100 : Z) : option Z :=
  v ← checked_mul u64_max size MIN_FEE_PER_BYTE;
  v ← checked_mul u64_max v multiplier_x100;
  Some (v / 100).

Fixpoint check_fees (multiplier_x100 : Z) (idx : nat) (txs : list Transaction) r
  : BlockValidation :=
  match txs with
  | [] => r
  | tx :: txs =>
      let r :=
        match dynamic_min (tx_size tx) multiplier_x100 with
        | None => add_error (FeeOverflow idx) r
        | Some m => error_if (fee tx <? m) (FeeTooLowForCongestion idx) r
        end in
      check_fees multiplier_x100 (S idx) txs r
  end.

(** ** Transactions *)

Fixpoint check_txs (check : Transaction -> result tx_error unit) (idx : nat)
    (txs : list Transaction) r : BlockValidation :=
  match txs with
  | [] => r
  | tx :: txs =>
      let r :=
        if is_coinbase tx then add_error (MultipleCoinbase idx) r
        else match check tx with
             | Ok _ => r
             | Err e => add_error (InvalidBlockTransaction idx e) r
             end in
      check_txs check (S idx) txs r
  end.

(** ** The driver *)

(** Proof of work and sanity gate of a block above genesis. *)
Definition check_block_pow b (prev_block : option Block) (fast_sync_requested : bool) r
  : BlockValidation :=
  if 0 <? block_height b then
    match prev_block with
    | Some prev =>
        let h := header b in
        let fast_sync := fast_sync_requested && insecure_fast_sync in
        let r :=
          if fast_sync then r
          else if fast_sync_requested then r
          else error_if (negb (verify_pow (header_hash blake3 (header prev)) (block_height b)
                  (h_timestamp h) (nonce h) (tx_root h) (h_target h) (anchor h) (algorithm h)))
                 ProofOfWorkInvalid r in
        validate_difficulty_target b prev_block r
    | None => add_error NoPreviousForPow r
    end
  else r.

(** Everything after the coinbase limit is known. *)
Definition check_block_body b u (net : NetworkType) (v1_0_12_active fast_sync : bool)
    (size limit : Z) (tx_hashes : list Hash) r : BlockValidation :=
  let r := check_block_tail_supply (reward (block_height b)) r in
  let r := check_coinbase v1_0_12_active fast_sync b limit r in
  let r := check_block_duplicate_tx_hashes tx_hashes r in
  let r := check_block_duplicate_key_images b r in
  let r := report_duplicates DuplicateKeyImageInBlock ∅ (block_key_images b) r in
  let r := if v1_0_12_active then report_stealth ∅ (block_addresses b) r else r in
  if negb (valid r) then r
  else
    let r :=
      if (0 <? block_height b) && negb fast_sync then
        check_fees (congestion_multiplier (congestion_pct size)) 1 (drop 1 (transactions b)) r
      else r in
    if fast_sync then check_txs (fun _ => Ok tt) 1 (drop 1 (transactions b)) r
    else
      check_txs (fun tx =>
        validate_transaction_for_network testnet tx u (block_height b) net) 1
        (drop 1 (transactions b)) r.

Definition validate_block_for_network b (prev_block : option Block) u
    (checkpoint_height : option Z) (net : NetworkType) : BlockValidation :=
  let r := validation_ok in
  let '(r, go) := check_block_network_magic b net r in
  if negb go then r else
  let '(r, go) := check_block_consensus_checkpoint b r in
  if negb go then r else
  let v1_0_12_active := v1_0_12_rules_active net (block_height b) in
  let fast_sync_requested :=
    match checkpoint_height with Some cp => block_height b <=? cp | None => false end in
  let fast_sync := fast_sync_requested && insecure_fast_sync in
  let r := validate_header (header b) (header <$> prev_block) r in
  let r := check_block_pow b prev_block fast_sync_requested r in
  let size := block_size tx_size b in
  let r := check_block_size size r in
  let r := check_block_weight b r in
  let r := check_block_tx_count b r in
  let '(r, go) := check_block_has_coinbase b r in
  if negb go then r else
  let r := check_block_first_tx_is_coinbase b r in
  let tx_hashes := tx_hash <$> transactions b in
  let r := check_block_merkle_root b tx_hashes r in
  let r := check_block_privacy_policy b r in
  match max_coinbase b size with
  | None => add_error CoinbaseMaxOverflow r
  | Some limit =>
      check_block_body b u net v1_0_12_active fast_sync size limit tx_hashes r
  end.
End block.

(** ** What a valid block satisfies *)

Create Rewrite HintDb validity.

Lemma valid_error_if bad e r :
  valid (error_if bad e r) = true <-> bad = false /\ valid r = true.
Proof. destruct bad; cbn; naive_solver. Qed.

Lemma valid_add_error e r : valid (add_error e r) = true <-> False.
Proof. done. Qed.

Lemma valid_add_warning r : valid (add_warning r) = true <-> valid r = true.
Proof. done. Qed.

Hint Rewrite valid_error_if valid_add_error valid_add_warning : validity.

Lemma checked_add_some m x y n : checked_add m x y = Some n -> n = x + y /\ n <= m.
Proof. unfold checked_add. destruct (Z.leb_spec (x + y) m); naive_solver. Qed.

(** Reduce the validity of a chain of checks to the conjunction of the checks. *)
Ltac validity := autorewrite with validity in *.

Section spec.
Context {CR : Crypto} {V : Verdicts}.
Context (blake3 : list Z -> Hash).
Context (tx_hash : Transaction -> Hash) (tx_size : Transaction -> Z).
Context (verify_pow : Hash -> Z -> Z -> Z -> Hash -> Hash -> Hash -> Z -> bool).
Context (clock : option Z) (testnet insecure_fast_sync : bool).
Implicit Types (b : Block) (r : BlockValidation) (u : UtxoSet).

Lemma valid_duplicates {A} `{Countable A} e (l : list A) : forall seen r,
  valid (report_duplicates e seen l r) = true <->
  (NoDup l /\ (forall x, x ∈ l -> x ∉ seen)) /\ valid r = true.
Proof.
  induction l as [|x l IH]; intros seen r; cbn.
  { split; [|naive_solver]. intros Hv. split; [|done]. split; [apply NoDup_nil_2|set_solver]. }
  rewrite IH, valid_error_if, NoDup_cons, bool_decide_eq_false. split.
  - intros [[Hn Hs] [Hx Hr]]. split_and!; try done; [intros Hin; by destruct (Hs x Hin); set_solver|].
    intros y [->|Hy]%elem_of_cons; [done|]. specialize (Hs y Hy). set_solver.
  - intros [[[Hx Hn] Hs] Hr]. split_and!; try done; [|apply Hs; set_solver].
    intros y Hy. specialize (Hs y ltac:(set_solver)).
    intros [->%elem_of_singleton|]%elem_of_union; done.
Qed.

Lemma valid_stealth l : forall seen r,
  valid (report_stealth seen l r) = true <->
  (NoDup l.*2 /\ (forall x, x ∈ l.*2 -> x ∉ seen)) /\ valid r = true.
Proof.
  induction l as [|[[i j] x] l IH]; intros seen r; cbn.
  { split; [|naive_solver]. intros Hv. split; [|done]. split; [apply NoDup_nil_2|set_solver]. }
  rewrite IH, valid_error_if, NoDup_cons, bool_decide_eq_false. split.
  - intros [[Hn Hs] [Hx Hr]]. split_and!; try done; [intros Hin; by destruct (Hs x Hin); set_solver|].
    intros y [->|Hy]%elem_of_cons; [done|]. specialize (Hs y Hy). set_solver.
  - intros [[[Hx Hn] Hs] Hr]. split_and!; try done; [|apply Hs; set_solver].
    intros y Hy. specialize (Hs y ltac:(set_solver)).
    intros [->%elem_of_singleton|]%elem_of_union; done.
Qed.

Lemma valid_fees m l : forall idx r,
  valid (check_fees tx_size m idx l r) = true <->
  (forall tx, tx ∈ l -> exists v, dynamic_min (tx_size tx) m = Some v /\ v <= fee tx)
  /\ valid r = true.
Proof.
  induction l as [|tx l IH]; intros idx r; cbn; [set_solver|]. rewrite IH.
  destruct (dynamic_min (tx_size tx) m) as [v|] eqn:E.
  - rewrite valid_error_if, Z.ltb_ge. split.
    + intros (H1&H2&H3). split; [|done]. intros t [->|Ht]%elem_of_cons; eauto.
    + intros (H1&H2). split_and!; try done; [set_solver|].
      destruct (H1 tx ltac:(set_solver)) as (v'&E'&?). congruence.
  - split; [naive_solver|]. intros [H _]. destruct (H tx ltac:(set_solver)) as (v&?&_). congruence.
Qed.

Lemma valid_txs check l : forall idx r,
  valid (check_txs check idx l r) = true <->
  (forall tx, tx ∈ l -> is_coinbase tx = false /\ check tx = Ok tt) /\ valid r = true.
Proof.
  induction l as [|tx l IH]; intros idx r; cbn; [set_solver|]. rewrite IH.
  assert (Hv : valid (if is_coinbase tx then add_error (MultipleCoinbase idx) r
    else match check tx with
         | Ok _ => r
         | Err e => add_error (InvalidBlockTransaction idx e) r
         end) = true <-> (is_coinbase tx = false /\ check tx = Ok tt) /\ valid r = true).
  { destruct (is_coinbase tx); [naive_solver|]. destruct (check tx) as [[]|e]; naive_solver. }
  rewrite Hv. split.
  - intros (H1&H2&H3). split; [|done]. intros t [->|Ht]%elem_of_cons; auto.
  - intros (H1&H2). split_and!; try done; try apply H1; set_solver.
Qed.

Lemma valid_tail e r :
  valid (check_block_tail_supply e r) = true <->
  (TAIL_EMISSION <= e <= reward 0) /\ valid r = true.
Proof.
  unfold check_block_tail_supply. rewrite !valid_error_if, !Z.ltb_ge. naive_solver lia.
Qed.

(** *** The coinbase *)

Definition declared (o : TxOutput) : Z := le_val (take 8 (encrypted_amount o)).

(** An output that commits openly to the amount it declares. *)
Definition open_output (active : bool) (o : TxOutput) : Prop :=
  (if active then zlen (encrypted_amount o) = 8 else 8 <= zlen (encrypted_amount o))
  /\ commitment o = commit_zero (declared o) /\ proper_point (commitment o) = true.

Lemma coinbase_commitment_spec idx o r r' ok :
  check_coinbase_commitment idx o (declared o) r = (r', ok) -> valid r' = true ->
  r' = r /\ ok = true /\ commitment o = commit_zero (declared o)
  /\ proper_point (commitment o) = true.
Proof.
  unfold check_coinbase_commitment, proper_point. intros H Hv.
  destruct (decompress (commitment o)) as [p|]; [|by injection H as <- _].
  case_bool_decide; [by injection H as <- _|]. injection H as <- <-.
  apply valid_error_if in Hv as [Hm _]. rewrite Hm. cbn.
  apply negb_false_iff, bool_decide_eq_true in Hm. done.
Qed.

(** A loop that reports no error has summed the amounts of open outputs. *)
Lemma coinbase_loop_spec active outs : forall idx acc r r' total ok,
  coinbase_loop active idx outs acc true r = (r', total, ok) -> valid r' = true ->
  valid r = true /\ Forall (open_output active) outs
  /\ total = acc + zsum declared outs /\ ok = true.
Proof.
  assert (Hkeep : forall outs idx acc av r r' total ok,
    coinbase_loop active idx outs acc av r = (r', total, ok) -> valid r' = true ->
    valid r = true).
  { clear. induction outs as [|o outs IH]; intros idx acc av r r' total ok H Hv; cbn in H.
    { by injection H as <- _ _. }
    destruct (negb _); [by apply IH in H|].
    destruct (check_coinbase_commitment _ _ _ _) as [r1 k] eqn:E.
    destruct (checked_add _ _ _); [|by injection H as <- _ _].
    apply IH in H; [|done]. by apply coinbase_commitment_spec in E as [-> _]. }
  induction outs as [|o outs IH]; intros idx acc r r' total ok H Hv; cbn in H.
  { injection H as <- <- <-. cbn. split_and!; try done. lia. }
  destruct (negb _) eqn:El; [by apply Hkeep in H|].
  destruct (check_coinbase_commitment _ _ _ _) as [r1 k] eqn:E. cbn in H.
  destruct (checked_add _ _ _) as [n|] eqn:En; [|by injection H as <- _ _].
  pose proof (Hkeep _ _ _ _ _ _ _ _ H Hv) as Hv1.
  apply coinbase_commitment_spec in E as (->&->&E1&E2); [|done].
  apply IH in H as (_&Ho&->&->); [|done].
  apply checked_add_some in En as [-> _].
  split_and!; try done; [|cbn; fold (zsum declared outs); unfold declared; lia].
  constructor; [|done]. split_and!; try done.
  apply negb_false_iff in El. destruct active; lia.
Qed.

(** The coinbase pays exactly [limit]. *)
Definition pays (active : bool) b (limit : Z) : Prop :=
  exists cb txs, transactions b = cb :: txs
    /\ (1 <= length (outputs cb) <= 16)%nat
    /\ Forall (open_output active) (outputs cb)
    /\ zsum declared (outputs cb) = limit.

Lemma check_coinbase_spec active b limit r :
  transactions b <> [] -> valid (check_coinbase active false b limit r) = true ->
  valid r = true /\ (0 < block_height b -> pays active b limit).
Proof.
  intros Ht. unfold check_coinbase, pays. destruct (transactions b) as [|cb txs]; [done|].
  rewrite andb_true_r. destruct (Z.ltb_spec 0 (block_height b)) as [Hb|Hb].
  - destruct (coinbase_loop _ _ _ _ _ _) as [[r1 total] ok] eqn:E.
    rewrite valid_error_if. intros [Hm Hv].
    apply coinbase_loop_spec in E as (Hr&Ho&->&->); [|done]. validity.
    destruct Hr as (_&Hn&_&H0&Hr). split; [done|]. intros _. exists cb, txs.
    apply andb_false_iff in Hm as [|Hm]; [done|]. apply negb_false_iff in Hm.
    unfold zlen in Hn, H0. split_and!; try done; lia.
  - validity. intros (_&_&_&_&Hr). split; [done|lia].
Qed.

(** *** Header and proof of work *)

Definition linked (h : BlockHeader) (prev : option BlockHeader) : Prop :=
  match prev with
  | None => h_height h = 0
  | Some p =>
      h_height h = wrap64 (h_height p + 1) /\ prev_hash h = header_hash blake3 p
      /\ h_timestamp p < h_timestamp h /\ version p <= version h
  end.

(** The header carries a proof of work on top of its parent. *)
Definition proved b prev : Prop :=
  let h := header b in
  verify_pow (header_hash blake3 (header prev)) (block_height b) (h_timestamp h) (nonce h)
    (tx_root h) (h_target h) (anchor h) (algorithm h) = true.

Lemma valid_header h prev r :
  valid (validate_header blake3 clock h prev r) = true ->
  valid r = true /\ linked h prev /\ block_version_at_height (h_height h) <= version h
  /\ exists now, clock = Some now
       /\ (0 < h_height h -> h_timestamp h <= wrap64 (now + MAX_TIMESTAMP_DRIFT)).
Proof.
  unfold validate_header, check_header_future_timestamp. destruct clock as [now|]; [|done].
  rewrite valid_error_if. intros [Ht Hv].
  assert (Hv' : valid (check_header_checkpoint_vote h (check_header_vs_prev blake3 h prev
    (check_header_version_min h r))) = true) by by destruct (now <? _).
  clear Hv. unfold check_header_checkpoint_vote in Hv'.
  assert (Hv : valid (check_header_vs_prev blake3 h prev (check_header_version_min h r)) = true)
    by (destruct (checkpoint_vote h) as [[? ?]|]; [apply valid_error_if in Hv'|]; tauto).
  clear Hv'. unfold check_header_version_min, check_header_vs_prev in Hv.
  split_and!; [by destruct prev; validity; naive_solver| |destruct prev; validity; lia|].
  - destruct prev as [q|]; cbn; validity; [|lia].
    destruct Hv as (H1&H2&H3&H4&_&_). apply negb_false_iff, bool_decide_eq_true in H2.
    split_and!; [lia|done|lia|lia].
  - exists now. split; [done|]. intros. destruct (Z.ltb_spec 0 (h_height h)); [|lia].
    cbn in Ht. lia.
Qed.

Lemma valid_target b prev r :
  valid (validate_difficulty_target b prev r) = true -> valid r = true.
Proof.
  unfold validate_difficulty_target. destruct (_ <? _); [done|]. destruct (forallb _ _); [done|].
  destruct prev as [q|]; [|done]. destruct (_ && _); [|done].
  destruct (_ <=? _); rewrite valid_error_if; tauto.
Qed.

Lemma valid_pow b prev requested r :
  valid (check_block_pow blake3 verify_pow false b prev requested r) = true ->
  valid r = true
  /\ (0 < block_height b -> exists p, prev = Some p
       /\ (requested = false -> proved b p)
       /\ valid (validate_difficulty_target b prev validation_ok) = true).
Proof.
  unfold check_block_pow. destruct (Z.ltb_spec 0 (block_height b)); [|naive_solver lia].
  destruct prev as [p|]; [|done]. rewrite andb_false_r. intros Hv.
  pose proof (valid_target _ _ _ Hv) as Hr. split.
  - destruct requested; [done|]. apply valid_error_if in Hr. tauto.
  - intros _. exists p. split_and!; [done| |].
    + intros ->. apply valid_error_if in Hr as [Hp _]. by apply negb_false_iff in Hp.
    + revert Hv. unfold validate_difficulty_target.
      destruct (_ <? _); [done|]. destruct (forallb _ _); [done|].
      destruct (_ && _); [|done]. destruct (_ <=? _); rewrite !valid_error_if; tauto.
Qed.

(** *** The whole block *)

(** What holds of a block that a normal build (without [insecure-fast-sync])
    calls valid. *)
Record block_accepted b (prev : option Block) u (cp : option Z) (net : NetworkType) : Prop := {
  ba_linked : linked (header b) (header <$> prev);
  ba_pow : 0 < block_height b -> exists p, prev = Some p
    /\ ((forall c, cp = Some c -> c < block_height b) -> proved b p)
    /\ valid (validate_difficulty_target b prev validation_ok) = true;
  ba_size : block_size tx_size b <= MAX_BLOCK_SIZE;
  ba_coinbase : exists txs cb, transactions b = cb :: txs /\ is_coinbase cb = true;
  ba_merkle : merkle_root blake3 (tx_hash <$> transactions b) = Some (tx_root (header b));
  ba_reward : exists limit, max_coinbase testnet b (block_size tx_size b) = Some limit
    /\ (0 < block_height b -> pays (v1_0_12_rules_active net (block_height b)) b limit);
  ba_hashes : NoDup (tx_hash <$> transactions b);
  ba_key_images : NoDup (block_key_images b);
  ba_addresses : v1_0_12_rules_active net (block_height b) = true ->
    NoDup (block_addresses b).*2;
  ba_fees : 0 < block_height b -> forall tx, tx ∈ drop 1 (transactions b) ->
    exists v, dynamic_min (tx_size tx)
      (congestion_multiplier (congestion_pct (block_size tx_size b))) = Some v /\ v <= fee tx;
  ba_txs : forall tx, tx ∈ drop 1 (transactions b) -> is_coinbase tx = false
    /\ validate_transaction_for_network testnet tx u (block_height b) net = Ok tt;
  ba_version : block_version_at_height (block_height b) <= version (header b);
}.

Lemma valid_body b u net active size limit hashes r :
  transactions b <> [] ->
  valid (check_block_body tx_size testnet b u net active false size limit hashes r) = true ->
  valid r = true
  /\ (0 < block_height b -> pays active b limit)
  /\ NoDup hashes /\ NoDup (block_key_images b)
  /\ (active = true -> NoDup (block_addresses b).*2)
  /\ (0 < block_height b -> forall tx, tx ∈ drop 1 (transactions b) ->
        exists v, dynamic_min (tx_size tx) (congestion_multiplier (congestion_pct size)) = Some v
          /\ v <= fee tx)
  /\ (forall tx, tx ∈ drop 1 (transactions b) -> is_coinbase tx = false
       /\ validate_transaction_for_network testnet tx u (block_height b) net = Ok tt).
Proof.
  intros Ht. unfold check_block_body. cbv zeta.
  set (r1 := check_block_tail_supply _ _). set (r2 := check_coinbase _ _ _ _ r1).
  set (r3 := check_block_duplicate_tx_hashes _ r2). set (r4 := check_block_duplicate_key_images b r3).
  set (r5 := report_duplicates _ _ _ r4).
  set (r6 := if active then _ else r5). destruct (valid r6) eqn:E6; cbn [negb]; [|congruence].
  rewrite andb_true_r, valid_txs. intros [Htx Hf].
  assert (H5 : (active = true -> NoDup (block_addresses b).*2) /\ valid r5 = true).
  { unfold r6 in E6. destruct active; [|done]. apply valid_stealth in E6. tauto. }
  destruct H5 as [Ha H5]. apply valid_duplicates in H5 as [_ H4].
  apply valid_duplicates in H4 as [[Hk _] H3]. apply valid_duplicates in H3 as [[Hh _] H2].
  apply check_coinbase_spec in H2 as [H1 Hp]; [|done]. apply valid_tail in H1 as [_ H1].
  split_and!; try done. intros Hb. destruct (Z.ltb_spec 0 (block_height b)); [|lia].
  by apply valid_fees in Hf as [Hf _].
Qed.

Lemma validate_block_sound b prev u cp net :
  valid (validate_block_for_network blake3 tx_hash tx_size verify_pow clock testnet false
    b prev u cp net) = true ->
  block_accepted b prev u cp net.
Proof.
  unfold validate_block_for_network, check_block_network_magic, check_block_consensus_checkpoint.
  destruct (_ && _); [|destruct (negb _); [done|]]; cbn [negb];
    (destruct (expected_checkpoint_hash _) as [e|]; [destruct (negb _); [done|]|]); cbn [negb].
  all: set (rq := match cp with Some c => _ | None => false end).
  all: rewrite andb_false_r; unfold check_block_has_coinbase.
  all: destruct (transactions b) as [|cb txs] eqn:Et; [done|]; cbn [negb].
  all: destruct (max_coinbase _ _ _) as [limit|] eqn:El; [|done].
  all: intros Hv; apply valid_body in Hv as (Hv&Hp&Hh&Hk&Ha&Hf&Hx); [|by rewrite Et].
  all: unfold check_block_privacy_policy, check_block_merkle_root,
    check_block_first_tx_is_coinbase, check_block_tx_count, check_block_weight,
    check_block_size in Hv.
  all: destruct (enforce_privacy_policy b); [|done]; rewrite Et in Hv; validity.
  all: destruct Hv as (Hm&Hc&_&_&Hs&Hv); apply valid_pow in Hv as [Hv Hpow];
    apply valid_header in Hv as (_&Hl&Hver&_).
  all: apply negb_false_iff in Hm, Hc; apply bool_decide_eq_true in Hm.
  all: rewrite <- Et in *; split; try done; [..|eauto|eauto].
  all: try (intros Hb; destruct (Hpow Hb) as (p&->&H1&H2); exists p; split_and!; try done;
    intros Hcp; apply H1; unfold rq; destruct cp as [c|]; [|done];
    specialize (Hcp c eq_refl); lia).
  all: try lia; eauto.
Qed.
End spec.

(** ** The validator of the chain *)

(** [add_block] and the reorganisation call the validator of a normal build:
    a result with errors is a refusal, and there is no other failure.  [clock] is
    what the clock shows at each validation of the call. *)
Definition consensus_validator {CR : Crypto} {V : Verdicts} (blake3 : list Z -> Hash)
    (tx_hash : Transaction -> Hash) (tx_size : Transaction -> Z)
    (verify_pow : Hash -> Z -> Z -> Z -> Hash -> Hash -> Hash -> Z -> bool)
    (clock : Block -> UtxoSet -> option Z) (testnet : bool) : BlockValidator.
Proof.
  refine {| validate b prev u cp net := Ok (valid (validate_block_for_network blake3 tx_hash
    tx_size verify_pow (clock b u) testnet false b prev u cp net)) |}.
  intros b u cp net [= H]. apply validate_block_sound in H.
  exact (ba_linked _ _ _ _ _ _ _ _ _ _ H).
Defined.

(** ** Lemmas for the theorems *)

Section fees.
Context (tx_size : Transaction -> Z) (testnet : bool).
Implicit Types (b : Block) (txs : list Transaction).

(** In a block with one coinbase the two ways to skip it agree. *)
Lemma fees_agree b cb txs :
  transactions b = cb :: txs -> is_coinbase cb = true ->
  (forall tx, tx ∈ txs -> is_coinbase tx = false) ->
  filter (fun tx => is_coinbase tx = false) (transactions b) = drop 1 (transactions b).
Proof.
  intros Et Hc Hn. rewrite Et, filter_cons_False by congruence. cbn [drop]. rewrite ?drop_0.
  clear Et. induction txs as [|tx txs IH]; [done|].
  rewrite filter_cons_True by (apply Hn; set_solver). f_equal. apply IH; set_solver.
Qed.

Lemma total_fees_range b : typed_block b -> 0 <= total_fees b <= u64_max.
Proof.
  intros [_ Hf]. apply sat_fold_range; [word_lia|]. rewrite Forall_fmap.
  eapply Forall_impl; [by apply Forall_drop|done].
Qed.

(** The burn the chain books and the limit the validator sets are the two
    parts of one split. *)
Lemma limit_and_burn b cb txs limit :
  typed_block b -> transactions b = cb :: txs -> is_coinbase cb = true ->
  (forall tx, tx ∈ txs -> is_coinbase tx = false) ->
  max_coinbase testnet b (block_size tx_size b) = Some limit ->
  limit + block_fee_burn tx_size testnet b = reward (block_height b) + total_fees b.
Proof.
  intros Hb Et Hc Hn Hl. pose proof (total_fees_range b Hb) as Hf.
  unfold block_fee_burn. rewrite (fees_agree b cb txs Et Hc Hn).
  change (foldl _ 0 (fee <$> drop 1 (transactions b))) with (total_fees b).
  unfold max_coinbase in Hl.
  fold (congestion_pct (block_size tx_size b)).
  destruct (Z.leb_spec (FEE_DISTRIBUTION_HEIGHT testnet) (block_height b)) as [H1|H1];
    destruct (Z.ltb_spec 0 (total_fees b)) as [H2|H2]; cbn [andb] in Hl.
  all: destruct (Z.ltb_spec (block_height b) (FEE_DISTRIBUTION_HEIGHT testnet)); [try lia|try lia].
  all: destruct (Z.eqb_spec (total_fees b) 0); try lia; cbn [orb].
  all: apply checked_add_some in Hl as [-> _]; try lia.
  rewrite distribute_fee_eq by (word_unfold; lia). cbn. lia.
Qed.

Lemma spends_sublist txs : sublist (block_spends txs) (concat (key_images <$> txs)).
Proof.
  unfold block_spends. induction txs as [|tx txs IH]; [done|]. cbn. apply sublist_app; [|done].
  unfold tx_spends, key_images. destruct (is_coinbase tx); [apply sublist_nil_l|done].
Qed.

End fees.

Section lemmas.
Context {CR : Crypto} {V : Verdicts}.
Context (blake3 : list Z -> Hash).
Context (tx_hash : Transaction -> Hash) (tx_size : Transaction -> Z).
Context (verify_pow : Hash -> Z -> Z -> Z -> Hash -> Hash -> Hash -> Z -> bool).
Context (clock : option Z) (testnet : bool).
Implicit Types (b : Block) (r : BlockValidation) (u : UtxoSet).

Lemma spends_unspent b prev u cp net ki :
  block_accepted blake3 tx_hash tx_size verify_pow testnet b prev u cp net ->
  typed_block b -> ki ∈ block_spends (transactions b) -> ki ∉ u_key_images u.
Proof.
  intros Ha Hb Hki. destruct (ba_coinbase _ _ _ _ _ _ _ _ _ _ Ha) as (txs&cb&Et&Hc).
  pose proof (ba_txs _ _ _ _ _ _ _ _ _ _ Ha) as Hx. rewrite Et in Hki, Hx. cbn in Hx.
  rewrite drop_0 in Hx. unfold block_spends in Hki. cbn in Hki.
  unfold tx_spends at 1 in Hki. rewrite Hc in Hki. cbn in Hki.
  apply list_elem_of_In, in_concat in Hki as (l&Hl%list_elem_of_In&Hki%list_elem_of_In).
  apply list_elem_of_fmap in Hl as (tx&->&Htx).
  destruct (Hx tx Htx) as [Hn Hv].
  assert (Hh : 0 <= block_height b) by (destruct Hb; lia).
  destruct (accepted_sound testnet tx u _ net Hn Hh Hv) as [_ _ _ _ _ [_ K] _ _ _ _].
  unfold tx_spends in Hki. rewrite Hn in Hki. by apply K.
Qed.
(** The coinbase of an accepted block and the burn share out reward and fees. *)
Lemma block_money b prev u cp net :
  typed_block b -> 0 < block_height b ->
  block_accepted blake3 tx_hash tx_size verify_pow testnet b prev u cp net ->
  exists cb txs, transactions b = cb :: txs
    /\ (1 <= length (outputs cb) <= 16)%nat
    /\ Forall (open_output (v1_0_12_rules_active net (block_height b))) (outputs cb)
    /\ zsum declared (outputs cb) + block_fee_burn tx_size testnet b
       = reward (block_height b) + total_fees b.
Proof.
  intros Hb Hh Hv.
  destruct (ba_coinbase _ _ _ _ _ _ _ _ _ _ Hv) as (txs&cb&Et&Hc).
  destruct (ba_reward _ _ _ _ _ _ _ _ _ _ Hv) as (limit&El&Hp).
  destruct (Hp Hh) as (cb'&txs'&Et'&Hn&Ho&Hs). exists cb, txs.
  assert (cb' = cb) as -> by congruence.
  split_and!; try done; [lia|lia|]. rewrite Hs.
  eapply limit_and_burn; try done.
  intros tx Htx. apply (ba_txs _ _ _ _ _ _ _ _ _ _ Hv). by rewrite Et'.
Qed.
End lemmas.
