(* ===== verification/BlockRules.v ===== *)
(** * Properties of valid blocks

    The theorems about [validate_block_for_network]: money is conserved by the
    coinbase, key images are spent once, proof of work is demanded exactly
    above the recorded checkpoint, and the sanity gate agrees with the retarget. *)

From stdpp Require Import prelude gmap.
From Stdlib Require Import ZArith Lia.
From S2P Require Import Prelude Constants Encoding Emission FeeMarket Difficulty Block Utxo.
From S2P Require Import ForkChoice Chain ChainLedger TxValidation BlockValidation.

Local Open Scope Z_scope.

(** ** The sanity gate *)

Section gate.
Implicit Types t v : Z.

Lemma ratio_in_gate t v :
  1 <= t <= u128_max -> Z.max (t / 2) 1 <= v <= 8 * t -> v <= u128_max ->
  31 <= ratio_scaled v t <= 32000.
Proof.
  intros Ht Hv Hm. unfold ratio_scaled.
  pose proof (Z.div_mod t 2 ltac:(lia)). pose proof (Z.mod_pos_bound t 2 ltac:(lia)).
  destruct (Z.ltb_spec (u128_max / 1000) v) as [Hb|Hb].
  - rewrite !Z.shiftr_div_pow2 by lia. change (2 ^ 10) with 1024.
    assert (2 ^ 100 <= u128_max / 1000) by (vm_compute; discriminate).
    change (2 ^ 100) with 1267650600228229401496703205376 in *.
    pose proof (Z.div_mod t 1024 ltac:(lia)). pose proof (Z.mod_pos_bound t 1024 ltac:(lia)).
    pose proof (Z.div_mod v 1024 ltac:(lia)). pose proof (Z.mod_pos_bound v 1024 ltac:(lia)).
    rewrite Z.max_l by lia.
    split; [apply Z.div_le_lower_bound; lia|apply Z.div_le_upper_bound; lia].
  - split; [apply Z.div_le_lower_bound; lia|apply Z.div_le_upper_bound; lia].
Qed.

Lemma zero_target_value h : forallb (fun x => x =? 0) h = true -> target_value h = 0.
Proof.
  intros Hz. unfold target_value, be_val. rewrite forallb_forall in Hz.
  assert (Hr : Forall (fun x => x = 0) (reverse (take 16 h))).
  { apply Forall_reverse, Forall_take, Forall_forall. intros x Hx%list_elem_of_In.
    specialize (Hz x Hx). lia. }
  induction Hr as [|x l -> _ IH]; cbn; [done|]. lia.
Qed.
End gate.

(** ** Theorems *)

Section theorems.
Context {CR : Crypto} {V : Verdicts}.
Context (blake3 : list Z -> Hash).
Context (tx_hash : Transaction -> Hash) (tx_size : Transaction -> Z).
Context (verify_pow : Hash -> Z -> Z -> Z -> Hash -> Hash -> Hash -> Z -> bool).
Context (clock : option Z) (testnet : bool).
Implicit Types (b : Block) (r : BlockValidation) (u : UtxoSet).

Abbreviation verdict insecure b prev u cp net :=
  (valid (validate_block_for_network blake3 tx_hash tx_size verify_pow clock testnet insecure
    b prev u cp net)).

(** A valid block above genesis creates exactly the money it may: its
    coinbase has one to sixteen outputs, each commits openly to the amount it
    declares, and the declared amounts together with the fee share that the
    chain books as burned are the block reward plus the fees of the block. *)
Theorem coinbase_conserves b prev u cp net :
  typed_block b -> 0 < block_height b -> verdict false b prev u cp net = true ->
  exists cb txs, transactions b = cb :: txs
    /\ (1 <= length (outputs cb) <= 16)%nat
    /\ Forall (open_output (v1_0_12_rules_active net (block_height b))) (outputs cb)
    /\ zsum declared (outputs cb) + block_fee_burn tx_size testnet b
       = reward (block_height b) + total_fees b.
Proof.
  intros Hb Hh Hv. apply validate_block_sound in Hv. by eapply block_money.
Qed.

(** C3: No double spend: the key images that connecting a valid block marks
    as spent are pairwise distinct and were all unspent, so the set of spent
    key images grows by exactly one per input. *)
Theorem valid_block_spends_once b prev u cp net :
  typed_block b -> verdict false b prev u cp net = true ->
  NoDup (block_spends (transactions b))
  /\ (forall ki, ki ∈ block_spends (transactions b) -> ki ∉ u_key_images u)
  /\ size (u_key_images (connect tx_hash u (block_height b) (transactions b)))
     = (size (u_key_images u) + length (block_spends (transactions b)))%nat.
Proof.
  intros Hb Hv. apply validate_block_sound in Hv.
  assert (Hn : NoDup (block_spends (transactions b))).
  { eapply sublist_NoDup; [apply (ba_key_images _ _ _ _ _ _ _ _ _ _ Hv)|apply spends_sublist]. }
  assert (Hu : forall ki, ki ∈ block_spends (transactions b) -> ki ∉ u_key_images u).
  { intros ki. by eapply spends_unspent. }
  split_and!; try done. rewrite connect_eq. cbn.
  rewrite size_union by set_solver. by rewrite size_list_to_set.
Qed.

(** Proof of work is demanded exactly above the checkpoint height the
    caller passes: above it, or without it, a valid block carries one on top
    of its parent; at or below it the verdict does not depend on the
    proof-of-work function at all, also in a build without the
    [insecure-fast-sync] feature. *)
Theorem pow_only_above_checkpoint b prev u cp net verify_pow' :
  0 < block_height b ->
  ((forall c, cp = Some c -> c < block_height b) ->
     verdict false b prev u cp net = true -> exists p, prev = Some p /\ proved blake3 verify_pow b p)
  /\ (forall c, cp = Some c -> block_height b <= c ->
     validate_block_for_network blake3 tx_hash tx_size verify_pow clock testnet false
       b prev u cp net
     = validate_block_for_network blake3 tx_hash tx_size verify_pow' clock testnet false
         b prev u cp net).
Proof.
  intros Hh. split.
  - intros Hcp Hv. apply validate_block_sound in Hv.
    destruct (ba_pow _ _ _ _ _ _ _ _ _ _ Hv Hh) as (p&->&Hp&_). eauto.
  - intros c -> Hc. unfold validate_block_for_network, check_block_pow.
    destruct (Z.leb_spec (block_height b) c); [|lia]. reflexivity.
Qed.

(** A target the retarget demands passes the gate. *)
Lemma gate_accepts_retarget b p r blocks h :
  (2 <= length blocks)%nat -> last blocks = Some (to_difficulty_block p) ->
  Forall is_u8 (h_target (header p)) ->
  calculate_difficulty blocks h = Some (h_target (header b)) ->
  validate_difficulty_target b (Some p) r = r.
Proof.
  intros Hl Hlast Hb Hc.
  destruct (calculate_difficulty_some blocks h _ Hl Hlast) as [comb Hc'].
  rewrite Hc in Hc'. injection Hc' as Et. cbn [target to_difficulty_block] in Et.
  pose proof (target_to_u128_range _ Hb) as Ht.
  set (t := target_to_u128 (h_target (header p))) in *.
  pose proof (bound_target_spec t comb (needs_emergency_drop blocks h) Ht) as Hs.
  cbv zeta in Hs. set (v := bound_target t comb _) in *.
  assert (Hcl : 1 <= target_ceiling <= u128_max) by (vm_compute; split; discriminate).
  pose proof (Z.div_mod t 2 ltac:(lia)). pose proof (Z.mod_pos_bound t 2 ltac:(lia)).
  assert (Hv : Z.max (t / 2) 1 <= v <= 8 * t /\ v <= u128_max)
    by (destruct (needs_emergency_drop blocks h); lia).
  destruct Hv as [Hv Hm].
  assert (Hval : target_value (h_target (header b)) = v).
  { rewrite Et. pose proof (target_roundtrip v ltac:(lia)) as R.
    unfold target_to_u128 in R. unfold target_value.
    pose proof (be_val_bound (take 16 (u128_to_target v))
      (Forall_take _ _ _ (u128_to_target_bytes v))).
    destruct (decide (v = 1)) as [->|]; [by vm_compute|lia]. }
  unfold validate_difficulty_target. rewrite Hval.
  change (target_value max_target) with u128_max.
  destruct (Z.ltb_spec u128_max v); [lia|].
  destruct (forallb _ _) eqn:Ez; [apply zero_target_value in Ez; lia|].
  destruct (Z.ltb_spec 0 (target_value (h_target (header p)))) as [Hp|Hp]; [|done].
  assert (Hpt : target_value (h_target (header p)) = t)
    by (unfold t, target_to_u128, target_value in *; lia).
  rewrite Hpt. destruct (Z.ltb_spec 0 v); [|lia]. cbn [andb].
  pose proof (ratio_in_gate t v Ht Hv Hm).
  destruct (_ <=? _); destruct (Z.ltb_spec (ratio_scaled v t) 4), (Z.ltb_spec (ratio_scaled v t) 31),
    (Z.ltb_spec 256000 (ratio_scaled v t)), (Z.ltb_spec 32000 (ratio_scaled v t)); try lia; done.
Qed.

(** C14: The two difficulty rules agree: a block whose target is the one the
    retarget demands of its parent's chain always passes the sanity gate of
    the validator, in the normal and in the emergency regime. *)
Theorem retarget_passes_gate b p r blocks h :
  (2 <= length blocks)%nat -> last blocks = Some (to_difficulty_block p) ->
  Forall is_u8 (h_target (header p)) ->
  calculate_difficulty blocks h = Some (h_target (header b)) ->
  validate_difficulty_target b (Some p) r = r.
Proof. apply gate_accepts_retarget. Qed.
End theorems.

(** ** Witnesses

    A block at height 200 over the toy group: a coinbase and one transaction
    that pays a fee of 2000. *)

Definition toy_tx_hash (tx : Transaction) : Hash := extra tx.
Definition toy_tx_size (tx : Transaction) : Z := 2.
Definition toy_pow (prev : Hash) (h t n : Z) (root tgt anc : Hash) (alg : Z) : bool := n =? 7.
Definition toy_clock : option Z := Some 1700000000.

Definition toy_payment : Transaction :=
  mkTransaction 1 Transfer [toy_input 50 77 5000 5000; toy_input 51 78 5000 5000]
    [toy_output 60 3000; toy_output 61 5000] 2000 [1] [50].

Definition toy_reward (v : Z) : Transaction :=
  mkTransaction 1 Coinbase [] [mkTxOutput [70] [70] [v] (le_bytes 8 v) 0 None []] 0 [] [60].

Definition toy_parent : Block :=
  mkBlock (mkBlockHeader MAINNET_MAGIC 2 199 1600000000 [] [] [] 0 7 (u128_to_target (2 ^ 100))
    [] [] None [] []) [].

(** The miner claims the reward and 70 % of the fees. *)
Definition toy_block (nonce : Z) : Block :=
  let txs := [toy_reward (reward 200 + 1400); toy_payment] in
  mkBlock (mkBlockHeader MAINNET_MAGIC 2 200 1600000120 (header_hash toy_hash (header toy_parent))
    (default [] (merkle_root toy_hash (toy_tx_hash <$> txs))) [] 0 nonce
    (u128_to_target (2 ^ 100)) [] [] None [] []) txs.

Abbreviation toy_result pow nonce cp :=
  (validate_block_for_network toy_hash toy_tx_hash toy_tx_size pow toy_clock false false
    (toy_block nonce) (Some toy_parent) toy_utxos cp Mainnet).


Lemma toy_block_typed nonce : typed_block (toy_block nonce).
Proof. split; [cbn; lia|]. repeat constructor; cbn; word_lia. Qed.

Lemma coinbase_conserves_witness :
  zsum declared (outputs (toy_reward (reward 200 + 1400)))
  + block_fee_burn toy_tx_size false (toy_block 7)
  = reward 200 + 2000.
Proof.
  destruct (coinbase_conserves toy_hash toy_tx_hash toy_tx_size toy_pow toy_clock false
    (toy_block 7) (Some toy_parent) toy_utxos None Mainnet) as (cb&txs&E&_&_&H).
  - apply toy_block_typed.
  - reflexivity.
  - vm_compute. reflexivity.
  - injection E as <- _. exact H.
Defined.

Lemma valid_block_spends_once_witness :
  size (u_key_images (connect toy_tx_hash toy_utxos 200 (transactions (toy_block 7))))
  = (size (u_key_images toy_utxos) + 2)%nat.
Proof.
  destruct (valid_block_spends_once toy_hash toy_tx_hash toy_tx_size toy_pow toy_clock false
    (toy_block 7) (Some toy_parent) toy_utxos None Mainnet) as (_&_&H).
  - apply toy_block_typed.
  - vm_compute. reflexivity.
  - exact H.
Defined.

(** A block without proof of work is refused at the tip and accepted under a
    recorded checkpoint. *)
Lemma pow_only_above_checkpoint_witness :
  errors (toy_result toy_pow 8 None) = [ProofOfWorkInvalid]
  /\ errors (toy_result toy_pow 8 (Some 240)) = [].
Proof.
  split; [vm_compute; reflexivity|].
  destruct (pow_only_above_checkpoint toy_hash toy_tx_hash toy_tx_size toy_pow toy_clock false
    (toy_block 8) (Some toy_parent) toy_utxos (Some 240) Mainnet
    (fun _ _ _ _ _ _ _ _ => true)) as [_ H]; [reflexivity|].
  rewrite (H 240); [|reflexivity|cbn; lia]. vm_compute. reflexivity.
Defined.

Lemma retarget_passes_gate_witness :
  let p := mkBlock (mkBlockHeader [] 1 1 1 [] [] [] 0 0 (u128_to_target (2 ^ 118)) [] [] None
    [] []) [] in
  let tgt := default [] (calculate_difficulty (two_blocks 1) 2) in
  let b := mkBlock (mkBlockHeader [] 1 2 2 [] [] [] 0 0 tgt [] [] None [] []) [] in
  validate_difficulty_target b (Some p) validation_ok = validation_ok.
Proof.
  intros p tgt b. apply (retarget_passes_gate b p validation_ok (two_blocks 1) 2).
  - cbn. lia.
  - reflexivity.
  - apply u128_to_target_bytes.
  - vm_compute. reflexivity.
Defined.
