(* ===== verification/ChainMoney.v ===== *)
(** * The node with the consensus validator

    The theorems of [ChainNode] hold for any validator.  Here the node runs
    the validator of [src/consensus/validation.rs]: every block of its store
    has passed it on top of its parent, and therefore the money on the main
    chain is accounted for to the last unit. *)

From stdpp Require Import prelude gmap sorting.
From Stdlib Require Import ZArith Lia.
From S2P Require Import Prelude Constants Emission FeeMarket Difficulty Block Utxo ForkChoice.
From S2P Require Import Chain ChainDemo ChainLedger ChainCoins ChainSafety ChainRestart.
From S2P Require Import ChainNode TxValidation BlockValidation.

Local Open Scope Z_scope.

(** ** Every stored block was validated *)

Section validated.
Context {RF P2 : Type} `{!FinalityGate RF} `{!FinalityFeed RF} `{!Phase2Stores P2}.
Context {T : Type} (BV : T -> BlockValidator).
Context (header_hash : BlockHeader -> Hash) (tx_hash : Transaction -> Hash).
Context (tx_size : Transaction -> Z).
Context (checkpoints : NetworkType -> list (Z * Hash)).
Context (testnet : bool).
Context (genesis : NetworkType -> Block) (expected : NetworkType -> Hash).

Implicit Types (c : Chain RF P2) (b : Block) (s : gmap Hash Block).

Abbreviation chain_inv := (chain_inv header_hash tx_size checkpoints testnet).
Abbreviation reachable :=
  (reachable (RF := RF) (P2 := P2) BV header_hash tx_hash tx_size checkpoints testnet genesis expected []).

(** The genesis block, or a block that was valid on top of its parent. *)
Definition settled s b : Prop :=
  block_height b = 0 /\ block_fee_burn tx_size testnet b = 0
  \/ 0 < block_height b
     /\ exists v p u cp net, s !! prev_hash (header b) = Some p
          /\ @validate (BV v) b (Some p) u cp net = Ok true.

Definition all_settled s : Prop := map_Forall (fun _ b => settled s b) s.

(** A block is stored only after the validator has accepted it. *)
Lemma stored_validated c v now b c' t m :
  admit_block (BV := BV v) header_hash checkpoints c now b = Ret (c', Stored t m) ->
  @validate (BV v) b (get_block (view c) (prev_hash (header b))) (c_utxos c) (assume_valid c)
    (c_network c) = Ok true.
Proof.
  unfold admit_block. destruct (_ || _); [done|]. destruct (_ && _); [done|].
  destruct (negb _); [done|].
  destruct (verify_checkpoint _ _ _ _) as [[]|]; try done.
  all: destruct (validate _ _ _ _ _) as [[]|]; done.
Qed.

Lemma settled_weaken s s' b : s ⊆ s' -> settled s b -> settled s' b.
Proof.
  intros Hs [H|(H0&v&p&u&cp&net&Hp&Hv)]; [by left|]. right. split; [done|].
  exists v, p, u, cp, net. split; [|done]. by eapply lookup_weaken.
Qed.

Lemma store_settled c s l v now b c' t m :
  chain_inv c s l -> typed_block b -> all_settled s ->
  admit_block (BV := BV v) header_hash checkpoints c now b = Ret (c', Stored t m) ->
  chain_inv c' (<[hash_of header_hash b := b]> s) l
  /\ all_settled (<[hash_of header_hash b := b]> s) /\ block_height b <> 0
  /\ c' = store_block header_hash c b /\ m = is_main b t.
Proof.
  intros Hi Ht Hs E. pose proof (stored_validated _ _ _ _ _ _ _ E) as Hv.
  destruct (admit_spec (BV := BV v) _ _ _ _ c s _ b now Hi Ht) as (c1&a1&E1&Ha).
  rewrite E1 in E. injection E as <- ->. destruct Ha as (->&->&->&Hn&H0&p&Hp&Hph).
  assert (Hsub : s ⊆ <[hash_of header_hash b := b]> s) by by apply insert_subseteq.
  split_and!; try done; [by eapply store_inv; eauto|].
  apply map_Forall_insert_2.
  - right. destruct Ht as [Ht _]. split; [lia|].
    rewrite (get_block_store _ _ _ _ c s l) in Hv by done. rewrite Hp in Hv.
    exists v, p, (c_utxos c), (assume_valid c), (c_network c). split; [|done].
    by eapply lookup_weaken.
  - intros h x Hx. eapply settled_weaken; [exact Hsub|]. by apply (Hs h).
Qed.

Lemma reachable_settled c :
  reachable c -> exists s, chain_inv c s (main_chain c) /\ all_settled s.
Proof.
  enough (H : forall h, ChainNode.reachable BV header_hash tx_hash tx_size checkpoints testnet
    genesis expected h c -> h = [] -> exists s, chain_inv c s (main_chain c) /\ all_settled s).
  { intros Hc. by apply (H []). }
  induction 1 as [oi net rf p2 c x Hg E|h c v now b c' r _ IH Ht E
    |h c v now b c' a _ IH Ht E|h c v now b t c' r _ IH Ht H0 Hb E
    |h c d oi rf p2 fuel c' _ IH Hg Ed E]; intros Hh;
    try (apply app_eq_nil in Hh as [Hl ->]); try (destruct (IH eq_refl) as (s&Hi&Hs)).
  - destruct (genesis_inv header_hash tx_hash tx_size checkpoints testnet genesis expected
      oi net rf p2 Hg) as (c1&h1&E1&Hi).
    rewrite E1 in E. injection E as <- _. eexists. erewrite main_chain_eq by done.
    split; [done|]. intros k y [_ <-]%lookup_singleton_Some. left.
    by destruct Hg as (_&?&_&_&?).
  - pose proof (no_add_incident _ _ _ Hl) as Hlev. unfold add_block in E.
    destruct (admit_spec (BV := BV v) _ _ _ _ c s _ b now Hi Ht) as (c1&a1&E1&Ha).
    rewrite E1 in E. cbn [mbind exec_bind] in E. destruct a1 as [r1|t m].
    + injection E as <- <-. destruct Ha as (Hi'&_). exists s.
      by rewrite (main_chain_eq _ _ _ _ _ _ _ Hi').
    + destruct (store_settled c s _ v now b c1 t m Hi Ht Hs E1) as (Hi1&Hs1&H0&->&->).
      destruct (commit_inv (BV := BV v) _ tx_hash _ _ _ _ _ _ b t now Hi1 Ht H0)
        as (c2&r2&E2&_&Hc).
      { cbn. by rewrite lookup_insert_eq. }
      rewrite E2 in E. injection E as <- <-. destruct (Hc Hlev) as (l'&Hi'&_).
      eexists. rewrite (main_chain_eq _ _ _ _ _ _ _ Hi'). done.
  - destruct (IH Hh) as (s&Hi&Hs). destruct a as [r|t m].
    + destruct (admit_spec (BV := BV v) _ _ _ _ c s _ b now Hi Ht) as (c1&a1&E1&Ha).
      rewrite E1 in E. injection E as <- ->. destruct Ha as (Hi'&_).
      exists s. by rewrite (main_chain_eq _ _ _ _ _ _ _ Hi').
    + destruct (store_settled c s _ v now b c' t m Hi Ht Hs E) as (Hi1&Hs1&_).
      eexists. by rewrite (main_chain_eq _ _ _ _ _ _ _ Hi1).
  - destruct (commit_inv (BV := BV v) _ tx_hash _ _ _ c s _ b t now Hi Ht H0 Hb)
      as (c1&r1&E1&_&Hc).
    rewrite E1 in E. injection E as <- <-. destruct (Hc (no_add_incident _ _ _ Hl)) as (l'&Hi'&_).
    exists s. by rewrite (main_chain_eq _ _ _ _ _ _ _ Hi').
  - destruct (restart_inv _ tx_hash _ _ _ _ _ c s _ d oi rf p2 fuel Hi Hg Ed
      (no_restart_incident c Hl)) as (c1&E1&Hi'&_).
    rewrite E1 in E. injection E as <-. exists s. by rewrite (main_chain_eq _ _ _ _ _ _ _ Hi').
Qed.
End validated.

(** ** The money on the main chain *)

(** The amounts the coinbase of a block declares. *)
Definition minted (b : Block) : Z :=
  match coinbase b with Some cb => zsum declared (outputs cb) | None => 0 end.

Section money.
Context {RF P2 : Type} `{!FinalityGate RF} `{!FinalityFeed RF} `{!Phase2Stores P2}.
Context {CR : Crypto} {V : Verdicts} (blake3 : list Z -> Hash).
Context (tx_hash : Transaction -> Hash) (tx_size : Transaction -> Z).
Context (verify_pow : Hash -> Z -> Z -> Z -> Hash -> Hash -> Hash -> Z -> bool).
Context (testnet : bool).

(** The validator of a call, by what the clock shows during it. *)
Abbreviation node_validator := (fun clock =>
  consensus_validator blake3 tx_hash tx_size verify_pow clock testnet).
Abbreviation settled := (settled node_validator tx_size testnet).

(** What the validator guarantees of a settled block above genesis. *)
Lemma settled_block s b :
  settled s b -> typed_block b -> block_height b <> 0 ->
  exists p, s !! prev_hash (header b) = Some p
    /\ h_timestamp (header p) < h_timestamp (header b)
    /\ version (header p) <= version (header b)
    /\ minted b + block_fee_burn tx_size testnet b = reward (block_height b) + total_fees b.
Proof.
  intros [[H0 _]|(H0&v&p&u&cp&net&Hp&Hv)] Ht Hn; [done|].
  injection Hv as Hv. apply validate_block_sound in Hv. exists p. split; [done|].
  destruct (ba_linked _ _ _ _ _ _ _ _ _ _ Hv) as (_&_&H1&H2).
  destruct (block_money _ _ _ _ _ _ _ _ _ _ Ht H0 Hv) as (cb&txs&E&_&_&Hm).
  split_and!; try done. unfold minted, coinbase. by rewrite E.
Qed.

(** Sums over the blocks above genesis. *)
Lemma money_sum s l :
  (forall b, b ∈ l -> settled s b /\ typed_block b /\ block_height b <> 0) ->
  zsum minted l + zsum (block_fee_burn tx_size testnet) l
  = zsum (fun b => reward (block_height b)) l + zsum total_fees l.
Proof.
  induction l as [|b l IH]; intros H; [done|]. cbn.
  destruct (H b ltac:(apply elem_of_cons; by left)) as (H1&H2&H3).
  destruct (settled_block s b H1 H2 H3) as (p&_&_&_&E).
  fold (zsum minted l) (zsum (block_fee_burn tx_size testnet) l)
    (zsum (fun b => reward (block_height b)) l) (zsum total_fees l).
  assert (IHl : zsum minted l + zsum (block_fee_burn tx_size testnet) l
    = zsum (fun b => reward (block_height b)) l + zsum total_fees l).
  { apply IH. intros x Hx. apply H, elem_of_cons. by right. }
  clear - E IHl. lia.
Qed.

(** C2: A node that runs the consensus validator accounts for all money: in
    every node whose history has no incident (no failed reorganisation onto a fork
    that had outgrown the tip, no restart with a burn total above 64 bits),
    whatever the clock showed at each validation and whatever other
    reorganisations and restarts it went through, the amounts minted by the
    coinbases of the current main chain and the burn total of the node add up to
    the emission up to the tip (without the genesis reward, which genesis does not
    pay out) plus the fees paid on the chain; and along that chain timestamps
    strictly increase and versions never decrease. *)
Theorem main_chain_money checkpoints genesis expected (c : Chain RF P2) :
  reachable node_validator (header_hash blake3) tx_hash tx_size checkpoints testnet
    genesis expected [] c ->
  zsum minted (drop 1 (main_chain c)) + total_burned (c_stats c)
    = total_supply (c_stats c) - reward 0 + zsum total_fees (drop 1 (main_chain c))
  /\ (forall i x y, main_chain c !! i = Some x -> main_chain c !! S i = Some y ->
        h_timestamp (header x) < h_timestamp (header y)
        /\ version (header x) <= version (header y)).
Proof.
  intros (s&Hi&Hs)%reachable_settled.
  assert (Hl : forall b, b ∈ main_chain c -> settled s b /\ typed_block b).
  { intros b Hb. pose proof (inv_stored _ _ _ _ _ _ _ Hi b Hb) as E.
    split; [by apply (Hs _ _ E)|by apply (inv_keyed _ _ _ _ _ _ _ Hi _ _ E)]. }
  pose proof (inv_seg _ _ _ _ _ _ _ Hi) as Hseg. split.
  - destruct (inv_ledger _ _ _ _ _ _ _ Hi) as [-> ->].
    destruct (inv_pinned _ _ _ _ _ _ _ Hi) as (g&Hg&_).
    destruct (main_chain c) as [|g' l]; [done|]. injection Hg as ->. cbn [drop].
    rewrite drop_0. assert (H0 : block_height g = 0) by by apply (Hseg 0%nat).
    assert (Hb0 : block_fee_burn tx_size testnet g = 0).
    { destruct (Hl g ltac:(apply elem_of_cons; by left)) as [[[_ ?]|[? _]] _]; [done|lia]. }
    pose proof (money_sum s l) as Hm. unfold zsum at 2 3. cbn [foldr].
    fold (zsum (block_fee_burn tx_size testnet) l) (zsum (fun b => reward (block_height b)) l).
    rewrite Hb0, H0, Z.add_0_l.
    enough (zsum minted l + zsum (block_fee_burn tx_size testnet) l
      = zsum (fun b => reward (block_height b)) l + zsum total_fees l) by lia.
    apply Hm. intros b Hb. destruct (Hl b ltac:(apply elem_of_cons; by right)) as [H1 H2].
    split_and!; try done. apply list_elem_of_lookup in Hb as [i Hb].
    pose proof (Hseg (S i) b Hb). lia.
  - intros i x y Hx Hy.
    destruct (Hl y ltac:(by eapply list_elem_of_lookup_2)) as [H1 H2].
    pose proof (Hseg _ _ Hy).
    destruct (settled_block s y H1 H2 ltac:(lia)) as (p&Hp&?&?&_).
    rewrite (inv_linked _ _ _ _ _ _ _ Hi i x y Hx Hy) in Hp.
    rewrite (inv_stored _ _ _ _ _ _ _ Hi x) in Hp by by eapply list_elem_of_lookup_2.
    by injection Hp as <-.
Qed.
End money.

(** ** Witness

    A node over the toy group of [TxValidation], with a hash that keeps the
    header's bytes, a proof of work that asks for nonce 7, and one block above
    genesis. *)

Definition mint_pow (prev : Hash) (h t n : Z) (root tgt anc : Hash) (alg : Z) : bool := n =? 7.
Definition mint_tx_hash (tx : Transaction) : Hash := extra tx.
Definition mint_tx_size (tx : Transaction) : Z := 100.

Definition mint_genesis (net : NetworkType) : Block :=
  mkBlock (mkBlockHeader MAINNET_MAGIC 1 0 1600000000 [] [] [] 0 0 (u128_to_target (2 ^ 118))
    [] [] None [] []) [].

Definition mint_expected (net : NetworkType) : Hash := block_hash toy_hash (mint_genesis net).
Definition mint_checkpoints (net : NetworkType) : list (Z * Hash) := [(0, mint_expected net)].

Definition mint_block : Block :=
  let v := reward 1 in
  let cb := mkTransaction 1 Coinbase [] [mkTxOutput [70] [70] [v] (le_bytes 8 v) 0 None []]
    0 [] [60] in
  mkBlock (mkBlockHeader MAINNET_MAGIC 2 1 1600000120 (mint_expected Mainnet)
    (leaf_hash toy_hash [60]) [] 0 7 (u128_to_target (2 ^ 118)) [] [] None [] []) [cb].

Definition mint_clock (_ : Block) (_ : UtxoSet) : option Z := Some 1700000000.
Abbreviation mint_validators := (fun clock =>
  consensus_validator toy_hash mint_tx_hash mint_tx_size mint_pow clock false).
Abbreviation mint_add := (add_block (RF := unit) (P2 := list Z) (BV := mint_validators mint_clock)
  (header_hash toy_hash) mint_tx_hash mint_tx_size mint_checkpoints false).
Abbreviation mint_reachable := (reachable mint_validators (header_hash toy_hash)
  mint_tx_hash mint_tx_size mint_checkpoints false mint_genesis mint_expected []).

Definition mint_start : Chain unit (list Z) :=
  match init_genesis (header_hash toy_hash) mint_tx_hash mint_genesis mint_expected
          (fresh_node ∅ Mainnet None []) with
  | Ret (c, _) => c
  | _ => fresh_node ∅ Mainnet None []
  end.

Definition mint_node : Chain unit (list Z) :=
  match mint_add mint_start 0 mint_block with Ret (c, _) => c | _ => mint_start end.

Lemma mint_start_reachable : mint_reachable mint_start.
Proof.
  eapply (reach_genesis _ _ _ _ _ _ _ _ ∅ Mainnet None []); [|reflexivity].
  split; [|split_and!; reflexivity]. split; [cbn; lia|constructor].
Qed.

Lemma mint_accepted : exists c, mint_add mint_start 0 mint_block = Ret (c, Ok Accepted).
Proof.
  assert (H : (match mint_add mint_start 0 mint_block with
    | Ret (_, Ok Accepted) => true | _ => false end) = true) by (vm_compute; reflexivity).
  destruct (mint_add mint_start 0 mint_block) as [[c [[]|]]| |]; try discriminate H.
  by exists c.
Qed.

Lemma mint_node_reachable : mint_reachable mint_node.
Proof.
  destruct mint_accepted as [c E]. unfold mint_node. rewrite E.
  apply (reach_add mint_validators _ _ _ _ _ _ _ [] mint_start mint_clock 0 mint_block c
    (Ok Accepted)).
  - apply mint_start_reachable.
  - split; [cbn; lia|]. repeat constructor; cbn; word_lia.
  - exact E.
Qed.

Lemma main_chain_money_witness :
  length (main_chain mint_node) = 2%nat
  /\ zsum minted (drop 1 (main_chain mint_node)) + total_burned (c_stats mint_node)
     = total_supply (c_stats mint_node) - reward 0
       + zsum total_fees (drop 1 (main_chain mint_node)).
Proof.
  split; [vm_compute; reflexivity|].
  apply (main_chain_money toy_hash mint_tx_hash mint_tx_size mint_pow false
    mint_checkpoints mint_genesis mint_expected mint_node). apply mint_node_reachable.
Defined.
