(* ===== verification/Mempool.v ===== *)
(** * The transaction pool ([src/mempool.rs])

    The pool with its three indices, admission with replacement and eviction,
    the removals a new block triggers, block templates, and the admission
    against a chain that other threads update.  The iteration order of a hash
    map is not specified by the language; the model uses the order of
    [map_to_list].  [now] is the clock during a call. *)

From stdpp Require Import prelude gmap sorting.
From Stdlib Require Import ZArith Lia.
From S2P Require Import Prelude Constants FeeMarket Difficulty Block Utxo ForkChoice TxValidation.

Local Open Scope Z_scope.

(** ** Data *)

Definition MAX_MEMPOOL_BYTES : Z := 300 * 1024 * 1024.
Definition MAX_MEMPOOL_TXS : Z := 100000.
Definition TX_EXPIRY_BLOCKS : Z := 288.
Definition AUDIT_LOG_CAPACITY : nat := 4096.
Definition RBF_FEE_BUMP_NUMERATOR : Z := 125.
Definition RBF_FEE_BUMP_DENOMINATOR : Z := 100.
Definition MAX_EVICTION_ATTEMPTS : nat := 100.
Definition MAX_CHAIN_GENERATION_ATTEMPTS : nat := 4.

Inductive EvictReason := Confirmed | DoubleSpend | ReplacedByFee | LowFee | Expired.

Inductive pool_error :=
| CoinbaseInMempool
| StructureError (e : tx_error)
| RangeProofRejected
| BalanceRejected
| RingSignatureRejected (idx : nat)
| PoolTxTooLarge (size : Z)
| PoolFeeTooLow (fee min : Z)
| ReplacementFeeTooLow
| MempoolFull
| ChainInvalid (e : tx_error)
| ChainUnstable.

Inductive AuditEvent :=
| TxAdded (hash : Hash) (fee size timestamp : Z)
| TxRejected (hash : Hash) (reason : pool_error) (timestamp : Z)
| TxRemoved (hash : Hash) (reason : EvictReason) (timestamp : Z).

Record MempoolEntry := mkMempoolEntry {
  me_tx : Transaction;
  me_hash : Hash;
  me_fee : Z;
  me_fee_per_byte : Z;
  me_size : Z;
  me_added_time : Z;
  me_height_added : Z;
}.

(** The key of the fee index: rate, then hash. *)
Definition FeeKey : Type := Z * Hash.

Record Mempool := mkMempool {
  p_transactions : gmap Hash MempoolEntry;
  p_by_fee : gmap FeeKey Hash;
  p_key_images : gset KeyImage;
  p_max_size : Z;
  p_current_size : Z;
  p_chain_height : Z;
  p_audit_log : list AuditEvent;
}.

(** The order of the keys of the [BTreeMap]. *)
Definition fee_key_le (a b : FeeKey) : Prop :=
  a.1 < b.1 \/ a.1 = b.1 /\ bytes_ltb b.2 a.2 = false.

#[export] Instance fee_key_le_dec a b : Decision (fee_key_le a b).
Proof. unfold fee_key_le. apply _. Defined.

Definition fee_entries (m : gmap FeeKey Hash) : list (FeeKey * Hash) :=
  omap (fun k => h ← m !! k; Some (k, h)) (merge_sort fee_key_le (map_to_list m).*1).

Definition scaled_fee_per_byte (fee_atomic size : Z) : Z :=
  let size := Z.max size 1 in
  Z.min (fee_atomic * 1000000 / size) u64_max.

Definition with_max_size (max_size : Z) : Mempool := mkMempool ∅ ∅ ∅ max_size 0 0 [].
Definition Mempool_new : Mempool := with_max_size MAX_MEMPOOL_BYTES.

Section pool.
Context {CR : Crypto} {V : Verdicts}.
Context (tx_hash : Transaction -> Hash) (tx_size : Transaction -> Z).
Implicit Types (p : Mempool) (tx : Transaction) (h : Hash).

Definition MempoolEntry_new tx (height time : Z) : MempoolEntry :=
  let size := Z.max (tx_size tx) 1 in
  mkMempoolEntry tx (tx_hash tx) (fee tx) (Z.min (fee tx * 1000000 / size) u64_max) size time
    height.

(** ** Log and removal *)

Definition audit p (e : AuditEvent) : Mempool :=
  let log :=
    if (AUDIT_LOG_CAPACITY <=? length (p_audit_log p))%nat then drop 1 (p_audit_log p)
    else p_audit_log p in
  mkMempool (p_transactions p) (p_by_fee p) (p_key_images p) (p_max_size p)
    (p_current_size p) (p_chain_height p) (log ++ [e]).

Definition reject p (now : Z) h (e : pool_error) : Mempool * result pool_error Hash :=
  (audit p (TxRejected h e now), Err e).

Definition remove p h : Mempool * option Transaction :=
  match p_transactions p !! h with
  | Some e =>
      (mkMempool (delete h (p_transactions p))
         (delete (me_fee_per_byte e, h) (p_by_fee p))
         (p_key_images p ∖ list_to_set (key_images (me_tx e)))
         (p_max_size p) (sat_sub (p_current_size p) (me_size e)) (p_chain_height p)
         (p_audit_log p), Some (me_tx e))
  | None => (p, None)
  end.

(** Log the removal of [h], then remove it. *)
Definition remove_as (reason : EvictReason) (now : Z) p h : Mempool :=
  (remove (audit p (TxRemoved h reason now)) h).1.

(** The hashes of the entries that satisfy [f]. *)
Definition hashes_where p (f : MempoolEntry -> bool) : list Hash :=
  omap (fun e => if f e.2 then Some e.1 else None) (map_to_list (p_transactions p)).

Definition expire_old_transactions p (now current_height : Z) : Mempool :=
  foldl (remove_as Expired now) p
    (hashes_where p (fun e =>
       TX_EXPIRY_BLOCKS <? sat_sub current_height (me_height_added e))).

Definition set_height p (now height : Z) : Mempool :=
  expire_old_transactions
    (mkMempool (p_transactions p) (p_by_fee p) (p_key_images p) (p_max_size p)
       (p_current_size p) height (p_audit_log p)) now height.

Definition expire_old p (now max_age_secs : Z) : Mempool * nat :=
  let expired :=
    hashes_where p (fun e => max_age_secs <? sat_sub now (me_added_time e)) in
  (foldl (remove_as Expired now) p expired, length expired).

Definition clear p : Mempool :=
  mkMempool ∅ ∅ ∅ (p_max_size p) 0 (p_chain_height p) (p_audit_log p).

(** Does the entry spend one of [kis]? *)
Definition spends_any (kis : list KeyImage) (e : MempoolEntry) : bool :=
  existsb (fun k => bool_decide (k ∈ kis)) (key_images (me_tx e)).

Definition remove_conflicts p (kis : list KeyImage) : Mempool :=
  foldl (fun p h => (remove p h).1) p (hashes_where p (spends_any kis)).

(** The entry that spends [ki], if there is one. *)
Definition find_spender p (ki : KeyImage) : option (Hash * MempoolEntry) :=
  head (filter (fun e => spends_any [ki] e.2 = true) (map_to_list (p_transactions p))).

Definition push_new h (l : list Hash) : list Hash := if bool_decide (h ∈ l) then l else l ++ [h].

(** Pass 2 of [remove_confirmed]: the entries to evict. *)
Definition shadow_conflicts p (kis : list KeyImage) : list Hash :=
  foldl (fun acc ki => match find_spender p ki with Some e => push_new e.1 acc | None => acc end)
    [] kis.

Definition remove_confirmed p (now : Z) (txs : list Transaction) : Mempool :=
  let p := foldl (remove_as Confirmed now) p (tx_hash <$> txs) in
  foldl (remove_as DoubleSpend now) p (shadow_conflicts p (concat (key_images <$> txs))).

(** [validate] is [ShadowEvictChain::validate_transaction]. *)
Definition shadow_evict_invalid p (now : Z) (validate : Transaction -> result tx_error unit)
  : Mempool :=
  foldl (remove_as DoubleSpend now) p
    (hashes_where p (fun e => match validate (me_tx e) with Ok _ => false | Err _ => true end)).

Definition evict_lowest_fee p (now : Z) : Mempool :=
  match head (fee_entries (p_by_fee p)) with
  | Some (k, _) => remove_as LowFee now p k.2
  | None => p
  end.

Definition verify_size_invariant p : bool :=
  foldr (fun e n => me_size e.2 + n) 0 (map_to_list (p_transactions p)) =? p_current_size p.

(** ** Admission *)

Definition lift {A} (r : result tx_error A) : result pool_error A :=
  match r with Ok a => Ok a | Err e => Err (StructureError e) end.

Definition preflight_check tx : result pool_error unit :=
  _ ← guard_or (negb (is_coinbase tx)) CoinbaseInMempool;
  _ ← lift (validate_transaction_basic tx_size tx);
  if negb (is_coinbase tx) then lift (check_tx_privacy tx) else Ok tt.

Definition verify_crypto_for_admission tx (chain_height : Z) : result pool_error unit :=
  if is_coinbase tx then Ok tt
  else
    _ ← guard_or (verify_output_range_proofs tx chain_height) RangeProofRejected;
    _ ← guard_or (verify_balance_proof tx) BalanceRejected;
    try_each (fun idx i => guard_or (sig_verdict tx i) (RingSignatureRejected idx)) (inputs tx).

Definition fee_multiplier (fullness_pct : Z) : Z :=
  if fullness_pct <=? 24 then 1
  else if fullness_pct <=? 49 then 2
  else if fullness_pct <=? 74 then 4
  else 8.

Definition admission_min_fee p (size : Z) : Z :=
  let fullness_pct :=
    if 0 <? p_max_size p then wrap64 (p_current_size p * 100) / p_max_size p else 0 in
  wrap64 (wrap64 (size * MIN_FEE_PER_BYTE) * fee_multiplier fullness_pct).

(** Is the bump of 25 % reached? *)
Definition outbids (new_fee_rate old_fee_rate : Z) : bool :=
  (sat_mul u128_max old_fee_rate RBF_FEE_BUMP_NUMERATOR
     <=? sat_mul u128_max new_fee_rate RBF_FEE_BUMP_DENOMINATOR)
  && (old_fee_rate <? new_fee_rate).

(** The loop over the key images: the transactions to replace. *)
Fixpoint replacements p (new_fee_rate : Z) (kis : list KeyImage) (to_replace : list Hash)
  : result pool_error (list Hash) :=
  match kis with
  | [] => Ok to_replace
  | ki :: kis =>
      if bool_decide (ki ∈ p_key_images p) then
        match find_spender p ki with
        | Some (old_hash, e) =>
            if outbids new_fee_rate (me_fee_per_byte e) then
              replacements p new_fee_rate kis (push_new old_hash to_replace)
            else Err ReplacementFeeTooLow
        | None => Err ReplacementFeeTooLow
        end
      else replacements p new_fee_rate kis to_replace
  end.

(** The simulated eviction: the size left and the number of evictions. *)
Fixpoint simulate p (size : Z) (to_replace : list Hash) (cands : list (FeeKey * Hash))
    (simulated : Z) (attempts : nat) : Z * nat :=
  match cands with
  | [] => (simulated, attempts)
  | (_, h) :: cands =>
      if (simulated + size <=? p_max_size p) || (MAX_EVICTION_ATTEMPTS <=? attempts)%nat
      then (simulated, attempts)
      else if bool_decide (h ∈ to_replace) then
        simulate p size to_replace cands simulated attempts
      else
        match p_transactions p !! h with
        | Some e =>
            simulate p size to_replace cands (sat_sub simulated (me_size e)) (S attempts)
        | None => simulate p size to_replace cands simulated attempts
        end
  end.

Definition replaced_size p (to_replace : list Hash) : Z :=
  foldr (fun h n => match p_transactions p !! h with Some e => me_size e + n | None => n end) 0
    to_replace.

Definition fits p (size : Z) (to_replace : list Hash) : bool :=
  let simulated := sat_sub (p_current_size p) (replaced_size p to_replace) in
  (simulated + size <=? p_max_size p)
  || ((simulate p size to_replace (fee_entries (p_by_fee p)) simulated 0).1 + size
        <=? p_max_size p).

(** [n] attempts are left; the flag says that the loop gave up. *)
Fixpoint evict_loop (n : nat) p (now size : Z) : Mempool * bool :=
  if (p_current_size p + size <=? p_max_size p) || bool_decide (p_transactions p = ∅)
  then (p, false)
  else
    match n with
    | O => (p, true)
    | S n =>
        let p' := evict_lowest_fee p now in
        if (p_current_size p <=? p_current_size p') || (n =? 0)%nat then (p', true)
        else evict_loop n p' now size
    end.

Definition insert_entry p (now : Z) tx h : Mempool :=
  let e := MempoolEntry_new tx (p_chain_height p) now in
  let p := audit p (TxAdded h (me_fee e) (me_size e) now) in
  mkMempool (<[h := e]> (p_transactions p))
    (<[(me_fee_per_byte e, h) := h]> (p_by_fee p))
    (p_key_images p ∪ list_to_set (key_images tx)) (p_max_size p)
    (p_current_size p + me_size e) (p_chain_height p) (p_audit_log p).

Definition admit_after_checks p (now : Z) tx h : Mempool * result pool_error Hash :=
  let size := tx_size tx in
  if MAX_TX_SIZE <? size then reject p now h (PoolTxTooLarge size)
  else
    let min_fee := admission_min_fee p size in
    if fee tx <? min_fee then reject p now h (PoolFeeTooLow (fee tx) min_fee)
    else
      match replacements p (scaled_fee_per_byte (fee tx) size) (key_images tx) [] with
      | Err e => reject p now h e
      | Ok to_replace =>
          if negb (fits p size to_replace) then reject p now h MempoolFull
          else
            let p := foldl (remove_as ReplacedByFee now) p to_replace in
            match evict_loop MAX_EVICTION_ATTEMPTS p now size with
            | (p, true) => reject p now h MempoolFull
            | (p, false) => (insert_entry p now tx h, Ok h)
            end
      end.

Definition add p (now : Z) tx : Mempool * result pool_error Hash :=
  let h := tx_hash tx in
  match preflight_check tx with
  | Err e => reject p now h e
  | Ok _ =>
      if bool_decide (is_Some (p_transactions p !! h)) then (p, Ok h)
      else
        match verify_crypto_for_admission tx (p_chain_height p) with
        | Err e => reject p now h e
        | Ok _ => admit_after_checks p now tx h
        end
  end.

(** ** Block templates and fees *)

Fixpoint select p (max_size : Z) (max_count : nat) (cands : list (FeeKey * Hash))
    (total_size : Z) (selected : gset KeyImage) (result : list Transaction)
  : list Transaction :=
  match cands with
  | [] => result
  | (_, h) :: cands =>
      if (max_count <=? length result)%nat then result
      else
        match p_transactions p !! h with
        | Some e =>
            if total_size + me_size e <=? max_size then
              if existsb (fun ki => bool_decide (ki ∈ selected)) (key_images (me_tx e)) then
                select p max_size max_count cands total_size selected result
              else
                select p max_size max_count cands (total_size + me_size e)
                  (selected ∪ list_to_set (key_images (me_tx e))) (result ++ [me_tx e])
            else select p max_size max_count cands total_size selected result
        | None => select p max_size max_count cands total_size selected result
        end
  end.

Definition get_block_transactions p (max_size : Z) (max_count : nat) : list Transaction :=
  select p max_size max_count (reverse (fee_entries (p_by_fee p))) 0 ∅ [].

Record FeePercentiles := mkFeePercentiles {
  p25 : Z; p50 : Z; p75 : Z; p90 : Z; fp_count : nat;
}.

(** [None] is an index out of range. *)
Definition fee_percentiles p : option FeePercentiles :=
  let min_fee := MIN_FEE_PER_BYTE in
  if bool_decide (p_transactions p = ∅) then
    Some (mkFeePercentiles min_fee min_fee min_fee min_fee 0)
  else
    let fees := (fun e : FeeKey * Hash => e.1.1) <$> fee_entries (p_by_fee p) in
    let n := length fees in
    let percentile pct :=
      f ← fees !! Nat.min (n * pct / 100) (n - 1);
      Some (Z.max f min_fee) in
    a ← percentile 25%nat; b ← percentile 50%nat; c ← percentile 75%nat; d ← percentile 90%nat;
    Some (mkFeePercentiles a b c d n).

(** ** Persistence *)

Definition save_to_disk p : list Transaction :=
  (fun e => me_tx e.2) <$> map_to_list (p_transactions p).

Fixpoint load_loop p (now : Z) (txs : list Transaction) : Mempool * nat :=
  match txs with
  | [] => (p, O)
  | tx :: txs =>
      match add p now tx with
      | (p, Ok _) => let '(p, n) := load_loop p now txs in (p, S n)
      | (p, Err _) => load_loop p now txs
      end
  end.

(** [file] is the length of [mempool.dat] and what it decodes to, if it exists;
    [None] is a file that is refused.  In every case the file is gone
    afterwards. *)
Definition load_from_disk p (now : Z) (file : option (Z * option (list Transaction)))
  : Mempool * option nat :=
  match file with
  | None => (p, Some O)
  | Some (file_len, decoded) =>
      if MAX_MEMPOOL_BYTES <? file_len then (p, None)
      else
        match decoded with
        | None => (p, None)
        | Some txs =>
            if MAX_MEMPOOL_TXS <? zlen txs then (p, None)
            else let '(p, n) := load_loop p now txs in (p, Some n)
        end
  end.

(** ** Admission against a chain that other threads update

    One attempt: the generation read first ([None] while an update runs), the
    answer of the chain's validator, and the generation read again under the
    lock of the pool.  The pool [p] of the operations below is the one the
    attempt that ends the loop finds under that lock. *)
Record Attempt := mkAttempt {
  a_before : option Z;
  a_validation : result tx_error unit;
  a_after : option Z;
}.

(** [retry_stable_admission] with the closure of [add_with_chain], on the
    attempts in the order they happen. *)
Fixpoint retry_stable_admission p (now : Z) tx (attempts : list Attempt) (n : nat)
  : Mempool * result pool_error Hash :=
  match n, attempts with
  | S n, a :: attempts =>
      match a_before a with
      | None => retry_stable_admission p now tx attempts n
      | Some generation =>
          if negb (bool_decide (a_after a = Some generation)) then
            retry_stable_admission p now tx attempts n
          else
            match a_validation a with
            | Err e => (p, Err (ChainInvalid e))
            | Ok _ => add p now tx
            end
      end
  | _, _ => (p, Err ChainUnstable)
  end.

Definition add_with_chain p (now : Z) tx (attempts : list Attempt)
  : Mempool * result pool_error Hash :=
  match
    (_ ← guard_or (negb (is_coinbase tx)) CoinbaseInMempool;
     _ ← lift (validate_transaction_basic tx_size tx);
     lift (check_tx_privacy tx))
  with
  | Err e => (p, Err e)
  | Ok _ => retry_stable_admission p now tx attempts MAX_CHAIN_GENERATION_ATTEMPTS
  end.

(** Each orphaned transaction with the attempts its admission makes. *)
Fixpoint restore_orphaned p (now : Z) (txs : list (Transaction * list Attempt)) : Mempool * nat :=
  match txs with
  | [] => (p, O)
  | (tx, attempts) :: txs =>
      match add_with_chain p now tx attempts with
      | (p, Ok _) => let '(p, n) := restore_orphaned p now txs in (p, S n)
      | (p, Err _) => restore_orphaned p now txs
      end
  end.
End pool.

(** ** The generation counter of the chain ([src/chain.rs]) *)

Record Generation := mkGeneration {
  state_generation : Z;
  state_updates_in_progress : Z;
}.

Definition begin_state_update (g : Generation) : Generation :=
  mkGeneration (state_generation g) (state_updates_in_progress g + 1).

(** [StateUpdate::drop], its two atomic steps. *)
Definition drop_bump (g : Generation) : Generation :=
  mkGeneration (wrap64 (state_generation g + 1)) (state_updates_in_progress g).
Definition drop_leave (g : Generation) : Generation :=
  mkGeneration (state_generation g) (state_updates_in_progress g - 1).

(** [stable_generation], given the three states in which it loads. *)
Definition stable_generation (g1 g2 g3 : Generation) : option Z :=
  if negb (state_updates_in_progress g1 =? 0) then None
  else
    let generation := state_generation g2 in
    if state_updates_in_progress g3 =? 0 then Some generation else None.
