(* ===== verification/MempoolRules.v ===== *)
(** * Properties of the transaction pool

    The invariant of the pool and its preservation by every operation, what a
    rejected admission leaves behind, what a block template contains, and why
    the admission against a moving chain sees one state of it. *)

From stdpp Require Import prelude gmap sorting.
From Stdlib Require Import ZArith Lia.
From S2P Require Import Prelude Constants FeeMarket Difficulty Block Utxo ForkChoice.
From S2P Require Import TxValidation Mempool.

Local Open Scope Z_scope.

(** ** The order of the fee index *)

Lemma bytes_ltb_antisym a b :
  bytes_ltb a b = false -> bytes_ltb b a = false -> a = b.
Proof.
  revert b. induction a as [|x a IH]; intros [|y b]; cbn; try done.
  destruct (Z.ltb_spec x y), (Z.ltb_spec y x); try done. intros H1 H2.
  assert (x = y) as -> by lia. f_equal. by apply IH.
Qed.

Lemma bytes_ltb_asym a b : bytes_ltb a b = true -> bytes_ltb b a = false.
Proof.
  intros H. destruct (bytes_ltb b a) eqn:E; [|done].
  by rewrite <- (bytes_ltb_irrefl a), (bytes_ltb_trans a b a).
Qed.

#[export] Instance fee_key_le_total : Total fee_key_le.
Proof.
  intros [x a] [y b]. unfold fee_key_le. cbn. destruct (Z.lt_total x y) as [|[->|]]; try tauto.
  destruct (bytes_ltb b a) eqn:E; [|tauto]. apply bytes_ltb_asym in E. tauto.
Qed.

#[export] Instance fee_key_le_trans : Transitive fee_key_le.
Proof.
  intros [x a] [y b] [z c]. unfold fee_key_le. cbn.
  intros [H1|[-> H1]] [H2|[-> H2]]; try (left; lia). right. split; [done|].
  destruct (bytes_ltb c a) eqn:E; [|done].
  destruct (bytes_ltb b c) eqn:E2.
  - by rewrite (bytes_ltb_trans b c a) in H1.
  - assert (b = c) as -> by by apply bytes_ltb_antisym. congruence.
Qed.

#[export] Instance fee_key_le_antisym : AntiSymm eq fee_key_le.
Proof.
  intros [x a] [y b]. unfold fee_key_le. cbn. intros [?|[-> ?]] [?|[? ?]]; try lia.
  f_equal. by apply bytes_ltb_antisym.
Qed.

(** The keys of the index in ascending order. *)
Definition fee_keys (m : gmap FeeKey Hash) : list FeeKey :=
  merge_sort fee_key_le (map_to_list m).*1.

Lemma fee_keys_sorted m : StronglySorted fee_key_le (fee_keys m).
Proof. apply Sorted_StronglySorted; [apply _|]. apply Sorted_merge_sort, _. Qed.

Lemma fee_keys_perm m : fee_keys m ≡ₚ (map_to_list m).*1.
Proof. apply merge_sort_Permutation. Qed.

Lemma fee_keys_elem m k : k ∈ fee_keys m <-> is_Some (m !! k).
Proof.
  rewrite fee_keys_perm, list_elem_of_fmap. split.
  - intros ([k' v]&->&Hx). apply elem_of_map_to_list in Hx. cbn. eauto.
  - intros [v Hv]. exists (k, v). by rewrite elem_of_map_to_list.
Qed.

Lemma fee_keys_nodup m : NoDup (fee_keys m).
Proof. rewrite fee_keys_perm. apply NoDup_fst_map_to_list. Qed.

(** Removing entries removes their keys and keeps the order of the rest. *)
Lemma fee_keys_filter m m' (P : FeeKey -> Prop) `{!forall k, Decision (P k)} :
  (forall k, is_Some (m' !! k) <-> is_Some (m !! k) /\ P k) ->
  fee_keys m' = filter P (fee_keys m).
Proof.
  intros Hm. apply (StronglySorted_unique fee_key_le).
  - apply fee_keys_sorted.
  - apply sorted_filter, fee_keys_sorted.
  - apply NoDup_Permutation; [apply fee_keys_nodup|apply NoDup_filter, fee_keys_nodup|].
    intros k. rewrite fee_keys_elem, list_elem_of_filter, fee_keys_elem. rewrite Hm. tauto.
Qed.

(** ** Bytes in the pool *)

Definition pool_bytes (m : gmap Hash MempoolEntry) : Z :=
  map_fold (fun _ e n => me_size e + n) 0 m.

Lemma pool_bytes_insert m h e :
  m !! h = None -> pool_bytes (<[h := e]> m) = me_size e + pool_bytes m.
Proof.
  intros Hm. unfold pool_bytes.
  apply (map_fold_insert_L (fun _ e n => me_size e + n)); [|done]. intros. lia.
Qed.

Lemma pool_bytes_delete m h e :
  m !! h = Some e -> pool_bytes m = me_size e + pool_bytes (delete h m).
Proof.
  intros Hm. rewrite <- (insert_id m h e Hm) at 1. rewrite <- insert_delete_eq.
  apply pool_bytes_insert. apply lookup_delete_eq.
Qed.

Lemma pool_bytes_empty : pool_bytes ∅ = 0.
Proof. apply map_fold_empty. Qed.

Lemma pool_bytes_nonneg m :
  (forall h e, m !! h = Some e -> 0 <= me_size e) -> 0 <= pool_bytes m.
Proof.
  induction m as [|h e m Hh IH] using map_ind; intros H; [by rewrite pool_bytes_empty|].
  rewrite pool_bytes_insert by done.
  pose proof (H h e ltac:(by rewrite lookup_insert_eq)).
  enough (0 <= pool_bytes m) by lia. apply IH. intros h' e' He. apply (H h').
  rewrite lookup_insert_ne; [done|]. congruence.
Qed.

(** ** The invariant *)

Section wf.
Context {CR : Crypto} {V : Verdicts}.
Context (tx_hash : Transaction -> Hash) (tx_size : Transaction -> Z).

(** An entry is the one its transaction gives, and that passed the checks that
    need no chain. *)
Record entry_ok (h : Hash) (e : MempoolEntry) : Prop := {
  eo_hash : tx_hash (me_tx e) = h;
  eo_entry : e = MempoolEntry_new tx_hash tx_size (me_tx e) (me_height_added e) (me_added_time e);
  eo_preflight : preflight_check tx_size (me_tx e) = Ok tt;
}.

Record pool_wf (p : Mempool) : Prop := {
  wf_entries : forall h e, p_transactions p !! h = Some e -> entry_ok h e;
  wf_fees : forall k h, p_by_fee p !! k = Some h <->
    k.2 = h /\ exists e, p_transactions p !! h = Some e /\ me_fee_per_byte e = k.1;
  wf_images : forall ki, ki ∈ p_key_images p <->
    exists h e, p_transactions p !! h = Some e /\ ki ∈ key_images (me_tx e);
  wf_disjoint : forall h h' e e' ki, p_transactions p !! h = Some e ->
    p_transactions p !! h' = Some e' -> ki ∈ key_images (me_tx e) ->
    ki ∈ key_images (me_tx e') -> h = h';
  wf_size : p_current_size p = pool_bytes (p_transactions p);
  wf_max : p_current_size p <= p_max_size p;
}.

Lemma preflight_facts tx :
  preflight_check tx_size tx = Ok tt ->
  is_coinbase tx = false /\ MIN_TX_SIZE <= tx_size tx <= MAX_TX_SIZE /\ NoDup (key_images tx)
  /\ inputs tx <> [].
Proof.
  unfold preflight_check, lift. intros H.
  destruct (is_coinbase tx) eqn:Hc; [done|]. cbn in H.
  destruct (validate_transaction_basic tx_size tx) as [[]|] eqn:Hb; [|done].
  split; [done|]. unfold validate_transaction_basic in Hb.
  repeat (apply bind_ok in Hb as ([]&?&Hb)). rewrite ?guard_or_ok, ?bool_decide_eq_true in *.
  split_and!; [lia..|done|]. intros Hi. by rewrite Hi in *.
Qed.

Lemma entry_size h e :
  entry_ok h e -> me_size e = tx_size (me_tx e) /\ MIN_TX_SIZE <= me_size e <= MAX_TX_SIZE
  /\ me_fee_per_byte e = scaled_fee_per_byte (fee (me_tx e)) (me_size e).
Proof.
  intros [_ He Hp]. apply preflight_facts in Hp as (_&Hs&_).
  assert (Heq : me_size e = tx_size (me_tx e)).
  { rewrite He at 1. cbn. unfold MIN_TX_SIZE in Hs. lia. }
  split_and!; [done|lia..|]. rewrite He at 1. cbn. unfold scaled_fee_per_byte. rewrite Heq.
  done.
Qed.

Lemma pool_bytes_pos p h e :
  pool_wf p -> p_transactions p !! h = Some e -> 0 < me_size e <= p_current_size p.
Proof.
  intros Hp He. pose proof (entry_size h e (wf_entries p Hp h e He)) as (_&Hs&_).
  rewrite (wf_size p Hp), (pool_bytes_delete _ _ _ He).
  enough (0 <= pool_bytes (delete h (p_transactions p))) by (unfold MIN_TX_SIZE in Hs; lia).
  apply pool_bytes_nonneg. intros h' e' [_ He']%lookup_delete_Some.
  apply (wf_entries p Hp), entry_size in He' as (_&Hs'&_). unfold MIN_TX_SIZE in Hs'. lia.
Qed.

(** ** Removal *)

(** The pool without the log. *)
Definition contents (p : Mempool) : Mempool :=
  mkMempool (p_transactions p) (p_by_fee p) (p_key_images p) (p_max_size p) (p_current_size p)
    (p_chain_height p) [].

Lemma wf_contents p : pool_wf p <-> pool_wf (contents p).
Proof. split; intros [H1 H2 H3 H4 H5 H6]; by split. Qed.

Lemma wf_same p p' : contents p' = contents p -> pool_wf p -> pool_wf p'.
Proof. intros H. by rewrite (wf_contents p), (wf_contents p'), H. Qed.

Lemma contents_audit p e : contents (audit p e) = contents p.
Proof. done. Qed.

Lemma remove_wf p h : pool_wf p -> pool_wf (remove p h).1.
Proof.
  intros Hp. unfold remove. destruct (p_transactions p !! h) as [e|] eqn:He; [|done].
  split; cbn.
  - intros h' e' [_ H]%lookup_delete_Some. by apply (wf_entries p Hp).
  - intros k h'. rewrite lookup_delete_Some, (wf_fees p Hp). setoid_rewrite lookup_delete_Some.
    split.
    + intros (Hk&<-&e'&He'&Hr). split; [done|]. exists e'. split_and!; try done.
      intros ->. apply Hk. destruct k as [r h']. cbn in *. congruence.
    + intros (<-&e'&(Hne&He')&Hr). split_and!; [|done|by exists e'].
      intros <-. by apply Hne.
  - intros ki. rewrite elem_of_difference, elem_of_list_to_set, (wf_images p Hp).
    setoid_rewrite lookup_delete_Some. split.
    + intros ((h'&e'&He'&Hki)&Hn). exists h', e'. split_and!; try done. intros <-. congruence.
    + intros (h'&e'&(Hne&He')&Hki). split; [by exists h', e'|].
      intros Hki'. apply Hne. by eapply (wf_disjoint p Hp h h' e e' ki).
  - intros h1 h2 e1 e2 ki [_ H1]%lookup_delete_Some [_ H2]%lookup_delete_Some.
    by apply (wf_disjoint p Hp).
  - pose proof (pool_bytes_pos p h e Hp He). rewrite (wf_size p Hp) in *.
    rewrite (pool_bytes_delete _ _ _ He) in *. word_lia.
  - pose proof (pool_bytes_pos p h e Hp He). pose proof (wf_max p Hp). word_lia.
Qed.

Lemma remove_as_wf reason now p h : pool_wf p -> pool_wf (remove_as reason now p h).
Proof. intros Hp. apply remove_wf. by apply (wf_same p). Qed.

Lemma pool_remove_all_wf reason now l p : pool_wf p -> pool_wf (foldl (remove_as reason now) p l).
Proof. revert p. induction l as [|h l IH]; intros p Hp; [done|]. by apply IH, remove_as_wf. Qed.

(** Removal does not touch the other entries. *)
Lemma remove_lookup p h h' :
  p_transactions (remove p h).1 !! h'
  = if bool_decide (h' = h) then None else p_transactions p !! h'.
Proof.
  unfold remove. destruct (p_transactions p !! h) as [e|] eqn:He; cbn.
  - case_bool_decide as Heq; [subst; by rewrite lookup_delete_eq|by rewrite lookup_delete_ne].
  - case_bool_decide; congruence.
Qed.

Lemma remove_all_lookup reason now l p h :
  p_transactions (foldl (remove_as reason now) p l) !! h
  = if bool_decide (h ∈ l) then None else p_transactions p !! h.
Proof.
  revert p. induction l as [|h' l IH]; intros p; [done|]. cbn [foldl]. rewrite IH.
  unfold remove_as. rewrite remove_lookup. cbn [audit p_transactions].
  rewrite (bool_decide_ext (h ∈ h' :: l) (h = h' \/ h ∈ l)) by apply elem_of_cons.
  repeat case_bool_decide; naive_solver.
Qed.

Lemma remove_all_fixed reason now l p :
  p_max_size (foldl (remove_as reason now) p l) = p_max_size p
  /\ p_chain_height (foldl (remove_as reason now) p l) = p_chain_height p.
Proof.
  revert p. induction l as [|h l IH]; intros p; [done|]. cbn [foldl].
  destruct (IH (remove_as reason now p h)) as [-> ->].
  unfold remove_as, remove. cbn [audit p_transactions]. by destruct (p_transactions p !! h).
Qed.

Lemma hashes_where_elem p f h :
  h ∈ hashes_where p f <-> exists e, p_transactions p !! h = Some e /\ f e = true.
Proof.
  unfold hashes_where. rewrite list_elem_of_omap. split.
  - intros ([h' e]&He%elem_of_map_to_list&H). cbn in H. destruct (f e) eqn:Ef; [|done].
    injection H as ->. by exists e.
  - intros (e&He&Hf). exists (h, e). rewrite elem_of_map_to_list. cbn. by rewrite Hf.
Qed.

(** ** Admission keeps the invariant *)

Lemma spends_any_spec kis e :
  spends_any kis e = true <-> exists ki, ki ∈ kis /\ ki ∈ key_images (me_tx e).
Proof.
  unfold spends_any. rewrite existsb_exists. setoid_rewrite <- list_elem_of_In.
  setoid_rewrite bool_decide_eq_true. naive_solver.
Qed.

Lemma find_spender_some p ki h e :
  find_spender p ki = Some (h, e) -> p_transactions p !! h = Some e /\ ki ∈ key_images (me_tx e).
Proof.
  unfold find_spender. intros H. apply head_Some_elem_of in H.
  apply list_elem_of_filter in H as [Hs He%elem_of_map_to_list]. split; [done|].
  apply spends_any_spec in Hs as (k&Hk&?). by apply list_elem_of_singleton in Hk as ->.
Qed.

Lemma find_spender_none p ki h e :
  find_spender p ki = None -> p_transactions p !! h = Some e -> ki ∉ key_images (me_tx e).
Proof.
  unfold find_spender. intros H He Hki. apply head_None in H.
  assert (Hin : (h, e) ∈ filter (fun e => spends_any [ki] e.2 = true)
                          (map_to_list (p_transactions p))).
  { apply list_elem_of_filter. rewrite elem_of_map_to_list. split; [|done].
    apply spends_any_spec. exists ki. split; [by apply list_elem_of_singleton|done]. }
  rewrite H in Hin. by apply not_elem_of_nil in Hin.
Qed.

Lemma push_new_elem h h' l : h' ∈ push_new h l <-> h' = h \/ h' ∈ l.
Proof.
  unfold push_new. case_bool_decide; [naive_solver|].
  rewrite elem_of_app, list_elem_of_singleton. tauto.
Qed.

Lemma push_new_nodup h l : NoDup l -> NoDup (push_new h l).
Proof.
  unfold push_new. case_bool_decide as Hh; [done|]. intros Hl. apply NoDup_app. split_and!; [done| |].
  - intros x Hx ->%list_elem_of_singleton. done.
  - apply NoDup_singleton.
Qed.

(** The replacements are the conflicting entries, each of them outbid. *)
Lemma replacements_spec p rate kis acc l :
  replacements p rate kis acc = Ok l -> NoDup acc ->
  NoDup l
  /\ (forall h, h ∈ l -> h ∈ acc \/ exists e ki, p_transactions p !! h = Some e /\ ki ∈ kis
        /\ ki ∈ key_images (me_tx e) /\ outbids rate (me_fee_per_byte e) = true)
  /\ (forall h, h ∈ acc -> h ∈ l)
  /\ (forall ki, ki ∈ kis -> ki ∈ p_key_images p ->
        exists h e, h ∈ l /\ p_transactions p !! h = Some e /\ ki ∈ key_images (me_tx e)).
Proof.
  revert acc. induction kis as [|ki kis IH]; intros acc; cbn [replacements].
  { intros [= ->] Hn. split_and!; [done|by left|done|]. by intros ki ?%not_elem_of_nil. }
  case_bool_decide as Hin.
  - destruct (find_spender p ki) as [[h e]|] eqn:Hf; [|done].
    destruct (outbids rate (me_fee_per_byte e)) eqn:Ho; [|done].
    apply find_spender_some in Hf as [He Hki]. intros Hr Hn.
    destruct (IH _ Hr (push_new_nodup h acc Hn)) as (H1&H2&H3&H4). split_and!; [done|..].
    + intros h' Hh'. destruct (H2 h' Hh') as [Hp|(e'&k&?&?&?&?)].
      * apply push_new_elem in Hp as [->|Hp]; [|by left]. right. exists e, ki.
        split_and!; try done. by left.
      * right. exists e', k. split_and!; try done. by right.
    + intros h' Hh'. apply H3, push_new_elem. by right.
    + intros k [->|Hk]%elem_of_cons Hp; [|by apply H4]. exists h, e. split_and!; try done.
      apply H3, push_new_elem. by left.
  - intros Hr Hn. destruct (IH _ Hr Hn) as (H1&H2&H3&H4). split_and!; [done| |done|].
    + intros h' Hh'. destruct (H2 h' Hh') as [|(e'&k&?&?&?&?)]; [by left|]. right.
      exists e', k. split_and!; try done. by right.
    + intros k [->|Hk]%elem_of_cons Hp; [done|by apply H4].
Qed.

(** ** The fee index *)

Lemma omap_total {A B} (f : A -> option B) (g : A -> B) (l : list A) :
  (forall x, x ∈ l -> f x = Some (g x)) -> omap f l = g <$> l.
Proof.
  induction l as [|x l IH]; intros H; [done|]. cbn. rewrite (H x) by by left.
  f_equal. apply IH. intros y Hy. apply H. by right.
Qed.

Lemma by_fee_key p k :
  pool_wf p -> is_Some (p_by_fee p !! k) <->
  exists e, p_transactions p !! k.2 = Some e /\ me_fee_per_byte e = k.1.
Proof.
  intros Hp. split.
  - intros [h Hh]. apply (wf_fees p Hp) in Hh as [<- He]. done.
  - intros He. exists k.2. by apply (wf_fees p Hp).
Qed.

Lemma fee_entries_keys p :
  pool_wf p -> fee_entries (p_by_fee p) = (fun k => (k, k.2)) <$> fee_keys (p_by_fee p).
Proof.
  intros Hp. apply omap_total. intros k Hk. apply fee_keys_elem in Hk as [h Hh].
  rewrite Hh. cbn. apply (wf_fees p Hp) in Hh as [<- _]. done.
Qed.

Lemma fee_keys_restrict p p' (P : Hash -> Prop) `{!forall h, Decision (P h)} :
  pool_wf p -> pool_wf p' ->
  (forall h, p_transactions p' !! h = if decide (P h) then p_transactions p !! h else None) ->
  fee_keys (p_by_fee p') = filter (fun k => P k.2) (fee_keys (p_by_fee p)).
Proof.
  intros Hp Hp' Hl. apply fee_keys_filter. intros k.
  rewrite (by_fee_key p k Hp), (by_fee_key p' k Hp'), Hl.
  destruct (decide (P k.2)); [tauto|]. split; [|tauto]. by intros (?&?&_).
Qed.

Lemma fee_keys_nil p : pool_wf p -> fee_keys (p_by_fee p) = [] -> p_transactions p = ∅.
Proof.
  intros Hp Hn. apply map_empty. intros h. destruct (p_transactions p !! h) as [e|] eqn:He; [|done].
  assert (Hk : (me_fee_per_byte e, h) ∈ fee_keys (p_by_fee p)).
  { apply fee_keys_elem, (by_fee_key p _ Hp). by exists e. }
  rewrite Hn in Hk. by apply not_elem_of_nil in Hk.
Qed.

Lemma fee_keys_in p k :
  pool_wf p -> k ∈ fee_keys (p_by_fee p) ->
  exists e, p_transactions p !! k.2 = Some e /\ me_fee_per_byte e = k.1.
Proof. intros Hp Hk. by apply fee_keys_elem, (by_fee_key p k Hp) in Hk. Qed.

Lemma fee_keys_hashes p : pool_wf p -> NoDup (fee_keys (p_by_fee p)).*2.
Proof.
  intros Hp. apply NoDup_fmap_2_strong; [|apply fee_keys_nodup]. intros [r h] [r' h'] H H' Heq.
  apply (fee_keys_in p _ Hp) in H as (e&He&Hr), H' as (e'&He'&Hr'). cbn in *. subst h'.
  congruence.
Qed.

(** The lowest key leaves, and the rest of the index stays as it is. *)
Lemma evict_lowest_step p now k ks :
  pool_wf p -> fee_keys (p_by_fee p) = k :: ks ->
  exists e, p_transactions p !! k.2 = Some e
    /\ evict_lowest_fee p now = remove_as LowFee now p k.2
    /\ p_current_size (evict_lowest_fee p now) = p_current_size p - me_size e
    /\ fee_keys (p_by_fee (evict_lowest_fee p now)) = ks.
Proof.
  intros Hp Hk. destruct (fee_keys_in p k Hp) as (e&He&Hr); [rewrite Hk; by left|].
  assert (Hev : evict_lowest_fee p now = remove_as LowFee now p k.2).
  { unfold evict_lowest_fee. by rewrite (fee_entries_keys p Hp), Hk. }
  exists e. rewrite Hev. split_and!; [done|done|..].
  - unfold remove_as, remove. cbn. rewrite He. cbn. pose proof (pool_bytes_pos p _ _ Hp He). word_lia.
  - rewrite (fee_keys_restrict p (remove_as LowFee now p k.2) (fun h => h <> k.2) Hp).
    + rewrite Hk, filter_cons_False by tauto.
      pose proof (fee_keys_hashes p Hp) as Hn. rewrite Hk in Hn. cbn in Hn.
      apply NoDup_cons in Hn as [Hn _]. apply filter_all.
      intros k' Hk' Heq. apply Hn. apply list_elem_of_fmap. by exists k'.
    + by apply remove_as_wf.
    + intros h. unfold remove_as. rewrite remove_lookup. cbn.
      destruct (decide (h <> k.2)); case_bool_decide; tauto.
Qed.

(** ** The eviction loop and its simulation *)

Lemma simulate_stop p size l cands s a :
  s + size <= p_max_size p \/ (MAX_EVICTION_ATTEMPTS <= a)%nat ->
  simulate p size l cands s a = (s, a).
Proof.
  intros H. destruct cands as [|[k h] cands]; [done|]. cbn [simulate].
  destruct (orb _ _) eqn:E; [done|]. apply orb_false_iff in E as [?%Z.leb_gt ?%Nat.leb_gt]. lia.
Qed.

Lemma simulate_skip p size l cands s a :
  simulate p size l cands s a
  = simulate p size [] (filter (fun c : FeeKey * Hash => c.2 ∉ l) cands) s a.
Proof.
  revert s a. induction cands as [|[k h] cands IH]; intros s a; [done|].
  rewrite filter_cons. cbn [simulate snd]. destruct (orb _ _) eqn:E.
  - symmetry. apply simulate_stop. apply orb_true_iff in E as [?%Z.leb_le|?%Nat.leb_le]; lia.
  - destruct (decide (h ∉ l)) as [Hh|Hh].
    + rewrite bool_decide_eq_false_2 by done. cbn [simulate]. rewrite E.
      rewrite bool_decide_eq_false_2 by apply not_elem_of_nil. destruct (_ !! h); apply IH.
    + rewrite bool_decide_eq_true_2; [apply IH|]. destruct (decide (h ∈ l)); tauto.
Qed.

(** The pool after the replacements and [n] evictions. *)
Definition evict_n (n : nat) (now : Z) (p : Mempool) : Mempool :=
  Nat.iter n (fun p => evict_lowest_fee p now) p.

Lemma evict_n_S n now p : evict_n (S n) now p = evict_n n now (evict_lowest_fee p now).
Proof. unfold evict_n. by rewrite Nat.iter_succ_r. Qed.

Lemma evict_lowest_facts p now :
  pool_wf p -> pool_wf (evict_lowest_fee p now)
  /\ p_transactions (evict_lowest_fee p now) ⊆ p_transactions p
  /\ p_max_size (evict_lowest_fee p now) = p_max_size p
  /\ p_chain_height (evict_lowest_fee p now) = p_chain_height p.
Proof.
  intros Hp. destruct (fee_keys (p_by_fee p)) as [|k ks] eqn:Hk.
  - unfold evict_lowest_fee. by rewrite (fee_entries_keys p Hp), Hk.
  - destruct (evict_lowest_step p now k ks Hp Hk) as (e&He&->&_). split_and!.
    + by apply remove_as_wf.
    + unfold remove_as, remove. cbn. rewrite He. apply delete_subseteq.
    + apply (remove_all_fixed LowFee now [k.2]).
    + apply (remove_all_fixed LowFee now [k.2]).
Qed.

Lemma evict_n_facts n now p :
  pool_wf p -> pool_wf (evict_n n now p)
  /\ p_transactions (evict_n n now p) ⊆ p_transactions p
  /\ p_max_size (evict_n n now p) = p_max_size p
  /\ p_chain_height (evict_n n now p) = p_chain_height p.
Proof.
  revert p. induction n as [|n IH]; intros p Hp; [done|]. rewrite evict_n_S.
  destruct (evict_lowest_facts p now Hp) as (H1&H2&H3&H4).
  destruct (IH _ H1) as (G1&G2&G3&G4). split_and!; [done|by etrans|congruence|congruence].
Qed.

(** The loop carries out the plan of the simulation: as many evictions, the
    same bytes left, and it gives up exactly when the plan uses the whole
    budget. *)
Lemma loop_follows_plan p0 now size ks n p a s a' :
  pool_wf p -> fee_keys (p_by_fee p) = ks -> p_max_size p0 = p_max_size p ->
  (forall k, k ∈ ks -> p_transactions p0 !! k.2 = p_transactions p !! k.2) ->
  (a + S n = MAX_EVICTION_ATTEMPTS)%nat ->
  simulate p0 size [] ((fun k : FeeKey => (k, k.2)) <$> ks) (p_current_size p) a = (s, a') ->
  s + size <= p_max_size p ->
  exists m, a' = (a + m)%nat /\ (m <= S n)%nat /\ p_current_size (evict_n m now p) = s
    /\ evict_loop (S n) p now size = (evict_n m now p, (MAX_EVICTION_ATTEMPTS <=? a')%nat).
Proof.
  revert n p a. induction ks as [|k ks IH]; intros n p a Hp Hk Hm Hl Ha Hs Hfit.
  { injection Hs as <- <-. exists O. cbn [evict_loop]. rewrite Nat.add_0_r.
    rewrite (proj2 (Z.leb_le _ _) Hfit), (proj2 (Nat.leb_gt _ _)) by lia. split_and!; done || lia. }
  destruct (evict_lowest_step p now k ks Hp Hk) as (e&He&Hev&Hsz&Hks).
  pose proof (pool_bytes_pos p _ _ Hp He) as Hpos.
  destruct (evict_lowest_facts p now Hp) as (Hp'&_&Hm'&_).
  cbn [fmap list_fmap simulate] in Hs. cbn [evict_loop].
  rewrite (bool_decide_eq_false_2 (p_transactions p = ∅)), orb_false_r
    by (intros H0; rewrite H0 in He; by rewrite lookup_empty in He).
  rewrite Hm, (proj2 (Nat.leb_gt MAX_EVICTION_ATTEMPTS a)), orb_false_r in Hs by lia.
  destruct (Z.leb_spec (p_current_size p + size) (p_max_size p)) as [Hle|Hgt].
  { injection Hs as <- <-. exists O. rewrite Nat.add_0_r, (proj2 (Nat.leb_gt _ _)) by lia.
    split_and!; done || lia. }
  rewrite bool_decide_eq_false_2 in Hs by apply not_elem_of_nil.
  rewrite (Hl k), He in Hs by by left.
  assert (Hc : sat_sub (p_current_size p) (me_size e) = p_current_size (evict_lowest_fee p now)).
  { rewrite Hsz. word_lia. }
  rewrite Hc in Hs. rewrite (proj2 (Z.leb_gt _ _)) by lia. cbn [orb].
  destruct n as [|n].
  - rewrite simulate_stop in Hs by lia. injection Hs as <- <-. exists 1%nat.
    rewrite (proj2 (Nat.leb_le _ _)) by lia. split_and!; done || lia.
  - cbn [Nat.eqb]. destruct (IH n (evict_lowest_fee p now) (S a)) as (m&->&Hmn&Hcur&Hloop);
      try done; [congruence| |lia|lia|].
    + intros k' Hk'. rewrite (Hl k') by by right. rewrite Hev. unfold remove_as.
      rewrite remove_lookup. cbn. rewrite bool_decide_eq_false_2; [done|]. intros Heq.
      pose proof (fee_keys_hashes p Hp) as Hn. rewrite Hk in Hn. cbn in Hn.
      apply NoDup_cons in Hn as [Hn _]. apply Hn, list_elem_of_fmap. by exists k'.
    + exists (S m). rewrite evict_n_S, Hloop. split_and!; done || lia.
Qed.

(** ** Admission *)

Lemma replaced_size_current reason now p l :
  pool_wf p -> NoDup l -> (forall h, h ∈ l -> is_Some (p_transactions p !! h)) ->
  p_current_size (foldl (remove_as reason now) p l)
  = sat_sub (p_current_size p) (replaced_size p l).
Proof.
  revert p. induction l as [|h l IH]; intros p Hp Hn Hl.
  { cbn. rewrite (wf_size p Hp). assert (0 <= pool_bytes (p_transactions p)); [|word_lia].
    apply pool_bytes_nonneg. intros h e He. pose proof (pool_bytes_pos p h e Hp He). lia. }
  apply NoDup_cons in Hn as [Hh Hn]. destruct (Hl h ltac:(by left)) as [e He].
  pose proof (pool_bytes_pos p h e Hp He). cbn [foldl].
  assert (Heq : replaced_size (remove_as reason now p h) l = replaced_size p l).
  { clear IH Hn Hl. induction l as [|h' l IH]; [done|]. apply not_elem_of_cons in Hh as [Hne Hh].
    cbn [replaced_size foldr]. unfold remove_as at 1. rewrite remove_lookup. cbn [audit p_transactions].
    rewrite bool_decide_eq_false_2 by done. fold (replaced_size (remove_as reason now p h) l).
    fold (replaced_size p l). by rewrite IH. }
  rewrite IH; [|by apply remove_as_wf|done|].
  - rewrite Heq. cbn [replaced_size foldr]. rewrite He. fold (replaced_size p l).
    unfold remove_as, remove. cbn. rewrite He. cbn.
    assert (0 <= replaced_size p l); [|word_lia]. clear -Hp. unfold replaced_size.
    induction l as [|x l IH]; cbn; [lia|]. destruct (_ !! x) as [e'|] eqn:He'; [|done].
    pose proof (pool_bytes_pos p x e' Hp He'). lia.
  - intros h' Hh'. unfold remove_as. rewrite remove_lookup. cbn.
    rewrite bool_decide_eq_false_2 by congruence. apply Hl. by right.
Qed.

Lemma insert_wf p now tx :
  pool_wf p -> p_transactions p !! tx_hash tx = None -> preflight_check tx_size tx = Ok tt ->
  (forall ki, ki ∈ key_images tx -> ki ∉ p_key_images p) ->
  p_current_size p + tx_size tx <= p_max_size p ->
  pool_wf (insert_entry tx_hash tx_size p now tx (tx_hash tx)).
Proof.
  intros Hp Hn Hf Hd Hs. set (h := tx_hash tx) in *. unfold insert_entry.
  set (e := MempoolEntry_new tx_hash tx_size tx (p_chain_height p) now).
  assert (Hok : entry_ok h e) by by split.
  pose proof (entry_size h e Hok) as (Hsz&_&_). cbn [e me_tx MempoolEntry_new] in Hsz.
  assert (Hnew : forall h' e' ki, p_transactions p !! h' = Some e' ->
    ki ∈ key_images (me_tx e') -> ki ∉ key_images tx).
  { intros h' e' ki He' Hki Hki'. apply (Hd ki Hki'), (wf_images p Hp). by exists h', e'. }
  split; cbn [audit p_transactions p_by_fee p_key_images p_current_size p_max_size].
  - intros h' e' [[<- <-]|[_ He']]%lookup_insert_Some; [done|by apply (wf_entries p Hp)].
  - intros k h'. rewrite lookup_insert_Some, (wf_fees p Hp). setoid_rewrite lookup_insert_Some. split.
    + intros [[<- <-]|(Hk&<-&e'&He'&Hr)].
      * split; [done|]. exists e. split; [by left|done].
      * split; [done|]. exists e'. split; [|done]. right. split; [congruence|done].
    + intros (<-&e'&[[Hh <-]|[Hh He']]&Hr).
      * left. split; [|done]. destruct k; cbn in *; congruence.
      * right. split; [by intros <-|]. split; [done|by exists e'].
  - intros ki. rewrite elem_of_union, elem_of_list_to_set, (wf_images p Hp).
    setoid_rewrite lookup_insert_Some. split.
    + intros [(h'&e'&He'&Hki)|Hki]; [|exists h, e; split; [by left|done]].
      exists h', e'. split; [|done]. right. split; [congruence|done].
    + intros (h'&e'&[[<- <-]|[Hne He']]&Hki); [by right|]. left. by exists h', e'.
  - intros h1 h2 e1 e2 ki [[<- <-]|[_ H1]]%lookup_insert_Some [[<- <-]|[_ H2]]%lookup_insert_Some
      Hk1 Hk2; [done| | |by eapply (wf_disjoint p Hp)].
    + by destruct (Hnew h2 e2 ki H2 Hk2).
    + by destruct (Hnew h1 e1 ki H1 Hk1).
  - rewrite pool_bytes_insert, <- (wf_size p Hp) by done. lia.
  - cbn [e me_size MempoolEntry_new]. cbn in Hsz. lia.
Qed.

Abbreviation replace_all now p l := (foldl (remove_as ReplacedByFee now) p l).

Lemma images_shrink p p' ki :
  pool_wf p -> pool_wf p' -> p_transactions p' ⊆ p_transactions p ->
  ki ∈ p_key_images p' -> ki ∈ p_key_images p.
Proof.
  intros Hp Hp' Hs (h&e&He&Hki)%(wf_images p' Hp'). apply (wf_images p Hp). exists h, e.
  split; [|done]. by eapply lookup_weaken.
Qed.

Lemma replace_all_shrinks now p l : p_transactions (replace_all now p l) ⊆ p_transactions p.
Proof.
  apply map_subseteq_spec. intros h e. rewrite remove_all_lookup. by case_bool_decide.
Qed.

Lemma filter_fmap {A B} (f : A -> B) (P : B -> Prop) `{!forall x, Decision (P x)} (l : list A) :
  filter P (f <$> l) = f <$> filter (fun x => P (f x)) l.
Proof.
  induction l as [|x l IH]; [done|]. cbn [fmap list_fmap]. rewrite !filter_cons.
  destruct (decide (P (f x))); cbn; [by rewrite IH|done].
Qed.

(** When the simulation finds room, the real evictions find it too. *)
Lemma fits_plan p now size l :
  pool_wf p -> NoDup l -> (forall h, h ∈ l -> is_Some (p_transactions p !! h)) ->
  fits p size l = true ->
  exists n, (n <= MAX_EVICTION_ATTEMPTS)%nat
    /\ p_current_size (evict_n n now (replace_all now p l)) + size <= p_max_size p
    /\ evict_loop MAX_EVICTION_ATTEMPTS (replace_all now p l) now size
       = (evict_n n now (replace_all now p l), (MAX_EVICTION_ATTEMPTS <=? n)%nat).
Proof.
  intros Hp Hn Hl. set (q := replace_all now p l). unfold fits.
  rewrite <- (replaced_size_current ReplacedByFee now p l Hp Hn Hl). fold q.
  assert (Hq : pool_wf q) by by apply pool_remove_all_wf.
  destruct (remove_all_fixed ReplacedByFee now l p) as [Hmax _]. fold q in Hmax.
  assert (Hks : fee_keys (p_by_fee q) = filter (fun k => k.2 ∉ l) (fee_keys (p_by_fee p))).
  { refine (fee_keys_restrict p q (fun h => h ∉ l) Hp Hq _). intros h. unfold q.
    rewrite remove_all_lookup. destruct (decide (h ∉ l)); case_bool_decide; tauto. }
  destruct (simulate p size l _ _ 0) as [s a] eqn:Hsim. intros Hf.
  assert (Hs : s + size <= p_max_size p).
  { apply orb_true_iff in Hf as [Hf%Z.leb_le|Hf%Z.leb_le]; [|done].
    rewrite simulate_stop in Hsim by by left. by injection Hsim as <- _. }
  rewrite simulate_skip, (fee_entries_keys p Hp), filter_fmap in Hsim.
  destruct (loop_follows_plan p now size (fee_keys (p_by_fee q)) 99 q 0 s a)
    as (m&->&Hm&Hcur&Hloop); try done; [|by rewrite Hks|by rewrite Hmax|].
  - intros k Hk. rewrite Hks in Hk. apply list_elem_of_filter in Hk as [Hk _].
    unfold q. by rewrite remove_all_lookup, bool_decide_eq_false_2.
  - exists m. split_and!; [done|by rewrite Hcur|done].
Qed.

(** What an admission does, in terms of the replacements and the number of
    evictions. *)
Inductive admission (p : Mempool) (now : Z) (tx : Transaction) :
    Mempool -> result pool_error Hash -> Prop :=
| adm_known e :
    p_transactions p !! tx_hash tx = Some e -> admission p now tx p (Ok (tx_hash tx))
| adm_refused p' e :
    contents p' = contents p -> admission p now tx p' (Err e)
| adm_inserted l n :
    (n < MAX_EVICTION_ATTEMPTS)%nat -> NoDup l ->
    (forall h, h ∈ l -> exists e, p_transactions p !! h = Some e
       /\ spends_any (key_images tx) e = true
       /\ outbids (scaled_fee_per_byte (fee tx) (tx_size tx)) (me_fee_per_byte e) = true) ->
    pool_wf (insert_entry tx_hash tx_size (evict_n n now (replace_all now p l)) now tx (tx_hash tx)) ->
    admission p now tx
      (insert_entry tx_hash tx_size (evict_n n now (replace_all now p l)) now tx (tx_hash tx))
      (Ok (tx_hash tx))
| adm_exhausted l n p' :
    n = MAX_EVICTION_ATTEMPTS -> contents p' = contents (evict_n n now (replace_all now p l)) ->
    p_current_size p' + tx_size tx <= p_max_size p' ->
    admission p now tx p' (Err MempoolFull).

#[local] Opaque evict_n evict_loop.

Lemma admit_cases p now tx :
  pool_wf p -> preflight_check tx_size tx = Ok tt -> p_transactions p !! tx_hash tx = None ->
  admission p now tx (admit_after_checks tx_hash tx_size p now tx (tx_hash tx)).1
    (admit_after_checks tx_hash tx_size p now tx (tx_hash tx)).2.
Proof.
  intros Hp Hf Hn. unfold admit_after_checks.
  destruct (MAX_TX_SIZE <? tx_size tx); [by apply adm_refused|].
  destruct (fee tx <? _); [by apply adm_refused|].
  destruct (replacements _ _ _ _) as [l|e] eqn:Hr; [|by apply adm_refused].
  apply replacements_spec in Hr as (Hnd&Hl&_&Hall); [|by apply NoDup_nil_2].
  assert (Hin : forall h, h ∈ l -> exists e ki, p_transactions p !! h = Some e /\ ki ∈ key_images tx
    /\ ki ∈ key_images (me_tx e)
    /\ outbids (scaled_fee_per_byte (fee tx) (tx_size tx)) (me_fee_per_byte e) = true).
  { intros h Hh. destruct (Hl h Hh) as [Hx|Hx]; [by apply not_elem_of_nil in Hx|done]. }
  destruct (fits p (tx_size tx) l) eqn:Hfit; [cbn [negb]|by apply adm_refused].
  destruct (fits_plan p now (tx_size tx) l Hp Hnd) as (n&Hle&Hroom&->); [|done|].
  { intros h (e&_&He&_)%Hin. by exists e. }
  assert (Hq : pool_wf (replace_all now p l)) by by apply pool_remove_all_wf.
  destruct (evict_n_facts n now _ Hq) as (Hw&Hsub&Hmax&_).
  destruct (remove_all_fixed ReplacedByFee now l p) as [Hmax' _].
  destruct (Nat.leb_spec MAX_EVICTION_ATTEMPTS n) as [Hge|Hlt].
  - unfold reject. cbn [fst snd].
    apply (adm_exhausted _ _ _ l n); [lia|by rewrite contents_audit|].
    cbn [audit p_current_size p_max_size]. lia.
  - apply adm_inserted; try done.
    + intros h (e&ki&?&?&?&?)%Hin. exists e. split_and!; try done. apply spends_any_spec.
      by exists ki.
    + apply insert_wf; try done; [|..|lia].
      * eapply lookup_weaken_None; [|exact Hsub]. rewrite remove_all_lookup. by case_bool_decide.
      * intros ki Hki Hin'. apply (images_shrink _ _ ki Hq Hw Hsub) in Hin'.
        pose proof (images_shrink _ _ ki Hp Hq (replace_all_shrinks now p l) Hin') as Hold.
        destruct (Hall ki Hki Hold) as (h&e&Hh&He&Hke).
        apply (wf_images _ Hq) in Hin' as (h'&e'&He'&Hke'). rewrite remove_all_lookup in He'.
        case_bool_decide as Hh'; [done|]. apply Hh'.
        by rewrite <- (wf_disjoint p Hp h h' e e' ki He He' Hke Hke').
Qed.

Lemma add_cases p now tx :
  pool_wf p -> admission p now tx (add tx_hash tx_size p now tx).1 (add tx_hash tx_size p now tx).2.
Proof.
  intros Hp. unfold add. destruct (preflight_check tx_size tx) as [[]|e] eqn:Hf;
    [|by apply adm_refused].
  case_bool_decide as Hk; [destruct Hk as [e He]; by eapply adm_known|].
  apply eq_None_not_Some in Hk.
  destruct (verify_crypto_for_admission tx (p_chain_height p)) as [[]|e]; [|by apply adm_refused].
  by apply admit_cases.
Qed.

Lemma add_wf p now tx : pool_wf p -> pool_wf (add tx_hash tx_size p now tx).1.
Proof.
  intros Hp. destruct (add_cases p now tx Hp) as [e He|p' e He|l n _ _ _ Hw|l n p' _ He _]; try done.
  - by apply (wf_same p).
  - eapply wf_same; [exact He|]. apply evict_n_facts. by apply pool_remove_all_wf.
Qed.
End wf.
