(* ===== verification/MempoolSafety.v ===== *)
(** * Theorems on the transaction pool

    Every reachable pool satisfies the invariant; what an admission does to
    the pool, on success and on error; the pool after a block; block
    templates; and the admission against a chain that other threads update. *)

From stdpp Require Import prelude gmap sorting.
From Stdlib Require Import ZArith Lia.
From S2P Require Import Prelude Constants FeeMarket Difficulty Block Utxo ForkChoice.
From S2P Require Import Chain ChainLedger.
From S2P Require Import TxValidation Mempool MempoolRules.

Local Open Scope Z_scope.

Section theorems.
Context {CR : Crypto} {V : Verdicts}.
Context (tx_hash : Transaction -> Hash) (tx_size : Transaction -> Z).

(** ** The operations of the pool *)

Inductive PoolOp :=
| OpAdd (now : Z) (tx : Transaction)
| OpAddWithChain (now : Z) (tx : Transaction) (attempts : list Attempt)
| OpRestore (now : Z) (txs : list (Transaction * list Attempt))
| OpLoad (now : Z) (file : option (Z * option (list Transaction)))
| OpSetHeight (now height : Z)
| OpExpire (now max_age : Z)
| OpConfirm (now : Z) (txs : list Transaction)
| OpShadowEvict (now : Z) (validate : Transaction -> result tx_error unit)
| OpConflicts (kis : list KeyImage)
| OpRemove (h : Hash)
| OpClear.

Definition pool_step (p : Mempool) (op : PoolOp) : Mempool :=
  match op with
  | OpAdd now tx => (add tx_hash tx_size p now tx).1
  | OpAddWithChain now tx attempts => (add_with_chain tx_hash tx_size p now tx attempts).1
  | OpRestore now txs => (restore_orphaned tx_hash tx_size p now txs).1
  | OpLoad now file => (load_from_disk tx_hash tx_size p now file).1
  | OpSetHeight now height => set_height p now height
  | OpExpire now max_age => (expire_old p now max_age).1
  | OpConfirm now txs => remove_confirmed tx_hash p now txs
  | OpShadowEvict now validate => shadow_evict_invalid p now validate
  | OpConflicts kis => remove_conflicts p kis
  | OpRemove h => (remove p h).1
  | OpClear => clear p
  end.

Definition run_pool (max_size : Z) (ops : list PoolOp) : Mempool :=
  foldl pool_step (with_max_size max_size) ops.

Lemma retry_wf p now tx attempts n :
  pool_wf tx_hash tx_size p ->
  pool_wf tx_hash tx_size (retry_stable_admission tx_hash tx_size p now tx attempts n).1.
Proof.
  intros Hp. revert n. induction attempts as [|a attempts IH]; intros [|n]; try done. cbn.
  destruct (a_before a); [|apply IH]. case_bool_decide; [|apply IH].
  destruct (a_validation a); [by apply add_wf|done].
Qed.

Lemma add_with_chain_wf p now tx attempts :
  pool_wf tx_hash tx_size p ->
  pool_wf tx_hash tx_size (add_with_chain tx_hash tx_size p now tx attempts).1.
Proof. intros Hp. unfold add_with_chain. destruct (mbind _ _); [by apply retry_wf|done]. Qed.

Lemma restore_wf p now txs :
  pool_wf tx_hash tx_size p ->
  pool_wf tx_hash tx_size (restore_orphaned tx_hash tx_size p now txs).1.
Proof.
  revert p. induction txs as [|[tx attempts] txs IH]; intros p Hp; [done|]. cbn.
  pose proof (add_with_chain_wf p now tx attempts Hp) as Hw.
  destruct (add_with_chain _ _ _ _ _ _) as [p' [h|e]]; cbn in Hw; [|by apply IH].
  specialize (IH p' Hw). by destruct (restore_orphaned _ _ _ _ _).
Qed.

Lemma load_wf p now txs :
  pool_wf tx_hash tx_size p -> pool_wf tx_hash tx_size (load_loop tx_hash tx_size p now txs).1.
Proof.
  revert p. induction txs as [|tx txs IH]; intros p Hp; [done|]. cbn [load_loop].
  pose proof (add_wf tx_hash tx_size p now tx Hp) as Hw.
  destruct (add _ _ _ _ _) as [p' [h|e]]; cbn in Hw; [|by apply IH].
  specialize (IH p' Hw). by destruct (load_loop _ _ _ _ _).
Qed.

Lemma empty_wf m height log : 0 <= m -> pool_wf tx_hash tx_size (mkMempool ∅ ∅ ∅ m 0 height log).
Proof.
  intros Hm. split; cbn; try done.
  - intros k h. rewrite lookup_empty. split; [done|]. intros (_&e&He&_). by rewrite lookup_empty in He.
  - intros ki. split; [set_solver|]. intros (h&e&He&_). by rewrite lookup_empty in He.
Qed.

Lemma wf_room p : pool_wf tx_hash tx_size p -> 0 <= p_max_size p.
Proof.
  intros Hp. pose proof (wf_max _ _ p Hp). rewrite (wf_size _ _ p Hp) in *.
  enough (0 <= pool_bytes (p_transactions p)) by lia. apply pool_bytes_nonneg. intros h e He.
  pose proof (pool_bytes_pos _ _ p h e Hp He). lia.
Qed.

Lemma step_wf p op :
  pool_wf tx_hash tx_size p -> pool_wf tx_hash tx_size (pool_step p op).
Proof.
  intros Hp.
  destruct op as [now tx|now tx l|now txs|now file|now h|now a|now txs|now v|kis|h|]; cbn.
  - by apply add_wf.
  - by apply add_with_chain_wf.
  - by apply restore_wf.
  - unfold load_from_disk. destruct file as [[len [txs|]]|]; [|by destruct (_ <? len)|done].
    destruct (_ <? len); [done|]. destruct (_ <? zlen txs); [done|].
    pose proof (load_wf p now txs Hp). by destruct (load_loop _ _ _ _ _).
  - apply pool_remove_all_wf. by destruct Hp; split.
  - by apply pool_remove_all_wf.
  - by do 2 apply pool_remove_all_wf.
  - by apply pool_remove_all_wf.
  - unfold remove_conflicts. generalize (hashes_where p (spends_any kis)). intros l.
    revert p Hp. induction l as [|h l IH]; intros p Hp; [done|]. by apply IH, remove_wf.
  - by apply remove_wf.
  - by apply empty_wf, wf_room.
Qed.

Lemma run_wf max_size ops : 0 <= max_size -> pool_wf tx_hash tx_size (run_pool max_size ops).
Proof.
  intros Hm. unfold run_pool. assert (Hp : pool_wf tx_hash tx_size (with_max_size max_size)).
  { by apply empty_wf. }
  revert Hp. generalize (with_max_size max_size). induction ops as [|op ops IH]; intros p Hp; [done|].
  by apply IH, step_wf.
Qed.

(** C7: Whatever operations a pool has gone through, the invariant holds: every
    entry is filed under the hash of its transaction, which passed the
    admission checks; the fee index and the set of key images hold exactly the
    keys of the entries; no two entries spend the same key image; the tracked
    size is the number of bytes held and stays within the limit; so the
    source's own consistency check, [verify_size_invariant], always passes. *)
Theorem reachable_pool_wf max_size ops :
  0 <= max_size ->
  pool_wf tx_hash tx_size (run_pool max_size ops)
  /\ verify_size_invariant (run_pool max_size ops) = true.
Proof.
  intros Hm. pose proof (run_wf max_size ops Hm) as Hp. split; [done|].
  unfold verify_size_invariant. apply Z.eqb_eq. rewrite (wf_size _ _ _ Hp). unfold pool_bytes.
  rewrite map_fold_foldr. apply foldr_ext; [by intros []|done|done].
Qed.

(** C8: A transaction that is refused leaves the pool as it was, the log apart,
    with one exception: when the plan needs exactly the whole budget of 100
    evictions, the loop gives up after the last of them, although the
    transaction fits by then, and the 100 entries and the replaced ones are
    gone. *)
Theorem rejected_admission_effect max_size ops now tx p' err :
  0 <= max_size ->
  add tx_hash tx_size (run_pool max_size ops) now tx = (p', Err err) ->
  contents p' = contents (run_pool max_size ops)
  \/ err = MempoolFull
     /\ p_current_size p' + tx_size tx <= p_max_size p'
     /\ exists replaced, contents p'
          = contents (evict_n 100 now (foldl (remove_as ReplacedByFee now)
                                          (run_pool max_size ops) replaced)).
Proof.
  intros Hm Ha. pose proof (run_wf max_size ops Hm) as Hp. set (p := run_pool _ _) in *.
  pose proof (add_cases tx_hash tx_size p now tx Hp) as Hc. rewrite Ha in Hc. cbn [fst snd] in Hc.
  inversion Hc; subst; [by left|]. right. split_and!; [done|done|]. by exists l.
Qed.

Lemma outbids_quarter h e fee size :
  entry_ok tx_hash tx_size h e ->
  outbids (scaled_fee_per_byte fee size) (me_fee_per_byte e) = true ->
  125 * me_fee_per_byte e <= 100 * scaled_fee_per_byte fee size.
Proof.
  intros (_&_&Hr)%entry_size [H1%Z.leb_le _]%andb_true_iff.
  assert (me_fee_per_byte e <= u64_max) by (rewrite Hr; apply Z.le_min_r).
  assert (scaled_fee_per_byte fee size <= u64_max) by apply Z.le_min_r.
  unfold RBF_FEE_BUMP_NUMERATOR, RBF_FEE_BUMP_DENOMINATOR in *. word_lia.
Qed.

(** A transaction that is admitted is in the pool afterwards, under its hash.
    Fewer than 100 entries were evicted for it, lowest fee rate first; every
    entry replaced before that spends one of its key images at a rate it
    exceeds by a quarter; every other entry is still there. *)
Theorem admitted_effect max_size ops now tx p' h :
  0 <= max_size ->
  add tx_hash tx_size (run_pool max_size ops) now tx = (p', Ok h) ->
  let p := run_pool max_size ops in
  h = tx_hash tx /\ is_Some (p_transactions p' !! h)
  /\ (p' = p \/ exists replaced n, (n < 100)%nat
       /\ p_transactions p'
          = <[h := MempoolEntry_new tx_hash tx_size tx (p_chain_height p) now]>
              (p_transactions (evict_n n now (foldl (remove_as ReplacedByFee now) p replaced)))
       /\ forall h', h' ∈ replaced -> exists e ki, p_transactions p !! h' = Some e
            /\ ki ∈ key_images tx /\ ki ∈ key_images (me_tx e)
            /\ 125 * me_fee_per_byte e <= 100 * scaled_fee_per_byte (fee tx) (tx_size tx)).
Proof.
  intros Hm Ha p. pose proof (run_wf max_size ops Hm) as Hp. fold p in Ha, Hp.
  pose proof (add_cases tx_hash tx_size p now tx Hp) as Hc. rewrite Ha in Hc. cbn [fst snd] in Hc.
  remember (Ok h) as r eqn:Hr.
  destruct Hc as [e He|q e Hq|l n Hn Hnd Hl Hw|l n q]; try discriminate; injection Hr as <-.
  - split_and!; [done|by exists e|by left].
  - destruct (evict_n_facts tx_hash tx_size n now (foldl (remove_as ReplacedByFee now) p l)) as (_&_&_&Hh);
      [by apply pool_remove_all_wf|].
    destruct (remove_all_fixed ReplacedByFee now l p) as [_ Hh']. rewrite Hh' in Hh.
    split_and!; [done| |].
    + cbn [insert_entry audit p_transactions]. rewrite lookup_insert_eq. by eexists.
    + right. exists l, n. split_and!; [done| |].
      * cbn [insert_entry audit p_transactions]. by rewrite Hh.
      * intros h' (e&He&(ki&Hki&Hke)%spends_any_spec&Ho)%Hl. exists e, ki. split_and!; try done.
        eapply outbids_quarter; [|exact Ho]. by apply (wf_entries _ _ p Hp h').
Qed.

(** ** After a block *)

Lemma shadow_conflicts_elem p kis h e :
  pool_wf tx_hash tx_size p -> p_transactions p !! h = Some e ->
  h ∈ shadow_conflicts p kis <-> spends_any kis e = true.
Proof.
  intros Hp He. rewrite spends_any_spec. unfold shadow_conflicts.
  set (f := fun acc ki => _).
  enough (Hg : forall acc, h ∈ foldl f acc kis <->
    h ∈ acc \/ exists ki, ki ∈ kis /\ ki ∈ key_images (me_tx e)).
  { rewrite Hg. split; [|by right]. intros [Hx|]; [by apply not_elem_of_nil in Hx|done]. }
  induction kis as [|ki kis IH]; intros acc; cbn [foldl].
  { split; [by left|]. intros [|(?&Hx&_)]; [done|by apply not_elem_of_nil in Hx]. }
  rewrite IH. unfold f. clear IH f.
  assert (Hk : h ∈ (match find_spender p ki with Some e => push_new e.1 acc | None => acc end)
    <-> h ∈ acc \/ ki ∈ key_images (me_tx e)).
  { destruct (find_spender p ki) as [[h' e']|] eqn:Hf.
    - apply find_spender_some in Hf as [He' Hki]. rewrite push_new_elem. cbn. split.
      + intros [->|]; [right; congruence|by left].
      + intros [|Hki']; [by right|]. left. by apply (wf_disjoint _ _ p Hp h h' e e' ki).
    - split; [by left|]. intros [|Hki]; [done|]. by destruct (find_spender_none _ _ _ _ Hf He). }
  rewrite Hk. setoid_rewrite elem_of_cons. naive_solver.
Qed.

Lemma spends_any_false kis e :
  spends_any kis e = false <-> forall ki, ki ∈ key_images (me_tx e) -> ki ∉ kis.
Proof.
  rewrite <- not_true_iff_false, spends_any_spec. naive_solver.
Qed.

(** A connected block removes from the pool exactly the transactions it
    confirms and the transactions that spend a key image it spends; all the
    others stay. *)
Theorem confirmed_block_clears max_size ops now txs h e :
  0 <= max_size ->
  let p := run_pool max_size ops in
  p_transactions (remove_confirmed tx_hash p now txs) !! h = Some e <->
  p_transactions p !! h = Some e /\ (h ∉ tx_hash <$> txs)
  /\ forall ki, ki ∈ key_images (me_tx e) -> ki ∉ concat (key_images <$> txs).
Proof.
  intros Hm p. pose proof (run_wf max_size ops Hm) as Hp. fold p in Hp. unfold remove_confirmed.
  set (q := foldl (remove_as Confirmed now) p _).
  assert (Hq : pool_wf tx_hash tx_size q) by by apply pool_remove_all_wf.
  assert (Hl : p_transactions q !! h = Some e <->
    p_transactions p !! h = Some e /\ h ∉ tx_hash <$> txs).
  { unfold q. rewrite remove_all_lookup. case_bool_decide; naive_solver. }
  rewrite <- spends_any_false. rewrite remove_all_lookup. split.
  - case_bool_decide as Hn; [done|]. intros He.
    rewrite (shadow_conflicts_elem q _ h e Hq He) in Hn. apply not_true_is_false in Hn.
    apply Hl in He as []. done.
  - intros (He&Hh&Hs). assert (Hqe : p_transactions q !! h = Some e) by by apply Hl.
    rewrite bool_decide_eq_false_2; [done|].
    rewrite (shadow_conflicts_elem q _ h e Hq Hqe). by rewrite Hs.
Qed.

(** ** Block templates *)

(** The reference: walk the entries, best first, and take each one that still
    fits into [ms] bytes and [mc] places. *)
Fixpoint choose (ms : Z) (mc : nat) (es : list MempoolEntry) : list MempoolEntry :=
  match es, mc with
  | [], _ | _, O => []
  | e :: es, S mc' =>
      if me_size e <=? ms then e :: choose (ms - me_size e) mc' es else choose ms mc es
  end.

Lemma choose_sublist ms mc es : sublist (choose ms mc es) es.
Proof.
  revert ms mc. induction es as [|e es IH]; intros ms [|mc]; cbn; try apply sublist_nil_l.
  destruct (me_size e <=? ms); [by apply sublist_skip|by apply sublist_cons].
Qed.

Lemma choose_bounds ms mc es :
  0 <= ms -> zsum me_size (choose ms mc es) <= ms /\ (length (choose ms mc es) <= mc)%nat.
Proof.
  revert ms mc. induction es as [|e es IH]; intros ms [|mc] Hm; cbn; try lia.
  destruct (Z.leb_spec (me_size e) ms) as [Hle|]; [|by apply IH].
  destruct (IH (ms - me_size e) mc ltac:(lia)). cbn.
  fold (zsum me_size (choose (ms - me_size e) mc es)). lia.
Qed.

(** What is left out does not fit next to what is chosen. *)
Lemma choose_greedy ms mc es e :
  (forall e', e' ∈ es -> 0 <= me_size e') -> e ∈ es ->
  e ∈ choose ms mc es \/ length (choose ms mc es) = mc
  \/ ms < zsum me_size (choose ms mc es) + me_size e.
Proof.
  revert ms mc. induction es as [|x es IH]; intros ms mc Hpos He; [by apply not_elem_of_nil in He|].
  destruct mc as [|mc]; [by right; left|]. cbn [choose].
  assert (Hes : forall e', e' ∈ es -> 0 <= me_size e') by (intros; apply Hpos; by right).
  assert (Hs : forall ms mc, 0 <= zsum me_size (choose ms mc es)).
  { intros ms' mc'. unfold zsum. pose proof (choose_sublist ms' mc' es) as Hsub.
    assert (Hc : forall y, y ∈ choose ms' mc' es -> 0 <= me_size y).
    { intros y Hy. apply Hes. by eapply elem_of_sublist. }
    clear -Hc. induction (choose ms' mc' es) as [|y l IHl]; cbn; [lia|].
    pose proof (Hc y ltac:(by left)). enough (0 <= foldr (fun x n => me_size x + n) 0 l) by lia.
    apply IHl. intros z Hz. apply Hc. by right. }
  destruct (Z.leb_spec (me_size x) ms) as [Hle|Hgt]; apply elem_of_cons in He as [->|He].
  - left. by left.
  - destruct (IH (ms - me_size x) mc Hes He) as [|[|]]; [left; by right|right; left; cbn; lia|].
    right; right. cbn. fold (zsum me_size (choose (ms - me_size x) mc es)). lia.
  - right; right. pose proof (Hs ms (S mc)). lia.
  - by apply IH.
Qed.

Definition entry_at (p : Mempool) (c : FeeKey * Hash) : option MempoolEntry :=
  p_transactions p !! c.2.

(** The source's loop makes the choices of the reference when the candidates
    share no key image. *)
Lemma select_choose p ms mc cands : forall total sel res,
  NoDup (concat (key_images ∘ me_tx <$> omap (entry_at p) cands)) ->
  (forall ki, ki ∈ concat (key_images ∘ me_tx <$> omap (entry_at p) cands) -> ki ∉ sel) ->
  select p ms mc cands total sel res
  = res ++ (me_tx <$> choose (ms - total) (mc - length res) (omap (entry_at p) cands)).
Proof.
  induction cands as [|[k h] cands IH]; intros total sel res Hn Hs; cbn [select omap list_omap].
  { by rewrite app_nil_r. }
  cbn [omap list_omap] in Hn, Hs. change (entry_at p (k, h)) with (p_transactions p !! h) in *.
  destruct (Nat.leb_spec mc (length res)) as [Hmc|Hmc].
  { replace (mc - length res)%nat with O by lia. destruct (p_transactions p !! h); cbn.
    - by rewrite app_nil_r.
    - destruct (omap (entry_at p) cands); by rewrite app_nil_r. }
  destruct (p_transactions p !! h) as [e|]; [|by apply IH].
  cbn in Hn, Hs. apply NoDup_app in Hn as (Hn1&Hn2&Hn3).
  assert (Hsel : forall ki, ki ∈ key_images (me_tx e) -> ki ∉ sel).
  { intros ki Hki. apply Hs, elem_of_app. by left. }
  assert (Hsel' : forall ki, ki ∈ concat (key_images ∘ me_tx <$> omap (entry_at p) cands) -> ki ∉ sel).
  { intros ki Hki. apply Hs, elem_of_app. by right. }
  replace (mc - length res)%nat with (S (mc - length (res ++ [me_tx e])))
    by (rewrite length_app; cbn; lia). cbn [choose].
  destruct (Z.leb_spec (total + me_size e) ms) as [Hle|Hgt].
  - rewrite (proj2 (Z.leb_le _ _)) by lia. destruct (existsb _ _) eqn:Hx.
    { apply existsb_exists in Hx as (ki&Hki%list_elem_of_In&Hd%bool_decide_eq_true).
      by destruct (Hsel ki Hki). }
    rewrite IH; [|done|].
    + rewrite <- app_assoc. cbn. by replace (ms - (total + me_size e)) with (ms - total - me_size e)
        by lia.
    + intros ki Hki [Hk|Hk%elem_of_list_to_set]%elem_of_union; [by apply (Hsel' ki)|].
      by apply (Hn2 ki).
  - rewrite (proj2 (Z.leb_gt _ _)) by lia. rewrite IH by done.
    rewrite length_app. cbn. by replace (S (mc - (length res + 1))) with (mc - length res)%nat by lia.
Qed.

(** The entries of the pool, best rate first. *)
Definition ranked (p : Mempool) : list MempoolEntry :=
  omap (entry_at p) (reverse (fee_entries (p_by_fee p))).

Lemma omap_pairs {A} (f : Hash -> option A) (l : list FeeKey) :
  omap (fun c : FeeKey * Hash => f c.2) ((fun k : FeeKey => (k, k.2)) <$> l)
  = omap (fun k : FeeKey => f k.2) l.
Proof. induction l as [|k l IH]; [done|]. cbn. by destruct (f k.2); rewrite <- IH. Qed.

Lemma ranked_hashes p :
  pool_wf tx_hash tx_size p ->
  ranked p = omap (fun k => p_transactions p !! k.2) (reverse (fee_keys (p_by_fee p))).
Proof.
  intros Hp. unfold ranked. rewrite (fee_entries_keys _ _ p Hp), <- fmap_reverse.
  apply (omap_pairs (fun h => p_transactions p !! h)).
Qed.

Lemma ranked_elem p e :
  pool_wf tx_hash tx_size p -> e ∈ ranked p <-> exists h, p_transactions p !! h = Some e.
Proof.
  intros Hp. rewrite (ranked_hashes p Hp), list_elem_of_omap. split.
  - intros (k&_&Hk). by exists k.2.
  - intros [h Hh]. exists (me_fee_per_byte e, h). split; [|done].
    apply elem_of_reverse, fee_keys_elem, (by_fee_key _ _ p _ Hp). by exists e.
Qed.

Lemma ranked_images p :
  pool_wf tx_hash tx_size p -> NoDup (concat (key_images ∘ me_tx <$> ranked p)).
Proof.
  intros Hp. rewrite (ranked_hashes p Hp).
  assert (Hn : NoDup (reverse (fee_keys (p_by_fee p))).*2).
  { rewrite fmap_reverse, reverse_Permutation. by apply (fee_keys_hashes tx_hash tx_size). }
  induction (reverse (fee_keys (p_by_fee p))) as [|k l IH]; [apply NoDup_nil_2|].
  cbn in Hn. apply NoDup_cons in Hn as [Hk Hn]. cbn.
  destruct (p_transactions p !! k.2) as [e|] eqn:He; [|by apply IH]. cbn. apply NoDup_app.
  split_and!; [|..|by apply IH].
  - by apply (preflight_facts tx_size), (wf_entries _ _ p Hp _ _ He).
  - intros ki Hki Hc. apply list_elem_of_In, in_concat in Hc as (l'&Hl'&Hki').
    apply list_elem_of_In, list_elem_of_fmap in Hl' as (e'&->&He').
    apply list_elem_of_omap in He' as (k'&Hk'&He'). apply list_elem_of_In in Hki'.
    apply Hk. rewrite (wf_disjoint _ _ p Hp k.2 k'.2 e e' ki); try done.
    apply list_elem_of_fmap. by exists k'.
Qed.

Lemma ranked_sorted p :
  pool_wf tx_hash tx_size p ->
  StronglySorted (fun a b => me_fee_per_byte b <= me_fee_per_byte a) (ranked p).
Proof.
  intros Hp. rewrite (ranked_hashes p Hp).
  assert (Hs : StronglySorted (flip fee_key_le) (reverse (fee_keys (p_by_fee p)))).
  { pose proof (fee_keys_sorted (p_by_fee p)) as Hs. revert Hs.
    generalize (fee_keys (p_by_fee p)). intros l. induction 1 as [|x l Hs IH Hx]; [constructor|].
    rewrite reverse_cons. apply StronglySorted_app_2; [|done|repeat constructor].
    intros y z Hy Hz%list_elem_of_singleton. subst z. rewrite elem_of_reverse in Hy.
    rewrite Forall_forall in Hx. exact (Hx y Hy). }
  assert (Hin : forall k, k ∈ reverse (fee_keys (p_by_fee p)) ->
    exists e, p_transactions p !! k.2 = Some e /\ me_fee_per_byte e = k.1).
  { intros k Hk. rewrite elem_of_reverse in Hk. by apply (fee_keys_in tx_hash tx_size). }
  induction Hs as [|k l Hs IH Hx]; [constructor|]. cbn.
  destruct (Hin k ltac:(by left)) as (e&He&Hr). rewrite He. constructor.
  - apply IH. intros k' Hk'. apply Hin. by right.
  - apply Forall_forall. intros e' He'. apply list_elem_of_omap in He' as (k'&Hk'&He').
    rewrite Forall_forall in Hx. specialize (Hx k' Hk').
    destruct (Hin k' ltac:(by right)) as (e2&He2&Hr2). assert (e2 = e') as -> by congruence.
    rewrite Hr, Hr2. destruct Hx as [Hx|[Hx _]]; lia.
Qed.

Lemma choice_sorted {A} (R : relation A) l l' :
  StronglySorted R l -> sublist l' l -> StronglySorted R l'.
Proof.
  intros Hl Hs. induction Hs as [|x l' l Hs IH|x l' l Hs IH]; [constructor|..];
    apply StronglySorted_cons in Hl as [Hx Hl].
  - constructor; [by apply IH|]. rewrite Forall_forall in Hx |- *. intros y Hy. apply Hx.
    by eapply elem_of_sublist.
  - by apply IH.
Qed.

(** A block template is the greedy choice by fee rate: the transactions come
    from the pool, with rates in descending order; they fit the byte and count
    limits; no key image occurs twice among them; and a transaction of the pool
    is left out only when the count is exhausted or when it does not fit into
    the bytes that are left. *)
Theorem template_exact max_size ops ms mc :
  0 <= max_size -> 0 <= ms ->
  let p := run_pool max_size ops in
  let txs := get_block_transactions p ms mc in
  exists es, txs = me_tx <$> es
    /\ (forall e, e ∈ es -> p_transactions p !! tx_hash (me_tx e) = Some e)
    /\ StronglySorted (fun a b => me_fee_per_byte b <= me_fee_per_byte a) es
    /\ zsum tx_size txs <= ms /\ (length txs <= mc)%nat
    /\ NoDup (concat (key_images <$> txs))
    /\ forall h e, p_transactions p !! h = Some e ->
         e ∈ es \/ length txs = mc \/ ms < zsum tx_size txs + tx_size (me_tx e).
Proof.
  intros Hm Hms p txs. pose proof (run_wf max_size ops Hm) as Hp. fold p in Hp.
  pose proof (choose_sublist ms mc (ranked p)) as Hsub.
  destruct (choose_bounds ms mc (ranked p) Hms) as [Hz Hlen].
  assert (Htx : txs = me_tx <$> choose ms mc (ranked p)).
  { unfold txs, get_block_transactions. rewrite select_choose.
    - by rewrite Z.sub_0_r, Nat.sub_0_r.
    - by apply ranked_images.
    - intros ki _. apply not_elem_of_empty. }
  assert (Hent : forall e, e ∈ ranked p -> entry_ok tx_hash tx_size (tx_hash (me_tx e)) e
    /\ p_transactions p !! tx_hash (me_tx e) = Some e).
  { intros e [h He]%(ranked_elem p e Hp). pose proof (wf_entries _ _ p Hp h e He) as Hok.
    by rewrite (eo_hash _ _ _ _ Hok). }
  set (es := choose ms mc (ranked p)) in *.
  assert (Hin : forall e, e ∈ es -> e ∈ ranked p) by (intros e He; by eapply elem_of_sublist).
  assert (Hsz : zsum tx_size txs = zsum me_size es).
  { rewrite Htx. assert (He : forall e, e ∈ es -> me_size e = tx_size (me_tx e)).
    { intros e He. destruct (Hent e (Hin e He)) as [Hok _].
      by destruct (entry_size _ _ _ _ Hok). }
    clear -He. induction es as [|e es IH]; [done|]. cbn. rewrite (He e) by by left. f_equal.
    apply IH. intros e' He'. apply He. by right. }
  exists es. split_and!; [done|..].
  - intros e He. by apply Hent, Hin.
  - by apply (choice_sorted _ (ranked p)), Hsub; apply ranked_sorted.
  - by rewrite Hsz.
  - by rewrite Htx, length_fmap.
  - eapply sublist_NoDup; [by apply (ranked_images p)|]. rewrite Htx, <- list_fmap_compose.
    by apply sublist_concat.
  - intros h e He. rewrite Hsz, Htx, length_fmap.
    pose proof (wf_entries _ _ p Hp h e He) as Hok.
    rewrite <- (proj1 (entry_size _ _ _ _ Hok)). apply choose_greedy.
    + intros e' [Hok' _]%Hent. pose proof (entry_size _ _ _ _ Hok') as (_&Hs&_).
      unfold MIN_TX_SIZE in Hs. lia.
    + apply (ranked_elem p e Hp). by exists h.
Qed.
End theorems.

(** ** The chain moves while a transaction is admitted

    The state other threads work on: the counters, the updates that are
    running, those whose guard has bumped the generation but not left yet, and
    the content of the chain, which only a running update changes. *)

Section generation.
Context {A : Type}.

Record World := mkWorld {
  w_gen : Generation;
  w_active : nat;
  w_leaving : nat;
  w_chain : A;
}.

(** One step of another thread; the flag tells a bump. *)
Inductive world_step : bool -> World -> World -> Prop :=
| st_begin g a l c :
    world_step false (mkWorld g a l c) (mkWorld (begin_state_update g) (S a) l c)
| st_write g a l c c' :
    world_step false (mkWorld g (S a) l c) (mkWorld g (S a) l c')
| st_bump g a l c :
    world_step true (mkWorld g (S a) l c) (mkWorld (drop_bump g) a (S l) c)
| st_leave g a l c :
    world_step false (mkWorld g a (S l) c) (mkWorld (drop_leave g) a l c).

(** Steps with the number of bumps among them. *)
Inductive world_steps : nat -> World -> World -> Prop :=
| sts_refl w : world_steps 0 w w
| sts_step b n w w' w'' :
    world_step b w w' -> world_steps n w' w'' ->
    world_steps (if b then S n else n) w w''.

(** The counter counts the updates, and the generation is a word. *)
Definition counted (w : World) : Prop :=
  state_updates_in_progress (w_gen w) = Z.of_nat (w_active w + w_leaving w)
  /\ is_u64 (state_generation (w_gen w)).

Lemma step_counted b w w' : world_step b w w' -> counted w -> counted w'.
Proof.
  intros [] [H1 H2]; cbn in H1, H2; split; cbn;
    [lia|done|lia|done|lia|apply wrap64_range|lia|done].
Qed.

Lemma steps_counted n w w' : world_steps n w w' -> counted w -> counted w'.
Proof. induction 1; [done|]. intros Hw. eauto using step_counted. Qed.

Lemma steps_generation n w w' :
  world_steps n w w' ->
  counted w ->
  state_generation (w_gen w') = wrap64 (state_generation (w_gen w) + Z.of_nat n).
Proof.
  induction 1 as [w|b n w w' w'' Hs Hw IH]; intros Hc.
  - destruct Hc as [_ Hg]. by rewrite Z.add_0_r, wrap64_small.
  - rewrite (IH (step_counted _ _ _ Hs Hc)). destruct Hs; cbn; try done.
    unfold wrap64. rewrite Zplus_mod_idemp_l. f_equal. lia.
Qed.

(** Without a bump, no update that was running has ended. *)
Lemma steps_active w w' : world_steps 0 w w' -> (w_active w <= w_active w')%nat.
Proof.
  intros Hs. remember O as n eqn:Hn. induction Hs as [|b n w w' w'' Hw Hs IH]; [done|].
  destruct b; [done|]. specialize (IH Hn). inversion Hw; subst; cbn in *; lia.
Qed.

(** Between two moments without a running update and without a bump between
    them, the chain does not change. *)
Lemma steps_quiet w w' :
  world_steps 0 w w' -> w_active w' = O -> w_chain w' = w_chain w.
Proof.
  intros Hs Ha. remember O as n eqn:Hn in Hs. induction Hs as [|b n w w' w'' Hw Hs IH]; [done|].
  destruct b; [done|]. subst n. rewrite IH by done. apply steps_active in Hs.
  inversion Hw; subst; cbn in *; try done. lia.
Qed.

(** One attempt against a validator: the first check of the generation, the
    validation at some later moment, the second check.  [c] is the content of
    the chain when the second check begins. *)
Inductive attempt_of (validate : A -> result tx_error unit) : Attempt -> A -> Prop :=
| attempt_run w1 w2 w3 w w5 w6 w7 n1 n2 n3 n4 n5 n6 :
    counted w1 ->
    world_steps n1 w1 w2 -> world_steps n2 w2 w3 -> world_steps n3 w3 w ->
    world_steps n4 w w5 -> world_steps n5 w5 w6 -> world_steps n6 w6 w7 ->
    Z.of_nat (n2 + n3 + n4 + n5) <= u64_max ->
    attempt_of validate
      (mkAttempt (stable_generation (w_gen w1) (w_gen w2) (w_gen w3)) (validate (w_chain w))
         (stable_generation (w_gen w5) (w_gen w6) (w_gen w7)))
      (w_chain w5).

Lemma stable_some g1 g2 g3 n :
  stable_generation g1 g2 g3 = Some n ->
  state_updates_in_progress g1 = 0 /\ state_generation g2 = n /\ state_updates_in_progress g3 = 0.
Proof.
  unfold stable_generation. destruct (Z.eqb_spec (state_updates_in_progress g1) 0); [|done]. cbn.
  destruct (Z.eqb_spec (state_updates_in_progress g3) 0); [|done]. by intros [= <-].
Qed.

Lemma wrap_same g n :
  is_u64 g -> 0 <= n <= u64_max -> wrap64 (g + n) = g -> n = 0.
Proof.
  intros Hg Hn Hw. unfold wrap64 in Hw. word_unfold.
  pose proof (Z.div_mod (g + n) 18446744073709551616 ltac:(lia)). lia.
Qed.

Lemma steps_app n m w w' w'' :
  world_steps n w w' -> world_steps m w' w'' -> world_steps (n + m) w w''.
Proof.
  induction 1 as [|b n w w' w1 Hw Hs IH]; [done|]. intros Hm.
  replace ((if b then S n else n) + m)%nat with (if b then S (n + m) else (n + m)%nat)
    by by destruct b. econstructor; eauto.
Qed.

(** Equal generations at both checks: the validator saw the chain of the second
    check. *)
Lemma stable_attempt validate a c g :
  attempt_of validate a c -> a_before a = Some g -> a_after a = Some g ->
  a_validation a = validate c.
Proof.
  intros [w1 w2 w3 w w5 w6 w7 n1 n2 n3 n4 n5 n6 Hc S1 S2 S3 S4 S5 S6 Hn]. cbn.
  intros (_&G2&A3)%stable_some (A5&G6&_)%stable_some.
  pose proof (steps_counted _ _ _ S1 Hc) as C2. pose proof (steps_counted _ _ _ S2 C2) as C3.
  pose proof (steps_counted _ _ _ S3 C3) as C. pose proof (steps_counted _ _ _ S4 C) as C5.
  pose proof (steps_generation _ _ _
    (steps_app _ _ _ _ _ (steps_app _ _ _ _ _ (steps_app _ _ _ _ _ S2 S3) S4) S5) C2) as Hg.
  rewrite G6, <- G2 in Hg. symmetry in Hg. apply wrap_same in Hg; [|apply C2|lia].
  assert (n3 = O /\ n4 = O) as [-> ->] by lia.
  f_equal. destruct C5 as [P5 _], C as [P _]. rewrite A5 in P5.
  symmetry. apply steps_quiet; [done|lia].
Qed.
End generation.

(** C9: A transaction that is admitted against the chain was valid in the state
    the chain had when its generation was read for the second time, under the
    lock of the pool, whatever blocks other threads connected meanwhile: the
    attempts whose two generations differ are thrown away. *)
Theorem admitted_against_current_chain {CR : Crypto} {V : Verdicts} {A} tx_hash tx_size
    (validate : A -> Transaction -> result tx_error unit) p now tx attempts cs p' h :
  Forall2 (attempt_of (fun c => validate c tx)) attempts cs ->
  add_with_chain tx_hash tx_size p now tx attempts = (p', Ok h) ->
  exists c, c ∈ cs /\ validate c tx = Ok tt.
Proof.
  intros Hcs. unfold add_with_chain. destruct (mbind _ _) as [x|]; [|done].
  generalize MAX_CHAIN_GENERATION_ATTEMPTS. intros n. revert n.
  induction Hcs as [|a c attempts cs Ha Hcs IH]; intros [|n]; cbn; try done.
  assert (Hskip : retry_stable_admission tx_hash tx_size p now tx attempts n = (p', Ok h) ->
    exists c', c' ∈ c :: cs /\ validate c' tx = Ok tt).
  { intros (c'&Hc'&Hv)%IH. exists c'. split; [by right|done]. }
  destruct (a_before a) as [g|] eqn:Hb; [|done]. case_bool_decide as Hg; [|done]. cbn.
  rewrite (stable_attempt _ a c g Ha Hb Hg). destruct (validate c tx) as [[]|e] eqn:Hv; [|done].
  intros _. exists c. split; [by left|done].
Qed.

(** ** Witnesses

    Payments of two inputs; the first byte of [extra] is the size. *)

Definition pool_hash (tx : Transaction) : Hash := concat (key_images tx).
Definition pool_size (tx : Transaction) : Z := default 100 (head (extra tx)).

Definition pool_input (k v : Z) : TxInput :=
  mkTxInput [k] (replicate 16 (mkRingMemberRef [1] [5])) (mkClsagSignature [k] [v] [] []) [v].

Definition pay (k size fee : Z) : Transaction :=
  mkTransaction 1 Transfer [pool_input k fee; pool_input (k + 1) 9]
    [toy_output (10 * k) 4; toy_output (10 * k + 1) 5] fee [1] [size].

(** [n] payments of 100 bytes. *)
Definition crowd (n : nat) : list PoolOp :=
  (fun i => OpAdd 0 (pay (1000 + 2 * Z.of_nat i) 100 800000)) <$> seq 0 n.

Abbreviation toy_pool m ops := (run_pool pool_hash pool_size m ops).
Abbreviation toy_add p tx := (add pool_hash pool_size p 0 tx).

Lemma result_pair {A B} (r : A * B) b : r.2 = b -> r = (r.1, b).
Proof. destruct r as [a b']. by intros <-. Qed.

Lemma reachable_pool_wf_witness :
  p_current_size (toy_pool 10000 (crowd 5)) = 500
  /\ verify_size_invariant (toy_pool 10000 (crowd 5)) = true.
Proof.
  split; [vm_compute; reflexivity|]. apply (reachable_pool_wf pool_hash pool_size). lia.
Defined.

(** One hundred payments are in the pool; one that needs all their room is
    refused, and nothing is left. *)
Lemma rejected_admission_effect_witness :
  let p := toy_pool 10000 (crowd 100) in
  let r := toy_add p (pay 10 10000 80000000) in
  size (p_transactions p) = 100%nat /\ r.2 = Err MempoolFull /\ p_transactions r.1 = ∅
  /\ (contents r.1 = contents p \/ p_current_size r.1 + 10000 <= p_max_size r.1).
Proof.
  intros p r. split_and!; [vm_compute; reflexivity..|].
  destruct (rejected_admission_effect pool_hash pool_size 10000 (crowd 100) 0
    (pay 10 10000 80000000) r.1 MempoolFull) as [H|(_&H&_)]; [lia| |by left|by right].
  apply result_pair. vm_compute. reflexivity.
Defined.

(** A payment replaces the one that spends the same key images, a quarter
    above its rate. *)
Lemma admitted_effect_witness :
  let p := toy_pool 10000 [OpAdd 0 (pay 10 100 100000)] in
  let r := toy_add p (pay 10 101 127000) in
  r.2 = Ok [10; 11] /\ is_Some (p_transactions r.1 !! [10; 11]).
Proof.
  intros p r. split; [vm_compute; reflexivity|].
  apply (admitted_effect pool_hash pool_size 10000 [OpAdd 0 (pay 10 100 100000)] 0
    (pay 10 101 127000) r.1 [10; 11]); [lia|]. apply result_pair. vm_compute. reflexivity.
Defined.

Lemma confirmed_block_clears_witness :
  p_transactions (remove_confirmed pool_hash (toy_pool 10000 (crowd 3)) 0 [pay 1001 100 800000])
    !! [1000; 1001] = None.
Proof.
  apply eq_None_not_Some. intros [e He].
  apply (confirmed_block_clears pool_hash pool_size 10000 (crowd 3)) in He as (He&_&Hk); [|lia].
  vm_compute in He. injection He as <-. apply (Hk [1001]); vm_compute.
  - apply elem_of_cons. right. by apply list_elem_of_singleton.
  - by apply elem_of_cons; left.
Defined.

Lemma template_exact_witness :
  length (get_block_transactions (toy_pool 10000 (crowd 5)) 350 10) = 3%nat
  /\ zsum pool_size (get_block_transactions (toy_pool 10000 (crowd 5)) 350 10) <= 350.
Proof.
  split; [vm_compute; reflexivity|].
  destruct (template_exact pool_hash pool_size 10000 (crowd 5) 350 10) as (es&_&_&_&H&_);
    [lia|lia|exact H].
Defined.

(** An update that bumps the generation between the checks of the first
    attempt; the second attempt is quiet. *)
Lemma admitted_against_current_chain_witness :
  exists c, c ∈ [true; true] /\ (if c : bool then Ok tt else Err V2NotActive) = Ok tt.
Proof.
  set (g := mkGeneration 7 0). set (g' := mkGeneration 8 0).
  apply (admitted_against_current_chain pool_hash pool_size
    (fun (c : bool) _ => if c then Ok tt else Err V2NotActive) (with_max_size 10000) 0
    (pay 10 100 100000)
    [mkAttempt (Some 7) (Err V2NotActive) (Some 8); mkAttempt (Some 8) (Ok tt) (Some 8)]
    [true; true] (toy_add (with_max_size 10000) (pay 10 100 100000)).1 [10; 11]).
  - repeat constructor.
    + apply (attempt_run (fun c : bool => if c then Ok tt else Err V2NotActive)
        (mkWorld g 0 0 false) (mkWorld g 0 0 false) (mkWorld g 0 0 false)
        (mkWorld g 0 0 false) (mkWorld g' 0 0 true) (mkWorld g' 0 0 true) (mkWorld g' 0 0 true)
        0 0 0 1 0 0); [by split|constructor..| |constructor|constructor|done].
      apply (sts_step false 1 _ _ _ (st_begin _ _ _ _)), (sts_step false 1 _ _ _ (st_write _ _ _ _ true)).
      apply (sts_step true 0 _ _ _ (st_bump _ _ _ _)), (sts_step false 0 _ _ _ (st_leave _ _ _ _)).
      constructor.
    + apply (attempt_run (fun c : bool => if c then Ok tt else Err V2NotActive)
        (mkWorld g' 0 0 true) (mkWorld g' 0 0 true) (mkWorld g' 0 0 true)
        (mkWorld g' 0 0 true) (mkWorld g' 0 0 true) (mkWorld g' 0 0 true) (mkWorld g' 0 0 true)
        0 0 0 0 0 0); [by split|constructor..|done].
  - apply result_pair. vm_compute. reflexivity.
Defined.

(** The entry evicted for a transaction may pay a hundred times its rate: the
    rates are not compared. *)
Theorem cheaper_transaction_evicts :
  let p := toy_pool 1000 [OpAdd 0 (pay 10 600 600000000)] in
  let r := toy_add p (pay 20 600 6000000) in
  r.2 = Ok [20; 21]
  /\ p_transactions p !! [10; 11] <> None /\ p_transactions r.1 !! [10; 11] = None.
Proof. vm_compute. done. Qed.
