(* ===== verification/Mining.v ===== *)
(** * Mining ([src/mining/template.rs], [src/mining/block_builder.rs])

    From the chain and the pool to a submitted block: the template, the
    coinbase with its claimable fees, the candidate block, the threaded nonce
    search and the submission that keeps the pool aligned.  The JSON template
    is the record [Template] (a field that is missing or of the wrong type is
    [None]); strings are lists of bytes.  The crates [hex] and [borsh] and the
    curve are the classes [Wire] and [Curve]. *)

From stdpp Require Import prelude gmap strings.
From Stdlib Require Import ZArith Lia.
From S2P Require Import Prelude Constants Encoding Amounts Emission FeeMarket Difficulty.
From S2P Require Import ForkSignal Block Utxo ForkChoice Chain ChainLedger TxValidation.
From S2P Require Import BlockValidation Mempool Pow.

Local Open Scope Z_scope.

(** ** Interfaces *)

Class Wire := {
  hex_encode : list Z -> list Z;
  hex_decode : list Z -> option (list Z);
  borsh_tx : Transaction -> list Z;
  borsh_tx_of : list Z -> option Transaction;
}.

(** [curve25519-dalek] behind [SecretScalar] and [PublicPoint], and SHA3-512
    reduced to a scalar. *)
Class Curve := {
  Scalar : Type;
  CurvePoint : Type;
  scalar_of_bytes : list Z -> Scalar;
  scalar_of_sha3_512 : list Z -> Scalar;
  point_of_bytes : list Z -> option CurvePoint;
  point_bytes : CurvePoint -> list Z;
  base_mul : Scalar -> CurvePoint;
  point_mul : CurvePoint -> Scalar -> CurvePoint;
  curve_add : CurvePoint -> CurvePoint -> CurvePoint;
}.

(** ** Data *)

Record Template := mkTemplate {
  t_height : option Z;
  t_prev_hash : option (list Z);
  t_timestamp : option Z;
  t_network_magic : option (list Z);
  t_target : option (list Z);
  t_difficulty : option (list Z);
  t_transactions : option (list (option (list Z)));
}.

Record CandidateBlock := mkCandidateBlock {
  cb_header : BlockHeader;
  cb_transactions : list Transaction;
}.

Inductive build_error :=
| MissingHeight | MissingPrevHash | MissingTimestamp | PrevHashNotHex | TargetNotHex
| MissingTarget | DifficultyNotU64 | StealthAddressFailed
| MagicNotHex | MagicLength (n : nat) | UnknownMagic.

Definition i64_max : Z := 2 ^ 63 - 1.
Definition COINBASE_HEADROOM : Z := 10 * 1024.
Definition TEMPLATE_BUDGET : Z := MAX_BLOCK_SIZE - COINBASE_HEADROOM.
Definition TEMPLATE_COUNT : nat := Z.to_nat 4096.

(** ** Helpers of [src/primitives/hash.rs] and [src/config.rs] *)

Section hashes.
Context `{W : Wire}.

Definition from_slice (bytes : list Z) : option Hash :=
  if (length bytes =? 32)%nat then Some bytes else None.
Definition from_hex (s : list Z) : option Hash := bytes ← hex_decode s; from_slice bytes.
End hashes.

(** For every doubling of the difficulty one more leading zero bit. *)
Definition from_difficulty (difficulty : Z) : Hash :=
  if difficulty =? 0 then replicate 32 255
  else
    let leading_zero_bits := Z.log2 difficulty in
    let full_zero_bytes := Z.to_nat (leading_zero_bits / 8) in
    let partial_bits := leading_zero_bits mod 8 in
    let bytes := replicate (Nat.min full_zero_bytes 32) 0
                 ++ replicate (32 - Nat.min full_zero_bytes 32) 255 in
    if (full_zero_bytes <? 32)%nat && (0 <? partial_bits)
    then <[full_zero_bytes := Z.shiftr 255 partial_bits]> bytes else bytes.

Definition parse_u64 (s : list Z) : option Z :=
  v ← Decimal.parse_u128 s; if v <=? u64_max then Some v else None.

Definition from_magic_bytes (bytes : list Z) : option NetworkType :=
  if bool_decide (bytes = MAINNET_MAGIC) then Some Mainnet
  else if bool_decide (bytes = TESTNET_MAGIC) then Some Testnet
  else if bool_decide (bytes = REGTEST_MAGIC) then Some Regtest
  else None.

(** ** The coinbase *)

Section coinbase.
Context `{W : Wire} `{CV : Curve} {CR : Crypto} (blake3 : list Z -> Hash).

Definition hash_to_scalar (data : list Z) : Scalar :=
  scalar_of_sha3_512 (ascii_bytes "CoinCync_hash_to_scalar_v1" ++ data).

(** One-time key and transaction key of the coinbase ([src/crypto/stealth.rs]). *)
Definition coinbase_stealth_address (spend_pub view_pub : PublicKey) (height output_idx : Z)
    (miner_secret : list Z) : option (PublicKey * PublicKey) :=
  let tx_secret := scalar_of_bytes
    (hash_domain blake3 (ascii_bytes "COINCYNC_COINBASE_TX_SECRET")
       (miner_secret ++ le_bytes 8 height)) in
  let tx_public := base_mul tx_secret in
  view_point ← point_of_bytes view_pub;
  let shared_point := point_mul view_point tx_secret in
  let one_time_scalar := hash_to_scalar (point_bytes shared_point ++ [output_idx]) in
  spend_point ← point_of_bytes spend_pub;
  let stealth_point := curve_add (base_mul one_time_scalar) spend_point in
  Some (point_bytes stealth_point, point_bytes tx_public).

Definition wire_size (tx : Transaction) : Z := zlen (borsh_tx tx).

(** [sum] on [u64] and [usize] wraps in a release build. *)
Fixpoint wrapping_sum (l : list Z) : Z :=
  match l with [] => 0 | x :: l => wrap64 (x + wrapping_sum l) end.

Definition calculate_claimable_fees (testnet : bool) (height : Z) (mempool_txs : list Transaction)
  : Z :=
  let total_fees := wrapping_sum (fee <$> mempool_txs) in
  if total_fees =? 0 then 0
  else if height <? FEE_DISTRIBUTION_HEIGHT testnet then total_fees
  else
    let block_size := wrapping_sum (wire_size <$> mempool_txs) in
    let congestion_pct := block_size * 100 / MAX_BLOCK_SIZE in
    let congested := CONGESTION_THRESHOLD <=? congestion_pct in
    to_miner (distribute_fee total_fees congested).

Definition coinbase_output (spend view : PublicKey) (height total_amount : Z) : option TxOutput :=
  let miner_secret := blake3 view in
  '(public_key, tx_public) ← coinbase_stealth_address spend view height 0 miner_secret;
  let view_tag := default 0
    (head (hash_domain blake3 (ascii_bytes "COINCYNC_VIEW_TAG") (tx_public ++ [0]))) in
  Some (mkTxOutput public_key tx_public (commit_zero total_amount) (le_bytes 8 total_amount)
          view_tag None []).

Definition build_coinbase_with_fees (height : Z) (spend view : PublicKey) (total_fees : Z)
    (signal_bits : SignalBits) : result build_error Transaction :=
  let total_amount := sat_add u64_max (reward height) total_fees in
  match coinbase_output spend view height total_amount with
  | None => Err StealthAddressFailed
  | Some output =>
      Ok (mkTransaction 1 Coinbase [] [output] 0 [] (encode_coinbase_extra height signal_bits))
  end.

(** ** The candidate block *)

Definition parse_template_transactions (t : Template) : list Transaction :=
  match t_transactions t with
  | None => []
  | Some l => omap (fun v => s ← v; bytes ← hex_decode s; borsh_tx_of bytes) l
  end.

Definition resolve_network_magic (t : Template) (fallback : NetworkType)
  : result build_error (list Z) :=
  match t_network_magic t with
  | Some magic_hex =>
      bytes ← ok_or MagicNotHex (hex_decode magic_hex);
      _ ← guard_or (length bytes =? 4)%nat (MagicLength (length bytes));
      _ ← guard_or (bool_decide (is_Some (from_magic_bytes bytes))) UnknownMagic;
      Ok bytes
  | None => Ok (magic_bytes fallback)
  end.

Definition template_target (t : Template) : result build_error Hash :=
  match t_target t with
  | Some target_hex => ok_or TargetNotHex (from_hex target_hex)
  | None =>
      difficulty_str ← ok_or MissingTarget (t_difficulty t);
      difficulty ← ok_or DifficultyNotU64 (parse_u64 difficulty_str);
      Ok (from_difficulty difficulty)
  end.

Context (testnet : bool) (tx_hash : Transaction -> Hash).

(** [merkle_root] always has a value ([merkle_root_total]). *)
Definition build_block_from_template (cache : SeqPadCache) (t : Template)
    (spend view : PublicKey) (fallback : NetworkType) (signal_bits : SignalBits)
  : result build_error CandidateBlock :=
  height ← ok_or MissingHeight (t_height t);
  prev_hash_hex ← ok_or MissingPrevHash (t_prev_hash t);
  timestamp ← ok_or MissingTimestamp (t_timestamp t);
  prev_hash ← ok_or PrevHashNotHex (from_hex prev_hash_hex);
  target ← template_target t;
  let anchor := (compute_full_anchor blake3 cache prev_hash height (wrap64 timestamp)).1 in
  let mempool_txs := parse_template_transactions t in
  let claimable_fees := calculate_claimable_fees testnet height mempool_txs in
  coinbase ← build_coinbase_with_fees height spend view claimable_fees signal_bits;
  let all_txs := coinbase :: mempool_txs in
  let tx_root := default zero_hash (merkle_root blake3 (tx_hash <$> all_txs)) in
  network_magic ← resolve_network_magic t fallback;
  Ok (mkCandidateBlock
        (mkBlockHeader network_magic 1 height (wrap64 timestamp) prev_hash tx_root
           (mixed_hash anchor) (algorithm_index (an_algorithm anchor)) 0 target spend
           (replicate 32 0) None (replicate 32 0) (replicate 32 0))
        all_txs).
End coinbase.

Definition pow_inputs (c : CandidateBlock) : Hash * Hash * Z :=
  (anchor (cb_header c), tx_root (cb_header c), h_height (cb_header c)).

Definition set_nonce (h : BlockHeader) (n : Z) : BlockHeader :=
  mkBlockHeader (network_magic h) (version h) (h_height h) (h_timestamp h) (prev_hash h)
    (tx_root h) (anchor h) (algorithm h) n (h_target h) (miner_pubkey h) (supply_commitment h)
    (checkpoint_vote h) (spark_set_root h) (mw_kernel_root h).

Definition into_block (c : CandidateBlock) (nonce : Z) : Block :=
  mkBlock (set_nonce (cb_header c) nonce) (cb_transactions c).

(** ** Template and submission *)

Section node.
Context {RF P2 : Type} `{!FinalityGate RF} `{!FinalityFeed RF} `{!Phase2Stores P2}.
Context `{W : Wire} `{CV : Curve} {CR : Crypto} {V : Verdicts} {BV : BlockValidator}.
Context (blake3 : list Z -> Hash) (tx_hash : Transaction -> Hash).
Context (checkpoints : NetworkType -> list (Z * Hash)) (testnet : bool).
Implicit Types (c : Chain RF P2) (p : Mempool) (b : Block).

(** [Blockchain::validate_transaction]: against the next block. *)
Definition chain_validate_transaction c (tx : Transaction) : result tx_error unit :=
  validate_transaction_for_network testnet tx (c_utxos c) (wrap64 (tip_height (c_tip c) + 1))
    (c_network c).

(** [None] is a panic of the retarget. *)
Definition next_target c : option Hash :=
  let height := wrap64 (tip_height (c_tip c) + 1) in
  let diff_blocks := get_difficulty_blocks (view c) height in
  match diff_blocks with
  | [] => Some max_target
  | [d] => Some (target d)
  | _ => calculate_difficulty diff_blocks height
  end.

(** What the template takes from the pool. *)
Definition template_transactions c p : list Transaction :=
  filter (fun tx => is_ok (chain_validate_transaction c tx) = true)
    (get_block_transactions p TEMPLATE_BUDGET TEMPLATE_COUNT).

Definition template_timestamp c (now : Z) : Z :=
  Z.max now (sat_add u64_max (tip_timestamp (c_tip c)) 1).

(** [now] is 0 when the clock is before the epoch; [as_i64] reads back only
    what fits.  The source reads the tip, the next target and the state for the
    validation under separate locks; here they are read from one chain [c], so this is
    the template of a chain that does not change while it is built. *)
Definition build_template_json c p (now : Z) : option Template :=
  next_target ← next_target c;
  let timestamp := template_timestamp c now in
  Some (mkTemplate (Some (wrap64 (tip_height (c_tip c) + 1)))
    (Some (hex_encode (tip_hash (c_tip c))))
    (if timestamp <=? i64_max then Some timestamp else None)
    (Some (hex_encode (magic_bytes (c_network c))))
    (Some (hex_encode next_target))
    (Some (Decimal.to_string (tip_difficulty (c_tip c))))
    (Some ((fun tx => Some (hex_encode (borsh_tx tx))) <$> template_transactions c p))).

Definition build_candidate_block (cache : SeqPadCache) c p (now : Z) (spend view : PublicKey)
    (fallback : NetworkType) (signal_bits : SignalBits)
  : option (result build_error CandidateBlock) :=
  t ← build_template_json c p now;
  Some (build_block_from_template blake3 testnet tx_hash cache t spend view fallback signal_bits).

(** [process_block] is [add_block]; [attempts] are the admissions the restored
    transactions make. *)
Definition submit_mined_block c p (now : Z) b (attempts : Transaction -> list Attempt)
  : exec (Chain RF P2 * Mempool * result chain_error BlockStatus) :=
  '(c, r) ← add_block (header_hash blake3) tx_hash wire_size checkpoints testnet c now b;
  let align p :=
    let p := set_height p now (tip_height (c_tip c)) in
    shadow_evict_invalid p now (chain_validate_transaction c) in
  match r with
  | Ok Accepted | Ok AcceptedFork =>
      Ret (c, align (remove_confirmed tx_hash p now (transactions b)), r)
  | Ok (AcceptedReorg orphaned_txs) =>
      let p := remove_confirmed tx_hash p now (transactions b) in
      let p := (restore_orphaned tx_hash wire_size p now
                  ((fun tx => (tx, attempts tx)) <$> orphaned_txs)).1 in
      Ret (c, align p, r)
  | _ => Ret (c, p, r)
  end.
End node.

(** ** The nonce search *)

Definition BATCH : Z := 8.

(** The slice of thread [tid] of [n]. *)
Definition worker_range (n : nat) (nonce_base : Z) (tid : nat) : Z * Z :=
  let slice := u64_max / Z.of_nat n in
  (wrap64 (sat_mul u64_max (Z.of_nat tid) slice + nonce_base),
   if (S tid =? n)%nat then u64_max else sat_mul u64_max (Z.of_nat tid + 1) slice).

Fixpoint first_hit (target : Hash) (hashes : list Hash) (batch : list Z) : option Z :=
  match hashes, batch with
  | h :: hashes, n :: batch =>
      if meets_difficulty h target then Some n else first_hit target hashes batch
  | _, _ => None
  end.

(** The loop of a worker.  [rounds] is the number of batches it hashes before it
    sees the stop flag; a batch that fails is skipped. *)
Fixpoint worker (rounds : nat) (hash_batch : list Z -> option (list Hash)) (target : Hash)
    (nonce end_ : Z) : option Z :=
  match rounds with
  | O => None
  | S rounds =>
      if nonce <? end_ then
        let batch_end := Z.min (sat_add u64_max nonce BATCH) end_ in
        let batch := seqZ nonce (batch_end - nonce) in
        match hashes ← hash_batch batch; first_hit target hashes batch with
        | Some found => Some found
        | None => worker rounds hash_batch target (sat_add u64_max nonce (zlen batch)) end_
        end
      else None
  end.

(** [arrivals] are the workers in the order their messages arrive, each with the
    number of its rounds; the first message is the result. *)
Definition search_nonce (hash_batch : list Z -> option (list Hash)) (target : Hash)
    (threads : nat) (nonce_base : Z) (arrivals : list (nat * nat)) : option Z :=
  let n := Nat.max threads 1 in
  head (omap (fun a : nat * nat =>
    let '(start, end_) := worker_range n nonce_base a.1 in
    worker a.2 hash_batch target start end_) arrivals).
