(* ===== verification/MiningRules.v ===== *)
(** * Mining: lemmas

    What the template takes from the pool, what the candidate block looks like
    field by field, and which checks of the consensus validator it passes by
    construction. *)

From stdpp Require Import prelude gmap strings sorting.
From Stdlib Require Import ZArith Lia.
From S2P Require Import Prelude Constants Encoding Emission FeeMarket Difficulty.
From S2P Require Import ForkSignal Block Utxo ForkChoice Chain ChainLedger ChainSafety.
From S2P Require Import ChainNode ChainMoney TxValidation BlockValidation BlockRules.
From S2P Require Import Mempool MempoolRules MempoolSafety Pow PowRules Mining.

Local Open Scope Z_scope.

(** ** The template *)

Section template.
Context {CR : Crypto} {V : Verdicts}.
Context (tx_hash : Transaction -> Hash) (tx_size : Transaction -> Z).
Implicit Types (p : Mempool) (tx : Transaction).

Lemma ranked_distinct p :
  pool_wf tx_hash tx_size p -> NoDup (tx_hash ∘ me_tx <$> ranked p).
Proof.
  intros Hp. rewrite (ranked_hashes tx_hash tx_size p Hp).
  assert (Hn : NoDup (reverse (fee_keys (p_by_fee p))).*2).
  { rewrite fmap_reverse, reverse_Permutation. by apply (fee_keys_hashes tx_hash tx_size). }
  induction (reverse (fee_keys (p_by_fee p))) as [|k l IH]; [apply NoDup_nil_2|].
  cbn in Hn. apply NoDup_cons in Hn as [Hk Hn]. cbn.
  destruct (p_transactions p !! k.2) as [e|] eqn:He; [|by apply IH]. cbn.
  apply NoDup_cons. split; [|by apply IH]. intros (e'&Heq&He')%list_elem_of_fmap.
  apply list_elem_of_omap in He' as (k'&Hk'&He'). cbn in Heq.
  rewrite (eo_hash _ _ _ _ (wf_entries _ _ p Hp _ _ He)),
    (eo_hash _ _ _ _ (wf_entries _ _ p Hp _ _ He')) in Heq.
  apply Hk. rewrite Heq. apply list_elem_of_fmap. by exists k'.
Qed.

(** What the consensus rules need of the chosen transactions. *)
Record chosen_ok (ms : Z) (mc : nat) (l : list Transaction) : Prop := {
  ch_size : zsum tx_size l <= ms;
  ch_count : (length l <= mc)%nat;
  ch_hashes : NoDup (tx_hash <$> l);
  ch_images : NoDup (concat (key_images <$> l));
  ch_checked : forall tx, tx ∈ l -> preflight_check tx_size tx = Ok tt;
}.

Lemma chosen_template p ms mc :
  pool_wf tx_hash tx_size p -> 0 <= ms -> chosen_ok ms mc (get_block_transactions p ms mc).
Proof.
  intros Hp Hm. unfold get_block_transactions.
  rewrite select_choose; [|by apply (ranked_images tx_hash tx_size)|intros; set_solver].
  rewrite Z.sub_0_r, Nat.sub_0_r. cbn [app]. fold (ranked p).
  pose proof (choose_sublist ms mc (ranked p)) as Hsub.
  destruct (choose_bounds ms mc (ranked p) Hm) as [Hs Hc].
  assert (Hin : forall e, e ∈ choose ms mc (ranked p) -> exists h, entry_ok tx_hash tx_size h e).
  { intros e He. eapply elem_of_sublist in He; [|exact Hsub].
    apply (ranked_elem tx_hash tx_size p e Hp) in He as [h Hh]. exists h. by apply (wf_entries _ _ p Hp). }
  split.
  - etrans; [|exact Hs]. clear -Hin. induction (choose ms mc (ranked p)) as [|e l IH]; [done|].
    cbn. destruct (Hin e) as [h He]; [by left|]. apply entry_size in He as [He _].
    fold (zsum tx_size (me_tx <$> l)) (zsum me_size l).
    assert (zsum tx_size (me_tx <$> l) <= zsum me_size l) by (apply IH; intros; apply Hin; by right).
    lia.
  - by rewrite length_fmap.
  - rewrite <- list_fmap_compose. eapply sublist_NoDup; [by apply ranked_distinct|].
    by apply fmap_sublist.
  - rewrite <- list_fmap_compose. eapply sublist_NoDup; [by apply (ranked_images tx_hash tx_size)|].
    by apply (sublist_concat (key_images ∘ me_tx)).
  - intros tx (e&->&He)%list_elem_of_fmap. destruct (Hin e He) as [h Hh]. by apply Hh.
Qed.

Lemma zsum_sublist {A} (f : A -> Z) l k :
  sublist l k -> (forall x, x ∈ k -> 0 <= f x) -> zsum f l <= zsum f k.
Proof.
  induction 1 as [|x l k _ IH|x l k _ IH]; intros Hf; cbn; [done|..];
    fold (zsum f l) (zsum f k); assert (zsum f l <= zsum f k) by (apply IH; intros; apply Hf; by right).
  - lia.
  - specialize (Hf x ltac:(by left)). fold (zsum f k). lia.
Qed.

(** Dropping what the chain refuses keeps it. *)
Lemma chosen_filter ms mc l (f : Transaction -> bool) :
  chosen_ok ms mc l -> chosen_ok ms mc (filter (fun tx => f tx = true) l).
Proof.
  intros [H1 H2 H3 H4 H5]. pose proof (sublist_filter (fun tx => f tx = true) l) as Hs. split.
  - etrans; [|exact H1]. apply zsum_sublist; [done|]. intros tx Htx.
    apply H5, preflight_facts in Htx as (_&Hx&_). unfold MIN_TX_SIZE in Hx. lia.
  - pose proof (sublist_length _ _ Hs). lia.
  - eapply sublist_NoDup; [exact H3|]. by apply fmap_sublist.
  - eapply sublist_NoDup; [exact H4|]. by apply sublist_concat.
  - intros tx [_ Htx]%list_elem_of_filter. by apply H5.
Qed.
End template.

(** ** The candidate, field by field *)

(** What the code relies on of [hex] and [borsh]. *)
Class WireLaws `{W : Wire} := {
  hex_roundtrip b : Forall is_u8 b -> hex_decode (hex_encode b) = Some b;
  borsh_bytes tx : Forall is_u8 (borsh_tx tx);
}.

(** A hash has 32 bytes. *)
Definition is_hash (h : Hash) : Prop := length h = 32%nat /\ Forall is_u8 h.

Lemma omap_roundtrip {A B} (f : B -> option A) (g : A -> B) (l : list A) :
  (forall x, x ∈ l -> f (g x) = Some x) -> omap f (g <$> l) = l.
Proof.
  induction l as [|x l IH]; intros Hf; [done|]. cbn. rewrite (Hf x) by by left.
  f_equal. apply IH. intros y Hy. apply Hf. by right.
Qed.

Lemma merkle_root_total blake3 l : exists r, merkle_root blake3 l = Some r.
Proof.
  destruct l as [|a [|b l]]; [by eexists|by eexists|].
  rewrite merkle_root_many by (cbn; lia).
  destruct (merkle_loop_leaves blake3 (a :: b :: l)) as [r ->]; [cbn; lia|]. by eexists.
Qed.

Section candidate.
Context {RF P2 : Type} `{!FinalityGate RF} `{!FinalityFeed RF} `{!Phase2Stores P2}.
Context `{WL : WireLaws} `{CV : Curve} {CR : Crypto} {V : Verdicts}.
Context (blake3 : list Z -> Hash) (tx_hash : Transaction -> Hash) (testnet : bool).
Implicit Types (c : Chain RF P2) (p : Mempool).

(** Its transactions survive the way through the template. *)
Definition decodes c p : Prop :=
  forall tx, tx ∈ template_transactions testnet c p -> borsh_tx_of (borsh_tx tx) = Some tx.

Definition next_height c : Z := wrap64 (tip_height (c_tip c) + 1).

Definition claimed c p : Z :=
  sat_add u64_max (reward (next_height c))
    (calculate_claimable_fees testnet (next_height c) (template_transactions testnet c p)).

Definition candidate_txs c p (out : TxOutput) (bits : SignalBits) : list Transaction :=
  mkTransaction 1 Coinbase [] [out] 0 [] (encode_coinbase_extra (next_height c) bits)
  :: template_transactions testnet c p.

Definition candidate_of c p (now : Z) (tgt : Hash) (out : TxOutput) (spend : PublicKey)
    (bits : SignalBits) (nonce : Z) : Block :=
  let txs := candidate_txs c p out bits in
  let ts := template_timestamp c now in
  mkBlock (mkBlockHeader (magic_bytes (c_network c)) 1 (next_height c) ts (tip_hash (c_tip c))
    (default zero_hash (merkle_root blake3 (tx_hash <$> txs)))
    (mixed_hash (fresh_anchor blake3 (tip_hash (c_tip c), next_height c, ts))) 0 nonce tgt spend
    (replicate 32 0) None (replicate 32 0) (replicate 32 0)) txs.

Lemma parsed_transactions c p t now :
  decodes c p -> build_template_json testnet c p now = Some t ->
  parse_template_transactions t = template_transactions testnet c p.
Proof.
  intros Hd. unfold build_template_json. destruct (next_target c); [|done]. intros [= <-].
  unfold parse_template_transactions. cbn [t_transactions].
  apply omap_roundtrip.
  intros tx Htx. cbn. rewrite hex_roundtrip by apply borsh_bytes. cbn. by apply Hd.
Qed.

Lemma magic_resolves net t fb :
  t_network_magic t = Some (hex_encode (magic_bytes net)) ->
  resolve_network_magic t fb = Ok (magic_bytes net).
Proof.
  unfold resolve_network_magic. intros ->.
  rewrite hex_roundtrip by (destruct net; vm_compute; repeat constructor; discriminate).
  by destruct net.
Qed.

(** The builder makes exactly this block, or fails because a payout key is not
    a point. *)
Lemma candidate_eq keys c p now spend view fb bits tgt :
  let cache := seq_run blake3 Seq.new keys in
  decodes c p -> is_hash (tip_hash (c_tip c)) -> next_target c = Some tgt -> is_hash tgt ->
  0 <= template_timestamp c now <= i64_max ->
  build_candidate_block blake3 tx_hash testnet cache c p now spend view fb bits
  = Some (match coinbase_output blake3 spend view (next_height c) (claimed c p) with
          | None => Err StealthAddressFailed
          | Some out =>
              let b := candidate_of c p now tgt out spend bits 0 in
              Ok (mkCandidateBlock (header b) (transactions b))
          end).
Proof.
  intros cache Hd [Hl1 Hb1] Ht [Hl2 Hb2] Hts. unfold build_candidate_block.
  pose proof (parsed_transactions c p) as Hp. unfold build_template_json in *. rewrite Ht in *.
  cbn [mbind option_bind] in *. specialize (Hp _ now Hd eq_refl).
  destruct (Z.leb_spec (template_timestamp c now) i64_max); [|lia].
  f_equal. unfold build_block_from_template. rewrite Hp.
  rewrite (magic_resolves (c_network c)) by done.
  cbn [t_height t_prev_hash t_timestamp ok_or mbind result_bind].
  unfold from_hex. rewrite hex_roundtrip by done. cbn [mbind option_bind].
  unfold from_slice. rewrite Hl1. cbn [Nat.eqb ok_or].
  unfold template_target, from_hex. cbn [t_target]. rewrite hex_roundtrip by done.
  cbn [mbind option_bind]. unfold from_slice. rewrite Hl2. cbn [Nat.eqb ok_or].
  rewrite (wrap64_small (template_timestamp c now)) by (unfold i64_max in *; word_lia).
  destruct (full_anchor_fresh blake3 cache (tip_hash (c_tip c)) (next_height c)
    (template_timestamp c now)) as [Ha _]; [apply run_seq, new_seq|].
  fold (next_height c). cbn [result_bind mbind]. rewrite Ha. unfold build_coinbase_with_fees. fold (claimed c p).
  by destruct (coinbase_output blake3 spend view (next_height c) (claimed c p)).
Qed.
End candidate.

(** ** The validator, check by check *)

Section exact.
Context {CR : Crypto} {V : Verdicts}.
Context (blake3 : list Z -> Hash) (tx_hash : Transaction -> Hash) (tx_size : Transaction -> Z).
Context (verify_pow : Hash -> Z -> Z -> Z -> Hash -> Hash -> Hash -> Z -> bool).
Context (clock : option Z) (testnet : bool).
Implicit Types (b : Block) (r : BlockValidation) (u : UtxoSet).

(** A header on top of [q] without a checkpoint vote. *)
Lemma header_exact h q r :
  checkpoint_vote h = None -> 0 < h_height h -> h_height h = wrap64 (h_height q + 1) ->
  prev_hash h = header_hash blake3 q -> h_timestamp q < h_timestamp h ->
  valid (validate_header blake3 clock h (Some q) r) = true <->
  valid r = true
  /\ (block_version_at_height (h_height h) <= version h /\ version q <= version h)
  /\ exists t, clock = Some t /\ h_timestamp h <= wrap64 (t + MAX_TIMESTAMP_DRIFT).
Proof.
  intros Hv H0 Hh Hp Ht. unfold validate_header, check_header_future_timestamp,
    check_header_checkpoint_vote, check_header_vs_prev, check_header_version_min.
  rewrite Hv, Hp, bool_decide_eq_true_2 by done. cbn [negb].
  destruct clock as [t|]; [|split; [done|naive_solver]].
  rewrite valid_error_if. destruct (Z.ltb_spec 0 (h_height h)); [|lia]. cbn [andb].
  set (r1 := error_if (h_timestamp h <=? _) _ _).
  assert (E : valid (if t <? MIN_REASONABLE_TIME then add_warning r1 else r1) = valid r1)
    by by destruct (t <? MIN_REASONABLE_TIME).
  rewrite E. unfold r1. validity. rewrite <- Hh, Z.eqb_refl, !Z.ltb_ge, Z.leb_gt. cbn. naive_solver.
Qed.

(** A coinbase with one open output pays what it says. *)
Lemma coinbase_exact active b cb txs o v limit r :
  transactions b = cb :: txs -> outputs cb = [o] -> inputs cb = [] -> 0 < block_height b ->
  encrypted_amount o = le_bytes 8 v -> commitment o = commit_zero v ->
  proper_point (commit_zero v) = true -> 0 <= v <= u64_max ->
  valid (check_coinbase active false b limit r) = true <-> v = limit /\ valid r = true.
Proof.
  intros Et Eo Ei Hb Ea Ec Hp Hv. unfold check_coinbase. rewrite Et, Eo, Ei.
  change (zlen [o]) with 1. rewrite bool_decide_eq_true_2 by done. cbn [negb andb].
  destruct (Z.ltb_spec 0 (block_height b)); [|lia]. cbn [andb negb].
  change (error_if (1 =? 0) CoinbaseNoOutputs r) with r.
  change (error_if false _ r) with r. change (error_if (16 <? 1) _ r) with r.
  change ((1 <? 1) && _) with false. change (error_if false _ r) with r.
  cbn [coinbase_loop]. rewrite Ea. unfold zlen. rewrite le_bytes_length.
  replace (negb (if active then Z.of_nat 8 =? 8 else 8 <=? Z.of_nat 8)) with false
    by by destruct active.
  rewrite take_ge by by rewrite le_bytes_length.
  rewrite le_val_le_bytes by (unfold u64_max in Hv; lia).
  unfold check_coinbase_commitment. rewrite Ec, bool_decide_eq_true_2 by done.
  unfold proper_point in Hp. destruct (decompress (commit_zero v)) as [pt|]; [|done].
  apply negb_true_iff, bool_decide_eq_false in Hp. rewrite bool_decide_eq_false_2 by done.
  cbn [negb error_if andb]. unfold checked_add. destruct (Z.leb_spec (0 + v) u64_max); [|lia].
  cbn [andb]. rewrite valid_error_if, negb_false_iff, Z.eqb_eq. naive_solver.
Qed.

(** Everything after the limit is known, for such a coinbase. *)
Lemma body_exact b u net active size limit hashes cb txs o v r :
  transactions b = cb :: txs -> outputs cb = [o] -> inputs cb = [] -> 0 < block_height b ->
  encrypted_amount o = le_bytes 8 v -> commitment o = commit_zero v ->
  proper_point (commit_zero v) = true -> 0 <= v <= u64_max ->
  TAIL_EMISSION <= reward (block_height b) <= reward 0 ->
  valid (check_block_body tx_size testnet b u net active false size limit hashes r) = true <->
  v = limit /\ valid r = true
  /\ NoDup hashes /\ NoDup (block_key_images b)
  /\ (active = true -> NoDup (block_addresses b).*2)
  /\ (forall tx, tx ∈ txs -> exists f, dynamic_min (tx_size tx)
        (congestion_multiplier (congestion_pct size)) = Some f /\ f <= fee tx)
  /\ (forall tx, tx ∈ txs -> is_coinbase tx = false
        /\ validate_transaction_for_network testnet tx u (block_height b) net = Ok tt).
Proof.
  intros Et Eo Ei Hb Ea Ec Hp Hv Hr. unfold check_block_body. cbv zeta.
  set (r1 := check_block_tail_supply _ _). set (r2 := check_coinbase _ _ _ _ r1).
  set (r3 := check_block_duplicate_tx_hashes _ r2). set (r4 := check_block_duplicate_key_images b r3).
  set (r5 := report_duplicates _ _ _ r4). set (r6 := if active then _ else r5).
  assert (H2 : valid r2 = true <-> v = limit /\ valid r = true).
  { unfold r2. rewrite (coinbase_exact active b cb txs o v limit r1) by done.
    unfold r1. rewrite valid_tail. naive_solver. }
  assert (H5 : valid r5 = true <->
    (v = limit /\ valid r = true) /\ NoDup hashes /\ NoDup (block_key_images b)).
  { unfold r5. rewrite valid_duplicates. unfold r4, check_block_duplicate_key_images.
    rewrite valid_duplicates. unfold r3, check_block_duplicate_tx_hashes.
    rewrite valid_duplicates, H2. set_solver. }
  assert (H6 : valid r6 = true <->
    valid r5 = true /\ (active = true -> NoDup (block_addresses b).*2)).
  { unfold r6. destruct active; [|naive_solver]. rewrite (valid_stealth blake3 verify_pow). set_solver. }
  rewrite Et. cbn [drop]. rewrite ?drop_0. clearbody r6. destruct (valid r6) eqn:E6; cbn [negb].
  - destruct (Z.ltb_spec 0 (block_height b)); [|lia]. cbn [andb negb].
    rewrite (valid_txs blake3 tx_hash tx_size verify_pow),
      (valid_fees blake3 tx_hash tx_size verify_pow), E6. tauto.
  - rewrite E6. split; [done|]. intros Hx. enough (false = true) by done. apply H6. tauto.
Qed.
End exact.

(** ** Blocks that a builder makes well by construction *)

Section built.
Context {CR : Crypto} {V : Verdicts}.
Context (blake3 : list Z -> Hash) (tx_hash : Transaction -> Hash) (tx_size : Transaction -> Z).
Context (verify_pow : Hash -> Z -> Z -> Z -> Hash -> Hash -> Hash -> Z -> bool).
Context (clock : option Z) (testnet : bool).
Implicit Types (b tb : Block) (u : UtxoSet).

(** Everything the validator asks of [b] on top of [tb] except the conditions
    of [open_conditions]; the coinbase pays [v]. *)
Record well_built b tb u (net : NetworkType) (v : Z) : Prop := {
  wb_magic : network_magic (header b) = magic_bytes net;
  wb_height : 0 < block_height b /\ block_height b = wrap64 (block_height tb + 1);
  wb_vote : checkpoint_vote (header b) = None;
  wb_parent : prev_hash (header b) = header_hash blake3 (header tb);
  wb_time : h_timestamp (header tb) < h_timestamp (header b);
  wb_gate : forall r, validate_difficulty_target b (Some tb) r = r;
  wb_root : merkle_root blake3 (tx_hash <$> transactions b) = Some (tx_root (header b));
  wb_size : block_size tx_size b <= MAX_BLOCK_SIZE;
  wb_count : zlen (transactions b) <= MAX_TXS_PER_BLOCK;
  wb_privacy : enforce_privacy_policy b = Ok tt;
  wb_images : NoDup (block_key_images b);
  wb_coinbase : exists cb txs o, transactions b = cb :: txs /\ is_coinbase cb = true
    /\ outputs cb = [o] /\ inputs cb = [] /\ encrypted_amount o = le_bytes 8 v
    /\ commitment o = commit_zero v
    /\ forall tx, tx ∈ txs -> is_coinbase tx = false
         /\ validate_transaction_for_network testnet tx u (block_height b) net = Ok tt;
  wb_amount : proper_point (commit_zero v) = true /\ 0 <= v <= u64_max;
  wb_reward : TAIL_EMISSION <= reward (block_height b) <= reward 0;
}.

(** What the template and the builder do not look at. *)
Record open_conditions b tb (cp : option Z) (net : NetworkType) (v : Z) : Prop := {
  oc_version : block_version_at_height (block_height b) <= version (header b)
    /\ version (header tb) <= version (header b);
  oc_clock : exists t, clock = Some t
    /\ h_timestamp (header b) <= wrap64 (t + MAX_TIMESTAMP_DRIFT);
  oc_pow : (forall k, cp = Some k -> k < block_height b) -> proved blake3 verify_pow b tb;
  oc_weight : foldr (fun tx n => tx_weight tx_size tx + n) 0 (transactions b) <= MAX_BLOCK_WEIGHT;
  oc_share : max_coinbase testnet b (block_size tx_size b) = Some v;
  oc_fees : forall tx, tx ∈ drop 1 (transactions b) -> exists f, dynamic_min (tx_size tx)
    (congestion_multiplier (congestion_pct (block_size tx_size b))) = Some f /\ f <= fee tx;
  oc_addresses : v1_0_12_rules_active net (block_height b) = true ->
    NoDup (block_addresses b).*2;
  oc_hashes : NoDup (tx_hash <$> transactions b);
}.

Lemma pow_exact b tb rq r :
  0 < block_height b -> (forall r, validate_difficulty_target b (Some tb) r = r) ->
  valid (check_block_pow blake3 verify_pow false b (Some tb) rq r) = true <->
  valid r = true /\ (rq = false -> proved blake3 verify_pow b tb).
Proof.
  intros Hb Hg. unfold check_block_pow, proved. destruct (Z.ltb_spec 0 (block_height b)); [|lia].
  rewrite Hg, andb_false_r. destruct rq; [naive_solver|].
  rewrite valid_error_if, negb_false_iff. naive_solver.
Qed.

Lemma validate_exact b tb u cp net v :
  well_built b tb u net v ->
  valid (validate_block_for_network blake3 tx_hash tx_size verify_pow clock testnet false
    b (Some tb) u cp net) = true <-> open_conditions b tb cp net v.
Proof.
  intros [Hm [H0 Hh] Hvt Hp Ht Hg Hr Hs Hn Hpr Hk (cb&txs&o&Et&Hc&Eo&Ei&Ea&Ec&Hx) [Hpp Hv] Hrw].
  unfold validate_block_for_network, check_block_network_magic, check_block_consensus_checkpoint.
  rewrite Hm, (bool_decide_eq_true_2 (magic_bytes net = magic_bytes net)) by done.
  destruct (Z.eqb_spec (block_height b) 0); [lia|]. rewrite andb_false_r. cbn [negb].
  change (expected_checkpoint_hash (block_height b)) with (@None (list Z)). cbn [negb].
  set (rq := match cp with Some c => _ | None => false end). rewrite andb_false_r.
  assert (Hrq : rq = false <-> forall k, cp = Some k -> k < block_height b).
  { unfold rq. destruct cp as [k|]; [|naive_solver]. rewrite Z.leb_gt. naive_solver. }
  unfold check_block_has_coinbase. rewrite Et at 1. cbn [negb]. cbn [fmap option_fmap option_map].
  destruct (max_coinbase testnet b (block_size tx_size b)) as [limit|] eqn:El;
    [|split; [done|intros [_ _ _ _ Hl _ _ _]; congruence]].
  rewrite (body_exact blake3 tx_hash tx_size verify_pow testnet b u net _ _ _ _ cb txs o v) by done.
  assert (Hfc : forall r, check_block_first_tx_is_coinbase b r = r).
  { intros r. unfold check_block_first_tx_is_coinbase. by rewrite Et, Hc. }
  rewrite Hfc. unfold check_block_privacy_policy, check_block_merkle_root,
    check_block_tx_count, check_block_weight, check_block_size. rewrite Hpr, Hr. validity.
  rewrite (bool_decide_eq_true_2 (Some _ = Some _)) by done. cbn [negb].
  rewrite pow_exact, header_exact, Hrq, !Z.ltb_ge by done.
  split.
  - intros (->&(_&_&Hw&_&(_&Hve&Hcl)&Hpo)&Hnd&_&Had&Hfe&_). split; try done.
    by rewrite Et.
  - intros [Hve Hcl Hpo Hw Hl Hfe Had Hnd]. rewrite Et in Hfe. cbn in Hfe. rewrite drop_0 in Hfe.
    assert (v = limit) by congruence. destruct Hve. split_and!; done.
Qed.
End built.
