(* ===== verification/MiningDemo.v ===== *)
(** * A node to mine on

    Concrete instances for the witnesses of [MiningSafety] and [MiningSearch]:
    a hash of 32 bytes, a wire format, a group, a node with one block above
    genesis, and a chain with old outputs on which two payments to the same
    stealth address are valid. *)

From stdpp Require Import prelude gmap strings.
From Stdlib Require Import ZArith Lia.
From S2P Require Import Prelude Constants Encoding Emission FeeMarket Difficulty.
From S2P Require Import ForkSignal Block Utxo ForkChoice Chain ChainDemo ChainLedger ChainSafety.
From S2P Require Import ChainNode ChainMoney TxValidation BlockValidation BlockRules.
From S2P Require Import Mempool MempoolRules MempoolSafety Pow PowRules Mining MiningRules.

Local Open Scope Z_scope.

(** ** Hash, wire, group *)

Definition dig_hash (l : list Z) : Hash :=
  replicate 31 0 ++ [foldl (fun a x => (a * 3 + x + 1) mod 251) 7 l mod 251].

Lemma dig_is_hash l : is_hash (dig_hash l).
Proof.
  unfold dig_hash. set (x := foldl _ _ _). pose proof (Z.mod_pos_bound x 251).
  split; [by rewrite length_app, length_replicate|].
  apply Forall_app. split; [apply Forall_replicate; unfold is_u8; lia|].
  repeat constructor; lia.
Qed.

Definition dig_ring : list RingMemberRef :=
  (fun i => mkRingMemberRef [Z.of_nat i] [5]) <$> seq 1 16.

Definition dig_input (k v : Z) : TxInput :=
  mkTxInput [k] dig_ring (mkClsagSignature [k] [v] [] []) [v].

(** A payment that spends [k] and [k + 1] and pays to the addresses 700, 701. *)
Definition dig_pay (k : Z) : Transaction :=
  mkTransaction 1 Transfer [dig_input k 5; dig_input (k + 1) 100004]
    [toy_output 700 4; toy_output 701 5] 100000 [1] [k].

Definition dig_tx_hash (tx : Transaction) : Hash := extra tx.

#[export] Instance dig_wire : Wire := {|
  hex_encode b := b;
  hex_decode b := Some b;
  borsh_tx tx := replicate 99 0 ++ [default 0 (head (extra tx)) mod 256];
  borsh_tx_of b := Some (dig_pay (default 0 (last b)));
|}.

#[export] Instance dig_wire_laws : WireLaws (W := dig_wire).
Proof.
  split; [done|]. intros tx. cbn [borsh_tx dig_wire]. apply Forall_app. split.
  - apply Forall_replicate. unfold is_u8. lia.
  - repeat constructor; pose proof (Z.mod_pos_bound (default 0 (head (extra tx))) 256); lia.
Qed.

#[export] Instance dig_curve : Curve := {|
  Scalar := Z;
  CurvePoint := Z;
  scalar_of_bytes := le_val;
  scalar_of_sha3_512 l := le_val (dig_hash l);
  point_of_bytes := head;
  point_bytes p := [p];
  base_mul s := s;
  point_mul := Z.mul;
  curve_add := Z.add;
|}.

(** ** A node with one block above genesis *)

Definition dig_genesis (net : NetworkType) : Block :=
  mkBlock (mkBlockHeader MAINNET_MAGIC 1 0 1600000000 [] [] [] 0 0 (u128_to_target (2 ^ 118))
    [] [] None [] []) [].
Definition dig_expected (net : NetworkType) : Hash := block_hash dig_hash (dig_genesis net).
Definition dig_checkpoints (net : NetworkType) : list (Z * Hash) := [(0, dig_expected net)].

Definition dig_first : Block :=
  let v := reward 1 in
  let cb := mkTransaction 1 Coinbase [] [mkTxOutput [70] [70] [v] (le_bytes 8 v) 0 None []]
    0 [] [60] in
  mkBlock (mkBlockHeader MAINNET_MAGIC 1 1 1600000120 (dig_expected Mainnet)
    (leaf_hash dig_hash [60]) [] 0 7 (u128_to_target (2 ^ 118)) [] [] None [] []) [cb].

Definition dig_clock (_ : Block) (_ : UtxoSet) : option Z := Some 1700000000.
Abbreviation dig_validators := (fun clock =>
  consensus_validator dig_hash dig_tx_hash wire_size mint_pow clock false).
Abbreviation dig_validator := (dig_validators dig_clock).
Abbreviation dig_add := (add_block (RF := unit) (P2 := list Z) (BV := dig_validator)
  (header_hash dig_hash) dig_tx_hash wire_size dig_checkpoints false).
Abbreviation dig_reachable := (reachable dig_validators (RF := unit) (P2 := list Z)
  (header_hash dig_hash) dig_tx_hash wire_size dig_checkpoints false dig_genesis dig_expected []).

Definition dig_start : Chain unit (list Z) :=
  match init_genesis (header_hash dig_hash) dig_tx_hash dig_genesis dig_expected
          (fresh_node ∅ Mainnet None []) with
  | Ret (c, _) => c
  | _ => fresh_node ∅ Mainnet None []
  end.

Definition dig_node : Chain unit (list Z) :=
  match dig_add dig_start 0 dig_first with Ret (c, _) => c | _ => dig_start end.

Lemma dig_accepted : exists c, dig_add dig_start 0 dig_first = Ret (c, Ok Accepted).
Proof.
  assert (H : (match dig_add dig_start 0 dig_first with
    | Ret (_, Ok Accepted) => true | _ => false end) = true) by (vm_compute; reflexivity).
  destruct (dig_add dig_start 0 dig_first) as [[c [[]|]]| |]; try discriminate H.
  by exists c.
Qed.

Abbreviation dig_init := (init_genesis (RF := unit) (P2 := list Z) (header_hash dig_hash)
  dig_tx_hash dig_genesis dig_expected (fresh_node ∅ Mainnet None [])).

Lemma dig_start_reachable : dig_reachable dig_start.
Proof.
  assert (H : (match dig_init with Ret (_, r) => is_ok r | _ => false end) = true)
    by (vm_compute; reflexivity).
  unfold dig_start. destruct dig_init as [[c [h|]]| |] eqn:E; try discriminate H.
  eapply (reach_genesis _ _ _ _ _ _ _ _ ∅ Mainnet None []); [|exact E].
  split; [|split_and!; reflexivity]. split; [cbn; lia|constructor].
Qed.

Lemma dig_node_reachable : dig_reachable dig_node.
Proof.
  destruct dig_accepted as [c E]. unfold dig_node. rewrite E.
  apply (reach_add dig_validators _ _ _ _ _ _ _ [] dig_start dig_clock 0 dig_first c (Ok Accepted)).
  - apply dig_start_reachable.
  - split; [cbn; lia|]. repeat constructor; cbn; word_lia.
  - exact E.
Qed.

Definition dig_pool : Mempool := run_pool dig_tx_hash wire_size 100000 [].

Definition dig_build (c : Chain unit (list Z)) (p : Mempool) : CandidateBlock :=
  match build_candidate_block dig_hash dig_tx_hash false (seq_run dig_hash Seq.new []) c p
          1650000000 [3] [4] Mainnet 0 with
  | Some (Ok cand) => cand
  | _ => mkCandidateBlock (header dig_first) []
  end.

Definition dig_cand : CandidateBlock := dig_build dig_node dig_pool.

(** ** A chain at height 10,999 with old outputs, and two payments to one address *)

Definition dig_utxos : UtxoSet :=
  connect dig_tx_hash UtxoSet_new 1
    [mkTransaction 1 Coinbase [] ((fun i => toy_output (Z.of_nat i) 5) <$> seq 1 16) 0 [] [9]].

Definition dig_late : Chain unit (list Z) :=
  set_utxos (set_tip dig_start
    (mkChainTip (replicate 32 1) 10999 (tip_difficulty (c_tip dig_start)) 1600020000)) dig_utxos.

Definition dig_crowd : Mempool :=
  run_pool dig_tx_hash wire_size 100000 [OpAdd 0 (dig_pay 50); OpAdd 0 (dig_pay 60)].
