(* ===== verification/MiningSafety.v ===== *)
(** * Mining against the consensus validator

    A candidate block of a node that runs the consensus validator: which of the
    validator's conditions the template and the builder guarantee, and which
    they do not; the block that satisfies the rest extends the chain.  The
    conditions left open are real: blocks of version 1 end at height 50,000,
    transactions that share a stealth address poison the template, and the
    share of the fees is computed from a different size. *)

From stdpp Require Import prelude gmap strings sorting.
From Stdlib Require Import ZArith Lia.
From S2P Require Import Prelude Constants Encoding Emission FeeMarket Difficulty.
From S2P Require Import ForkSignal Block Utxo ForkChoice Chain ChainDemo ChainLedger ChainSafety.
From S2P Require Import ChainRestart ChainNode ChainMoney TxValidation BlockValidation.
From S2P Require Import BlockRules Mempool MempoolRules MempoolSafety Pow PowRules.
From S2P Require Import Mining MiningRules MiningDemo.

Local Open Scope Z_scope.

(** ** The tip and the next target *)

Lemma reward_bounds h : 0 <= h <= u64_max -> TAIL_EMISSION <= reward h <= reward 0.
Proof.
  intros Hh. assert (E0 : reward 0 = 50 * COIN) by reflexivity. rewrite E0.
  unfold reward, base_reward. destruct (estimate_supply_spec h) as (s&Hs&Hlo&_); [done|].
  assert (0 <= s). { pose proof (emitted_nonneg (Z.to_nat h)). rewrite cap_atomic_eq in *. lia. }
  rewrite Hs. cbn. rewrite base_reward_raw by done. by apply raw_reward_bounds.
Qed.

Lemma target_hash v : is_hash (u128_to_target v).
Proof.
  split; [|apply u128_to_target_bytes].
  unfold u128_to_target. by rewrite length_app, be_bytes_length, length_replicate.
Qed.

Section gate.
Implicit Types (b p q : Block) (r : BlockValidation).

(** A block may keep the target of a parent that passed the gate itself. *)
Lemma gate_accepts_same b p q r :
  h_target (header b) = h_target (header p) -> Forall is_u8 (h_target (header p)) ->
  valid (validate_difficulty_target p (Some q) validation_ok) = true ->
  validate_difficulty_target b (Some p) r = r.
Proof.
  unfold validate_difficulty_target. intros -> Hb Hv.
  destruct (_ <? _) eqn:E1; [done|]. destruct (forallb _ _) eqn:E2; [done|]. clear Hv.
  set (t := target_value (h_target (header p))).
  destruct (Z.ltb_spec 0 t) as [Ht|]; [|done]. cbn [andb].
  assert (Hm : t <= u128_max) by (apply Z.ltb_ge in E1; exact E1).
  pose proof (ratio_in_gate t t ltac:(lia) ltac:(pose proof (Z.div_le_upper_bound t 2 t); lia) Hm).
  destruct (_ <=? _); destruct (Z.ltb_spec (ratio_scaled t t) 4), (Z.ltb_spec (ratio_scaled t t) 31),
    (Z.ltb_spec 256000 (ratio_scaled t t)), (Z.ltb_spec 32000 (ratio_scaled t t)); try lia; done.
Qed.
End gate.

Section tip.
Context {RF P2 : Type} `{!FinalityGate RF} `{!FinalityFeed RF} `{!Phase2Stores P2}.
Context {CR : Crypto} {V : Verdicts} (blake3 : list Z -> Hash).
Context (tx_hash : Transaction -> Hash) (tx_size : Transaction -> Z).
Context (verify_pow : Hash -> Z -> Z -> Z -> Hash -> Hash -> Hash -> Z -> bool).
Context (testnet : bool).
Context (checkpoints : NetworkType -> list (Z * Hash)).
Context (genesis : NetworkType -> Block) (expected : NetworkType -> Hash).
Implicit Types (c : Chain RF P2) (b : Block).

Abbreviation node_validators := (fun clock =>
  consensus_validator blake3 tx_hash tx_size verify_pow clock testnet).
Abbreviation reachable := (reachable node_validators (RF := RF) (P2 := P2)
  (header_hash blake3) tx_hash tx_size checkpoints testnet genesis expected []).

(** The block at the tip, above genesis. *)
Record tip_block c (tb : Block) : Prop := {
  tb_stored : get_block (view c) (tip_hash (c_tip c)) = Some tb;
  tb_hash : header_hash blake3 (header tb) = tip_hash (c_tip c);
  tb_height : block_height tb = tip_height (c_tip c);
  tb_time : h_timestamp (header tb) = tip_timestamp (c_tip c);
  tb_room : 0 <= block_height tb <= 2 ^ 62;
  tb_window : last (get_difficulty_blocks (view c) (tip_height (c_tip c) + 1))
              = Some (to_difficulty_block tb);
  tb_gate : 0 < block_height tb -> exists q,
    valid (validate_difficulty_target tb (Some q) validation_ok) = true;
  tb_mtp : 10 <= block_height tb -> forall m, median_time_past_of_lineage (view c) (tip_hash (c_tip c)) = Some m ->
    m <= h_timestamp (header tb);
}.

Lemma window_last v (n : Z) h b :
  0 <= n -> height_to_hash v !! n = Some h -> blocks v !! h = Some b -> block_height b = n ->
  last (get_difficulty_blocks v (n + 1)) = Some (to_difficulty_block b).
Proof.
  intros Hn Hh Hb <-. unfold get_difficulty_blocks.
  set (start := sat_sub (block_height b + 1) 144).
  assert (Hs : 0 <= start <= block_height b) by (unfold start; word_lia).
  replace (Z.to_nat (block_height b + 1 - start)) with (S (Z.to_nat (block_height b - start))) by lia.
  rewrite seq_S, omap_app. cbn [omap list_omap].
  replace (start + Z.of_nat (0 + Z.to_nat (block_height b - start))) with (block_height b) by lia.
  rewrite Hh. cbn. rewrite Hb. cbn. by rewrite last_snoc.
Qed.

(** Along a validated chain the timestamps climb. *)
Lemma lineage_below c s l n : forall h b,
  chain_inv (header_hash blake3) tx_size checkpoints testnet c s l ->
  all_settled node_validators tx_size testnet s ->
  s !! h = Some b -> Z.of_nat n <= block_height b + 1 ->
  forall t, t ∈ lineage_timestamps (view c) n h -> t <= h_timestamp (header b).
Proof.
  induction n as [|n IH]; intros h b Hi Hs Hb Hn t Hin; cbn in Hin; [set_solver|].
  rewrite (get_block_store _ _ _ _ c s l), Hb in Hin by done.
  apply elem_of_cons in Hin as [->|Hin]; [done|].
  destruct (decide (block_height b = 0)) as [H0|H0].
  { assert (n = O) as -> by lia. cbn in Hin. set_solver. }
  destruct (inv_keyed _ _ _ _ _ _ _ Hi _ _ Hb) as [_ Htb].
  destruct (inv_parent _ _ _ _ _ _ _ Hi _ _ Hb H0) as (q&Hq&Hqh).
  destruct (settled_block blake3 tx_hash tx_size verify_pow testnet s b (Hs _ _ Hb) Htb H0)
    as (q'&Hq'&Hlt&_). rewrite Hq in Hq'. injection Hq' as <-.
  enough (t <= h_timestamp (header q)) by lia. eapply IH; try done. lia.
Qed.

Lemma median_among l m : median11 l = Some m -> m ∈ l.
Proof.
  unfold median11. intros Hm. apply list_elem_of_lookup_2 in Hm.
  by rewrite merge_sort_Permutation in Hm.
Qed.

Lemma tip_facts c : reachable c -> exists tb, tip_block c tb.
Proof.
  intros Hc. destruct (reachable_settled _ _ _ _ _ _ _ _ c Hc) as (s&Hi&Hs).
  destruct (inv_nonempty _ _ _ _ _ _ _ Hi) as (tb&Hl&Hth&Hst&Hbh&H0). exists tb.
  destruct (inv_keyed _ _ _ _ _ _ _ Hi _ _ Hst) as [_ Htb].
  pose proof (inv_tip_time _ _ _ _ _ _ _ Hi) as Htime. rewrite Hl in Htime. injection Htime as Htime.
  assert (Hin : tb ∈ main_chain c) by (rewrite last_lookup in Hl; by eapply list_elem_of_lookup_2).
  destruct (inv_recent _ _ _ _ _ _ _ Hi tb Hin) with tb as [Hix Hbl];
    [|by apply list_elem_of_singleton|].
  { unfold finality_floor. cbn. pose proof (floor_bounds (tip_height (c_tip c)) H0). lia. }
  split; try done.
  - rewrite (get_block_store _ _ _ _ c s (main_chain c)) by done. by rewrite Hth.
  - by destruct Htb.
  - apply (window_last (view c) _ (hash_of (header_hash blake3) tb)); cbn; try done.
    by rewrite <- Hbh.
  - intros Hp. destruct (Hs _ _ Hst) as [[? _]|(_&ck&q&u&cp&net&_&Hv)]; [lia|].
    injection Hv as Hv. apply validate_block_sound in Hv.
    destruct (ba_pow _ _ _ _ _ _ _ _ _ _ Hv Hp) as (q'&[= <-]&_&Hg). by exists q.
  - intros H10 m Hm. apply mtp_some in Hm as [_ Hm]. apply median_among in Hm.
    rewrite Hth in Hm.
    eapply (lineage_below c s (main_chain c) 11 (hash_of (header_hash blake3) tb)); try done. lia.
Qed.
End tip.

(** ** The candidate *)

Section candidate.
Context {RF P2 : Type} `{!FinalityGate RF} `{!FinalityFeed RF} `{!Phase2Stores P2}.
Context `{WL : WireLaws} `{CV : Curve} {CR : Crypto} {V : Verdicts}.
Context (blake3 : list Z -> Hash) (tx_hash : Transaction -> Hash).
Context (verify_pow : Hash -> Z -> Z -> Z -> Hash -> Hash -> Hash -> Z -> bool).
Context (clock : option Z) (testnet : bool).
Context (checkpoints : NetworkType -> list (Z * Hash)).
Context (genesis : NetworkType -> Block) (expected : NetworkType -> Hash).
Implicit Types (c : Chain RF P2) (p : Mempool) (tb : Block).

(** Commitments to an amount without blinding are points other than the
    identity. *)
Definition commits_properly : Prop :=
  forall v, 0 < v <= u64_max -> proper_point (commit_zero v) = true.

(** The situation of a miner: the tip block, a well-formed pool, a target for
    the next block, a payout output, room for the coinbase in the headroom. *)
Record mining c p tb (now : Z) (tgt : Hash) (out : TxOutput) (bits : SignalBits) : Prop := {
  mi_tip : tip_block blake3 c tb;
  mi_above : 0 < tip_height (c_tip c) < 2 ^ 62;
  mi_bytes : Forall is_u8 (h_target (header tb));
  mi_pool : pool_wf tx_hash wire_size p;
  mi_target : next_target c = Some tgt;
  mi_time : 0 <= tip_timestamp (c_tip c) /\ template_timestamp c now <= i64_max;
  mi_amount : encrypted_amount out = le_bytes 8 (claimed testnet c p)
    /\ commitment out = commit_zero (claimed testnet c p);
  mi_fees : Forall (fun tx => is_u64 (fee tx)) (template_transactions testnet c p);
  mi_room : exists cb txs, candidate_txs testnet c p out bits = cb :: txs
    /\ 0 <= wire_size cb <= COINBASE_HEADROOM - 200;
}.

Lemma distributed_nonneg f g : 0 <= f <= u64_max -> 0 <= to_miner (distribute_fee f g).
Proof.
  intros Hf. rewrite distribute_fee_eq by (word_unfold; lia). cbn.
  apply Z.div_pos; [|lia]. unfold miner_pct. destruct g; autounfold with consts; lia.
Qed.

Lemma wrapping_sum_range l : 0 <= wrapping_sum l <= u64_max.
Proof. destruct l; cbn; [word_lia|]. apply wrap64_range. Qed.

Lemma claimed_range c p : 0 <= next_height c <= u64_max -> 0 < claimed testnet c p <= u64_max.
Proof.
  intros Hh. pose proof (reward_bounds _ Hh) as Hr. unfold claimed.
  assert (Hf : 0 <= calculate_claimable_fees testnet (next_height c)
    (template_transactions testnet c p)).
  { unfold calculate_claimable_fees.
    pose proof (wrapping_sum_range (fee <$> template_transactions testnet c p)).
    destruct (_ =? 0); [lia|]. destruct (_ <? _); [lia|]. by apply distributed_nonneg. }
  unfold TAIL_EMISSION, COIN in *. word_lia.
Qed.

Lemma sat_fold_sum l acc :
  0 <= acc -> Forall (fun x => 0 <= x) l ->
  0 <= foldl (fun acc s => sat_add u64_max acc s) acc l <= acc + foldr Z.add 0 l.
Proof.
  intros Ha Hl. revert acc Ha. induction Hl as [|x l Hx Hl IH]; intros acc Ha; cbn; [lia|].
  specialize (IH (sat_add u64_max acc x) ltac:(word_lia)).
  assert (sat_add u64_max acc x <= acc + x) by word_lia. lia.
Qed.

Lemma block_size_bound b :
  block_size wire_size b <= 200 + zsum wire_size (transactions b).
Proof.
  unfold block_size. destruct (sat_fold_sum (wire_size <$> transactions b) 0) as [H0 H1]; [lia| |].
  { apply Forall_fmap, Forall_true. intros tx. cbn. unfold wire_size, zlen. lia. }
  assert (E : foldr Z.add 0 (wire_size <$> transactions b) = zsum wire_size (transactions b)).
  { clear. unfold zsum. induction (transactions b) as [|x l IH]; [done|]. cbn [fmap list_fmap foldr]. f_equal. exact IH. }
  rewrite E in H1. word_lia.
Qed.

Lemma template_valid c p tx :
  tx ∈ template_transactions testnet c p -> chain_validate_transaction testnet c tx = Ok tt.
Proof.
  intros [H _]%list_elem_of_filter. by destruct (chain_validate_transaction testnet c tx) as [[]|].
Qed.

Lemma template_chosen c p :
  pool_wf tx_hash wire_size p ->
  chosen_ok tx_hash wire_size TEMPLATE_BUDGET TEMPLATE_COUNT (template_transactions testnet c p).
Proof.
  intros Hp. unfold template_transactions. apply (chosen_filter tx_hash wire_size).
  apply chosen_template; [done|]. unfold TEMPLATE_BUDGET, MAX_BLOCK_SIZE, COINBASE_HEADROOM. lia.
Qed.

Lemma next_target_gate c p tb now tgt out bits spend nonce r :
  mining c p tb now tgt out bits ->
  validate_difficulty_target (candidate_of blake3 tx_hash testnet c p now tgt out spend bits nonce)
    (Some tb) r = r.
Proof.
  intros [Ht [H0 H1] Hb _ Hn _ _ _ _]. unfold next_target in Hn.
  rewrite wrap64_small in Hn by word_lia. pose proof (tb_window _ _ _ Ht) as Hw.
  destruct (get_difficulty_blocks (view c) (tip_height (c_tip c) + 1)) as [|d [|d' l]] eqn:E;
    [done| |].
  - injection Hw as ->. injection Hn as <-.
    destruct (tb_gate _ _ _ Ht) as [q Hq]; [by rewrite (tb_height _ _ _ Ht)|].
    by apply (gate_accepts_same _ _ q).
  - eapply gate_accepts_retarget; [|exact Hw|done|exact Hn]. cbn. lia.
Qed.

Lemma candidate_built c p tb now tgt out bits spend nonce :
  commits_properly -> mining c p tb now tgt out bits ->
  well_built blake3 tx_hash wire_size testnet
    (candidate_of blake3 tx_hash testnet c p now tgt out spend bits nonce) tb (c_utxos c)
    (c_network c) (claimed testnet c p).
Proof.
  intros Hc Hmi. pose proof Hmi as [Ht [H0 H1] Hb Hp Hn [Hts0 Hts] [Ea Ec] Hf (cb&txs&Et&Hroom)].
  assert (Hnh : next_height c = tip_height (c_tip c) + 1)
    by (unfold next_height; apply wrap64_small; word_lia).
  pose proof (claimed_range c p ltac:(rewrite Hnh; word_lia)) as Hcl.
  destruct (template_chosen c p Hp) as [C1 C2 C3 C4 C5].
  injection Et as <- <-. split; cbn [header transactions candidate_of network_magic
    h_height h_timestamp prev_hash tx_root checkpoint_vote]; try done.
  - cbn. rewrite (tb_height _ _ _ Ht), Hnh. split; [lia|]. by rewrite wrap64_small by word_lia.
  - by rewrite (tb_hash _ _ _ Ht).
  - rewrite (tb_time _ _ _ Ht). unfold template_timestamp, i64_max in *. word_lia.
  - intros r. by apply next_target_gate.
  - destruct (merkle_root_total blake3 (tx_hash <$> candidate_txs testnet c p out bits)) as [m Em].
    by rewrite Em.
  - etrans; [apply block_size_bound|]. cbn [transactions candidate_of candidate_txs zsum foldr].
    fold (zsum wire_size (template_transactions testnet c p)).
    unfold TEMPLATE_BUDGET in C1. lia.
  - unfold zlen, candidate_txs. cbn [length]. unfold TEMPLATE_COUNT, MAX_TXS_PER_BLOCK in *. lia.
  - apply try_each_ok. intros i tx Htx. apply list_elem_of_lookup_2 in Htx.
    apply elem_of_cons in Htx as [->|Htx]; [done|].
    specialize (C5 tx Htx). unfold preflight_check in C5.
    destruct (is_coinbase tx); [done|]. cbn in C5.
    destruct (validate_transaction_basic wire_size tx); [|done]. cbn in C5.
    destruct (check_tx_privacy tx) as [[]|]; done.
  - do 3 eexists. split; [reflexivity|]. split_and!; try done. intros tx Htx. split.
    + by apply (preflight_facts wire_size), C5.
    + by apply template_valid in Htx.
  - split; [apply Hc; lia|lia].
  - apply reward_bounds. cbn. rewrite Hnh. word_lia.
Qed.

(** The node at the moment of the submission, and in its whole history. *)
Abbreviation node_validator :=
  (consensus_validator blake3 tx_hash wire_size verify_pow (fun _ _ => clock) testnet).
Abbreviation reachable := (reachable (fun clock =>
    consensus_validator blake3 tx_hash wire_size verify_pow clock testnet) (RF := RF) (P2 := P2)
  (header_hash blake3) tx_hash wire_size checkpoints testnet genesis expected []).
Abbreviation run_pool := (run_pool tx_hash wire_size).
Abbreviation conditions :=
  (open_conditions blake3 tx_hash wire_size verify_pow clock testnet).

(** What the proofs assume of a node and its pool: ranges of the Rust types,
    transactions that survive serialisation, a coinbase that fits its
    headroom. *)
Record miner_ready c p (cand : CandidateBlock) : Prop := {
  mr_hash : forall x, is_hash (blake3 x);
  mr_commit : commits_properly;
  mr_node : reachable c;
  mr_height : 0 < tip_height (c_tip c) < 2 ^ 62;
  mr_targets : forall h b, get_block (view c) h = Some b -> is_hash (h_target (header b));
  mr_time : 0 <= tip_timestamp (c_tip c);
  mr_pool : exists max_size ops, 0 <= max_size /\ p = run_pool max_size ops;
  mr_decodes : decodes testnet c p;
  mr_fees : Forall (fun tx => is_u64 (fee tx)) (template_transactions testnet c p);
  mr_room : forall cb, head (cb_transactions cand) = Some cb ->
    wire_size cb <= COINBASE_HEADROOM - 200;
}.

Lemma target_is_hash c tb tgt :
  0 < tip_height (c_tip c) < 2 ^ 62 ->
  tip_block blake3 c tb -> is_hash (h_target (header tb)) -> next_target c = Some tgt -> is_hash tgt.
Proof.
  intros Hh Ht Hb Hn. unfold next_target in Hn. rewrite wrap64_small in Hn by word_lia.
  pose proof (tb_window _ _ _ Ht) as Hw.
  destruct (get_difficulty_blocks _ _) as [|d [|d' l]]; [done|by injection Hw as ->; injection Hn as <-|].
  destruct (calculate_difficulty_some (d :: d' :: l) (tip_height (c_tip c) + 1) _
    ltac:(cbn; lia) Hw) as [comb E]. rewrite E in Hn. injection Hn as <-. apply target_hash.
Qed.

(** A candidate the builder returned is the block described in [candidate_of]. *)
Lemma candidate_mining keys c p now spend view fb bits cand nonce :
  miner_ready c p cand ->
  build_candidate_block blake3 tx_hash testnet (seq_run blake3 Seq.new keys) c p now spend view
    fb bits = Some (Ok cand) ->
  exists tb tgt out, tip_block blake3 c tb /\ mining c p tb now tgt out bits
    /\ into_block cand nonce = candidate_of blake3 tx_hash testnet c p now tgt out spend bits nonce.
Proof.
  intros [Hx Hc Hn Hh Ht Hts (m&ops&Hm&->) Hd Hf Hr] Hb.
  destruct (tip_facts _ _ _ _ _ _ _ _ c Hn) as [tb Htb].
  pose proof (Ht _ _ (tb_stored _ _ _ Htb)) as Htt.
  destruct (next_target c) as [tgt|] eqn:Et;
    [|unfold build_candidate_block, build_template_json in Hb; by rewrite Et in Hb].
  assert (Htime : template_timestamp c now <= i64_max).
  { unfold build_candidate_block, build_template_json in Hb. rewrite Et in Hb.
    cbn [mbind option_bind] in Hb. destruct (Z.leb_spec (template_timestamp c now) i64_max); done. }
  rewrite (candidate_eq blake3 tx_hash testnet keys c _ now spend view fb bits tgt) in Hb; try done.
  - destruct (coinbase_output blake3 spend view (next_height c) _) as [out|] eqn:Eo; [|done].
    injection Hb as <-. exists tb, tgt, out. split_and!; try done.
    split; try done; [apply Htt|by apply run_wf| |].
    + unfold coinbase_output in Eo.
      destruct (coinbase_stealth_address _ _ _ _ _ _) as [[k1 k2]|]; [|done]. by injection Eo as <-.
    + do 2 eexists. split; [reflexivity|]. split; [unfold wire_size, zlen; lia|].
      apply Hr. reflexivity.
  - rewrite <- (tb_hash _ _ _ Htb). unfold header_hash, hash_concat. apply Hx.
  - by eapply target_is_hash.
  - split; [|done]. unfold template_timestamp. word_lia.
Qed.

(** C37: The candidate of a miner is valid on its node exactly when it meets the
    conditions the template and the builder do not look at: the version of the
    height, the clock, the proof of work, the block weight, the fee share and
    the fee floor computed from the size of the whole block, distinct stealth
    addresses and hashes.  Everything else (link, target, Merkle root, size,
    count, privacy policy, key images, every transaction, the open coinbase
    output, the reward bounds) holds by construction. *)
Theorem candidate_valid_iff keys c p now spend vk fb bits cand nonce :
  miner_ready c p cand ->
  build_candidate_block blake3 tx_hash testnet (seq_run blake3 Seq.new keys) c p now spend vk
    fb bits = Some (Ok cand) ->
  let b := into_block cand nonce in
  exists tb, get_block (view c) (tip_hash (c_tip c)) = Some tb
    /\ (valid (validate_block_for_network blake3 tx_hash wire_size verify_pow clock testnet false
          b (Some tb) (c_utxos c) (assume_valid c) (c_network c)) = true
        <-> conditions b tb (assume_valid c) (c_network c) (claimed testnet c p)).
Proof.
  intros Hr Hb b. destruct (candidate_mining keys c p now spend vk fb bits cand nonce Hr Hb)
    as (tb&tgt&out&Htb&Hmi&Eb). exists tb. split; [apply Htb|]. unfold b. rewrite Eb.
  apply validate_exact, candidate_built; [apply Hr|done].
Qed.

(** Admission stores a candidate that the validator accepts: parent, height,
    median time and target are right by construction. *)
Lemma candidate_admitted c p tb now tgt out bits spend nonce now' :
  let b := candidate_of blake3 tx_hash testnet c p now tgt out spend bits nonce in
  mining c p tb now tgt out bits ->
  c_blocks c !! hash_of (header_hash blake3) b = None ->
  db_contains (c_db c) (hash_of (header_hash blake3) b) = false ->
  verify_checkpoint checkpoints (c_network c) (block_height b) (hash_of (header_hash blake3) b)
    <> Some false ->
  valid (validate_block_for_network blake3 tx_hash wire_size verify_pow clock testnet false
    b (Some tb) (c_utxos c) (assume_valid c) (c_network c)) = true ->
  admit_block (BV := node_validator) (header_hash blake3) checkpoints c now' b
  = Ret (store_block (header_hash blake3) c b, Stored (tip_hash (c_tip c)) true).
Proof.
  intros b [Ht [H0 H1] _ _ Hn [Hts0 Hts] _ _ _] Hnew Hdb Hcp Hv. unfold admit_block.
  assert (Hh : block_height b = tip_height (c_tip c) + 1)
    by (unfold b; cbn; unfold next_height; apply wrap64_small; word_lia).
  change (prev_hash (header b)) with (tip_hash (c_tip c)).
  rewrite Hnew, bool_decide_eq_false_2, Hdb by (by intros [? [=]]). cbn [orb].
  rewrite (tb_stored _ _ _ Ht). rewrite bool_decide_eq_false_2 by done. cbn [andb].
  rewrite (tb_height _ _ _ Ht), wrap64_small, Hh by word_lia.
  destruct (Z.eqb_spec (tip_height (c_tip c) + 1) 0); [lia|]. rewrite Z.eqb_refl. cbn [negb].
  assert (Hmain : is_main b (tip_hash (c_tip c)) = true).
  { unfold is_main. change (prev_hash (header b)) with (tip_hash (c_tip c)).
    by rewrite bool_decide_eq_true_2 by done. }
  rewrite Hmain. rewrite Hh in Hcp.
  destruct (verify_checkpoint _ _ _ _) as [[]|]; [|done|]; cbn [validate consensus_validator];
    rewrite Hv.
  all: assert (Hmtp : (if 11 <=? tip_height (c_tip c) + 1
      then match median_time_past_of_lineage (view c) (tip_hash (c_tip c)) with
           | Some mtp => negb (h_timestamp (header b) <=? mtp) | None => true end
      else true) = true)
    by (destruct (Z.leb_spec 11 (tip_height (c_tip c) + 1)); [|done];
        destruct (median_time_past_of_lineage _ _) as [m|] eqn:Em; [|done];
        apply (tb_mtp _ _ _ Ht) in Em; [|rewrite (tb_height _ _ _ Ht); lia];
        rewrite (tb_time _ _ _ Ht) in Em; apply negb_true_iff, Z.leb_gt;
        change (h_timestamp (header b)) with (template_timestamp c now);
        unfold template_timestamp, i64_max in *; word_lia).
  all: rewrite Hmtp; cbn [negb].
  all: destruct (Z.leb_spec 1 (tip_height (c_tip c) + 1)); [|lia].
  all: unfold admission_window; rewrite Hh; cbn [mbind exec_bind].
  all: assert (Hok : target_ok (get_difficulty_blocks (view c) (tip_height (c_tip c) + 1)) b = true)
    by (unfold target_ok; rewrite Hh; destruct (Nat.leb_spec 2 (length
          (get_difficulty_blocks (view c) (tip_height (c_tip c) + 1)))) as [Hl|]; [|done];
        unfold next_target in Hn; rewrite wrap64_small in Hn by word_lia;
        destruct (get_difficulty_blocks (view c) (tip_height (c_tip c) + 1)) as [|d [|d' l]];
        [cbn in Hl; lia|cbn in Hl; lia|]; apply bool_decide_eq_true_2; exact Hn).
  all: by rewrite Hok.
Qed.

(** C36: The composition of miner, pool, validator and chain: a candidate that a node
    without incidents builds from one state of its chain and pool ([miner_ready]) and
    that meets the open conditions extends the main chain of that node. *)
Theorem mined_block_extends keys c p now spend vk fb bits cand nonce now' :
  miner_ready c p cand ->
  build_candidate_block blake3 tx_hash testnet (seq_run blake3 Seq.new keys) c p now spend vk
    fb bits = Some (Ok cand) ->
  let b := into_block cand nonce in
  let h := hash_of (header_hash blake3) b in
  c_blocks c !! h = None -> db_contains (c_db c) h = false ->
  verify_checkpoint checkpoints (c_network c) (block_height b) h <> Some false ->
  (forall tb, get_block (view c) (tip_hash (c_tip c)) = Some tb ->
     conditions b tb (assume_valid c) (c_network c) (claimed testnet c p)) ->
  exists c', add_block (BV := node_validator) (header_hash blake3) tx_hash wire_size checkpoints
      testnet c now' b = Ret (c', Ok Accepted)
    /\ main_chain c' = main_chain c ++ [b].
Proof.
  intros Hr Hb b h Hnew Hdb Hcp Hoc.
  destruct (candidate_mining keys c p now spend vk fb bits cand nonce Hr Hb)
    as (tb&tgt&out&Htb&Hmi&Eb). fold b in Eb.
  assert (Hty : typed_block b).
  { rewrite Eb. pose proof Hmi as [_ Hh _ _ _ _ _ Hf _]. split; [|by constructor; [cbn; word_lia|]].
    cbn. unfold next_height. rewrite wrap64_small by word_lia. lia. }
  assert (Hv : valid (validate_block_for_network blake3 tx_hash wire_size verify_pow clock testnet
    false b (Some tb) (c_utxos c) (assume_valid c) (c_network c)) = true).
  { specialize (Hoc tb (tb_stored _ _ _ Htb)). rewrite Eb in *.
    by eapply validate_exact; [apply candidate_built; [apply Hr|done]|]. }
  destruct (reachable_inv _ _ _ _ _ _ _ _ c (mr_node _ _ _ Hr)) as [s Hi].
  destruct (add_block_inv (BV := node_validator) (header_hash blake3) tx_hash wire_size checkpoints
    testnet c s _ b now' Hi Hty) as (c'&r&E&_&Hu).
  pose proof E as E'. unfold add_block in E'. unfold h in *. rewrite Eb in E', Hnew, Hdb, Hcp, Hv.
  rewrite (candidate_admitted c p tb now tgt out bits spend nonce now') in E' by done.
  rewrite <- Eb in E'. cbn [mbind exec_bind] in E'. unfold commit_block in E'.
  cbn [c_tip store_block set_blocks set_db] in E'. rewrite bool_decide_eq_true_2 in E' by done.
  cbn [negb andb] in E'.
  destruct (accept_extension _ _ _ _ _ _ _) as [c2| |]; cbn [mbind exec_bind] in E'; try done.
  injection E' as <- <-. exists c2. split; [done|].
  destruct Hu as (s'&l'&Hi'&_&->); [by intros (?&[=]&_)|]. by eapply main_chain_eq.
Qed.

(** ** What goes wrong *)

Lemma built_header cache t spend vk fb bits cand :
  build_block_from_template blake3 testnet tx_hash cache t spend vk fb bits = Ok cand ->
  version (cb_header cand) = 1
  /\ exists cb, cb_transactions cand = cb :: parse_template_transactions t.
Proof.
  unfold build_block_from_template. intros (h&_&H)%bind_ok. apply bind_ok in H as (ph&_&H).
  apply bind_ok in H as (ts&_&H). apply bind_ok in H as (pv&_&H). apply bind_ok in H as (tg&_&H).
  apply bind_ok in H as (cb&_&H). apply bind_ok in H as (m&_&H). injection H as <-. eauto.
Qed.

(** The builder writes version 1 into every header: from the activation of
    version 2 at height 50,000 on, whatever the template, no block it builds
    is valid, on any parent and with any nonce. *)
Theorem built_blocks_end_at_v2 cache t spend vk fb bits cand nonce prev u cp net :
  build_block_from_template blake3 testnet tx_hash cache t spend vk fb bits = Ok cand ->
  V2_TX_ACTIVATION_HEIGHT <= h_height (cb_header cand) ->
  valid (validate_block_for_network blake3 tx_hash wire_size verify_pow clock testnet false
    (into_block cand nonce) prev u cp net) = false.
Proof.
  intros [Hver _]%built_header Hh. apply not_true_is_false. intros Hv.
  apply validate_block_sound in Hv. pose proof (ba_version _ _ _ _ _ _ _ _ _ _ Hv) as H.
  cbn in H. rewrite Hver in H. unfold block_version_at_height, block_height in H. cbn in H.
  destruct (Z.leb_spec V2_TX_ACTIVATION_HEIGHT (h_height (cb_header cand))); lia.
Qed.

Lemma addresses_of b :
  (block_addresses b).*2 = concat ((fun tx => stealth_address <$> outputs tx) <$> transactions b).
Proof.
  unfold block_addresses. generalize (transactions b). intros l.
  enough (H : forall g : nat -> nat, (concat (imap (fun i tx =>
      imap (fun j o => (g i, j, stealth_address o)) (outputs tx)) l)).*2
    = concat ((fun tx => stealth_address <$> outputs tx) <$> l)) by apply (H id).
  induction l as [|tx l IH]; intros g; [done|].
  rewrite imap_cons. cbn. rewrite fmap_app. f_equal; [|apply (IH (g ∘ S))].
  rewrite fmap_imap. apply list_eq. intros i. rewrite list_lookup_imap, list_lookup_fmap.
  by destruct (outputs tx !! i).
Qed.

Lemma nodup_concat_once {A B} (f : A -> list B) l x y a :
  NoDup (concat (f <$> l)) -> x ∈ l -> y ∈ l -> a ∈ f x -> a ∈ f y -> x = y.
Proof.
  induction l as [|z l IH]; intros Hn Hx Hy Ha Hb; [set_solver|]. cbn in Hn.
  apply NoDup_app in Hn as (_&Hd&Hn).
  assert (Hin : forall w, w ∈ l -> a ∈ f w -> a ∈ concat (f <$> l)).
  { intros w Hw Hf. apply list_elem_of_In, in_concat. exists (f w).
    split; apply list_elem_of_In; [by apply list_elem_of_fmap_2|done]. }
  apply elem_of_cons in Hx as [->|Hx], Hy as [->|Hy]; try done.
  - destruct (Hd a Ha). eauto.
  - destruct (Hd a Hb). eauto.
  - by apply IH.
Qed.

(** Two transactions that share a stealth address are each valid and both enter
    the template; the block with both is invalid, whatever nonce is found.  The
    pool, the template and the chain compare key images only. *)
Theorem shared_address_poisons keys c p now spend vk fb bits cand tx1 tx2 a nonce prev u cp net :
  decodes testnet c p ->
  build_candidate_block blake3 tx_hash testnet (seq_run blake3 Seq.new keys) c p now spend vk
    fb bits = Some (Ok cand) ->
  tx1 ∈ template_transactions testnet c p -> tx2 ∈ template_transactions testnet c p ->
  tx1 <> tx2 -> a ∈ stealth_address <$> outputs tx1 -> a ∈ stealth_address <$> outputs tx2 ->
  v1_0_12_rules_active net (h_height (cb_header cand)) = true ->
  valid (validate_block_for_network blake3 tx_hash wire_size verify_pow clock testnet false
    (into_block cand nonce) prev u cp net) = false.
Proof.
  intros Hd Hb H1 H2 Hne Ha1 Ha2 Hact. apply not_true_is_false. intros Hv.
  unfold build_candidate_block in Hb.
  destruct (build_template_json testnet c p now) as [t|] eqn:Et; [|done]. injection Hb as Hb.
  apply built_header in Hb as (_&cb&Hc). rewrite (parsed_transactions testnet c p t now Hd Et) in Hc.
  apply validate_block_sound in Hv. pose proof (ba_addresses _ _ _ _ _ _ _ _ _ _ Hv Hact) as Hn.
  rewrite addresses_of in Hn. cbn [into_block transactions] in Hn. rewrite Hc in Hn.
  apply Hne. eapply (nodup_concat_once _ _ tx1 tx2 a Hn); [by right|by right|done|done].
Qed.

Lemma zsum_nonneg {A} (f : A -> Z) l : (forall x, x ∈ l -> 0 <= f x) -> 0 <= zsum f l.
Proof.
  induction l as [|x l IH]; intros Hf; cbn; [done|]. fold (zsum f l).
  pose proof (Hf x ltac:(by left)). specialize (IH ltac:(intros; apply Hf; by right)). lia.
Qed.

Lemma wrapping_sum_exact {A} (f : A -> Z) l :
  (forall x, x ∈ l -> 0 <= f x) -> zsum f l <= u64_max -> wrapping_sum (f <$> l) = zsum f l.
Proof.
  induction l as [|x l IH]; intros Hf Hm; cbn; [done|]. cbn in Hm. fold (zsum f l) in *.
  pose proof (Hf x ltac:(by left)).
  assert (Hr : forall y, y ∈ l -> 0 <= f y) by (intros; apply Hf; by right).
  pose proof (zsum_nonneg f l Hr). rewrite IH by (try done; lia). apply wrap64_small. word_lia.
Qed.

Lemma sat_sum_exact {A} (f : A -> Z) l : forall acc,
  0 <= acc -> (forall x, x ∈ l -> 0 <= f x) -> acc + zsum f l <= u64_max ->
  foldl (fun acc s => sat_add u64_max acc s) acc (f <$> l) = acc + zsum f l.
Proof.
  induction l as [|x l IH]; intros acc Ha Hf Hm; cbn; [lia|]. cbn in Hm. fold (zsum f l) in *.
  pose proof (Hf x ltac:(by left)).
  assert (Hr : forall y, y ∈ l -> 0 <= f y) by (intros; apply Hf; by right).
  pose proof (zsum_nonneg f l Hr). rewrite sat_add_exact by word_lia. rewrite IH; [lia|lia|done|lia].
Qed.

Lemma wire_size_nonneg tx : 0 <= wire_size tx.
Proof. unfold wire_size, zlen. lia. Qed.

(** The builder's share of the fees when the pool's transactions alone are
    below the threshold, and the validator's total. *)
Lemma claimed_uncongested c p :
  let txs := template_transactions testnet c p in
  0 <= next_height c <= u64_max -> pool_wf tx_hash wire_size p ->
  (forall tx, tx ∈ txs -> 0 <= fee tx) ->
  FEE_DISTRIBUTION_HEIGHT testnet <= next_height c ->
  0 < zsum fee txs -> zsum fee txs + reward 0 <= u64_max ->
  zsum wire_size txs * 100 / MAX_BLOCK_SIZE < CONGESTION_THRESHOLD ->
  claimed testnet c p = reward (next_height c) + zsum fee txs * 70 / 100.
Proof.
  intros txs Hh Hp Hfp Hd Hf0 Hfm Hs1. pose proof (reward_bounds (next_height c) Hh) as Hrw.
  destruct (template_chosen c p Hp) as [C1 _ _ _ _]. fold txs in C1.
  assert (Hz : zsum wire_size txs <= u64_max)
    by (unfold TEMPLATE_BUDGET, MAX_BLOCK_SIZE, COINBASE_HEADROOM in C1; word_lia).
  assert (0 < TAIL_EMISSION) by (unfold TAIL_EMISSION, COIN; lia).
  unfold claimed, calculate_claimable_fees. fold txs.
  rewrite !wrapping_sum_exact by (try done; try word_lia; intros; apply wire_size_nonneg).
  destruct (Z.eqb_spec (zsum fee txs) 0); [lia|].
  destruct (Z.ltb_spec (next_height c) (FEE_DISTRIBUTION_HEIGHT testnet)); [lia|].
  destruct (Z.leb_spec CONGESTION_THRESHOLD (zsum wire_size txs * 100 / MAX_BLOCK_SIZE)); [lia|].
  rewrite distribute_fee_eq by word_lia. change (miner_pct false) with 70. cbn [to_miner].
  pose proof (Z.div_le_upper_bound (zsum fee txs * 70) 100 (zsum fee txs) ltac:(lia) ltac:(lia)).
  pose proof (Z.div_pos (zsum fee txs * 70) 100 ltac:(lia) ltac:(lia)).
  apply sat_add_exact. word_lia.
Qed.

Lemma candidate_fees c p now tgt out spend bits nonce :
  let txs := template_transactions testnet c p in
  (forall tx, tx ∈ txs -> 0 <= fee tx) -> zsum fee txs <= u64_max ->
  total_fees (candidate_of blake3 tx_hash testnet c p now tgt out spend bits nonce) = zsum fee txs.
Proof.
  intros txs Hfp Hfm. unfold total_fees, non_coinbase_transactions.
  cbn [candidate_of transactions candidate_txs drop]. rewrite ?drop_0. fold txs.
  rewrite sat_sum_exact; [lia|lia|done|lia].
Qed.

(** The builder computes the congestion from the pool's transactions alone,
    the validator from the whole block.  When the threshold of 80 % lies
    between the two sizes the builder claims the uncongested share of the fees
    and the block is invalid, although both sides were meant to match. *)
Theorem fee_share_mismatch keys c p now spend vk fb bits cand nonce tb :
  miner_ready c p cand ->
  build_candidate_block blake3 tx_hash testnet (seq_run blake3 Seq.new keys) c p now spend vk
    fb bits = Some (Ok cand) ->
  let b := into_block cand nonce in
  let txs := template_transactions testnet c p in
  get_block (view c) (tip_hash (c_tip c)) = Some tb ->
  FEE_DISTRIBUTION_HEIGHT testnet <= block_height b ->
  5 <= zsum fee txs -> zsum fee txs + reward 0 <= u64_max ->
  zsum wire_size txs * 100 / MAX_BLOCK_SIZE < CONGESTION_THRESHOLD
    <= congestion_pct (block_size wire_size b) ->
  valid (validate_block_for_network blake3 tx_hash wire_size verify_pow clock testnet false
    b (Some tb) (c_utxos c) (assume_valid c) (c_network c)) = false.
Proof.
  intros Hr Hb b txs Htb Hd Hf5 Hfm [Hs1 Hs2]. apply not_true_is_false. intros Hv.
  destruct (candidate_mining keys c p now spend vk fb bits cand nonce Hr Hb)
    as (tb'&tgt&out&Ht&Hmi&Eb). rewrite (tb_stored _ _ _ Ht) in Htb. injection Htb as ->.
  fold b in Eb. rewrite Eb in *. apply validate_exact with (v := claimed testnet c p) in Hv;
    [|apply candidate_built; [apply Hr|done]].
  pose proof (oc_share _ _ _ _ _ _ _ _ _ _ _ Hv) as Hsh.
  pose proof (Hmi) as [_ Hh _ Hp _ _ _ Hfee _]. rewrite Forall_forall in Hfee.
  assert (Hfp : forall tx, tx ∈ txs -> 0 <= fee tx)
    by (intros tx Htx; specialize (Hfee tx Htx); word_lia).
  change (block_height _) with (next_height c) in Hd.
  assert (Hnh : 0 <= next_height c <= u64_max)
    by (unfold next_height; rewrite wrap64_small; word_lia).
  pose proof (reward_bounds _ Hnh) as Hrw. assert (0 < TAIL_EMISSION) by (vm_compute; done).
  pose proof (claimed_uncongested c p Hnh Hp Hfp Hd ltac:(fold txs; lia) Hfm Hs1) as Hcl.
  pose proof (candidate_fees c p now tgt out spend bits nonce Hfp ltac:(fold txs; lia)) as Htf.
  fold txs in Hcl, Htf.
  unfold max_coinbase in Hsh. rewrite Htf, Hcl in Hsh.
  change (block_height _) with (next_height c) in Hsh.
  destruct (Z.leb_spec (FEE_DISTRIBUTION_HEIGHT testnet) (next_height c)); [|lia].
  destruct (Z.ltb_spec 0 (zsum fee txs)); [|lia]. cbn [andb] in Hsh.
  apply Z.leb_le in Hs2. rewrite Hs2 in Hsh. rewrite distribute_fee_eq in Hsh by word_lia.
  change (miner_pct true) with 50 in Hsh. cbn [to_miner] in Hsh.
  apply checked_add_some in Hsh as [Hsh _].
  pose proof (Z.div_mod (zsum fee txs * 70) 100 ltac:(lia)).
  pose proof (Z.mod_pos_bound (zsum fee txs * 70) 100 ltac:(lia)).
  pose proof (Z.div_mod (zsum fee txs * 50) 100 ltac:(lia)).
  pose proof (Z.mod_pos_bound (zsum fee txs * 50) 100 ltac:(lia)). lia.
Qed.
End candidate.

(** ** Witnesses, on the node of [MiningDemo] *)

Definition block_target_ok (b : Block) : bool :=
  bool_decide (length (h_target (header b)) = 32%nat)
  && forallb (fun x => (0 <=? x) && (x <? 256)) (h_target (header b)).

Lemma map_checked (m : gmap Hash Block) h b :
  forallb block_target_ok (map_to_list m).*2 = true -> m !! h = Some b ->
  is_hash (h_target (header b)).
Proof.
  intros H E. rewrite forallb_forall in H. specialize (H b).
  assert (Hin : b ∈ (map_to_list m).*2).
  { apply list_elem_of_fmap. exists (h, b). split; [done|]. by apply elem_of_map_to_list. }
  apply list_elem_of_In, H, andb_true_iff in Hin as [H1%bool_decide_eq_true H2]. split; [done|].
  apply Forall_forall. intros x Hx. rewrite forallb_forall in H2.
  specialize (H2 x ltac:(by apply list_elem_of_In)). unfold is_u8. lia.
Qed.

Lemma targets_checked (v : ChainView) h b :
  forallb block_target_ok (map_to_list (blocks v)).*2 = true ->
  forallb block_target_ok (map_to_list (from_option db_blocks ∅ (db v))).*2 = true ->
  get_block v h = Some b -> is_hash (h_target (header b)).
Proof.
  unfold get_block. intros H1 H2. destruct (blocks v !! h) as [b'|] eqn:E.
  - intros [= ->]. exact (map_checked _ _ _ H1 E).
  - destruct (db v) as [d|]; [|done]. intros E'. exact (map_checked _ _ _ H2 E').
Qed.

Lemma dig_template : template_transactions false dig_node dig_pool = [].
Proof. vm_compute. reflexivity. Qed.

Lemma dig_room : from_option wire_size 0 (head (cb_transactions dig_cand)) = 100.
Proof. vm_compute. reflexivity. Qed.

Lemma dig_tip :
  tip_height (c_tip dig_node) = 1 /\ tip_timestamp (c_tip dig_node) = 1600000120.
Proof. vm_compute. split; reflexivity. Qed.

Lemma dig_ready :
  miner_ready dig_hash dig_tx_hash mint_pow false
    dig_checkpoints dig_genesis dig_expected dig_node dig_pool dig_cand.
Proof.
  destruct dig_tip as [Hh Ht]. split.
  - apply dig_is_hash.
  - intros v Hv. unfold proper_point. cbn. apply negb_true_iff, bool_decide_eq_false. lia.
  - apply dig_node_reachable.
  - rewrite Hh. lia.
  - intros h b. apply targets_checked; vm_compute; reflexivity.
  - rewrite Ht. lia.
  - exists 100000, []. split; [lia|reflexivity].
  - unfold decodes. rewrite dig_template. intros tx Htx.
    destruct (not_elem_of_nil _ Htx).
  - rewrite dig_template. constructor.
  - intros cb Hcb. pose proof dig_room as Hr. rewrite Hcb in Hr. cbn [from_option] in Hr.
    rewrite Hr. unfold COINBASE_HEADROOM. lia.
Qed.

Lemma dig_built :
  build_candidate_block dig_hash dig_tx_hash false (seq_run dig_hash Seq.new []) dig_node dig_pool
    1650000000 [3] [4] Mainnet 0 = Some (Ok dig_cand).
Proof.
  assert (H : (match build_candidate_block dig_hash dig_tx_hash false
      (seq_run dig_hash Seq.new []) dig_node dig_pool 1650000000 [3] [4] Mainnet 0 with
    | Some (Ok _) => true | _ => false end) = true) by (vm_compute; reflexivity).
  unfold dig_cand, dig_build.
  destruct (build_candidate_block _ _ _ _ _ _ _ _ _ _ _) as [[x|]|]; done.
Qed.

Abbreviation dig_conditions n tb := (open_conditions dig_hash dig_tx_hash wire_size mint_pow
  (Some 1700000000) false (into_block dig_cand n) tb (assume_valid dig_node)
  (c_network dig_node) (claimed false dig_node dig_pool)).
Abbreviation dig_valid n tb := (valid (validate_block_for_network dig_hash dig_tx_hash wire_size
  mint_pow (Some 1700000000) false false (into_block dig_cand n) (Some tb) (c_utxos dig_node)
  (assume_valid dig_node) (c_network dig_node))).

Lemma dig_parent : get_block (view dig_node) (tip_hash (c_tip dig_node)) = Some dig_first.
Proof. vm_compute. reflexivity. Qed.
Lemma dig_valid_7 : dig_valid 7 dig_first = true.
Proof. vm_compute. reflexivity. Qed.
Lemma dig_valid_8 : dig_valid 8 dig_first = false.
Proof. vm_compute. reflexivity. Qed.

(** With nonce 7 the conditions hold, with nonce 8 they do not. *)
Lemma candidate_valid_iff_witness : dig_conditions 7 dig_first /\ ~ dig_conditions 8 dig_first.
Proof.
  pose proof (fun n => candidate_valid_iff (WL := dig_wire_laws) dig_hash dig_tx_hash mint_pow
    (Some 1700000000) false dig_checkpoints dig_genesis dig_expected [] dig_node dig_pool 1650000000
    [3] [4] Mainnet 0 dig_cand n dig_ready dig_built) as H.
  rewrite dig_parent in H. split.
  - destruct (H 7) as (tb&[= <-]&H7). exact (proj1 H7 dig_valid_7).
  - destruct (H 8) as (tb&[= <-]&H8). intros H'. pose proof (proj2 H8 H') as H9.
    rewrite dig_valid_8 in H9. discriminate H9.
Defined.

Lemma dig_unknown : let h := hash_of (header_hash dig_hash) (into_block dig_cand 7) in
  c_blocks dig_node !! h = None /\ db_contains (c_db dig_node) h = false
  /\ verify_checkpoint dig_checkpoints (c_network dig_node) (block_height (into_block dig_cand 7)) h
     = None.
Proof. vm_compute. split_and!; reflexivity. Qed.

Lemma mined_block_extends_witness :
  exists c', dig_add dig_node 0 (into_block dig_cand 7) = Ret (c', Ok Accepted)
    /\ main_chain c' = main_chain dig_node ++ [into_block dig_cand 7].
Proof.
  destruct dig_unknown as (H1&H2&H3).
  apply (mined_block_extends (WL := dig_wire_laws) dig_hash dig_tx_hash mint_pow
    (Some 1700000000) false dig_checkpoints dig_genesis dig_expected [] dig_node dig_pool 1650000000
    [3] [4] Mainnet 0 dig_cand 7 0 dig_ready dig_built H1 H2).
  - rewrite H3. discriminate.
  - intros tb Htb. rewrite dig_parent in Htb. injection Htb as <-.
    destruct (candidate_mining (WL := dig_wire_laws) dig_hash dig_tx_hash mint_pow
      false dig_checkpoints dig_genesis dig_expected [] dig_node dig_pool
      1650000000 [3] [4] Mainnet 0 dig_cand 7 dig_ready dig_built) as (tb&tgt&out&Ht&Hm&E).
    pose proof (tb_stored _ _ _ Ht) as Htb. rewrite dig_parent in Htb. injection Htb as <-.
    rewrite E. apply (validate_exact dig_hash dig_tx_hash wire_size mint_pow (Some 1700000000) false
      _ _ (c_utxos dig_node)); [|rewrite <- E; exact dig_valid_7].
    apply candidate_built; [exact (mr_commit _ _ _ _ _ _ _ _ _ _ dig_ready)|exact Hm].
Defined.

(** A template for height 50,000. *)
Definition v2_template : Template :=
  mkTemplate (Some 50000) (Some (replicate 32 1)) (Some 1650000000) None
    (Some (u128_to_target (2 ^ 118))) None None.
Definition v2_cand : CandidateBlock :=
  match build_block_from_template dig_hash false dig_tx_hash Seq.new v2_template [3] [4] Mainnet 0
  with Ok cand => cand | Err _ => dig_cand end.

Lemma v2_built : build_block_from_template dig_hash false dig_tx_hash Seq.new v2_template [3] [4]
    Mainnet 0 = Ok v2_cand /\ h_height (cb_header v2_cand) = 50000.
Proof. vm_compute. split; reflexivity. Qed.

Lemma built_blocks_end_at_v2_witness :
  valid (validate_block_for_network dig_hash dig_tx_hash wire_size mint_pow (Some 1700000000) false
    false (into_block v2_cand 7) None UtxoSet_new None Mainnet) = false.
Proof.
  apply (built_blocks_end_at_v2 (CV := dig_curve) dig_hash dig_tx_hash mint_pow (Some 1700000000)
    false Seq.new v2_template [3] [4] Mainnet 0 v2_cand 7); [apply v2_built|].
  rewrite (proj2 v2_built). unfold V2_TX_ACTIVATION_HEIGHT. lia.
Defined.

Lemma two_members {A} (l : list A) x y (P : A -> Prop) :
  l = [x; y] \/ l = [y; x] -> P x -> P y -> x ∈ l /\ y ∈ l /\ forall z, z ∈ l -> P z.
Proof. intros [-> | ->] Hx Hy; (split_and!; [set_solver..|]); intros z Hz; set_solver. Qed.

Lemma late_template :
  template_transactions false dig_late dig_crowd = [dig_pay 50; dig_pay 60]
  \/ template_transactions false dig_late dig_crowd = [dig_pay 60; dig_pay 50].
Proof. vm_compute. (left; reflexivity) || (right; reflexivity). Qed.

Definition late_cand : CandidateBlock := dig_build dig_late dig_crowd.

Lemma late_built :
  build_candidate_block dig_hash dig_tx_hash false (seq_run dig_hash Seq.new []) dig_late dig_crowd
    1650000000 [3] [4] Mainnet 0 = Some (Ok late_cand)
  /\ v1_0_12_rules_active Mainnet (h_height (cb_header late_cand)) = true.
Proof.
  split; [|vm_compute; reflexivity].
  assert (H : (match build_candidate_block dig_hash dig_tx_hash false
      (seq_run dig_hash Seq.new []) dig_late dig_crowd 1650000000 [3] [4] Mainnet 0 with
    | Some (Ok _) => true | _ => false end) = true) by (vm_compute; reflexivity).
  unfold late_cand, dig_build. destruct (build_candidate_block _ _ _ _ _ _ _ _ _ _ _) as [[x|]|].
  - reflexivity.
  - discriminate H.
  - discriminate H.
Qed.

(** The payments 50 and 60 pay to the addresses 700 and 701. *)
Lemma shared_address_poisons_witness :
  valid (validate_block_for_network dig_hash dig_tx_hash wire_size mint_pow (Some 1700000000) false
    false (into_block late_cand 7) None dig_utxos None Mainnet) = false.
Proof.
  destruct late_built as [Hb Ha].
  destruct (two_members _ _ _ (fun tx => borsh_tx_of (borsh_tx tx) = Some tx) late_template)
    as (H1&H2&Hd); [reflexivity|reflexivity|].
  apply (shared_address_poisons (WL := dig_wire_laws) dig_hash dig_tx_hash mint_pow
    (Some 1700000000) false [] dig_late dig_crowd 1650000000 [3] [4] Mainnet 0 late_cand
    (dig_pay 50) (dig_pay 60) [700] 7 None dig_utxos None Mainnet Hd Hb H1 H2);
    [discriminate|by left|by left|exact Ha].
Defined.
