(* ===== verification/MiningSearch.v ===== *)
(** * The nonce search and the submission

    The threads of [search_nonce] cover the nonce space and report only nonces
    whose hash meets the target; such a nonce makes the candidate pass
    [verify_pow].  After a submission the pool holds nothing the block
    confirmed or the new chain refuses. *)

From stdpp Require Import prelude gmap strings sorting.
From Stdlib Require Import ZArith Lia.
From S2P Require Import Prelude Constants Encoding Emission FeeMarket Difficulty.
From S2P Require Import ForkSignal Block Utxo ForkChoice Chain ChainDemo ChainLedger ChainSafety.
From S2P Require Import ChainNode ChainMoney TxValidation BlockValidation.
From S2P Require Import Mempool MempoolRules MempoolSafety Pow PowRules Mining MiningRules.
From S2P Require Import MiningDemo.

Local Open Scope Z_scope.

(** ** One worker *)

Section search.
Context (hash : Z -> Hash) (hash_batch : list Z -> option (list Hash)) (target : Hash).

(** A batch that is hashed is hashed element by element. *)
Definition batch_hashes : Prop := forall l hs, hash_batch l = Some hs -> hs = hash <$> l.
Definition hits (n : Z) : Prop := meets_difficulty (hash n) target = true.

Lemma first_hit_some l n : first_hit target (hash <$> l) l = Some n -> n ∈ l /\ hits n.
Proof.
  induction l as [|x l IH]; [done|]. cbn. destruct (meets_difficulty (hash x) target) eqn:E.
  - intros [= <-]. split; [by left|done].
  - intros [H1 H2]%IH. split; [by right|done].
Qed.

Lemma first_hit_none l n : first_hit target (hash <$> l) l = None -> n ∈ l -> ~ hits n.
Proof.
  induction l as [|x l IH]; [set_solver|]. cbn. unfold hits.
  destruct (meets_difficulty (hash x) target) eqn:E; [done|].
  intros H [->|Hn]%elem_of_cons; [congruence|]. by apply IH.
Qed.

Lemma worker_sound rounds : forall nonce end_ n,
  batch_hashes -> 0 <= nonce -> end_ <= u64_max ->
  worker rounds hash_batch target nonce end_ = Some n -> nonce <= n < end_ /\ hits n.
Proof.
  induction rounds as [|rounds IH]; intros nonce end_ n Hb H0 He; [done|]. cbn.
  destruct (Z.ltb_spec nonce end_) as [Hlt|]; [|done].
  set (stop := Z.min (sat_add u64_max nonce BATCH) end_).
  assert (Hs : nonce < stop <= end_) by (unfold stop, BATCH; word_lia).
  assert (Hnext : worker rounds hash_batch target
    (sat_add u64_max nonce (zlen (seqZ nonce (stop - nonce)))) end_ = Some n ->
    nonce <= n < end_ /\ hits n).
  { intros Hw. apply IH in Hw as [Hr Hh]; [|done|unfold zlen; word_lia|done].
    split; [|done]. unfold zlen in Hr. rewrite length_seqZ in Hr. word_lia. }
  destruct (hash_batch (seqZ nonce (stop - nonce))) as [hs|] eqn:E; [|done]. cbn.
  apply Hb in E as ->. destruct (first_hit _ _ _) as [m|] eqn:Em; [|done].
  intros [= <-]. apply first_hit_some in Em as [Hm Hh]. apply elem_of_seqZ in Hm. split; [lia|done].
Qed.

Lemma worker_complete rounds : forall nonce end_ n,
  batch_hashes -> (forall l, is_Some (hash_batch l)) -> 0 <= nonce -> end_ <= u64_max ->
  n < nonce + BATCH * Z.of_nat rounds -> nonce <= n < end_ -> hits n ->
  is_Some (worker rounds hash_batch target nonce end_).
Proof.
  induction rounds as [|rounds IH]; intros nonce end_ n Hb Ht H0 He Hr Hn Hh; [lia|]. cbn.
  destruct (Z.ltb_spec nonce end_) as [Hlt|]; [|lia].
  set (stop := Z.min (sat_add u64_max nonce BATCH) end_).
  assert (Hs : nonce < stop <= end_) by (unfold stop, BATCH; word_lia).
  destruct (Ht (seqZ nonce (stop - nonce))) as [hs E]. rewrite E. cbn. apply Hb in E as ->.
  destruct (first_hit _ _ _) as [m|] eqn:Em; [by eexists|].
  assert (Hlen : zlen (seqZ nonce (stop - nonce)) = stop - nonce)
    by (unfold zlen; rewrite length_seqZ; lia).
  assert (Hst : stop <= n).
  { destruct (Z.le_gt_cases stop n) as [|Hst]; [done|]. exfalso.
    eapply (first_hit_none _ n); [exact Em|by apply elem_of_seqZ; lia|done]. }
  rewrite Hlen. apply (IH _ _ n); try done; unfold stop, BATCH in *; word_lia.
Qed.

(** ** The threads *)

Lemma range_bounds n base tid :
  (tid < n)%nat -> Z.of_nat n <= u64_max ->
  0 <= (worker_range n base tid).1 /\ (worker_range n base tid).2 <= u64_max.
Proof.
  intros Ht Hn. unfold worker_range. cbn. split; [apply wrap64_range|].
  destruct (Nat.eqb_spec (S tid) n); word_lia.
Qed.

(** The nonces that some thread tries if it is not stopped. *)
Definition in_slice (n : nat) (base : Z) (tid : nat) (x : Z) : Prop :=
  (worker_range n base tid).1 <= x < (worker_range n base tid).2.
Definition tried (n : nat) (base x : Z) : Prop := exists tid, (tid < n)%nat /\ in_slice n base tid x.

(** Without an offset the slices cover every nonce but the last. *)
Lemma ranges_cover n x :
  (0 < n)%nat -> Z.of_nat n <= u64_max -> 0 <= x < u64_max ->
  tried n 0 x.
Proof.
  intros Hn Hm Hx. unfold tried, in_slice, worker_range. set (slice := u64_max / Z.of_nat n).
  assert (Hs : 1 <= slice) by (apply Z.div_le_lower_bound; lia).
  assert (Hsn : Z.of_nat n * slice <= u64_max) by (apply Z.mul_div_le; lia).
  set (q := x / slice).
  pose proof (Z.div_mod x slice ltac:(lia)) as Hd. fold q in Hd.
  pose proof (Z.mod_pos_bound x slice ltac:(lia)) as Hb.
  assert (0 <= q) by (apply Z.div_pos; lia).
  assert (Hk : forall k, 0 <= k <= Z.of_nat n -> 0 <= k * slice <= u64_max) by nia.
  destruct (Z.le_gt_cases (Z.of_nat n) q) as [Hq|Hq].
  - exists (n - 1)%nat. split; [lia|]. cbn [fst snd]. pose proof (Hk (Z.of_nat (n - 1)) ltac:(lia)).
    assert (Z.of_nat (n - 1) * slice <= q * slice) by (apply Z.mul_le_mono_nonneg_r; lia).
    destruct (Nat.eqb_spec (S (n - 1)) n); [|lia].
    rewrite sat_mul_exact, Z.add_0_r, wrap64_small by word_lia. lia.
  - exists (Z.to_nat q). split; [lia|]. cbn [fst snd]. rewrite Z2Nat.id by lia.
    pose proof (Hk q ltac:(lia)). pose proof (Hk (q + 1) ltac:(lia)).
    rewrite sat_mul_exact, Z.add_0_r, wrap64_small by word_lia. split; [lia|].
    destruct (Nat.eqb_spec (S (Z.to_nat q)) n); [lia|]. rewrite sat_mul_exact by lia. lia.
Qed.

(** One thread tries the nonces from the offset to the last but one. *)
Lemma one_thread_tried base x : 0 <= base <= u64_max -> tried 1 base x <-> base <= x < u64_max.
Proof.
  intros Hb. unfold tried, in_slice.
  assert (E : worker_range 1 base 0 = (base, u64_max)).
  { unfold worker_range. cbn [fst snd Nat.eqb Z.of_nat]. f_equal.
    rewrite Z.div_1_r. change (sat_mul u64_max 0 u64_max) with 0. apply wrap64_small. word_lia. }
  split.
  - intros ([|tid]&Ht&Hr); [|lia]. by rewrite E in Hr.
  - intros Hx. exists O. split; [lia|]. by rewrite E.
Qed.

(** C38: What the search finds.  A nonce it reports meets the target and lies in the slice
    of one of the threads, whatever the offset, the schedule of the threads and the
    batches that failed.  Conversely, for any offset, if every batch is hashed and the
    thread in whose slice a solution lies is not stopped before it reaches it, the
    search reports a nonce.  The slices cover every nonce but [u64::MAX] when the offset
    is zero; with an offset nonces are left out: one thread tries exactly those from the
    offset on ([one_thread_tried], [offset_search_misses]). *)
Theorem search_nonce_exact threads base arrivals :
  let n := Nat.max threads 1 in
  batch_hashes -> Z.of_nat n <= u64_max -> Forall (fun a => (a.1 < n)%nat) arrivals ->
  (forall x, search_nonce hash_batch target threads base arrivals = Some x ->
     hits x /\ tried n base x)
  /\ (forall x tid rounds, (forall l, is_Some (hash_batch l)) ->
      in_slice n base tid x -> (tid, rounds) ∈ arrivals ->
      x < (worker_range n base tid).1 + BATCH * Z.of_nat rounds -> hits x ->
      is_Some (search_nonce hash_batch target threads base arrivals))
  /\ (forall x, 0 <= x < u64_max -> tried n 0 x).
Proof.
  intros n Hb Hn Ha. unfold search_nonce. fold n.
  set (f := fun a : nat * nat => _). rewrite Forall_forall in Ha. split; [|split].
  - intros x Hx. apply head_Some_elem_of, list_elem_of_omap in Hx as ([tid rounds]&Hin&Hw).
    specialize (Ha _ Hin). cbn in Ha. unfold f in Hw. cbn [fst snd] in Hw.
    destruct (range_bounds n base tid Ha Hn) as [H0 H1].
    destruct (worker_range n base tid) as [start end_] eqn:E. cbn in H0, H1.
    destruct (worker_sound rounds start end_ x Hb H0 H1 Hw). split; [done|].
    exists tid. split; [done|]. unfold in_slice. by rewrite E.
  - intros x tid rounds Ht Hr Hin Hro Hh. pose proof (Ha _ Hin) as Htid. cbn in Htid.
    destruct (range_bounds n base tid Htid Hn) as [H0 H1]. unfold in_slice in Hr.
    assert (Hw : is_Some (f (tid, rounds))).
    { unfold f. cbn [fst snd]. destruct (worker_range n base tid) as [start end_]. cbn in *.
      by apply (worker_complete _ _ _ x); try done; lia. }
    destruct Hw as [y Hy]. destruct (omap f arrivals) as [|z l] eqn:E; [|by eexists].
    exfalso. assert (y ∈ omap f arrivals) as Hm by (apply list_elem_of_omap; eauto).
    rewrite E in Hm. set_solver.
  - intros x Hx. apply ranges_cover; lia.
Qed.
End search.

(** ** From the engine to the proof of work *)

Section work.
Context `{RL : RandomXLib} {randomx : Hash -> list Z -> list Z} `{!RandomXLaws randomx}.
Context (windows light : bool) (genesis : list Z) (blake3 : list Z -> Hash).
Context `{W : Wire} `{CV : Curve} {CR : Crypto} (testnet : bool) (tx_hash : Transaction -> Hash).

(** Every batch is answered by the engine, in whatever state it is then. *)
Definition engine_batches (anchor root : Hash) (height : Z)
    (hash_batch : list Z -> option (list Hash)) : Prop :=
  forall l hs, hash_batch l = Some hs -> exists ops w t now,
    (compute_pow_hash_batch windows light genesis blake3
       (engine_run windows light engine_new ops) w t now anchor l root height).1 = Ok hs.

Lemma engine_batch_hashes anchor root height hash_batch :
  engine_batches anchor root height hash_batch ->
  batch_hashes (fun n => randomx (randomx_key_for_height blake3 genesis height)
    (pow_input blake3 anchor n root)) hash_batch.
Proof.
  intros He l hs Hl. destruct (He l hs Hl) as (ops&w&t&now&H).
  assert (Hs : engine_ok (engine_run windows light engine_new ops))
    by apply engine_run_ok, engine_new_ok.
  unfold compute_pow_hash_batch in H. destruct l as [|n l]; [by injection H as <-|].
  apply (batch_sound windows light) in H as ->; [|done]. by rewrite <- list_fmap_compose.
Qed.

(** The anchor of a built header is the one [verify_pow] recomputes. *)
Lemma built_anchor keys t spend vk fb bits cand :
  build_block_from_template blake3 testnet tx_hash (seq_run blake3 Seq.new keys) t spend vk fb
    bits = Ok cand ->
  let h := cb_header cand in
  anchor h = mixed_hash (fresh_anchor blake3 (prev_hash h, h_height h, h_timestamp h))
  /\ algorithm h = 0.
Proof.
  unfold build_block_from_template. intros (h&_&H)%bind_ok. apply bind_ok in H as (ph&_&H).
  apply bind_ok in H as (ts&_&H). apply bind_ok in H as (pv&_&H). apply bind_ok in H as (tg&_&H).
  apply bind_ok in H as (cb&_&H). apply bind_ok in H as (m&_&H). injection H as <-.
  cbn [cb_header anchor prev_hash h_height h_timestamp algorithm].
  destruct (full_anchor_fresh blake3 (seq_run blake3 Seq.new keys) pv h (wrap64 ts)) as [-> _];
    [apply run_seq, new_seq|done].
Qed.

(** C39: A nonce found for a candidate proves its work: the block with that nonce
    passes the reference verdict of [verify_pow]. *)
Theorem found_nonce_proves_work keys t spend vk fb bits cand hash_batch threads base arrivals n :
  build_block_from_template blake3 testnet tx_hash (seq_run blake3 Seq.new keys) t spend vk fb
    bits = Ok cand ->
  let '(a, root, height) := pow_inputs cand in
  engine_batches a root height hash_batch ->
  Z.of_nat (Nat.max threads 1) <= u64_max ->
  Forall (fun a => (a.1 < Nat.max threads 1)%nat) arrivals ->
  search_nonce hash_batch (h_target (cb_header cand)) threads base arrivals = Some n ->
  let h := header (into_block cand n) in
  pow_verdict (randomx := randomx) genesis blake3 (prev_hash h) (h_height h) (h_timestamp h)
    (nonce h) (tx_root h) (h_target h) (anchor h) (algorithm h) = Ok tt.
Proof.
  intros [Ea Eg]%built_anchor. unfold pow_inputs. intros He Hn Ha Hs.
  apply engine_batch_hashes in He.
  unfold search_nonce in Hs. apply head_Some_elem_of, list_elem_of_omap in Hs as ([tid r]&Hin&Hw).
  rewrite Forall_forall in Ha. specialize (Ha _ Hin). cbn [fst snd] in Ha, Hw.
  destruct (range_bounds (Nat.max threads 1) base tid Ha Hn) as [H0 H1].
  destruct (worker_range (Nat.max threads 1) base tid) as [start end_]. cbn in H0, H1.
  destruct (worker_sound _ _ _ r start end_ n He H0 H1 Hw) as [_ Hh]. unfold hits in Hh.
  unfold pow_verdict. cbn [into_block header set_nonce prev_hash h_height h_timestamp nonce tx_root
    h_target anchor algorithm].
  rewrite <- Ea, Eg, bool_decide_eq_true_2 by done. cbn [negb]. by rewrite Hh.
Qed.
End work.

(** ** The submission *)

Section submit.
Context {RF P2 : Type} `{!FinalityGate RF} `{!FinalityFeed RF} `{!Phase2Stores P2}.
Context `{W : Wire} {CR : Crypto} {V : Verdicts} {BV : BlockValidator}.
Context (blake3 : list Z -> Hash) (tx_hash : Transaction -> Hash).
Context (checkpoints : NetworkType -> list (Z * Hash)) (testnet : bool).
Implicit Types (c : Chain RF P2) (p : Mempool) (b : Block).

Lemma shadow_evict_lookup p now validate h e :
  p_transactions (shadow_evict_invalid p now validate) !! h = Some e <->
  p_transactions p !! h = Some e /\ validate (me_tx e) = Ok tt.
Proof.
  unfold shadow_evict_invalid. rewrite remove_all_lookup. case_bool_decide as Hin.
  - apply hashes_where_elem in Hin as (e'&He&Hv). split; [done|]. intros [He' Hok].
    rewrite He in He'. injection He' as ->. by rewrite Hok in Hv.
  - split; [|naive_solver]. intros He. split; [done|].
    destruct (validate (me_tx e)) as [[]|] eqn:Ev; [done|]. destruct Hin.
    apply hashes_where_elem. exists e. by rewrite Ev.
Qed.

Definition taken (r : result chain_error BlockStatus) : bool :=
  match r with Ok Accepted | Ok AcceptedFork | Ok (AcceptedReorg _) => true | _ => false end.

(** Whatever the chain answers, the pool stays well formed; a block that is not
    taken leaves it alone; one that is taken leaves only transactions that the
    chain, as it is then, accepts for the next block, and without a
    reorganisation none of the block's own.  This includes a block that was only
    stored as a fork, whose transactions the main chain has not confirmed. *)
Theorem submission_aligns_pool c max_size ops now b attempts c' p' r :
  let p := run_pool tx_hash wire_size max_size ops in
  0 <= max_size ->
  submit_mined_block blake3 tx_hash checkpoints testnet c p now b attempts = Ret (c', p', r) ->
  pool_wf tx_hash wire_size p' /\ (taken r = false -> p' = p)
  /\ (taken r = true -> forall h e, p_transactions p' !! h = Some e ->
      chain_validate_transaction testnet c' (me_tx e) = Ok tt
      /\ (r = Ok Accepted \/ r = Ok AcceptedFork -> h ∉ tx_hash <$> transactions b)).
Proof.
  intros p Hm. pose proof (run_wf tx_hash wire_size max_size ops Hm) as Hp. fold p in Hp.
  unfold submit_mined_block.
  destruct (add_block _ _ _ _ _ _ _ _) as [[c1 r1]| |]; cbn [mbind exec_bind]; try done.
  set (q := remove_confirmed tx_hash p now (transactions b)).
  assert (Hq : pool_wf tx_hash wire_size q)
    by exact (step_wf tx_hash wire_size p (OpConfirm now (transactions b)) Hp).
  set (align := fun p => shadow_evict_invalid (set_height p now (tip_height (c_tip c1))) now
                           (chain_validate_transaction testnet c1)).
  assert (Hal : forall q, pool_wf tx_hash wire_size q -> pool_wf tx_hash wire_size (align q)
    /\ forall h e, p_transactions (align q) !! h = Some e ->
         chain_validate_transaction testnet c1 (me_tx e) = Ok tt
         /\ p_transactions q !! h = Some e).
  { intros q' Hq'. split.
    - apply (step_wf tx_hash wire_size _ (OpShadowEvict now _)).
      exact (step_wf tx_hash wire_size q' (OpSetHeight now _) Hq').
    - intros h e [He Hv]%shadow_evict_lookup. split; [done|].
      unfold set_height, expire_old_transactions in He. rewrite remove_all_lookup in He.
      by case_bool_decide. }
  assert (Hqc : forall h e, p_transactions q !! h = Some e -> h ∉ tx_hash <$> transactions b).
  { intros h e He Hin. unfold q, remove_confirmed in He. rewrite !remove_all_lookup in He.
    rewrite (bool_decide_eq_true_2 _ Hin) in He. by case_bool_decide. }
  destruct r1 as [[| |txs| | |]|]; intros [= <- <- <-]; cbn [taken]; try done.
  - destruct (Hal q Hq) as [H1 H2]. split_and!; try done. intros _ h e [Hv He]%H2. eauto.
  - destruct (Hal q Hq) as [H1 H2]. split_and!; try done. intros _ h e [Hv He]%H2. eauto.
  - destruct (Hal (restore_orphaned tx_hash wire_size q now ((fun tx => (tx, attempts tx)) <$> txs)).1)
      as [H1 H2]; [by apply restore_wf|]. split_and!; try done. intros _ h e [Hv He]%H2.
    split; [done|]. by intros [|].
Qed.
End submit.

(** ** Witnesses, on the node of [MiningDemo] *)

(** Only nonce 21 has a small hash; two threads and an offset of 5, with which the first
    thread reaches the nonce in its third batch. *)
Definition spot (n : Z) : Hash := if n =? 21 then replicate 32 0 else replicate 32 255.

Lemma search_nonce_exact_witness :
  exists n, search_nonce (fun l => Some (spot <$> l)) (replicate 32 9) 2 5 [(1, 2); (0, 3)]%nat = Some n
    /\ hits spot (replicate 32 9) n /\ tried 2 5 n.
Proof.
  destruct (search_nonce_exact spot (fun l => Some (spot <$> l)) (replicate 32 9) 2 5
    [(1, 2); (0, 3)]%nat) as (Hs&Hc&_).
  - by intros l hs [= <-].
  - cbn. word_lia.
  - repeat constructor.
  - destruct (Hc 21 0%nat 3%nat) as [n Hn].
    + by eexists.
    + split; vm_compute; [discriminate|reflexivity].
    + right. by left.
    + vm_compute. reflexivity.
    + vm_compute. reflexivity.
    + exists n. split; [exact Hn|]. by apply Hs.
Defined.

(** With a high offset the one thread runs to its end and finds nothing, although 21 is
    a solution and nobody set the stop flag. *)
Example offset_search_misses :
  search_nonce (fun l => Some (spot <$> l)) (replicate 32 9) 1 (u64_max - 16) [(0, 100)]%nat = None
  /\ hits spot (replicate 32 9) 21.
Proof. vm_compute. split; reflexivity. Qed.

Definition easy_template : Template :=
  mkTemplate (Some 2) (Some (replicate 32 1)) (Some 1650000000) None (Some (replicate 32 255))
    None None.
Definition easy_cand : CandidateBlock :=
  match build_block_from_template dig_hash false dig_tx_hash (seq_run dig_hash Seq.new [])
          easy_template [3] [4] Mainnet 0
  with Ok cand => cand | Err _ => mkCandidateBlock (header dig_first) [] end.
Definition easy_batch (a root : Hash) (height : Z) (l : list Z) : option (list Hash) :=
  match (compute_pow_hash_batch false false [9] dig_hash (engine_run false false engine_new [])
           true 0 100 a l root height).1 with
  | Ok hs => Some hs
  | Err _ => None
  end.

Lemma easy_batches a root height :
  engine_batches (RL := toy_lib) false false [9] dig_hash a root height (easy_batch a root height).
Proof.
  intros l hs Hl. exists [], true, 0, 100. unfold easy_batch in Hl.
  destruct (compute_pow_hash_batch _ _ _ _ _ _ _ _ _ _ _ _).1; [by injection Hl as ->|done].
Qed.

Lemma easy_built :
  build_block_from_template dig_hash false dig_tx_hash (seq_run dig_hash Seq.new []) easy_template
    [3] [4] Mainnet 0 = Ok easy_cand
  /\ search_nonce (easy_batch (anchor (cb_header easy_cand)) (tx_root (cb_header easy_cand)) 2)
       (replicate 32 255) 1 5 [(0, 1)]%nat = Some 5.
Proof. vm_compute. split; reflexivity. Qed.

Lemma found_nonce_proves_work_witness :
  pow_verdict (randomx := toy_randomx) [9] dig_hash (replicate 32 1) 2 1650000000 5
    (tx_root (cb_header easy_cand)) (replicate 32 255) (anchor (cb_header easy_cand)) 0 = Ok tt.
Proof.
  apply (found_nonce_proves_work (randomx := toy_randomx) (CV := dig_curve) false false [9] dig_hash
    false dig_tx_hash [] easy_template [3] [4] Mainnet 0 easy_cand
    (easy_batch (anchor (cb_header easy_cand)) (tx_root (cb_header easy_cand)) 2)
    1 5 [(0, 1)]%nat 5).
  - exact (proj1 easy_built).
  - apply easy_batches.
  - cbn. word_lia.
  - repeat constructor.
  - exact (proj2 easy_built).
Defined.

(** The pool holds a payment whose ring the chain does not know. *)
Definition stale : list PoolOp := [OpAdd 0 (dig_pay 50)].
Abbreviation dig_submit := (submit_mined_block (BV := dig_validator) dig_hash dig_tx_hash
  dig_checkpoints false dig_node (run_pool dig_tx_hash wire_size 100000 stale) 5
  (into_block dig_cand 7) (fun _ => [])).

Lemma submission_aligns_pool_witness :
  exists c' p', dig_submit = Ret (c', p', Ok Accepted)
    /\ forall h e, p_transactions p' !! h = Some e ->
        chain_validate_transaction false c' (me_tx e) = Ok tt.
Proof.
  assert (H : (match dig_submit with Ret (_, _, Ok Accepted) => true | _ => false end) = true)
    by (vm_compute; reflexivity).
  destruct dig_submit as [[[c' p'] [[]|]]| |] eqn:E; try discriminate H. exists c', p'.
  split; [reflexivity|]. intros h e He.
  destruct (submission_aligns_pool (BV := dig_validator) dig_hash dig_tx_hash dig_checkpoints false
    dig_node 100000 stale 5 (into_block dig_cand 7) (fun _ => []) c' p' (Ok Accepted)
    ltac:(lia) E) as (_&_&Ht).
  exact (proj1 (Ht eq_refl h e He)).
Defined.
