(* ===== verification/Stealth.v ===== *)
(** * Stealth payments ([src/crypto/stealth.rs], [src/crypto/curve.rs],
      [src/transaction/builder.rs], [src/wallet/subaddress.rs],
      [src/wallet/scanner.rs])

    The two ends of a payment: the output the sender's builder makes for an
    address or subaddress, and the scan of the recipient that recognises it,
    opens its amount and derives the key that spends it.  The curve is the class
    [Curve] of [Mining] with the operations of [WalletCurve]; secret keys and
    points travel as bytes. *)

From stdpp Require Import prelude gmap strings.
From Stdlib Require Import ZArith Lia.
From S2P Require Import Prelude Constants Encoding Difficulty Block Utxo ForkChoice Pow Mining.

Local Open Scope Z_scope.

Definition SecretKey : Type := list Z.

(** The rest of [curve25519-dalek] that the wallet uses. *)
Class WalletCurve `{CV : Curve} := {
  scalar_zero : Scalar;
  scalar_add : Scalar -> Scalar -> Scalar;
  scalar_of_u64 : Z -> Scalar;
  scalar_bytes : Scalar -> list Z;
  generator_h : CurvePoint;
  point_of_sha3_512 : list Z -> CurvePoint;
}.

(** ** Data *)

Record StealthAddress := mkStealthAddress {
  sa_public_key : PublicKey;
  sa_tx_public_key : PublicKey;
}.

Record SubaddressIndex := mkSubaddressIndex { account : Z; index : Z }.

Record Subaddress := mkSubaddress {
  sub_index : SubaddressIndex;
  sub_spend_public : PublicKey;
  sub_view_public : PublicKey;
  sub_label : string;
  sub_used : bool;
}.

Record SubaddressRecord := mkSubaddressRecord {
  sr_account : Z;
  sr_index : Z;
  sr_label : string;
  sr_used : bool;
}.

#[export] Instance subaddress_index_eq_dec : EqDecision SubaddressIndex.
Proof. solve_decision. Defined.
#[export] Instance subaddress_index_countable : Countable SubaddressIndex.
Proof.
  refine (inj_countable' (fun i => (account i, index i)) (fun p => mkSubaddressIndex p.1 p.2) _).
  by intros [].
Defined.

Record ScanKeys := mkScanKeys {
  view_secret : SecretKey;
  spend_public : PublicKey;
  epoch : Z;
  subaddress_keys : list (Z * Z * PublicKey);
}.

Section stealth.
Context `{WC : WalletCurve} (blake3 : list Z -> Hash).

(** [DecryptedOutput]; the blinding factor is a scalar. *)
Record DecryptedOutput := mkDecryptedOutput {
  do_tx_hash : Hash;
  do_output_index : Z;
  do_output_locator : option OutputLocator;
  do_output : TxOutput;
  do_amount : Z;
  do_blinding_factor : Scalar;
  do_shared_secret : list Z;
  do_key_epoch : Z;
  do_subaddress_index : option (Z * Z);
}.

Definition set_locator (d : DecryptedOutput) (l : option OutputLocator) : DecryptedOutput :=
  mkDecryptedOutput (do_tx_hash d) (do_output_index d) l (do_output d) (do_amount d)
    (do_blinding_factor d) (do_shared_secret d) (do_key_epoch d) (do_subaddress_index d).

(** ** Curve helpers *)

Definition hash_to_point (data : list Z) : CurvePoint :=
  point_of_sha3_512 (ascii_bytes "CoinCync_hash_to_point_v1" ++ data).

(** [PedersenCommitment::commit(..).to_bytes()]. *)
Definition commit (value : Z) (blinding : Scalar) : list Z :=
  point_bytes (curve_add (point_mul generator_h (scalar_of_u64 value)) (base_mul blinding)).

(** [KeyImage::from_secret(..).to_bytes()]. *)
Definition key_image_from_secret (secret : Scalar) : KeyImage :=
  point_bytes (point_mul (hash_to_point (point_bytes (base_mul secret))) secret).

(** The one-time scalar of an output. *)
Definition one_time_scalar (shared_point : CurvePoint) (output_idx : Z) : Scalar :=
  hash_to_scalar (point_bytes shared_point ++ [output_idx]).

(** ** Subaddresses *)

Definition MAX_ACCOUNTS : Z := 100.
Definition MAX_SUBADDRESSES_PER_ACCOUNT : Z := 10000.

Definition is_main (i : SubaddressIndex) : bool := (account i =? 0) && (index i =? 0).
Definition MAIN : SubaddressIndex := mkSubaddressIndex 0 0.

Definition subaddress_scalar (view : SecretKey) (acc idx : Z) : Scalar :=
  scalar_of_bytes (hash_domain blake3 (ascii_bytes "COINCYNC_SUBADDR_v1")
    (view ++ le_bytes 4 acc ++ le_bytes 4 idx)).

Record SubaddressManager := mkSubaddressManager {
  sm_view_secret : SecretKey;
  sm_spend_public : PublicKey;
  sm_view_public : PublicKey;
  sm_subaddresses : gmap SubaddressIndex Subaddress;
  sm_spend_to_index : gmap PublicKey SubaddressIndex;
  sm_highest_index : gmap Z Z;
}.

Definition manager_new (view : SecretKey) (spend view_pub : PublicKey) : SubaddressManager :=
  mkSubaddressManager view spend view_pub
    {[ MAIN := mkSubaddress MAIN spend view_pub "Primary" false ]} {[ spend := MAIN ]} {[ 0 := 0 ]}.

(** The keys of a subaddress: [D = B + m*G], [C = a*D]. *)
Definition derive_subaddress (m : SubaddressManager) (i : SubaddressIndex) : option Subaddress :=
  let m_point := base_mul (subaddress_scalar (sm_view_secret m) (account i) (index i)) in
  spend_point ← point_of_bytes (sm_spend_public m);
  let d := curve_add spend_point m_point in
  let view_scalar := scalar_of_bytes (sm_view_secret m) in
  Some (mkSubaddress i (point_bytes d) (point_bytes (point_mul d view_scalar)) "" false).

Definition generate_at (m : SubaddressManager) (i : SubaddressIndex)
  : SubaddressManager * option Subaddress :=
  if (MAX_ACCOUNTS <=? account i) || (MAX_SUBADDRESSES_PER_ACCOUNT <=? index i) then (m, None)
  else if is_main i then (m, sm_subaddresses m !! i)
  else
    match sm_subaddresses m !! i with
    | Some s => (m, Some s)
    | None =>
        match derive_subaddress m i with
        | None => (m, None)
        | Some s =>
            let highest := default 0 (sm_highest_index m !! account i) in
            (mkSubaddressManager (sm_view_secret m) (sm_spend_public m) (sm_view_public m)
               (<[i := s]> (sm_subaddresses m))
               (<[sub_spend_public s := i]> (sm_spend_to_index m))
               (<[account i := if highest <? index i then index i else highest]>
                  (sm_highest_index m)), Some s)
        end
    end.

Definition generate_next (m : SubaddressManager) (acc : Z) : SubaddressManager * option Subaddress :=
  if MAX_ACCOUNTS <=? acc then (m, None)
  else
    let next_index := default 0 (sm_highest_index m !! acc) + 1 in
    generate_at m (mkSubaddressIndex acc next_index).

Definition set_subaddress (m : SubaddressManager) (i : SubaddressIndex) (s : Subaddress)
  : SubaddressManager :=
  mkSubaddressManager (sm_view_secret m) (sm_spend_public m) (sm_view_public m)
    (<[i := s]> (sm_subaddresses m)) (sm_spend_to_index m) (sm_highest_index m).

Definition set_label (m : SubaddressManager) (i : SubaddressIndex) (label : string)
  : SubaddressManager :=
  match sm_subaddresses m !! i with
  | Some s => set_subaddress m i
      (mkSubaddress (sub_index s) (sub_spend_public s) (sub_view_public s) label (sub_used s))
  | None => m
  end.

Definition mark_used (m : SubaddressManager) (i : SubaddressIndex) : SubaddressManager :=
  match sm_subaddresses m !! i with
  | Some s => set_subaddress m i
      (mkSubaddress (sub_index s) (sub_spend_public s) (sub_view_public s) (sub_label s) true)
  | None => m
  end.

Definition all_spend_public_keys (m : SubaddressManager) : list (PublicKey * SubaddressIndex) :=
  (fun p : SubaddressIndex * Subaddress => (sub_spend_public p.2, p.1))
    <$> map_to_list (sm_subaddresses m).

Definition pregenerate_lookahead (m : SubaddressManager) (acc lookahead : Z) : SubaddressManager :=
  let used := filter (fun s => account (sub_index s) = acc /\ sub_used s = true)
                (map_to_list (sm_subaddresses m)).*2 in
  let highest_used := foldr Z.max 0 ((fun s => index (sub_index s)) <$> used) in
  let target := Z.min ((highest_used + lookahead) mod 2 ^ 32) (MAX_SUBADDRESSES_PER_ACCOUNT - 1) in
  let current_highest := default 0 (sm_highest_index m !! acc) in
  foldl (fun m i => (generate_at m (mkSubaddressIndex acc i)).1) m
    (seqZ (current_highest + 1) (target - current_highest)).

Definition export_subaddresses (m : SubaddressManager) : list SubaddressRecord :=
  (fun p : SubaddressIndex * Subaddress =>
     mkSubaddressRecord (account p.1) (index p.1) (sub_label p.2) (sub_used p.2))
    <$> map_to_list (sm_subaddresses m).

Definition import_record (m : SubaddressManager) (r : SubaddressRecord) : SubaddressManager :=
  let i := mkSubaddressIndex (sr_account r) (sr_index r) in
  let m := (generate_at m i).1 in
  match sm_subaddresses m !! i with
  | Some s => set_subaddress m i
      (mkSubaddress (sub_index s) (sub_spend_public s) (sub_view_public s) (sr_label r) (sr_used r))
  | None => m
  end.

Definition import_subaddresses (m : SubaddressManager) (data : list SubaddressRecord)
  : SubaddressManager := foldl import_record m data.

Definition compute_subaddress_spend_secret (spend view : SecretKey) (i : SubaddressIndex)
  : SecretKey :=
  if is_main i then spend
  else
    let m := subaddress_scalar view (account i) (index i) in
    scalar_bytes (scalar_add (scalar_of_bytes spend) m).

(** The keys a scan registers for the wallet's saved subaddresses: the manager is
    rebuilt from the records, its main address left out. *)
Definition registered_keys (view : SecretKey) (spend view_pub : PublicKey) (ep : Z)
    (saved : list SubaddressRecord) : ScanKeys :=
  let mgr := import_subaddresses (manager_new view spend view_pub) saved in
  let keys := filter (fun p => is_main p.2 = false) (all_spend_public_keys mgr) in
  mkScanKeys view spend ep
    ((fun p : PublicKey * SubaddressIndex => (account p.2, index p.2, p.1)) <$> keys).

(** ** The sender *)

(** [tx_secret] is the random scalar drawn for the output. *)
Definition generate_stealth_address_checked_ext (spend_pub view_pub : PublicKey) (output_idx : Z)
    (is_subaddress : bool) (tx_secret : Scalar) : option (StealthAddress * SecretKey) :=
  spend_point ← point_of_bytes spend_pub;
  let tx_public := if is_subaddress then point_mul spend_point tx_secret else base_mul tx_secret in
  view_point ← point_of_bytes view_pub;
  let shared_point := point_mul view_point tx_secret in
  let stealth_point := curve_add (base_mul (one_time_scalar shared_point output_idx)) spend_point in
  Some (mkStealthAddress (point_bytes stealth_point) (point_bytes tx_public),
        scalar_bytes tx_secret).

Definition shared_secret_of (shared_point : CurvePoint) (output_index : Z) : Hash :=
  hash_domain blake3 (ascii_bytes "COINCYNC_SHARED_v2") (point_bytes shared_point ++ [output_index]).

Definition xor_bytes (a b : list Z) : list Z := zip_with Z.lxor a b.

Definition amount_key (shared_secret : Hash) : Hash :=
  hash_domain blake3 (ascii_bytes "COINCYNC_AMOUNT_KEY") shared_secret.

Definition blinding_of (shared_secret : Hash) : Scalar :=
  scalar_of_bytes (hash_domain blake3 (ascii_bytes "COINCYNC_BLINDING") shared_secret).

(** [encrypt_amount] of the builder. *)
Definition encrypt_amount (amount : Z) (tx_secret : SecretKey) (view_pub : PublicKey)
    (output_index : Z) : list Z :=
  match point_of_bytes view_pub with
  | None => replicate 8 0
  | Some view_point =>
      let shared_point := point_mul view_point (scalar_of_bytes tx_secret) in
      xor_bytes (le_bytes 8 amount)
        (take 8 (amount_key (shared_secret_of shared_point output_index)))
  end.

Definition compute_view_tag (tx_secret : SecretKey) (view_pub : PublicKey) (output_index : Z) : Z :=
  match point_of_bytes view_pub with
  | None => 0
  | Some view_point =>
      let shared_point := point_mul view_point (scalar_of_bytes tx_secret) in
      default 0 (head (hash_domain blake3 (ascii_bytes "COINCYNC_VIEWTAG_v2")
                         (point_bytes shared_point ++ [output_index])))
  end.

(** The output that [add_output_ext] makes and [build] writes out; [memo] is the
    encrypted memo. *)
Definition build_output (spend_pub view_pub : PublicKey) (amount : Z) (lock : option Z)
    (output_index : Z) (is_subaddress : bool) (tx_secret : Scalar) (memo : list Z)
  : option TxOutput :=
  '(stealth, secret) ←
    generate_stealth_address_checked_ext spend_pub view_pub output_index is_subaddress tx_secret;
  view_point ← point_of_bytes view_pub;
  let shared_point := point_mul view_point (scalar_of_bytes secret) in
  let blinding := blinding_of (shared_secret_of shared_point output_index) in
  Some (mkTxOutput (sa_public_key stealth) (sa_tx_public_key stealth) (commit amount blinding)
          (encrypt_amount amount secret view_pub output_index)
          (compute_view_tag secret view_pub output_index) lock memo).

Inductive add_output_error := InvalidOutputCount | OutputTooSmall | InvalidRecipientKey.

(** The outputs so far and the new one. *)
Definition add_output_ext (outs : list TxOutput) (spend_pub view_pub : PublicKey) (amount : Z)
    (lock : option Z) (output_index : Z) (is_subaddress : bool) (tx_secret : Scalar) (memo : list Z)
  : result add_output_error (list TxOutput) :=
  if MAX_TX_OUTPUTS <=? Z.of_nat (length outs) then Err InvalidOutputCount
  else if amount <? MIN_OUTPUT_AMOUNT then Err OutputTooSmall
  else
    match build_output spend_pub view_pub amount lock output_index is_subaddress tx_secret memo with
    | None => Err InvalidRecipientKey
    | Some o => Ok (outs ++ [o])
    end.

(** ** The recipient *)

Definition is_output_ours (stealth : StealthAddress) (view : SecretKey) (spend_pub : PublicKey)
    (output_idx : Z) : bool :=
  match point_of_bytes (sa_tx_public_key stealth), point_of_bytes (sa_public_key stealth),
        point_of_bytes spend_pub with
  | Some tx_point, Some _, Some spend_point =>
      let shared_point := point_mul tx_point (scalar_of_bytes view) in
      let expected := curve_add (base_mul (one_time_scalar shared_point output_idx)) spend_point in
      bool_decide (sa_public_key stealth = point_bytes expected)
  | _, _, _ => false
  end.

Definition compute_shared_secret (view : SecretKey) (tx_public : PublicKey) (output_index : Z)
  : Hash :=
  match point_of_bytes tx_public with
  | None => replicate 32 0
  | Some tx_point => shared_secret_of (point_mul tx_point (scalar_of_bytes view)) output_index
  end.

(** [decrypt_amount] of the scanner. *)
Definition decrypt_amount (encrypted : list Z) (shared_secret : Hash) : Z * Scalar :=
  let amount_bytes :=
    if (8 <=? length encrypted)%nat
    then xor_bytes (take 8 encrypted) (take 8 (amount_key shared_secret)) else replicate 8 0 in
  (le_val amount_bytes, blinding_of shared_secret).

(** The amount of a coinbase output is in clear. *)
Definition clear_amount (encrypted : list Z) : Z :=
  if (8 <=? length encrypted)%nat then le_val (take 8 encrypted) else 0.

Definition first_subaddress (keys : ScanKeys) (stealth : StealthAddress) (output_index : Z)
  : option (Z * Z) :=
  head (omap (fun k : Z * Z * PublicKey =>
    let '(acc, idx, sub_spend) := k in
    if is_output_ours stealth (view_secret keys) sub_spend output_index
    then Some (acc, idx) else None) (subaddress_keys keys)).

(** One round of the loop of [scan_output]. *)
Definition scan_output_keys (output : TxOutput) (output_index : Z) (tx_hash : Hash)
    (is_coinbase : bool) (keys : ScanKeys) : option DecryptedOutput :=
  let stealth := mkStealthAddress (stealth_address output) (tx_public_key output) in
  let found amount blinding secret sub :=
    Some (mkDecryptedOutput tx_hash output_index None output amount blinding secret (epoch keys)
            sub) in
  let primary := is_output_ours stealth (view_secret keys) (spend_public keys) output_index in
  if is_coinbase then
    if bool_decide (stealth_address output = spend_public keys) || primary
    then found (clear_amount (encrypted_amount output)) scalar_zero (replicate 32 0) None
    else None
  else
    let matched :=
      if primary then Some None
      else Some <$> first_subaddress keys stealth output_index in
    match matched with
    | None => None
    | Some sub =>
        let secret := compute_shared_secret (view_secret keys) (tx_public_key output) output_index in
        let '(amount, blinding) := decrypt_amount (encrypted_amount output) secret in
        if bool_decide (commit amount blinding = commitment output)
        then found amount blinding secret sub else None
    end.

Definition scan_output (keys : list ScanKeys) (output : TxOutput) (output_index : Z)
    (tx_hash : Hash) (is_coinbase : bool) : option DecryptedOutput :=
  head (omap (scan_output_keys output output_index tx_hash is_coinbase) keys).

(** The key that spends an output. *)
Definition compute_one_time_secret (stealth : StealthAddress) (view spend : SecretKey)
    (output_idx : Z) : option SecretKey :=
  tx_point ← point_of_bytes (sa_tx_public_key stealth);
  let shared_point := point_mul tx_point (scalar_of_bytes view) in
  Some (scalar_bytes (scalar_add (one_time_scalar shared_point output_idx) (scalar_of_bytes spend))).
End stealth.
