(* ===== verification/Wallet.v ===== *)
(** * The wallet ([src/wallet/balance.rs], [src/wallet/history.rs],
      [src/wallet/scanner.rs], [src/wallet/wallet.rs],
      [src/wallet/spend/submission.rs], [src/rpc/lightwallet.rs],
      [src/rpc/server.rs], [src/bin/wallet_support/legacy.rs])

    Owned outputs with their reservations, the transaction history, the block
    scanner with its reorganisation journal, the command that scans blocks from
    a node and recovers from reorganisations, the files of the wallet and the
    submission of a spend.  The node of a remote call is the [ChainView] it has
    at that moment.  Counters that only report progress are left out. *)

From stdpp Require Import prelude gmap strings sorting.
From Stdlib Require Import ZArith Lia.
From S2P Require Import Prelude Constants Encoding Amounts Difficulty Block Utxo ForkChoice Chain.
From S2P Require Import Pow Mining Stealth.

Local Open Scope Z_scope.

(** Transaction hash and output index. *)
Abbreviation OutKey := (Hash * Z)%type.

(** ** Balance *)

Record UTXO := mkUTXO {
  o_tx_hash : Hash;
  o_output_index : Z;
  o_output_locator : option OutputLocator;
  o_amount : Z;
  o_height : Z;
  o_key_image : KeyImage;
  o_spent : bool;
  o_amount_blinding : list Z;
  o_tx_public_key : PublicKey;
  o_lock_height : option Z;
  o_subaddress_account : option Z;
  o_subaddress_index : option Z;
}.

Definition set_spent (u : UTXO) (x : bool) : UTXO :=
  mkUTXO (o_tx_hash u) (o_output_index u) (o_output_locator u) (o_amount u) (o_height u)
    (o_key_image u) x (o_amount_blinding u) (o_tx_public_key u) (o_lock_height u)
    (o_subaddress_account u) (o_subaddress_index u).

Definition out_key (u : UTXO) : OutKey := (o_tx_hash u, o_output_index u).

Record Reservation := mkReservation { by_tx : Hash; r_height : Z }.

Definition RESERVATION_EXPIRY_BLOCKS : Z := 300.

Record ReservationConflict := mkReservationConflict {
  rc_utxo_key : OutKey;
  rc_existing : option Reservation;
}.

Record Balance := mkBalance {
  utxos : gmap OutKey UTXO;
  reservations : gmap OutKey Reservation;
  key_image_index : gmap KeyImage OutKey;
}.

Module Bal.
Implicit Types (b : Balance) (k : OutKey) (ki : KeyImage).

Definition new : Balance := mkBalance ∅ ∅ ∅.

Definition add_utxo b (u : UTXO) : Balance :=
  mkBalance (<[out_key u := u]> (utxos b)) (reservations b)
    (<[o_key_image u := out_key u]> (key_image_index b)).

Definition from_utxos (l : list UTXO) : Balance := foldl add_utxo new l.

Definition lookup_by_key_image b ki : option OutKey :=
  k ← key_image_index b !! ki;
  match utxos b !! k with
  | Some u => if o_spent u then None else Some k
  | None => None
  end.

Definition remove_output (r : nat * Balance) k : nat * Balance :=
  let '(removed, b) := r in
  match utxos b !! k with
  | Some u => (S removed, mkBalance (delete k (utxos b)) (delete k (reservations b))
                            (delete (o_key_image u) (key_image_index b)))
  | None => (removed, b)
  end.

Definition remove_outputs b (outputs : list OutKey) : nat * Balance :=
  foldl remove_output (O, b) outputs.

Definition mark_spent b k : Balance :=
  mkBalance (alter (fun u => set_spent u true) k (utxos b)) (delete k (reservations b))
    (key_image_index b).

Definition unmark_spent_by_key_image b ki : bool * Balance :=
  match key_image_index b !! ki with
  | None => (false, b)
  | Some k =>
      match utxos b !! k with
      | Some u =>
          if o_spent u
          then (true, mkBalance (<[k := set_spent u false]> (utxos b)) (reservations b)
                        (key_image_index b))
          else (false, b)
      | None => (false, b)
      end
  end.

Definition values b : list UTXO := (map_to_list (utxos b)).*2.

Definition unspent_utxos b : list UTXO := filter (fun u => o_spent u = false) (values b).
Definition total b : Z := Amount.sum (o_amount <$> unspent_utxos b).

Definition is_reserved b k (current_height : Z) : bool :=
  match reservations b !! k with
  | Some r => current_height <? sat_add u64_max (r_height r) RESERVATION_EXPIRY_BLOCKS
  | None => false
  end.

Definition available b (current_height min_age : Z) (u : UTXO) : bool :=
  negb (o_spent u) && (sat_add u64_max (o_height u) min_age <=? current_height)
  && match o_lock_height u with Some lh => lh <=? current_height | None => true end
  && negb (is_reserved b (out_key u) current_height).

Definition available_utxos b (current_height min_age : Z) : list UTXO :=
  filter (fun u => available b current_height min_age u = true) (values b).
Definition spendable b (current_height min_age : Z) : Z :=
  Amount.sum (o_amount <$> available_utxos b current_height min_age).

Definition locked_utxos b (current_height : Z) : list UTXO :=
  filter (fun u => negb (o_spent u)
    && match o_lock_height u with Some lh => current_height <? lh | None => false end = true)
    (values b).
Definition locked_balance b (current_height : Z) : Z :=
  Amount.sum (o_amount <$> locked_utxos b current_height).

(** The conflict check runs before the first insertion. *)
Definition reserve_utxos b (keys : list OutKey) (tx : Hash) (current_height : Z)
  : result ReservationConflict Balance :=
  match find (fun k => is_reserved b k current_height) keys with
  | Some k => Err (mkReservationConflict k (reservations b !! k))
  | None => Ok (mkBalance (utxos b)
      (foldl (fun m k => <[k := mkReservation tx current_height]> m) (reservations b) keys)
      (key_image_index b))
  end.

Definition keep_reservations b (P : Reservation -> bool) : Balance :=
  mkBalance (utxos b) (filter (fun kr => P kr.2 = true) (reservations b)) (key_image_index b).

Definition release_reservations_by_tx b (tx : Hash) : Balance :=
  keep_reservations b (fun r => negb (bool_decide (by_tx r = tx))).

Definition release_expired_reservations b (current_height : Z) : Balance :=
  keep_reservations b (fun r =>
    current_height <? sat_add u64_max (r_height r) RESERVATION_EXPIRY_BLOCKS).

Definition all_reservations b : list (OutKey * Reservation) := map_to_list (reservations b).
Definition all_utxos b : list UTXO := values b.

Definition restore_reservations b (entries : list (OutKey * Reservation)) (current_height : Z)
  : Balance :=
  foldl (fun b (e : OutKey * Reservation) =>
    if current_height <? sat_add u64_max (r_height e.2) RESERVATION_EXPIRY_BLOCKS
    then mkBalance (utxos b) (<[e.1 := e.2]> (reservations b)) (key_image_index b)
    else b) b entries.
End Bal.

(** ** History *)

Inductive TxDirection := Incoming | Outgoing.
Inductive TxStatus := Pending | Confirming | Confirmed | Failed.

#[export] Instance tx_direction_eq_dec : EqDecision TxDirection.
Proof. solve_decision. Defined.

Record TransactionRecord := mkTransactionRecord {
  h_tx_hash : Hash;
  h_time : Z;
  h_amount : Z;
  h_direction : TxDirection;
  h_status : TxStatus;
  h_block_height : Z;
  h_fee : Z;
  h_subaddress : option SubaddressIndex;
  h_payment_id : option string;
  h_memo : option string;
  h_recipient_address : option string;
  h_unlock_height : Z;
  h_output_indices : list Z;
  h_spent : bool;
  h_key_image : option Hash;
}.

Module His.
Implicit Types (r : TransactionRecord) (l : list TransactionRecord).

Definition from_confirmations (confirmations unlock_height current_height : Z) : TxStatus :=
  if confirmations =? 0 then Pending
  else if current_height <? unlock_height then Confirming else Confirmed.

Definition incoming (testnet : bool) (tx_hash : Hash) (amount block_height timestamp : Z)
    (output_index : Z) (sub : option SubaddressIndex) : TransactionRecord :=
  mkTransactionRecord tx_hash timestamp amount Incoming Pending block_height 0 sub None None None
    (sat_add u64_max block_height (min_output_age_at_height testnet block_height)) [output_index]
    false None.

Definition outgoing (tx_hash : Hash) (amount fee block_height timestamp : Z) : TransactionRecord :=
  mkTransactionRecord tx_hash timestamp amount Outgoing Pending block_height fee None None None
    None 0 [] false None.

Definition confirmations r (current_height : Z) : Z :=
  if (h_block_height r =? 0) || (current_height <? h_block_height r) then 0
  else current_height - h_block_height r + 1.

Definition with_state r (height : Z) (status : TxStatus) (spent : bool) : TransactionRecord :=
  mkTransactionRecord (h_tx_hash r) (h_time r) (h_amount r) (h_direction r) status height (h_fee r)
    (h_subaddress r) (h_payment_id r) (h_memo r) (h_recipient_address r) (h_unlock_height r)
    (h_output_indices r) spent (h_key_image r).

Definition update_status r (current_height : Z) : TransactionRecord :=
  with_state r (h_block_height r)
    (from_confirmations (confirmations r current_height) (h_unlock_height r) current_height)
    (h_spent r).

Definition same_entry r r' : bool :=
  bool_decide (h_tx_hash r = h_tx_hash r') && bool_decide (h_direction r = h_direction r').

(** New indices are appended; the amount is added once if there is any. *)
Definition merge_indices (have new : list Z) : list Z :=
  foldl (fun acc i => if bool_decide (i ∈ acc) then acc else acc ++ [i]) have new.

Definition merge r r' : TransactionRecord :=
  let indices := merge_indices (h_output_indices r) (h_output_indices r') in
  mkTransactionRecord (h_tx_hash r) (h_time r)
    (if bool_decide (indices = h_output_indices r) then h_amount r
     else sat_add u64_max (h_amount r) (h_amount r'))
    (h_direction r) (h_status r) (h_block_height r) (h_fee r) (h_subaddress r) (h_payment_id r)
    (h_memo r) (h_recipient_address r) (h_unlock_height r) indices (h_spent r) (h_key_image r).

Fixpoint add l r' : list TransactionRecord :=
  match l with
  | [] => [r']
  | r :: l => if same_entry r r' then merge r r' :: l else r :: add l r'
  end.

Definition update_all_statuses l (current_height : Z) : list TransactionRecord :=
  (fun r => update_status r current_height) <$> l.

Definition remove_incoming_outputs l (outputs : list OutKey) : list TransactionRecord :=
  filter (fun r => ~ (h_direction r = Incoming /\ h_tx_hash r ∈ outputs.*1)) l.

Definition revert_outgoing_above_height l (new_height : Z) : list TransactionRecord :=
  (fun r => if bool_decide (h_direction r = Outgoing) && (new_height <? h_block_height r)
            then with_state r 0 Pending (h_spent r) else r) <$> l.

Definition unmark_spent_by_key_image l (ki : Hash) : list TransactionRecord :=
  (fun r => if bool_decide (h_key_image r = Some ki) && h_spent r
            then with_state r (h_block_height r) (h_status r) false else r) <$> l.
End His.

(** ** Scanner *)

Record BlockApplyDiff := mkBlockApplyDiff {
  df_height : Z;
  df_block_hash : Hash;
  df_prev_block_hash : Hash;
  df_outputs_added : list OutKey;
  df_key_images_marked_spent : list KeyImage;
}.

Record WalletScanner := mkWalletScanner {
  ws_keys : list ScanKeys;
  ws_last_height : Z;
  ws_last_hash : Hash;
  ws_journal : list BlockApplyDiff;
}.

Record RewindOutcome := mkRewindOutcome {
  ro_entries_undone : nat;
  ro_outputs_to_remove : list OutKey;
  ro_key_images_to_unspend : list KeyImage;
  ro_new_height : Z;
  ro_new_hash : Hash;
}.

Inductive RewindError :=
| OutsideJournalWindow (target_height earliest_in_journal : Z)
| TargetAboveCurrent (target_height current_height : Z).

Definition JOURNAL_MAX_DEFAULT : nat := Z.to_nat 1100.

(** Order of the output keys in the [BTreeSet]. *)
Definition out_key_le (a b : OutKey) : Prop :=
  bytes_ltb a.1 b.1 = true \/ a.1 = b.1 /\ a.2 <= b.2.
#[export] Instance out_key_le_dec a b : Decision (out_key_le a b).
Proof. unfold out_key_le. apply _. Defined.

Definition canonical_output_locators (height : Z) (outputs : list OutKey)
  : gmap OutKey OutputLocator :=
  list_to_map (imap (fun i k => (k, mkOutputLocator height (Z.of_nat i)))
                 (merge_sort out_key_le (remove_dups outputs))).

Section scanner.
Context `{WC : WalletCurve} (blake3 : list Z -> Hash) (tx_hash : Transaction -> Hash).
Implicit Types (s : WalletScanner) (b : Block).

Inductive ScanResult :=
| Scanned (outputs : list (DecryptedOutput)) (height : Z) (block_hash : Hash)
| ReorgDetected (at_height : Z) (actual_prev expected_prev : Hash).

Definition scanner_new : WalletScanner := mkWalletScanner [] 0 zero_hash [].

Definition add_keys s (view : SecretKey) (spend : PublicKey) (ep : Z) : WalletScanner :=
  mkWalletScanner (ws_keys s ++ [mkScanKeys view spend ep []]) (ws_last_height s) (ws_last_hash s)
    (ws_journal s).

Definition add_subaddress_keys s (subs : list (Z * Z * PublicKey)) : WalletScanner :=
  match last (ws_keys s) with
  | None => s
  | Some k =>
      mkWalletScanner (removelast (ws_keys s)
                       ++ [mkScanKeys (view_secret k) (spend_public k) (epoch k) subs])
        (ws_last_height s) (ws_last_hash s) (ws_journal s)
  end.

Definition set_journal s (l : list BlockApplyDiff) : WalletScanner :=
  mkWalletScanner (ws_keys s) (ws_last_height s) (ws_last_hash s) l.

Definition record_journal_entry s (diff : BlockApplyDiff) : WalletScanner :=
  if df_height diff <? ws_last_height s then s
  else
    let journal := ws_journal s ++ [diff] in
    mkWalletScanner (ws_keys s) (df_height diff) (df_block_hash diff)
      (drop (length journal - JOURNAL_MAX_DEFAULT) journal).

Definition add_spend (d : BlockApplyDiff) (ki : KeyImage) : BlockApplyDiff :=
  mkBlockApplyDiff (df_height d) (df_block_hash d) (df_prev_block_hash d) (df_outputs_added d)
    (df_key_images_marked_spent d ++ [ki]).

Definition record_spend_for_last_block s (ki : KeyImage) : WalletScanner :=
  match last (ws_journal s) with
  | Some d => set_journal s (removelast (ws_journal s) ++ [add_spend d ki])
  | None => s
  end.

(** The entries above the target, from the back. *)
Fixpoint pop_above (target : Z) (rev_journal : list BlockApplyDiff)
  : list BlockApplyDiff * list BlockApplyDiff :=
  match rev_journal with
  | d :: l => if df_height d <=? target then ([], rev_journal)
              else let '(undone, kept) := pop_above target l in (d :: undone, kept)
  | [] => ([], [])
  end.

Definition rewind_to_height s (target : Z) : result RewindError (RewindOutcome * WalletScanner) :=
  if ws_last_height s <? target then Err (TargetAboveCurrent target (ws_last_height s))
  else
    match ws_journal s with
    | front :: _ =>
        if (target <? df_height front) && negb (target =? 0)
        then Err (OutsideJournalWindow target (df_height front))
        else
          let '(undone, kept) := pop_above target (reverse (ws_journal s)) in
          let '(height, hash) := match kept with
                                 | d :: _ => (df_height d, df_block_hash d)
                                 | [] => (0, zero_hash) end in
          Ok (mkRewindOutcome (length undone) (concat (df_outputs_added <$> undone))
                (concat (df_key_images_marked_spent <$> undone)) height hash,
              mkWalletScanner (ws_keys s) height hash (reverse kept))
    | [] => Ok (mkRewindOutcome 0 [] [] 0 zero_hash, mkWalletScanner (ws_keys s) 0 zero_hash [])
    end.

Definition scan_transaction (keys : list ScanKeys) (tx : Transaction) : list DecryptedOutput :=
  omap (fun p : nat * TxOutput =>
      scan_output blake3 keys p.2 (Z.of_nat p.1) (tx_hash tx) (bool_decide (tx_type tx = Coinbase)))
    (imap pair (take 256 (outputs tx))).

(** The outputs of a block that belong to the keys, with their locators. *)
Definition found_outputs (keys : list ScanKeys) b : list DecryptedOutput :=
  let locators := canonical_output_locators (block_height b)
    (concat ((fun tx => imap (fun i _ => (tx_hash tx, Z.of_nat i)) (take 256 (outputs tx)))
             <$> transactions b)) in
  (fun d => set_locator d (locators !! (do_tx_hash d, do_output_index d)))
    <$> concat (scan_transaction keys <$> transactions b).

Definition reorg_signal s b : option Hash :=
  match last (ws_journal s) with
  | Some prev =>
      if (block_height b =? wrap64 (df_height prev + 1))
         && negb (bool_decide (prev_hash (header b) = df_block_hash prev))
      then Some (df_block_hash prev)
      else if block_height b <=? df_height prev then Some (df_block_hash prev)
      else None
  | None => None
  end.

Definition scan_block_with_result s b : ScanResult * WalletScanner :=
  match reorg_signal s b with
  | Some expected => (ReorgDetected (block_height b) (prev_hash (header b)) expected, s)
  | None =>
      let hash := header_hash blake3 (header b) in
      let found := found_outputs (ws_keys s) b in
      let s := mkWalletScanner (ws_keys s) (block_height b) hash (ws_journal s) in
      (Scanned found (block_height b) hash,
       record_journal_entry s (mkBlockApplyDiff (block_height b) hash (prev_hash (header b))
         ((fun d => (do_tx_hash d, do_output_index d)) <$> found) []))
  end.

Inductive spend_error := CommitmentMismatch | InvalidTxPublicKey.

Definition decrypted_to_utxo (d : DecryptedOutput) (view spend : SecretKey) (height : Z)
  : result spend_error UTXO :=
  _ ← guard_or (bool_decide (commit (do_amount d) (do_blinding_factor d) = commitment (do_output d)))
        CommitmentMismatch;
  let stealth := mkStealthAddress (stealth_address (do_output d)) (tx_public_key (do_output d)) in
  let effective := match do_subaddress_index d with
                   | Some (acc, idx) =>
                       compute_subaddress_spend_secret blake3 spend view (mkSubaddressIndex acc idx)
                   | None => spend
                   end in
  secret ← ok_or InvalidTxPublicKey (compute_one_time_secret stealth view effective
             (do_output_index d));
  Ok (mkUTXO (do_tx_hash d) (do_output_index d) (do_output_locator d) (do_amount d) height
        (key_image_from_secret (scalar_of_bytes secret)) false
        (scalar_bytes (do_blinding_factor d)) (tx_public_key (do_output d))
        (lock_height (do_output d)) (fst <$> do_subaddress_index d) (snd <$> do_subaddress_index d)).

(** ** The node's side of the scan *)

Definition MAX_RANGE : Z := 100.

Definition get_block_range (v : ChainView) (start end_ : Z) : option (list (Z * Block)) :=
  if end_ <? start then None
  else
    let span := sat_add u64_max (sat_sub end_ start) 1 in
    let loop_end := sat_add u64_max start (Z.min span MAX_RANGE) in
    Some (omap (fun h => b ← get_block_by_height v h; Some (h, b))
            (seqZ start (loop_end - start))).

Definition fork_point_in_journal (journal : list (Z * Hash)) (canonical_hash_at : Z -> option Hash)
  : option Z :=
  match filter (fun e : Z * Hash => canonical_hash_at e.1 = Some e.2) journal with
  | [] => None
  | e :: l => Some (foldr Z.max e.1 l.*1)
  end.

Definition journal_pairs s : list (Z * Hash) :=
  (fun d => (df_height d, df_block_hash d)) <$> ws_journal s.

(** ** The scan command *)

(** [Wallet], as far as scanning and spending change it. *)
Record Wallet := mkWallet {
  w_balance : Balance;
  w_history : list TransactionRecord;
  w_scanned_height : Z;
}.

Inductive scan_error :=
| RpcFailed | ToUtxo (e : spend_error) | RewindFailed (e : RewindError).

Definition wallet_remove_outputs (w : Wallet) (outputs : list OutKey) : Wallet :=
  mkWallet (Bal.remove_outputs (w_balance w) outputs).2
    (His.remove_incoming_outputs (w_history w) outputs) (w_scanned_height w).

Definition wallet_unmark_spent (w : Wallet) (ki : KeyImage) : Wallet :=
  mkWallet (Bal.unmark_spent_by_key_image (w_balance w) ki).2
    (His.unmark_spent_by_key_image (w_history w) ki) (w_scanned_height w).

Definition wallet_revert_outgoing (w : Wallet) (height : Z) : Wallet :=
  mkWallet (w_balance w) (His.revert_outgoing_above_height (w_history w) height)
    (w_scanned_height w).

Definition with_balance (w : Wallet) (b : Balance) : Wallet :=
  mkWallet b (w_history w) (w_scanned_height w).

Definition mark_spent_by_key_image (w : Wallet) (ki : KeyImage) : Wallet :=
  match Bal.lookup_by_key_image (w_balance w) ki with
  | Some k => with_balance w (Bal.mark_spent (w_balance w) k)
  | None => w
  end.

Record Session := mkSession {
  se_wallet : Wallet;
  se_scanner : WalletScanner;
  se_last_height : Z;
}.

Definition add_found (w : Wallet) (view spend : SecretKey) (height : Z)
    (found : list DecryptedOutput) : result spend_error Wallet :=
  foldl (fun r d =>
    w ← r;
    u ← decrypted_to_utxo d view spend height;
    Ok (with_balance w (Bal.add_utxo (w_balance w) u))) (Ok w) found.

(** A spend of ours is journaled, then marked. *)
Definition spend_step (p : Wallet * WalletScanner) (ki : KeyImage) : Wallet * WalletScanner :=
  let '(w, s) := p in
  let s := match Bal.lookup_by_key_image (w_balance w) ki with
           | Some _ => record_spend_for_last_block s ki
           | None => s
           end in
  (mark_spent_by_key_image w ki, s).

Definition block_spends b : list KeyImage := concat (key_images <$> transactions b).

(** One block; [inr] is a detected reorganisation. *)
Definition scan_one (view spend : SecretKey) (se : Session) (hb : Z * Block)
  : result scan_error (Session + Session) :=
  let '(height, b) := hb in
  match scan_block_with_result (se_scanner se) b with
  | (ReorgDetected _ _ _, s) => Ok (inr (mkSession (se_wallet se) s (se_last_height se)))
  | (Scanned found _ _, s) =>
      match add_found (se_wallet se) view spend height found with
      | Err e => Err (ToUtxo e)
      | Ok w =>
          let '(w, s) := foldl spend_step (w, s) (block_spends b) in
          Ok (inl (mkSession w s height))
      end
  end.

Fixpoint scan_batch (view spend : SecretKey) (se : Session) (blocks : list (Z * Block))
  : result scan_error (Session + Session) :=
  match blocks with
  | [] => Ok (inl se)
  | hb :: blocks =>
      match scan_one view spend se hb with
      | Ok (inl se) => scan_batch view spend se blocks
      | r => r
      end
  end.

Definition recover (se : Session) (fork : Z) : result scan_error Session :=
  match rewind_to_height (se_scanner se) fork with
  | Err e => Err (RewindFailed e)
  | Ok (outcome, s) =>
      let w := wallet_remove_outputs (se_wallet se) (ro_outputs_to_remove outcome) in
      let w := foldl wallet_unmark_spent w (ro_key_images_to_unspend outcome) in
      Ok (mkSession (wallet_revert_outgoing w fork) s (se_last_height se))
  end.

(** Each remote call takes the node as it is then; a call that is not answered
    ends the command. *)
Fixpoint scan_loop (view spend : SecretKey) (views : list ChainView) (se : Session)
    (cursor end_ : Z) : result scan_error Session :=
  if end_ <? cursor then Ok se
  else
    match views with
    | [] => Err RpcFailed
    | v :: views =>
        let batch_end := Z.min (wrap64 (cursor + 99)) end_ in
        match get_block_range v cursor batch_end with
        | None => Err RpcFailed
        | Some [] => Ok se
        | Some blocks =>
            match scan_batch view spend se blocks with
            | Err e => Err e
            | Ok (inl se) => scan_loop view spend views se (wrap64 (batch_end + 1)) end_
            | Ok (inr se) =>
                match views with
                | [] => Err RpcFailed
                | v :: views =>
                    match fork_point_in_journal (journal_pairs (se_scanner se)) (get_block_hash v)
                    with
                    | None => Ok se
                    | Some fork =>
                        match recover se fork with
                        | Err e => Err e
                        | Ok se => scan_loop view spend views se (wrap64 (fork + 1)) end_
                        end
                    end
                end
            end
        end
    end.

Definition SCAN_BACKSTOP_BLOCKS : Z := 20.

(** [cmd_scan] up to the save; the scanner starts with an empty journal. *)
Definition cmd_scan (w : Wallet) (keys : ScanKeys) (spend : SecretKey) (from : option Z)
    (max_blocks : Z) (views : list ChainView) : result scan_error Wallet :=
  let start := default (sat_sub (w_scanned_height w) SCAN_BACKSTOP_BLOCKS) from in
  let end_ := wrap64 (start + max_blocks) in
  let scanner := add_keys scanner_new (view_secret keys) (spend_public keys) (epoch keys) in
  let scanner := match subaddress_keys keys with [] => scanner
                 | subs => add_subaddress_keys scanner subs end in
  se ← scan_loop (view_secret keys) spend views (mkSession w scanner start) start end_;
  Ok (mkWallet (Bal.release_expired_reservations (w_balance (se_wallet se)) (se_last_height se))
        (w_history (se_wallet se)) (se_last_height se)).
End scanner.

(** ** The files of the wallet *)

(** The three sidecar files ([None] when absent) and the height in the main
    file. *)
Record Disk := mkDisk {
  dk_utxos : option (list UTXO);
  dk_reservations : option (list (OutKey * Reservation));
  dk_history : option (list TransactionRecord);
  dk_scanned_height : Z;
}.

Definition sidecar {A} (l : list A) : option (list A) := match l with [] => None | _ => Some l end.

(** The files are written in this order, each in one step; [written] of them
    before an error or a crash. *)
Definition save (w : Wallet) (d : Disk) (written : nat) : bool * Disk :=
  let utxos := if (1 <=? written)%nat then sidecar (Bal.all_utxos (w_balance w)) else dk_utxos d in
  let res := if (2 <=? written)%nat then sidecar (Bal.all_reservations (w_balance w))
             else dk_reservations d in
  let hist := if (3 <=? written)%nat then sidecar (w_history w) else dk_history d in
  let height := if (4 <=? written)%nat then w_scanned_height w else dk_scanned_height d in
  ((4 <=? written)%nat, mkDisk utxos res hist height).

(** [open] and [unlock]. *)
Definition load (d : Disk) : Wallet :=
  let b := foldl Bal.add_utxo Bal.new (default [] (dk_utxos d)) in
  let h := foldl His.add [] (default [] (dk_history d)) in
  mkWallet (Bal.restore_reservations b (default [] (dk_reservations d)) (dk_scanned_height d)) h
    (dk_scanned_height d).

(** ** Spending *)

Record SpendInputBinding := mkSpendInputBinding { sb_key_image : KeyImage; sb_output : OutKey }.

Record BuiltSpend := mkBuiltSpend {
  bs_encoded_transaction : list Z;
  bs_tx_hash : Hash;
  bs_target_height : Z;
  bs_input_bindings : list SpendInputBinding;
}.

Inductive SubmissionOutcome := SubAccepted | SubRejected | SubUnknown.

Inductive submit_error :=
| NoInputs | OtherOutput (k : OutKey) | NoLongerUnspent (k : OutKey)
| Conflict (c : ReservationConflict) | PersistFailed.

Inductive SpendSubmission :=
| MempoolAccepted (retained : nat) (expires_at : Z)
| SpendRejected
| SpendUnknown (retained : nat) (expires_at : Z).

Fixpoint check_bindings (b : Balance) (l : list SpendInputBinding)
  : result submit_error (list OutKey) :=
  match l with
  | [] => Ok []
  | x :: l =>
      match Bal.lookup_by_key_image b (sb_key_image x) with
      | None => Err (NoLongerUnspent (sb_output x))
      | Some current =>
          if bool_decide (current = sb_output x)
          then ks ← check_bindings b l; Ok (sb_output x :: ks)
          else Err (OtherOutput current)
      end
  end.

Definition validate_input_bindings (b : Balance) (l : list SpendInputBinding)
  : result submit_error (list OutKey) :=
  match l with [] => Err NoInputs | _ => check_bindings b l end.

(** [saved] and [saved'] are the files the two saves get written; the last part
    of the answer is the transaction handed to the node, with the disk at that
    moment. *)
Definition submit_reserved (w : Wallet) (d : Disk) (built : BuiltSpend) (saved saved' : nat)
    (outcome : SubmissionOutcome)
  : result submit_error SpendSubmission * Wallet * Disk * option (list Z * Disk) :=
  match validate_input_bindings (w_balance w) (bs_input_bindings built) with
  | Err e => (Err e, w, d, None)
  | Ok selected =>
      match Bal.reserve_utxos (w_balance w) selected (bs_tx_hash built) (bs_target_height built) with
      | Err c => (Err (Conflict c), w, d, None)
      | Ok b =>
          let w := with_balance w b in
          let released :=
            with_balance w (Bal.release_reservations_by_tx (w_balance w) (bs_tx_hash built)) in
          let '(ok, d) := save w d saved in
          let expires := sat_add u64_max (bs_target_height built) RESERVATION_EXPIRY_BLOCKS in
          let sent := Some (bs_encoded_transaction built, d) in
          if negb ok then (Err PersistFailed, released, (save released d saved').2, None)
          else
            match outcome with
            | SubAccepted => (Ok (MempoolAccepted (length selected) expires), w, d, sent)
            | SubRejected => (Ok SpendRejected, released, (save released d saved').2, sent)
            | SubUnknown => (Ok (SpendUnknown (length selected) expires), w, d, sent)
            end
      end
  end.
