(* ===== verification/StealthRules.v ===== *)
(** * Payments arrive

    Under the laws of the group, an output that the sender's builder makes for
    an address or subaddress of a wallet is found by the wallet's scan, with its
    amount; whatever the scan finds can be spent, with the key the wallet
    derives; and the coinbase the block builder makes arrives the same way. *)

From stdpp Require Import prelude gmap strings.
From Stdlib Require Import ZArith Lia.
From S2P Require Import Prelude Constants Encoding Emission Difficulty ForkSignal Block Utxo.
From S2P Require Import ForkChoice Chain ChainLedger TxValidation Pow Mining MiningRules Stealth Wallet.

Local Open Scope Z_scope.

(** What the wallet relies on of the curve: canonical encodings, a commutative
    action of the scalars, and scalars that add as their multiples do. *)
Class CurveLaws `{WC : WalletCurve} := {
  point_roundtrip p : point_of_bytes (point_bytes p) = Some p;
  scalar_roundtrip s : scalar_of_bytes (scalar_bytes s) = s;
  mul_commute p a b : point_mul (point_mul p a) b = point_mul (point_mul p b) a;
  base_commute a b : point_mul (base_mul a) b = point_mul (base_mul b) a;
  base_add a b : base_mul (scalar_add a b) = curve_add (base_mul a) (base_mul b);
}.

(** ** Bytes *)

Lemma xor_bytes_length a b : length a = length b -> length (xor_bytes a b) = length a.
Proof. intros H. unfold xor_bytes. rewrite length_zip_with. lia. Qed.

Lemma xor_bytes_twice a : forall b, length a = length b -> xor_bytes (xor_bytes a b) b = a.
Proof.
  induction a as [|x a IH]; intros [|y b] H; try done. cbn in *.
  rewrite Z.lxor_assoc, Z.lxor_nilpotent, Z.lxor_0_r. f_equal. apply IH. lia.
Qed.

Section laws.
Context `{CL : CurveLaws} (blake3 : list Z -> Hash).
Hypothesis hash_length : forall x, length (blake3 x) = 32%nat.

Abbreviation scan_output := (scan_output blake3).
Abbreviation build_output := (build_output blake3).

(** ** The keys of a wallet *)

(** The public key of a secret key. *)
Definition public_of (s : SecretKey) : PublicKey := point_bytes (base_mul (scalar_of_bytes s)).

(** The keys a scanner is given belong to the secrets of the wallet. *)
Record own_keys (spend : SecretKey) (k : ScanKeys) : Prop := {
  ok_spend : spend_public k = public_of spend;
  ok_subs acc idx d : (acc, idx, d) ∈ subaddress_keys k ->
    d = public_of (compute_subaddress_spend_secret blake3 spend (view_secret k)
          (mkSubaddressIndex acc idx));
}.

(** The secret that goes with the address an output was found under. *)
Definition effective_spend (spend : SecretKey) (k : ScanKeys) (d : DecryptedOutput) : SecretKey :=
  match do_subaddress_index d with
  | Some (acc, idx) =>
      compute_subaddress_spend_secret blake3 spend (view_secret k) (mkSubaddressIndex acc idx)
  | None => spend
  end.

Lemma sub_secret_public spend view i :
  is_main i = false ->
  public_of (compute_subaddress_spend_secret blake3 spend view i)
  = point_bytes (curve_add (base_mul (scalar_of_bytes spend))
      (base_mul (subaddress_scalar blake3 view (account i) (index i)))).
Proof.
  intros Hm. unfold public_of, compute_subaddress_spend_secret. rewrite Hm.
  by rewrite scalar_roundtrip, base_add.
Qed.

(** ** The manager of the subaddresses *)

Definition honest_sub (spend view : SecretKey) (i : SubaddressIndex) (s : Subaddress) : Prop :=
  let d := public_of (compute_subaddress_spend_secret blake3 spend view i) in
  sub_index s = i /\ sub_spend_public s = d
  /\ sub_view_public s = (if is_main i then public_of view else
       point_bytes (point_mul (base_mul (scalar_of_bytes (compute_subaddress_spend_secret blake3
         spend view i))) (scalar_of_bytes view))).

(** What the operations of a manager keep. *)
Record manager_ok (spend view : SecretKey) (m : SubaddressManager) : Prop := {
  mo_view : sm_view_secret m = view;
  mo_spend : sm_spend_public m = public_of spend;
  mo_subs : map_Forall (honest_sub spend view) (sm_subaddresses m);
}.

Lemma manager_new_ok spend view :
  manager_ok spend view (manager_new view (public_of spend) (public_of view)).
Proof.
  split; [done|done|]. apply map_Forall_singleton. unfold honest_sub. cbn.
  unfold compute_subaddress_spend_secret. by cbn.
Qed.

Lemma derive_ok spend view m i s :
  manager_ok spend view m -> is_main i = false ->
  derive_subaddress blake3 m i = Some s -> honest_sub spend view i s.
Proof.
  intros [Hv Hs _] Hm. unfold derive_subaddress. rewrite Hs, Hv. unfold public_of at 1.
  rewrite point_roundtrip. cbn. intros [= <-]. unfold honest_sub. cbn. rewrite Hm.
  rewrite sub_secret_public by done. split_and!; [done|done|].
  unfold compute_subaddress_spend_secret. rewrite Hm. by rewrite scalar_roundtrip, base_add.
Qed.

Lemma generate_at_ok spend view m i :
  manager_ok spend view m -> manager_ok spend view (generate_at blake3 m i).1.
Proof.
  intros Hm. unfold generate_at. destruct (_ || _); [done|].
  destruct (is_main i) eqn:Ei; [done|]. destruct (sm_subaddresses m !! i); [done|].
  destruct (derive_subaddress blake3 m i) as [s|] eqn:Ed; [|done].
  pose proof (derive_ok spend view m i s Hm Ei Ed) as Hd.
  destruct Hm as [Hv Hs Hf]. split; [done|done|]. cbn. by apply map_Forall_insert_2.
Qed.

Lemma set_subaddress_ok spend view m i s label used :
  manager_ok spend view m -> sm_subaddresses m !! i = Some s ->
  manager_ok spend view (set_subaddress m i
    (mkSubaddress (sub_index s) (sub_spend_public s) (sub_view_public s) label used)).
Proof.
  intros [Hv Hs Hf] Hi. split; [done|done|]. cbn. apply map_Forall_insert_2; [|done].
  exact (Hf i s Hi).
Qed.

Lemma import_ok spend view data : forall m,
  manager_ok spend view m -> manager_ok spend view (import_subaddresses blake3 m data).
Proof.
  induction data as [|r data IH]; intros m Hm; [done|]. cbn. apply IH. unfold import_record.
  pose proof (generate_at_ok spend view m (mkSubaddressIndex (sr_account r) (sr_index r)) Hm) as Hg.
  destruct (sm_subaddresses (generate_at blake3 m _).1 !! _) as [s|] eqn:E; [|done].
  by apply set_subaddress_ok.
Qed.

(** The keys a scan registers are the wallet's. *)
Lemma registered_own spend view ep saved :
  own_keys spend (registered_keys blake3 view (public_of spend) (public_of view) ep saved).
Proof.
  pose proof (import_ok spend view saved _ (manager_new_ok spend view)) as [Hv Hs Hf].
  split; [done|]. cbn. intros acc idx d Hin.
  apply list_elem_of_fmap in Hin as ([pk i]&[= -> -> ->]&Hin).
  apply list_elem_of_filter in Hin as [_ Hin].
  apply list_elem_of_fmap in Hin as ([i' s]&[= -> ->]&Hin). cbn.
  apply elem_of_map_to_list in Hin. destruct (Hf i' s Hin) as (_&E&_). cbn in E. cbn.
  rewrite E. by destruct i'.
Qed.

(** Every subaddress of the rebuilt manager is registered. *)
Lemma registered_in spend view_pub view ep saved i s :
  sm_subaddresses (import_subaddresses blake3 (manager_new view spend view_pub) saved) !! i = Some s ->
  is_main i = false ->
  (account i, index i, sub_spend_public s)
    ∈ subaddress_keys (registered_keys blake3 view spend view_pub ep saved).
Proof.
  intros Hi Hm. cbn. apply list_elem_of_fmap. exists (sub_spend_public s, i). split; [done|].
  apply list_elem_of_filter. split; [done|]. apply list_elem_of_fmap. exists (i, s).
  split; [done|]. by apply elem_of_map_to_list.
Qed.

(** ** Ownership *)

Lemma ours_iff stealth view spend idx :
  is_output_ours stealth view spend idx = true <->
  exists tx_point spend_point,
    point_of_bytes (sa_tx_public_key stealth) = Some tx_point
    /\ point_of_bytes spend = Some spend_point
    /\ sa_public_key stealth = point_bytes (curve_add
         (base_mul (one_time_scalar (point_mul tx_point (scalar_of_bytes view)) idx)) spend_point).
Proof.
  unfold is_output_ours. split.
  - destruct (point_of_bytes (sa_tx_public_key stealth)) as [tp|]; [|done].
    destruct (point_of_bytes (sa_public_key stealth)); [|done].
    destruct (point_of_bytes spend) as [sp|]; [|done].
    intros H%bool_decide_eq_true. eauto.
  - intros (tp&sp&->&->&E). rewrite E, point_roundtrip. by apply bool_decide_eq_true.
Qed.

(** The derived key opens the address. *)
Lemma one_time_opens stealth view spend idx :
  is_output_ours stealth view (public_of spend) idx = true ->
  exists k, compute_one_time_secret stealth view spend idx = Some k
    /\ public_of k = sa_public_key stealth.
Proof.
  intros (tp&sp&Ht&Hs&->)%ours_iff. unfold compute_one_time_secret. rewrite Ht. cbn.
  eexists. split; [reflexivity|]. unfold public_of in *. rewrite point_roundtrip in Hs.
  injection Hs as <-. by rewrite scalar_roundtrip, base_add.
Qed.

Lemma first_subaddress_some keys stealth idx p :
  first_subaddress keys stealth idx = Some p ->
  exists d, (p, d) ∈ subaddress_keys keys
    /\ is_output_ours stealth (view_secret keys) d idx = true.
Proof.
  unfold first_subaddress. intros H%head_Some_elem_of.
  apply list_elem_of_omap in H as ([[acc i] d]&Hin&H). destruct (is_output_ours _ _ _ _) eqn:E;
    [|done]. injection H as <-. eauto.
Qed.

Lemma first_subaddress_found keys stealth idx acc i d :
  (acc, i, d) ∈ subaddress_keys keys ->
  is_output_ours stealth (view_secret keys) d idx = true ->
  is_Some (first_subaddress keys stealth idx).
Proof.
  intros Hin Ho. unfold first_subaddress. destruct (omap _ _) as [|x l] eqn:E; [|by eexists].
  exfalso. assert (Hm : (acc, i) ∈ ([] : list (Z * Z))); [|by apply elem_of_nil in Hm].
  rewrite <- E. apply list_elem_of_omap. exists (acc, i, d). by rewrite Ho.
Qed.

(** An output the scan returns for a key set, outside a coinbase: its commitment
    opens, and the wallet's key opens its address. *)
Lemma found_spendable keys spend o idx h d :
  own_keys spend keys ->
  scan_output_keys blake3 o idx h false keys = Some d ->
  do_output d = o /\ do_output_index d = idx
  /\ commit (do_amount d) (do_blinding_factor d) = commitment o
  /\ exists k, compute_one_time_secret (mkStealthAddress (stealth_address o) (tx_public_key o))
       (view_secret keys) (effective_spend spend keys d) idx = Some k
     /\ public_of k = stealth_address o.
Proof.
  intros [Hs Hsub]. unfold scan_output_keys.
  set (stealth := mkStealthAddress (stealth_address o) (tx_public_key o)).
  destruct (is_output_ours stealth (view_secret keys) (spend_public keys) idx) eqn:Eo.
  - destruct (decrypt_amount blake3 _ _) as [amt bl]. case_bool_decide as Hc; [|done]. intros [= <-].
    split_and!; [done..|]. unfold effective_spend. cbn. rewrite Hs in Eo.
    exact (one_time_opens _ _ _ _ Eo).
  - destruct (first_subaddress keys stealth idx) as [[acc i]|] eqn:Ef; [|done]. cbn [fmap option_fmap option_map].
    destruct (decrypt_amount blake3 _ _) as [amt bl]. case_bool_decide as Hc; [|done]. intros [= <-].
    split_and!; [done..|]. unfold effective_spend. cbn.
    apply first_subaddress_some in Ef as (d&Hin&Hd). rewrite (Hsub _ _ _ Hin) in Hd.
    exact (one_time_opens _ _ _ _ Hd).
Qed.

(** ** Payments *)

(** What the two ends of a payment share. *)
Lemma built_shared spend view i s amount lock idx r memo o :
  honest_sub spend view i s ->
  build_output (sub_spend_public s) (sub_view_public s) amount lock idx (negb (is_main i)) r memo
    = Some o ->
  exists shared,
    sub_spend_public s = public_of (compute_subaddress_spend_secret blake3 spend view i)
    /\ is_output_ours (mkStealthAddress (stealth_address o) (tx_public_key o)) view
         (sub_spend_public s) idx = true
    /\ compute_shared_secret blake3 view (tx_public_key o) idx = shared
    /\ commitment o = commit amount (blinding_of blake3 shared)
    /\ encrypted_amount o = xor_bytes (le_bytes 8 amount) (take 8 (amount_key blake3 shared))
    /\ lock_height o = lock.
Proof.
  intros (Hi&Hs&Hv). unfold Stealth.build_output, generate_stealth_address_checked_ext.
  set (sec := compute_subaddress_spend_secret blake3 spend view i) in *.
  assert (Hshared : exists vp, point_of_bytes (sub_view_public s) = Some vp
    /\ point_mul (if negb (is_main i) then point_mul (base_mul (scalar_of_bytes sec)) r
                  else base_mul r) (scalar_of_bytes view) = point_mul vp r).
  { rewrite Hv. unfold public_of.
    destruct (is_main i); cbn [negb]; rewrite point_roundtrip; eexists; (split; [reflexivity|]).
    - apply base_commute.
    - apply mul_commute. }
  destruct Hshared as (vp&Hvp&Heq). rewrite Hs. unfold public_of. rewrite point_roundtrip, Hvp.
  cbn [mbind option_bind]. intros [= <-].
  cbn [sa_public_key sa_tx_public_key stealth_address tx_public_key commitment encrypted_amount
       lock_height].
  unfold compute_shared_secret, encrypt_amount. rewrite point_roundtrip, Heq.
  rewrite Hvp, scalar_roundtrip.
  eexists. split_and!; [done| |reflexivity..].
  apply ours_iff. cbn [sa_public_key sa_tx_public_key].
  do 2 eexists. rewrite !point_roundtrip. split_and!; [reflexivity..|]. by rewrite Heq.
Qed.

Lemma decrypt_encrypted amount shared :
  is_u64 amount ->
  decrypt_amount blake3 (xor_bytes (le_bytes 8 amount) (take 8 (amount_key blake3 shared))) shared
  = (amount, blinding_of blake3 shared).
Proof.
  intros Ha. unfold decrypt_amount.
  assert (Hk : length (le_bytes 8 amount) = length (take 8 (amount_key blake3 shared))).
  { rewrite le_bytes_length, length_take. unfold amount_key, hash_domain. rewrite hash_length. lia. }
  rewrite xor_bytes_length, le_bytes_length by done. cbn [Nat.leb].
  rewrite take_ge by (rewrite xor_bytes_length, le_bytes_length by done; lia).
  rewrite xor_bytes_twice, le_val_le_bytes; [done|word_lia|done].
Qed.

(** The wallet finds what is built for one of its addresses. *)
Lemma built_found spend view ep saved i s amount lock idx r memo o h :
  sm_subaddresses (import_subaddresses blake3 (manager_new view (public_of spend) (public_of view))
    saved) !! i = Some s ->
  is_u64 amount ->
  build_output (sub_spend_public s) (sub_view_public s) amount lock idx (negb (is_main i)) r memo
    = Some o ->
  exists d,
    scan_output_keys blake3 o idx h false
      (registered_keys blake3 view (public_of spend) (public_of view) ep saved) = Some d
    /\ do_amount d = amount /\ do_tx_hash d = h /\ lock_height o = lock.
Proof.
  intros Hi Ha Hb. pose proof (import_ok spend view saved _ (manager_new_ok spend view)) as Hm.
  pose proof (mo_subs _ _ _ Hm i s Hi) as Hs.
  destruct (built_shared _ _ _ _ _ _ _ _ _ _ Hs Hb) as (sh&Hp&Ho&Hsh&Hc&He&Hl).
  set (keys := registered_keys _ _ _ _ _ _).
  assert (Hmatch : is_output_ours (mkStealthAddress (stealth_address o) (tx_public_key o)) view
      (spend_public keys) idx = true
    \/ is_Some (first_subaddress keys (mkStealthAddress (stealth_address o) (tx_public_key o)) idx)).
  { destruct (is_main i) eqn:Em.
    - left. unfold compute_subaddress_spend_secret in Hp. rewrite Em in Hp. by rewrite Hp in Ho.
    - right. eapply first_subaddress_found; [by apply registered_in|exact Ho]. }
  unfold scan_output_keys. cbn [view_secret keys registered_keys]. fold keys.
  rewrite Hsh, He, decrypt_encrypted, bool_decide_true by done.
  destruct (is_output_ours _ _ (spend_public keys) _) eqn:E; [by eexists|].
  destruct Hmatch as [[=]|[p ->]]. by eexists.
Qed.

(** What the scan finds becomes an unspent output of the wallet, with the key
    image of the key that opens its address. *)
Lemma found_to_utxo spend keys o idx h d l height :
  own_keys spend keys ->
  scan_output_keys blake3 o idx h false keys = Some d ->
  exists u k,
    decrypted_to_utxo blake3 (set_locator d l) (view_secret keys) spend height = Ok u
    /\ out_key u = (do_tx_hash d, idx) /\ o_amount u = do_amount d /\ o_spent u = false
    /\ o_lock_height u = lock_height o
    /\ o_key_image u = key_image_from_secret (scalar_of_bytes k) /\ public_of k = stealth_address o.
Proof.
  intros Hk Hd. destruct (found_spendable _ _ _ _ _ _ Hk Hd) as (Ho&Hi&Hc&k&Hs&Hp).
  unfold decrypted_to_utxo. cbn [set_locator do_amount do_blinding_factor do_output
    do_subaddress_index do_output_index do_tx_hash do_output_locator].
  rewrite Ho, Hi, Hc, bool_decide_true by done. cbn [guard_or mbind result_bind].
  unfold effective_spend in Hs. rewrite Hs. cbn [ok_or]. do 2 eexists.
  split; [reflexivity|]. split_and!; done.
Qed.

(** An output of a block that some key set recognises is among those found. *)
Lemma found_in_block tx_hash keys b tx j o d :
  tx ∈ transactions b -> outputs tx !! j = Some o -> (j < 256)%nat ->
  scan_output_keys blake3 o (Z.of_nat j) (tx_hash tx) (bool_decide (tx_type tx = Coinbase)) keys
    = Some d ->
  exists l, set_locator d l ∈ found_outputs blake3 tx_hash [keys] b.
Proof.
  intros Ht Ho Hj Hd. unfold found_outputs. eexists. apply list_elem_of_fmap. exists d.
  split; [reflexivity|]. apply list_elem_of_In, in_concat. exists (scan_transaction blake3 tx_hash [keys] tx).
  split; apply list_elem_of_In; [by apply list_elem_of_fmap_2|].
  unfold scan_transaction. apply list_elem_of_omap. exists (j, o). split.
  - apply list_elem_of_lookup. exists j. rewrite list_lookup_imap, lookup_take_lt, Ho by lia. done.
  - cbn [fst snd]. unfold Stealth.scan_output. cbn [omap list_omap]. by rewrite Hd.
Qed.

(** C30: A payment arrives: an output that the sender's builder adds for the main
    address or a saved subaddress of a wallet, in a transaction of a block, is found by
    the scan of that block and becomes an unspent output of the wallet with exactly
    the amount and the lock that were sent; its key image is the one of a key that
    opens the one-time address. *)
Theorem payment_received tx_hash spend view ep saved i s amount lock r memo b tx outs outs' height :
  sm_subaddresses (import_subaddresses blake3 (manager_new view (public_of spend) (public_of view))
    saved) !! i = Some s ->
  is_u64 amount ->
  add_output_ext blake3 outs (sub_spend_public s) (sub_view_public s) amount lock
    (Z.of_nat (length outs)) (negb (is_main i)) r memo = Ok outs' ->
  tx ∈ transactions b -> tx_type tx <> Coinbase -> outs' `prefix_of` outputs tx ->
  exists o d u k,
    outputs tx !! length outs = Some o
    /\ d ∈ found_outputs blake3 tx_hash
      [registered_keys blake3 view (public_of spend) (public_of view) ep saved] b
    /\ decrypted_to_utxo blake3 d view spend height = Ok u
    /\ out_key u = (tx_hash tx, Z.of_nat (length outs)) /\ o_amount u = amount /\ o_spent u = false
    /\ o_lock_height u = lock
    /\ o_key_image u = key_image_from_secret (scalar_of_bytes k)
    /\ public_of k = stealth_address o.
Proof.
  intros Hi Ha Hb Ht Hc [rest Ho]. unfold add_output_ext in Hb.
  destruct (Z.leb_spec MAX_TX_OUTPUTS (Z.of_nat (length outs))) as [|Hj]; [done|].
  destruct (amount <? MIN_OUTPUT_AMOUNT); [done|].
  destruct (build_output _ _ _ _ _ _ _ _) as [o|] eqn:Eb; [|done]. injection Hb as <-.
  assert (Hl : outputs tx !! length outs = Some o).
  { rewrite Ho, <- app_assoc. apply list_lookup_middle. done. }
  destruct (built_found spend view ep saved _ _ _ _ _ _ _ _ (tx_hash tx) Hi Ha Eb)
    as (d&Hd&<-&Hh&<-).
  destruct (found_in_block tx_hash (registered_keys blake3 view (public_of spend) (public_of view) ep saved)
    b tx (length outs) o d) as (l&Hin); [done|done|unfold MAX_TX_OUTPUTS in Hj; lia| |].
  { by rewrite bool_decide_false. }
  destruct (found_to_utxo _ _ _ _ _ _ l height (registered_own spend view ep saved) Hd)
    as (u&k&Hu&?&?&?&?&?&?).
  exists o, (set_locator d l), u, k. rewrite <- Hh. done.
Qed.

(** ** The coinbase *)

(** A coinbase output that is found only because its address is the spend key: the
    key the wallet derives for it does not open it. *)
Lemma direct_coinbase_unspendable spend view o idx k :
  stealth_address o = public_of spend ->
  is_output_ours (mkStealthAddress (stealth_address o) (tx_public_key o)) view (public_of spend) idx
    = false ->
  compute_one_time_secret (mkStealthAddress (stealth_address o) (tx_public_key o)) view spend idx
    = Some k ->
  public_of k <> stealth_address o.
Proof.
  intros _ Hn Hk E. apply not_true_iff_false in Hn. apply Hn, ours_iff.
  unfold compute_one_time_secret in Hk. cbn [sa_tx_public_key sa_public_key] in *.
  destruct (point_of_bytes (tx_public_key o)) as [tp|] eqn:Et; [|done]. cbn in Hk. injection Hk as <-.
  exists tp, (base_mul (scalar_of_bytes spend)). unfold public_of in *. rewrite point_roundtrip.
  split_and!; [done|done|]. by rewrite <- E, scalar_roundtrip, base_add.
Qed.


Lemma clear_le_bytes amount : is_u64 amount -> clear_amount (le_bytes 8 amount) = amount.
Proof.
  intros Ha. unfold clear_amount. rewrite le_bytes_length, take_ge by (rewrite le_bytes_length; lia).
  cbn [Nat.leb]. apply le_val_le_bytes. word_lia.
Qed.

Lemma coinbase_found {CR : Crypto} spend view ep saved height amount o h :
  coinbase_output blake3 (public_of spend) (public_of view) height amount = Some o ->
  is_u64 amount ->
  exists d,
    scan_output_keys blake3 o 0 h true
      (registered_keys blake3 view (public_of spend) (public_of view) ep saved) = Some d
    /\ do_amount d = amount /\ do_blinding_factor d = scalar_zero /\ do_output d = o
    /\ do_output_index d = 0 /\ do_subaddress_index d = None /\ do_tx_hash d = h
    /\ commitment o = commit_zero amount /\ lock_height o = None
    /\ is_output_ours (mkStealthAddress (stealth_address o) (tx_public_key o)) view
         (public_of spend) 0 = true.
Proof.
  unfold coinbase_output, coinbase_stealth_address, public_of. rewrite !point_roundtrip.
  cbn [mbind option_bind]. intros [= <-] Ha.
  assert (Ho : forall r pk, is_output_ours (mkStealthAddress (point_bytes (curve_add (base_mul
      (hash_to_scalar (point_bytes (point_mul (base_mul (scalar_of_bytes view)) r) ++ [0]))) pk))
      (point_bytes (base_mul r))) view (point_bytes pk) 0 = true).
  { intros r pk. apply ours_iff. cbn [sa_public_key sa_tx_public_key]. do 2 eexists.
    rewrite !point_roundtrip. split_and!; [reflexivity..|]. by rewrite base_commute. }
  unfold scan_output_keys. cbn [registered_keys view_secret spend_public stealth_address
    tx_public_key encrypted_amount]. unfold public_of. rewrite Ho, orb_true_r. eexists.
  split; [reflexivity|]. cbn [do_amount do_blinding_factor do_output do_output_index
    do_subaddress_index do_tx_hash commitment lock_height stealth_address tx_public_key].
  split; [|split_and!; try done; apply Ho].
  exact (clear_le_bytes amount Ha).
Qed.

(** The miner is paid: the coinbase the block builder makes for the main address
    of a wallet is found by the scan of the block and becomes an unspent output worth
    the reward and the claimed fees, with the key image of a key that opens its
    one-time address. *)
Theorem coinbase_received {CR : Crypto} tx_hash spend view ep saved height fees bits tx b seen :
  (forall v, commit_zero v = commit v scalar_zero) ->
  build_coinbase_with_fees blake3 height (public_of spend) (public_of view) fees bits = Ok tx ->
  is_u64 height -> 0 <= fees -> tx ∈ transactions b ->
  exists d u k,
    d ∈ found_outputs blake3 tx_hash
      [registered_keys blake3 view (public_of spend) (public_of view) ep saved] b
    /\ decrypted_to_utxo blake3 d view spend seen = Ok u
    /\ out_key u = (tx_hash tx, 0) /\ o_amount u = sat_add u64_max (reward height) fees
    /\ o_spent u = false /\ o_lock_height u = None
    /\ o_key_image u = key_image_from_secret (scalar_of_bytes k)
    /\ [public_of k] = stealth_address <$> outputs tx.
Proof.
  intros Hz Hb Hh Hf Ht. unfold build_coinbase_with_fees in Hb.
  destruct (coinbase_output _ _ _ _ _) as [o|] eqn:Eo; [|done]. injection Hb as <-.
  set (tx := mkTransaction _ _ _ _ _ _ _) in *.
  assert (Ha : is_u64 (sat_add u64_max (reward height) fees)).
  { pose proof (reward_spec height Hh) as [_ ?]. unfold sat_add. word_lia. }
  destruct (coinbase_found spend view ep saved height _ o (tx_hash tx) Eo Ha)
    as (d&Hd&Hda&Hdb&Hdo&Hdi&Hds&Hdh&Hc&Hl&Ho).
  destruct (found_in_block tx_hash (registered_keys blake3 view (public_of spend) (public_of view)
    ep saved) b tx 0 o d) as (l&Hin); [done|done|lia|by rewrite bool_decide_true|].
  destruct (one_time_opens _ _ _ _ Ho) as (k&Hk&Hp).
  exists (set_locator d l). unfold decrypted_to_utxo. cbn [set_locator do_amount do_blinding_factor
    do_output do_subaddress_index do_output_index do_tx_hash do_output_locator].
  rewrite Hda, Hdb, Hdo, Hdi, Hds, Hdh, Hc, Hz, bool_decide_true by done.
  cbn [guard_or mbind result_bind]. rewrite Hk. cbn [ok_or]. do 2 eexists.
  split; [done|]. split; [reflexivity|]. split_and!; try done. cbn. by rewrite Hp.
Qed.
End laws.

(** ** A small curve *)

(** The integers as a group: a scalar is its own multiple of the base point. *)
#[export] Instance line_curve : Curve := {|
  Scalar := Z;
  CurvePoint := Z;
  scalar_of_bytes l := default 0 (last l);
  scalar_of_sha3_512 l := foldl (fun a x => (a * 3 + x) mod 251) 1 l;
  point_of_bytes := head;
  point_bytes p := [p];
  base_mul s := s;
  point_mul := Z.mul;
  curve_add := Z.add;
|}.

#[export] Instance line_wallet_curve : WalletCurve (CV := line_curve) := {|
  scalar_zero := 0;
  scalar_add := Z.add;
  scalar_of_u64 v := v;
  scalar_bytes s := [s];
  generator_h := 1000;
  point_of_sha3_512 l := foldl (fun a x => (a * 5 + x) mod 241) 1 l;
|}.

#[export] Instance line_laws : CurveLaws (CV := line_curve) (WC := line_wallet_curve).
Proof. split; intros; cbn; try done; lia. Qed.

Definition line_hash (l : list Z) : Hash :=
  replicate 24 7 ++ le_bytes 8 (foldl (fun a x => (a * 3 + x + 1) mod (2 ^ 61 - 1)) 7 l).

Lemma line_hash_length l : length (line_hash l) = 32%nat.
Proof. unfold line_hash. by rewrite length_app, length_replicate. Qed.

#[export] Instance line_crypto : Crypto := {|
  Point := Z;
  identity := 0;
  point_add := Z.add;
  decompress := head;
  commit_zero v := commit v scalar_zero;
  clsag_verify _ _ _ _ := true;
  range_proof_parses _ := true;
  range_proofs_verify _ _ _ := true;
  signature_bytes _ := [];
|}.

(** The wallet with the secrets 9 and 4, which has saved its subaddress 0/1. *)
Definition line_saved : list SubaddressRecord := [mkSubaddressRecord 0 1 "rent" false].
Definition line_sub : Subaddress :=
  default (mkSubaddress MAIN [] [] "" false) (sm_subaddresses (import_subaddresses line_hash
    (manager_new [4] (public_of [9]) (public_of [4])) line_saved) !! mkSubaddressIndex 0 1).
Definition line_paid : TxOutput :=
  default (mkTxOutput [] [] [] [] 0 None []) (build_output line_hash (sub_spend_public line_sub)
    (sub_view_public line_sub) 5000000 (Some 40) 0 true 6 []).
Definition line_tx (k : Z) (outs : list TxOutput) : Transaction :=
  mkTransaction 1 Transfer [] outs 2 [] [k].
Definition line_header (h : Z) (prev : Hash) : BlockHeader :=
  mkBlockHeader [] 1 h 0 prev [] [] 0 0 [] [] [] None [] [].
Definition line_block (h : Z) (prev : Hash) (txs : list Transaction) : Block :=
  mkBlock (line_header h prev) txs.
Definition line_id (tx : Transaction) : Hash := extra tx.

Lemma line_sub_saved : sm_subaddresses (import_subaddresses line_hash
    (manager_new [4] (public_of [9]) (public_of [4])) line_saved) !! mkSubaddressIndex 0 1
  = Some line_sub.
Proof. vm_compute. reflexivity. Qed.

Lemma line_paid_added :
  add_output_ext line_hash [] (sub_spend_public line_sub) (sub_view_public line_sub) 5000000 (Some 40) 0
    true 6 [] = Ok [line_paid].
Proof. vm_compute. reflexivity. Qed.

(** The output sent to the subaddress arrives. *)
Lemma payment_received_witness :
  exists o d u k,
    outputs (line_tx 1 [line_paid]) !! 0%nat = Some o
    /\ d ∈ found_outputs line_hash line_id
      [registered_keys line_hash [4] (public_of [9]) (public_of [4]) 0 line_saved]
      (line_block 5 [] [line_tx 1 [line_paid]])
    /\ decrypted_to_utxo line_hash d [4] [9] 5 = Ok u
    /\ out_key u = ([1], 0) /\ o_amount u = 5000000 /\ o_spent u = false
    /\ o_lock_height u = Some 40
    /\ o_key_image u = key_image_from_secret (scalar_of_bytes k)
    /\ public_of k = stealth_address o.
Proof.
  apply (payment_received (CL := line_laws) line_hash line_hash_length line_id [9] [4] 0 line_saved
    (mkSubaddressIndex 0 1) line_sub 5000000 (Some 40) 6 []
    (line_block 5 [] [line_tx 1 [line_paid]]) (line_tx 1 [line_paid]) [] [line_paid] 5).
  - exact line_sub_saved.
  - split; discriminate.
  - exact line_paid_added.
  - apply list_elem_of_singleton. reflexivity.
  - discriminate.
  - exists []. reflexivity.
Defined.

Definition line_coinbase : Transaction :=
  match build_coinbase_with_fees line_hash 7 (public_of [9]) (public_of [4]) 3 1 with
  | Ok tx => tx
  | Err _ => line_tx 0 []
  end.

Lemma line_coinbase_built :
  build_coinbase_with_fees line_hash 7 (public_of [9]) (public_of [4]) 3 1 = Ok line_coinbase.
Proof. vm_compute. reflexivity. Qed.

(** The coinbase of block 7, with 3 units of fees. *)
Lemma coinbase_received_witness :
  exists d u k,
    d ∈ found_outputs line_hash line_id
      [registered_keys line_hash [4] (public_of [9]) (public_of [4]) 0 line_saved]
      (line_block 7 [] [line_coinbase])
    /\ decrypted_to_utxo line_hash d [4] [9] 7 = Ok u
    /\ out_key u = (line_id line_coinbase, 0) /\ o_amount u = sat_add u64_max (reward 7) 3
    /\ o_spent u = false /\ o_lock_height u = None
    /\ o_key_image u = key_image_from_secret (scalar_of_bytes k)
    /\ [public_of k] = stealth_address <$> outputs line_coinbase.
Proof.
  apply (coinbase_received (CL := line_laws) line_hash line_id [9] [4] 0 line_saved 7 3 1 line_coinbase
    (line_block 7 [] [line_coinbase]) 7).
  - intros v. reflexivity.
  - exact line_coinbase_built.
  - split; discriminate.
  - lia.
  - apply list_elem_of_singleton. reflexivity.
Defined.
