(* ===== verification/WalletRules.v ===== *)
(** * The wallet follows the chain

    The reference ledger of a list of blocks, and the proof that a scan session
    keeps it: forward steps add and spend what the block adds and spends, a
    recovered reorganisation undoes exactly the orphaned blocks. *)

From stdpp Require Import prelude gmap strings.
From Stdlib Require Import ZArith Lia.
From S2P Require Import Prelude Constants Encoding Amounts Difficulty Block Utxo ForkChoice Chain.
From S2P Require Import ChainSafety Pow Mining Stealth Wallet.

Local Open Scope Z_scope.

Abbreviation Outs := (gmap OutKey UTXO).

(** ** Maps of outputs *)

(** Outputs with a key image in [l] become spent, or unspent. *)
Definition spend_in (l : list KeyImage) (x : bool) (m : Outs) : Outs :=
  (fun u => if bool_decide (o_key_image u ∈ l) then set_spent u x else u) <$> m.

Definition insert_all (l : list UTXO) (m : Outs) : Outs :=
  foldl (fun m u => <[out_key u := u]> m) m l.

Definition without (l : list OutKey) (m : Outs) : Outs := filter (fun p => p.1 ∉ l) m.

(** Each output is under its key, and no two have the same key image. *)
Record outs_ok (m : Outs) : Prop := {
  ok_key k u : m !! k = Some u -> out_key u = k;
  ok_image k k' u u' : m !! k = Some u -> m !! k' = Some u' ->
    o_key_image u = o_key_image u' -> k = k';
}.

Lemma spend_in_lookup l x m k :
  spend_in l x m !! k
  = (fun u => if bool_decide (o_key_image u ∈ l) then set_spent u x else u) <$> m !! k.
Proof. apply lookup_fmap. Qed.

Lemma lookup_without l m k u : without l m !! k = Some u <-> m !! k = Some u /\ k ∉ l.
Proof. unfold without. rewrite map_lookup_filter_Some. done. Qed.

Lemma spend_in_nil x m : spend_in [] x m = m.
Proof.
  apply map_eq. intros k. rewrite spend_in_lookup. destruct (m !! k); cbn; [|done].
  by rewrite bool_decide_false by apply not_elem_of_nil.
Qed.

Lemma set_spent_image u x : o_key_image (set_spent u x) = o_key_image u.
Proof. done. Qed.

Lemma set_spent_same u : set_spent u (o_spent u) = u.
Proof. by destruct u. Qed.

Lemma spend_in_app l l' x m : spend_in (l ++ l') x m = spend_in l' x (spend_in l x m).
Proof.
  apply map_eq. intros k. rewrite !spend_in_lookup. destruct (m !! k) as [u|]; cbn; [|done].
  f_equal. repeat case_bool_decide; rewrite ?set_spent_image in *; try done; set_solver.
Qed.

Lemma without_app l l' m : without (l ++ l') m = without l' (without l m).
Proof.
  apply map_eq. intros k. apply option_eq. intros u. rewrite !lookup_without. set_solver.
Qed.

Lemma spend_in_without l x ks m : spend_in l x (without ks m) = without ks (spend_in l x m).
Proof.
  apply map_eq. intros k. apply option_eq. intros u.
  rewrite lookup_without, !spend_in_lookup, !fmap_Some. setoid_rewrite lookup_without. naive_solver.
Qed.

Lemma spend_in_ok l x m : outs_ok m -> outs_ok (spend_in l x m).
Proof.
  intros [Hk Hi]. split.
  - intros k u. rewrite spend_in_lookup. intros (u0&Hu&->)%fmap_Some. rewrite <- (Hk _ _ Hu).
    by case_bool_decide.
  - intros k k' u u'. rewrite !spend_in_lookup.
    intros (v&Hv&->)%fmap_Some (v'&Hv'&->)%fmap_Some E. apply (Hi k k' v v' Hv Hv').
    by repeat case_bool_decide.
Qed.

Lemma without_ok l m : outs_ok m -> outs_ok (without l m).
Proof.
  intros [Hk Hi]. split.
  - intros k u [Hu _]%lookup_without. by apply Hk.
  - intros k k' u u' [Hu _]%lookup_without [Hu' _]%lookup_without. by eapply Hi.
Qed.

(** ** The balance *)

(** The index of the key images is exact. *)
Record bal_ok (b : Balance) : Prop := {
  bk_outs : outs_ok (utxos b);
  bk_index ki k : key_image_index b !! ki = Some k <->
    exists u, utxos b !! k = Some u /\ o_key_image u = ki;
}.

Lemma bal_ok_new : bal_ok Bal.new.
Proof.
  split; [by split|]. intros ki k. cbn. rewrite lookup_empty. split; [done|]. by intros (u&?&_).
Qed.

Lemma index_none b ki : bal_ok b -> key_image_index b !! ki = None ->
  forall k u, utxos b !! k = Some u -> o_key_image u <> ki.
Proof.
  intros [_ Hx] Hn k u Hu E. assert (H : key_image_index b !! ki = Some k) by (apply Hx; eauto).
  congruence.
Qed.

(** A change of spent flags only. *)
Lemma bal_ok_spend b l x r :
  bal_ok b -> bal_ok (mkBalance (spend_in l x (utxos b)) r (key_image_index b)).
Proof.
  intros [Ho Hx]. split; cbn; [by apply spend_in_ok|]. intros ki k. rewrite Hx.
  setoid_rewrite spend_in_lookup. split.
  - intros (u&Hu&<-). rewrite Hu. cbn. eexists. split; [done|]. by case_bool_decide.
  - intros (u&(v&Hv&->)%fmap_Some&<-). exists v. split; [done|]. by case_bool_decide.
Qed.

(** One output of the map has the key image. *)
Lemma spend_one m ki k u x :
  outs_ok m -> m !! k = Some u -> o_key_image u = ki ->
  spend_in [ki] x m = <[k := set_spent u x]> m.
Proof.
  intros Ho Hu E. apply map_eq. intros k'. rewrite spend_in_lookup.
  destruct (decide (k' = k)) as [->|Hne].
  - rewrite lookup_insert_eq, Hu. cbn. rewrite bool_decide_true; [done|]. by apply list_elem_of_singleton.
  - rewrite lookup_insert_ne by done. destruct (m !! k') as [v|] eqn:Ev; cbn; [|done].
    rewrite bool_decide_false; [done|]. intros Hin%list_elem_of_singleton. apply Hne.
    apply (ok_image m Ho k' k v u); congruence.
Qed.

Lemma spend_none m ki x :
  (forall k u, m !! k = Some u -> o_key_image u = ki -> o_spent u = x) -> spend_in [ki] x m = m.
Proof.
  intros H. apply map_eq. intros k. rewrite spend_in_lookup. destruct (m !! k) as [u|] eqn:E; cbn; [|done].
  case_bool_decide as Hb; [|done]. apply list_elem_of_singleton in Hb.
  by rewrite <- (H k u E Hb), set_spent_same.
Qed.

Lemma unmark_utxos b ki :
  bal_ok b ->
  utxos (Bal.unmark_spent_by_key_image b ki).2 = spend_in [ki] false (utxos b)
  /\ bal_ok (Bal.unmark_spent_by_key_image b ki).2.
Proof.
  intros Hb. unfold Bal.unmark_spent_by_key_image.
  destruct (key_image_index b !! ki) as [k|] eqn:Ei.
  - destruct (proj1 (bk_index b Hb ki k) Ei) as (u&Hu&E). rewrite Hu.
    pose proof (spend_one (utxos b) ki k u false (bk_outs b Hb) Hu E) as Hs.
    destruct (o_spent u) eqn:Es; cbn [snd utxos].
    + rewrite <- Hs. split; [done|]. by apply bal_ok_spend.
    + split; [|done]. rewrite Hs, <- Es, set_spent_same. symmetry. by apply insert_id.
  - split; [|done]. symmetry. apply spend_none. intros k u Hu E.
    by destruct (index_none b ki Hb Ei k u Hu).
Qed.

Lemma mark_utxos w ki :
  bal_ok (w_balance w) ->
  utxos (w_balance (mark_spent_by_key_image w ki)) = spend_in [ki] true (utxos (w_balance w))
  /\ bal_ok (w_balance (mark_spent_by_key_image w ki)).
Proof.
  intros Hb. unfold mark_spent_by_key_image, Bal.lookup_by_key_image.
  destruct (key_image_index (w_balance w) !! ki) as [k|] eqn:Ei; cbn [mbind option_bind].
  - destruct (proj1 (bk_index _ Hb ki k) Ei) as (u&Hu&E). rewrite Hu.
    pose proof (spend_one _ ki k u true (bk_outs _ Hb) Hu E) as Hs.
    destruct (o_spent u) eqn:Es.
    + split; [|done]. rewrite Hs, <- Es, set_spent_same. symmetry. by apply insert_id.
    + cbn [w_balance with_balance Bal.mark_spent utxos].
      assert (Ha : alter (fun u => set_spent u true) k (utxos (w_balance w))
                   = spend_in [ki] true (utxos (w_balance w))).
      { rewrite Hs. apply map_eq. intros k'. destruct (decide (k = k')) as [<-|Hne].
        - by rewrite lookup_alter_eq, lookup_insert_eq, Hu.
        - by rewrite lookup_alter_ne, lookup_insert_ne. }
      unfold Bal.mark_spent. cbn. rewrite Ha. split; [done|]. by apply bal_ok_spend.
  - split; [|done]. symmetry. apply spend_none. intros k u Hu E.
    by destruct (index_none _ ki Hb Ei k u Hu).
Qed.

Lemma remove_one b k r :
  bal_ok b ->
  utxos (Bal.remove_output (r, b) k).2 = without [k] (utxos b) /\ bal_ok (Bal.remove_output (r, b) k).2.
Proof.
  intros Hb. unfold Bal.remove_output. destruct (utxos b !! k) as [u|] eqn:Eu; cbn [snd utxos].
  - assert (Hd : delete k (utxos b) = without [k] (utxos b)).
    { apply map_eq. intros k'. apply option_eq. intros v.
      rewrite lookup_without, lookup_delete_Some, list_elem_of_singleton. naive_solver. }
    split; [done|]. split; cbn [utxos key_image_index].
    + rewrite Hd. apply without_ok, Hb.
    + intros ki k'. rewrite lookup_delete_Some, (bk_index _ Hb). setoid_rewrite lookup_delete_Some.
      split.
      * intros (Hne&v&Hv&<-). exists v. split; [split; [|done]|done]. intros <-. congruence.
      * intros (v&(Hne&Hv)&<-). split; [|eauto]. intros E. apply Hne.
        by apply (ok_image _ (bk_outs _ Hb) k k' u v).
  - split; [|done]. symmetry. apply map_filter_id. intros k' v Hv Hin%list_elem_of_singleton.
    cbn in Hin. congruence.
Qed.

Lemma remove_utxos ks : forall r b,
  bal_ok b ->
  utxos (foldl Bal.remove_output (r, b) ks).2 = without ks (utxos b)
  /\ bal_ok (foldl Bal.remove_output (r, b) ks).2.
Proof.
  induction ks as [|k ks IH]; intros r b Hb.
  - cbn. split; [|done]. symmetry. apply map_filter_id. intros k v _. apply not_elem_of_nil.
  - cbn [foldl]. destruct (remove_one b k r Hb) as [Hu Ho].
    destruct (Bal.remove_output (r, b) k) as [r' b']. cbn [snd] in *.
    destruct (IH r' b' Ho) as [E H]. split; [|done]. rewrite E, Hu, <- without_app. done.
Qed.

Lemma add_utxo_ok b u :
  bal_ok b -> outs_ok (<[out_key u := u]> (utxos b)) ->
  (forall v, utxos b !! out_key u = Some v -> o_key_image v = o_key_image u) ->
  bal_ok (Bal.add_utxo b u).
Proof.
  intros Hb Ho Hsame. split; cbn [utxos key_image_index Bal.add_utxo]; [done|].
  intros ki k. rewrite lookup_insert_Some, (bk_index _ Hb). split.
  - intros [[<- <-]|[Hne (v&Hv&<-)]].
    + exists u. by rewrite lookup_insert_eq.
    + exists v. split; [|done]. rewrite lookup_insert_ne; [done|]. intros <-. by apply Hne, eq_sym, Hsame.
  - intros (v&Hv&<-). destruct (decide (o_key_image u = o_key_image v)) as [E|E].
    + left. split; [done|]. eapply (ok_image _ Ho _ _ u v); [by rewrite lookup_insert_eq|done|done].
    + right. split; [done|]. rewrite lookup_insert_ne in Hv; [by eauto|].
      intros <-. rewrite lookup_insert_eq in Hv. by injection Hv as <-.
Qed.

(** ** One block *)

Definition unspent_image (m : Outs) (ki : KeyImage) : Prop :=
  exists k u, m !! k = Some u /\ o_key_image u = ki /\ o_spent u = false.

(** The outputs [l] are new to [m], in their keys and in their key images. *)
Record fresh (m : Outs) (l : list UTXO) : Prop := {
  fr_keys : NoDup (out_key <$> l);
  fr_images : NoDup (o_key_image <$> l);
  fr_new u : u ∈ l -> m !! out_key u = None;
  fr_new_image u k v : u ∈ l -> m !! k = Some v -> o_key_image v <> o_key_image u;
}.

(** Keys and key images determine each other, in [m] and the outputs [l]. *)
Record compat (m : Outs) (l : list UTXO) : Prop := {
  cp_old u k v : u ∈ l -> m !! k = Some v -> k = out_key u <-> o_key_image v = o_key_image u;
  cp_new u v : u ∈ l -> v ∈ l -> out_key u = out_key v <-> o_key_image u = o_key_image v;
}.

Lemma NoDup_fmap_eq {A B} (f : A -> B) (l : list A) x y :
  NoDup (f <$> l) -> x ∈ l -> y ∈ l -> f x = f y -> x = y.
Proof.
  intros Hn (i&Hi)%list_elem_of_lookup (j&Hj)%list_elem_of_lookup E.
  assert (i = j) as ->; [|congruence]. apply (NoDup_lookup (f <$> l) i j (f x) Hn).
  - by rewrite list_lookup_fmap, Hi.
  - by rewrite list_lookup_fmap, Hj, E.
Qed.

Lemma fresh_compat m l : fresh m l -> compat m l.
Proof.
  intros [Hk Hi Hn Hni]. split.
  - intros u k v Hu Hv. split; [|intros E; by destruct (Hni u k v)]. intros ->. by rewrite (Hn u Hu) in Hv.
  - intros u v Hu Hv. split; intros E; [by rewrite (NoDup_fmap_eq out_key l u v)|].
    by rewrite (NoDup_fmap_eq o_key_image l u v).
Qed.

Lemma insert_ok m u :
  outs_ok m -> (forall k v, m !! k = Some v -> k = out_key u <-> o_key_image v = o_key_image u) ->
  outs_ok (<[out_key u := u]> m).
Proof.
  intros [Hk Hi] Hn. split.
  - intros k v [[<- <-]|[_ Hv]]%lookup_insert_Some; [done|by apply Hk].
  - intros k k' v v' [[<- <-]|[_ Hv]]%lookup_insert_Some [[<- <-]|[_ Hv']]%lookup_insert_Some E;
      [done| | |by eapply Hi]; [symmetry; by apply (Hn k' v')|by apply (Hn k v)].
Qed.

Lemma compat_cons m u l : compat m (u :: l) -> compat (<[out_key u := u]> m) l.
Proof.
  intros [Ho Hn]. split.
  - intros v k x Hv [[<- <-]|[_ Hx]]%lookup_insert_Some; [apply Hn; [by left|by right]|].
    apply Ho; [by right|done].
  - intros v v' Hv Hv'. apply Hn; by right.
Qed.

Lemma compat_head m u l k v :
  compat m (u :: l) -> m !! k = Some v -> k = out_key u <-> o_key_image v = o_key_image u.
Proof. intros [Ho _]. apply Ho. by left. Qed.

Lemma insert_all_ok l : forall m, compat m l -> outs_ok m -> outs_ok (insert_all l m).
Proof.
  induction l as [|u l IH]; intros m Hf Hm; [done|]. cbn. apply IH; [by apply compat_cons|].
  apply insert_ok; [done|]. intros k v. by eapply compat_head.
Qed.

Lemma add_all_ok l : forall b,
  bal_ok b -> compat (utxos b) l ->
  bal_ok (foldl Bal.add_utxo b l) /\ utxos (foldl Bal.add_utxo b l) = insert_all l (utxos b).
Proof.
  induction l as [|u l IH]; intros b Hb Hf; [done|]. cbn [foldl].
  apply (IH (Bal.add_utxo b u)); [|by apply compat_cons].
  apply add_utxo_ok; [done| |].
  - apply insert_ok; [apply Hb|]. intros k v. by eapply compat_head.
  - intros v Hv. by apply (compat_head _ _ _ _ _ Hf Hv).
Qed.

Lemma insert_all_lookup l : forall m k,
  k ∉ out_key <$> l -> insert_all l m !! k = m !! k.
Proof.
  induction l as [|u l IH]; intros m k Hk; [done|]. cbn in Hk.
  change (insert_all (u :: l) m) with (insert_all l (<[out_key u := u]> m)). rewrite IH by set_solver.
  rewrite lookup_insert_ne; [done|]. set_solver.
Qed.

Lemma insert_all_elem l : forall m k u,
  insert_all l m !! k = Some u -> m !! k = Some u \/ u ∈ l /\ out_key u = k.
Proof.
  induction l as [|x l IH]; intros m k u; [by left|].
  change (insert_all (x :: l) m) with (insert_all l (<[out_key x := x]> m)).
  intros [[[<- <-]|[_ H]]%lookup_insert_Some|[Hu E]]%IH; [right|by left|right];
    (split; [|done]); [by left|by right].
Qed.

(** The outputs of a list that has the key decide. *)
Lemma insert_all_found U k :
  k ∈ out_key <$> U -> exists u, u ∈ U /\ forall m, insert_all U m !! k = Some u.
Proof.
  induction U as [|u U IH] using rev_ind; intros Hk; [by apply elem_of_nil in Hk|].
  assert (E : forall m, insert_all (U ++ [u]) m = <[out_key u := u]> (insert_all U m)).
  { intros m. unfold insert_all. by rewrite foldl_app. }
  setoid_rewrite E. destruct (decide (out_key u = k)) as [<-|Hne].
  - exists u. split; [set_solver|]. intros m. apply lookup_insert_eq.
  - destruct IH as (v&Hv&H); [rewrite fmap_app in Hk; set_solver|]. exists v.
    split; [set_solver|]. intros m. by rewrite lookup_insert_ne.
Qed.

(** ** The journal *)

Definition set_marks (d : BlockApplyDiff) (l : list KeyImage) : BlockApplyDiff :=
  mkBlockApplyDiff (df_height d) (df_block_hash d) (df_prev_block_hash d) (df_outputs_added d) l.

Lemma spend_in_unspent ki m x :
  unspent_image (spend_in [ki] true m) x <-> unspent_image m x /\ x <> ki.
Proof.
  unfold unspent_image. setoid_rewrite spend_in_lookup. split.
  - intros (k&u&(v&Hv&->)%fmap_Some&<-&Hs). case_bool_decide as Hb; [done|].
    split; [by eauto|]. by rewrite list_elem_of_singleton in Hb.
  - intros ((k&u&Hu&<-&Hs)&Hne). exists k, u. rewrite Hu. cbn.
    by rewrite bool_decide_false by (by rewrite list_elem_of_singleton).
Qed.

Lemma lookup_unspent b ki :
  bal_ok b -> is_Some (Bal.lookup_by_key_image b ki) <-> unspent_image (utxos b) ki.
Proof.
  intros Hb. unfold Bal.lookup_by_key_image, unspent_image.
  destruct (key_image_index b !! ki) as [k|] eqn:Ei; cbn [mbind option_bind].
  - destruct (proj1 (bk_index _ Hb ki k) Ei) as (u&Hu&E). rewrite Hu. split.
    + destruct (o_spent u) eqn:Es; [by intros []|]. eauto.
    + intros (k'&v&Hv&Ev&Hs). assert (k' = k) as -> by (apply (ok_image _ (bk_outs _ Hb) k' k v u); congruence).
      rewrite Hu in Hv. injection Hv as ->. by rewrite Hs.
  - split; [by intros []|]. intros (k&u&Hu&E&_). by destruct (index_none _ _ Hb Ei k u Hu).
Qed.

(** The spends of a block: the wallet marks them, the last entry of the journal
    names those that were not marked before. *)
Lemma spends_ok kis : forall w s J d,
  bal_ok (w_balance w) -> ws_journal s = J ++ [d] ->
  exists w' s' L,
    foldl spend_step (w, s) kis = (w', s')
    /\ bal_ok (w_balance w') /\ utxos (w_balance w') = spend_in kis true (utxos (w_balance w))
    /\ s' = set_journal s (J ++ [set_marks d L])
    /\ forall ki, ki ∈ L <->
         ki ∈ df_key_images_marked_spent d \/ ki ∈ kis /\ unspent_image (utxos (w_balance w)) ki.
Proof.
  induction kis as [|ki kis IH]; intros w s J d Hb Hj.
  { exists w, s, (df_key_images_marked_spent d). cbn [foldl]. rewrite spend_in_nil.
    split_and!; [done..| |].
    - destruct s, d. cbn in *. unfold set_journal, set_marks. cbn. congruence.
    - intros ki. rewrite elem_of_nil. tauto. }
  cbn [foldl spend_step]. destruct (mark_utxos w ki Hb) as [Hu Hb'].
  pose proof (lookup_unspent (w_balance w) ki Hb) as Hl.
  set (s1 := match Bal.lookup_by_key_image (w_balance w) ki with
             | Some _ => record_spend_for_last_block s ki | None => s end).
  assert (exists L1, s1 = set_journal s (J ++ [set_marks d L1]) /\ forall x, x ∈ L1 <->
    x ∈ df_key_images_marked_spent d \/ x = ki /\ unspent_image (utxos (w_balance w)) ki)
    as (L1&Hs1&HL1).
  { unfold s1. destruct (Bal.lookup_by_key_image (w_balance w) ki) as [k|].
    - exists (df_key_images_marked_spent d ++ [ki]). unfold record_spend_for_last_block.
      rewrite Hj, last_snoc, removelast_last. split; [done|]. intros x. rewrite elem_of_app, list_elem_of_singleton.
      destruct Hl as [Hl _]. naive_solver.
    - exists (df_key_images_marked_spent d). split.
      + destruct s, d. cbn in *. unfold set_journal, set_marks. cbn. congruence.
      + intros x. destruct Hl as [_ Hl]. split; [tauto|]. intros [?|[_ H]]; [done|].
        by destruct (Hl H). }
  destruct (IH (mark_spent_by_key_image w ki) s1 J (set_marks d L1) Hb') as (w'&s'&L&E&Hb2&Hu2&Hs2&HL).
  { by rewrite Hs1. }
  exists w', s', L. split_and!; [done|done| |by rewrite Hs2, Hs1|].
  - rewrite Hu2, Hu, <- spend_in_app. done.
  - intros x. rewrite HL, Hu, spend_in_unspent. cbn [df_key_images_marked_spent set_marks].
    rewrite HL1, elem_of_cons. destruct (decide (x = ki)) as [->|Hne]; tauto.
Qed.

(** ** The reference ledger *)

Section ledger.
Context `{WC : WalletCurve} (blake3 : list Z -> Hash) (tx_hash : Transaction -> Hash).
Context (K : ScanKeys) (spend : SecretKey).
Implicit Types (b : Block) (C : list Block) (F : list BlockApplyDiff) (m base : Outs).

Abbreviation to_utxo := (fun h d =>
  match decrypted_to_utxo blake3 d (view_secret K) spend h with Ok u => Some u | Err _ => None end).

(** The outputs of the wallet in a block. *)
Definition block_utxos b : list UTXO :=
  omap (to_utxo (block_height b)) (found_outputs blake3 tx_hash [K] b).

(** A block adds its outputs, then spends. *)
Definition learn m b : Outs := spend_in (block_spends b) true (insert_all (block_utxos b) m).

(** What the wallet should own after the blocks [C]. *)
Definition ledger base C : Outs := foldl learn base C.

(** The entry of the journal that undoes [b] from [learn m b]. *)
Record diff_ok m b (d : BlockApplyDiff) : Prop := {
  do_height : df_height d = block_height b;
  do_hash : df_block_hash d = header_hash blake3 (header b);
  do_outs : df_outputs_added d = out_key <$> block_utxos b;
  do_found : df_outputs_added d
    = (fun x => (do_tx_hash x, do_output_index x)) <$> found_outputs blake3 tx_hash [K] b;
  do_marks ki : ki ∈ df_key_images_marked_spent d <->
    ki ∈ block_spends b /\ unspent_image (insert_all (block_utxos b) m) ki;
}.

Inductive journaled base : list Block -> list BlockApplyDiff -> Prop :=
| journaled_nil : journaled base [] []
| journaled_snoc C F b d :
    journaled base C F -> compat (ledger base C) (block_utxos b) -> diff_ok (ledger base C) b d ->
    journaled base (C ++ [b]) (F ++ [d]).

Lemma ledger_snoc base C b : ledger base (C ++ [b]) = learn (ledger base C) b.
Proof. unfold ledger. by rewrite foldl_app. Qed.

Lemma learn_ok m b : outs_ok m -> compat m (block_utxos b) -> outs_ok (learn m b).
Proof. intros Hm Hf. by apply spend_in_ok, insert_all_ok. Qed.

Lemma journaled_length base C F : journaled base C F -> length C = length F.
Proof. induction 1; [done|]. rewrite !length_app. cbn. lia. Qed.

Lemma journaled_ok base C F : outs_ok base -> journaled base C F -> outs_ok (ledger base C).
Proof. intros Hb. induction 1; [done|]. rewrite ledger_snoc. by apply learn_ok. Qed.

Definition rollback (d : BlockApplyDiff) m : Outs :=
  spend_in (df_key_images_marked_spent d) false (without (df_outputs_added d) m).

(** An entry undoes its block. *)
Lemma rollback_learn m b d :
  outs_ok m -> fresh m (block_utxos b) -> diff_ok m b d -> rollback d (learn m b) = m.
Proof.
  intros Hm Hf [_ _ Ho _ Hk]. apply map_eq. intros k. unfold rollback. rewrite spend_in_lookup, Ho.
  destruct (decide (k ∈ out_key <$> block_utxos b)) as [Hin|Hout].
  - assert (without (out_key <$> block_utxos b) (learn m b) !! k = None) as ->.
    { apply eq_None_not_Some. intros [u [_ ?]%lookup_without]. done. }
    apply list_elem_of_fmap in Hin as (u&->&Hu). by rewrite (fr_new _ _ Hf).
  - assert (without (out_key <$> block_utxos b) (learn m b) !! k = learn m b !! k) as ->.
    { apply option_eq. intros u. rewrite lookup_without. tauto. }
    unfold learn. rewrite spend_in_lookup, insert_all_lookup by done.
    destruct (m !! k) as [u|] eqn:Eu; [|done]. cbn. f_equal.
    assert (Hu : insert_all (block_utxos b) m !! k = Some u) by (by rewrite insert_all_lookup).
    specialize (Hk (o_key_image u)).
    destruct (decide (o_key_image u ∈ block_spends b)) as [Hs|Hs].
    + rewrite (bool_decide_true (o_key_image u ∈ block_spends b)) by done. cbn.
      destruct (o_spent u) eqn:Es.
      * rewrite bool_decide_false; [by rewrite <- Es, set_spent_same|].
        rewrite Hk. intros [_ (k'&v&Hv&Ev&Hvs)].
        assert (k' = k) as -> by (by eapply (ok_image _ (insert_all_ok _ _ (fresh_compat _ _ Hf) Hm))). congruence.
      * rewrite bool_decide_true; [by destruct u; cbn in *; subst|]. apply Hk. split; [done|].
        by exists k, u.
    + rewrite (bool_decide_false (o_key_image u ∈ block_spends b)) by done.
      rewrite bool_decide_false; [done|]. rewrite Hk. tauto.
Qed.

Lemma rollback_app l l' O O' m :
  spend_in (l ++ l') false (without (O ++ O') m)
  = spend_in l' false (without O' (spend_in l false (without O m))).
Proof. rewrite spend_in_app, without_app. by rewrite (spend_in_without l). Qed.

(** Every block of [C] brings new outputs. *)
Definition all_fresh base C : Prop :=
  forall C' b R, C = C' ++ b :: R -> fresh (ledger base C') (block_utxos b).

(** Entries from the back undo the blocks they were written for. *)
Lemma rewind_ledger base C2 : forall F2 C1 F1,
  outs_ok base -> all_fresh base (C1 ++ C2) -> journaled base (C1 ++ C2) (F1 ++ F2) ->
  length C2 = length F2 ->
  journaled base C1 F1
  /\ spend_in (concat (df_key_images_marked_spent <$> reverse F2)) false
       (without (concat (df_outputs_added <$> reverse F2)) (ledger base (C1 ++ C2)))
     = ledger base C1.
Proof.
  induction C2 as [|b C2 IH] using rev_ind; intros F2 C1 F1 Hb Hfr Hj Hlen.
  - destruct F2; [|done]. rewrite !app_nil_r in *. split; [done|]. cbn. rewrite spend_in_nil.
    apply map_filter_id. intros k v _. apply not_elem_of_nil.
  - destruct F2 as [|d F2 _] using rev_ind; [rewrite length_app in Hlen; cbn in Hlen; lia|].
    rewrite !length_app in Hlen. cbn in Hlen. rewrite !app_assoc in Hj.
    inversion Hj as [E|C F b' d' Hj' Hf Hd E1 E2]; [by destruct (app_cons_not_nil _ _ _ E)|].
    apply app_inj_tail in E1 as [-> ->]. apply app_inj_tail in E2 as [-> ->].
    rewrite app_assoc in Hfr. destruct (IH F2 C1 F1 Hb) as [H1 H2]; [|done|lia|split; [done|]].
    { intros C' x R E. apply (Hfr C' x (R ++ [b])). by rewrite E, <- app_assoc. }
    rewrite reverse_app. cbn [reverse rev_append app fmap list_fmap concat].
    rewrite rollback_app, app_assoc, ledger_snoc.
    change (spend_in (df_key_images_marked_spent d) false _) with (rollback d (learn (ledger base (C1 ++ C2)) b)).
    rewrite rollback_learn; [done|by eapply journaled_ok|by apply (Hfr _ _ [])|done].
Qed.
End ledger.
