(* ===== verification/WalletScan.v ===== *)
(** * A scan session

    The steps of a session keep the reference ledger of the blocks scanned so
    far, and these blocks are always a stretch of one of the chains the node
    has shown. *)

From stdpp Require Import prelude gmap strings.
From Stdlib Require Import ZArith Lia.
From S2P Require Import Prelude Constants Encoding Amounts Difficulty Block Utxo ForkChoice Chain.
From S2P Require Import ChainSafety Pow Mining Stealth Wallet WalletRules.

Local Open Scope Z_scope.

Section session.
Context `{WC : WalletCurve} (blake3 : list Z -> Hash) (tx_hash : Transaction -> Hash).
Context (K : ScanKeys) (spend : SecretKey).
Implicit Types (b : Block) (C : list Block) (F : list BlockApplyDiff) (se : Session) (base : Outs).

Abbreviation hash_of := (fun b => header_hash blake3 (header b)).
Abbreviation block_utxos := (block_utxos blake3 tx_hash K spend).
Abbreviation ledger := (ledger blake3 tx_hash K spend).
Abbreviation journaled := (journaled blake3 tx_hash K spend).
Abbreviation scan_one := (scan_one blake3 tx_hash (view_secret K) spend).
Abbreviation scan_batch := (scan_batch blake3 tx_hash (view_secret K) spend).
Abbreviation scan_loop := (scan_loop blake3 tx_hash (view_secret K) spend).

(** The session holds the ledger of [C] over what the wallet had before, and a
    journal that can undo the last blocks of [C]. *)
Record session_inv base C se : Prop := {
  si_bal : bal_ok (w_balance (se_wallet se));
  si_utxos : utxos (w_balance (se_wallet se)) = ledger base C;
  si_keys : ws_keys (se_scanner se) = [K];
  si_last d : last (ws_journal (se_scanner se)) = Some d ->
    ws_last_height (se_scanner se) = df_height d;
  si_journal : exists F n, journaled base C F
    /\ ws_journal (se_scanner se) = drop n F /\ (C = [] /\ n = O \/ (n < length F)%nat);
}.

(** ** Scanning one block *)

Lemma add_found_err view sp h e found :
  foldl (fun (r : result spend_error Wallet) d =>
    w ← r; u ← decrypted_to_utxo blake3 d view sp h;
    Ok (with_balance w (Bal.add_utxo (w_balance w) u))) (Err e) found = Err e.
Proof. induction found; [done|]. by cbn. Qed.

Lemma add_found_ok h found : forall w w',
  add_found blake3 w (view_secret K) spend h found = Ok w' ->
  let us := omap (fun d => match decrypted_to_utxo blake3 d (view_secret K) spend h with
                           | Ok u => Some u | Err _ => None end) found in
  w_balance w' = foldl Bal.add_utxo (w_balance w) us
  /\ out_key <$> us = (fun d => (do_tx_hash d, do_output_index d)) <$> found.
Proof.
  induction found as [|d found IH]; intros w w' H.
  { unfold add_found in H. cbn in H. by injection H as <-. }
  unfold add_found in H. cbn [foldl mbind result_bind] in H.
  destruct (decrypted_to_utxo blake3 d (view_secret K) spend h) as [u|e] eqn:Eu;
    cbn [mbind result_bind] in H; [|by rewrite add_found_err in H].
  destruct (IH _ _ H) as [E1 E2]. cbn [omap list_omap]. rewrite Eu. split; [done|].
  cbn [fmap list_fmap] in *. rewrite E2. f_equal. unfold decrypted_to_utxo in Eu.
  destruct (guard_or _ _); [|done]. cbn [mbind result_bind] in Eu.
  destruct (ok_or _ _); [|done]. by injection Eu as <-.
Qed.

Lemma last_drop {A} (F : list A) n : (n < length F)%nat -> last (drop n F) = last F.
Proof.
  intros Hn. rewrite !last_lookup, length_drop, lookup_drop. f_equal. lia.
Qed.

Lemma journaled_last base C F c :
  journaled base C F -> last C = Some c -> exists d, last F = Some d
    /\ df_height d = block_height c /\ df_block_hash d = hash_of c.
Proof.
  destruct 1 as [|C F b d _ _ [? ? _ _ _]]; [done|]. rewrite !last_snoc. intros [= <-]. eauto.
Qed.

(** No reorganisation is signalled only for a block that may follow. *)
Lemma no_signal base C se b c :
  session_inv base C se -> last C = Some c -> reorg_signal (se_scanner se) b = None ->
  block_height c < block_height b
  /\ (block_height b = wrap64 (block_height c + 1) -> prev_hash (header b) = hash_of c).
Proof.
  intros [_ _ _ _ (F&n&Hj&Hd&Hn)] Hc. unfold reorg_signal. rewrite Hd.
  destruct Hn as [[-> ->]|Hn]; [done|]. rewrite last_drop by done.
  destruct (journaled_last _ _ _ _ Hj Hc) as (d&->&Hh&->). rewrite Hh.
  destruct (_ && _) eqn:E; [done|]. destruct (Z.leb_spec (block_height b) (block_height c)); [done|].
  intros _. split; [lia|]. intros Hw. apply andb_false_iff in E as [E|E].
  - apply Z.eqb_neq in E. done.
  - apply negb_false_iff, bool_decide_eq_true in E. done.
Qed.

Lemma scan_one_ok base C se b h se' :
  session_inv base C se -> compat (ledger base C) (block_utxos b) -> block_height b = h ->
  scan_one se (h, b) = Ok (inl se') ->
  session_inv base (C ++ [b]) se' /\ se_last_height se' = h
  /\ reorg_signal (se_scanner se) b = None.
Proof.
  intros [Hb Hu Hk _ (F&n&Hj&Hd&Hn)] Hf Hh. unfold Wallet.scan_one, scan_block_with_result.
  destruct (reorg_signal (se_scanner se) b); [done|]. rewrite Hk.
  set (diff := mkBlockApplyDiff _ _ _ _ _).
  destruct (add_found _ _ _ _ _ _) as [w|] eqn:Ea; [|done].
  apply add_found_ok in Ea as [E1 E2]. cbn zeta in E1, E2.
  destruct (add_all_ok (block_utxos b) (w_balance (se_wallet se))) as [Hb1 Hu1]; [done|by rewrite Hu|].
  unfold WalletRules.block_utxos in Hb1, Hu1. rewrite Hh, <- E1 in Hb1, Hu1.
  unfold record_journal_entry. cbn [df_height diff ws_last_height ws_journal ws_keys df_block_hash].
  rewrite Z.ltb_irrefl. set (s0 := mkWalletScanner _ _ _ _).
  set (n' := (length (ws_journal (se_scanner se) ++ [diff]) - JOURNAL_MAX_DEFAULT)%nat).
  assert (Hn' : (n' <= length (ws_journal (se_scanner se)))%nat).
  { unfold n', JOURNAL_MAX_DEFAULT. rewrite length_app. cbn [length]. lia. }
  destruct (spends_ok (block_spends b) w s0 (drop n' (ws_journal (se_scanner se))) diff Hb1)
    as (w'&s'&L&->&Hb2&Hu2&Hs2&HL).
  { cbn [s0 ws_journal]. fold n'. by rewrite drop_app_le. }
  intros [= <-]. split; [|done]. split; cbn [se_wallet se_scanner].
  - done.
  - rewrite ledger_snoc, Hu2, Hu1, Hu. unfold learn, WalletRules.block_utxos. by rewrite Hh.
  - by rewrite Hs2.
  - intros d. rewrite Hs2. cbn [set_journal ws_journal ws_last_height s0]. rewrite last_snoc.
    by intros [= <-].
  - exists (F ++ [set_marks diff L]), (n + n')%nat. split_and!.
    + constructor; [done|done|]. split; cbn [set_marks df_height df_block_hash df_outputs_added
        df_key_images_marked_spent diff]; [done|done| |done|].
      * unfold WalletRules.block_utxos. rewrite Hh. by rewrite E2.
      * intros ki. rewrite HL. cbn [diff df_key_images_marked_spent]. rewrite elem_of_nil, Hu1, Hu.
        unfold WalletRules.block_utxos. rewrite Hh. tauto.
    + rewrite Hs2. cbn [set_journal ws_journal]. rewrite Hd in *. rewrite length_drop in Hn'.
      rewrite drop_app_le, drop_drop; [done|].
      destruct Hn as [[-> ->]|Hn]; lia.
    + right. rewrite length_app. cbn [length]. rewrite Hd, length_drop in Hn'.
      apply journaled_length in Hj. destruct Hn as [[-> ->]|Hn]; cbn in *; lia.
Qed.

Lemma scan_one_reorg se hb se' :
  scan_one se hb = Ok (inr se') -> se_wallet se' = se_wallet se /\ se_scanner se' = se_scanner se.
Proof.
  destruct hb as [h b]. unfold Wallet.scan_one, scan_block_with_result.
  destruct (reorg_signal (se_scanner se) b).
  - by intros [= <-].
  - destruct (add_found _ _ _ _ _ _); [|done]. by destruct (foldl _ _ _).
Qed.

Lemma session_inv_same base C se se' :
  session_inv base C se -> se_wallet se' = se_wallet se -> se_scanner se' = se_scanner se ->
  session_inv base C se'.
Proof. intros [? ? ? ? ?] E1 E2. by split; rewrite ?E1, ?E2. Qed.

(** ** Recovering from a reorganisation *)

Lemma foldr_max_in (l : list Z) x : foldr Z.max x l = x \/ foldr Z.max x l ∈ l.
Proof.
  induction l as [|y l IH]; [by left|]. cbn.
  destruct (Z.max_spec y (foldr Z.max x l)) as [[_ ->]|[_ ->]]; set_solver.
Qed.

(** The fork point is a height of the journal where the node has the same hash. *)
Lemma fork_point_in (J : list (Z * Hash)) f fork :
  fork_point_in_journal J f = Some fork -> exists x, (fork, x) ∈ J /\ f fork = Some x.
Proof.
  unfold fork_point_in_journal.
  destruct (filter (fun e : Z * Hash => f e.1 = Some e.2) J) as [|e l] eqn:E; [done|].
  intros [= <-].
  assert (Hin : exists x, (foldr Z.max e.1 l.*1, x) ∈ e :: l).
  { destruct (foldr_max_in l.*1 e.1) as [->|([h x]&->&Hx)%list_elem_of_fmap].
    - exists e.2. destruct e. by left.
    - exists x. by right. }
  destruct Hin as (x&Hx). exists x. rewrite <- E, list_elem_of_filter in Hx. tauto.
Qed.

Lemma pop_above_app fork R L d :
  Forall (fun x => fork < df_height x) R -> df_height d <= fork ->
  pop_above fork (R ++ d :: L) = (R, d :: L).
Proof.
  intros HR Hd. induction HR as [|x R Hx _ IH]; cbn.
  - by rewrite (proj2 (Z.leb_le _ _) Hd).
  - rewrite (proj2 (Z.leb_gt _ _) Hx), IH. done.
Qed.

Definition increasing (l : list Z) : Prop :=
  forall i j x y, (i < j)%nat -> l !! i = Some x -> l !! j = Some y -> x < y.

Lemma increasing_app_inv l x r y : increasing (l ++ x :: r) -> y ∈ r -> x < y.
Proof.
  intros H (j&Hj)%list_elem_of_lookup. apply (H (length l) (length l + S j)%nat); [lia| |].
  - by rewrite list_lookup_middle.
  - rewrite lookup_app_r by lia. replace (length l + S j - length l)%nat with (S j) by lia. done.
Qed.

Lemma journaled_split base C F i d :
  journaled base C F -> F !! i = Some d ->
  exists c, C !! i = Some c /\ df_height d = block_height c /\ df_block_hash d = hash_of c.
Proof.
  induction 1 as [|C F b x Hj IH _ [? ? _ _ _]]; [done|]. pose proof (journaled_length _ _ _ _ _ _ _ Hj) as E.
  intros [Hi|[Hi [E0 <-]%list_lookup_singleton_Some]]%lookup_app_Some.
  - destruct (IH Hi) as (c&Hc&?). exists c. split; [|done]. by apply lookup_app_l_Some.
  - exists b. split; [|done]. rewrite lookup_app_r by lia. by rewrite E, E0.
Qed.

Lemma unspend_wallet l : forall w,
  bal_ok (w_balance w) ->
  utxos (w_balance (foldl wallet_unmark_spent w l)) = spend_in l false (utxos (w_balance w))
  /\ bal_ok (w_balance (foldl wallet_unmark_spent w l)).
Proof.
  induction l as [|ki l IH]; intros w Hb; [by rewrite spend_in_nil|]. cbn [foldl].
  destruct (unmark_utxos (w_balance w) ki Hb) as [Hu Hb'].
  destruct (IH (wallet_unmark_spent w ki) Hb') as [E H]. split; [|done].
  rewrite E. cbn [w_balance wallet_unmark_spent]. by rewrite Hu, <- spend_in_app.
Qed.

Lemma rewind_ok s L d R fork :
  ws_journal s = L ++ d :: R -> df_height d = fork -> Forall (fun x => fork < df_height x) R ->
  (forall x, x ∈ L -> df_height x < fork) -> fork <= ws_last_height s ->
  rewind_to_height s fork
  = Ok (mkRewindOutcome (length R) (concat (df_outputs_added <$> reverse R))
          (concat (df_key_images_marked_spent <$> reverse R)) fork (df_block_hash d),
        mkWalletScanner (ws_keys s) fork (df_block_hash d) (L ++ [d])).
Proof.
  intros Hj Hd HR HL Hf. unfold rewind_to_height.
  destruct (Z.ltb_spec (ws_last_height s) fork); [lia|].
  assert (Hp : pop_above fork (reverse (ws_journal s)) = (reverse R, d :: reverse L)).
  { rewrite Hj, reverse_app, reverse_cons, <- app_assoc. cbn [app].
    apply pop_above_app; [|lia]. by apply Forall_reverse. }
  rewrite Hp. destruct (ws_journal s) as [|front J] eqn:E; [by destruct L|].
  assert (Hfront : df_height front <= fork).
  { destruct L as [|y L]; cbn in Hj; injection Hj as -> _; [lia|].
    pose proof (HL y ltac:(by left)). lia. }
  destruct (Z.ltb_spec fork (df_height front)); [lia|]. cbn [andb].
  rewrite length_reverse, Hd, reverse_cons, reverse_involutive. done.
Qed.

Lemma increasing_app_l l x r y : increasing (l ++ x :: r) -> y ∈ l -> y < x.
Proof.
  intros H (j&Hj)%list_elem_of_lookup. pose proof (lookup_lt_Some _ _ _ Hj).
  apply (H j (length l)); [lia| |by rewrite list_lookup_middle]. by rewrite lookup_app_l.
Qed.

Lemma elem_of_sublist_drop {A} (l : list A) n x : x ∈ drop n l -> x ∈ l.
Proof. intros H. rewrite <- (take_drop n l). apply elem_of_app. by right. Qed.

Lemma elem_of_prefix {A} (l : list A) n x : x ∈ take n l -> x ∈ l.
Proof. intros H. rewrite <- (take_drop n l). apply elem_of_app. by left. Qed.

Lemma journaled_heights base C F :
  journaled base C F -> df_height <$> F = block_height <$> C.
Proof.
  induction 1 as [|C F b d _ IH _ [Hh _ _ _ _]]; [done|]. rewrite !fmap_app, IH. cbn. by rewrite Hh.
Qed.

(** The journal around the fork point. *)
Lemma fork_split base C se f fork :
  session_inv base C se -> increasing (block_height <$> C) ->
  fork_point_in_journal (journal_pairs (se_scanner se)) f = Some fork ->
  exists F n i d c, journaled base C F
    /\ ws_journal (se_scanner se) = drop n (take i F) ++ d :: drop (S i) F /\ (n <= i)%nat
    /\ F !! i = Some d /\ C !! i = Some c /\ df_height d = fork /\ block_height c = fork
    /\ f fork = Some (hash_of c) /\ Forall (fun x => fork < df_height x) (drop (S i) F)
    /\ (forall x, x ∈ drop n (take i F) -> df_height x < fork)
    /\ fork <= ws_last_height (se_scanner se).
Proof.
  intros [Hb Hu Hk Hlast (F&n&Hj&Hd&Hn)] Hinc (x&Hx&Hfx)%fork_point_in.
  apply list_elem_of_fmap in Hx as (d&[= Hdh ->]&Hin). rewrite Hd in Hin.
  apply list_elem_of_lookup in Hin as (j&Hin). rewrite lookup_drop in Hin.
  destruct (journaled_split _ _ _ _ _ Hj Hin) as (c&Hc&Hch&Hcx).
  exists F, n, (n + j)%nat, d, c. set (i := (n + j)%nat) in *.
  pose proof (take_drop_middle F i d Hin) as HF. pose proof (lookup_lt_Some _ _ _ Hin) as Hi.
  assert (Hsplit : ws_journal (se_scanner se) = drop n (take i F) ++ d :: drop (S i) F).
  { rewrite Hd, <- HF at 1. rewrite drop_app_le by (rewrite length_take; lia). done. }
  rewrite <- (journaled_heights _ _ _ Hj), <- HF, fmap_app, fmap_cons in Hinc.
  assert (HR : Forall (fun y => fork < df_height y) (drop (S i) F)).
  { apply Forall_forall. intros y Hy. rewrite Hdh. apply (increasing_app_inv _ _ _ _ Hinc).
    by apply list_elem_of_fmap_2. }
  split_and!; try done; [lia|congruence|congruence| |].
  - intros y Hy. rewrite Hdh. apply (increasing_app_l _ _ _ _ Hinc), list_elem_of_fmap_2.
    by eapply elem_of_sublist_drop.
  - destruct (last (ws_journal (se_scanner se))) as [e|] eqn:El.
    + rewrite (Hlast e eq_refl). rewrite Hsplit, last_app_cons, last_cons in El.
      destruct (last (drop (S i) F)) as [z|] eqn:Ez; injection El as <-; [|lia].
      apply last_Some_elem_of in Ez. rewrite Forall_forall in HR. specialize (HR z Ez). lia.
    + rewrite Hsplit in El. apply last_None in El. by destruct (drop n (take i F)).
Qed.

(** Rewinding to the fork point the node names leaves the ledger of the blocks up
    to it. *)
Lemma recover_ok base C se f fork :
  session_inv base C se -> outs_ok base -> all_fresh blake3 tx_hash K spend base C ->
  increasing (block_height <$> C) ->
  fork_point_in_journal (journal_pairs (se_scanner se)) f = Some fork ->
  exists se' i c, recover se fork = Ok se' /\ C !! i = Some c /\ block_height c = fork
    /\ f fork = Some (hash_of c) /\ session_inv base (take (S i) C) se'.
Proof.
  intros Hs Hbase Hfresh Hinc Hfp.
  destruct (fork_split _ _ _ _ _ Hs Hinc Hfp)
    as (F&n&i&d&c&Hj&Hsplit&Hni&HFi&HCi&Hdh&Hch&Hfc&HR&HL&Hle).
  pose proof (rewind_ok _ _ _ _ _ Hsplit Hdh HR HL Hle) as Hrw.
  pose proof Hs as [Hb Hu Hk _ _]. pose proof (journaled_length _ _ _ _ _ _ _ Hj) as Hlen.
  pose proof (lookup_lt_Some _ _ _ HFi) as Hi.
  destruct (rewind_ledger blake3 tx_hash K spend base (drop (S i) C) (drop (S i) F) (take (S i) C)
    (take (S i) F) Hbase) as [Hj1 Hroll].
  { by rewrite take_drop. }
  { by rewrite !take_drop. }
  { rewrite !length_drop. lia. }
  rewrite take_drop in Hroll.
  destruct (remove_utxos (concat (df_outputs_added <$> reverse (drop (S i) F))) 0
    (w_balance (se_wallet se)) Hb) as [Hu1 Hb1].
  set (w1 := wallet_remove_outputs (se_wallet se)
    (concat (df_outputs_added <$> reverse (drop (S i) F)))).
  destruct (unspend_wallet (concat (df_key_images_marked_spent <$> reverse (drop (S i) F))) w1 Hb1)
    as [Hu2 Hb2].
  unfold recover. rewrite Hrw. cbn [ro_outputs_to_remove ro_key_images_to_unspend]. fold w1.
  do 3 eexists. split; [reflexivity|]. split_and!; [done..|].
  split; cbn [se_wallet se_scanner wallet_revert_outgoing w_balance ws_keys ws_journal ws_last_height].
  - done.
  - rewrite Hu2. unfold w1. cbn [w_balance wallet_remove_outputs]. unfold Bal.remove_outputs.
    by rewrite Hu1, Hu.
  - done.
  - intros y. rewrite last_snoc. by intros [= <-].
  - exists (take (S i) F), n. split; [done|]. rewrite (take_S_r F i d HFi).
    rewrite drop_app_le by (rewrite length_take; lia). split; [done|]. right.
    rewrite length_app, length_take. cbn. lia.
Qed.

(** ** The chains the node shows *)

(** The remote calls read the chain [l]. *)
Record node_chain (v : ChainView) (l : list Block) : Prop := {
  nc_block h : 0 <= h -> get_block_by_height v h = l !! Z.to_nat h;
  nc_hash h : 0 <= h -> get_block_hash v h = hash_of <$> l !! Z.to_nat h;
  nc_height i b : l !! i = Some b -> block_height b = Z.of_nat i;
  nc_linked i x y : l !! i = Some x -> l !! S i = Some y -> prev_hash (header y) = hash_of x;
}.

(** No two outputs of the wallet, in [base] and the blocks [C], have the same key
    or the same key image. *)
Definition distinct base C : Prop :=
  NoDup ((map_to_list base).*1 ++ (out_key <$> concat (block_utxos <$> C)))
  /\ NoDup ((o_key_image <$> (map_to_list base).*2)
             ++ (o_key_image <$> concat (block_utxos <$> C))).

Lemma learn_elem m b k u :
  learn blake3 tx_hash K spend m b !! k = Some u ->
  exists v, o_key_image v = o_key_image u
    /\ (m !! k = Some v \/ v ∈ block_utxos b /\ out_key v = k).
Proof.
  unfold learn. rewrite spend_in_lookup. intros (v&[Hv|[Hv E]]%insert_all_elem&->)%fmap_Some;
    exists v; (split; [by case_bool_decide|]); [by left|by right].
Qed.

Lemma ledger_elem base C : forall k u,
  ledger base C !! k = Some u ->
  exists v, o_key_image v = o_key_image u
    /\ (base !! k = Some v \/ v ∈ concat (block_utxos <$> C) /\ out_key v = k).
Proof.
  induction C as [|b C IH] using rev_ind; intros k u; [by exists u; auto|].
  rewrite ledger_snoc, fmap_app, concat_app. cbn [fmap list_fmap concat]. rewrite app_nil_r.
  intros (v&Ev&[Hv|[Hv E]])%learn_elem.
  - destruct (IH k v Hv) as (x&Ex&[Hx|[Hx E]]); exists x; (split; [congruence|]); [by left|right].
    split; [|done]. apply elem_of_app. by left.
  - exists v. split; [done|]. right. split; [|done]. apply elem_of_app. by right.
Qed.

Lemma distinct_fresh base C b R :
  distinct base (C ++ b :: R) -> fresh (ledger base C) (block_utxos b).
Proof.
  unfold distinct. rewrite fmap_app, concat_app. cbn [fmap list_fmap concat].
  rewrite !fmap_app. rewrite !(app_assoc _ (_ <$> concat (block_utxos <$> C))).
  intros [(_&Hk1&Hk2)%NoDup_app (_&Hi1&Hi2)%NoDup_app].
  assert (Hk : forall u, u ∈ block_utxos b -> out_key u ∉ ((map_to_list base).*1
    ++ (out_key <$> concat (block_utxos <$> C)))).
  { intros u Hu Hin. apply (Hk1 _ Hin), elem_of_app. left. by apply list_elem_of_fmap_2. }
  assert (Hi : forall u, u ∈ block_utxos b -> o_key_image u ∉ ((o_key_image <$> (map_to_list base).*2)
    ++ (o_key_image <$> concat (block_utxos <$> C)))).
  { intros u Hu Hin. apply (Hi1 _ Hin), elem_of_app. left. by apply list_elem_of_fmap_2. }
  apply NoDup_app in Hk2 as [Hk2 _]. apply NoDup_app in Hi2 as [Hi2 _].
  split; [done|done| |].
  - intros u Hu. apply eq_None_not_Some. intros [x (v&_&[Hv|[Hv E]])%ledger_elem];
      apply (Hk u Hu), elem_of_app.
    + left. apply elem_of_map_to_list in Hv. by apply (list_elem_of_fmap_2 fst) in Hv.
    + right. rewrite <- E. by apply list_elem_of_fmap_2.
  - intros u k v Hu (x&Ex&Hx)%ledger_elem E. apply (Hi u Hu), elem_of_app. rewrite <- E, <- Ex.
    destruct Hx as [Hx|[Hx _]]; [left|right; by apply list_elem_of_fmap_2].
    apply elem_of_map_to_list in Hx. apply (list_elem_of_fmap_2 snd) in Hx.
    by apply (list_elem_of_fmap_2 o_key_image) in Hx.
Qed.

(** ** A stretch of a chain *)

Lemma take_length_take {A} (l : list A) k : take (length (take k l)) l = take k l.
Proof.
  rewrite length_take. destruct (Nat.min_spec k (length l)) as [[_ ->]|[? ->]]; [done|].
  by rewrite !take_ge by lia.
Qed.

Section shown.
Context (base : Outs) (s : nat) (Ls : list (list Block)).
Hypothesis Hbase : outs_ok base.
Hypothesis Hdistinct : forall l, l ∈ Ls -> distinct base (drop s l).
Hypothesis Hchains : forall l, l ∈ Ls -> exists v, node_chain v l.
Hypothesis Hhash : forall l l' b b', l ∈ Ls -> l' ∈ Ls -> b ∈ l -> b' ∈ l' ->
  hash_of b = hash_of b' -> b = b'.

(** [C] is the part of a shown chain that starts at height [s]. *)
Definition segment C : Prop := C = [] \/ exists l, l ∈ Ls /\ C = take (length C) (drop s l).

(** Chains that agree at a height agree below. *)
Lemma chains_agree n : forall l l' x,
  l ∈ Ls -> l' ∈ Ls -> l !! (s + n)%nat = Some x -> l' !! (s + n)%nat = Some x ->
  take (S n) (drop s l) = take (S n) (drop s l').
Proof.
  induction n as [|n IH]; intros l l' x Hl Hl' Hx Hx'.
  - rewrite (take_S_r _ 0 x), (take_S_r _ 0 x); rewrite ?lookup_drop; done.
  - rewrite (take_S_r (drop s l) (S n) x), (take_S_r (drop s l') (S n) x) by (by rewrite lookup_drop).
    f_equal. rewrite Nat.add_succ_r in Hx, Hx'. destruct (Hchains l Hl) as (v&Hv).
    destruct (Hchains l' Hl') as (v'&Hv').
    destruct (lookup_lt_is_Some_2 l (s + n)) as [y Hy]; [apply lookup_lt_Some in Hx; lia|].
    destruct (lookup_lt_is_Some_2 l' (s + n)) as [y' Hy']; [apply lookup_lt_Some in Hx'; lia|].
    pose proof (nc_linked _ _ Hv _ _ _ Hy Hx) as E. rewrite (nc_linked _ _ Hv' _ _ _ Hy' Hx') in E.
    apply (Hhash l' l) in E; [|done|done|by eapply list_elem_of_lookup_2..]. subst y'.
    by apply (IH l l' y).
Qed.

Lemma segment_lookup C l i c :
  C = take (length C) (drop s l) -> C !! i = Some c -> l !! (s + i)%nat = Some c.
Proof.
  intros E Hc. rewrite E in Hc. apply lookup_take_Some in Hc as [Hc _]. by rewrite lookup_drop in Hc.
Qed.

Lemma segment_take C l n :
  C = take (length C) (drop s l) -> take n C = take (length (take n C)) (drop s l).
Proof.
  intros E. rewrite E at 1. rewrite take_take. f_equal. rewrite length_take. lia.
Qed.

Lemma segment_prefix C n : segment C -> segment (take n C).
Proof.
  intros [->|(l&Hl&E)]; [left; by rewrite take_nil|]. right. exists l. split; [done|].
  by apply segment_take.
Qed.

Lemma segment_height C i c : segment C -> C !! i = Some c -> block_height c = Z.of_nat (s + i).
Proof.
  intros [->|(l&Hl&E)] Hc; [done|]. destruct (Hchains l Hl) as (v&Hv).
  by eapply (nc_height _ _ Hv), segment_lookup.
Qed.

Lemma segment_increasing C : segment C -> increasing (block_height <$> C).
Proof.
  intros Hs i j x y Hij. rewrite !list_lookup_fmap.
  intros (c&Hc&->)%fmap_Some (c'&Hc'&->)%fmap_Some.
  rewrite (segment_height C i c), (segment_height C j c') by done. lia.
Qed.

Lemma segment_fresh C : segment C -> all_fresh blake3 tx_hash K spend base C.
Proof.
  intros [->|(l&Hl&E)] C' b R EC; [by destruct C'|].
  apply (distinct_fresh _ _ _ (R ++ drop (length C) (drop s l))).
  rewrite app_comm_cons, app_assoc, <- EC. rewrite E at 1. rewrite take_drop.
  by apply Hdistinct.
Qed.

(** A block that no signal stops continues the stretch on its own chain. *)
Lemma segment_extend C se l b :
  session_inv base C se -> segment C -> l ∈ Ls -> l !! (s + length C)%nat = Some b ->
  Z.of_nat (s + length C) <= u64_max -> reorg_signal (se_scanner se) b = None ->
  C = take (length C) (drop s l).
Proof.
  intros Hi HC Hl Hb Hmax Hn. destruct HC as [->|(l0&Hl0&E)]; [done|].
  destruct C as [|c C _] using rev_ind; [done|]. rewrite E at 1.
  destruct (no_signal _ _ _ _ c Hi (last_snoc _ _) Hn) as [_ Hp].
  rewrite length_app in *. cbn [length] in *. rewrite Nat.add_1_r in *.
  assert (Hc : l0 !! (s + length C)%nat = Some c).
  { apply (segment_lookup (C ++ [c])); [by rewrite length_app, Nat.add_1_r|].
    rewrite lookup_app_r by lia. by rewrite Nat.sub_diag. }
  destruct (Hchains l0 Hl0) as (v0&Hv0). destruct (Hchains l Hl) as (v&Hv).
  rewrite (nc_height _ _ Hv0 _ _ Hc), (nc_height _ _ Hv _ _ Hb), wrap64_small in Hp by word_lia.
  specialize (Hp ltac:(lia)).
  destruct (lookup_lt_is_Some_2 l (s + length C)) as [c' Hc']; [apply lookup_lt_Some in Hb; lia|].
  rewrite Nat.add_succ_r in Hb. rewrite (nc_linked _ _ Hv _ _ _ Hc' Hb) in Hp.
  apply (Hhash l l0) in Hp; [|done|done|by eapply list_elem_of_lookup_2..]. subst c'.
  by apply (chains_agree (length C) l0 l c).
Qed.

Lemma segment_snoc C l b :
  C = take (length C) (drop s l) -> l !! (s + length C)%nat = Some b ->
  C ++ [b] = take (length (C ++ [b])) (drop s l).
Proof.
  intros E Hb. rewrite length_app. cbn [length]. rewrite Nat.add_1_r.
  rewrite (take_S_r _ _ b) by (by rewrite lookup_drop). by rewrite <- E.
Qed.

Abbreviation answer := (fmap (fun b => (block_height b, b))).

Lemma batch_ok l k : forall C se bs,
  l ∈ Ls -> session_inv base C se -> segment C -> bs = take k (drop (s + length C) l) ->
  Z.of_nat (s + length C + k) <= u64_max ->
  match scan_batch se (answer bs) with
  | Ok (inl se') => session_inv base (C ++ bs) se' /\ segment (C ++ bs)
  | Ok (inr se') =>
      exists C', session_inv base C' se' /\ segment C' /\ (length C' <= length C + k)%nat
  | Err _ => True
  end.
Proof.
  induction k as [|k IH]; intros C se bs Hl Hi HC -> Hmax.
  { cbn. by rewrite app_nil_r. }
  destruct (l !! (s + length C)%nat) as [b|] eqn:Hb.
  2: { rewrite drop_ge by (by apply lookup_ge_None). cbn. by rewrite app_nil_r. }
  rewrite (drop_S _ b) by done. cbn [take fmap list_fmap Wallet.scan_batch].
  destruct (scan_one se (block_height b, b)) as [[se'|se']|e] eqn:E; [| |done].
  2: { destruct (scan_one_reorg _ _ _ E) as [E1 E2]. exists C. split; [by eapply session_inv_same|].
       split; [done|lia]. }
  assert (Hpos : (s + length C < length l)%nat) by (by apply lookup_lt_Some in Hb).
  assert (Hfr : C = take (length C) (drop s l) -> fresh (ledger base C) (block_utxos b)).
  { intros HE. apply (distinct_fresh _ _ _ (drop (S (length C)) (drop s l))).
    rewrite HE at 1. rewrite take_drop_middle; [by apply Hdistinct|by rewrite lookup_drop]. }
  assert (Hsig : reorg_signal (se_scanner se) b = None).
  { unfold Wallet.scan_one, scan_block_with_result in E.
    by destruct (reorg_signal (se_scanner se) b). }
  pose proof (segment_extend C se l b Hi HC Hl Hb ltac:(lia) Hsig) as HE.
  destruct (scan_one_ok _ _ _ _ _ _ Hi (fresh_compat _ _ (Hfr HE)) eq_refl E) as (Hi'&_&_).
  pose proof (segment_snoc C l b HE Hb) as HE'.
  specialize (IH (C ++ [b]) se' (take k (drop (s + length (C ++ [b])) l)) Hl Hi').
  rewrite length_app in *. cbn [length] in *. rewrite Nat.add_1_r in *.
  rewrite Nat.add_succ_r, <- (app_assoc C) in IH. cbn [app] in IH.
  assert (HC' : segment (C ++ [b])); [|specialize (IH HC' eq_refl ltac:(lia))].
  2: { destruct (scan_batch se' _) as [[?|?]|?]; [done| |done]. destruct IH as (C'&?&?&?).
       exists C'. split_and!; [done|done|lia]. }
  right. exists l. split; [done|]. by rewrite length_app, Nat.add_1_r.
Qed.

(** ** Remote answers *)

Lemma range_list v l n : forall cur,
  node_chain v l -> 0 <= cur ->
  omap (fun h => b ← get_block_by_height v h; Some (h, b)) (seqZ cur (Z.of_nat n))
  = answer (take n (drop (Z.to_nat cur) l)).
Proof.
  induction n as [|n IH]; intros cur Hv Hc; [done|].
  rewrite seqZ_cons by lia. cbn [omap list_omap]. rewrite (nc_block _ _ Hv) by done.
  replace (Z.pred (Z.of_nat (S n))) with (Z.of_nat n) by lia. rewrite IH by (done || lia).
  rewrite Z2Nat.inj_succ by done.
  destruct (l !! Z.to_nat cur) as [b|] eqn:Eb; cbn [mbind option_bind].
  - rewrite (drop_S l b (Z.to_nat cur) Eb). cbn [take fmap list_fmap].
    by rewrite (nc_height _ _ Hv _ _ Eb), Z2Nat.id.
  - apply lookup_ge_None in Eb. rewrite !drop_ge, !take_nil by lia. done.
Qed.

Lemma range_answer v l cur be :
  node_chain v l -> 0 <= cur <= be -> be - cur < 100 -> be < u64_max ->
  get_block_range v cur be
  = Some (answer (take (Z.to_nat (be - cur + 1)) (drop (Z.to_nat cur) l))).
Proof.
  intros Hv Hc Hb Hm. unfold get_block_range. destruct (Z.ltb_spec be cur); [lia|]. f_equal.
  rewrite <- (range_list v l _ cur Hv) by lia. f_equal. f_equal.
  unfold sat_add, sat_sub, MAX_RANGE. lia.
Qed.

(** Between two answers the tip advances by one block at most, unless the node
    already has the whole range. *)
Definition steady (end_ : Z) (chains : list (list Block)) : Prop :=
  forall i l l', chains !! i = Some l -> chains !! S i = Some l' ->
    (length l' <= S (length l))%nat \/ end_ < Z.of_nat (length l).

Lemma steady_tail end_ l chains : steady end_ (l :: chains) -> steady end_ chains.
Proof. intros H i. apply (H (S i)). Qed.

(** Where the next call starts: right after the stretch, or above the chain that
    answers it. *)
Definition cursor_ok C (cursor : Z) (chains : list (list Block)) : Prop :=
  cursor = Z.of_nat (s + length C)
  \/ Z.of_nat (s + length C) <= cursor /\ forall l, head chains = Some l -> Z.of_nat (length l) <= cursor.

Lemma answer_nil (bs : list Block) : answer bs = [] -> bs = [].
Proof. by destruct bs. Qed.

Lemma next_cursor end_ C l be chains :
  steady end_ (l :: chains) -> be <= end_ -> Z.of_nat (s + length C) <= be ->
  cursor_ok (C ++ take (Z.to_nat (be - Z.of_nat (s + length C) + 1)) (drop (s + length C) l))
    (be + 1) chains.
Proof.
  intros Hst Hbe Hle. unfold cursor_ok. rewrite length_app, length_take, length_drop.
  destruct (decide (be < Z.of_nat (length l))) as [Hfull|Hshort]; [left; lia|right].
  split; [lia|]. intros l' Hl'. destruct (Hst 0%nat l l'); [done| |lia..].
  by destruct chains; cbn in *.
Qed.

Lemma loop_ok end_ N : forall views chains se C cursor se',
  (length views < N)%nat -> 0 <= end_ -> end_ + 100 < u64_max -> cursor <= end_ + 1 ->
  Forall2 node_chain views chains -> Forall (fun l => l ∈ Ls) chains -> steady end_ chains ->
  session_inv base C se -> segment C -> cursor_ok C cursor chains ->
  scan_loop views se cursor end_ = Ok se' ->
  exists C', session_inv base C' se' /\ segment C'.
Proof.
  induction N as [|N IH]; intros views chains se C cursor se' HN He Hm Hcu Hv HL Hst Hi HC Hcur; [lia|].
  destruct views as [|v views]; cbn [Wallet.scan_loop].
  { destruct (end_ <? cursor); [|done]. intros [= <-]. eauto. }
  destruct (Z.ltb_spec end_ cursor); [by intros [= <-]; eauto|].
  apply Forall2_cons_inv_l in Hv as (l&chains'&Hv&Hvs&->). apply Forall_cons in HL as [Hl HL].
  assert (Hc0 : 0 <= cursor) by (destruct Hcur as [->|[? _]]; lia).
  rewrite wrap64_small by word_lia. set (be := Z.min (cursor + 99) end_).
  rewrite (range_answer v l) by (done || lia).
  destruct Hcur as [->|[Hle Hhi]].
  2: { rewrite drop_ge by (specialize (Hhi l eq_refl); lia). rewrite take_nil. cbn.
       intros [= <-]. eauto. }
  pose proof (next_cursor end_ C l be chains' Hst ltac:(lia) ltac:(lia)) as Hnext.
  rewrite Nat2Z.id. set (bs := take _ _) in *.
  pose proof (batch_ok l (Z.to_nat (be - Z.of_nat (s + length C) + 1)) C se bs Hl Hi HC eq_refl
    ltac:(lia)) as Hb.
  destruct (answer bs) as [|hb rest] eqn:Ebs; [by intros [= <-]; eauto|]. rewrite <- Ebs in Hb |- *.
  apply steady_tail in Hst. cbn [length] in HN.
  destruct (scan_batch se (answer bs)) as [[se1|se1]|e]; [| |done].
  { destruct Hb as [Hi1 HC1]. rewrite wrap64_small by word_lia.
    apply (IH views chains' se1 (C ++ bs) (be + 1)); try done; lia. }
  destruct Hb as (C1&Hi1&HC1&Hlen1). destruct views as [|v' views]; [done|].
  apply Forall2_cons_inv_l in Hvs as (l'&chains&Hv'&Hvs&->). apply Forall_cons in HL as [Hl' HL].
  destruct (fork_point_in_journal _ _) as [fork|] eqn:Ef; [|by intros [= <-]; eauto].
  destruct (recover_ok base C1 se1 _ fork Hi1 Hbase (segment_fresh C1 HC1) (segment_increasing C1 HC1) Ef)
    as (se2&i&c&->&Hc&Hh&_&Hi2).
  pose proof (segment_height C1 i c HC1 Hc) as Hci.
  assert (Hlen : length (take (S i) C1) = S i).
  { rewrite length_take. apply lookup_lt_Some in Hc. lia. }
  assert (Hfork : 0 <= fork <= end_).
  { apply lookup_lt_Some in Hc. rewrite <- Hh, Hci. lia. }
  cbn [length] in HN. rewrite wrap64_small by word_lia.
  apply (IH views chains se2 (take (S i) C1) (fork + 1)); try done; [lia|lia| | |].
  - by eapply steady_tail.
  - by apply segment_prefix.
  - left. rewrite Hlen. lia.
Qed.
End shown.
End session.
