(* ===== verification/WalletDemo.v ===== *)
(** * A small wallet and a small node

    The wallet of [StealthRules] with the curve on the integers, and nodes for it:
    one with two blocks, the second of which pays the wallet; the same with a third
    block that spends the payment, and with a coinbase that has no transaction key;
    and one that replaces the last of a hundred blocks during a scan. *)

From stdpp Require Import prelude gmap strings.
From Stdlib Require Import ZArith Lia.
From S2P Require Import Prelude Constants Encoding Amounts Difficulty Block Utxo ForkChoice Chain.
From S2P Require Import TxValidation Pow Mining Stealth Wallet StealthRules WalletRules WalletScan.

Local Open Scope Z_scope.

Definition line_keys : ScanKeys :=
  registered_keys line_hash [4] (public_of [9]) (public_of [4]) 0 line_saved.

Abbreviation line_utxos := (block_utxos line_hash line_id line_keys [9]).
Abbreviation line_ledger := (ledger line_hash line_id line_keys [9]).
Abbreviation line_hash_of := (fun b => header_hash line_hash (header b)).

(** A block of time [t] on top of a chain. *)
Definition line_on (l : list Block) (t : Z) (txs : list Transaction) : Block :=
  mkBlock (mkBlockHeader [] 1 (Z.of_nat (length l)) t (from_option line_hash_of [] (last l))
    [] [] 0 0 [] [] [] None [] []) txs.
Definition mine_on (l : list Block) (t : Z) (txs : list Transaction) : list Block :=
  l ++ [line_on l t txs].

(** A node that shows the chain [l]. *)
Definition view_of (l : list Block) : ChainView :=
  mkChainView (list_to_map ((fun b => (line_hash_of b, b)) <$> l))
    (map_seqZ 0 (line_hash_of <$> l)) (mkChainTip [] 0 0 0) 0 None.

Record mined (l : list Block) : Prop := {
  mi_height i b : l !! i = Some b -> block_height b = Z.of_nat i;
  mi_linked i x y : l !! i = Some x -> l !! S i = Some y -> prev_hash (header y) = line_hash_of x;
}.

Lemma mined_nil : mined [].
Proof. by split. Qed.

Lemma mined_on l t txs : mined l -> mined (mine_on l t txs).
Proof.
  intros [Hh Hl]. unfold mine_on. split.
  - intros i b [Hb|[Hi Hb]]%lookup_app_Some; [by apply Hh|].
    apply list_lookup_singleton_Some in Hb as [Hz <-]. cbn. lia.
  - intros i x y Hx [Hy|[Hi Hy]]%lookup_app_Some.
    + apply (Hl i); [|done]. apply lookup_app_Some in Hx as [Hx|[Hi _]]; [done|].
      apply lookup_lt_Some in Hy. lia.
    + apply list_lookup_singleton_Some in Hy as [Hz <-].
      apply lookup_app_Some in Hx as [Hx|[Hj _]]; [|lia]. cbn.
      rewrite last_lookup. replace (pred (length l)) with i by lia. by rewrite Hx.
Qed.

(** Blocks with different hashes are shown as they are. *)
Lemma shown_chain l :
  mined l -> bool_decide (NoDup (line_hash_of <$> l)) = true ->
  node_chain line_hash (view_of l) l.
Proof.
  intros [Hh Hl] Hn%bool_decide_eq_true.
  assert (Hg : forall h, 0 <= h -> get_block_hash (view_of l) h = line_hash_of <$> l !! Z.to_nat h).
  { intros h Hp. unfold get_block_hash. cbn [view_of height_to_hash db].
    rewrite lookup_map_seqZ_0 by done. rewrite list_lookup_fmap. by destruct (l !! Z.to_nat h). }
  split; [|done..].
  intros h Hp. unfold get_block_by_height. rewrite Hg by done.
  destruct (l !! Z.to_nat h) as [b|] eqn:E; [|done]. cbn [fmap option_fmap option_map mbind option_bind].
  unfold get_block. cbn [view_of blocks].
  erewrite (elem_of_list_to_map_1 _ _ b); [done| |].
  - by rewrite <- list_fmap_compose.
  - apply list_elem_of_fmap. exists b. split; [done|]. by eapply list_elem_of_lookup_2.
Qed.

(** ** The node that pays the wallet *)

Definition line_genesis : Block := line_on [] 0 [].
Definition line_chain : list Block := mine_on (mine_on [] 0 []) 0 [line_tx 1 [line_paid]].
Definition line_view : ChainView := view_of line_chain.

Lemma line_node : node_chain line_hash line_view line_chain.
Proof. apply shown_chain; [by repeat apply mined_on; apply mined_nil|vm_compute; reflexivity]. Qed.

(** The output in the wallet. *)
Definition line_utxo : UTXO :=
  default (mkUTXO [] 0 None 0 0 [] false [] [] None None None)
    (head (line_utxos (line_on [line_genesis] 0 [line_tx 1 [line_paid]]))).

Lemma line_found :
  line_utxos <$> line_chain = [[]; [line_utxo]].
Proof. vm_compute. reflexivity. Qed.

Lemma line_utxo_facts : out_key line_utxo = ([1], 0) /\ o_amount line_utxo = 5000000.
Proof. vm_compute. split; reflexivity. Qed.

Lemma line_distinct : distinct line_hash line_id line_keys [9] ∅ line_chain.
Proof.
  unfold distinct. rewrite line_found, map_to_list_empty. cbn. split; apply NoDup_singleton.
Qed.

Definition empty_wallet : Wallet := mkWallet Bal.new [] 0.

Lemma line_hashes l l' b b' :
  l ∈ [line_chain; line_chain] -> l' ∈ [line_chain; line_chain] -> b ∈ l -> b' ∈ l' ->
  line_hash_of b = line_hash_of b' -> b = b'.
Proof.
  intros Hl Hl' Hb Hb' E.
  assert (l = line_chain) as -> by (by apply elem_of_cons in Hl as [->| ->%list_elem_of_singleton]).
  assert (l' = line_chain) as -> by (by apply elem_of_cons in Hl' as [->| ->%list_elem_of_singleton]).
  assert (Hn : bool_decide (NoDup (line_hash_of <$> line_chain)) = true).
  { vm_compute. reflexivity. }
  apply bool_decide_eq_true in Hn. by apply (NoDup_fmap_eq line_hash_of line_chain).
Qed.

(** ** The node with the poisoned coinbase *)

Definition poison_output : TxOutput := mkTxOutput (public_of [9]) [] [] [] 0 None [].
Definition poison_tx : Transaction := mkTransaction 1 Coinbase [] [poison_output] 0 [] [2].
Definition poison_chain : list Block := mine_on (mine_on [] 0 []) 0 [poison_tx].
Definition poison_view : ChainView := view_of poison_chain.

Lemma poison_node : node_chain line_hash poison_view poison_chain.
Proof. apply shown_chain; [by repeat apply mined_on; apply mined_nil|vm_compute; reflexivity]. Qed.

Lemma poison_distinct : distinct line_hash line_id line_keys [9] ∅ poison_chain.
Proof.
  assert (E : line_utxos <$> poison_chain = [[]; []]) by (vm_compute; reflexivity).
  unfold distinct. rewrite E, map_to_list_empty. cbn. split; constructor.
Qed.

(** ** The node on which the payment is spent *)

Definition spend_tx : Transaction :=
  mkTransaction 1 Transfer
    [mkTxInput (o_key_image line_utxo) [] (mkClsagSignature [] [] [] []) []] [] 2 [] [3].
Definition spent_chain : list Block := mine_on line_chain 0 [spend_tx].
Definition spent_view : ChainView := view_of spent_chain.

Lemma spent_node : node_chain line_hash spent_view spent_chain.
Proof.
  apply shown_chain; [by repeat apply mined_on; apply mined_nil|vm_compute; reflexivity].
Qed.

Lemma spent_distinct : distinct line_hash line_id line_keys [9] ∅ spent_chain.
Proof. split; apply (bool_decide_unpack _); vm_compute; exact I. Qed.

(** ** The node that reorganises *)

(** Ninety-nine empty blocks; then a block that pays the wallet, or two others, the
    first of which has the payment in another transaction. *)
Definition trunk : list Block := Nat.iter 99 (fun l => mine_on l 0 []) [].
Definition branch_a : list Block := mine_on trunk 0 [line_tx 1 [line_paid]].
Definition branch_b : list Block := mine_on (mine_on trunk 1 [line_tx 2 [line_paid]]) 1 [].

Lemma mined_trunk : mined trunk.
Proof.
  unfold trunk. generalize 99%nat. induction n as [|n IH]; [apply mined_nil|]. by apply mined_on.
Qed.

Lemma branch_a_node : node_chain line_hash (view_of branch_a) branch_a.
Proof. apply shown_chain; [apply mined_on, mined_trunk|vm_compute; reflexivity]. Qed.

Lemma branch_b_node : node_chain line_hash (view_of branch_b) branch_b.
Proof. apply shown_chain; [do 2 apply mined_on; apply mined_trunk|vm_compute; reflexivity]. Qed.

(** Two branches on one trunk: blocks are known by their hash. *)
Lemma fork_hashes (t : list Block) x y z a :
  NoDup (line_hash_of <$> ((t ++ [y]) ++ [z]) ++ [x]) ->
  a = (t ++ [y]) ++ [z] ->
  forall l l' b b', l ∈ [t ++ [x]; a; a; a] -> l' ∈ [t ++ [x]; a; a; a] -> b ∈ l -> b' ∈ l' ->
  line_hash_of b = line_hash_of b' -> b = b'.
Proof.
  intros Hn Ha l l' b b' Hl Hl' Hb Hb' E.
  assert (Hin : forall l b, l ∈ [t ++ [x]; a; a; a] -> b ∈ l -> b ∈ ((t ++ [y]) ++ [z]) ++ [x]).
  { intros k c Hk Hc. subst a. apply elem_of_app. apply elem_of_cons in Hk as [->|Hk].
    - apply elem_of_app in Hc as [Hc|Hc]; [left|by right]. apply elem_of_app. left.
      apply elem_of_app. by left.
    - left. by repeat (apply elem_of_cons in Hk as [->|Hk]; [done|]); apply elem_of_nil in Hk. }
  apply (NoDup_fmap_eq line_hash_of (((t ++ [y]) ++ [z]) ++ [x])); eauto.
Qed.

Lemma branch_nodup :
  NoDup (line_hash_of <$> ((trunk ++ [line_on trunk 1 [line_tx 2 [line_paid]]])
    ++ [line_on (mine_on trunk 1 [line_tx 2 [line_paid]]) 1 []])
    ++ [line_on trunk 0 [line_tx 1 [line_paid]]]).
Proof. apply (bool_decide_unpack _). vm_compute. exact I. Qed.

Lemma branch_hashes l l' b b' :
  l ∈ [branch_a; branch_b; branch_b; branch_b] -> l' ∈ [branch_a; branch_b; branch_b; branch_b] ->
  b ∈ l -> b' ∈ l' -> line_hash_of b = line_hash_of b' -> b = b'.
Proof.
  apply (fork_hashes trunk (line_on trunk 0 [line_tx 1 [line_paid]])
    (line_on trunk 1 [line_tx 2 [line_paid]])
    (line_on (mine_on trunk 1 [line_tx 2 [line_paid]]) 1 []) branch_b branch_nodup).
  unfold branch_b, mine_on. reflexivity.
Qed.

Lemma branch_distinct l :
  l ∈ [branch_a; branch_b; branch_b; branch_b] -> distinct line_hash line_id line_keys [9] ∅ l.
Proof.
  assert (Ha : distinct line_hash line_id line_keys [9] ∅ branch_a)
    by (split; apply (bool_decide_unpack _); vm_compute; exact I).
  assert (Hb : distinct line_hash line_id line_keys [9] ∅ branch_b)
    by (split; apply (bool_decide_unpack _); vm_compute; exact I).
  intros Hl. by repeat (apply elem_of_cons in Hl as [->|Hl]; [done|]); apply elem_of_nil in Hl.
Qed.
