(* ===== verification/WalletFollow.v ===== *)
(** * The scan command

    What [cmd_scan] leaves in the wallet: the reference ledger of a stretch of
    one of the node's chains, and of the whole range when the node does not
    change; and the block that no scan gets past. *)

From stdpp Require Import prelude gmap strings.
From Stdlib Require Import ZArith Lia.
From S2P Require Import Prelude Constants Encoding Amounts Difficulty Block Utxo ForkChoice Chain.
From S2P Require Import ChainLedger ChainSafety TxValidation Pow Mining Stealth Wallet StealthRules WalletRules.
From S2P Require Import WalletScan WalletDemo.

Local Open Scope Z_scope.

Section follow.
Context `{WC : WalletCurve} (blake3 : list Z -> Hash) (tx_hash : Transaction -> Hash).
Context (K : ScanKeys) (spend : SecretKey).
Implicit Types (b : Block) (C l : list Block) (se : Session) (w : Wallet) (base : Outs).

Abbreviation block_utxos := (block_utxos blake3 tx_hash K spend).
Abbreviation ledger := (ledger blake3 tx_hash K spend).
Abbreviation session_inv := (session_inv blake3 tx_hash K spend).
Abbreviation node_chain := (node_chain blake3).
Abbreviation distinct := (distinct blake3 tx_hash K spend).
Abbreviation scan_one := (scan_one blake3 tx_hash (view_secret K) spend).
Abbreviation scan_batch := (scan_batch blake3 tx_hash (view_secret K) spend).
Abbreviation scan_loop := (scan_loop blake3 tx_hash (view_secret K) spend).
Abbreviation cmd_scan := (cmd_scan blake3 tx_hash).
Abbreviation answer := (fmap (fun b => (block_height b, b))).

(** The node of the remote calls is the chain of [Chain]. *)
Lemma node_shows {RF P2 : Type} `{!FinalityGate RF} `{!FinalityFeed RF} `{!Phase2Stores P2}
    {BV : BlockValidator} (tx_size : Transaction -> Z)
    (checkpoints : NetworkType -> list (Z * Hash)) (testnet : bool) (c : Chain RF P2) st l :
  chain_inv (header_hash blake3) tx_size checkpoints testnet c st l -> node_chain (view c) l.
Proof.
  intros Hi. split.
  - intros h Hh. by eapply inv_by_height.
  - intros h Hh. rewrite (get_hash_main _ _ _ _ _ _ _ _ Hi). unfold main_hash.
    by rewrite (proj2 (Z.leb_le 0 h) Hh).
  - intros i b Hb. by rewrite (inv_seg _ _ _ _ _ _ _ Hi i b Hb).
  - apply (inv_linked _ _ _ _ _ _ _ Hi).
Qed.

(** ** The start of a session *)

Definition scan_start w (from : option Z) : Z :=
  default (sat_sub (w_scanned_height w) SCAN_BACKSTOP_BLOCKS) from.

Definition first_session w (start : Z) : Session :=
  mkSession w (mkWalletScanner [K] 0 zero_hash []) start.

Lemma cmd_scan_unfold w from max_blocks views :
  0 <= scan_start w from -> 0 <= max_blocks -> scan_start w from + max_blocks < u64_max ->
  cmd_scan w K spend from max_blocks views
  = (se ← scan_loop views (first_session w (scan_start w from)) (scan_start w from)
            (scan_start w from + max_blocks);
     Ok (mkWallet (Bal.release_expired_reservations (w_balance (se_wallet se)) (se_last_height se))
           (w_history (se_wallet se)) (se_last_height se))).
Proof.
  intros H1 H2 H3. unfold Wallet.cmd_scan. fold (scan_start w from).
  rewrite wrap64_small by word_lia.
  unfold first_session. destruct K as [? ? ? [|? ?]]; reflexivity.
Qed.

Lemma first_session_inv w start :
  bal_ok (w_balance w) -> session_inv (utxos (w_balance w)) [] (first_session w start).
Proof.
  intros Hb. split; [done|done|done|by intros d|]. exists [], O. split; [constructor|]. auto.
Qed.

Lemma release_utxos (a : Balance) h : utxos (Bal.release_expired_reservations a h) = utxos a.
Proof. done. Qed.

(** What a scan relies on: the range fits in 64 bits, the balance is well formed, every
    answer of the node shows a chain and blocks are known by their hash. *)
Record scan_env w (start end_ : Z) (views : list ChainView) (chains : list (list Block)) : Prop := {
  se_start : 0 <= start;
  se_range : start <= end_ /\ end_ + 100 < u64_max;
  se_balance : bal_ok (w_balance w);
  se_views : Forall2 node_chain views chains;
  se_hash l l' b b' : l ∈ chains -> l' ∈ chains -> b ∈ l -> b' ∈ l' ->
    header_hash blake3 (header b) = header_hash blake3 (header b') -> b = b';
}.

(** No chain the node shows pays, from the first height on, to an output the wallet
    already holds, and none pays two outputs with one key or key image. *)
Definition unseen w (start : Z) (chains : list (list Block)) : Prop :=
  forall l, l ∈ chains -> distinct (utxos (w_balance w)) (drop (Z.to_nat start) l).

Lemma scan_result w from max_blocks views chains w' :
  scan_env w (scan_start w from) (scan_start w from + max_blocks) views chains ->
  steady (scan_start w from + max_blocks) chains -> unseen w (scan_start w from) chains ->
  cmd_scan w K spend from max_blocks views = Ok w' ->
  exists C, segment (Z.to_nat (scan_start w from)) chains C
    /\ utxos (w_balance w') = ledger (utxos (w_balance w)) C
    /\ all_fresh blake3 tx_hash K spend (utxos (w_balance w)) C.
Proof.
  intros [Hs0 [Hse Hmax] Hb Hv Hh] Hst Hd. rewrite cmd_scan_unfold by lia.
  set (start := scan_start w from) in *. intros H.
  destruct (scan_loop views (first_session w start) start (start + max_blocks)) as [se|] eqn:E;
    [|done]. cbn in H. injection H as <-. cbn [w_balance]. rewrite release_utxos.
  assert (Hch : forall l, l ∈ chains -> exists v, node_chain v l).
  { intros l (i&Hl)%list_elem_of_lookup. destruct (Forall2_lookup_r _ _ _ _ _ Hv Hl) as (v&_&?). eauto. }
  destruct (loop_ok blake3 tx_hash K spend (utxos (w_balance w)) (Z.to_nat start) chains
    (bk_outs _ Hb) Hd Hch Hh (start + max_blocks) (S (length views)) views chains
    (first_session w start) [] start se) as (C&Hi&HC); try done; try lia.
  - by apply Forall_forall.
  - by apply first_session_inv.
  - by left.
  - left. cbn. lia.
  - exists C. split; [done|]. split; [by apply (si_utxos _ _ _ _ _ _ _ Hi)|].
    by eapply segment_fresh.
Qed.


(** What the wallet had before stays, whatever the blocks are. *)
Lemma ledger_keeps base C k u :
  all_fresh blake3 tx_hash K spend base C -> base !! k = Some u ->
  exists x, ledger base C !! k = Some (set_spent u x) /\ (o_spent u = true -> x = true)
    /\ (x = true -> o_spent u = true \/ o_key_image u ∈ concat (block_spends <$> C)).
Proof.
  intros Hf Hu. induction C as [|b C IH] using rev_ind.
  { exists (o_spent u). rewrite set_spent_same. auto. }
  destruct IH as (x&Hx&Hs&Hs').
  { intros C' c R E. apply (Hf C' c (R ++ [b])). by rewrite E, <- app_assoc. }
  rewrite ledger_snoc. unfold learn. rewrite spend_in_lookup.
  rewrite insert_all_lookup.
  2: { intros (v&->&Hv)%list_elem_of_fmap. pose proof (fr_new _ _ (Hf C b [] eq_refl) v Hv) as Hn.
       congruence. }
  rewrite Hx, fmap_app, concat_app. cbn [fmap option_fmap option_map list_fmap concat].
  rewrite app_nil_r, set_spent_image. case_bool_decide as Hb.
  - exists true. split; [done|]. split; [done|]. intros _. right. apply elem_of_app. by right.
  - exists x. split; [done|]. split; [done|]. intros H. destruct (Hs' H) as [|Hin]; [by left|right].
    apply elem_of_app. by left.
Qed.

(** A scan never revises what it did not see: every output the wallet had before
    the scan is still there after it with its amount, and is spent if it was spent
    before, although no block of the chains the node now shows makes it or, in the
    range of the scan, spends it.  So a block orphaned between two scans leaves its
    outputs in the balance, and its spends on the outputs of the wallet. *)
Theorem scan_never_revises w from max_blocks views chains w' k u :
  scan_env w (scan_start w from) (scan_start w from + max_blocks) views chains ->
  steady (scan_start w from + max_blocks) chains -> unseen w (scan_start w from) chains ->
  cmd_scan w K spend from max_blocks views = Ok w' ->
  utxos (w_balance w) !! k = Some u ->
  (exists u', utxos (w_balance w') !! k = Some u' /\ o_amount u' = o_amount u
     /\ (o_spent u = true -> o_spent u' = true))
  /\ forall l b, l ∈ chains -> b ∈ drop (Z.to_nat (scan_start w from)) l ->
       k ∉ out_key <$> block_utxos b.
Proof.
  intros He Hst Hd H Hu. destruct (scan_result _ _ _ _ _ _ He Hst Hd H) as (C&_&->&Hf). split.
  - destruct (ledger_keeps _ _ _ _ Hf Hu) as (x&Hx&Hs&_). eexists. split; [exact Hx|]. done.
  - intros l b Hl (i&Hb)%list_elem_of_lookup (v&->&Hv)%list_elem_of_fmap.
    destruct (Hd l Hl) as [Hn _]. apply NoDup_app in Hn as (_&Hn&_).
    apply elem_of_map_to_list in Hu. apply (list_elem_of_fmap_2 fst) in Hu.
    cbn [fst] in Hu. apply (Hn _ Hu), (list_elem_of_fmap_2 out_key), list_elem_of_In, in_concat.
    exists (block_utxos b).
    split; apply list_elem_of_In; [|done]. apply list_elem_of_fmap_2. by eapply list_elem_of_lookup_2.
Qed.

(** ** A node that does not change *)

(** Every output found in the block can be turned into one of the wallet. *)
Definition openable b : Prop :=
  Forall (fun d => exists u, decrypted_to_utxo blake3 d (view_secret K) spend (block_height b) = Ok u)
    (found_outputs blake3 tx_hash [K] b).

Lemma add_found_total h found : forall w,
  Forall (fun d => exists u, decrypted_to_utxo blake3 d (view_secret K) spend h = Ok u) found ->
  exists w', add_found blake3 w (view_secret K) spend h found = Ok w'.
Proof.
  induction found as [|d found IH]; intros w Hf; [by eexists|].
  apply Forall_cons in Hf as [(u&Hu) Hf]. unfold add_found. cbn [foldl mbind result_bind].
  rewrite Hu. cbn [mbind result_bind]. by apply IH.
Qed.




Section quiet.
Context (l : list Block) (s : nat) (base : Outs) (end_ : Z).
Hypothesis Hcompat : forall n b, drop s l !! n = Some b ->
  compat (ledger base (take n (drop s l))) (block_utxos b).
Hypothesis Hmax : end_ + 100 < u64_max.

(** The session has scanned [n] blocks of [l]. *)
Record scanned_to (n : nat) se : Prop := {
  st_inv : session_inv base (take n (drop s l)) se;
  st_len : (s + n <= s `max` length l)%nat;
  st_height : se_last_height se = Z.of_nat (s + (n - 1));
}.

Lemma quiet_signal v n se b :
  node_chain v l -> scanned_to n se -> l !! (s + n)%nat = Some b ->
  reorg_signal (se_scanner se) b = None.
Proof.
  intros Hv [Hi Hn _] Hb. unfold reorg_signal. pose proof Hi as [_ _ _ _ (F&k&Hj&Hd&Hk)]. rewrite Hd.
  destruct Hk as [[E ->]|Hk].
  - rewrite E in Hj. apply journaled_length in Hj. by destruct F.
  - rewrite last_drop by done. destruct (last (take n (drop s l))) as [c|] eqn:Ec.
    2: { apply last_None in Ec. rewrite Ec in Hj. apply journaled_length in Hj. cbn in Hj. lia. }
    destruct (journaled_last _ _ _ _ _ _ _ _ Hj Ec) as (d&->&Hdh&->). rewrite Hdh.
    destruct n as [|n]; [done|]. rewrite Nat.add_succ_r in *.
    destruct (lookup_lt_is_Some_2 l (s + n)) as [c' Hc']; [apply lookup_lt_Some in Hb; lia|].
    rewrite (take_S_r _ _ c'), last_snoc in Ec by (by rewrite lookup_drop). injection Ec as ->.
    rewrite (nc_height _ _ _ Hv _ _ Hc'), (nc_height _ _ _ Hv _ _ Hb), (nc_linked _ _ _ Hv _ _ _ Hc' Hb).
    rewrite bool_decide_true by done. rewrite andb_false_r.
    destruct (Z.leb_spec (Z.of_nat (S (s + n))) (Z.of_nat (s + n))); [lia|done].
Qed.

Lemma quiet_one v n se b :
  node_chain v l -> scanned_to n se -> l !! (s + n)%nat = Some b -> Z.of_nat (s + n) <= u64_max ->
  (openable b -> exists se', scan_one se (block_height b, b) = Ok (inl se'))
  /\ (forall r, scan_one se (block_height b, b) = Ok r -> exists se', r = inl se' /\ scanned_to (S n) se').
Proof.
  intros Hv [Hi Hn Hh] Hb Hm.
  pose proof (quiet_signal v n se b Hv ltac:(done) Hb) as Hsig.
  assert (Hfr : compat (ledger base (take n (drop s l))) (block_utxos b)).
  { apply Hcompat. by rewrite lookup_drop. }
  split.
  - intros Ho. unfold Wallet.scan_one, scan_block_with_result. rewrite Hsig, (si_keys _ _ _ _ _ _ _ Hi).
    destruct (add_found_total (block_height b) (found_outputs blake3 tx_hash [K] b) (se_wallet se) Ho)
      as (w&->). destruct (foldl _ _ _). by eexists.
  - intros [se'|se'] E.
    + exists se'. split; [done|]. destruct (scan_one_ok _ _ _ _ _ _ _ _ _ _ Hi Hfr eq_refl E) as (Hi'&Hh'&_).
      rewrite <- (take_S_r _ _ b) in Hi' by (by rewrite lookup_drop). split; [done| |].
      * apply lookup_lt_Some in Hb. lia.
      * rewrite Hh', (nc_height _ _ _ Hv _ _ Hb). f_equal. lia.
    + exfalso. unfold Wallet.scan_one, scan_block_with_result in E. rewrite Hsig in E.
      destruct (add_found _ _ _ _ _ _); [|done]. by destruct (foldl _ _ _).
Qed.

Lemma quiet_batch v k : forall n se,
  node_chain v l -> scanned_to n se -> Z.of_nat (s + n + k) <= u64_max ->
  let bs := take k (drop (s + n) l) in
  (Forall openable bs -> exists se', scan_batch se (answer bs) = Ok (inl se'))
  /\ (forall r, scan_batch se (answer bs) = Ok r ->
       exists se', r = inl se' /\ scanned_to (n + length bs) se').
Proof.
  induction k as [|k IH]; intros n se Hv Hn Hm; cbn zeta.
  { split; [by eexists|]. intros r [= <-]. exists se. by rewrite Nat.add_0_r. }
  destruct (l !! (s + n)%nat) as [b|] eqn:Hb.
  2: { rewrite drop_ge by (by apply lookup_ge_None). split; [by eexists|].
       intros r [= <-]. exists se. by rewrite Nat.add_0_r. }
  destruct (quiet_one v n se b Hv Hn Hb ltac:(lia)) as [Q1 Q2].
  rewrite (drop_S _ b) by done. cbn [take fmap list_fmap Wallet.scan_batch length].
  split.
  - intros [Ho Hos]%Forall_cons. destruct (Q1 Ho) as (se1&E). rewrite E.
    destruct (Q2 _ E) as (se2&[= <-]&Hn1).
    specialize (IH (S n) se1 Hv Hn1 ltac:(lia)) as [IH _]. rewrite Nat.add_succ_r in IH. by apply IH.
  - intros r. destruct (scan_one se (block_height b, b)) as [x|e] eqn:E; [|done].
    destruct (Q2 _ eq_refl) as (se1&->&Hn1). intros Hr.
    specialize (IH (S n) se1 Hv Hn1 ltac:(lia)) as [_ IH]. rewrite Nat.add_succ_r in IH.
    destruct (IH r Hr) as (se2&->&H2). exists se2. split; [done|]. by rewrite Nat.add_succ_r.
Qed.

(** The blocks of the range. *)
Definition wanted : nat := length (take (Z.to_nat (end_ + 1) - s) (drop s l)).

(** Where the next call starts. *)
Definition at_cursor (n : nat) (cursor : Z) : Prop :=
  cursor = Z.of_nat (s + n) \/ n = wanted /\ Z.of_nat (length l) <= cursor.

Lemma wanted_eq : wanted = Nat.min (Z.to_nat (end_ + 1) - s) (length l - s).
Proof. unfold wanted. by rewrite length_take, length_drop. Qed.

Lemma at_end n se cursor : scanned_to n se -> at_cursor n cursor -> cursor = end_ + 1 -> n = wanted.
Proof. intros [_ Hn _] [H|[H _]] E; [|done]. rewrite wanted_eq. lia. Qed.

Lemma at_tip n se cursor :
  scanned_to n se -> at_cursor n cursor -> cursor <= end_ + 1 -> Z.of_nat (length l) <= cursor ->
  n = wanted.
Proof. intros [_ Hn _] [H|[H _]] E Hl; [|done]. rewrite wanted_eq. lia. Qed.

Lemma next_at n be cursor :
  cursor = Z.of_nat (s + n) -> cursor <= be -> be <= end_ -> (s + n < length l)%nat ->
  at_cursor (n + length (take (Z.to_nat (be - cursor + 1)) (drop (s + n) l))) (be + 1).
Proof.
  intros -> Hc Hb Hl. unfold at_cursor. rewrite wanted_eq, length_take, length_drop.
  destruct (decide (be < Z.of_nat (length l))); [left; lia|right]. lia.
Qed.

Lemma openable_in n be cursor :
  cursor = Z.of_nat (s + n) -> be <= end_ -> Forall openable (take wanted (drop s l)) ->
  Forall openable (take (Z.to_nat (be - cursor + 1)) (drop (s + n) l)).
Proof.
  intros -> Hb H. rewrite Forall_lookup in *. intros i b [Hi Hlt]%lookup_take_Some.
  apply (H (n + i)%nat). pose proof (lookup_lt_Some _ _ _ Hi) as Hl. rewrite length_drop in Hl.
  rewrite lookup_take_lt by (rewrite wanted_eq; lia).
  rewrite lookup_drop in *. by rewrite Nat.add_assoc.
Qed.

Lemma quiet_loop views : forall n cursor se,
  Forall (fun v => node_chain v l) views -> scanned_to n se -> 0 <= cursor <= end_ + 1 ->
  at_cursor n cursor ->
  (Forall openable (take wanted (drop s l)) ->
   (cursor <= end_ -> (0 < length views)%nat
     /\ Z.min (end_ + 1) (Z.of_nat (length l)) <= cursor + 100 * (zlen views - 1)) ->
   exists se', scan_loop views se cursor end_ = Ok se')
  /\ (forall se', scan_loop views se cursor end_ = Ok se' -> scanned_to wanted se').
Proof.
  induction views as [|v views IH]; intros n cursor se Hvs Hn Hc Hat; cbn [Wallet.scan_loop].
  { destruct (Z.ltb_spec end_ cursor) as [He|He].
    - split; [by eexists|]. intros se' [= <-]. rewrite <- (at_end n se cursor); [done..|lia].
    - split; [|done]. intros _ Hen. destruct (Hen He) as [H0 _]. cbn in H0. lia. }
  destruct (Z.ltb_spec end_ cursor) as [He|He].
  { split; [by eexists|]. intros se' [= <-]. rewrite <- (at_end n se cursor); [done..|lia]. }
  apply Forall_cons in Hvs as [Hv Hvs]. rewrite wrap64_small by word_lia.
  set (be := Z.min (cursor + 99) end_). rewrite (range_answer blake3 v l) by (done || lia).
  destruct (decide (Z.of_nat (length l) <= cursor)) as [Htip|Htip].
  { rewrite (drop_ge l (Z.to_nat cursor)), take_nil by lia. cbn [fmap list_fmap]. split; [by eexists|]. intros se' [= <-].
    rewrite <- (at_tip n se cursor); [done..|lia|done]. }
  destruct Hat as [Hcu|[_ ?]]; [|lia].
  pose proof (next_at n be cursor Hcu ltac:(lia) ltac:(lia) ltac:(lia)) as Hnext.
  pose proof (openable_in n be cursor Hcu ltac:(lia)) as Hopen.
  replace (Z.to_nat cursor) with (s + n)%nat in * by lia.
  pose proof (quiet_batch v (Z.to_nat (be - cursor + 1)) n se Hv Hn ltac:(lia)) as [Q1 Q2].
  set (bs := take _ (drop (s + n) l)) in *.
  assert (Hne : exists x xs, answer bs = x :: xs).
  { destruct (answer bs) as [|x xs] eqn:E; [|eauto]. apply (f_equal length) in E.
    rewrite length_fmap in E. unfold bs in E. rewrite length_take, length_drop in E. cbn in E. lia. }
  destruct Hne as (x&xs&Ex). rewrite Ex. rewrite <- Ex in *.
  destruct (scan_batch se (answer bs)) as [r|e] eqn:Eb.
  2: { split; [|done]. intros Ho _. by destruct (Q1 (Hopen Ho)). }
  destruct (Q2 r eq_refl) as (se1&->&Hn1). rewrite wrap64_small by word_lia.
  destruct (IH (n + length bs)%nat (be + 1) se1 Hvs Hn1 ltac:(lia) Hnext) as [I1 I2].
  split; [|done]. intros Ho Hen. destruct (Hen He) as [_ Hen']. apply I1; [done|].
  unfold zlen in *. cbn [length] in Hen'. intros Hle. lia.
Qed.
End quiet.

Lemma distinct_compat base C n b :
  distinct base C -> C !! n = Some b -> compat (ledger base (take n C)) (block_utxos b).
Proof.
  intros Hd Hb. apply fresh_compat, (distinct_fresh _ _ _ _ _ _ _ (drop (S n) C)).
  by rewrite take_drop_middle.
Qed.

Lemma first_scanned w l s :
  bal_ok (w_balance w) ->
  scanned_to l s (utxos (w_balance w)) 0 (first_session w (Z.of_nat s)).
Proof.
  intros Hb. split; [by apply first_session_inv|lia|]. cbn. lia.
Qed.

Lemma quiet_scan w from max_blocks views l :
  let start := scan_start w from in
  0 <= start -> 0 <= max_blocks -> start + max_blocks + 100 < u64_max ->
  bal_ok (w_balance w) -> Forall (fun v => node_chain v l) views ->
  (forall n b, drop (Z.to_nat start) l !! n = Some b ->
    compat (ledger (utxos (w_balance w)) (take n (drop (Z.to_nat start) l))) (block_utxos b)) ->
  Forall openable (take (Z.to_nat (max_blocks + 1)) (drop (Z.to_nat start) l)) ->
  Z.min (start + max_blocks + 1) (zlen l) <= start + 100 * (zlen views - 1) -> views <> [] ->
  exists w', cmd_scan w K spend from max_blocks views = Ok w'
    /\ utxos (w_balance w') = ledger (utxos (w_balance w))
         (take (Z.to_nat (max_blocks + 1)) (drop (Z.to_nat start) l))
    /\ w_scanned_height w' = Z.max start (Z.min (start + max_blocks) (zlen l - 1)).
Proof.
  cbn zeta. set (start := scan_start w from) in *. intros H0 Hm0 Hm Hb Hv Hd Ho Hen Hne.
  rewrite cmd_scan_unfold by (fold start; lia). fold start. unfold zlen in *.
  destruct (quiet_loop l (Z.to_nat start) (utxos (w_balance w)) (start + max_blocks) Hd Hm views 0
    start (first_session w start) Hv) as [Q1 Q2].
  { pose proof (first_scanned w l (Z.to_nat start) Hb) as H. by rewrite Z2Nat.id in H. }
  { lia. }
  { left. lia. }
  assert (Hw : take (wanted l (Z.to_nat start) (start + max_blocks)) (drop (Z.to_nat start) l)
    = take (Z.to_nat (max_blocks + 1)) (drop (Z.to_nat start) l)).
  { unfold wanted. rewrite take_length_take. f_equal. lia. }
  destruct Q1 as (se&E).
  { by rewrite Hw. }
  { intros _. split; [destruct views; cbn; [done|lia]|]. unfold zlen. lia. }
  rewrite E. destruct (Q2 se E) as [Hi _ Hh]. eexists. split; [reflexivity|].
  cbn [w_balance w_scanned_height]. rewrite release_utxos. split.
  - rewrite (si_utxos _ _ _ _ _ _ _ Hi). by rewrite Hw.
  - rewrite Hh, wanted_eq. lia.
Qed.

(** C33: A scan is complete: suppose the node keeps one chain and answers often enough,
    every output found in the range can be opened ([openable]: no poisoned coinbase,
    see [poisoned_coinbase_stops_scan]) and the outputs the chain pays from the first
    height on are distinct and not yet in the wallet ([distinct]).  Then the command
    ends without an error, with the reference ledger of every block of the range that
    the node has, and with the height of the last of them. *)
Theorem quiet_scan_complete w from max_blocks views l :
  let start := scan_start w from in
  0 <= start -> 0 <= max_blocks -> start + max_blocks + 100 < u64_max ->
  bal_ok (w_balance w) -> Forall (fun v => node_chain v l) views ->
  distinct (utxos (w_balance w)) (drop (Z.to_nat start) l) ->
  Forall openable (take (Z.to_nat (max_blocks + 1)) (drop (Z.to_nat start) l)) ->
  Z.min (start + max_blocks + 1) (zlen l) <= start + 100 * (zlen views - 1) -> views <> [] ->
  exists w', cmd_scan w K spend from max_blocks views = Ok w'
    /\ utxos (w_balance w') = ledger (utxos (w_balance w))
         (take (Z.to_nat (max_blocks + 1)) (drop (Z.to_nat start) l))
    /\ w_scanned_height w' = Z.max start (Z.min (start + max_blocks) (zlen l - 1)).
Proof.
  intros start H0 Hm0 Hm Hb Hv Hd. apply quiet_scan; try done.
  intros n b. by apply distinct_compat.
Qed.

(** ** Blocks that can be opened *)

(** What was found came from an output of a transaction of the block. *)
Lemma found_elem d b :
  d ∈ found_outputs blake3 tx_hash [K] b ->
  exists tx j o d' loc, tx ∈ transactions b /\ outputs tx !! j = Some o /\ d = set_locator d' loc
    /\ scan_output_keys blake3 o (Z.of_nat j) (tx_hash tx) (bool_decide (tx_type tx = Coinbase)) K
       = Some d'.
Proof.
  unfold found_outputs. intros (d'&->&Hd)%list_elem_of_fmap.
  apply list_elem_of_In, in_concat in Hd as (x&Hx&Hd). apply list_elem_of_In in Hx, Hd.
  apply list_elem_of_fmap in Hx as (tx&->&Htx).
  apply list_elem_of_omap in Hd as ([j o]&Hin&Hd). cbn [fst snd] in Hd.
  apply list_elem_of_lookup in Hin as (i&Hin). rewrite list_lookup_imap in Hin.
  apply fmap_Some in Hin as (o'&[Ho _]%lookup_take_Some&[= -> ->]).
  exists tx, i, o', d', (canonical_output_locators (block_height b)
    (concat ((fun tx => imap (fun i _ => (tx_hash tx, Z.of_nat i)) (take 256 (outputs tx)))
             <$> transactions b)) !! (do_tx_hash d', do_output_index d')).
  split_and!; [done..|]. unfold scan_output in Hd. cbn [omap list_omap] in Hd.
  destruct (scan_output_keys _ _ _ _ _ _); [|done]. by injection Hd as ->.
Qed.

(** The coinbase outputs open with their clear amount and have a key. *)
Definition sound_coinbase b : Prop :=
  forall tx o, tx ∈ transactions b -> tx_type tx = Coinbase -> o ∈ outputs tx ->
    commit (clear_amount (encrypted_amount o)) scalar_zero = commitment o
    /\ is_Some (point_of_bytes (tx_public_key o)).

Lemma sound_openable {CL : CurveLaws} b :
  own_keys blake3 spend K -> sound_coinbase b -> openable b.
Proof.
  intros Hk Hs. apply Forall_forall. intros x Hx.
  apply found_elem in Hx as (tx&j&o&d&loc&Htx&Ho&->&Hd).
  case_bool_decide as Hc.
  - destruct (Hs tx o Htx Hc ltac:(by eapply list_elem_of_lookup_2)) as [Hcm [p Hp]].
    unfold scan_output_keys in Hd. destruct (_ || _); [|done]. injection Hd as <-.
    unfold decrypted_to_utxo. cbn [set_locator do_amount do_blinding_factor do_output
      do_subaddress_index do_output_index]. rewrite Hcm, bool_decide_true by done.
    cbn [guard_or mbind result_bind]. unfold compute_one_time_secret. cbn [sa_tx_public_key].
    rewrite Hp. cbn. by eexists.
  - destruct (found_to_utxo blake3 spend K o _ _ d loc (block_height b) Hk Hd) as (u&_&Hu&_). eauto.
Qed.


End follow.

(** ** Examples *)

Lemma two_same (l : list Block) x : x ∈ [l; l] -> x = l.
Proof. by intros [->| ->%list_elem_of_singleton]%elem_of_cons. Qed.

(** The environment of a scan of the two blocks. *)
Lemma line_env w :
  bal_ok (w_balance w) ->
  scan_env line_hash w 0 5 [line_view; line_view] [line_chain; line_chain].
Proof.
  intros Hb. split.
  - lia.
  - split; [lia|]. reflexivity.
  - exact Hb.
  - constructor; [exact line_node|]. constructor; [exact line_node|constructor].
  - exact line_hashes.
Qed.

Lemma line_steady : steady 5 [line_chain; line_chain].
Proof.
  intros i l l' Hl Hl'. left. rewrite (two_same line_chain l), (two_same line_chain l');
    [lia|by eapply list_elem_of_lookup_2..].
Qed.

Definition line_scanned (w : Wallet) : Wallet :=
  match cmd_scan line_hash line_id w line_keys [9] (Some 0) 5 [line_view; line_view] with
  | Ok w => w
  | Err _ => w
  end.









(** A wallet with an output of a block that is no longer in the chain. *)
Definition orphan : UTXO := mkUTXO [7] 0 None 40 1 [77] true [] [] None None None.
Definition orphan_wallet : Wallet := mkWallet (Bal.add_utxo Bal.new orphan) [] 0.

Lemma orphan_ok : bal_ok (w_balance orphan_wallet).
Proof.
  apply (add_all_ok [orphan] Bal.new bal_ok_new). split; [by intros|].
  by intros u v ->%list_elem_of_singleton ->%list_elem_of_singleton.
Qed.

Lemma orphan_distinct :
  distinct line_hash line_id line_keys [9] (utxos (w_balance orphan_wallet)) line_chain.
Proof.
  unfold distinct. rewrite line_found.
  assert (E : utxos (w_balance orphan_wallet) = {[ out_key orphan := orphan ]}) by reflexivity.
  rewrite E, map_to_list_singleton. assert (Hk : bool_decide (o_key_image line_utxo = [77]) = false) by (vm_compute; reflexivity).
  apply bool_decide_eq_false in Hk. destruct line_utxo_facts as [Ek _]. cbn. rewrite Ek.
  split; (apply NoDup_cons; split; [|apply NoDup_singleton]); intros Hin%list_elem_of_singleton;
    [discriminate|by destruct Hk].
Qed.

Lemma orphan_unseen :
  unseen line_hash line_id line_keys [9] orphan_wallet 0 [line_chain; line_chain].
Proof. intros l ->%two_same. exact orphan_distinct. Qed.

Lemma orphan_scan_ok :
  cmd_scan line_hash line_id orphan_wallet line_keys [9] (Some 0) 5 [line_view; line_view]
  = Ok (line_scanned orphan_wallet).
Proof. vm_compute. reflexivity. Qed.

(** The output of the orphaned block is still there. *)
Lemma scan_never_revises_witness :
  (exists u', utxos (w_balance (line_scanned orphan_wallet)) !! ([7], 0) = Some u'
     /\ o_amount u' = 40 /\ (o_spent orphan = true -> o_spent u' = true))
  /\ forall l b, l ∈ [line_chain; line_chain] -> b ∈ drop 0 l -> ([7], 0) ∉ out_key <$> line_utxos b.
Proof.
  exact (scan_never_revises line_hash line_id line_keys [9] orphan_wallet (Some 0) 5
    [line_view; line_view] [line_chain; line_chain] _ ([7], 0) orphan
    (line_env orphan_wallet orphan_ok) line_steady orphan_unseen orphan_scan_ok eq_refl).
Defined.

Lemma line_openable : Forall (openable line_hash line_id line_keys [9]) line_chain.
Proof.
  apply Forall_forall. intros b Hb. apply sound_openable; [exact line_laws|apply registered_own|].
  intros tx o Ht Hc _. exfalso. apply elem_of_cons in Hb as [->|Hb%list_elem_of_singleton].
  - by apply elem_of_nil in Ht.
  - subst b. apply list_elem_of_singleton in Ht. by subst tx.
Qed.

(** The same scan as a quiet one. *)
Lemma quiet_scan_complete_witness :
  exists w', cmd_scan line_hash line_id empty_wallet line_keys [9] (Some 0) 5 [line_view; line_view]
      = Ok w'
    /\ utxos (w_balance w') = line_ledger ∅ (take 6 (drop 0 line_chain))
    /\ w_scanned_height w' = Z.max 0 (Z.min (0 + 5) (zlen line_chain - 1)).
Proof.
  apply (quiet_scan_complete line_hash line_id line_keys [9] empty_wallet (Some 0) 5
    [line_view; line_view] line_chain).
  - discriminate.
  - discriminate.
  - reflexivity.
  - exact bal_ok_new.
  - constructor; [exact line_node|]. constructor; [exact line_node|constructor].
  - exact line_distinct.
  - exact line_openable.
  - discriminate.
  - discriminate.
Defined.

