(* ===== verification/WalletResume.v ===== *)
(** * Resumed scans

    A scan that is not given a first height starts twenty blocks below the last
    one and goes over these blocks again.  The ledger in closed form, and the
    proof that going over a part of the chain again changes nothing. *)

From stdpp Require Import prelude gmap strings.
From Stdlib Require Import ZArith Lia.
From S2P Require Import Prelude Constants Encoding Amounts Difficulty Block Utxo ForkChoice Chain.
From S2P Require Import TxValidation Pow Mining Stealth Wallet StealthRules WalletRules WalletScan.
From S2P Require Import WalletDemo WalletFollow.

Local Open Scope Z_scope.

Section resume.
Context `{WC : WalletCurve} (blake3 : list Z -> Hash) (tx_hash : Transaction -> Hash).
Context (K : ScanKeys) (spend : SecretKey).
Implicit Types (b : Block) (C l : list Block) (w : Wallet) (base m : Outs).

Abbreviation block_utxos := (block_utxos blake3 tx_hash K spend).
Abbreviation ledger := (ledger blake3 tx_hash K spend).
Abbreviation node_chain := (node_chain blake3).
Abbreviation distinct := (distinct blake3 tx_hash K spend).
Abbreviation openable := (openable blake3 tx_hash K spend).
Abbreviation cmd_scan := (cmd_scan blake3 tx_hash).

Definition all_utxos C : list UTXO := concat (block_utxos <$> C).
Definition all_spends C : list KeyImage := concat (block_spends <$> C).

(** No output is spent below the block that makes it. *)
Definition causal C : Prop :=
  forall i j b c u, C !! i = Some b -> C !! j = Some c -> u ∈ block_utxos c ->
    o_key_image u ∈ block_spends b -> (j <= i)%nat.

(** ** The ledger in closed form *)

Lemma spend_in_insert_all S U : forall m,
  (forall u, u ∈ U -> o_key_image u ∉ S) ->
  spend_in S true (insert_all U m) = insert_all U (spend_in S true m).
Proof.
  induction U as [|u U IH]; intros m Hu; [done|].
  change (insert_all (u :: U)) with (fun m => insert_all U (<[out_key u := u]> m)). cbn beta.
  rewrite IH by (intros v Hv; apply Hu; by right). f_equal. unfold spend_in. rewrite fmap_insert.
  rewrite bool_decide_false; [done|]. apply Hu. by left.
Qed.

Lemma causal_app C C' : causal (C ++ C') -> causal C /\ causal C'.
Proof.
  intros H. split.
  - intros i j b c u Hi Hj. apply H; by apply lookup_app_l_Some.
  - intros i j b c u Hi Hj Hu Hs.
    enough (length C + j <= length C + i)%nat by lia.
    apply (H _ _ b c u); [| |done|done]; rewrite lookup_app_r by lia;
      [by replace (length C + i - length C)%nat with i by lia
      |by replace (length C + j - length C)%nat with j by lia].
Qed.

(** What a later block makes is not spent in an earlier one. *)
Lemma causal_unspent C C' u :
  causal (C ++ C') -> u ∈ all_utxos C' -> o_key_image u ∉ all_spends C.
Proof.
  intros H Hu Hs. apply list_elem_of_In, in_concat in Hu as (x&Hx&Hu). apply list_elem_of_In in Hx, Hu.
  apply list_elem_of_In, in_concat in Hs as (y&Hy&Hs). apply list_elem_of_In in Hy, Hs.
  apply list_elem_of_fmap in Hx as (c&->&Hc). apply list_elem_of_fmap in Hy as (b&->&Hb).
  apply list_elem_of_lookup in Hc as (j&Hj). apply list_elem_of_lookup in Hb as (i&Hi).
  pose proof (lookup_lt_Some _ _ _ Hi).
  enough (length C + j <= i)%nat by lia. apply (H i _ b c u); [by apply lookup_app_l_Some| |done|done].
  rewrite lookup_app_r by lia. by replace (length C + j - length C)%nat with j by lia.
Qed.

Lemma ledger_closed base C :
  causal C -> ledger base C = spend_in (all_spends C) true (insert_all (all_utxos C) base).
Proof.
  induction C as [|b C IH] using rev_ind; intros Hc.
  { symmetry. exact (spend_in_nil true base). }
  rewrite ledger_snoc, IH by (by apply causal_app in Hc as [? _]).
  unfold all_spends, all_utxos. rewrite !fmap_app, !concat_app.
  cbn [fmap list_fmap concat]. rewrite !app_nil_r. unfold learn.
  rewrite spend_in_app. f_equal. unfold insert_all at 3. rewrite foldl_app.
  symmetry. apply spend_in_insert_all. intros u Hu. apply (causal_unspent C [b]); [done|].
  unfold all_utxos. cbn. by rewrite app_nil_r.
Qed.

(** Going over the last blocks again. *)
Lemma ledger_again base P P' :
  causal (P ++ P') -> ledger (ledger base (P ++ P')) P' = ledger base (P ++ P').
Proof.
  intros Hc. rewrite (ledger_closed _ P') by (by apply causal_app in Hc as [_ ?]).
  rewrite (ledger_closed base) by done. apply map_eq. intros k.
  assert (HS : all_spends (P ++ P') = all_spends P ++ all_spends P').
  { unfold all_spends. by rewrite fmap_app, concat_app. }
  assert (HU : insert_all (all_utxos (P ++ P')) base
               = insert_all (all_utxos P') (insert_all (all_utxos P) base)).
  { unfold all_utxos, insert_all. by rewrite fmap_app, concat_app, foldl_app. }
  rewrite HS, HU, !spend_in_lookup.
  destruct (decide (k ∈ out_key <$> all_utxos P')) as [Hin|Hout].
  - destruct (insert_all_found _ _ Hin) as (u&Hu&E). rewrite !E. cbn. f_equal.
    pose proof (causal_unspent P P' u Hc Hu) as Hn.
    repeat case_bool_decide; try done; set_solver.
  - rewrite !insert_all_lookup, spend_in_lookup, insert_all_lookup by done.
    destruct (insert_all (all_utxos P) base !! k) as [u|]; [|done]. cbn. f_equal.
    repeat case_bool_decide; rewrite ?set_spent_image in *; try done; set_solver.
Qed.

(** A scan of the last blocks and the new ones. *)
Lemma ledger_resume base P P' Q :
  causal (P ++ P') -> ledger (ledger base (P ++ P')) (P' ++ Q) = ledger base ((P ++ P') ++ Q).
Proof.
  intros Hc. unfold WalletRules.ledger at 1 3. rewrite !foldl_app. f_equal.
  rewrite <- (foldl_app _ P P' base). by apply ledger_again.
Qed.

(** ** Known outputs *)

Definition known_pairs base C : list (OutKey * KeyImage) :=
  ((fun p : OutKey * UTXO => (p.1, o_key_image p.2)) <$> map_to_list base)
  ++ ((fun u => (out_key u, o_key_image u)) <$> all_utxos C).

Lemma distinct_pairs base C p q :
  distinct base C -> p ∈ known_pairs base C -> q ∈ known_pairs base C -> p.1 = q.1 <-> p.2 = q.2.
Proof.
  intros [Hk Hi] Hp Hq.
  assert (E1 : (known_pairs base C).*1
    = (map_to_list base).*1 ++ (out_key <$> concat (block_utxos <$> C))).
  { unfold known_pairs. by rewrite fmap_app, <- !list_fmap_compose. }
  assert (E2 : (known_pairs base C).*2 = (o_key_image <$> (map_to_list base).*2)
    ++ (o_key_image <$> concat (block_utxos <$> C))).
  { unfold known_pairs. by rewrite fmap_app, <- !list_fmap_compose. }
  rewrite <- E1 in Hk. rewrite <- E2 in Hi. split; intros E.
  - by rewrite (NoDup_fmap_eq fst _ p q Hk).
  - by rewrite (NoDup_fmap_eq snd _ p q Hi).
Qed.

Lemma pair_of_block base C b u :
  b ∈ C -> u ∈ block_utxos b -> (out_key u, o_key_image u) ∈ known_pairs base C.
Proof.
  intros Hb Hu. apply elem_of_app. right.
  apply (list_elem_of_fmap_2 (fun u => (out_key u, o_key_image u))).
  apply list_elem_of_In, in_concat. exists (block_utxos b).
  split; apply list_elem_of_In; [by apply list_elem_of_fmap_2|done].
Qed.

(** What a ledger over part of the blocks holds is known. *)
Lemma ledger_known base C C0 m k v :
  (forall b, b ∈ C0 -> b ∈ C) ->
  (forall k v, m !! k = Some v -> (k, o_key_image v) ∈ known_pairs base C) ->
  ledger m C0 !! k = Some v -> (k, o_key_image v) ∈ known_pairs base C.
Proof.
  intros Hsub Hm (x&<-&[Hx|[Hx <-]])%ledger_elem; [by apply Hm|].
  apply list_elem_of_In, in_concat in Hx as (y&Hy&Hx). apply list_elem_of_In in Hy, Hx.
  apply list_elem_of_fmap in Hy as (b&->&Hb). eapply pair_of_block; [by apply Hsub|done].
Qed.

Lemma base_known base C k v : base !! k = Some v -> (k, o_key_image v) ∈ known_pairs base C.
Proof.
  intros Hv. apply elem_of_app. left. apply elem_of_map_to_list in Hv.
  by apply (list_elem_of_fmap_2 (fun p : OutKey * UTXO => (p.1, o_key_image p.2))) in Hv.
Qed.

(** So are the keys and images of a scan that overlaps what the wallet knows. *)
Lemma overlap_compat base l N s n b :
  distinct base l -> drop s l !! n = Some b ->
  compat (ledger (ledger base (take N l)) (take n (drop s l))) (block_utxos b).
Proof.
  intros Hd Hb. assert (Hbl : b ∈ l).
  { rewrite lookup_drop in Hb. by eapply list_elem_of_lookup_2. }
  split.
  - intros u k v Hu Hv. apply (distinct_pairs base l (k, o_key_image v) (out_key u, o_key_image u) Hd).
    + eapply (ledger_known base l (take n (drop s l))); [| |exact Hv].
      * intros c Hc. eapply elem_of_sublist_drop. by eapply elem_of_prefix.
      * intros k' v'. apply (ledger_known base l (take N l)).
        -- intros c Hc. by eapply elem_of_prefix.
        -- intros. by apply base_known.
    + by eapply pair_of_block.
  - intros u v Hu Hv.
    apply (distinct_pairs base l (out_key u, o_key_image u) (out_key v, o_key_image v) Hd);
      by eapply pair_of_block.
Qed.

(** C31: Resuming is the same as scanning at once.  Suppose a wallet holds the ledger of
    the first [N] blocks of the chain the node shows now (the chain has only grown
    since the last scan; outputs of blocks orphaned in between would stay) and scans on
    without being given a height, with a range of at least twenty blocks and a node
    that keeps this chain and answers often enough.  Suppose further that every output
    found can be opened ([openable]), that the wallet's outputs have distinct keys and
    key images ([distinct]) and that none is spent below the block that makes it
    ([causal]).  Then the scan goes over the last twenty blocks again, succeeds, and
    leaves the ledger of the chain from its first block to the end of the range. *)
Theorem resumed_scan_equals_whole w max_blocks views l base (N : nat) :
  let start := sat_sub (w_scanned_height w) SCAN_BACKSTOP_BLOCKS in
  bal_ok (w_balance w) -> utxos (w_balance w) = ledger base (take N l) ->
  0 <= w_scanned_height w -> w_scanned_height w + 1 = Z.of_nat N -> (N <= length l)%nat ->
  SCAN_BACKSTOP_BLOCKS <= max_blocks -> start + max_blocks + 100 < u64_max ->
  Forall (fun v => node_chain v l) views -> distinct base l -> causal l -> Forall openable l ->
  Z.min (start + max_blocks + 1) (zlen l) <= start + 100 * (zlen views - 1) -> views <> [] ->
  exists w', cmd_scan w K spend None max_blocks views = Ok w'
    /\ utxos (w_balance w') = ledger base (take (Z.to_nat (start + max_blocks + 1)) l)
    /\ w_scanned_height w' = Z.min (start + max_blocks) (zlen l - 1).
Proof.
  intros start Hb Hu Hh0 Hh HN Hmax Hm Hv Hd Hc Ho Hen Hne.
  assert (Hs : start = Z.max 0 (Z.of_nat N - 21)).
  { unfold start, sat_sub, SCAN_BACKSTOP_BLOCKS. lia. }
  unfold SCAN_BACKSTOP_BLOCKS in Hmax.
  assert (Hl : exists P P' Q, l = (P ++ P') ++ Q /\ length P = Z.to_nat start /\ P ++ P' = take N l).
  { exists (take (Z.to_nat start) l), (drop (Z.to_nat start) (take N l)), (drop N l).
    assert (E : take (Z.to_nat start) l ++ drop (Z.to_nat start) (take N l) = take N l).
    { rewrite <- (take_drop (Z.to_nat start) (take N l)) at 2. rewrite take_take.
      f_equal. f_equal. lia. }
    rewrite E, take_drop, length_take. split; [done|]. split; [lia|done]. }
  destruct Hl as (P&P'&Q&El&HP&EN).
  assert (HlP : length (P ++ P') = N) by (rewrite EN, length_take; lia).
  destruct (quiet_scan blake3 tx_hash K spend w None max_blocks views l) as (w'&E&Hu'&Hh'); try done;
    cbn [scan_start default from_option]; fold start; try lia.
  - intros n b Hn. rewrite Hu. by apply overlap_compat.
  - apply Forall_take, Forall_drop. done.
  - exists w'. split; [done|]. cbn [scan_start default from_option] in Hu', Hh'. fold start in Hu', Hh'.
    split.
    + rewrite Hu', Hu, <- EN, El. rewrite <- (app_assoc P P' Q) at 1.
      rewrite <- HP, drop_app_length.
      rewrite (take_app_ge P'), (take_app_ge (P ++ P')) by (rewrite length_app in *; lia).
      rewrite ledger_resume.
      * f_equal. f_equal. rewrite length_app in *. f_equal. lia.
      * rewrite El in Hc. by apply causal_app in Hc as [? _].
    + rewrite Hh'. unfold zlen. lia.
Qed.
End resume.

(** ** An example *)

(** The wallet that has scanned the two blocks. *)
Definition paid_wallet : Wallet := mkWallet (Bal.add_utxo Bal.new line_utxo) [] 1.

Lemma paid_ok : bal_ok (w_balance paid_wallet).
Proof.
  apply (add_all_ok [line_utxo] Bal.new bal_ok_new). split; [by intros|].
  by intros u v ->%list_elem_of_singleton ->%list_elem_of_singleton.
Qed.

Lemma paid_ledger : utxos (w_balance paid_wallet) = line_ledger ∅ (take 2 spent_chain).
Proof. vm_compute. reflexivity. Qed.

(** The next block spends the payment. *)
Lemma spent_causal : causal line_hash line_id line_keys [9] spent_chain.
Proof.
  intros i j b c u Hb Hc Hu Hs.
  assert (Hj : (j <= 2)%nat) by (apply lookup_lt_Some in Hc; cbn in Hc; lia).
  destruct i as [|[|[|i]]]; [..|lia]; injection Hb as <-; [by apply elem_of_nil in Hs..|lia].
Qed.

Lemma spent_openable : Forall (openable line_hash line_id line_keys [9]) spent_chain.
Proof.
  apply Forall_app. split; [exact line_openable|]. constructor; [|constructor].
  apply sound_openable; [exact line_laws|apply registered_own|].
  intros tx o ->%list_elem_of_singleton. discriminate.
Qed.

(** A wallet that has scanned the first two blocks scans on: it finds the third one and
    marks its output as spent. *)
Lemma resumed_scan_equals_whole_witness :
  (o_spent <$> line_ledger ∅ (take 26 spent_chain) !! out_key line_utxo) = Some true
  /\ exists w', cmd_scan line_hash line_id paid_wallet line_keys [9] None 25 [spent_view; spent_view]
      = Ok w'
    /\ utxos (w_balance w') = line_ledger ∅ (take 26 spent_chain)
    /\ w_scanned_height w' = Z.min (0 + 25) (zlen spent_chain - 1).
Proof.
  split; [vm_compute; reflexivity|].
  apply (resumed_scan_equals_whole line_hash line_id line_keys [9] paid_wallet 25
    [spent_view; spent_view] spent_chain ∅ 2%nat).
  - exact paid_ok.
  - exact paid_ledger.
  - discriminate.
  - reflexivity.
  - apply Nat.leb_le. reflexivity.
  - discriminate.
  - reflexivity.
  - constructor; [exact spent_node|]. constructor; [exact spent_node|constructor].
  - exact spent_distinct.
  - exact spent_causal.
  - exact spent_openable.
  - discriminate.
  - discriminate.
Defined.
