(* ===== verification/WalletSafety.v ===== *)
(** * Saving and spending

    The files of the wallet give back what was saved, and a transaction reaches
    the node only when the reservation of its inputs is on disk, so that no crash
    lets the wallet spend them again while the first spend may still confirm. *)

From stdpp Require Import prelude gmap strings.
From Stdlib Require Import ZArith Lia.
From S2P Require Import Prelude Constants Encoding Amounts Difficulty Block Utxo ForkChoice Chain.
From S2P Require Import Pow Mining Stealth Wallet WalletRules WalletScan.

Local Open Scope Z_scope.

Implicit Types (b : Balance) (w : Wallet) (d : Disk) (k : OutKey).

(** ** The outputs *)

Lemma values_elem b u : bal_ok b -> u ∈ Bal.values b <-> utxos b !! out_key u = Some u.
Proof.
  intros Hb. unfold Bal.values. split.
  - intros ([k v]&->&Hv%elem_of_map_to_list)%list_elem_of_fmap. cbn.
    by rewrite (ok_key _ (bk_outs _ Hb) _ _ Hv).
  - intros Hu. apply elem_of_map_to_list in Hu. by apply (list_elem_of_fmap_2 snd) in Hu.
Qed.

Lemma values_compat b : bal_ok b -> compat ∅ (Bal.values b).
Proof.
  intros Hb. split; [intros u k v _ H; by rewrite lookup_empty in H|].
  intros u v Hu%(values_elem b) Hv%(values_elem b); [|done|done]. split; intros E; [congruence|].
  by apply (ok_image _ (bk_outs _ Hb) _ _ u v).
Qed.

Lemma insert_values b : bal_ok b -> insert_all (Bal.values b) ∅ = utxos b.
Proof.
  intros Hb. apply map_eq. intros k. apply option_eq. intros u. split.
  - intros [H|[Hu <-]]%insert_all_elem; [by rewrite lookup_empty in H|]. by apply values_elem.
  - intros Hu. pose proof (ok_key _ (bk_outs _ Hb) _ _ Hu) as Ek.
    destruct (insert_all_found (Bal.values b) k) as (v&Hv&E).
    { rewrite <- Ek. apply list_elem_of_fmap_2, values_elem; [done|]. by rewrite Ek. }
    pose proof (E ∅) as E'. rewrite E'. apply insert_all_elem in E' as [H|[_ Ev]];
      [by rewrite lookup_empty in H|]. apply values_elem in Hv; [|done]. congruence.
Qed.

Lemma reload_outputs b :
  bal_ok b -> bal_ok (foldl Bal.add_utxo Bal.new (Bal.values b))
  /\ utxos (foldl Bal.add_utxo Bal.new (Bal.values b)) = utxos b.
Proof.
  intros Hb. destruct (add_all_ok (Bal.values b) Bal.new bal_ok_new (values_compat b Hb)) as [H E].
  split; [done|]. rewrite E. by apply insert_values.
Qed.

Lemma default_sidecar {A} (l : list A) : default [] (sidecar l) = l.
Proof. by destruct l. Qed.

(** ** The reservations *)

Definition live (h : Z) (r : Reservation) : Prop :=
  h < sat_add u64_max (r_height r) RESERVATION_EXPIRY_BLOCKS.

Lemma restore_same l h : forall b,
  utxos (Bal.restore_reservations b l h) = utxos b
  /\ key_image_index (Bal.restore_reservations b l h) = key_image_index b.
Proof.
  induction l as [|e l IH]; intros b; [done|]. cbn [Bal.restore_reservations foldl].
  fold (Bal.restore_reservations b l h). destruct (_ <? _); [|apply IH].
  destruct (IH (mkBalance (utxos b) (<[e.1:=e.2]> (reservations b)) (key_image_index b))). done.
Qed.

Lemma restore_lookup b h l k r :
  NoDup l.*1 -> reservations b = ∅ ->
  reservations (Bal.restore_reservations b l h) !! k = Some r <-> (k, r) ∈ l /\ live h r.
Proof.
  intros Hn H0. induction l as [|[k' r'] l IH] using rev_ind.
  { cbn. rewrite H0, lookup_empty, elem_of_nil. naive_solver. }
  rewrite fmap_app in Hn. apply NoDup_app in Hn as (Hn&Hd&_). specialize (IH Hn).
  unfold Bal.restore_reservations in *. rewrite foldl_app. cbn [foldl fst snd].
  set (b1 := foldl _ b l) in *. rewrite elem_of_app, list_elem_of_singleton.
  assert (Hnew : (k', r) ∉ l).
  { intros Hin. apply (Hd k'); [|by left]. by apply (list_elem_of_fmap_2 fst) in Hin. }
  unfold live in *. destruct (Z.ltb_spec h (sat_add u64_max (r_height r') RESERVATION_EXPIRY_BLOCKS)).
  - cbn [reservations]. rewrite lookup_insert_Some, IH. split.
    + intros [[<- <-]|[Hne [Hin Hl]]]; [auto|auto].
    + intros [[Hin|[= -> ->]] Hl]; [|by left]. right. split; [|done]. intros <-. done.
  - rewrite IH. split; [naive_solver|]. intros [[Hin|[= -> ->]] Hl]; [done|lia].
Qed.

(** ** The history *)

Definition entry_key (r : TransactionRecord) : Hash * TxDirection := (h_tx_hash r, h_direction r).

Lemma add_new (l : list TransactionRecord) r :
  entry_key r ∉ entry_key <$> l -> His.add l r = l ++ [r].
Proof.
  induction l as [|x l IH]; intros Hn; [done|]. cbn in *. unfold His.same_entry.
  destruct (bool_decide (h_tx_hash x = h_tx_hash r) && bool_decide (h_direction x = h_direction r)) eqn:E.
  - apply andb_true_iff in E as [E1%bool_decide_eq_true E2%bool_decide_eq_true].
    destruct Hn. unfold entry_key. rewrite E1, E2. by left.
  - f_equal. apply IH. intros H. apply Hn. by right.
Qed.

Lemma reload_history (l : list TransactionRecord) :
  NoDup (entry_key <$> l) -> foldl His.add [] l = l.
Proof.
  induction l as [|r l IH] using rev_ind; [done|]. rewrite fmap_app. intros (Hn&Hd&_)%NoDup_app.
  rewrite foldl_app. cbn [foldl]. rewrite IH by done. apply add_new. intros Hin.
  apply (Hd _ Hin). by left.
Qed.

(** ** Saving *)

Lemma load_saved w d written :
  (4 <= written)%nat ->
  load (save w d written).2
  = mkWallet (Bal.restore_reservations (foldl Bal.add_utxo Bal.new (Bal.values (w_balance w)))
      (Bal.all_reservations (w_balance w)) (w_scanned_height w))
    (foldl His.add [] (w_history w)) (w_scanned_height w).
Proof.
  intros Hw. unfold save. do 4 (destruct written as [|written]; [lia|]). cbn [Nat.leb snd].
  unfold load. cbn [dk_utxos dk_reservations dk_history dk_scanned_height]. by rewrite !default_sidecar.
Qed.

Lemma reservations_fold l : forall b,
  reservations (foldl Bal.add_utxo b l) = reservations b.
Proof. induction l as [|u l IH]; intros b; [done|]. cbn [foldl]. by rewrite IH. Qed.

Lemma reload_reservations w d written k r :
  (4 <= written)%nat ->
  reservations (w_balance (load (save w d written).2)) !! k = Some r
  <-> reservations (w_balance w) !! k = Some r /\ live (w_scanned_height w) r.
Proof.
  intros Hw. rewrite load_saved by done. cbn [w_balance].
  rewrite restore_lookup by (apply NoDup_fst_map_to_list || by rewrite reservations_fold).
  unfold Bal.all_reservations. by rewrite elem_of_map_to_list.
Qed.

(** C35: The files give back the wallet: after a save that is not interrupted, opening
    the wallet gives the outputs, the height, the history and the reservations that are
    not expired, with an exact index of the key images. *)
Theorem save_load_roundtrip w d (written : nat) :
  bal_ok (w_balance w) -> NoDup (entry_key <$> w_history w) -> (4 <= written)%nat ->
  let w' := load (save w d written).2 in
  utxos (w_balance w') = utxos (w_balance w)
  /\ w_scanned_height w' = w_scanned_height w /\ w_history w' = w_history w
  /\ bal_ok (w_balance w')
  /\ forall k r, reservations (w_balance w') !! k = Some r
       <-> reservations (w_balance w) !! k = Some r /\ live (w_scanned_height w) r.
Proof.
  intros Hb Hh Hw w'. destruct (reload_outputs (w_balance w) Hb) as [[Ho Hx] Hu].
  split_and!; [| | | |intros k r; by apply reload_reservations];
    unfold w'; rewrite load_saved by done; cbn [w_balance w_scanned_height w_history].
  - by rewrite (proj1 (restore_same _ _ _)).
  - done.
  - by apply reload_history.
  - split; rewrite ?(proj1 (restore_same _ _ _)), ?(proj2 (restore_same _ _ _)); done.
Qed.

(** ** Spending *)

Lemma check_bindings_ok b l ks : check_bindings b l = Ok ks -> ks = sb_output <$> l.
Proof.
  revert ks. induction l as [|x l IH]; intros ks; cbn [check_bindings]; [by intros [= <-]|].
  destruct (Bal.lookup_by_key_image b (sb_key_image x)) as [c|]; [|done]. case_bool_decide; [|done].
  destruct (check_bindings b l) as [ks'|]; cbn; [|done]. intros [= <-]. by rewrite (IH ks').
Qed.

Lemma validate_ok b l ks : validate_input_bindings b l = Ok ks -> ks = sb_output <$> l.
Proof. destruct l; [done|]. apply check_bindings_ok. Qed.

Lemma reserve_all r keys : forall (m : gmap OutKey Reservation) k,
  k ∈ keys -> foldl (fun m k => <[k := r]> m) m keys !! k = Some r.
Proof.
  induction keys as [|x keys IH] using rev_ind; intros m k Hk; [by apply elem_of_nil in Hk|].
  rewrite foldl_app. cbn. destruct (decide (x = k)) as [->|Hne]; [apply lookup_insert_eq|].
  rewrite lookup_insert_ne by done. apply IH. set_solver.
Qed.

Lemma reserve_ok b keys tx h b' k :
  Bal.reserve_utxos b keys tx h = Ok b' -> k ∈ keys ->
  reservations b' !! k = Some (mkReservation tx h).
Proof.
  unfold Bal.reserve_utxos. destruct (find _ _); [done|]. intros [= <-] Hk. by apply reserve_all.
Qed.

Lemma reserve_conflict b keys tx h k :
  k ∈ keys -> Bal.is_reserved b k h = true -> exists c, Bal.reserve_utxos b keys tx h = Err c.
Proof.
  intros Hk Hr. unfold Bal.reserve_utxos. destruct (find _ _) as [x|] eqn:E; [by eexists|].
  apply list_elem_of_In in Hk. rewrite (find_none _ _ E k Hk) in Hr. done.
Qed.

Lemma reserved_live b k r h :
  reservations b !! k = Some r -> live h r -> Bal.is_reserved b k h = true.
Proof. intros Hr Hl. unfold Bal.is_reserved. rewrite Hr. by apply Z.ltb_lt. Qed.

Lemma reserved_unavailable b h age u :
  Bal.is_reserved b (out_key u) h = true -> Bal.available b h age u = false.
Proof. intros H. unfold Bal.available. rewrite H. by rewrite andb_false_r. Qed.

(** A spend of a reserved output is not handed to the node. *)
Lemma reserved_not_sent w d built saved saved' outcome x :
  x ∈ bs_input_bindings built ->
  Bal.is_reserved (w_balance w) (sb_output x) (bs_target_height built) = true ->
  (submit_reserved w d built saved saved' outcome).2 = None.
Proof.
  intros Hx Hr. unfold submit_reserved.
  destruct (validate_input_bindings _ _) as [ks|] eqn:Ev; [|done]. apply validate_ok in Ev as ->.
  destruct (reserve_conflict (w_balance w) (sb_output <$> bs_input_bindings built)
    (bs_tx_hash built) (bs_target_height built) (sb_output x)) as (c&->); [|done|done].
  by apply list_elem_of_fmap_2.
Qed.

(** C32: No crash spends an output twice: when a transaction is handed to the node, the
    disk already holds the reservation of every input; a wallet opened from that disk
    does not offer the input, and hands no other transaction that uses it to the node,
    until the reservation expires. *)
Theorem sent_inputs_reserved w d built saved saved' outcome held bytes sent x :
  (submit_reserved w d built saved saved' outcome).2 = Some (bytes, sent) ->
  held = mkReservation (bs_tx_hash built) (bs_target_height built) ->
  live (w_scanned_height w) held -> x ∈ bs_input_bindings built ->
  let w' := load sent in
  reservations (w_balance w') !! sb_output x = Some held
  /\ (forall h age u, out_key u = sb_output x -> live h held ->
        Bal.available (w_balance w') h age u = false)
  /\ (forall again y d' s s' o, y ∈ bs_input_bindings again -> sb_output y = sb_output x ->
        live (bs_target_height again) held -> (submit_reserved w' d' again s s' o).2 = None).
Proof.
  intros Hs -> Hl Hx w'.
  assert (Hr : reservations (w_balance w') !! sb_output x
    = Some (mkReservation (bs_tx_hash built) (bs_target_height built))).
  { unfold submit_reserved in Hs. destruct (validate_input_bindings _ _) as [ks|] eqn:Ev; [|done].
    apply validate_ok in Ev as ->. destruct (Bal.reserve_utxos _ _ _ _) as [b|] eqn:Er; [|done].
    unfold w'. clear w'.
    assert (Hsent : (4 <= saved)%nat /\ sent = (save (with_balance w b) d saved).2).
    { unfold save in *. cbn [negb] in Hs. destruct (Nat.leb_spec 4 saved); cbn [negb] in Hs; [|done].
      split; [done|]. destruct outcome; cbn in Hs; by injection Hs. }
    destruct Hsent as [H4 ->]. apply reload_reservations; [done|]. split; [|done].
    eapply reserve_ok; [exact Er|]. by apply list_elem_of_fmap_2. }
  split_and!; [done| |].
  - intros h age u Hu Hh. apply reserved_unavailable. rewrite Hu. by eapply reserved_live.
  - intros again y d' s s' o Hy E Hh. eapply reserved_not_sent; [exact Hy|]. rewrite E.
    by eapply reserved_live.
Qed.

(** ** Examples *)

Definition coin : UTXO := mkUTXO [3] 1 None 90 12 [8] false [] [] None None None.
Definition coin_wallet : Wallet := mkWallet (Bal.add_utxo Bal.new coin) [] 20.
Definition no_disk : Disk := mkDisk None None None 0.
Definition coin_spend : BuiltSpend :=
  mkBuiltSpend [1; 2; 3] [6] 21 [mkSpendInputBinding [8] ([3], 1)].

Lemma coin_ok : bal_ok (w_balance coin_wallet).
Proof.
  apply (add_all_ok [coin] Bal.new bal_ok_new). split; [by intros|].
  by intros u v ->%list_elem_of_singleton ->%list_elem_of_singleton.
Qed.

(** A wallet with one output. *)
Lemma save_load_roundtrip_witness :
  let w' := load (save coin_wallet no_disk 4).2 in
  utxos (w_balance w') = utxos (w_balance coin_wallet)
  /\ w_scanned_height w' = 20 /\ w_history w' = []
  /\ bal_ok (w_balance w')
  /\ forall k r, reservations (w_balance w') !! k = Some r
       <-> reservations (w_balance coin_wallet) !! k = Some r /\ live 20 r.
Proof.
  apply (save_load_roundtrip coin_wallet no_disk 4).
  - exact coin_ok.
  - constructor.
  - apply Nat.leb_le. reflexivity.
Defined.

Definition coin_sent : Disk :=
  match (submit_reserved coin_wallet no_disk coin_spend 4 4 SubUnknown).2 with
  | Some (_, d) => d
  | None => no_disk
  end.

(** It spends the output, and the held of the node is lost. *)
Lemma sent_inputs_reserved_witness :
  reservations (w_balance (load coin_sent)) !! ([3], 1) = Some (mkReservation [6] 21)
  /\ (forall h age u, out_key u = ([3], 1) -> live h (mkReservation [6] 21) ->
        Bal.available (w_balance (load coin_sent)) h age u = false)
  /\ (forall again y d' s s' o, y ∈ bs_input_bindings again -> sb_output y = ([3], 1) ->
        live (bs_target_height again) (mkReservation [6] 21) ->
        (submit_reserved (load coin_sent) d' again s s' o).2 = None).
Proof.
  apply (sent_inputs_reserved coin_wallet no_disk coin_spend 4 4 SubUnknown (mkReservation [6] 21)
    [1; 2; 3] coin_sent (mkSpendInputBinding [8] ([3], 1))).
  - reflexivity.
  - reflexivity.
  - reflexivity.
  - apply list_elem_of_singleton. reflexivity.
Defined.
