(* ===== verification/Swap.v ===== *)
(** * Atomic swaps ([crates/coincync-swap]): protocol, state file, command line

    The state machine of a swap ([src/protocol.rs]), its file with the
    integrity check ([src/state.rs]), and the commands of [src/bin/cyncswap.rs]
    that move it: load, check, broadcast, apply, save.  The keyed hash over the
    JSON of a file body is an argument; the answers of the two chains and of
    the disk during a command are the record [Env]. *)

From stdpp Require Import prelude strings.
From Stdlib Require Import ZArith Lia.
From S2P Require Import Prelude.

Local Open Scope Z_scope.

(** ** Protocol *)

Inductive Role := Alice | Bob.

Inductive State :=
| Negotiated | AliceLocked | BobLocked | SecretRevealed | Completed | Refunded | Aborted.

Inductive Transition :=
| AliceLocksCync | BobLocksBtc | AliceClaimsBtc | BobClaimsCync | AliceRefunds | BobRefunds
| ObserveBobLocked | ObserveAliceLocked | ObserveSecretRevealed | ObserveCompleted | AbortSwap.

#[export] Instance role_eq_dec : EqDecision Role.
Proof. solve_decision. Defined.
#[export] Instance state_eq_dec : EqDecision State.
Proof. solve_decision. Defined.
#[export] Instance transition_eq_dec : EqDecision Transition.
Proof. solve_decision. Defined.

Record SwapParameters := mkSwapParameters {
  cync_amount : Z;
  btc_amount_sats : Z;
  cync_timeout_blocks : Z;
  btc_timeout_blocks : Z;
  alice_cync_address : string;
  bob_btc_address : string;
  cync_network : string;
  btc_network : string;
}.

#[export] Instance swap_parameters_eq_dec : EqDecision SwapParameters.
Proof. solve_decision. Defined.

Record Swap := mkSwap {
  s_id : string;
  s_role : Role;
  s_state : State;
  s_parameters : SwapParameters;
}.

Definition opposite (r : Role) : Role := match r with Alice => Bob | Bob => Alice end.

Definition is_terminal (s : State) : bool :=
  match s with Completed | Refunded | Aborted => true | _ => false end.

Definition CYNC_BLOCK_TIME_SECS : Z := 120.
Definition BTC_BLOCK_TIME_SECS : Z := 600.
Definition SAFETY_MARGIN_NUMERATOR : Z := 6.
Definition SAFETY_MARGIN_DENOMINATOR : Z := 5.

Definition cync_timeout_secs (p : SwapParameters) : Z :=
  sat_mul u64_max (cync_timeout_blocks p) CYNC_BLOCK_TIME_SECS.
Definition btc_timeout_secs (p : SwapParameters) : Z :=
  sat_mul u64_max (btc_timeout_blocks p) BTC_BLOCK_TIME_SECS.

Definition is_timeout_safe (p : SwapParameters) : bool :=
  let margin_secs :=
    sat_mul u64_max (btc_timeout_secs p) SAFETY_MARGIN_NUMERATOR / SAFETY_MARGIN_DENOMINATOR in
  margin_secs <? cync_timeout_secs p.

Inductive swap_error := UnsafeTimeouts | IsTerminal | IllegalTransition.

Definition negotiate (id : string) (role : Role) (params : SwapParameters)
  : result swap_error Swap :=
  if negb (is_timeout_safe params) then Err UnsafeTimeouts
  else Ok (mkSwap id role Negotiated params).

(** The table of [apply]. *)
Definition next_state (t : Transition) (r : Role) (s : State) : option State :=
  match t, r, s with
  | AbortSwap, _, _ => Some Aborted
  | AliceLocksCync, Alice, Negotiated => Some AliceLocked
  | AliceClaimsBtc, Alice, BobLocked => Some SecretRevealed
  | AliceRefunds, Alice, AliceLocked => Some Refunded
  | AliceRefunds, Alice, BobLocked => Some Refunded
  | ObserveBobLocked, Alice, AliceLocked => Some BobLocked
  | BobLocksBtc, Bob, AliceLocked => Some BobLocked
  | BobClaimsCync, Bob, SecretRevealed => Some Completed
  | BobRefunds, Bob, BobLocked => Some Refunded
  | ObserveAliceLocked, Bob, Negotiated => Some AliceLocked
  | ObserveSecretRevealed, Bob, BobLocked => Some SecretRevealed
  | ObserveCompleted, Bob, SecretRevealed => Some Completed
  | _, _, _ => None
  end.

Definition apply (w : Swap) (t : Transition) : result swap_error Swap :=
  if is_terminal (s_state w) then Err IsTerminal
  else
    match next_state t (s_role w) (s_state w) with
    | Some next => Ok (mkSwap (s_id w) (s_role w) next (s_parameters w))
    | None => Err IllegalTransition
    end.

Definition legal_transitions (w : Swap) : list Transition :=
  if is_terminal (s_state w) then []
  else
    AbortSwap ::
    match s_role w, s_state w with
    | Alice, Negotiated => [AliceLocksCync]
    | Alice, AliceLocked => [ObserveBobLocked; AliceRefunds]
    | Alice, BobLocked => [AliceClaimsBtc; AliceRefunds]
    | Bob, Negotiated => [ObserveAliceLocked]
    | Bob, AliceLocked => [BobLocksBtc]
    | Bob, BobLocked => [ObserveSecretRevealed; BobRefunds]
    | Bob, SecretRevealed => [BobClaimsCync]
    | _, _ => []
    end.

(** ** The state file *)

Definition STATE_VERSION : Z := 2.
Definition HMAC_KEY_LEN : nat := 32.

Record StateFileBody := mkStateFileBody {
  b_version : Z;
  b_saved_at : Z;
  b_swap : Swap;
}.

Record StateFileEnvelope := mkStateFileEnvelope {
  env_body : StateFileBody;
  env_hmac : string;
}.

(** What the bytes of a state file parse to: the version alone, and the whole
    envelope. *)
Record StateFile := mkStateFile {
  f_version : option Z;
  f_envelope : option StateFileEnvelope;
}.

(** The state file and the key file next to it. *)
Record Disk := mkDisk {
  d_file : option StateFile;
  d_key : option (list Z);
}.

Inductive state_error :=
| IoError | JsonError | UnsupportedVersion (v : Z) | HmacKeyMissing | IntegrityFailure.

Section store.
Context (hmac : list Z -> StateFileBody -> string).

Definition read_hmac_key (k : list Z) : result state_error (list Z) :=
  if (HMAC_KEY_LEN <=? length k)%nat then Ok (take HMAC_KEY_LEN k) else Err IoError.

(** [fresh] is the random key; [key_io] and [io] say whether the key file and
    the state file can be written. *)
Definition read_or_create_hmac_key (d : Disk) (fresh : list Z) (key_io : bool)
  : Disk * result state_error (list Z) :=
  match d_key d with
  | Some k => (d, read_hmac_key k)
  | None => if key_io then (mkDisk (d_file d) (Some fresh), Ok fresh) else (d, Err IoError)
  end.

Definition save (d : Disk) (now : Z) (fresh : list Z) (key_io io : bool) (w : Swap)
  : Disk * result state_error unit :=
  let body := mkStateFileBody STATE_VERSION now w in
  let '(d, key) := read_or_create_hmac_key d fresh key_io in
  match key with
  | Err e => (d, Err e)
  | Ok key =>
      if io then
        (mkDisk (Some (mkStateFile (Some STATE_VERSION)
                         (Some (mkStateFileEnvelope body (hmac key body))))) (d_key d), Ok tt)
      else (d, Err IoError)
  end.

Definition load (d : Disk) : result state_error (option Swap) :=
  match d_file d with
  | None => Ok None
  | Some f =>
      match f_version f with
      | None => Err JsonError
      | Some v =>
          if negb (v =? STATE_VERSION) then Err (UnsupportedVersion v)
          else
            match f_envelope f with
            | None => Err JsonError
            | Some e =>
                match d_key d with
                | None => Err HmacKeyMissing
                | Some k =>
                    key ← read_hmac_key k;
                    if bool_decide (hmac key (env_body e) = env_hmac e)
                    then Ok (Some (b_swap (env_body e)))
                    else Err IntegrityFailure
                end
            end
      end
  end.

Definition delete (d : Disk) : Disk := mkDisk None (d_key d).

(** ** Commands *)

Definition DEFAULT_CYNC_TIMEOUT_BLOCKS : Z := 720.
Definition DEFAULT_BTC_TIMEOUT_BLOCKS : Z := 100.

(** What a command meets: clock, random key, disk, the transaction given in
    hexadecimal ([None] when it does not decode), whether the other arguments
    parse, whether the claim matches the swap, whether the node takes the
    transaction, and whether its answer arrives in time and in the expected form. *)
Record Env := mkEnv {
  v_now : Z;
  v_fresh : list Z;
  v_key_io : bool;
  v_io : bool;
  v_tx : option (list Z);
  v_args : bool;
  v_claim : bool;
  v_accepted : bool;
  v_answer : bool;
}.

(** The disk, the transactions the nodes have taken so far, each with the transition
    that sent it, and those sent by the raw broadcast commands. *)
Record Node := mkNode {
  n_disk : Disk;
  n_sent : list (Transition * list Z);
  n_raw : list (list Z);
}.

Inductive cmd_error :=
| ZeroAmount | StateExists | Construction (e : swap_error) | LoadFailed (e : state_error)
| NoState | AlreadyTerminal | WrongRole | WrongState | BadTransaction | BadArguments
| ClaimMismatch | BroadcastFailed | ApplyFailed (e : swap_error) | SaveFailed (e : state_error).

Definition save_swap (n : Node) (v : Env) (w : Swap) : Node * result cmd_error unit :=
  let '(d, r) := save (n_disk n) (v_now v) (v_fresh v) (v_key_io v) (v_io v) w in
  (mkNode d (n_sent n) (n_raw n), match r with Ok _ => Ok tt | Err e => Err (SaveFailed e) end).

Definition load_swap (n : Node) : result cmd_error Swap :=
  match load (n_disk n) with
  | Ok (Some w) => Ok w
  | Ok None => Err NoState
  | Err e => Err (LoadFailed e)
  end.

(** What the four commands that start a swap have in common. *)
Definition init_cmd (role : Role) (id : string) (cync btc : Z) (cync_addr btc_addr : string)
    (n : Node) (v : Env) : Node * result cmd_error unit :=
  if cync =? 0 then (n, Err ZeroAmount)
  else if btc =? 0 then (n, Err ZeroAmount)
  else if bool_decide (is_Some (d_file (n_disk n))) then (n, Err StateExists)
  else
    match
      negotiate id role
        (mkSwapParameters cync btc DEFAULT_CYNC_TIMEOUT_BLOCKS DEFAULT_BTC_TIMEOUT_BLOCKS
           cync_addr btc_addr "unknown" "unknown")
    with
    | Err e => (n, Err (Construction e))
    | Ok w => save_swap n v w
    end.

Definition alice_cmd (id : string) := init_cmd Alice id.
Definition bob_cmd (swap_id : string) := init_cmd Bob swap_id.
Definition wallet_init_alice_cmd (id : string) := init_cmd Alice id.

(** The fields of the invitation that are present and have the right type. *)
Record Invite := mkInvite {
  i_v : option Z;
  i_role : option string;
  i_swap_id : option string;
  i_cync_amount : option Z;
  i_btc_amount_sats : option Z;
  i_listen : option string;
}.

(** [None] is an invitation that is not hexadecimal JSON. *)
Definition wallet_init_bob_cmd (invite : option Invite) (cync_addr btc_addr : string)
    (n : Node) (v : Env) : Node * result cmd_error unit :=
  match
    (i ← ok_or BadArguments invite;
     _ ← guard_or (default 0 (i_v i) =? 1) BadArguments;
     _ ← guard_or (bool_decide (default "?"%string (i_role i) = "alice"%string)) BadArguments;
     swap_id ← ok_or BadArguments (i_swap_id i);
     cync ← ok_or BadArguments (i_cync_amount i);
     btc ← ok_or BadArguments (i_btc_amount_sats i);
     _ ← ok_or BadArguments (i_listen i);
     Ok (swap_id, cync, btc))
  with
  | Err e => (n, Err e)
  | Ok (swap_id, cync, btc) => init_cmd Bob swap_id cync btc cync_addr btc_addr n v
  end.

Definition cancel_cmd (n : Node) (v : Env) : Node * result cmd_error unit :=
  match load_swap n with
  | Err e => (n, Err e)
  | Ok w =>
      if is_terminal (s_state w) then (n, Err AlreadyTerminal)
      else
        match apply w AbortSwap with
        | Err e => (n, Err (ApplyFailed e))
        | Ok w' => save_swap n v w'
        end
  end.

Inductive TransitionKind := KObserveBobLocked | KObserveAliceLocked | KObserveSecretRevealed
  | KObserveCompleted.

Definition to_protocol (k : TransitionKind) : Transition :=
  match k with
  | KObserveBobLocked => ObserveBobLocked
  | KObserveAliceLocked => ObserveAliceLocked
  | KObserveSecretRevealed => ObserveSecretRevealed
  | KObserveCompleted => ObserveCompleted
  end.

Definition transition_cmd (k : TransitionKind) (n : Node) (v : Env) : Node * result cmd_error unit :=
  match load_swap n with
  | Err e => (n, Err e)
  | Ok w =>
      match apply w (to_protocol k) with
      | Err e => (n, Err (ApplyFailed e))
      | Ok w' => save_swap n v w'
      end
  end.

(** [broadcast]: an error means that the node refused the transaction, or that it
    took it and the answer was lost, late or malformed. *)
Definition broadcast (v : Env) : result cmd_error unit :=
  guard_or (v_accepted v && v_answer v) BroadcastFailed.

Definition log_sent (n : Node) (v : Env) (t : Transition) (tx : list Z) : Node :=
  if v_accepted v then mkNode (n_disk n) (n_sent n ++ [(t, tx)]) (n_raw n) else n.

(** The shape of the commands that broadcast: [checks] are the ones between the
    decoding of the transaction and the broadcast. *)
Definition orchestrate (role : Role) (states : list State) (t : Transition)
    (checks : Env -> result cmd_error unit) (n : Node) (v : Env)
  : Node * result cmd_error unit :=
  match
    (w ← load_swap n;
     _ ← guard_or (bool_decide (s_role w = role)) WrongRole;
     _ ← guard_or (bool_decide (s_state w ∈ states)) WrongState;
     tx ← ok_or BadTransaction (v_tx v);
     _ ← guard_or (negb (bool_decide (tx = []))) BadTransaction;
     _ ← checks v;
     Ok (w, tx))
  with
  | Err e => (n, Err e)
  | Ok (w, tx) =>
      let n := log_sent n v t tx in
      match broadcast v with
      | Err e => (n, Err e)
      | Ok _ =>
          match apply w t with
          | Err e => (n, Err (ApplyFailed e))
          | Ok w' => save_swap n v w'
          end
      end
  end.

(** The raw broadcast commands: no state is looked at. *)
Definition raw_broadcast (checks : Env -> result cmd_error unit) (n : Node) (v : Env)
  : Node * result cmd_error unit :=
  match
    (_ ← checks v;
     tx ← ok_or BadTransaction (v_tx v);
     _ ← guard_or (negb (bool_decide (tx = []))) BadTransaction;
     Ok tx)
  with
  | Err e => (n, Err e)
  | Ok tx =>
      (if v_accepted v then mkNode (n_disk n) (n_sent n) (n_raw n ++ [tx]) else n, broadcast v)
  end.

Definition btc_config (v : Env) : result cmd_error unit := guard_or (v_args v) BadArguments.
Definition no_checks (v : Env) : result cmd_error unit := Ok tt.
Definition claim_checks (v : Env) : result cmd_error unit :=
  _ ← guard_or (v_args v) BadArguments;
  guard_or (v_claim v) ClaimMismatch.

Definition lock_btc_orchestration_cmd := orchestrate Bob [AliceLocked] BobLocksBtc btc_config.
Definition claim_btc_orchestration_cmd := orchestrate Alice [BobLocked] AliceClaimsBtc claim_checks.
Definition lock_cync_orchestration_cmd := orchestrate Alice [Negotiated] AliceLocksCync no_checks.
Definition claim_cync_orchestration_cmd := orchestrate Bob [SecretRevealed] BobClaimsCync no_checks.
Definition refund_btc_orchestration_cmd := orchestrate Bob [BobLocked] BobRefunds btc_config.
Definition cync_broadcast_cmd := raw_broadcast no_checks.
Definition btc_broadcast_cmd := raw_broadcast btc_config.
Definition refund_cync_orchestration_cmd :=
  orchestrate Alice [AliceLocked; BobLocked] AliceRefunds no_checks.

Inductive Command :=
| CmdAlice (id : string) (cync btc : Z) (cync_addr btc_addr : string)
| CmdBob (swap_id : string) (cync btc : Z) (cync_addr btc_addr : string)
| CmdWalletInitAlice (id : string) (cync btc : Z) (cync_addr btc_addr : string)
| CmdWalletInitBob (invite : option Invite) (cync_addr btc_addr : string)
| CmdCancel
| CmdTransition (k : TransitionKind)
| CmdLockBtc | CmdClaimBtc | CmdLockCync | CmdClaimCync | CmdRefundBtc | CmdRefundCync
| CmdCyncBroadcast | CmdBtcBroadcast.

Definition run_command (c : Command) : Node -> Env -> Node * result cmd_error unit :=
  match c with
  | CmdAlice id cync btc ca ba => alice_cmd id cync btc ca ba
  | CmdBob id cync btc ca ba => bob_cmd id cync btc ca ba
  | CmdWalletInitAlice id cync btc ca ba => wallet_init_alice_cmd id cync btc ca ba
  | CmdWalletInitBob i ca ba => wallet_init_bob_cmd i ca ba
  | CmdCancel => cancel_cmd
  | CmdTransition k => transition_cmd k
  | CmdLockBtc => lock_btc_orchestration_cmd
  | CmdClaimBtc => claim_btc_orchestration_cmd
  | CmdLockCync => lock_cync_orchestration_cmd
  | CmdClaimCync => claim_cync_orchestration_cmd
  | CmdRefundBtc => refund_btc_orchestration_cmd
  | CmdRefundCync => refund_cync_orchestration_cmd
  | CmdCyncBroadcast => cync_broadcast_cmd
  | CmdBtcBroadcast => btc_broadcast_cmd
  end.

(** One process per command; the disk and what was sent remain. *)
Definition run_commands (n : Node) (l : list (Command * Env)) : Node :=
  foldl (fun n c => (run_command c.1 n c.2).1) n l.
End store.
