(* ===== verification/Handshake.v ===== *)
(** * The negotiation of a swap ([crates/coincync-swap/src/coordinator.rs])

    The session of one party, a state machine over wire messages, and the
    drivers that run it over a transport.  A transport is the list of what the
    next receives deliver ([None] is an I/O error or a malformed frame), the
    messages sent, and how many sends succeed. *)

From stdpp Require Import prelude strings.
From Stdlib Require Import ZArith Lia.
From S2P Require Import Prelude Swap.

Local Open Scope Z_scope.

Abbreviation bytes := (list Z).

(** ** Messages, phases, session *)

Inductive Message :=
| Hello (swap_id : string) (bob_btc_pubkey bob_cync_pubkey : bytes)
| HelloAck (alice_btc_pubkey alice_cync_pubkey : bytes) (parameters : SwapParameters)
| Accept
| AdaptorMaterial (btc_adaptor cync_adaptor dl_proof refund_tx : bytes)
| Ready
| MsgAbort (reason : string).

Inductive Phase :=
| PInitial | PAwaitingAck | PExchangingAdaptors | PAwaitingReady | PNegotiated | PAborted.

#[export] Instance phase_eq_dec : EqDecision Phase.
Proof. solve_decision. Defined.

Definition phase_is_terminal (p : Phase) : bool :=
  match p with PNegotiated | PAborted => true | _ => false end.

Record HandshakeSession := mkSession {
  h_role : Role;
  h_phase : Phase;
  h_swap_id : string;
  counterparty_btc_pubkey : option bytes;
  counterparty_cync_pubkey : option bytes;
  h_parameters : option SwapParameters;
  sent_adaptors : bool;
  received_adaptors : bool;
}.

(** [next_call] of [WaitForCaller]. *)
Inductive NextCall := RespondWithHelloAck | AcceptOrSendAbort | SendAdaptors.

#[export] Instance next_call_eq_dec : EqDecision NextCall.
Proof. solve_decision. Defined.

Inductive HandshakeAction :=
| ActSend (m : Message)
| WaitForCaller (next_call : NextCall)
| Done
| VerifyAdaptorMaterial (btc_adaptor cync_adaptor dl_proof refund_tx : bytes)
| ActAborted (reason : string).

Inductive HandshakeError :=
| OutOfOrder (phase : Phase)
| SwapIdMismatch (session_swap_id incoming_swap_id : string)
| TerminalPhase (phase : Phase)
| Duplicate.

Definition new_alice (swap_id : string) : HandshakeSession :=
  mkSession Alice PInitial swap_id None None None false false.
Definition new_bob (swap_id : string) : HandshakeSession :=
  mkSession Bob PInitial swap_id None None None false false.

Definition set_phase (s : HandshakeSession) (p : Phase) : HandshakeSession :=
  mkSession (h_role s) p (h_swap_id s) (counterparty_btc_pubkey s) (counterparty_cync_pubkey s)
    (h_parameters s) (sent_adaptors s) (received_adaptors s).
Definition set_peer (s : HandshakeSession) (btc cync : bytes) : HandshakeSession :=
  mkSession (h_role s) (h_phase s) (h_swap_id s) (Some btc) (Some cync) (h_parameters s)
    (sent_adaptors s) (received_adaptors s).
Definition set_params (s : HandshakeSession) (p : SwapParameters) : HandshakeSession :=
  mkSession (h_role s) (h_phase s) (h_swap_id s) (counterparty_btc_pubkey s)
    (counterparty_cync_pubkey s) (Some p) (sent_adaptors s) (received_adaptors s).
Definition set_flags (s : HandshakeSession) (sent received : bool) : HandshakeSession :=
  mkSession (h_role s) (h_phase s) (h_swap_id s) (counterparty_btc_pubkey s)
    (counterparty_cync_pubkey s) (h_parameters s) sent received.

Definition maybe_advance_to_awaiting_ready (s : HandshakeSession) : HandshakeSession :=
  if sent_adaptors s && received_adaptors s then set_phase s PAwaitingReady else s.

(** ** Operations of the session *)

Abbreviation outcome A := (HandshakeSession * result HandshakeError A)%type.

Definition start_bob (s : HandshakeSession) (btc cync : bytes) : outcome Message :=
  if negb (bool_decide (h_role s = Bob)) then (s, Err (OutOfOrder (h_phase s)))
  else if negb (bool_decide (h_phase s = PInitial)) then (s, Err (OutOfOrder (h_phase s)))
  else (set_phase s PAwaitingAck, Ok (Hello (h_swap_id s) btc cync)).

Definition send_adaptors (s : HandshakeSession) (btc cync dl refund : bytes) : outcome Message :=
  if negb (bool_decide (h_phase s = PExchangingAdaptors)) then (s, Err (OutOfOrder (h_phase s)))
  else if sent_adaptors s then (s, Err Duplicate)
  else
    (maybe_advance_to_awaiting_ready (set_flags s true (received_adaptors s)),
     Ok (AdaptorMaterial btc cync dl refund)).

Definition send_ready (s : HandshakeSession) : outcome Message :=
  if negb (bool_decide (h_phase s = PAwaitingReady)) then (s, Err (OutOfOrder (h_phase s)))
  else (s, Ok Ready).

Definition send_abort (s : HandshakeSession) (reason : string) : HandshakeSession * Message :=
  (set_phase s PAborted, MsgAbort reason).

Definition handle_inbound (s : HandshakeSession) (m : Message) : outcome HandshakeAction :=
  if phase_is_terminal (h_phase s) then (s, Err (TerminalPhase (h_phase s)))
  else
    match m, h_role s, h_phase s with
    | MsgAbort reason, _, _ => (set_phase s PAborted, Ok (ActAborted reason))
    | Hello swap_id btc cync, Alice, PInitial =>
        if bool_decide (swap_id = h_swap_id s) then
          (set_phase (set_peer s btc cync) PAwaitingAck, Ok (WaitForCaller RespondWithHelloAck))
        else (s, Err (SwapIdMismatch (h_swap_id s) swap_id))
    | HelloAck btc cync params, Bob, PAwaitingAck =>
        (set_phase (set_params (set_peer s btc cync) params) PAwaitingAck,
         Ok (WaitForCaller AcceptOrSendAbort))
    | Accept, Alice, PAwaitingAck =>
        (set_phase s PExchangingAdaptors, Ok (WaitForCaller SendAdaptors))
    | AdaptorMaterial btc cync dl refund, _, PExchangingAdaptors =>
        if received_adaptors s then (s, Err Duplicate)
        else
          (maybe_advance_to_awaiting_ready (set_flags s (sent_adaptors s) true),
           Ok (VerifyAdaptorMaterial btc cync dl refund))
    | Ready, _, PAwaitingReady => (set_phase s PNegotiated, Ok Done)
    | _, _, phase => (s, Err (OutOfOrder phase))
    end.

Definition respond_with_hello_ack (s : HandshakeSession) (btc cync : bytes)
    (params : SwapParameters) : outcome Message :=
  if negb (bool_decide (h_role s = Alice)) then (s, Err (OutOfOrder (h_phase s)))
  else if negb (bool_decide (h_phase s = PAwaitingAck)) then (s, Err (OutOfOrder (h_phase s)))
  else if negb (is_timeout_safe params) then (s, Err (OutOfOrder (h_phase s)))
  else (set_params s params, Ok (HelloAck btc cync params)).

Definition accept (s : HandshakeSession) : outcome Message :=
  if negb (bool_decide (h_role s = Bob)) then (s, Err (OutOfOrder (h_phase s)))
  else if negb (bool_decide (h_phase s = PAwaitingAck)) then (s, Err (OutOfOrder (h_phase s)))
  else
    match h_parameters s with
    | None => (s, Err (OutOfOrder (h_phase s)))
    | Some _ => (set_phase s PExchangingAdaptors, Ok Accept)
    end.

(** ** Drivers *)

Record Transport := mkTransport {
  t_in : list (option Message);
  t_out : list Message;
  t_sends : nat;
}.

Record Coordinator := mkCoordinator {
  co_transport : Transport;
  co_session : HandshakeSession;
}.

Record Pubkeys := mkPubkeys { pk_btc : bytes; pk_cync : bytes }.

Record AdaptorBundle := mkAdaptorBundle {
  ab_btc_adaptor : bytes;
  ab_cync_adaptor : bytes;
  ab_dl_proof : bytes;
  ab_refund_tx : bytes;
}.

Inductive coord_error :=
| Transport_error
| Handshake_error (e : HandshakeError)
| Counterparty_aborted (reason : string)
| Unexpected_action
| Verification_failed
| NoAttempts
| AcceptFailed
| AttemptsExhausted.

(** A step of a driver. *)
Definition Co (A : Type) : Type := Coordinator -> Coordinator * result coord_error A.

#[export] Instance co_ret : MRet Co := fun A a c => (c, Ok a).
#[export] Instance co_bind : MBind Co := fun A B k m c =>
  match m c with
  | (c, Ok a) => k a c
  | (c, Err e) => (c, Err e)
  end.

Definition co_fail {A} (e : coord_error) : Co A := fun c => (c, Err e).

Definition recv : Co Message := fun c =>
  match t_in (co_transport c) with
  | Some m :: l => (mkCoordinator (mkTransport l (t_out (co_transport c)) (t_sends (co_transport c)))
                      (co_session c), Ok m)
  | None :: l => (mkCoordinator (mkTransport l (t_out (co_transport c)) (t_sends (co_transport c)))
                    (co_session c), Err Transport_error)
  | [] => (c, Err Transport_error)
  end.

Definition send (m : Message) : Co unit := fun c =>
  match t_sends (co_transport c) with
  | S n => (mkCoordinator (mkTransport (t_in (co_transport c)) (t_out (co_transport c) ++ [m]) n)
              (co_session c), Ok tt)
  | O => (c, Err Transport_error)
  end.

(** Run an operation of the session. *)
Definition on_session {A} (f : HandshakeSession -> outcome A) : Co A := fun c =>
  let '(s, r) := f (co_session c) in
  (mkCoordinator (co_transport c) s,
   match r with Ok a => Ok a | Err e => Err (Handshake_error e) end).

Definition expect_wait_for (a : HandshakeAction) (expected : NextCall) : Co unit :=
  match a with
  | WaitForCaller next_call =>
      if bool_decide (next_call = expected) then mret tt else co_fail Unexpected_action
  | ActAborted reason => co_fail (Counterparty_aborted reason)
  | _ => co_fail Unexpected_action
  end.

Definition expect_done (a : HandshakeAction) : Co unit :=
  match a with
  | Done => mret tt
  | ActAborted reason => co_fail (Counterparty_aborted reason)
  | _ => co_fail Unexpected_action
  end.

Definition run_verifier (a : HandshakeAction) (verifier : AdaptorBundle -> bool) : Co unit :=
  match a with
  | VerifyAdaptorMaterial btc cync dl refund =>
      if verifier (mkAdaptorBundle btc cync dl refund) then mret tt else co_fail Verification_failed
  | ActAborted reason => co_fail (Counterparty_aborted reason)
  | _ => co_fail Unexpected_action
  end.

(** Steps 4 to 7 of each driver: exchange and verify the adaptor material, then
    exchange [Ready]. *)
Definition exchange (adaptors : AdaptorBundle) (verifier : AdaptorBundle -> bool) : Co unit :=
  adapt ← on_session (fun s => send_adaptors s (ab_btc_adaptor adaptors)
            (ab_cync_adaptor adaptors) (ab_dl_proof adaptors) (ab_refund_tx adaptors));
  _ ← send adapt;
  theirs ← recv;
  action ← on_session (fun s => handle_inbound s theirs);
  _ ← run_verifier action verifier;
  ready ← on_session send_ready;
  _ ← send ready;
  their_ready ← recv;
  action ← on_session (fun s => handle_inbound s their_ready);
  expect_done action.

Definition run_alice_post_hello (keys : Pubkeys) (params : SwapParameters)
    (adaptors : AdaptorBundle) (verifier : AdaptorBundle -> bool) : Co unit :=
  ack ← on_session (fun s => respond_with_hello_ack s (pk_btc keys) (pk_cync keys) params);
  _ ← send ack;
  acc ← recv;
  action ← on_session (fun s => handle_inbound s acc);
  _ ← expect_wait_for action SendAdaptors;
  exchange adaptors verifier.

Definition run_alice (keys : Pubkeys) (params : SwapParameters) (adaptors : AdaptorBundle)
    (verifier : AdaptorBundle -> bool) : Co unit :=
  hello ← recv;
  action ← on_session (fun s => handle_inbound s hello);
  _ ← expect_wait_for action RespondWithHelloAck;
  run_alice_post_hello keys params adaptors verifier.

Definition run_bob (keys : Pubkeys) (adaptors : AdaptorBundle)
    (verifier : AdaptorBundle -> bool) : Co unit :=
  hello ← on_session (fun s => start_bob s (pk_btc keys) (pk_cync keys));
  _ ← send hello;
  ack ← recv;
  action ← on_session (fun s => handle_inbound s ack);
  _ ← expect_wait_for action AcceptOrSendAbort;
  acc ← on_session accept;
  _ ← send acc;
  exchange adaptors verifier.

(** ** The accept loop *)

(** [validate_hello_plain], on the connection of one peer. *)
Definition validate_hello_plain (t : Transport) (swap_id : string)
  : option (Transport * HandshakeSession) :=
  match recv (mkCoordinator t (new_alice swap_id)) with
  | (c, Ok hello) =>
      match handle_inbound (co_session c) hello with
      | (s, Ok (WaitForCaller RespondWithHelloAck)) => Some (co_transport c, s)
      | _ => None
      end
  | (_, Err _) => None
  end.

(** The peers in the order they connect; [None] is a failing accept. *)
Fixpoint listen_loop (swap_id : string) (peers : list (option Transport)) (attempts : nat)
  : result coord_error Coordinator :=
  match attempts, peers with
  | O, _ => Err AttemptsExhausted
  | S _, [] | S _, None :: _ => Err AcceptFailed
  | S n, Some t :: peers =>
      match validate_hello_plain t swap_id with
      | Some (t, s) => Ok (mkCoordinator t s)
      | None => listen_loop swap_id peers n
      end
  end.

Definition listen_filtered (swap_id : string) (peers : list (option Transport))
    (max_attempts : nat) : result coord_error Coordinator :=
  if (max_attempts =? 0)%nat then Err NoAttempts else listen_loop swap_id peers max_attempts.
