(* ===== verification/SwapSafety.v ===== *)
(** * Theorems on atomic swaps

    The state machine, the state file and the commands of the command line:
    what they may send to the two chains in which order, what survives a
    restart; and the negotiation: completion between honest parties, what a
    party knows when it ends. *)

From stdpp Require Import prelude strings.
From Stdlib Require Import ZArith Lia.
From S2P Require Import Prelude Swap Handshake.

Local Open Scope Z_scope.

(** ** The state machine *)

(** Steps left at most. *)
Definition rank (s : State) : nat :=
  match s with
  | Negotiated => 4 | AliceLocked => 3 | BobLocked => 2 | SecretRevealed => 1
  | Completed | Refunded | Aborted => 0
  end.

Fixpoint apply_all (w : Swap) (ts : list Transition) : result swap_error Swap :=
  match ts with
  | [] => Ok w
  | t :: ts => w' ← apply w t; apply_all w' ts
  end.

Lemma apply_inv w t w' :
  apply w t = Ok w' ->
  is_terminal (s_state w) = false /\ next_state t (s_role w) (s_state w) = Some (s_state w')
  /\ s_role w' = s_role w /\ s_id w' = s_id w /\ s_parameters w' = s_parameters w.
Proof.
  unfold apply. destruct (is_terminal (s_state w)); [done|].
  destruct (next_state _ _ _); [|done]. by intros [= <-].
Qed.

Lemma next_rank t r s s' :
  is_terminal s = false -> next_state t r s = Some s' -> (rank s' < rank s)%nat.
Proof. destruct t, r, s; cbn; intros; simplify_eq; cbn; lia. Qed.

(** A swap ends: at most four transitions apply one after the other, none of
    them to a terminal state; and once the secret is out, no sequence of
    transitions refunds. *)
Theorem swap_terminates w ts w' :
  apply_all w ts = Ok w' ->
  (length ts + rank (s_state w') <= rank (s_state w))%nat /\ (rank (s_state w) <= 4)%nat
  /\ (s_state w = SecretRevealed -> s_state w' <> Refunded).
Proof.
  revert w. induction ts as [|t ts IH]; intros w; cbn [apply_all].
  { intros [= ->]. split_and!; [done|by destruct (s_state w'); cbn; lia|congruence]. }
  intros (w1&Ha&Hr)%bind_ok. apply apply_inv in Ha as (Ht&Hn&Hrole&_).
  destruct (IH w1 Hr) as (H1&_&H3). pose proof (next_rank _ _ _ _ Ht Hn) as Hlt. split_and!.
  - cbn. lia.
  - destruct (s_state w); cbn; lia.
  - intros Hs Href. rewrite Hs in *. assert (rank (s_state w1) = 0%nat) by (cbn in Hlt; lia).
    destruct ts as [|t' ts].
    + injection Hr as ->. rewrite Href in Hn. by destruct t, (s_role w).
    + cbn in H1. lia.
Qed.

(** The transitions the command line shows are the ones [apply] takes, but for
    the observation of a completed swap. *)
Theorem legal_transitions_exact w t :
  t ∈ legal_transitions w <->
  is_ok (apply w t) = true
  /\ ~ (s_role w = Bob /\ s_state w = SecretRevealed /\ t = ObserveCompleted).
Proof.
  destruct w as [id r s p]. unfold legal_transitions, apply. cbn.
  split.
  - intros H. assert (Hd : bool_decide (t ∈ legal_transitions (mkSwap id r s p)) = true)
      by by apply bool_decide_eq_true.
    destruct r, s, t; vm_compute in Hd; try discriminate; split; try done; by intros (?&?&?).
  - intros [Hk Hn]. apply (bool_decide_eq_true_1 (t ∈ legal_transitions (mkSwap id r s p))).
    destruct r, s, t; vm_compute in Hk |- *; try done. exfalso. by apply Hn.
Qed.

(** ** Timeouts *)

(** The check of the two timeouts says that the CYNC side has more than six
    times the blocks of the BTC side.  As each clock starts with its own lock,
    this orders the refunds only if Bob locks within a fifth of his own
    timeout after Alice: then his refund opens before hers. *)
Theorem timeout_safe_exact p :
  is_u32 (cync_timeout_blocks p) -> is_u32 (btc_timeout_blocks p) ->
  (is_timeout_safe p = true <-> 6 * btc_timeout_blocks p < cync_timeout_blocks p)
  /\ (is_timeout_safe p = true -> forall alice_lock bob_lock,
      5 * (bob_lock - alice_lock) <= btc_timeout_secs p ->
      bob_lock + btc_timeout_secs p < alice_lock + cync_timeout_secs p).
Proof.
  intros Hc Hb.
  assert (Hcs : cync_timeout_secs p = 120 * cync_timeout_blocks p).
  { unfold cync_timeout_secs, CYNC_BLOCK_TIME_SECS. word_lia. }
  assert (Hbs : btc_timeout_secs p = 600 * btc_timeout_blocks p).
  { unfold btc_timeout_secs, BTC_BLOCK_TIME_SECS. word_lia. }
  assert (Hs : is_timeout_safe p = true <-> 6 * btc_timeout_blocks p < cync_timeout_blocks p).
  { unfold is_timeout_safe. rewrite Hcs, Hbs. unfold SAFETY_MARGIN_NUMERATOR, SAFETY_MARGIN_DENOMINATOR.
    replace (sat_mul u64_max (600 * btc_timeout_blocks p) 6) with (720 * btc_timeout_blocks p * 5)
      by word_lia. rewrite Z.ltb_lt, Z.div_mul by lia. lia. }
  split; [done|]. intros Ht%Hs a b Hd. rewrite Hbs in Hd. rewrite Hcs, Hbs. lia.
Qed.

(** ** The state file *)

Section store.
Context (hmac : list Z -> StateFileBody -> string).

Lemma read_fresh k : length k = HMAC_KEY_LEN -> read_hmac_key k = Ok k.
Proof. intros Hk. unfold read_hmac_key. by rewrite Hk, Nat.leb_refl, take_ge by lia. Qed.

Lemma save_load d now fresh kio io w d' :
  length fresh = HMAC_KEY_LEN -> save hmac d now fresh kio io w = (d', Ok tt) ->
  load hmac d' = Ok (Some w).
Proof.
  intros Hf. unfold save, read_or_create_hmac_key. destruct (d_key d) as [k|] eqn:Hk.
  - destruct (read_hmac_key k) as [key|] eqn:Hr; [|done]. destruct io; [|done].
    intros [= <-]. unfold load. cbn. rewrite Hk, Hr. cbn. by rewrite bool_decide_eq_true_2.
  - destruct kio; [|done]. destruct io; [|done]. intros [= <-]. unfold load. cbn.
    rewrite (read_fresh fresh Hf). cbn. by rewrite bool_decide_eq_true_2.
Qed.

(** A saved swap is what the next process loads; a failed save leaves the
    file as it was, with a new key only where there was none; and whatever the
    file holds, a swap is loaded only if its body carries the keyed hash under
    the key next to it. *)
Theorem swap_file_roundtrip d now fresh kio io w :
  length fresh = HMAC_KEY_LEN ->
  let '(d', r) := save hmac d now fresh kio io w in
  match r with
  | Ok _ => load hmac d' = Ok (Some w)
  | Err _ => d_file d' = d_file d /\ (d_key d' = d_key d \/ d_key d = None)
  end
  /\ forall d0 w0, load hmac d0 = Ok (Some w0) ->
     exists f e k, d_file d0 = Some f /\ f_envelope f = Some e /\ b_swap (env_body e) = w0
       /\ d_key d0 = Some k /\ env_hmac e = hmac (take HMAC_KEY_LEN k) (env_body e).
Proof.
  intros Hf. destruct (save hmac d now fresh kio io w) as [d' r] eqn:Hs. split.
  - destruct r as [[]|e]; [by eapply save_load|]. revert Hs.
    unfold save, read_or_create_hmac_key. destruct (d_key d) as [k|] eqn:Hk.
    + destruct (read_hmac_key k); destruct io; intros [= <- _]; by auto.
    + destruct kio, io; intros [= <- _]; by auto.
  - intros d0 w0. unfold load. destruct (d_file d0) as [f|]; [|done].
    destruct (f_version f) as [v|]; [|done]. destruct (negb (v =? STATE_VERSION)); [done|].
    destruct (f_envelope f) as [e|] eqn:He; [|done]. destruct (d_key d0) as [k|]; [|done].
    unfold read_hmac_key. destruct (HMAC_KEY_LEN <=? length k)%nat; [|done]. cbn.
    case_bool_decide as Hh; [|done]. intros [= <-]. exists f, e, k. split_and!; done.
Qed.
End store.

(** ** The command line *)

Section commands.
Context (hmac : list Z -> StateFileBody -> string).
Implicit Types (n : Node) (v : Env) (w : Swap).

(** The disk can be written and the random key has its length. *)
Definition good_env v : Prop :=
  v_io v = true /\ v_key_io v = true /\ length (v_fresh v) = HMAC_KEY_LEN.

(** The key file is absent or long enough. *)
Definition key_ok n : Prop :=
  forall k, d_key (n_disk n) = Some k -> (HMAC_KEY_LEN <= length k)%nat.

Lemma load_key_ok n w : load_swap hmac n = Ok w -> key_ok n.
Proof.
  unfold load_swap, load, key_ok. destruct (d_file _) as [f|]; [|done].
  destruct (f_version f) as [x|]; [|done]. destruct (negb _); [done|].
  destruct (f_envelope f); [|done]. destruct (d_key _) as [k|]; [|done].
  unfold read_hmac_key. destruct (Nat.leb_spec HMAC_KEY_LEN (length k)); [|done].
  by intros _ k' [= <-].
Qed.

Lemma load_file n w : load_swap hmac n = Ok w -> is_Some (d_file (n_disk n)).
Proof. unfold load_swap, load. destruct (d_file _) as [f|]; [|done]. by exists f. Qed.

Lemma save_swap_good n v w :
  good_env v -> key_ok n ->
  exists n', save_swap hmac n v w = (n', Ok tt) /\ load_swap hmac n' = Ok w
    /\ n_sent n' = n_sent n.
Proof.
  intros (Hio&Hk&Hf) Hkey. unfold save_swap.
  destruct (save hmac (n_disk n) (v_now v) (v_fresh v) (v_key_io v) (v_io v) w) as [d r] eqn:Hs.
  assert (r = Ok tt) as ->.
  { revert Hs. unfold save, read_or_create_hmac_key, key_ok in *. rewrite Hio, Hk.
    destruct (d_key (n_disk n)) as [k|]; [|by intros [= _ <-]]. unfold read_hmac_key.
    rewrite (proj2 (Nat.leb_le _ _) (Hkey k eq_refl)). by intros [= _ <-]. }
  eexists. split_and!; [done| |done]. unfold load_swap. cbn.
  by rewrite (save_load hmac _ _ _ _ _ _ _ Hf Hs).
Qed.

(** A command that broadcasts stops before the broadcast, or it had the role and
    the state. *)
Lemma orchestrate_cases role states t checks n v :
  (exists e, orchestrate hmac role states t checks n v = (n, Err e))
  \/ exists w tx, load_swap hmac n = Ok w /\ s_role w = role /\ s_state w ∈ states
     /\ orchestrate hmac role states t checks n v
        = match broadcast v with
          | Err e => (log_sent n v t tx, Err e)
          | Ok _ => match apply w t with
                    | Err e => (log_sent n v t tx, Err (ApplyFailed e))
                    | Ok w' => save_swap hmac (log_sent n v t tx) v w'
                    end
          end.
Proof.
  unfold orchestrate. destruct (mbind _ _) as [[w tx]|e] eqn:Hm; [|left; by exists e].
  right. exists w, tx. apply bind_ok in Hm as (w0&Hl&Hm). apply bind_ok in Hm as ([]&H1&Hm).
  apply bind_ok in Hm as ([]&H2&Hm). apply bind_ok in Hm as (tx0&_&Hm).
  repeat (apply bind_ok in Hm as ([]&_&Hm)). injection Hm as -> ->.
  apply guard_or_ok, bool_decide_eq_true in H1, H2. done.
Qed.

(** No answer of a node is lost: an error means that nothing was sent. *)
Definition answered v : Prop := v_accepted v = true -> v_answer v = true.

Lemma broadcast_answered v :
  answered v ->
  broadcast v = Ok tt /\ (forall n t tx, log_sent n v t tx = mkNode (n_disk n) (n_sent n ++ [(t, tx)]) (n_raw n))
  \/ broadcast v = Err BroadcastFailed /\ (forall n t tx, log_sent n v t tx = n).
Proof.
  unfold answered, broadcast, log_sent. destruct (v_accepted v); intros Ha; [left|by right].
  by rewrite Ha.
Qed.

(** What the two chains may have seen of one party. *)
Definition swap_logs : list (list Transition) :=
  [[]; [AliceLocksCync]; [AliceLocksCync; AliceClaimsBtc]; [AliceLocksCync; AliceRefunds];
   [BobLocksBtc]; [BobLocksBtc; BobClaimsCync]; [BobLocksBtc; BobRefunds]].

Definition log_ok (r : Role) (s : State) (log : list Transition) : Prop :=
  match r, s with
  | Alice, Negotiated => log = []
  | Alice, (AliceLocked | BobLocked) => log = [AliceLocksCync]
  | Alice, SecretRevealed => log = [AliceLocksCync; AliceClaimsBtc]
  | Bob, (Negotiated | AliceLocked) => log = []
  | Bob, (BobLocked | SecretRevealed) => log = [BobLocksBtc]
  | _, _ => log ∈ swap_logs
  end.

Lemma log_ok_possible r s log : log_ok r s log -> log ∈ swap_logs.
Proof. destruct r, s; cbn; intros ->||intros H; try done; unfold swap_logs; set_solver. Qed.

(** The command that broadcasts for a transition. *)
Definition sends (t : Transition) : bool :=
  match t with
  | AliceLocksCync | BobLocksBtc | AliceClaimsBtc | BobClaimsCync | AliceRefunds | BobRefunds => true
  | _ => false
  end.

Lemma log_ok_step t r s s' log :
  is_terminal s = false -> next_state t r s = Some s' -> log_ok r s log ->
  log_ok r s' (if sends t then log ++ [t] else log).
Proof.
  intros Ht Hn Hl. destruct t, r, s; cbn in Ht, Hn, Hl; simplify_eq; cbn;
    try done; unfold swap_logs; set_solver.
Qed.

Definition cli_inv n : Prop :=
  d_file (n_disk n) = None /\ n_sent n = [] /\ key_ok n
  \/ exists w, load_swap hmac n = Ok w /\ log_ok (s_role w) (s_state w) (n_sent n).*1.

Lemma applied_inv n v w t w' extra :
  good_env v -> load_swap hmac n = Ok w -> log_ok (s_role w) (s_state w) (n_sent n).*1 ->
  apply w t = Ok w' -> extra.*1 = (if sends t then [t] else []) ->
  cli_inv (save_swap hmac (mkNode (n_disk n) (n_sent n ++ extra) (n_raw n)) v w').1.
Proof.
  intros Hv Hl Hlog Ha He. pose proof (load_key_ok n w Hl) as Hk.
  destruct (save_swap_good (mkNode (n_disk n) (n_sent n ++ extra) (n_raw n)) v w' Hv Hk)
    as (n'&->&Hl'&Hs). right. exists w'. split; [done|]. cbn [fst]. rewrite Hs. cbn [n_sent].
  apply apply_inv in Ha as (Ht&Hn&Hr&_). rewrite Hr, fmap_app, He.
  replace ((n_sent n).*1 ++ (if sends t then [t] else []))
    with (if sends t then (n_sent n).*1 ++ [t] else (n_sent n).*1)
    by (destruct (sends t); [done|by rewrite app_nil_r]).
  by eapply log_ok_step.
Qed.

Lemma node_eta n : mkNode (n_disk n) (n_sent n ++ []) (n_raw n) = n.
Proof. destruct n. by rewrite app_nil_r. Qed.

Lemma orchestrate_inv role states t checks n v :
  good_env v -> answered v -> cli_inv n -> sends t = true ->
  (forall s, s ∈ states -> is_terminal s = false /\ is_Some (next_state t role s)) ->
  cli_inv (orchestrate hmac role states t checks n v).1.
Proof.
  intros Hv Hans Hi Ht Hst.
  destruct (orchestrate_cases role states t checks n v) as [[e ->]|(w&tx&Hl&<-&Hs&->)]; [done|].
  destruct (broadcast_answered v Hans) as [[-> El]|[-> El]]; rewrite El; [|done].
  destruct Hi as [(Hf&_)|(w0&Hl0&Hlog)]; [by apply load_file in Hl as [? Hx]; congruence|].
  assert (w0 = w) as -> by congruence. destruct (Hst _ Hs) as [Hterm [s' Hn]].
  destruct (apply w t) as [w'|e] eqn:Ha.
  - eapply applied_inv; [done|done|done|exact Ha|]. by rewrite Ht.
  - unfold apply in Ha. by rewrite Hterm, Hn in Ha.
Qed.

Lemma init_inv role id a b ca ba n v :
  good_env v -> cli_inv n -> cli_inv (init_cmd hmac role id a b ca ba n v).1.
Proof.
  intros Hv Hi. unfold init_cmd. destruct (a =? 0); [done|]. destruct (b =? 0); [done|].
  case_bool_decide as Hf; [done|]. destruct Hi as [(_&Hs&Hk)|(w&Hl&_)]; cycle 1.
  { by apply load_file in Hl. }
  destruct (negotiate _ _ _) as [w|e] eqn:Hn.
  - destruct (save_swap_good n v w Hv Hk) as (n'&->&Hl'&Hs'). right. exists w. split; [done|].
    cbn [fst]. rewrite Hs', Hs. unfold negotiate in Hn. destruct (negb _); [done|].
    injection Hn as <-. by destruct role.
  - left. split_and!; [|done|done]. cbn. destruct (d_file (n_disk n)); [|done]. by destruct Hf.
Qed.

(** The raw broadcasts leave the swap alone. *)
Lemma raw_inv checks n v : cli_inv n -> cli_inv (raw_broadcast checks n v).1.
Proof.
  intros Hi. unfold raw_broadcast. destruct (mbind _ _) as [tx|e]; [|done]. cbn [fst].
  by destruct (v_accepted v).
Qed.

Lemma command_inv c n v :
  good_env v -> answered v -> cli_inv n -> cli_inv (run_command hmac c n v).1.
Proof.
  intros Hv Hans Hi.
  destruct c as [id a b ca ba|id a b ca ba|id a b ca ba|i ca ba| |k| | | | | | | |]; cbn [run_command].
  - by apply init_inv.
  - by apply init_inv.
  - by apply init_inv.
  - unfold wallet_init_bob_cmd. destruct (mbind _ _) as [[[id a] b]|e]; [by apply init_inv|done].
  - unfold cancel_cmd. destruct (load_swap hmac n) as [w|e] eqn:Hl; [|done].
    destruct (is_terminal (s_state w)); [done|]. destruct (apply w AbortSwap) as [w'|e] eqn:Ha; [|done].
    destruct Hi as [(Hf&_)|(w0&Hl0&Hlog)]; [by apply load_file in Hl as [? Hx]; congruence|].
    assert (w0 = w) as -> by congruence. rewrite <- (node_eta n). by eapply applied_inv.
  - unfold transition_cmd. destruct (load_swap hmac n) as [w|e] eqn:Hl; [|done].
    destruct (apply w (to_protocol k)) as [w'|e] eqn:Ha; [|done].
    destruct Hi as [(Hf&_)|(w0&Hl0&Hlog)]; [by apply load_file in Hl as [? Hx]; congruence|].
    assert (w0 = w) as -> by congruence. rewrite <- (node_eta n).
    eapply applied_inv; [done|done|done|exact Ha|]. by destruct k.
  - apply orchestrate_inv; [done..|]. intros s Hs. apply list_elem_of_singleton in Hs as ->. eauto.
  - apply orchestrate_inv; [done..|]. intros s Hs. apply list_elem_of_singleton in Hs as ->. eauto.
  - apply orchestrate_inv; [done..|]. intros s Hs. apply list_elem_of_singleton in Hs as ->. eauto.
  - apply orchestrate_inv; [done..|]. intros s Hs. apply list_elem_of_singleton in Hs as ->. eauto.
  - apply orchestrate_inv; [done..|]. intros s Hs. apply list_elem_of_singleton in Hs as ->. eauto.
  - apply orchestrate_inv; [done..|].
    intros s [->|Hs]%elem_of_cons; [eauto|]. apply list_elem_of_singleton in Hs as ->. eauto.
  - by apply raw_inv.
  - by apply raw_inv.
Qed.

(** The commands that send a transaction without looking at the swap. *)
Definition raw (c : Command) : bool :=
  match c with CmdCyncBroadcast | CmdBtcBroadcast => true | _ => false end.

(** A swap that is over stays as it is, whatever command is run on it. *)
Lemma terminal_stuck c n v w :
  load_swap hmac n = Ok w -> is_terminal (s_state w) = true -> raw c = false ->
  exists e, run_command hmac c n v = (n, Err e).
Proof.
  intros Hl Ht Hraw.
  assert (Ho : forall role states t checks, (forall s, s ∈ states -> is_terminal s = false) ->
    exists e, orchestrate hmac role states t checks n v = (n, Err e)).
  { intros role states t checks Hst.
    destruct (orchestrate_cases role states t checks n v) as [H|(w0&tx&Hl0&_&Hs&_)]; [done|].
    assert (w0 = w) as -> by congruence. apply Hst in Hs. congruence. }
  assert (Hin : forall role id a b ca ba, exists e,
    init_cmd hmac role id a b ca ba n v = (n, Err e)).
  { intros role id a b ca ba. unfold init_cmd. destruct (a =? 0); [by eexists|].
    destruct (b =? 0); [by eexists|].
    rewrite bool_decide_eq_true_2 by by eapply load_file. by eexists. }
  destruct c as [id a b ca ba|id a b ca ba|id a b ca ba|i ca ba| |k| | | | | | | |]; cbn [run_command].
  - apply Hin.
  - apply Hin.
  - apply Hin.
  - unfold wallet_init_bob_cmd. destruct (mbind _ _) as [[[id a] b]|e]; [apply Hin|by eexists].
  - unfold cancel_cmd. rewrite Hl, Ht. by eexists.
  - unfold transition_cmd, apply. rewrite Hl, Ht. by eexists.
  - apply Ho. by intros s ->%list_elem_of_singleton.
  - apply Ho. by intros s ->%list_elem_of_singleton.
  - apply Ho. by intros s ->%list_elem_of_singleton.
  - apply Ho. by intros s ->%list_elem_of_singleton.
  - apply Ho. by intros s ->%list_elem_of_singleton.
  - apply Ho. intros s [->|Hs]%elem_of_cons; [done|]. by apply list_elem_of_singleton in Hs as ->.
  - done.
  - done.
Qed.

Definition fresh_node : Node := mkNode (mkDisk None None) [] [].

(** C10: As long as the state file can be written and no answer of a node is lost (a
    broadcast that fails was not taken), the orchestration commands of one party, in
    any order, interleaved with every other command and with any answers of the
    chains, send at most one lock and after it at most one of claim and refund:
    never both, never twice.  What the raw broadcast commands send is not counted;
    and when an answer is lost both can be sent ([lost_answer_sends_both]). *)
Theorem one_way_out cmds :
  Forall (fun c => good_env c.2 /\ answered c.2) cmds ->
  (n_sent (run_commands hmac fresh_node cmds)).*1 ∈ swap_logs.
Proof.
  intros Hg. assert (Hi : cli_inv (run_commands hmac fresh_node cmds)).
  { assert (H0 : cli_inv fresh_node) by by left. revert H0. unfold run_commands.
    generalize fresh_node. induction Hg as [|c l [Hc Ha] _ IH]; intros n Hn; [done|].
    cbn. apply IH. by apply command_inv. }
  destruct Hi as [(_&->&_)|(w&_&Hlog)]; [by apply elem_of_cons; left|].
  by eapply log_ok_possible.
Qed.

(** A lost answer opens both exits: Alice's claim is taken by the Bitcoin node but
    the answer does not arrive; her state file still says that Bob has locked, and
    the refund command sends the refund of her own coins. *)
Theorem lost_answer_sends_both n v1 v2 w tx1 tx2 :
  load_swap hmac n = Ok w -> s_role w = Alice -> s_state w = BobLocked ->
  v_tx v1 = Some tx1 -> tx1 <> [] -> v_args v1 = true -> v_claim v1 = true ->
  v_accepted v1 = true -> v_answer v1 = false ->
  v_tx v2 = Some tx2 -> tx2 <> [] -> v_accepted v2 = true ->
  n_sent (run_commands hmac n [(CmdClaimBtc, v1); (CmdRefundCync, v2)])
  = n_sent n ++ [(AliceClaimsBtc, tx1); (AliceRefunds, tx2)].
Proof.
  intros Hl Hr Hst Ht1 Hn1 Ha1 Hc1 Hacc1 Hans1 Ht2 Hn2 Hacc2. unfold run_commands. cbn [foldl fst snd].
  assert (E1 : run_command hmac CmdClaimBtc n v1
    = (mkNode (n_disk n) (n_sent n ++ [(AliceClaimsBtc, tx1)]) (n_raw n), Err BroadcastFailed)).
  { cbn [run_command]. unfold claim_btc_orchestration_cmd, orchestrate, claim_checks, broadcast,
      log_sent. rewrite Hl. cbn. rewrite Hr, Hst, Ht1. cbn. rewrite Ha1, Hc1, Hacc1, Hans1.
    by rewrite bool_decide_false. }
  rewrite E1. cbn [fst]. set (m := mkNode _ _ _).
  assert (Hl2 : load_swap hmac m = Ok w) by exact Hl.
  cbn [run_command]. unfold refund_cync_orchestration_cmd, orchestrate, log_sent. rewrite Hl2. cbn.
  rewrite Hr, Hst, Ht2. cbn. rewrite Hacc2. rewrite bool_decide_false by done.
  change (bool_decide (Alice = Alice)) with true.
  change (bool_decide (BobLocked ∈ [AliceLocked; BobLocked])) with true. cbn.
  assert (Hs : forall m' w', n_sent (save_swap hmac m' v2 w').1 = n_sent m').
  { intros m' w'. unfold save_swap. by destruct (save _ _ _ _ _ _ _). }
  destruct (broadcast v2); cbn; [|by rewrite <- app_assoc].
  destruct (apply w AliceRefunds); cbn; rewrite ?Hs; cbn; by rewrite <- app_assoc.
Qed.

(** After a cancelled swap every command that works on it fails, the refunds
    included, and nothing more is sent for it: a lock that was on a chain when the
    swap was cancelled is not refunded by the command line, which announces that it
    will be. *)
Theorem cancel_strands_lock n v n' cmds c v' :
  good_env v -> cancel_cmd hmac n v = (n', Ok tt) ->
  Forall (fun x => raw x.1 = false) cmds -> raw c = false ->
  run_commands hmac n' cmds = n' /\ is_ok (run_command hmac c n' v').2 = false.
Proof.
  intros Hv. unfold cancel_cmd. destruct (load_swap hmac n) as [w|e] eqn:Hl; [|done].
  destruct (is_terminal (s_state w)); [done|].
  destruct (apply w AbortSwap) as [w'|e] eqn:Ha; [|done]. intros Hs Hraws Hraw.
  destruct (save_swap_good n v w' Hv (load_key_ok n w Hl)) as (n1&Hs1&Hl1&_).
  rewrite Hs1 in Hs. injection Hs as ->.
  assert (Ht : is_terminal (s_state w') = true).
  { apply apply_inv in Ha as (_&Hn&_). cbn in Hn. by injection Hn as <-. }
  split.
  - unfold run_commands. induction Hraws as [|x l Hx _ IH]; [done|]. cbn.
    destruct (terminal_stuck x.1 n' x.2 w' Hl1 Ht Hx) as [e ->]. apply IH.
  - by destruct (terminal_stuck c n' v' w' Hl1 Ht Hraw) as [e ->].
Qed.
End commands.

(** ** The negotiation *)

Lemma co_bind_ok {A B} (m : Co A) (k : A -> Co B) c c' b :
  (m ≫= k) c = (c', Ok b) <-> exists c1 a, m c = (c1, Ok a) /\ k a c1 = (c', Ok b).
Proof.
  unfold mbind, co_bind. destruct (m c) as [c1 [a|e]]; split.
  - intros H. by exists c1, a.
  - by intros (?&?&[= <- <-]&?).
  - done.
  - by intros (?&?&?&_).
Qed.

Lemma recv_ok c c' m :
  recv c = (c', Ok m) ->
  t_in (co_transport c) = Some m :: t_in (co_transport c')
  /\ t_out (co_transport c') = t_out (co_transport c) /\ co_session c' = co_session c.
Proof. unfold recv. destruct (t_in _) as [|[?|] ?] eqn:E; try done. by intros [= <- <-]. Qed.

Lemma send_ok m c c' :
  send m c = (c', Ok tt) ->
  t_in (co_transport c') = t_in (co_transport c)
  /\ t_out (co_transport c') = t_out (co_transport c) ++ [m] /\ co_session c' = co_session c.
Proof. unfold send. destruct (t_sends _); try done. by intros [= <-]. Qed.

Lemma on_session_ok {A} (f : HandshakeSession -> outcome A) c c' a :
  on_session f c = (c', Ok a) ->
  co_transport c' = co_transport c /\ f (co_session c) = (co_session c', Ok a).
Proof.
  unfold on_session. destruct (f (co_session c)) as [s [x|e]]; [|done]. by intros [= <- <-].
Qed.

(** Take the coordinators apart. *)
Ltac co_open :=
  repeat match goal with c : Coordinator |- _ => destruct c end; cbn in *; subst; cbn in *.

(** Peel the next step off a driver that succeeded. *)
Ltac co_step H :=
  let c := fresh "c" in let a := fresh "a" in let E := fresh "E" in
  apply co_bind_ok in H as (c&a&E&H);
  first [apply recv_ok in E as (?&?&?) | destruct a; apply send_ok in E as (?&?&?)
        | apply on_session_ok in E as (?&?)].

Lemma wait_ok a e c c' :
  expect_wait_for a e c = (c', Ok tt) -> c' = c /\ a = WaitForCaller e.
Proof.
  unfold expect_wait_for, co_fail. destruct a; try done. case_bool_decide; [|done].
  intros [= <-]. by subst.
Qed.

Lemma done_ok a c c' : expect_done a c = (c', Ok tt) -> c' = c /\ a = Done.
Proof. unfold expect_done, co_fail. destruct a; try done. by intros [= <-]. Qed.

Lemma verifier_ok a v c c' :
  run_verifier a v c = (c', Ok tt) ->
  c' = c /\ exists x y z r, a = VerifyAdaptorMaterial x y z r
    /\ v (mkAdaptorBundle x y z r) = true.
Proof.
  unfold run_verifier, co_fail. destruct a; try done. destruct (v _) eqn:Hv; [|done].
  intros [= <-]. split; [done|]. by repeat eexists.
Qed.

Lemma inbound_wait s m s' e :
  handle_inbound s m = (s', Ok (WaitForCaller e)) ->
  match e with
  | RespondWithHelloAck => exists btc cync, m = Hello (h_swap_id s) btc cync
      /\ h_role s = Alice /\ h_phase s = PInitial
      /\ s' = set_phase (set_peer s btc cync) PAwaitingAck
  | AcceptOrSendAbort => exists btc cync params, m = HelloAck btc cync params
      /\ h_role s = Bob /\ h_phase s = PAwaitingAck
      /\ s' = set_phase (set_params (set_peer s btc cync) params) PAwaitingAck
  | SendAdaptors => m = Accept /\ h_role s = Alice /\ h_phase s = PAwaitingAck
      /\ s' = set_phase s PExchangingAdaptors
  end.
Proof.
  unfold handle_inbound. destruct (phase_is_terminal (h_phase s)); [done|].
  destruct m, (h_role s) eqn:Hr, (h_phase s) eqn:Hp; try done;
    try (case_bool_decide; [|done]); try (destruct (received_adaptors s); done);
    intros [= <- <-]; subst; cbn; eauto 10.
Qed.

Lemma inbound_verify s m s' x y z r :
  handle_inbound s m = (s', Ok (VerifyAdaptorMaterial x y z r)) ->
  m = AdaptorMaterial x y z r /\ h_phase s = PExchangingAdaptors /\ received_adaptors s = false
  /\ s' = maybe_advance_to_awaiting_ready (set_flags s (sent_adaptors s) true).
Proof.
  unfold handle_inbound. destruct (phase_is_terminal (h_phase s)); [done|].
  destruct m, (h_role s) eqn:Hr, (h_phase s) eqn:Hp; try done;
    try (case_bool_decide; done); destruct (received_adaptors s); try done;
    by intros [= <- <- <- <- <-].
Qed.

Lemma inbound_done s m s' :
  handle_inbound s m = (s', Ok Done) ->
  m = Ready /\ h_phase s = PAwaitingReady /\ s' = set_phase s PNegotiated.
Proof.
  unfold handle_inbound. destruct (phase_is_terminal (h_phase s)); [done|].
  destruct m, (h_role s) eqn:Hr, (h_phase s) eqn:Hp; try done;
    try (case_bool_decide; done); try (destruct (received_adaptors s); done);
    by intros [= <-].
Qed.

Lemma exchange_ok ad v c c' :
  exchange ad v c = (c', Ok tt) ->
  exists theirs,
    t_in (co_transport c)
    = Some (AdaptorMaterial (ab_btc_adaptor theirs) (ab_cync_adaptor theirs) (ab_dl_proof theirs)
              (ab_refund_tx theirs)) :: Some Ready :: t_in (co_transport c')
    /\ v theirs = true
    /\ t_out (co_transport c') = t_out (co_transport c)
         ++ [AdaptorMaterial (ab_btc_adaptor ad) (ab_cync_adaptor ad) (ab_dl_proof ad)
               (ab_refund_tx ad); Ready]
    /\ co_session c' = set_phase (set_flags (co_session c) true true) PNegotiated.
Proof.
  unfold exchange. intros H. do 4 co_step H.
  apply co_bind_ok in H as (c4&[]&Hv%verifier_ok&H). destruct Hv as (->&x&y&z&r&->&Hv).
  do 4 co_step H. apply done_ok in H as [-> ->].
  repeat match goal with
  | Hx : handle_inbound _ _ = (_, Ok Done) |- _ => apply inbound_done in Hx as (->&?&?)
  | Hx : handle_inbound _ _ = (_, Ok (VerifyAdaptorMaterial _ _ _ _)) |- _ =>
      apply inbound_verify in Hx as (->&?&?&?)
  end.
  unfold send_adaptors, send_ready in *. repeat case_bool_decide; try done. cbn in *.
  destruct (sent_adaptors (co_session c)); [done|].
  repeat match goal with Hx : (_, Ok _) = (_, Ok _) |- _ => injection Hx as ?<- end.
  destruct c as [t s], (received_adaptors s) eqn:Hr;
    unfold maybe_advance_to_awaiting_ready in *; cbn in *; rewrite Hr in *.
  { match goal with Hx : set_phase _ _ = co_session c0 |- _ => apply (f_equal h_phase) in Hx end. cbn in *.
    congruence. }
  exists (mkAdaptorBundle x y z r). cbn. split_and!; [congruence|done| |].
  - repeat match goal with Hx : t_out _ = _ |- _ => rewrite Hx; clear Hx
                         | Hx : co_transport ?c = _ |- context [co_transport ?c] => rewrite Hx end.
    by rewrite <- app_assoc.
  - by co_open.
Qed.

Abbreviation material a :=
  (AdaptorMaterial (ab_btc_adaptor a) (ab_cync_adaptor a) (ab_dl_proof a) (ab_refund_tx a)).

(** When Alice's driver succeeds, whatever the peer sent, it sent exactly the
    four messages of the protocol in their order, for her swap; her verifier
    accepted its adaptor material; and the session ends negotiated with her own
    parameters, whose timeouts are safe, and the keys of the peer. *)
Theorem alice_negotiated_exact keys params ad v id c c' :
  co_session c = new_alice id -> run_alice keys params ad v c = (c', Ok tt) ->
  is_timeout_safe params = true
  /\ exists btc cync theirs,
       t_in (co_transport c) = Some (Hello id btc cync) :: Some Accept :: Some (material theirs)
         :: Some Ready :: t_in (co_transport c')
       /\ v theirs = true
       /\ t_out (co_transport c') = t_out (co_transport c)
            ++ [HelloAck (pk_btc keys) (pk_cync keys) params; material ad; Ready]
       /\ co_session c'
          = mkSession Alice PNegotiated id (Some btc) (Some cync) (Some params) true true.
Proof.
  intros Hs H. unfold run_alice, run_alice_post_hello in H. do 2 co_step H.
  apply co_bind_ok in H as (c2&[]&Hw%wait_ok&H). destruct Hw as [-> ->].
  do 4 co_step H. apply co_bind_ok in H as (c6&[]&Hw%wait_ok&H). destruct Hw as [-> ->].
  apply exchange_ok in H as (theirs&Hin&Hv&Hout&Hsess).
  repeat match goal with Hx : handle_inbound _ _ = _ |- _ => apply inbound_wait in Hx end.
  destruct_and?. repeat match goal with Hx : exists _, _ |- _ => destruct Hx end. destruct_and?.
  unfold respond_with_hello_ack in *. repeat case_bool_decide; try done. cbn in *.
  destruct (is_timeout_safe params); [|done]. cbn in *.
  repeat match goal with Hx : (_, Ok _) = (_, Ok _) |- _ => injection Hx as ?<- end.
  split; [done|]. co_open.
  match goal with Hx : t_in _ = Some (Hello _ ?b ?c) :: _ |- _ => exists b, c, theirs end.
  split_and!; [congruence|done| |done].
  repeat match goal with Hx : t_out _ = _ |- _ => rewrite Hx; clear Hx end.
  by rewrite <- app_assoc.
Qed.

(** When Bob's driver succeeds, the session ends with the parameters and keys of
    Alice's [HelloAck], and his verifier accepted her adaptor material. *)
Lemma bob_negotiated keys ad v id c c' :
  co_session c = new_bob id -> run_bob keys ad v c = (c', Ok tt) ->
  exists btc cync params theirs,
    t_in (co_transport c) = Some (HelloAck btc cync params) :: Some (material theirs)
      :: Some Ready :: t_in (co_transport c')
    /\ v theirs = true
    /\ t_out (co_transport c') = t_out (co_transport c)
         ++ [Hello id (pk_btc keys) (pk_cync keys); Accept; material ad; Ready]
    /\ co_session c' = mkSession Bob PNegotiated id (Some btc) (Some cync) (Some params) true true.
Proof.
  intros Hs H. unfold run_bob in H. do 4 co_step H.
  apply co_bind_ok in H as (c6&[]&Hw%wait_ok&H). destruct Hw as [-> ->]. do 2 co_step H.
  apply exchange_ok in H as (theirs&Hin&Hv&Hout&Hsess).
  repeat match goal with Hx : handle_inbound _ _ = _ |- _ => apply inbound_wait in Hx end.
  repeat match goal with Hx : exists _, _ |- _ => destruct Hx end. destruct_and?.
  unfold start_bob, accept in *. co_open. repeat case_bool_decide; try done. cbn in *.
  repeat match goal with Hx : (_, Ok _) = (_, Ok _) |- _ => injection Hx as ?<- end. co_open.
  match goal with Hx : t_in _ = Some (HelloAck ?b ?c ?p) :: _ |- _ => exists b, c, p, theirs end.
  split_and!; [congruence|done| |done].
  repeat match goal with Hx : t_out _ = _ |- _ => rewrite Hx; clear Hx end.
  by rewrite <- !app_assoc.
Qed.

(** ** Completion *)

Section dialogue.
Context (id : string) (ka kb : Pubkeys) (params : SwapParameters) (aa ab : AdaptorBundle).
Context (va vb : AdaptorBundle -> bool).

(** Each party on what the other one has sent so far. *)
Definition alice_on (inbox : list Message) : Coordinator * result coord_error unit :=
  run_alice ka params aa va (mkCoordinator (mkTransport (Some <$> inbox) [] 10) (new_alice id)).
Definition bob_on (inbox : list Message) : Coordinator * result coord_error unit :=
  run_bob kb ab vb (mkCoordinator (mkTransport (Some <$> inbox) [] 10) (new_bob id)).

(** The messages of Alice and of Bob after [n] rounds in which Bob, then Alice,
    goes as far as the messages that have arrived allow. *)
Fixpoint dialogue (n : nat) : list Message * list Message :=
  match n with
  | O => ([], [])
  | S n =>
      let '(ma, _) := dialogue n in
      let mb := t_out (co_transport (bob_on ma).1) in
      (t_out (co_transport (alice_on mb).1), mb)
  end.
End dialogue.

Lemma bind_step {A B} (m : Co A) (k : A -> Co B) c c1 a :
  m c = (c1, Ok a) -> (m ≫= k) c = k a c1.
Proof. intros H. unfold mbind, co_bind. by rewrite H. Qed.

Lemma bind_stop {A B} (m : Co A) (k : A -> Co B) c c1 e :
  m c = (c1, Err e) -> (m ≫= k) c = (c1, Err e).
Proof. intros H. unfold mbind, co_bind. by rewrite H. Qed.

(** Evaluate a driver on a given inbox. *)
Ltac co_eval1 :=
  unfold on_session, start_bob, handle_inbound, respond_with_hello_ack, accept, send_adaptors,
    send_ready, expect_wait_for, expect_done, run_verifier; cbn;
  repeat (rewrite (bool_decide_eq_true_2 (_ = _)) by done; cbn);
  repeat match goal with Hx : _ = true |- _ => rewrite Hx; cbn end; reflexivity.

Ltac co_eval :=
  repeat first [erewrite bind_step by co_eval1 | erewrite bind_stop by co_eval1];
  try co_eval1.

Section completion.
Context (id : string) (ka kb : Pubkeys) (params : SwapParameters) (aa ab : AdaptorBundle).
Context (va vb : AdaptorBundle -> bool).
Hypothesis Hsafe : is_timeout_safe params = true.
Hypothesis Ha : va (mkAdaptorBundle (ab_btc_adaptor ab) (ab_cync_adaptor ab) (ab_dl_proof ab)
                      (ab_refund_tx ab)) = true.
Hypothesis Hb : vb (mkAdaptorBundle (ab_btc_adaptor aa) (ab_cync_adaptor aa) (ab_dl_proof aa)
                      (ab_refund_tx aa)) = true.

Lemma bob_round1 :
  t_out (co_transport (bob_on id kb ab vb []).1) = [Hello id (pk_btc kb) (pk_cync kb)].
Proof. unfold bob_on, run_bob. by co_eval. Qed.

Lemma alice_round1 :
  t_out (co_transport (alice_on id ka params aa va [Hello id (pk_btc kb) (pk_cync kb)]).1)
  = [HelloAck (pk_btc ka) (pk_cync ka) params].
Proof using Hsafe. unfold alice_on, run_alice, run_alice_post_hello. by co_eval. Qed.

Lemma bob_round2 :
  t_out (co_transport (bob_on id kb ab vb [HelloAck (pk_btc ka) (pk_cync ka) params]).1)
  = [Hello id (pk_btc kb) (pk_cync kb); Accept; material ab].
Proof. unfold bob_on, run_bob, exchange. by co_eval. Qed.

Lemma alice_round2 :
  t_out (co_transport (alice_on id ka params aa va
    [Hello id (pk_btc kb) (pk_cync kb); Accept; material ab]).1)
  = [HelloAck (pk_btc ka) (pk_cync ka) params; material aa; Ready].
Proof using Hsafe Ha.
  unfold alice_on, run_alice, run_alice_post_hello, exchange. by co_eval.
Qed.

Lemma bob_round3 : exists t,
  bob_on id kb ab vb [HelloAck (pk_btc ka) (pk_cync ka) params; material aa; Ready]
  = (mkCoordinator t (mkSession Bob PNegotiated id (Some (pk_btc ka)) (Some (pk_cync ka))
       (Some params) true true), Ok tt)
  /\ t_out t = [Hello id (pk_btc kb) (pk_cync kb); Accept; material ab; Ready].
Proof using Hb. eexists. split; [unfold bob_on, run_bob, exchange; by co_eval|done]. Qed.

Lemma alice_round3 : exists t,
  alice_on id ka params aa va [Hello id (pk_btc kb) (pk_cync kb); Accept; material ab; Ready]
  = (mkCoordinator t (mkSession Alice PNegotiated id (Some (pk_btc kb)) (Some (pk_cync kb))
       (Some params) true true), Ok tt)
  /\ t_out t = [HelloAck (pk_btc ka) (pk_cync ka) params; material aa; Ready].
Proof using Hsafe Ha.
  eexists. split; [unfold alice_on, run_alice, run_alice_post_hello, exchange; by co_eval|done].
Qed.
End completion.

(** Two honest parties with safe timeouts and matching material complete the
    negotiation: no party waits for a message the other one sends only later,
    after three rounds both drivers succeed, and the sessions agree on the
    parameters and hold each other's keys. *)
Theorem handshake_completes id ka kb params aa ab va vb :
  is_timeout_safe params = true -> va ab = true -> vb aa = true ->
  let '(ma, mb) := dialogue id ka kb params aa ab va vb 3 in
  (alice_on id ka params aa va mb).2 = Ok tt /\ (bob_on id kb ab vb ma).2 = Ok tt
  /\ co_session (alice_on id ka params aa va mb).1
     = mkSession Alice PNegotiated id (Some (pk_btc kb)) (Some (pk_cync kb)) (Some params) true true
  /\ co_session (bob_on id kb ab vb ma).1
     = mkSession Bob PNegotiated id (Some (pk_btc ka)) (Some (pk_cync ka)) (Some params) true true.
Proof.
  intros Hs Ha Hb.
  assert (Ha' : va (mkAdaptorBundle (ab_btc_adaptor ab) (ab_cync_adaptor ab) (ab_dl_proof ab)
    (ab_refund_tx ab)) = true) by by destruct ab.
  assert (Hb' : vb (mkAdaptorBundle (ab_btc_adaptor aa) (ab_cync_adaptor aa) (ab_dl_proof aa)
    (ab_refund_tx aa)) = true) by by destruct aa.
  cbn [dialogue]. rewrite bob_round1, (alice_round1 id ka kb params aa va Hs), bob_round2.
  rewrite (alice_round2 id ka kb params aa ab va Hs Ha').
  destruct (bob_round3 id ka kb params aa ab vb Hb') as (tb&Eb&Ob).
  destruct (alice_round3 id ka kb params aa ab va Hs Ha') as (ta&Ea&Oa).
  rewrite Eb. cbn [fst co_transport]. rewrite Ob, Ea. cbn [fst co_transport]. rewrite Oa, Eb. done.
Qed.

(** Bob's driver accepts whatever timeouts Alice proposes. *)
Theorem bob_accepts_unsafe_timeouts id ka kb params aa ab vb :
  is_timeout_safe params = false -> vb aa = true ->
  (bob_on id kb ab vb [HelloAck (pk_btc ka) (pk_cync ka) params; material aa; Ready]).2 = Ok tt
  /\ h_parameters (co_session (bob_on id kb ab vb
       [HelloAck (pk_btc ka) (pk_cync ka) params; material aa; Ready]).1) = Some params.
Proof.
  intros _ Hb. destruct (bob_round3 id ka kb params aa ab vb) as (t&->&_); [by destruct aa|done].
Qed.

(** ** Witnesses *)

Definition demo_hmac (k : list Z) (b : StateFileBody) : string := "ok".
Definition demo_env : Env := mkEnv 0 (replicate 32 7) true true (Some [1]) true true true true.
Definition demo_params : SwapParameters :=
  mkSwapParameters 100 10 720 100 "alice" "bob" "unknown" "unknown".

Definition alice_refund_run : list (Command * Env) :=
  [(CmdAlice "s" 100 10 "alice" "bob", demo_env); (CmdLockCync, demo_env);
   (CmdClaimBtc, demo_env); (CmdTransition KObserveBobLocked, demo_env);
   (CmdRefundCync, demo_env); (CmdClaimBtc, demo_env)].

Lemma swap_terminates_witness :
  exists w', apply_all (mkSwap "s" Bob Negotiated demo_params)
    [ObserveAliceLocked; BobLocksBtc; ObserveSecretRevealed; BobClaimsCync] = Ok w'
  /\ (4 + rank (s_state w') <= 4)%nat.
Proof.
  eexists. split; [reflexivity|].
  apply (swap_terminates (mkSwap "s" Bob Negotiated demo_params)
    [ObserveAliceLocked; BobLocksBtc; ObserveSecretRevealed; BobClaimsCync]). reflexivity.
Defined.

Lemma timeout_safe_exact_witness : 5000 + btc_timeout_secs demo_params < cync_timeout_secs demo_params.
Proof.
  apply (timeout_safe_exact demo_params) with (alice_lock := 0) (bob_lock := 5000);
    vm_compute; intuition discriminate.
Defined.

Lemma swap_file_roundtrip_witness :
  let w := mkSwap "s" Alice AliceLocked demo_params in
  load demo_hmac (save demo_hmac (mkDisk None None) 5 (replicate 32 7) true true w).1 = Ok (Some w).
Proof.
  intros w. apply (swap_file_roundtrip demo_hmac (mkDisk None None) 5 (replicate 32 7) true true w).
  reflexivity.
Defined.

Lemma one_way_out_witness :
  (n_sent (run_commands demo_hmac fresh_node alice_refund_run)).*1 = [AliceLocksCync; AliceRefunds]
  /\ (n_sent (run_commands demo_hmac fresh_node alice_refund_run)).*1 ∈ swap_logs.
Proof.
  split; [vm_compute; reflexivity|]. apply (one_way_out demo_hmac alice_refund_run).
  repeat (constructor; [by repeat split|]). constructor.
Defined.

(** The same with the answer to the claim lost. *)
Definition lost_env : Env := mkEnv 0 (replicate 32 7) true true (Some [1]) true true true false.

Lemma lost_answer_sends_both_witness :
  let n := run_commands demo_hmac fresh_node [(CmdAlice "s" 100 10 "alice" "bob", demo_env);
    (CmdLockCync, demo_env); (CmdTransition KObserveBobLocked, demo_env)] in
  (n_sent (run_commands demo_hmac n [(CmdClaimBtc, lost_env); (CmdRefundCync, demo_env)])).*1
  = [AliceLocksCync; AliceClaimsBtc; AliceRefunds].
Proof.
  intros n. rewrite (lost_answer_sends_both demo_hmac n lost_env demo_env
    (mkSwap "s" Alice BobLocked demo_params) [1] [1]);
    vm_compute; (reflexivity || discriminate).
Defined.

(** Alice cancels with her lock on the chain; the refund is refused. *)
Lemma cancel_strands_lock_witness :
  let n := run_commands demo_hmac fresh_node (take 2 alice_refund_run) in
  (n_sent n).*1 = [AliceLocksCync]
  /\ is_ok (run_command demo_hmac CmdRefundCync n demo_env).2 = true
  /\ is_ok (run_command demo_hmac CmdRefundCync (cancel_cmd demo_hmac n demo_env).1 demo_env).2
     = false.
Proof.
  intros n. split_and!; [vm_compute; reflexivity..|].
  apply (cancel_strands_lock demo_hmac n demo_env (cancel_cmd demo_hmac n demo_env).1 []
    CmdRefundCync demo_env); [by repeat split|vm_compute; reflexivity|constructor|reflexivity].
Defined.

Definition demo_keys : Pubkeys := mkPubkeys [1] [2].
Definition demo_bundle : AdaptorBundle := mkAdaptorBundle [1] [2] [3] [4].

Lemma alice_negotiated_exact_witness :
  is_timeout_safe demo_params = true.
Proof.
  apply (alice_negotiated_exact demo_keys demo_params demo_bundle (fun _ => true) "s"
    (mkCoordinator (mkTransport (Some <$> [Hello "s" [5] [6]; Accept; material demo_bundle; Ready])
       [] 10) (new_alice "s"))
    (alice_on "s" demo_keys demo_params demo_bundle (fun _ => true)
       [Hello "s" [5] [6]; Accept; material demo_bundle; Ready]).1); vm_compute; reflexivity.
Defined.

Lemma handshake_completes_witness :
  let '(ma, mb) := dialogue "s" demo_keys demo_keys demo_params demo_bundle demo_bundle
                     (fun _ => true) (fun _ => true) 3 in
  (alice_on "s" demo_keys demo_params demo_bundle (fun _ => true) mb).2 = Ok tt.
Proof.
  apply (handshake_completes "s" demo_keys demo_keys demo_params demo_bundle demo_bundle
    (fun _ => true) (fun _ => true)); vm_compute; reflexivity.
Defined.

(** The networks of a new swap are unknown, and the commands broadcast for it. *)
Theorem unknown_network_broadcasts :
  let n := run_commands demo_hmac fresh_node (take 2 alice_refund_run) in
  n_sent n = [(AliceLocksCync, [1])]
  /\ (fun w => cync_network (s_parameters w)) <$> load_swap demo_hmac n = Ok "unknown"%string.
Proof. vm_compute. done. Qed.
